(* ===== verification/_CoqProject ===== *)
-Q . S2P
Prelude.v
Varint.v
Streams.v
IntUtil.v
StringTools.v
Base58.v
Config.v
Amounts.v
CryptoNoteTypes.v
Serialization.v
CryptoNoteSerialization.v
Crypto.v
Currency.v
Difficulty.v
TransactionExtra.v
TreeHash.v
FormatUtils.v
TransactionObjects.v
DepositIndex.v
BlockIndex.v
Checkpoints.v
UpgradeDetector.v
BlockchainIndices.v
ChainState.v
InputCheck.v
TransactionPool.v
BlockRules.v
Blockchain.v
ChainInvariant.v
NodeInvariant.v
AlternativeChains.v
ChainLinks.v
BlockQueries.v
Core.v
SignedArithmetic.v
Primality.v
FieldElement.v
FieldTheorems.v
EdwardsCurve.v
Keccak.v
GroupElement.v
BaseTable.v
ScalarMult.v
Curve25519.v
GroupTheorems.v
MapToCurve.v
BaseTheorems.v
Scalars.v
ScalarTheorems.v
ScalarDigits.v
ScalarMultTheorems.v
GroupOrder.v
CryptoKeys.v
CryptoTheorems.v
RingTheorems.v
CryptoInstance.v
Transfers.v
TransfersInvariant.v
TransfersTheorems.v
TransfersHistory.v
TransfersStorage.v
