(* ===== verification/Prelude.v ===== *)
(** * Lithe: a verification development

    Lithe is a CryptoNote currency with deposits that bear interest. This library
    models the consensus core of the node, [src/src/CryptoNoteCore], together with the
    code it stands on ([src/src/Common], [src/src/Serialization]) and the cryptography
    of [src/src/crypto] from the limbs of field elements to ring signatures, as functions
    of Rocq, and proves what these functions do.

    ** How the program is modelled

    - A pure function of the source is a function; a function that changes an object
      takes and returns the state of the object. Containers are lists, finite maps
      and finite sets; a hash container is a finite map, unless the code depends on an
      order, and then it is a list.
    - An unsigned integer of [w] bits is a [Z]; every operation that can leave its
      range is followed by [u8], [u16], [u32], [u64] or [i64]. A signed integer of the
      curve arithmetic that leaves its range is [Abort] ([int32] and [int64] of file
      [SignedArithmetic]); left shifts and conversions wrap around.
    - The type [outcome] below has the ways in which a call ends: it returns ([Ret]), it
      throws ([Throw]), or the process stops at an assertion, an access out of range or
      a signed overflow ([Abort]). A function that reports failure by [false] returns an option or
      a boolean. An exception loses the state.
    - The chain code sees cryptography as the class [CryptoOps], with the laws that
      theorems use in [CryptoLaws] (file [Crypto]). The model of [crypto.cpp] is an
      instance ([CryptoInstance]); [toy_crypto] is a small one with which the examples
      are evaluated. The proof-of-work hashes and the stream cipher, the clock, random
      numbers of the node and the seed of the generator of [random.c], the contents of uninitialised
      memory, the order in which [std::sort] leaves equal elements and the order of the
      hash indices of [TransfersContainer] are parameters.
    - Loops are structural recursions where the source walks over a container.
      Otherwise they have fuel, and the theorems about them show that it is enough:
      ten groups of seven bits in [Varint] and [Streams], the requested bytes in
      [Streams.read], eleven digits in [Base58], twenty digits in [Amounts], 34
      doublings of a distance in [BlockIndex], the levels of the tree in [TreeHash],
      the length of the list in [FormatUtils.merge_outs] and [TransactionExtra], the
      number of blocks in [Blockchain.rollbackBlockchainTo] and of alternative blocks
      in [AlternativeChains.alt_walk], the bits of an index in [alt_sparse_loop], the
      length of the searched range in [BlockQueries.lower_bound] and of the text in
      [Checkpoints.load_file_loop], the length of the input in [Keccak.absorb_loop] and
      of the output in [Keccak.random_loop], the 256 digits and the six places of a
      window in [ScalarMult.slide]. A reorganisation can hand the old blocks to
      [handle_alternative_block] again; the fuel of this function bounds the depth of
      such calls, more fuel gives the same answers ([ChainLinks.handle_fuel]), and the
      theorems hold for every fuel.

    ** Files

    - [Prelude]: integers, outcomes, lists, tactics and hints.
    - [Varint], [Streams], [StringTools], [Base58], [IntUtil]: [Common/Varint.h], the
      memory and string streams with [StreamTools.cpp], [StringTools.cpp],
      [Base58.cpp], [int-util.h] and [check_hash] of [Difficulty.cpp].
    - [CryptoNoteTypes], [Serialization], [CryptoNoteSerialization]: blocks and
      transactions ([include/CryptoNote.h]) and their binary form
      ([BinaryInputStreamSerializer.cpp], [BinaryOutputStreamSerializer.cpp],
      [CryptoNoteSerialization.cpp]). One description of a field order is run with
      either serializer, as in the source ([ISerializer]).
    - [Crypto]: the interface of the chain code to the cryptography.
    - [Config], [Currency], [Amounts], [Difficulty]: [CryptoNoteConfig.h] and
      [Currency.cpp]: parameters, rewards, fees, interest, fusion transactions,
      amounts as text, addresses, the genesis block and the difficulty.
    - [TransactionExtra], [TreeHash], [FormatUtils]: [TransactionExtra.cpp],
      [tree-hash.c], and [CryptoNoteFormatUtils.cpp]: construction of transactions,
      recognition of outputs, checks of form.
    - [TransactionObjects]: the objects through which wallets read and write
      transactions ([Transaction.cpp], [TransactionPrefixImpl.cpp],
      [TransactionUtils.cpp], [TransactionApiExtra.h]).
    - [DepositIndex], [BlockIndex], [Checkpoints], [UpgradeDetector],
      [BlockchainIndices]: the classes of these names.
    - [ChainState]: the tables of [Blockchain] (transactions, key images, outputs,
      payment ids) with [pushTransaction] and [popTransaction].
    - [InputCheck]: [checkTransactionInputs] and what it calls.
    - [TransactionPool]: [TransactionPool.cpp], against the class
      [ITransactionValidator], which [BlockRules] implements with the chain.
    - [BlockRules], [Blockchain]: [Blockchain.cpp]: the checks on a block, and the
      operations that add and remove blocks and build the tables again.
    - [ChainInvariant], [NodeInvariant]: the theorems about these operations, first for
      the chain, then for the chain together with the pool from which [pushBlock] takes
      the transactions of a block and to which they return.
    - [AlternativeChains], [ChainLinks]: blocks off the main chain, reorganisations and
      their rollback, [addNewBlock] and [resetAndSetGenesisBlock]; the theorems about
      them.
    - [BlockQueries]: what [Blockchain] answers to other nodes and to wallets, and
      [Common/ShuffleGenerator.h].
    - [Core]: the way of a transaction from the network into the pool, and the checks of
      [Core.cpp] it passes.
    - [Transfers], [TransfersInvariant], [TransfersTheorems], [TransfersHistory],
      [TransfersStorage]: [Transfers/TransfersContainer.cpp], the outputs that a wallet
      received and spent: the operations, their invariant, that each operation keeps
      it, the theorems about the states a wallet can reach, and the stored form.

    - [SignedArithmetic], [FieldElement], [GroupElement], [BaseTable], [ScalarMult],
      [Scalars]: [crypto-ops.c] and [crypto-ops-data.c]: the field modulo 2^255 - 19 in
      ten limbs, points of the curve, the tables of the base point, multiplication by
      scalars, the map to the curve and the arithmetic of scalars, all with the
      carries, tables and digit recodings of the code.
    - [Keccak]: [keccak.c], [hash.c] and [random.c].
    - [CryptoKeys]: [crypto.cpp]: keys, derivations, signatures, key images and ring
      signatures.
    - [Primality], [EdwardsCurve], [Curve25519]: the mathematics they are compared
      with: primes by certificates, the group of a twisted Edwards curve over any field
      in which -1 is a square and the parameter is not, and the instance of the code.
    - [FieldTheorems], [GroupTheorems], [MapToCurve], [BaseTheorems], [ScalarDigits],
      [ScalarMultTheorems], [ScalarTheorems], [GroupOrder], [CryptoTheorems],
      [RingTheorems], [CryptoInstance]: the theorems about them.

    ** What is shown

    - The chain: [pushBlock] keeps the tables those that [rebuildCache] computes from
      the stored blocks, no key image is spent twice, the pool shares no transaction with
      the chain, a refused block leaves nothing behind (but for its size, and in the
      checkpoint zone for multisignature inputs), [popBlock] undoes [pushBlock] and
      gives the pool its transactions back ([NodeInvariant]); transactions from the
      network keep this invariant ([Core]);
      [popTransaction] undoes [pushTransaction] ([ChainState]); the inputs that are
      accepted are exactly those that are in order ([InputCheck]); in every state that
      a node reaches from its genesis block the stored blocks are linked by their
      hashes, also after nested, failed and rolled back reorganisations, which happen
      exactly for a checkpoint or more work and replace the blocks above the split by
      those of the alternative chain ([ChainLinks]); a node that asks for blocks
      gets an answer that continues its chain, and random outputs for mixing are
      different unlocked outputs ([BlockQueries]); the miner's
      transaction that the node builds passes its own checks, and the difficulty is
      defined for every chain ([BlockRules]).
    - The pool: its tables describe its transactions, a template for a block has no
      double spends and respects the limits ([TransactionPool]).
    - Wallets: a transaction object keeps its hash and its fields in step, a signed input
      stays valid and an added output is found by its account ([TransactionObjects]);
      in every state that a wallet reaches the indices of its transfers agree, no key
      image is counted twice in a balance, removed blocks and deleted transactions
      leave what was there without them, the reported outputs are those that become
      spendable ([TransfersHistory]), and a saved container is loaded as it was
      ([TransfersStorage]).
    - Cryptography: the field operations return without overflow on limbs within their
      bounds and have the value of the product modulo the prime ([FieldTheorems]); the
      formulas for points compute the group of the curve, bytes are accepted exactly if
      they encode a point ([GroupTheorems]), the map to the curve is total
      ([MapToCurve]); all 256 entries of the tables are the multiples they stand for
      ([BaseTheorems]) and the multiplications by scalars give multiples
      ([ScalarMultTheorems]); the curve has eight times as many points as the prime
      order of the base point ([GroupOrder]); scalars are reduced exactly
      ([ScalarTheorems]); the hash is the sponge of the padded message ([Keccak]). From
      this follow agreement of the two parties of a key exchange, one-time keys that
      match, signatures that verify ([CryptoTheorems]), ring signatures that verify,
      the exact condition under which they are accepted, that the daemon's test of
      a key image refuses a second image of the same key by a point of small order, and
      that derivations have no part of small order ([RingTheorems]). The laws the chain theorems assume hold for this code
      ([CryptoInstance]). That signatures cannot be forged and that the hash has no
      collisions are not statements about the code and are not claimed.
    - Formats: round trips and canonicity of variable-length integers, blocks,
      transactions, extra fields, addresses and base58.
    - Amounts: rewards, penalties, fees, interest and overflow checks against exact
      arithmetic on [Z] ([Currency], [FormatUtils]); division of 128-bit integers and
      the proof of work ([IntUtil], [Difficulty]).
    - Structures: the deposit index refines a list of blocks, the block index is a
      bijection, the Merkle tree in place is the tree of its definition, the votes for
      an upgrade are counted exactly.
    - Where the code does not do what it means to, a theorem states what it does.

    ** Not modelled

    The proof-of-work hashes (CryptoNight and what it calls) and ChaCha8, which are
    operations of [CryptoOps] (parameters); threads, locks, observers,
    logging and the files of the node; the wallets on top of the transfers container;
    [Blockchain::init] and the stored cache; what [Core.cpp] has beside transactions from
    the network (its queries, which pass calls on, and the assembly of block templates);
    the network and RPC protocols, the synchronisation of wallets and the command line
    programs, which are input and output around the core. *)

From Stdlib Require Export ZArith Lia.
From stdpp Require Export base list numbers gmap sets strings option.

Local Open Scope Z_scope.

(** ** Machine integers

    An unsigned [w]-bit integer of the C++ source is a [Z] in [[0, 2^w)];
    [wrap w] is the conversion that every arithmetic operation of that width
    ends with. *)

Definition wrap (w z : Z) : Z := z mod 2 ^ w.

Definition u8 (z : Z) : Z := wrap 8 z.
Definition u16 (z : Z) : Z := wrap 16 z.
Definition u32 (z : Z) : Z := wrap 32 z.
Definition u64 (z : Z) : Z := wrap 64 z.

(** Conversion to the signed 64-bit type. *)
Definition i64 (z : Z) : Z := (z + 2 ^ 63) mod 2 ^ 64 - 2 ^ 63.

Definition UINT8_MAX : Z := 2 ^ 8 - 1.
Definition UINT32_MAX : Z := 2 ^ 32 - 1.
Definition UINT64_MAX : Z := 2 ^ 64 - 1.
Definition INT64_MAX : Z := 2 ^ 63 - 1.
Definition INT64_MIN : Z := - 2 ^ 63.

Definition in_range (w z : Z) : Prop := 0 <= z < 2 ^ w.
Abbreviation is_u8 := (in_range 8).
Abbreviation is_u16 := (in_range 16).
Abbreviation is_u32 := (in_range 32).
Abbreviation is_u64 := (in_range 64).

#[export] Instance in_range_dec w z : Decision (in_range w z).
Proof. unfold in_range. apply _. Defined.

(** ** Outcomes of a C++ call

    [Throw] is a C++ exception; [Abort] is a failed [assert] (the project's
    build files leave assertions enabled), a call of [abort], an access outside an array
    or a signed overflow. *)

Inductive outcome (A : Type) : Type :=
| Ret (a : A)
| Throw (what : string)
| Abort.
Arguments Ret {A} a.
Arguments Throw {A} what.
Arguments Abort {A}.

#[export] Instance outcome_ret : MRet outcome := @Ret.
#[export] Instance outcome_bind : MBind outcome := fun A B f m =>
  match m with Ret a => f a | Throw e => Throw e | Abort => Abort end.

Definition assert_ (b : bool) : outcome unit := if b then Ret tt else Abort.

(** Reading [v[i]] of a [std::vector]. *)
Definition at_ {A} (l : list A) (i : Z) : outcome A :=
  if i <? 0 then Abort
  else match l !! Z.to_nat i with Some x => Ret x | None => Abort end.

Definition is_ret {A} (m : outcome A) : bool :=
  match m with Ret _ => true | _ => false end.

(** Stateful code that may fail. *)
Definition M (S A : Type) : Type := S → outcome (A * S).

#[export] Instance M_ret S : MRet (M S) := fun A a s => Ret (a, s).
#[export] Instance M_bind S : MBind (M S) := fun A B f m s =>
  match m s with Ret (a, s') => f a s' | Throw e => Throw e | Abort => Abort end.

Definition throw {S A} (what : string) : M S A := fun _ => Throw what.
Definition abort {S A} : M S A := fun _ => Abort.
Definition lift {S A} (m : outcome A) : M S A := fun s =>
  match m with Ret a => Ret (a, s) | Throw e => Throw e | Abort => Abort end.

Declare Scope lithe_scope.
Delimit Scope lithe_scope with lithe.
Notation "'guard!' b 'else' e ; k" := (if b then k else e)
  (at level 100, b at level 99, e at level 99, k at level 200,
   right associativity, only parsing) : lithe_scope.
Open Scope lithe_scope.

(** ** Automation *)

Create HintDb lithe.

(** Case analysis on the boolean tests of the code. *)
Ltac bool_to_prop :=
  repeat match goal with
  | H : (_ <? _) = true |- _ => apply Z.ltb_lt in H
  | H : (_ <? _) = false |- _ => apply Z.ltb_ge in H
  | H : (_ <=? _) = true |- _ => apply Z.leb_le in H
  | H : (_ <=? _) = false |- _ => apply Z.leb_gt in H
  | H : (_ =? _) = true |- _ => apply Z.eqb_eq in H
  | H : (_ =? _) = false |- _ => apply Z.eqb_neq in H
  | H : (_ && _) = true |- _ => apply andb_true_iff in H; destruct H
  | H : (_ || _) = false |- _ => apply orb_false_iff in H; destruct H
  | H : negb _ = true |- _ => apply negb_true_iff in H
  | H : negb _ = false |- _ => apply negb_false_iff in H
  end.

Ltac case_bool :=
  match goal with
  | |- context [if ?b then _ else _] =>
      lazymatch type of b with bool => destruct b eqn:? end
  end; bool_to_prop.

Ltac case_bool_in H :=
  match type of H with
  | context [if ?b then _ else _] =>
      lazymatch type of b with bool => destruct b eqn:? end
  end; bool_to_prop.

(** Linear arithmetic with division and remainder by constants. *)
Ltac zlia := Z.to_euclidean_division_equations; lia.

(** ** Integers *)

Lemma wrap_small w z : in_range w z → wrap w z = z.
Proof. intros H. apply Z.mod_small, H. Qed.

Lemma wrap_range w z : 0 <= w → in_range w (wrap w z).
Proof. intros H. apply Z.mod_pos_bound. lia. Qed.

Lemma u8_range z : is_u8 (u8 z).
Proof. by apply wrap_range. Qed.
Lemma u32_range z : is_u32 (u32 z).
Proof. by apply wrap_range. Qed.
Lemma u64_range z : is_u64 (u64 z).
Proof. by apply wrap_range. Qed.
#[export] Hint Resolve u8_range u32_range u64_range : lithe.

Lemma u8_small z : is_u8 z → u8 z = z.
Proof. apply wrap_small. Qed.
Lemma u16_small z : is_u16 z → u16 z = z.
Proof. apply wrap_small. Qed.
Lemma u32_small z : is_u32 z → u32 z = z.
Proof. apply wrap_small. Qed.
Lemma u64_small z : is_u64 z → u64 z = z.
Proof. apply wrap_small. Qed.

Lemma i64_small z : - 2 ^ 63 <= z < 2 ^ 63 → i64 z = z.
Proof. intros H. unfold i64. rewrite Z.mod_small; lia. Qed.

Lemma wrap_add_l w a b : wrap w (wrap w a + b) = wrap w (a + b).
Proof. unfold wrap. apply Zplus_mod_idemp_l. Qed.

Lemma wrap_add_r w a b : wrap w (a + wrap w b) = wrap w (a + b).
Proof. unfold wrap. apply Zplus_mod_idemp_r. Qed.

Lemma wrap_wrap w z : 0 <= w → wrap w (wrap w z) = wrap w z.
Proof. intros. unfold wrap. rewrite Z.mod_mod; lia. Qed.

(** Masks and shifts by constants as arithmetic. *)
Lemma land_ones_mod a n : 0 <= n → Z.land a (2 ^ n - 1) = a mod 2 ^ n.
Proof.
  intros. rewrite <- Z.land_ones by done. f_equal.
  rewrite Z.ones_equiv. lia.
Qed.

Lemma lor_shiftl_add a b n : 0 <= n → 0 <= a < 2 ^ n →
  Z.lor a (Z.shiftl b n) = a + b * 2 ^ n.
Proof.
  intros Hn Ha. rewrite <- Z.shiftl_mul_pow2 by done.
  rewrite <- Z.lxor_lor, <- Z.add_nocarry_lxor; [done| |];
    (apply Z.bits_inj'; intros k Hk;
     rewrite Z.land_spec, Z.bits_0, Z.shiftl_spec by done;
     destruct (Z.ltb_spec k n);
     [rewrite (Z.testbit_neg_r b) by lia; apply andb_false_r|
      rewrite <- (Z.mod_small a (2 ^ n)), Z.mod_pow2_bits_high by lia; done]).
Qed.

(** ** Lists of machine integers *)

Definition bytes : Type := list Z.
Definition is_bytes (l : list Z) : Prop := Forall is_u8 l.

#[export] Instance is_bytes_dec l : Decision (is_bytes l).
Proof. unfold is_bytes. apply _. Defined.

(** A decidable fact about a byte is checked on the 256 values. *)
Lemma u8_forall (f : Z → bool) :
  forallb f (seqZ 0 256) = true → ∀ b, is_u8 b → f b = true.
Proof.
  intros H b Hb. rewrite forallb_forall in H. apply H, list_elem_of_In.
  apply elem_of_seqZ. unfold in_range in Hb. lia.
Qed.

(** Sum of a [std::vector<uint64_t>] in the wrapping arithmetic of the code
    and over the integers. *)
Definition sum64 (l : list Z) : Z := fold_left (λ acc x, u64 (acc + x)) l 0.
Definition sumZ (l : list Z) : Z := foldr Z.add 0 l.

Lemma sumZ_nil : sumZ [] = 0.
Proof. done. Qed.

Lemma sumZ_cons x l : sumZ (x :: l) = x + sumZ l.
Proof. done. Qed.

Lemma sumZ_app l k : sumZ (l ++ k) = sumZ l + sumZ k.
Proof. induction l; simpl; [done|]. rewrite IHl. lia. Qed.

Lemma sumZ_nonneg l : Forall (λ x, 0 <= x) l → 0 <= sumZ l.
Proof. induction 1; simpl; lia. Qed.

(** The elements of a sum that fits 64 bits fit 64 bits. *)
Lemma sumZ_u64 l : Forall (λ x, 0 <= x) l → sumZ l < 2 ^ 64 → Forall is_u64 l.
Proof.
  induction 1 as [|x l Hx Hl IH]; intros Hs; [constructor|]. rewrite sumZ_cons in Hs.
  pose proof (sumZ_nonneg l Hl). constructor; [unfold in_range; lia|apply IH; lia].
Qed.

#[export] Instance sumZ_perm : Proper ((≡ₚ) ==> (=)) sumZ.
Proof. intros l k. induction 1; rewrite ?sumZ_cons in *; lia. Qed.

Lemma fold_left_u64_add l acc :
  fold_left (λ a x, u64 (a + x)) l (u64 acc) = u64 (acc + sumZ l).
Proof.
  revert acc. induction l as [|x l IH]; intros acc; simpl.
  - f_equal. lia.
  - unfold u64 at 2. rewrite wrap_add_l. fold (u64 (acc + x)).
    rewrite IH. f_equal. lia.
Qed.

Lemma sum64_spec l : sum64 l = u64 (sumZ l).
Proof. exact (fold_left_u64_add l 0). Qed.

Lemma sum64_exact l : is_u64 (sumZ l) → sum64 l = sumZ l.
Proof. intros H. rewrite sum64_spec. by apply u64_small. Qed.

(** ** Outcomes *)

Lemma outcome_bind_ret {A B} (m : outcome A) (f : A → outcome B) b :
  (m ≫= f) = Ret b → ∃ a, m = Ret a ∧ f a = Ret b.
Proof. destruct m; simpl; naive_solver. Qed.

Lemma assert_ret b u : assert_ b = Ret u → b = true.
Proof. by destruct b. Qed.

Lemma at_Some {A} (l : list A) i x :
  0 <= i → l !! Z.to_nat i = Some x → at_ l i = Ret x.
Proof. intros H E. unfold at_. case_bool; [lia|]. by rewrite E. Qed.

Lemma at_ret {A} (l : list A) i x :
  at_ l i = Ret x → 0 <= i ∧ l !! Z.to_nat i = Some x.
Proof. unfold at_. case_bool; [done|]. destruct (_ !! _); naive_solver. Qed.

(** ** Counted loops

    [for (i = from; i < from + n; ++i)] with a loop-carried value; an exception
    or a failed assertion in the body leaves the loop. *)
Fixpoint for_ {A} (n : nat) (i : Z) (body : Z → A → outcome A) (acc : A) : outcome A :=
  match n with
  | O => mret acc
  | S n' => acc' ← body i acc; for_ n' (i + 1) body acc'
  end.

Lemma for_S {A} n i (body : Z → A → outcome A) acc :
  for_ (S n) i body acc = (acc' ← body i acc; for_ n (i + 1) body acc').
Proof. done. Qed.

(** Writing [v[i]] of a [std::vector]. *)
Definition set_at {A} (l : list A) (i : Z) (v : A) : outcome (list A) :=
  if (i <? 0) || (Z.of_nat (length l) <=? i) then Abort
  else mret (<[Z.to_nat i := v]> l).

Lemma set_at_ret {A} (l : list A) i v :
  0 <= i < Z.of_nat (length l) → set_at l i v = Ret (<[Z.to_nat i := v]> l).
Proof.
  intros H. unfold set_at. rewrite (proj2 (orb_false_iff _ _)); [done|].
  split; [apply Z.ltb_ge|apply Z.leb_gt]; lia.
Qed.

(** Characters of a string as bytes. *)
Definition bytes_of_string (s : string) : list Z :=
  (λ a, Z.of_nat (Ascii.nat_of_ascii a)) <$> String.list_ascii_of_string s.
