(* ===== verification/Varint.v ===== *)
(** * Variable-length integers ([src/src/Common/Varint.h])

    The 7-bits-per-byte encoding used in addresses, in the transaction extra
    field and in the block hashing blob: [write_varint], [get_varint_data] and
    [read_varint], with the proofs that reading inverts writing and that a
    completely read integer has only one accepted encoding. *)

From S2P Require Import Prelude.

Local Open Scope Z_scope.

(** [write_varint]: one iteration of the loop per unit of fuel. *)
Fixpoint write_varint_loop (fuel : nat) (i : Z) : list Z :=
  match fuel with
  | O => []
  | S fuel' =>
      if 0x80 <=? i
      then Z.lor (Z.land (u8 i) 0x7f) 0x80 :: write_varint_loop fuel' (Z.shiftr i 7)
      else [u8 i]
  end.

(** Ten iterations cover every 64-bit value. *)
Definition write_varint (i : Z) : list Z := write_varint_loop 10 i.

Definition get_varint_data (v : Z) : list Z := write_varint v.

(** [read_varint<bits>]: the returned [int] (bytes read, or an error code),
    the value left in [i], and the input not yet consumed. *)
Fixpoint read_varint_loop (bits : Z) (input : list Z) (shift read i : Z)
    : Z * Z * list Z :=
  match input with
  | [] => (read, i, [])
  | byte :: rest =>
      if (bits <=? shift + 7) && (Z.shiftl 1 (bits - shift) <=? byte)
      then (-1, i, rest)
      else if (byte =? 0) && negb (shift =? 0)
      then (-2, i, rest)
      else
        let i' := Z.lor i (wrap bits (Z.shiftl (Z.land byte 0x7f) shift)) in
        if Z.land byte 0x80 =? 0
        then (read + 1, i', rest)
        else read_varint_loop bits rest (shift + 7) (read + 1) i'
  end.

Definition read_varint (bits : Z) (input : list Z) : Z * Z * list Z :=
  read_varint_loop bits input 0 0 0.

(** ** Arithmetic of one step *)

Lemma land_7f b : Z.land b 127 = b mod 128.
Proof. exact (land_ones_mod b 7 ltac:(lia)). Qed.

Lemma low_byte_cont i : Z.lor (Z.land (u8 i) 127) 128 = i mod 128 + 128.
Proof.
  rewrite land_7f. unfold u8, wrap.
  replace ((i mod 2 ^ 8) mod 128) with (i mod 128) by zlia.
  change 128 with (Z.shiftl 1 7) at 2.
  rewrite lor_shiftl_add; [zlia|done|]. apply Z.mod_pos_bound. lia.
Qed.

Lemma land_80 b : is_u8 b → (Z.land b 128 =? 0) = (b <? 128).
Proof.
  intros Hb. apply (u8_forall (λ b, eqb (Z.land b 128 =? 0) (b <? 128))) in Hb;
    [by apply eqb_prop|by vm_compute].
Qed.

Lemma write_varint_loop_small f i :
  0 <= i < 128 → write_varint_loop (S f) i = [i].
Proof.
  intros H. simpl. case_bool; [lia|]. rewrite u8_small; [done|].
  unfold in_range. lia.
Qed.

Lemma write_varint_loop_big f i :
  128 <= i →
  write_varint_loop (S f) i = (i mod 128 + 128) :: write_varint_loop f (i / 128).
Proof.
  intros H. simpl. case_bool; [|lia].
  by rewrite low_byte_cont, Z.shiftr_div_pow2.
Qed.

Lemma write_varint_loop_bytes f i : 0 <= i → is_bytes (write_varint_loop f i).
Proof.
  revert i. induction f as [|f IH]; intros i Hi; [constructor|].
  destruct (Z_lt_ge_dec i 128).
  - rewrite write_varint_loop_small by lia.
    repeat constructor; unfold in_range; lia.
  - rewrite write_varint_loop_big by lia.
    constructor; [unfold in_range; zlia|apply IH; zlia].
Qed.

(** The accumulator after one more 7-bit group. *)
Lemma lor_group bits shift acc x :
  0 <= shift → 0 <= acc < 2 ^ shift → 0 <= x →
  acc + x * 2 ^ shift < 2 ^ bits →
  Z.lor acc (wrap bits (Z.shiftl x shift)) = acc + x * 2 ^ shift.
Proof.
  intros Hs Ha Hx Hb. rewrite wrap_small.
  - by apply lor_shiftl_add.
  - unfold in_range. rewrite Z.shiftl_mul_pow2 by lia. nia.
Qed.

(** What the overflow test of a step guarantees when it does not fire. *)
Lemma varint_group bits shift b acc :
  is_u8 b → 0 <= shift <= bits → 0 <= acc < 2 ^ shift →
  (bits <=? shift + 7) && (Z.shiftl 1 (bits - shift) <=? b) = false →
  acc + b mod 128 * 2 ^ shift < 2 ^ bits ∧
  (b < 128 → b < 2 ^ (bits - shift)) ∧ (128 <= b → shift + 7 < bits).
Proof.
  intros [Hb0 Hb] Hs Ha Eov. rewrite Z.shiftl_1_l in Eov.
  assert (0 < 2 ^ shift) by lia.
  assert (2 ^ bits = 2 ^ shift * 2 ^ (bits - shift)) as Hsplit
    by (rewrite <- Z.pow_add_r by lia; f_equal; lia).
  assert (b < 2 ^ (bits - shift) ∨ shift + 7 < bits) as Hor.
  { apply andb_false_iff in Eov as [E|E]; bool_to_prop; [by right|by left]. }
  assert (128 <= b → shift + 7 < bits) as Hge.
  { intros. destruct Hor; [|done]. destruct (Z_lt_ge_dec (shift + 7) bits); [done|].
    assert (2 ^ (bits - shift) <= 2 ^ 7) by (apply Z.pow_le_mono_r; lia). lia. }
  assert (b < 128 → b < 2 ^ (bits - shift)) as Hlt.
  { intros. destruct Hor; [done|].
    assert (2 ^ 7 <= 2 ^ (bits - shift)) by (apply Z.pow_le_mono_r; lia). lia. }
  split_and!; [|done..].
  destruct (Z_lt_ge_dec b 128).
  - rewrite Z.mod_small by lia. nia.
  - assert (2 ^ 7 < 2 ^ (bits - shift)) by (apply Z.pow_lt_mono_r; lia).
    assert (0 <= b mod 128 < 128) by zlia. nia.
Qed.

(** ** Reading what was written *)

Lemma read_write_varint_loop bits f i shift read acc rest :
  0 <= i < 2 ^ (7 * (1 + Z.of_nat f)) → 0 <= shift → 0 <= acc < 2 ^ shift →
  acc + i * 2 ^ shift < 2 ^ bits → (shift = 0 ∨ 0 < i) → 0 < bits →
  read_varint_loop bits (write_varint_loop (S f) i ++ rest) shift read acc =
  (read + Z.of_nat (length (write_varint_loop (S f) i)), acc + i * 2 ^ shift, rest).
Proof.
  revert i shift read acc. induction f as [|f IH];
    intros i shift read acc Hi Hs Ha Hb Hz Hbits;
  assert (0 < 2 ^ shift) by lia.
  all: assert (shift < bits ∨ i = 0) as Hlt
    by (destruct (decide (i = 0)); [by right|left; apply (Z.pow_lt_mono_r_iff 2); nia]).
  all: assert (shift <= bits) as Hle by lia.
  all: assert (2 ^ bits = 2 ^ shift * 2 ^ (bits - shift)) as Hsplit
    by (rewrite <- Z.pow_add_r by lia; f_equal; lia).
  all: assert (i < 2 ^ (bits - shift)) as Hi' by nia.
  all: destruct (Z_lt_ge_dec i 128) as [Hlo|Hhi].
  2: { change (7 * (1 + Z.of_nat 0)) with 7 in Hi. lia. }
  1, 2: rewrite write_varint_loop_small by lia; simpl;
    rewrite Z.shiftl_1_l;
    destruct (2 ^ (bits - shift) <=? i) eqn:?; bool_to_prop; [lia|];
    rewrite andb_false_r, land_80 by (unfold in_range; lia);
    destruct ((i =? 0) && negb (shift =? 0)) eqn:?; bool_to_prop; [lia|];
    destruct (i <? 128) eqn:?; bool_to_prop; [|lia];
    rewrite land_7f, Z.mod_small, lor_group by lia; done.
  rewrite write_varint_loop_big by lia. cbn [app read_varint_loop].
  assert (7 < bits - shift) by (apply (Z.pow_lt_mono_r_iff 2); lia).
  destruct (bits <=? shift + 7) eqn:?; bool_to_prop; [lia|]. cbn [andb].
  destruct (_ =? 0) eqn:E0; bool_to_prop; [zlia|]. cbn [andb].
  rewrite land_80 by (unfold in_range; zlia).
  destruct (_ <? 128) eqn:?; bool_to_prop; [zlia|].
  rewrite land_7f. replace ((i mod 128 + 128) mod 128) with (i mod 128) by zlia.
  rewrite lor_group; [|lia|lia|zlia|].
  2: { assert (i mod 128 <= i) by zlia. nia. }
  assert (2 ^ (shift + 7) = 2 ^ shift * 128) as Hp by (rewrite Z.pow_add_r; lia).
  assert (i = 128 * (i / 128) + i mod 128) as Hdm by zlia.
  assert (0 <= i mod 128 < 128) by zlia.
  rewrite IH; [|split|lia|rewrite Hp; nia|rewrite Hp; nia|right; zlia|done].
  - rewrite Hp. f_equal. f_equal; [|nia].
    cbn [length]. lia.
  - zlia.
  - apply Z.div_lt_upper_bound; [lia|]. change 128 with (2 ^ 7) at 1.
    rewrite <- Z.pow_add_r by lia.
    replace (7 + 7 * (1 + Z.of_nat f)) with (7 * (1 + Z.of_nat (S f))) by lia. lia.
Qed.

(** ** Only one accepted encoding *)

Lemma read_varint_loop_canonical bits input shift read acc r v rest f :
  is_bytes input → 0 <= shift <= bits → 0 <= acc < 2 ^ shift → 0 <= read →
  bits - shift <= 7 * (1 + Z.of_nat f) →
  read_varint_loop bits input shift read acc = (r, v, rest) → 0 <= r →
  ∃ pre x, input = pre ++ rest ∧ r = read + Z.of_nat (length pre) ∧
    v = acc + x * 2 ^ shift ∧ 0 <= x < 2 ^ (bits - shift) ∧
    (pre = write_varint_loop (S f) x ∧ (shift = 0 ∨ 0 < x) ∨
     rest = [] ∧ Forall (λ b, 128 <= b) pre).
Proof.
  revert shift read acc f. induction input as [|b input IH];
    intros shift read acc f Hby Hs Ha Hr Hf; cbn [read_varint_loop].
  { intros [= <- <- <-] _. exists [], 0. simpl. split_and!; [done|lia..|].
    by right. }
  inversion Hby as [|?? Hb Hby']; subst.
  destruct (_ && _) eqn:Eov; [intros; simplify_eq; lia|].
  destruct (_ && negb _) eqn:Ez; [intros; simplify_eq; lia|].
  destruct (varint_group bits shift b acc) as (Hg & Hsm & Hbig); [done..|].
  rewrite land_80, land_7f by done. unfold in_range in Hb.
  destruct (b <? 128) eqn:Elt; bool_to_prop.
  - intros [= <- <- <-] _. exists [b], b. rewrite Z.mod_small in * by lia.
    rewrite lor_group by lia.
    split_and!; [done|simpl; lia|done|lia|auto|]. left.
    rewrite write_varint_loop_small by lia. split; [done|].
    apply andb_false_iff in Ez as [E|E]; bool_to_prop; lia.
  - specialize (Hbig Elt).
    assert (2 ^ (shift + 7) = 2 ^ shift * 128) as Hp by (rewrite Z.pow_add_r; lia).
    assert (0 <= b mod 128 < 128) by zlia.
    rewrite lor_group by lia. intros Hrd Hpos.
    destruct f as [|f]; [lia|].
    apply (IH _ _ _ f) in Hrd as (pre & x & -> & -> & -> & Hx & Hc);
      [|done|lia|rewrite Hp; nia|lia|lia|done].
    assert (2 ^ (bits - shift) = 128 * 2 ^ (bits - (shift + 7))) as Hp2
      by (change 128 with (2 ^ 7); rewrite <- Z.pow_add_r by lia; f_equal; lia).
    exists (b :: pre), (b mod 128 + 128 * x).
    split_and!; [done|simpl; lia|rewrite Hp; nia|lia|lia|].
    destruct Hc as [[-> Hx0]|[-> Hge]]; [left|right; split; [done|by constructor]].
    split; [|lia].
    rewrite (write_varint_loop_big (S f)) by lia.
    replace ((b mod 128 + 128 * x) mod 128) with (b mod 128) by zlia.
    replace ((b mod 128 + 128 * x) / 128) with x by zlia.
    f_equal. zlia.
Qed.

(** Reading inverts writing at every width of the source's integer types, and
    leaves the rest of the input untouched. *)
Lemma read_write_varint bits i rest :
  0 < bits <= 64 → in_range bits i →
  read_varint bits (write_varint i ++ rest) =
  (Z.of_nat (length (write_varint i)), i, rest).
Proof.
  intros Hb [Hi0 Hi]. unfold read_varint, write_varint.
  assert (2 ^ bits <= 2 ^ 64) by (apply Z.pow_le_mono_r; lia).
  rewrite (read_write_varint_loop bits 9 i 0 0 0) by lia.
  f_equal. f_equal; lia.
Qed.

(** The result is an error code or a byte count. *)
Lemma read_varint_loop_code bits input shift read acc :
  let '(r, _, _) := read_varint_loop bits input shift read acc in
  r = -1 ∨ r = -2 ∨ read <= r.
Proof.
  revert shift read acc. induction input as [|b input IH]; intros shift read acc;
    cbn [read_varint_loop]; [lia|].
  destruct (_ && _); [lia|]. destruct (_ && _); [lia|]. destruct (_ =? 0); [lia|].
  specialize (IH (shift + 7) (read + 1)
    (Z.lor acc (wrap bits (Z.shiftl (Z.land b 127) shift)))).
  destruct (read_varint_loop _ _ _ _ _) as [[r v] rest]. lia.
Qed.

Lemma write_varint_loop_length f i :
  (1 <= length (write_varint_loop (S f) i) <= S f)%nat.
Proof.
  revert i. induction f as [|f IH]; intros i; cbn [write_varint_loop];
    (destruct (128 <=? i); [|simpl; lia]); cbn [length]; [simpl; lia|].
  specialize (IH (Z.shiftr i 7)). cbn [write_varint_loop] in IH. lia.
Qed.

(** A successful read consumed exactly the canonical encoding of the value,
    or the input ended inside the integer (every byte has its continuation
    bit set), in which case the code also reports success. *)
Lemma read_varint_canonical input r v rest :
  is_bytes input → read_varint 64 input = (r, v, rest) → 0 < r →
  is_u64 v ∧
  ∃ pre, input = pre ++ rest ∧ r = Z.of_nat (length pre) ∧
    (pre = write_varint v ∨ rest = [] ∧ Forall (λ b, 128 <= b) pre).
Proof.
  intros Hb Hr Hpos.
  destruct (read_varint_loop_canonical 64 input 0 0 0 r v rest 9)
    as (pre & x & -> & -> & -> & Hx & Hc); [done|lia..|done|lia|].
  change (64 - 0) with 64 in Hx. replace (0 + x * 2 ^ 0) with x by lia.
  split; [done|]. exists pre. split_and!; [done|lia|].
  destruct Hc as [[-> _]|?]; [by left|by right].
Qed.

(** ** The encoding's contract *)

(** reading back what [write_varint] wrote gives the integer, the number
    of bytes that were written, and leaves the input after the encoding
    untouched, for every width up to 64 bits. *)
Theorem varint_roundtrip bits i rest :
  0 < bits <= 64 → in_range bits i →
  read_varint bits (get_varint_data i ++ rest) =
  (Z.of_nat (length (get_varint_data i)), i, rest).
Proof. apply read_write_varint. Qed.

Lemma varint_roundtrip_witness :
  read_varint 64 (get_varint_data 300 ++ [7]) = (2, 300, [7]).
Proof. apply (varint_roundtrip 64 300 [7]); [lia|]. unfold in_range. lia. Defined.

(** a 64-bit read that succeeds has consumed the only encoding of the value
    it returns, except when the input ends inside the integer: [read_varint]
    then returns the count of continuation bytes it saw. *)
Theorem varint_canonical input r v rest :
  is_bytes input → read_varint 64 input = (r, v, rest) → 0 < r →
  is_u64 v ∧
  ∃ pre, input = pre ++ rest ∧ r = Z.of_nat (length pre) ∧
    (pre = write_varint v ∨ rest = [] ∧ Forall (λ b, 128 <= b) pre).
Proof. apply read_varint_canonical. Qed.

Lemma varint_canonical_witness :
  is_u64 300 ∧
  ∃ pre, [172; 2; 9] = pre ++ [9] ∧ 2 = Z.of_nat (length pre) ∧
    (pre = write_varint 300 ∨ [9] = [] ∧ Forall (λ b, 128 <= b) pre).
Proof.
  apply (varint_canonical [172; 2; 9] 2 300 [9]); [|done|lia].
  repeat constructor; lia.
Defined.
