(* ===== verification/Streams.v ===== *)
(** * Byte streams ([src/src/Common])

    The interfaces [IInputStream] and [IOutputStream] as type classes, their
    in-memory implementations ([MemoryInputStream], [StringInputStream],
    [VectorOutputStream], [StringOutputStream]) and the functions of
    [StreamTools.cpp], which are written against the interfaces only.

    [LawfulInput] and [LawfulOutput] state what the functions of
    [StreamTools.cpp] rely on; each implementation discharges them, and every
    client theorem is proved for an arbitrary lawful stream.  [reads m bs a]
    ("[m] consumes exactly [bs] and returns [a]") and [writes m bs a] are the
    two judgements the serialization proofs are built from. *)

From S2P Require Import Prelude Varint.

Local Open Scope Z_scope.

(** ** Interfaces *)

Class IInputStream (St : Type) := readSome : Z → M St (list Z).
Class IOutputStream (St : Type) := writeSome : list Z → M St Z.

Class LawfulInput (S : Type) `{IInputStream S} := {
  in_ok : S → Prop;
  unread : S → list Z;
  unread_bytes s : in_ok s → is_bytes (unread s);
  readSome_law n s : 0 <= n → in_ok s →
    ∃ bs s', readSome n s = Ret (bs, s') ∧ in_ok s' ∧
      unread s = bs ++ unread s' ∧ Z.of_nat (length bs) <= n ∧
      (0 < n → unread s ≠ [] → bs ≠ [])
}.

Class LawfulOutput (S : Type) `{IOutputStream S} := {
  written : S → list Z;
  writeSome_law data s :
    ∃ n s', writeSome data s = Ret (n, s') ∧
      0 <= n <= Z.of_nat (length data) ∧ (data ≠ [] → 0 < n) ∧
      written s' = written s ++ take (Z.to_nat n) data
}.

(** ** Implementations *)

Record MemoryInputStream := {
  mis_buffer : list Z;
  mis_bufferSize : Z;
  mis_position : Z
}.

Definition new_MemoryInputStream (buffer : list Z) : MemoryInputStream :=
  {| mis_buffer := buffer; mis_bufferSize := Z.of_nat (length buffer);
     mis_position := 0 |}.

Definition mis_endOfStream (s : MemoryInputStream) : bool :=
  mis_position s =? mis_bufferSize s.

(** [MemoryInputStream::readSome] *)
Definition mis_readSome (size : Z) : M MemoryInputStream (list Z) := fun s =>
  if mis_position s <=? mis_bufferSize s then
    let readSize := Z.min size (u64 (mis_bufferSize s - mis_position s)) in
    if 0 <? readSize then
      Ret (take (Z.to_nat readSize) (drop (Z.to_nat (mis_position s)) (mis_buffer s)),
           {| mis_buffer := mis_buffer s; mis_bufferSize := mis_bufferSize s;
              mis_position := mis_position s + readSize |})
    else Ret ([], s)
  else Abort.

#[export] Instance MemoryInputStream_stream : IInputStream MemoryInputStream :=
  mis_readSome.

Record StringInputStream := { sis_in : list Z; sis_offset : Z }.

(** [StringInputStream::readSome] *)
Definition sis_readSome (size : Z) : M StringInputStream (list Z) := fun s =>
  let left := u64 (Z.of_nat (length (sis_in s)) - sis_offset s) in
  let size := if left <? size then left else size in
  Ret (take (Z.to_nat size) (drop (Z.to_nat (sis_offset s)) (sis_in s)),
       {| sis_in := sis_in s; sis_offset := u64 (sis_offset s + size) |}).

#[export] Instance StringInputStream_stream : IInputStream StringInputStream :=
  sis_readSome.

(** [VectorOutputStream::writeSome] and [StringOutputStream::writeSome]: the
    stream appends to the container it was built on. *)
Record VectorOutputStream := { vos_out : list Z }.

Definition vos_writeSome (data : list Z) : M VectorOutputStream Z := fun s =>
  Ret (Z.of_nat (length data), {| vos_out := vos_out s ++ data |}).

#[export] Instance VectorOutputStream_stream : IOutputStream VectorOutputStream :=
  vos_writeSome.

Record StringOutputStream := { sos_out : list Z }.

Definition sos_writeSome (data : list Z) : M StringOutputStream Z := fun s =>
  Ret (Z.of_nat (length data), {| sos_out := sos_out s ++ data |}).

#[export] Instance StringOutputStream_stream : IOutputStream StringOutputStream :=
  sos_writeSome.

(** ** Little-endian representation of fixed-width integers *)

Fixpoint le_bytes (n : nat) (z : Z) : list Z :=
  match n with
  | O => []
  | S n' => u8 z :: le_bytes n' (Z.shiftr z 8)
  end.

Fixpoint le_value (bs : list Z) : Z :=
  match bs with
  | [] => 0
  | b :: bs' => b + 256 * le_value bs'
  end.

(** ** [StreamTools.cpp], reading *)

Section Reading.
Context {St : Type} `{IInputStream St}.

(** [read(in, data, size)]: an iteration consumes at least one byte, so
    [size] iterations are enough. *)
Fixpoint read_loop (fuel : nat) (size : Z) : M St (list Z) :=
  if 0 <? size then
    match fuel with
    | O => abort
    | S fuel' =>
        chunk ← readSome size;
        let readSize := Z.of_nat (length chunk) in
        if readSize =? 0 then throw "Failed to read from IInputStream"
        else rest ← read_loop fuel' (size - readSize); mret (chunk ++ rest)
    end
  else mret [].

Definition read (size : Z) : M St (list Z) := read_loop (Z.to_nat size) size.

(** The overloads for fixed-width integers, on a little-endian machine. *)
Definition read_uint8 : M St Z := bs ← read 1; mret (le_value bs).
Definition read_uint16 : M St Z := bs ← read 2; mret (le_value bs).
Definition read_uint32 : M St Z := bs ← read 4; mret (le_value bs).
Definition read_uint64 : M St Z := bs ← read 8; mret (le_value bs).

(** [readVarint], for an unsigned type of [w] bits. *)
Fixpoint readVarint_loop (fuel : nat) (w shift temp : Z) : M St Z :=
  match fuel with
  | O => abort
  | S fuel' =>
      piece ← read_uint8;
      if (w - 7 <=? shift) && (Z.shiftl 1 (w - shift) <=? piece)
      then throw "readVarint, value overflow"
      else
        let temp := wrap w (Z.lor temp (u64 (Z.shiftl (Z.land piece 0x7f) shift))) in
        if Z.land piece 0x80 =? 0 then
          if (piece =? 0) && negb (shift =? 0)
          then throw "readVarint, invalid value representation"
          else mret temp
        else readVarint_loop fuel' w (u8 (shift + 7)) temp
  end.

(** Ten iterations reach the overflow test of the widest type. *)
Definition readVarint (w : Z) : M St Z := readVarint_loop 10 w 0 0.
End Reading.

(** ** [StreamTools.cpp], writing *)

Section Writing.
Context {St : Type} `{IOutputStream St}.

(** [write(out, data, size)] *)
Fixpoint write_loop (fuel : nat) (data : list Z) : M St unit :=
  match data with
  | [] => mret tt
  | _ =>
      match fuel with
      | O => abort
      | S fuel' =>
          writtenSize ← writeSome data;
          if writtenSize =? 0 then throw "Failed to write to IOutputStream"
          else write_loop fuel' (drop (Z.to_nat writtenSize) data)
      end
  end.

Definition write (data : list Z) : M St unit := write_loop (length data) data.

Definition write_uint8 (value : Z) : M St unit := write (le_bytes 1 value).
Definition write_uint16 (value : Z) : M St unit := write (le_bytes 2 value).
Definition write_uint32 (value : Z) : M St unit := write (le_bytes 4 value).
Definition write_uint64 (value : Z) : M St unit := write (le_bytes 8 value).

(** [writeVarint] *)
Fixpoint writeVarint_loop (fuel : nat) (value : Z) : M St unit :=
  match fuel with
  | O => abort
  | S fuel' =>
      if 0x80 <=? value then
        write_uint8 (u8 (Z.lor value 0x80));;
        writeVarint_loop fuel' (Z.shiftr value 7)
      else write_uint8 (u8 value)
  end.

Definition writeVarint (value : Z) : M St unit := writeVarint_loop 10 value.
End Writing.

(** ** The implementations are lawful *)

#[export] Program Instance MemoryInputStream_lawful : LawfulInput MemoryInputStream := {|
  in_ok s := 0 <= mis_position s <= mis_bufferSize s ∧
    mis_bufferSize s = Z.of_nat (length (mis_buffer s)) ∧
    is_u64 (mis_bufferSize s) ∧ is_bytes (mis_buffer s);
  unread s := drop (Z.to_nat (mis_position s)) (mis_buffer s)
|}.
Next Obligation.
  intros [buf size pos] (_ & _ & _ & Hby). by apply Forall_drop.
Qed.
Next Obligation.
  intros n [buf size pos] Hn (Hpos & Hsz & Hr & Hby); simpl in *.
  unfold readSome, MemoryInputStream_stream, mis_readSome; simpl.
  destruct (pos <=? size) eqn:?; bool_to_prop; [|lia].
  rewrite u64_small by (unfold in_range in *; lia).
  destruct (0 <? Z.min n (size - pos)) eqn:?; bool_to_prop.
  - eexists _, _. split; [done|]. simpl. split; [split_and!; [lia..|done|done]|].
    assert (drop (Z.to_nat (pos + Z.min n (size - pos))) buf =
      drop (Z.to_nat (Z.min n (size - pos))) (drop (Z.to_nat pos) buf)) as ->
      by (rewrite drop_drop; f_equal; lia).
    split; [by rewrite take_drop|]. rewrite length_take, length_drop.
    split; [lia|]. intros _ _ He. apply (f_equal length) in He.
    rewrite length_take, length_drop in He. simpl in He. lia.
  - exists [], {| mis_buffer := buf; mis_bufferSize := size; mis_position := pos |}.
    simpl. split_and!; try done; [lia|]. intros ? Hne. exfalso. apply Hne, drop_ge. lia.
Qed.

#[export] Program Instance StringInputStream_lawful : LawfulInput StringInputStream := {|
  in_ok s := 0 <= sis_offset s <= Z.of_nat (length (sis_in s)) ∧
    is_u64 (Z.of_nat (length (sis_in s))) ∧ is_bytes (sis_in s);
  unread s := drop (Z.to_nat (sis_offset s)) (sis_in s)
|}.
Next Obligation.
  intros [buf pos] (_ & _ & Hby). by apply Forall_drop.
Qed.
Next Obligation.
  intros n [buf pos] Hn (Hpos & Hr & Hby); simpl in *.
  unfold readSome, StringInputStream_stream, sis_readSome; simpl.
  rewrite u64_small by (unfold in_range in *; lia).
  set (k := if Z.of_nat (length buf) - pos <? n then Z.of_nat (length buf) - pos else n).
  assert (0 <= k ∧ k <= n ∧ pos + k <= Z.of_nat (length buf) ∧
          (0 < n → pos < Z.of_nat (length buf) → 0 < k)) as (?&?&?&Hk)
    by (subst k; case_bool; lia).
  eexists _, _. split; [done|]. simpl.
  rewrite u64_small by (unfold in_range in *; lia).
  split; [split_and!; [lia..|done|done]|].
  assert (drop (Z.to_nat (pos + k)) buf = drop (Z.to_nat k) (drop (Z.to_nat pos) buf))
    as -> by (rewrite drop_drop; f_equal; lia).
  split; [by rewrite take_drop|]. rewrite length_take, length_drop.
  split; [lia|]. intros ? Hne He. apply (f_equal length) in He.
  rewrite length_take, length_drop in He. simpl in He.
  destruct (decide (pos < Z.of_nat (length buf))); [lia|].
  apply Hne, drop_ge. lia.
Qed.

#[export] Program Instance VectorOutputStream_lawful : LawfulOutput VectorOutputStream := {|
  written := vos_out
|}.
Next Obligation.
  intros data [out]. eexists _, _. split; [done|]. simpl.
  rewrite Nat2Z.id, firstn_all. split; [lia|]. split; [|done].
  destruct data; simpl; [done|lia].
Qed.

#[export] Program Instance StringOutputStream_lawful : LawfulOutput StringOutputStream := {|
  written := sos_out
|}.
Next Obligation.
  intros data [out]. eexists _, _. split; [done|]. simpl.
  rewrite Nat2Z.id, firstn_all. split; [lia|]. split; [|done].
  destruct data; simpl; [done|lia].
Qed.

(** ** Little-endian integers *)

Lemma le_bytes_length n z : length (le_bytes n z) = n.
Proof. revert z. induction n; intros z; simpl; [done|]. by rewrite IHn. Qed.

Lemma le_bytes_bytes n z : is_bytes (le_bytes n z).
Proof. revert z. induction n; constructor; [apply u8_range|apply IHn]. Qed.

Lemma le_value_bytes n z : le_value (le_bytes n z) = z mod 2 ^ (8 * Z.of_nat n).
Proof.
  revert z. induction n as [|n IH]; intros z; simpl le_bytes; simpl le_value.
  - by rewrite Z.mod_1_r.
  - rewrite IH, Z.shiftr_div_pow2 by lia. unfold u8, wrap.
    replace (8 * Z.of_nat (S n)) with (8 + 8 * Z.of_nat n) by lia.
    rewrite Z.pow_add_r, Z.rem_mul_r by lia. change (2 ^ 8) with 256. lia.
Qed.

Lemma le_value_range bs :
  is_bytes bs → 0 <= le_value bs < 2 ^ (8 * Z.of_nat (length bs)).
Proof.
  induction 1 as [|b bs Hb _ IH]; simpl le_value; [simpl; lia|].
  replace (8 * Z.of_nat (length (b :: bs))) with (8 + 8 * Z.of_nat (length bs))
    by (simpl; lia).
  rewrite Z.pow_add_r by lia. unfold in_range in Hb. lia.
Qed.

Lemma le_bytes_value bs : is_bytes bs → le_bytes (length bs) (le_value bs) = bs.
Proof.
  induction 1 as [|b bs Hb _ IH]; [done|]. simpl. unfold in_range in Hb.
  f_equal.
  - unfold u8, wrap. change (2 ^ 8) with 256. zlia.
  - rewrite Z.shiftr_div_pow2 by lia. change (2 ^ 8) with 256.
    replace ((b + 256 * le_value bs) / 256) with (le_value bs) by zlia. done.
Qed.

(** ** Reading from a lawful stream *)

Section ReadingLaws.
Context {St : Type} `{LawfulInput St}.

(** [m] consumes exactly [bs] and returns [a]. *)
Definition reads {A} (m : M St A) (bs : list Z) (a : A) : Prop :=
  ∀ s rest, in_ok s → unread s = bs ++ rest →
    ∃ s', m s = Ret (a, s') ∧ in_ok s' ∧ unread s' = rest.

Lemma reads_ret {A} (a : A) : reads (mret a) [] a.
Proof. intros s rest Hs Hu. by exists s. Qed.

Lemma reads_bind {A B} (m : M St A) (f : A → M St B) bs1 bs2 a b :
  reads m bs1 a → reads (f a) bs2 b → reads (m ≫= f) (bs1 ++ bs2) b.
Proof.
  intros Hm Hf s rest Hs Hu. rewrite <- app_assoc in Hu.
  destruct (Hm s (bs2 ++ rest) Hs Hu) as (s1 & E1 & Hs1 & Hu1).
  destruct (Hf s1 rest Hs1 Hu1) as (s2 & E2 & Hs2 & Hu2).
  exists s2. split; [|done]. unfold mbind, M_bind. by rewrite E1.
Qed.

(** The last action of a sequence. *)
Lemma reads_bind_ret {A B} (m : M St A) (f : A → B) bs a :
  reads m bs a → reads (m ≫= λ x, mret (f x)) bs (f a).
Proof.
  intros Hm. rewrite <- (app_nil_r bs).
  eapply reads_bind; [done|apply reads_ret].
Qed.

Lemma read_loop_spec fuel n s :
  in_ok s → 0 <= n <= Z.of_nat fuel →
  if n <=? Z.of_nat (length (unread s))
  then ∃ s', read_loop fuel n s = Ret (take (Z.to_nat n) (unread s), s') ∧
         in_ok s' ∧ unread s' = drop (Z.to_nat n) (unread s)
  else read_loop fuel n s = Throw "Failed to read from IInputStream".
Proof.
  revert n s. induction fuel as [|fuel IH]; intros n s Hs Hn; cbn [read_loop].
  { assert (n = 0) as -> by lia. rewrite (proj2 (Z.leb_le 0 _)) by lia. by exists s. }
  destruct (0 <? n) eqn:?; bool_to_prop.
  2: { assert (n = 0) as -> by lia. rewrite (proj2 (Z.leb_le 0 _)) by lia. by exists s. }
  destruct (readSome_law n s) as (bs & s1 & E & Hs1 & Hu & Hlen & Hprog);
    [lia|done|].
  unfold mbind, M_bind. rewrite E.
  destruct bs as [|b bs].
  { assert (unread s = []) as ->
      by (destruct (unread s); [done|exfalso; by apply Hprog; [lia| |]]).
    cbn [length]. destruct (n <=? _) eqn:?; bool_to_prop; [lia|done]. }
  destruct (_ =? 0) eqn:Ez; bool_to_prop; [simpl in Ez; lia|].
  set (bs' := b :: bs) in *. assert (1 <= Z.of_nat (length bs')) by (subst bs'; simpl; lia).
  specialize (IH (n - Z.of_nat (length bs')) s1 Hs1 ltac:(lia)).
  rewrite Hu, length_app.
  destruct (_ <=? Z.of_nat (length (unread s1))) eqn:E1; bool_to_prop.
  - destruct IH as (s2 & E2 & Hs2 & Hu2).
    destruct (n <=? _) eqn:?; bool_to_prop; [|lia].
    exists s2. rewrite E2. rewrite take_app_ge, drop_app_ge by lia.
    replace (Z.to_nat n - length bs')%nat
      with (Z.to_nat (n - Z.of_nat (length bs'))) by lia. done.
  - destruct (n <=? _) eqn:?; bool_to_prop; [lia|]. by rewrite IH.
Qed.

Lemma reads_read bs : reads (read (Z.of_nat (length bs))) bs bs.
Proof.
  intros s rest Hs Hu. unfold read.
  pose proof (read_loop_spec (Z.to_nat (Z.of_nat (length bs)))
    (Z.of_nat (length bs)) s Hs ltac:(lia)) as Hr.
  rewrite Hu, length_app in Hr. destruct (_ <=? _) eqn:?; bool_to_prop; [|lia].
  destruct Hr as (s' & E & Hs' & Hu'). exists s'.
  rewrite Nat2Z.id, take_app_length, drop_app_length in *. done.
Qed.

Lemma read_short n s :
  in_ok s → Z.of_nat (length (unread s)) < n →
  read n s = Throw "Failed to read from IInputStream".
Proof.
  intros Hs Hn. unfold read.
  pose proof (read_loop_spec (Z.to_nat n) n s Hs ltac:(lia)) as Hr.
  by destruct (_ <=? _) eqn:?; bool_to_prop; [lia|].
Qed.

Lemma reads_uint8 b : is_u8 b → reads read_uint8 [b] b.
Proof.
  intros Hb. unfold read_uint8.
  replace b with (le_value [b]) at 2 by (simpl; lia).
  apply (reads_bind_ret _ le_value), (reads_read [b]).
Qed.

Lemma reads_uint32 z : is_u32 z → reads read_uint32 (le_bytes 4 z) z.
Proof.
  intros Hz. unfold read_uint32.
  replace z with (le_value (le_bytes 4 z)) at 2
    by (rewrite le_value_bytes; by apply Z.mod_small).
  apply (reads_bind_ret _ le_value), (reads_read (le_bytes 4 z)).
Qed.
End ReadingLaws.

Section VarintLaws.
Context {St : Type} `{LawfulInput St}.

Definition overflow_error := "readVarint, value overflow"%string.
Definition representation_error := "readVarint, invalid value representation"%string.
Definition short_error := "Failed to read from IInputStream"%string.

(** What [readVarint] does on the unread bytes [input], told from the answer
    of [Tools::read_varint] on the same bytes. *)
Definition varint_answer (input : list Z) (ans : Z * Z * list Z)
    (out : outcome (Z * St)) : Prop :=
  let '(r, v, rest) := ans in
  if r =? -1 then out = Throw overflow_error
  else if r =? -2 then out = Throw representation_error
  else ∃ pre, input = pre ++ rest ∧
    match list.last pre with
    | Some b =>
        if b <? 0x80
        then ∃ s', out = Ret (v, s') ∧ in_ok s' ∧ unread s' = rest
        else rest = [] ∧ out = Throw short_error
    | None => rest = [] ∧ out = Throw short_error
    end.

Lemma readVarint_loop_equiv fuel w shift read temp s :
  in_ok s → 0 <= read → 8 <= w <= 64 →
  0 <= shift < w → w - shift <= 7 * Z.of_nat fuel → 0 <= temp < 2 ^ shift →
  varint_answer (unread s)
    (read_varint_loop w (unread s) shift read temp)
    (readVarint_loop fuel w shift temp s).
Proof.
  intros Hs. pose proof (unread_bytes s Hs) as Hby. revert Hs Hby.
  remember (unread s) as input eqn:Hin. symmetry in Hin.
  revert fuel shift read temp s Hin.
  induction input as [|b input IH];
    intros fuel shift read temp s Hin Hs Hby Hr Hw Hsh Hf Ht.
  all: destruct fuel as [|fuel]; [lia|].
  { cbn [read_varint_loop varint_answer].
    destruct (read =? -1) eqn:?; [lia|]. destruct (read =? -2) eqn:?; [lia|].
    exists []. split; [done|]. split; [done|].
    cbn [readVarint_loop]. unfold mbind, M_bind, read_uint8, mbind, M_bind.
    rewrite read_short; [done..|rewrite Hin; simpl; lia]. }
  apply Forall_cons_iff in Hby as [Hb Hby].
  destruct (reads_uint8 b Hb s input Hs Hin) as (s1 & E1 & Hs1 & Hin1).
  cbn [read_varint_loop readVarint_loop].
  unfold mbind, M_bind at 1. rewrite E1, land_80, land_7f by done.
  replace (w - 7 <=? shift) with (w <=? shift + 7)
    by (apply eq_true_iff_eq; rewrite !Z.leb_le; lia).
  destruct (_ && _) eqn:Eov; [done|].
  destruct (varint_group w shift b temp) as (Hg & _ & Hbig); [done|lia|done..|].
  assert (0 <= b mod 128 < 128) as Hx by zlia.
  assert (2 ^ w <= 2 ^ 64) by (apply Z.pow_le_mono_r; lia).
  rewrite (lor_group w) by lia.
  assert (wrap w (Z.lor temp (u64 (Z.shiftl (b mod 128) shift))) =
    temp + b mod 128 * 2 ^ shift) as ->.
  { unfold u64. rewrite lor_group by lia.
    apply wrap_small. unfold in_range. nia. }
  destruct (b <? 128) eqn:Eb.
  - destruct (_ && negb _) eqn:Ez; [done|]. cbn [varint_answer].
    destruct (read + 1 =? -1) eqn:?; [lia|]. destruct (read + 1 =? -2) eqn:?; [lia|].
    exists [b]. split; [done|]. simpl. rewrite Eb. by exists s1.
  - bool_to_prop. specialize (Hbig Eb).
    destruct (_ && negb _) eqn:Ez; bool_to_prop; [lia|].
    rewrite (u8_small (shift + 7)) by (unfold in_range; lia).
    assert (2 ^ (shift + 7) = 2 ^ shift * 128) as Hp by (rewrite Z.pow_add_r; lia).
    specialize (IH fuel (shift + 7) (read + 1) (temp + b mod 128 * 2 ^ shift) s1
      Hin1 Hs1 Hby ltac:(lia) Hw ltac:(lia) ltac:(lia) ltac:(rewrite Hp; nia)).
    destruct (read_varint_loop _ _ _ _ _) as [[r v] rest]. cbn [varint_answer] in *.
    destruct (r =? -1); [done|]. destruct (r =? -2); [done|].
    destruct IH as (pre & -> & IH). exists (b :: pre). split; [done|].
    rewrite last_cons. destruct (list.last pre); [done|].
    by destruct (b <? 128) eqn:?; bool_to_prop; [lia|].
Qed.

Lemma write_varint_loop_last f i :
  0 <= i < 2 ^ (7 * (1 + Z.of_nat f)) →
  ∃ b, list.last (write_varint_loop (S f) i) = Some b ∧ b < 128.
Proof.
  revert i. induction f as [|f IH]; intros i Hi;
    (destruct (Z_lt_ge_dec i 128);
     [exists i; by rewrite write_varint_loop_small by lia|]).
  { change (7 * (1 + Z.of_nat 0)) with 7 in Hi. lia. }
  rewrite write_varint_loop_big by lia.
  destruct (IH (i / 128)) as (b & Hb & Hlt).
  { split; [zlia|]. apply Z.div_lt_upper_bound; [lia|].
    change 128 with (2 ^ 7) at 1. rewrite <- Z.pow_add_r by lia.
    replace (7 + 7 * (1 + Z.of_nat f)) with (7 * (1 + Z.of_nat (S f))) by lia. lia. }
  exists b. by rewrite last_cons, Hb.
Qed.

Lemma reads_readVarint w i :
  8 <= w <= 64 → in_range w i → reads (readVarint w) (write_varint i) i.
Proof.
  intros Hw Hi s rest Hs Hu. unfold readVarint.
  assert (is_u64 i) as Hi64.
  { unfold in_range in *. assert (2 ^ w <= 2 ^ 64) by (apply Z.pow_le_mono_r; lia). lia. }
  pose proof (readVarint_loop_equiv 10 w 0 0 0 s Hs ltac:(lia) Hw ltac:(lia)
    ltac:(lia) ltac:(lia)) as Ha.
  rewrite Hu in Ha. change (read_varint_loop w ?l 0 0 0) with (read_varint w l) in Ha.
  rewrite read_write_varint in Ha by (done || lia). cbn [varint_answer] in Ha.
  pose proof (write_varint_loop_length 9 i) as Hlen. fold (write_varint i) in Hlen.
  destruct (_ =? -1) eqn:?; [lia|]. destruct (_ =? -2) eqn:?; [lia|].
  destruct Ha as (pre & Hpre & Ha). apply app_inv_tail in Hpre as <-.
  destruct (write_varint_loop_last 9 i) as (b & Hb & Hlt); [unfold in_range in Hi64; lia|].
  fold (write_varint i) in Hb. rewrite Hb in Ha.
  by destruct (b <? 128) eqn:?; bool_to_prop; [|lia].
Qed.

(** [readVarint] returns or throws: it never runs past its ten iterations. *)
Lemma readVarint_total w s :
  8 <= w <= 64 → in_ok s → readVarint w s ≠ Abort.
Proof.
  intros Hw Hs Hab.
  pose proof (readVarint_loop_equiv 10 w 0 0 0 s Hs ltac:(lia) Hw ltac:(lia)
    ltac:(lia) ltac:(lia)) as Ha.
  unfold readVarint in Hab. rewrite Hab in Ha.
  destruct (read_varint_loop _ _ _ _ _) as [[r v] rest]. cbn [varint_answer] in Ha.
  destruct (r =? -1); [done|]. destruct (r =? -2); [done|].
  destruct Ha as (pre & _ & Ha).
  destruct (list.last pre) as [b|]; [|by destruct Ha].
  destruct (b <? 128); [by destruct Ha as (? & ? & _)|by destruct Ha].
Qed.
End VarintLaws.

(** ** Writing to a lawful stream *)

Section WritingLaws.
Context {St : Type} `{LawfulOutput St}.

(** [m] appends exactly the bytes [bs] and returns [a]. *)
Definition writes {A} (m : M St A) (bs : list Z) (a : A) : Prop :=
  is_bytes bs ∧ ∀ s, ∃ s', m s = Ret (a, s') ∧ written s' = written s ++ bs.

Lemma writes_ret {A} (a : A) : writes (mret a) [] a.
Proof. split; [constructor|]. intros s. exists s. by rewrite app_nil_r. Qed.

Lemma writes_bind {A B} (m : M St A) (f : A → M St B) bs1 bs2 a b :
  writes m bs1 a → writes (f a) bs2 b → writes (m ≫= f) (bs1 ++ bs2) b.
Proof.
  intros [Hb1 Hm] [Hb2 Hf]. split; [by apply Forall_app|]. intros s.
  destruct (Hm s) as (s1 & E1 & Hw1).
  destruct (Hf s1) as (s2 & E2 & Hw2). exists s2.
  unfold mbind, M_bind. rewrite E1. split; [done|].
  by rewrite Hw2, Hw1, app_assoc.
Qed.

Lemma writes_bind_ret {A B} (m : M St A) (f : A → B) bs a :
  writes m bs a → writes (m ≫= λ x, mret (f x)) bs (f a).
Proof.
  intros Hm. rewrite <- (app_nil_r bs).
  eapply writes_bind; [done|apply writes_ret].
Qed.

Lemma write_loop_spec fuel data s :
  (length data <= fuel)%nat →
  ∃ s', write_loop fuel data s = Ret (tt, s') ∧ written s' = written s ++ data.
Proof.
  revert data s. induction fuel as [|fuel IH]; intros data s Hlen.
  { destruct data; [|simpl in Hlen; lia]. exists s. by rewrite app_nil_r. }
  destruct data as [|d data']; [exists s; by rewrite app_nil_r|].
  cbn [write_loop]. set (data := d :: data') in *.
  destruct (writeSome_law data s) as (n & s1 & E & Hn & Hpos & Hw).
  unfold mbind, M_bind. rewrite E.
  assert (0 < n) by (by apply Hpos).
  destruct (n =? 0) eqn:?; bool_to_prop; [lia|].
  destruct (IH (drop (Z.to_nat n) data) s1) as (s2 & E2 & Hw2).
  { rewrite length_drop. lia. }
  exists s2. rewrite E2. split; [done|].
  by rewrite Hw2, Hw, <- app_assoc, take_drop.
Qed.

Lemma writes_write data : is_bytes data → writes (write data) data tt.
Proof. intros Hb. split; [done|]. intros s. by apply write_loop_spec. Qed.

Lemma writes_uint8 b : is_u8 b → writes (write_uint8 b) [b] tt.
Proof.
  intros Hb. replace [b] with (le_bytes 1 b) by (simpl; by rewrite u8_small).
  apply writes_write, le_bytes_bytes.
Qed.

(** [Common::writeVarint] writes the bytes of [Tools::write_varint]. *)
Lemma writeVarint_loop_spec f v :
  0 <= v < 2 ^ (7 * (1 + Z.of_nat f)) →
  writes (writeVarint_loop (S f) v) (write_varint_loop (S f) v) tt.
Proof.
  revert v. induction f as [|f IH]; intros v Hv;
    (destruct (Z_lt_ge_dec v 128);
     [rewrite write_varint_loop_small by lia; cbn [writeVarint_loop];
      destruct (128 <=? v) eqn:?; bool_to_prop; [lia|];
      rewrite u8_small by (unfold in_range; lia);
      apply writes_uint8; unfold in_range; lia|]).
  { change (7 * (1 + Z.of_nat 0)) with 7 in Hv. lia. }
  rewrite write_varint_loop_big by lia. cbn [writeVarint_loop].
  destruct (128 <=? v) eqn:?; bool_to_prop; [|lia].
  assert (u8 (Z.lor v 128) = v mod 128 + 128) as ->.
  { rewrite <- low_byte_cont. unfold u8 at 1, wrap.
    rewrite <- !Z.land_ones, Z.land_lor_distr_l by lia.
    change (Z.land 128 (Z.ones 8)) with 128.
    apply Z.bits_inj'; intros k Hk. rewrite !Z.lor_spec, !Z.land_spec.
    unfold u8, wrap. rewrite <- Z.land_ones, Z.land_spec by lia.
    change (Z.testbit 127 k) with (Z.testbit (Z.ones 7) k).
    change (Z.testbit 128 k) with (Z.testbit (2 ^ 7) k).
    rewrite !Z.testbit_ones by lia.
    destruct (decide (k = 7)) as [->|].
    - by rewrite Z.pow2_bits_true, !orb_true_r by lia.
    - rewrite Z.pow2_bits_false, !orb_false_r by done.
      rewrite (proj2 (Z.leb_le 0 k) Hk). cbn [andb].
      destruct (Z.ltb_spec k 8), (Z.ltb_spec k 7); rewrite ?andb_true_r, ?andb_false_r;
        done || lia. }
  change (?b :: ?l) with ([b] ++ l).
  eapply writes_bind; [apply writes_uint8; unfold in_range; zlia|].
  rewrite Z.shiftr_div_pow2 by lia. apply IH.
  split; [zlia|]. apply Z.div_lt_upper_bound; [lia|].
  replace (7 * (1 + Z.of_nat (S f))) with (7 + 7 * (1 + Z.of_nat f)) in Hv by lia.
  rewrite Z.pow_add_r in Hv by lia. change (2 ^ 7) with 128 in *. lia.
Qed.

Lemma writes_writeVarint v : is_u64 v → writes (writeVarint v) (write_varint v) tt.
Proof. intros [? ?]. apply (writeVarint_loop_spec 9). lia. Qed.
End WritingLaws.

(** ** The contract of the stream integers *)

(** on every well-formed stream [Common::readVarint] answers exactly as
    [Tools::read_varint] on the bytes the stream has left: the same value and
    the same rest, an exception where that returns an error code, and an
    exception where that accepts an integer cut off by the end of the input. *)
Theorem readVarint_agrees {St : Type} `{LawfulInput St} w (s : St) :
  8 <= w <= 64 → in_ok s →
  varint_answer (unread s) (read_varint w (unread s)) (readVarint w s).
Proof. intros. by apply readVarint_loop_equiv; lia || done. Qed.

Lemma readVarint_agrees_witness :
  let s := new_MemoryInputStream [172; 2] in
  varint_answer (unread s) (read_varint 64 (unread s)) (readVarint 64 s).
Proof.
  apply (readVarint_agrees 64 (new_MemoryInputStream [172; 2])); [lia|].
  vm_compute; split_and!; try done. repeat constructor; done.
Defined.

(** what [Common::writeVarint] writes on any lawful output stream,
    [Common::readVarint] reads back from any lawful input stream, consuming
    exactly those bytes. *)
Theorem stream_varint_roundtrip {So Si : Type} `{LawfulOutput So} `{LawfulInput Si} w v :
  8 <= w <= 64 → in_range w v →
  ∃ bs, writes (St := So) (writeVarint v) bs tt ∧ reads (St := Si) (readVarint w) bs v.
Proof.
  intros Hw Hv. exists (write_varint v). split; [|by apply reads_readVarint].
  apply writes_writeVarint. unfold in_range in *.
  assert (2 ^ w <= 2 ^ 64) by (apply Z.pow_le_mono_r; lia). lia.
Qed.

Lemma stream_varint_roundtrip_witness :
  ∃ bs, writes (St := VectorOutputStream) (writeVarint 300) bs tt ∧
    reads (St := MemoryInputStream) (readVarint 32) bs 300.
Proof. apply (stream_varint_roundtrip 32 300); [lia|]. unfold in_range; lia. Defined.
