(* ===== verification/IntUtil.v ===== *)
(** * 128-bit arithmetic and the proof-of-work test

    [src/src/Common/int-util.h]: word halves, the 64x64
    multiplication [mul128] and the long division [div128_32] that the reward,
    penalty and difficulty computations share.
    [src/src/CryptoNoteCore/Difficulty.cpp]: [check_hash].

    The theorems relate the word-by-word code to the integers: the product and
    the quotient are exact, and a hash passes [check_hash] exactly when hash
    times difficulty does not reach 2^256. *)

From S2P Require Import Prelude Streams.

Local Open Scope Z_scope.

(** ** Words *)

Definition hi_dword (val : Z) : Z := Z.shiftr val 32.
Definition lo_dword (val : Z) : Z := Z.land val 0xFFFFFFFF.

(** [mul128]: the low word is returned, the high word stored in
    [product_hi]; the pair here is (low, high). *)
Definition mul128 (multiplier multiplicand : Z) : outcome (Z * Z) :=
  let a := hi_dword multiplier in
  let b := lo_dword multiplier in
  let c := hi_dword multiplicand in
  let d := lo_dword multiplicand in
  let ac := u64 (a * c) in
  let ad := u64 (a * d) in
  let bc := u64 (b * c) in
  let bd := u64 (b * d) in
  let adbc := u64 (ad + bc) in
  let adbc_carry := if adbc <? ad then 1 else 0 in
  let product_lo := u64 (bd + u64 (Z.shiftl adbc 32)) in
  let product_lo_carry := if product_lo <? bd then 1 else 0 in
  let product_hi :=
    u64 (ac + Z.shiftr adbc 32 + u64 (Z.shiftl adbc_carry 32) + product_lo_carry) in
  assert_ (ac <=? product_hi);; mret (product_lo, product_hi).

(** (quotient, new remainder); dividing by zero has no defined result. *)
Definition div_with_reminder (dividend divisor remainder : Z) : outcome (Z * Z) :=
  if divisor =? 0 then Abort
  else
    let dividend := Z.lor dividend (u64 (Z.shiftl remainder 32)) in
    mret (dividend / divisor, u32 (dividend mod divisor)).

(** (remainder, quotient_hi, quotient_lo). *)
Definition div128_32 (dividend_hi dividend_lo divisor : Z) : outcome (Z * Z * Z) :=
  '(q3, r3) ← div_with_reminder (hi_dword dividend_hi) divisor 0;
  '(q2, r2) ← div_with_reminder (lo_dword dividend_hi) divisor r3;
  '(q1, r1) ← div_with_reminder (hi_dword dividend_lo) divisor r2;
  '(q0, r0) ← div_with_reminder (lo_dword dividend_lo) divisor r1;
  mret (r0, Z.lor (u64 (Z.shiftl q3 32)) q2, Z.lor (u64 (Z.shiftl q1 32)) q0).

(** ** Halves *)

Lemma hi_lo_dword v :
  is_u64 v →
  v = hi_dword v * 2 ^ 32 + lo_dword v ∧ is_u32 (hi_dword v) ∧ is_u32 (lo_dword v).
Proof.
  intros [H0 H1]. unfold hi_dword, lo_dword, in_range.
  rewrite Z.shiftr_div_pow2 by lia.
  change 0xFFFFFFFF with (Z.ones 32). rewrite Z.land_ones by lia. zlia.
Qed.

Lemma mul_u32_bound a b : is_u32 a → is_u32 b → 0 <= a * b <= (2 ^ 32 - 1) * (2 ^ 32 - 1).
Proof.
  intros [] []. split; [apply Z.mul_nonneg_nonneg; lia|apply Z.mul_le_mono_nonneg; lia].
Qed.

(** [mul128] is exact and its assertion always holds. *)
Lemma mul128_ret m n :
  is_u64 m → is_u64 n → mul128 m n = Ret ((m * n) mod 2 ^ 64, (m * n) / 2 ^ 64).
Proof.
  intros Hm Hn. unfold mul128.
  destruct (hi_lo_dword m Hm) as (Em & Ha & Hb).
  destruct (hi_lo_dword n Hn) as (En & Hc & Hd).
  set (a := hi_dword m) in *. set (b := lo_dword m) in *.
  set (c := hi_dword n) in *. set (d := lo_dword n) in *. clearbody a b c d.
  pose proof (mul_u32_bound a c Ha Hc). pose proof (mul_u32_bound a d Ha Hd).
  pose proof (mul_u32_bound b c Hb Hc). pose proof (mul_u32_bound b d Hb Hd).
  assert (m * n = a * c * 2 ^ 64 + (a * d + b * c) * 2 ^ 32 + b * d) as -> by lia.
  rewrite !(u64_small (_ * _)) by (unfold in_range; lia).
  generalize dependent (a * c). intros ac ?. generalize dependent (a * d). intros ad ?.
  generalize dependent (b * c). intros bc ?. generalize dependent (b * d). intros bd ?.
  clear - H H0 H1 H2.
  rewrite !Z.shiftr_div_pow2, !Z.shiftl_mul_pow2 by lia. unfold u64, wrap.
  set (adbc := (ad + bc) mod 2 ^ 64).
  assert (Hk : ∃ k, ad + bc = adbc + k * 2 ^ 64 ∧ 0 <= adbc < 2 ^ 64 ∧
    (if adbc <? ad then 1 else 0) = k).
  { exists ((ad + bc) / 2 ^ 64). subst adbc. split_and!; [zlia..|]. case_bool; zlia. }
  destruct Hk as (k & Ek & Hr & ->). rewrite Ek. clearbody adbc.
  set (lo := (bd + (adbc * 2 ^ 32) mod 2 ^ 64) mod 2 ^ 64).
  assert (Hj : ∃ j, bd + (adbc * 2 ^ 32) mod 2 ^ 64 = lo + j * 2 ^ 64 ∧ 0 <= lo < 2 ^ 64 ∧
    (if lo <? bd then 1 else 0) = j).
  { exists ((bd + (adbc * 2 ^ 32) mod 2 ^ 64) / 2 ^ 64). subst lo.
    split_and!; [zlia..|]. case_bool; zlia. }
  destruct Hj as (j & Ej & Hl & ->). clearbody lo.
  assert (0 <= k <= 1 ∧ 0 <= j <= 1) as [Hk Hj] by zlia.
  assert (Hhi : 0 <= ac + adbc / 2 ^ 32 + k * 2 ^ 32 + j < 2 ^ 64) by zlia.
  rewrite (Z.mod_small (k * 2 ^ 32)), (Z.mod_small (ac + _ + _ + _)) by lia.
  rewrite (proj2 (Z.leb_le ac _)) by zlia. cbn [assert_ mbind outcome_bind].
  unfold mret, outcome_ret.
  apply f_equal. f_equal; zlia.
Qed.

(** One digit of the long division, base 2^32. *)
Lemma div_with_reminder_ret x d r :
  is_u32 x → 0 < d < 2 ^ 32 → 0 <= r < d →
  ∃ q r', div_with_reminder x d r = Ret (q, r') ∧ is_u32 q ∧ 0 <= r' < d ∧
    x + r * 2 ^ 32 = d * q + r'.
Proof.
  intros Hx Hd Hr. unfold div_with_reminder.
  destruct (d =? 0) eqn:?; bool_to_prop; [lia|].
  assert (0 <= r * 2 ^ 32 < 2 ^ 64) by lia.
  rewrite (u64_small (Z.shiftl r 32)) by (rewrite Z.shiftl_mul_pow2; unfold in_range; lia).
  rewrite lor_shiftl_add by (unfold in_range in Hx; lia).
  pose proof (Z.mod_pos_bound (x + r * 2 ^ 32) d ltac:(lia)) as Hmod.
  pose proof (Z.div_mod (x + r * 2 ^ 32) d ltac:(lia)) as Hdm.
  rewrite u32_small by (unfold in_range; lia).
  eexists _, _. split; [done|]. split; [|done]. unfold in_range in *.
  split; [apply Z.div_pos; lia|]. apply Z.div_lt_upper_bound; [lia|].
  assert (r * 2 ^ 32 <= (d - 1) * 2 ^ 32) by (apply Z.mul_le_mono_nonneg_r; lia). lia.
Qed.

Lemma join_dwords hi lo : is_u32 hi → is_u32 lo →
  Z.lor (u64 (Z.shiftl hi 32)) lo = hi * 2 ^ 32 + lo.
Proof.
  intros Hh Hl. unfold in_range in *.
  rewrite u64_small by (rewrite Z.shiftl_mul_pow2; unfold in_range; lia).
  rewrite Z.lor_comm, lor_shiftl_add; lia.
Qed.

(** [div128_32] computes the exact quotient and remainder of the 128-bit
    dividend. *)
Lemma div128_32_ret hi lo d :
  is_u64 hi → is_u64 lo → 0 < d < 2 ^ 32 →
  ∃ r qhi qlo, div128_32 hi lo d = Ret (r, qhi, qlo) ∧ is_u64 qhi ∧ is_u64 qlo ∧
    0 <= r < d ∧ hi * 2 ^ 64 + lo = d * (qhi * 2 ^ 64 + qlo) + r.
Proof.
  intros Hh Hl Hd.
  destruct (hi_lo_dword hi Hh) as (Eh & H3 & H2).
  destruct (hi_lo_dword lo Hl) as (El & H1 & H0).
  unfold div128_32. revert Eh El H3 H2 H1 H0.
  generalize (hi_dword hi) (lo_dword hi) (hi_dword lo) (lo_dword lo).
  intros x3 x2 x1 x0 -> -> H3 H2 H1 H0.
  destruct (div_with_reminder_ret x3 d 0) as (q3 & r3 & -> & Q3 & R3 & E3); [done..|lia|].
  cbn [mbind outcome_bind].
  destruct (div_with_reminder_ret x2 d r3) as (q2 & r2 & -> & Q2 & R2 & E2); [done..|].
  cbn [mbind outcome_bind].
  destruct (div_with_reminder_ret x1 d r2) as (q1 & r1 & -> & Q1 & R1 & E1); [done..|].
  cbn [mbind outcome_bind].
  destruct (div_with_reminder_ret x0 d r1) as (q0 & r0 & -> & Q0 & R0 & E0); [done..|].
  cbn [mbind outcome_bind]. rewrite !join_dwords by done.
  eexists _, _, _. split; [done|]. unfold in_range in *.
  split_and!; [lia..|]. clear - E0 E1 E2 E3. lia.
Qed.

Lemma div128_32_zero hi lo : div128_32 hi lo 0 = Abort.
Proof. done. Qed.

(** ** [check_hash] *)

(** A little-endian machine reads the four words of a hash as they are. *)
Definition swap64le (x : Z) : Z := x.

Definition hash_word (hash : list Z) (i : nat) : Z :=
  le_value (take 8 (drop (8 * i) hash)).

(** [mul] with the compiler's 128-bit type: (low, high). *)
Definition mul (a b : Z) : Z * Z :=
  let res := wrap 128 (a * b) in (u64 res, u64 (Z.shiftr res 64)).

(** [mul] where the compiler has no 128-bit type. *)
Definition mul_portable (a b : Z) : outcome (Z * Z) := mul128 a b.

Definition cadd (a b : Z) : bool := u64 (a + b) <? a.

Definition cadc (a b : Z) (c : bool) : bool :=
  (u64 (a + b) <? a) || (c && (u64 (a + b) =? UINT64_MAX)).

Definition check_hash (hash : list Z) (difficulty : Z) : bool :=
  let '(top, high) := mul (swap64le (hash_word hash 3)) difficulty in
  if negb (high =? 0) then false
  else
    let '(low, cur) := mul (swap64le (hash_word hash 0)) difficulty in
    let '(low, high) := mul (swap64le (hash_word hash 1)) difficulty in
    let carry := cadd cur low in
    let cur := high in
    let '(low, high) := mul (swap64le (hash_word hash 2)) difficulty in
    let carry := cadc cur low carry in
    let carry := cadc high top carry in
    negb carry.

Lemma mul_spec a b :
  is_u64 a → is_u64 b → mul a b = ((a * b) mod 2 ^ 64, (a * b) / 2 ^ 64).
Proof.
  intros [] []. unfold mul, u64, wrap.
  assert (0 <= a * b < 2 ^ 128).
  { split; [apply Z.mul_nonneg_nonneg; lia|].
    change (2 ^ 128) with (2 ^ 64 * 2 ^ 64). apply Z.mul_lt_mono_nonneg; lia. }
  rewrite (Z.mod_small _ (2 ^ 128)) by done. rewrite Z.shiftr_div_pow2 by lia.
  f_equal. apply Z.mod_small. zlia.
Qed.

Lemma mul_portable_agrees a b :
  is_u64 a → is_u64 b → mul_portable a b = Ret (mul a b).
Proof. intros. rewrite mul_spec by done. by apply mul128_ret. Qed.

Lemma hash_word_u64 hash i : is_bytes hash → is_u64 (hash_word hash i).
Proof.
  intros H. unfold hash_word.
  destruct (le_value_range (take 8 (drop (8 * i) hash))) as [H0 H1].
  { by apply Forall_take, Forall_drop. }
  unfold in_range. split; [done|]. eapply Z.lt_le_trans; [done|].
  apply Z.pow_le_mono_r; [lia|]. rewrite length_take. lia.
Qed.

Lemma le_value_app l k : le_value (l ++ k) = le_value l + 2 ^ (8 * Z.of_nat (length l)) * le_value k.
Proof.
  induction l as [|b l IH]; [simpl; lia|]. simpl app. simpl le_value. rewrite IH.
  replace (8 * Z.of_nat (length (b :: l))) with (8 + 8 * Z.of_nat (length l)) by (simpl; lia).
  rewrite Z.pow_add_r by lia. lia.
Qed.

(** The integer a hash stands for, from its four words. *)
Lemma hash_words hash :
  length hash = 32%nat →
  le_value hash = hash_word hash 0 + 2 ^ 64 * hash_word hash 1 +
    2 ^ 128 * hash_word hash 2 + 2 ^ 192 * hash_word hash 3.
Proof.
  intros Hl. unfold hash_word. cbn [Nat.mul Nat.add].
  rewrite <- (take_drop 8 hash) at 1. rewrite le_value_app.
  rewrite <- (take_drop 8 (drop 8 hash)) at 1. rewrite le_value_app, drop_drop.
  rewrite <- (take_drop 8 (drop (8 + 8) hash)) at 1. rewrite le_value_app, drop_drop.
  cbn [Nat.add]. rewrite (take_ge (drop 24 hash)) by (rewrite length_drop; lia).
  rewrite !length_take, !length_drop, Hl. cbn [Nat.min Nat.sub].
  rewrite drop_0.
  change (8 * Z.of_nat 8) with 64. change (2 ^ 128) with (2 ^ 64 * 2 ^ 64).
  change (2 ^ 192) with (2 ^ 64 * 2 ^ 64 * 2 ^ 64). lia.
Qed.

Lemma cadc_spec a b c :
  is_u64 a → is_u64 b → cadc a b c = (2 ^ 64 <=? a + b + Z.b2z c).
Proof.
  intros [] []. unfold cadc, u64, wrap, UINT64_MAX.
  destruct c; cbn [Z.b2z andb]; rewrite ?orb_false_r; apply eq_true_iff_eq;
    rewrite ?orb_true_iff, ?Z.ltb_lt, ?Z.eqb_eq, Z.leb_le; zlia.
Qed.

Lemma cadd_cadc a b : cadd a b = cadc a b false.
Proof. unfold cadc. by rewrite orb_false_r. Qed.

(** The column sums of the schoolbook product, carries written as the test
    "this column reaches 2^64". *)
Lemma carry_chain l0 h0 l1 h1 l2 h2 t :
  is_u64 l0 → is_u64 h0 → is_u64 l1 → is_u64 h1 → is_u64 l2 → is_u64 h2 → is_u64 t →
  let c1 := 2 ^ 64 <=? h0 + l1 + 0 in
  let c2 := 2 ^ 64 <=? h1 + l2 + Z.b2z c1 in
  (2 ^ 64 <=? h2 + t + Z.b2z c2) = false ↔
  l0 + 2 ^ 64 * (h0 + l1) + 2 ^ 128 * (h1 + l2) + 2 ^ 192 * (h2 + t) < 2 ^ 256.
Proof.
  unfold in_range. intros. cbv zeta. rewrite Z.leb_gt.
  destruct (2 ^ 64 <=? h0 + l1 + 0) eqn:?; cbn [Z.b2z];
    match goal with |- context [?a <=? ?b] => destruct (a <=? b) eqn:? end;
    cbn [Z.b2z]; bool_to_prop; lia.
Qed.

Lemma check_hash_iff hash difficulty :
  length hash = 32%nat → is_bytes hash → is_u64 difficulty →
  check_hash hash difficulty = true ↔ le_value hash * difficulty < 2 ^ 256.
Proof.
  intros Hl Hb Hd. rewrite (hash_words hash Hl). unfold check_hash, swap64le.
  pose proof (hash_word_u64 hash 0 Hb) as W0. pose proof (hash_word_u64 hash 1 Hb) as W1.
  pose proof (hash_word_u64 hash 2 Hb) as W2. pose proof (hash_word_u64 hash 3 Hb) as W3.
  revert W0 W1 W2 W3.
  generalize (hash_word hash 0) (hash_word hash 1) (hash_word hash 2) (hash_word hash 3).
  intros w0 w1 w2 w3 W0 W1 W2 W3. rewrite !mul_spec by done.
  assert (Hp : ∀ w, is_u64 w → ∃ lo hi, w * difficulty = lo + hi * 2 ^ 64 ∧
    (w * difficulty) mod 2 ^ 64 = lo ∧ (w * difficulty) / 2 ^ 64 = hi ∧
    is_u64 lo ∧ is_u64 hi).
  { intros w Hw. eexists _, _. split_and!; try done; [zlia|unfold in_range; zlia|].
    unfold in_range in *. split; [apply Z.div_pos; [apply Z.mul_nonneg_nonneg|]; lia|].
    apply Z.div_lt_upper_bound; [lia|]. apply Z.mul_lt_mono_nonneg; lia. }
  destruct (Hp w0 W0) as (l0 & h0 & E0 & M0 & D0 & L0 & H0).
  destruct (Hp w1 W1) as (l1 & h1 & E1 & M1 & D1 & L1 & H1).
  destruct (Hp w2 W2) as (l2 & h2 & E2 & M2 & D2 & L2 & H2).
  destruct (Hp w3 W3) as (l3 & h3 & E3 & M3 & D3 & L3 & H3).
  replace ((w0 + 2 ^ 64 * w1 + 2 ^ 128 * w2 + 2 ^ 192 * w3) * difficulty)
    with (w0 * difficulty + 2 ^ 64 * (w1 * difficulty) + 2 ^ 128 * (w2 * difficulty)
      + 2 ^ 192 * (w3 * difficulty)) by lia.
  rewrite ?M0, M1, M2, M3, D0, D1, D2, D3, E0, E1, E2, E3. rewrite cadd_cadc, !cadc_spec by done. clear - L0 H0 L1 H1 L2 H2 L3 H3.
  destruct (h3 =? 0) eqn:Eh; bool_to_prop; cbn [negb].
  - subst h3. cbn [Z.b2z]. rewrite negb_true_iff.
    rewrite (carry_chain l0 h0 l1 h1 l2 h2 l3) by done. lia.
  - unfold in_range in *. split; [done|]. lia.
Qed.

(** ** The contract of the arithmetic *)

(** [mul128] returns the low and the high word of the exact 128-bit
    product, and its assertion never fails. *)
Theorem mul128_exact m n :
  is_u64 m → is_u64 n → mul128 m n = Ret ((m * n) mod 2 ^ 64, (m * n) / 2 ^ 64).
Proof. apply mul128_ret. Qed.

Lemma mul128_exact_witness :
  mul128 UINT64_MAX UINT64_MAX = Ret (1, 2 ^ 64 - 2).
Proof. apply (mul128_exact UINT64_MAX UINT64_MAX); done. Defined.

(** [div128_32] divides the 128-bit dividend exactly: the quotient words
    are 64-bit and, with the returned remainder, rebuild the dividend. *)
Theorem div128_32_exact hi lo d :
  is_u64 hi → is_u64 lo → 0 < d < 2 ^ 32 →
  ∃ r qhi qlo, div128_32 hi lo d = Ret (r, qhi, qlo) ∧ is_u64 qhi ∧ is_u64 qlo ∧
    0 <= r < d ∧ hi * 2 ^ 64 + lo = d * (qhi * 2 ^ 64 + qlo) + r.
Proof. apply div128_32_ret. Qed.

Lemma div128_32_exact_witness :
  ∃ r qhi qlo, div128_32 7 5 10 = Ret (r, qhi, qlo) ∧ is_u64 qhi ∧ is_u64 qlo ∧
    0 <= r < 10 ∧ 7 * 2 ^ 64 + 5 = 10 * (qhi * 2 ^ 64 + qlo) + r.
Proof. apply (div128_32_exact 7 5 10); done || lia. Defined.

(** the proof-of-work test is exact: [check_hash] accepts a hash, read as
    a 256-bit little-endian integer, exactly when its product with the
    difficulty stays below 2^256. *)
Theorem check_hash_exact hash difficulty :
  length hash = 32%nat → is_bytes hash → is_u64 difficulty →
  check_hash hash difficulty = true ↔ le_value hash * difficulty < 2 ^ 256.
Proof. apply check_hash_iff. Qed.

Lemma check_hash_exact_witness :
  check_hash (replicate 31 0 ++ [1]) 255 = true ↔
  le_value (replicate 31 0 ++ [1]) * 255 < 2 ^ 256.
Proof.
  apply (check_hash_exact (replicate 31 0 ++ [1]) 255); [done| |done].
  repeat constructor; done.
Defined.
