(* ===== verification/StringTools.v ===== *)
(** * String tools ([src/src/Common/StringTools.cpp])

    Hexadecimal conversion in the throwing and in the boolean variants, and
    [extract]. A [std::string] is the list of its bytes.

    The theorems show that decoding inverts encoding, that every variant of
    [fromHex] accepts the same texts, and what a successful decoding says of
    the text. *)

From S2P Require Import Prelude.

Local Open Scope Z_scope.

(** ** Hexadecimal digits *)

Definition characterValues : list Z :=
  replicate 48 0xff ++ seqZ 0 10 ++ replicate 7 0xff ++ seqZ 10 6 ++
  replicate 26 0xff ++ seqZ 10 6 ++ replicate 153 0xff.

Definition hex_error_char := "fromHex: invalid character"%string.
Definition hex_error_size := "fromHex: invalid string size"%string.
Definition hex_error_buffer := "fromHex: invalid buffer size"%string.

(** [fromHex(char)]. *)
Definition fromHex_char (character : Z) : outcome Z :=
  value ← at_ characterValues (u8 character);
  if 0x0f <? value then Throw hex_error_char else mret value.

(** [fromHex(char, uint8_t&)]: [None] where the code returns false. *)
Definition fromHex_char_try (character : Z) : outcome (option Z) :=
  value ← at_ characterValues (u8 character);
  if 0x0f <? value then mret None
  else value ← at_ characterValues (u8 character); mret (Some value).

(** [value1 << 4 | value2], stored in a [uint8_t]. *)
Definition hex_pair (value1 value2 : Z) : Z := u8 (Z.lor (Z.shiftl value1 4) value2).

(** The value of one pair of digits of [text]. *)
Definition fromHex_at (text : list Z) (i : Z) : outcome Z :=
  c1 ← at_ text (Z.shiftl i 1);
  value1 ← fromHex_char c1;
  c2 ← at_ text (Z.shiftl i 1 + 1);
  value2 ← fromHex_char c2;
  mret (hex_pair value1 value2).

(** The body of the throwing loops: store the next byte. *)
Definition fromHex_step (text : list Z) (i : Z) (data : list Z) : outcome (list Z) :=
  b ← fromHex_at text i; mret (data ++ [b]).

(** [fromHex(text)], and [fromHex(text, data, bufferSize)]: the bytes stored. *)
Definition fromHex (text : list Z) : outcome (list Z) :=
  let size := Z.of_nat (length text) in
  if negb (Z.land size 1 =? 0) then Throw hex_error_size
  else
    for_ (Z.to_nat (Z.shiftr size 1)) 0 (fromHex_step text) [].

Definition fromHex_buffer (text : list Z) (bufferSize : Z) : outcome (list Z) :=
  let size := Z.of_nat (length text) in
  if negb (Z.land size 1 =? 0) then Throw hex_error_size
  else if bufferSize <? Z.shiftr size 1 then Throw hex_error_buffer
  else
    for_ (Z.to_nat (Z.shiftr size 1)) 0 (fromHex_step text) [].

(** The loop of the boolean variants: the flag and what was stored before the
    first invalid digit. *)
Fixpoint fromHex_try_loop (n : nat) (i : Z) (text data : list Z)
    : outcome (bool * list Z) :=
  match n with
  | O => mret (true, data)
  | S n' =>
      c1 ← at_ text (Z.shiftl i 1);
      r1 ← fromHex_char_try c1;
      match r1 with
      | None => mret (false, data)
      | Some value1 =>
          c2 ← at_ text (Z.shiftl i 1 + 1);
          r2 ← fromHex_char_try c2;
          match r2 with
          | None => mret (false, data)
          | Some value2 =>
              fromHex_try_loop n' (i + 1) text (data ++ [hex_pair value1 value2])
          end
      end
  end.

(** [fromHex(text, std::vector<uint8_t>& data)]: appends to [data]. *)
Definition fromHex_append (text data : list Z) : outcome (bool * list Z) :=
  let size := Z.of_nat (length text) in
  if negb (Z.land size 1 =? 0) then mret (false, data)
  else fromHex_try_loop (Z.to_nat (Z.shiftr size 1)) 0 text data.

(** [fromHex(text, data, bufferSize, size)]: the flag and the bytes stored. *)
Definition fromHex_buffer_try (text : list Z) (bufferSize : Z)
    : outcome (bool * list Z) :=
  let size := Z.of_nat (length text) in
  if negb (Z.land size 1 =? 0) then mret (false, [])
  else if bufferSize <? Z.shiftr size 1 then mret (false, [])
  else fromHex_try_loop (Z.to_nat (Z.shiftr size 1)) 0 text [].

(** [podFromHex] for a type of [sizeof_T] bytes. *)
Definition podFromHex (sizeof_T : Z) (text : list Z) : outcome (option (list Z)) :=
  '(ok, data) ← fromHex_buffer_try text sizeof_T;
  mret (if ok && (Z.of_nat (length data) =? sizeof_T) then Some data else None).

Definition hex_digits : list Z := bytes_of_string "0123456789abcdef".

(** [toHex(data)]. *)
Fixpoint toHex (data : list Z) : outcome (list Z) :=
  match data with
  | [] => mret []
  | b :: data' =>
      h ← at_ hex_digits (Z.shiftr b 4);
      l ← at_ hex_digits (Z.land b 15);
      rest ← toHex data';
      mret (h :: l :: rest)
  end.

(** ** [extract] *)

(** [text.find(delimiter, offset)], [None] for [npos]. *)
Fixpoint find_from (delimiter : Z) (text : list Z) (pos offset : Z) : option Z :=
  match text with
  | [] => None
  | c :: text' =>
      if (offset <=? pos) && (c =? delimiter) then Some pos
      else find_from delimiter text' (pos + 1) offset
  end.

Definition find_char (delimiter : Z) (text : list Z) (offset : Z) : option Z :=
  find_from delimiter text 0 offset.

(** [text.substr(pos, len)] for [pos <= text.size()]; it throws beyond. *)
Definition substr (text : list Z) (pos : Z) (len : option Z) : outcome (list Z) :=
  if Z.of_nat (length text) <? pos then Throw "out_of_range"
  else
    let tail := drop (Z.to_nat pos) text in
    mret (match len with None => tail | Some n => take (Z.to_nat n) tail end).

(** [extract(std::string&, char)]: the returned text and what is left. *)
Definition extract (text : list Z) (delimiter : Z) : outcome (list Z * list Z) :=
  match find_char delimiter text 0 with
  | Some p =>
      subText ← substr text 0 (Some p);
      rest ← substr text (p + 1) None;
      mret (subText, rest)
  | None => mret (text, [])
  end.

(** [extract(const std::string&, char, uint64_t& offset)]: the returned text
    and the new offset. *)
Definition extract_at (text : list Z) (delimiter offset : Z) : outcome (list Z * Z) :=
  match find_char delimiter text offset with
  | Some p =>
      let offset := p + 1 in
      sub ← substr text offset (Some p); mret (sub, offset)
  | None =>
      let offset := Z.of_nat (length text) in
      sub ← substr text offset None; mret (sub, offset)
  end.

(** ** A structural reference decoder *)

Definition hex_value (c : Z) : option Z :=
  match fromHex_char c with Ret v => Some v | _ => None end.

Fixpoint hex_decode (text : list Z) : option (list Z) :=
  match text with
  | [] => Some []
  | c1 :: c2 :: text' =>
      v1 ← hex_value c1; v2 ← hex_value c2; rest ← hex_decode text';
      Some (hex_pair v1 v2 :: rest)
  | [_] => None
  end.

(** The bytes decoded before the first pair with an invalid digit. *)
Fixpoint hex_prefix (text : list Z) : list Z :=
  match text with
  | c1 :: c2 :: text' =>
      match hex_value c1, hex_value c2 with
      | Some v1, Some v2 => hex_pair v1 v2 :: hex_prefix text'
      | _, _ => []
      end
  | _ => []
  end.

(** Induction two elements at a time. *)
Lemma pair_ind (P : list Z → Prop) :
  P [] → (∀ a, P [a]) → (∀ a b l, P l → P (a :: b :: l)) → ∀ l, P l.
Proof.
  intros H0 H1 H2. fix IH 1. intros [|a [|b l]]; [done|apply H1|apply H2, IH].
Qed.

Lemma table_total c : ∃ v, at_ characterValues (u8 c) = Ret v ∧ 0 <= v <= 255.
Proof.
  pose (f b := match at_ characterValues b with
               | Ret v => (0 <=? v) && (v <=? 255) | _ => false end).
  assert (f (u8 c) = true) as Hf.
  { apply u8_forall; [vm_compute; done|apply u8_range]. }
  unfold f in Hf. destruct (at_ _ _) as [v| |]; [|done..].
  exists v. split; [done|]. bool_to_prop. lia.
Qed.

Lemma fromHex_char_cases c :
  fromHex_char c = match hex_value c with Some v => Ret v | None => Throw hex_error_char end.
Proof.
  unfold hex_value, fromHex_char. destruct (table_total c) as (v & -> & _).
  cbn [mbind outcome_bind]. by destruct (15 <? v).
Qed.

Lemma fromHex_char_try_value c : fromHex_char_try c = Ret (hex_value c).
Proof.
  unfold hex_value, fromHex_char_try, fromHex_char.
  destruct (table_total c) as (v & -> & _). cbn [mbind outcome_bind]. by destruct (15 <? v).
Qed.

Lemma hex_value_range c v : hex_value c = Some v → 0 <= v < 16.
Proof.
  unfold hex_value, fromHex_char. destruct (table_total c) as (v' & -> & Hv).
  cbn [mbind outcome_bind]. destruct (15 <? v') eqn:?; bool_to_prop; intros [=]. subst. lia.
Qed.

Lemma even_size {A} (l : list A) :
  Z.land (Z.of_nat (length l)) 1 = Z.of_nat (length l) mod 2.
Proof. apply (land_ones_mod _ 1). lia. Qed.

Lemma half_size {A} (a b : A) l :
  Z.to_nat (Z.shiftr (Z.of_nat (length (a :: b :: l))) 1) =
  S (Z.to_nat (Z.shiftr (Z.of_nat (length l)) 1)).
Proof. rewrite !Z.shiftr_div_pow2 by lia. simpl length. zlia. Qed.

Lemma at_app_r {A} (l k : list A) i j :
  i = Z.of_nat (length l) + j → 0 <= j → at_ (l ++ k) i = at_ k j.
Proof.
  intros -> Hj. unfold at_. case_bool; [lia|]. case_bool; [lia|].
  rewrite lookup_app_r by lia. replace (Z.to_nat (Z.of_nat (length l) + j) - length l)%nat
    with (Z.to_nat j) by lia. done.
Qed.

Section PairLoop.
Variables (pre : list Z) (i : Z).
Hypothesis Hi : Z.of_nat (length pre) = 2 * i.

Lemma at_pair c1 c2 todo :
  at_ (pre ++ c1 :: c2 :: todo) (Z.shiftl i 1) = Ret c1 ∧
  at_ (pre ++ c1 :: c2 :: todo) (Z.shiftl i 1 + 1) = Ret c2.
Proof using Hi.
  rewrite Z.shiftl_mul_pow2 by lia.
  split; [rewrite (at_app_r _ _ _ 0)|rewrite (at_app_r _ _ _ 1)]; lia || done.
Qed.

Lemma fromHex_at_pair c1 c2 todo :
  fromHex_at (pre ++ c1 :: c2 :: todo) i =
  match hex_value c1, hex_value c2 with
  | Some v1, Some v2 => Ret (hex_pair v1 v2)
  | _, _ => Throw hex_error_char
  end.
Proof using Hi.
  unfold fromHex_at. destruct (at_pair c1 c2 todo) as [-> ->].
  cbn [mbind outcome_bind]. rewrite !fromHex_char_cases.
  by destruct (hex_value c1), (hex_value c2).
Qed.

Lemma fromHex_step_pair c1 c2 todo data :
  fromHex_step (pre ++ c1 :: c2 :: todo) i data =
  match hex_value c1, hex_value c2 with
  | Some v1, Some v2 => Ret (data ++ [hex_pair v1 v2])
  | _, _ => Throw hex_error_char
  end.
Proof using Hi.
  unfold fromHex_step. rewrite fromHex_at_pair.
  by destruct (hex_value c1), (hex_value c2).
Qed.
End PairLoop.

Lemma fromHex_loop_spec todo : ∀ pre i acc,
  Z.of_nat (length pre) = 2 * i → Z.of_nat (length todo) mod 2 = 0 →
  for_ (Z.to_nat (Z.shiftr (Z.of_nat (length todo)) 1)) i
    (fromHex_step (pre ++ todo)) acc =
  match hex_decode todo with
  | Some d => Ret (acc ++ d) | None => Throw hex_error_char end.
Proof.
  induction todo as [|c|c1 c2 todo IH] using pair_ind; intros pre i acc Hi He.
  - simpl. by rewrite app_nil_r.
  - simpl in He. done.
  - rewrite half_size, for_S, fromHex_step_pair by done. cbn [hex_decode].
    destruct (hex_value c1) as [v1|], (hex_value c2) as [v2|]; [|done..].
    cbn [mbind outcome_bind option_bind].
    replace (pre ++ c1 :: c2 :: todo) with ((pre ++ [c1; c2]) ++ todo)
      by (by rewrite <- app_assoc).
    rewrite IH.
    + destruct (hex_decode todo); cbn [mbind option_bind]; [by rewrite <- app_assoc|done].
    + rewrite length_app. simpl length. lia.
    + simpl length in He. zlia.
Qed.

Lemma fromHex_spec text :
  fromHex text =
  if negb (Z.of_nat (length text) mod 2 =? 0) then Throw hex_error_size
  else match hex_decode text with Some d => Ret d | None => Throw hex_error_char end.
Proof.
  unfold fromHex. cbv zeta. rewrite even_size.
  destruct (_ =? 0) eqn:E; bool_to_prop; [|done]. cbn [negb].
  by apply (fromHex_loop_spec text [] 0 []).
Qed.

Lemma fromHex_try_loop_spec todo : ∀ pre i data,
  Z.of_nat (length pre) = 2 * i → Z.of_nat (length todo) mod 2 = 0 →
  fromHex_try_loop (Z.to_nat (Z.shiftr (Z.of_nat (length todo)) 1)) i (pre ++ todo) data =
  Ret (bool_decide (is_Some (hex_decode todo)), data ++ hex_prefix todo).
Proof.
  induction todo as [|c|c1 c2 todo IH] using pair_ind; intros pre i data Hi He.
  - simpl. by rewrite app_nil_r.
  - simpl in He. done.
  - rewrite half_size. cbn [fromHex_try_loop hex_decode hex_prefix].
    destruct (at_pair pre i Hi c1 c2 todo) as [-> ->].
    cbn [mbind outcome_bind]. rewrite !fromHex_char_try_value. cbn [mbind outcome_bind].
    destruct (hex_value c1) as [v1|]; [|by rewrite app_nil_r].
    destruct (hex_value c2) as [v2|]; [|by rewrite app_nil_r].
    cbn [mbind option_bind].
    replace (pre ++ c1 :: c2 :: todo) with ((pre ++ [c1; c2]) ++ todo)
      by (by rewrite <- app_assoc).
    rewrite IH.
    + rewrite <- app_assoc. by destruct (hex_decode todo).
    + rewrite length_app. simpl length. lia.
    + simpl length in He. zlia.
Qed.

(** Lower case of a hexadecimal letter. *)
Definition hex_lower (c : Z) : Z := if (65 <=? c) && (c <=? 70) then c + 32 else c.

Lemma hex_digit_value b :
  is_u8 b → ∃ h l, at_ hex_digits (Z.shiftr b 4) = Ret h ∧
    at_ hex_digits (Z.land b 15) = Ret l ∧
    hex_value h = Some (Z.shiftr b 4) ∧ hex_value l = Some (Z.land b 15) ∧
    hex_pair (Z.shiftr b 4) (Z.land b 15) = b.
Proof.
  intros Hb. pose (f b := match at_ hex_digits (Z.shiftr b 4), at_ hex_digits (Z.land b 15) with
    | Ret h, Ret l => bool_decide (hex_value h = Some (Z.shiftr b 4)) &&
        bool_decide (hex_value l = Some (Z.land b 15)) &&
        (hex_pair (Z.shiftr b 4) (Z.land b 15) =? b)
    | _, _ => false end).
  assert (f b = true) as Hf by (apply u8_forall; [vm_compute; done|done]).
  unfold f in Hf. destruct (at_ hex_digits (Z.shiftr b 4)) as [h| |]; [|done..].
  destruct (at_ hex_digits (Z.land b 15)) as [l| |]; [|done..].
  apply andb_true_iff in Hf as [[H1 H2]%andb_true_iff H3].
  exists h, l. split_and!; [done..| | |lia]; by eapply bool_decide_eq_true_1.
Qed.

(** Every hexadecimal digit is, up to case, the one [toHex] writes. *)
Lemma hex_value_digit c v :
  is_u8 c → hex_value c = Some v → at_ hex_digits v = Ret (hex_lower c).
Proof.
  intros Hc. pose (f c := match hex_value c with
    | Some v => match at_ hex_digits v with Ret d => d =? hex_lower c | _ => false end
    | None => true end).
  assert (f c = true) as Hf by (apply u8_forall; [vm_compute; done|done]).
  unfold f in Hf. intros E. rewrite E in Hf.
  destruct (at_ hex_digits v); [|done..]. f_equal. lia.
Qed.

Lemma hex_pair_split v1 v2 :
  0 <= v1 < 16 → 0 <= v2 < 16 →
  is_u8 (hex_pair v1 v2) ∧ Z.shiftr (hex_pair v1 v2) 4 = v1 ∧ Z.land (hex_pair v1 v2) 15 = v2.
Proof.
  intros H1 H2. unfold hex_pair. rewrite Z.lor_comm, lor_shiftl_add by lia.
  rewrite u8_small by (unfold in_range; lia).
  rewrite Z.shiftr_div_pow2 by lia. change 15 with (Z.ones 4).
  rewrite Z.land_ones by lia. unfold in_range. zlia.
Qed.

Lemma toHex_decode data :
  is_bytes data → ∃ text, toHex data = Ret text ∧ hex_decode text = Some data ∧
    length text = (2 * length data)%nat ∧ is_bytes text.
Proof.
  induction 1 as [|b data Hb _ (text & E & D & L & B)].
  { exists []. split_and!; try done. constructor. }
  destruct (hex_digit_value b Hb) as (h & l & Eh & El & Vh & Vl & P).
  exists (h :: l :: text). cbn [toHex]. rewrite Eh, El, E. split; [done|].
  cbn [hex_decode]. rewrite Vh, Vl, D. cbn [mbind option_bind]. rewrite P.
  split; [done|]. split; [simpl; lia|].
  assert (∀ i d, at_ hex_digits i = Ret d → is_u8 d) as Hdig.
  { intros i d. unfold at_. destruct (i <? 0); [done|].
    destruct (hex_digits !! Z.to_nat i) as [x|] eqn:Ex; intros [=]. subst x.
    eapply (Forall_lookup_1 (in_range 8) hex_digits); [|done].
    apply (bool_decide_unpack (is_bytes hex_digits)). vm_compute. done. }
  repeat constructor; try eapply Hdig; done.
Qed.

Lemma hex_decode_toHex text : ∀ data,
  is_bytes text → hex_decode text = Some data →
  is_bytes data ∧ toHex data = Ret (hex_lower <$> text).
Proof.
  induction text as [|c|c1 c2 text IH] using pair_ind; intros data Hb E; simplify_eq/=.
  { by split; [constructor|]. }
  destruct (hex_value c1) as [v1|] eqn:E1; [|done].
  destruct (hex_value c2) as [v2|] eqn:E2; [|done].
  destruct (hex_decode text) as [rest|] eqn:E3; simplify_eq/=.
  apply Forall_cons_iff in Hb as [Hc1 [Hc2 Hb]%Forall_cons_iff].
  destruct (IH rest Hb eq_refl) as [Hr Ht].
  destruct (hex_pair_split v1 v2) as (H8 & Hh & Hl); [by eapply hex_value_range..|].
  split; [by constructor|]. rewrite Hh, Hl.
  by rewrite (hex_value_digit c1 v1), (hex_value_digit c2 v2), Ht.
Qed.

Lemma hex_decode_even text data :
  hex_decode text = Some data → length text = (2 * length data)%nat.
Proof.
  revert data. induction text as [|c|c1 c2 text IH] using pair_ind; intros data E; simplify_eq/=.
  { done. }
  destruct (hex_value c1), (hex_value c2), (hex_decode text) as [rest|]; simplify_eq/=.
  rewrite (IH rest) by done. lia.
Qed.

Lemma hex_prefix_decode text data : hex_decode text = Some data → hex_prefix text = data.
Proof.
  revert data. induction text as [|c|c1 c2 text IH] using pair_ind; intros data E; simplify_eq/=.
  { done. }
  destruct (hex_value c1), (hex_value c2), (hex_decode text) as [rest|]; simplify_eq/=.
  by rewrite (IH rest).
Qed.

Lemma fromHex_iff text data : fromHex text = Ret data ↔ hex_decode text = Some data.
Proof.
  rewrite fromHex_spec. destruct (hex_decode text) as [d|] eqn:E.
  - pose proof (hex_decode_even _ _ E) as Hl. case_bool; [|naive_solver].
    exfalso. bool_to_prop. zlia.
  - split; [|done]. by case_bool.
Qed.

Lemma fromHex_append_spec text data :
  ∃ data', fromHex_append text data =
    Ret (bool_decide (is_Some (hex_decode text)), data ++ data') ∧
    (is_Some (hex_decode text) → hex_decode text = Some data').
Proof.
  unfold fromHex_append. cbv zeta. rewrite even_size.
  destruct (_ =? 0) eqn:E; cbn [negb].
  - exists (hex_prefix text). rewrite (fromHex_try_loop_spec text [] 0) by (done || lia).
    split; [done|]. intros [d Hd]. by rewrite Hd, (hex_prefix_decode _ _ Hd).
  - exists []. rewrite app_nil_r.
    assert (hex_decode text = None) as ->.
    { destruct (hex_decode text) as [d|] eqn:Hd; [|done].
      apply hex_decode_even in Hd. bool_to_prop. zlia. }
    split; [done|]. by intros [].
Qed.

(** ** [extract] *)

Lemma find_from_app d pre post pos :
  d ∉ pre → 0 <= pos →
  find_from d (pre ++ d :: post) pos 0 = Some (pos + Z.of_nat (length pre)).
Proof.
  revert pos. induction pre as [|c pre IH]; intros pos Hd Hp; simpl app; cbn [find_from].
  - rewrite Z.eqb_refl. case_bool; bool_to_prop; [f_equal; simpl; lia|lia].
  - rewrite (proj2 (Z.eqb_neq c d)) by (intros ->; apply Hd; left). rewrite andb_false_r.
    rewrite IH; [f_equal; simpl length; lia|by intros ?; apply Hd; right|lia].
Qed.

Lemma find_from_None d text pos : d ∉ text → find_from d text pos 0 = None.
Proof.
  revert pos. induction text as [|c text IH]; intros pos Hd; [done|]. cbn [find_from].
  rewrite (proj2 (Z.eqb_neq c d)) by (intros ->; apply Hd; left). rewrite andb_false_r.
  apply IH. by intros ?; apply Hd; right.
Qed.

Lemma substr_ret text pos len :
  0 <= pos <= Z.of_nat (length text) →
  substr text pos len = Ret (match len with
    | None => drop (Z.to_nat pos) text
    | Some n => take (Z.to_nat n) (drop (Z.to_nat pos) text) end).
Proof. intros H. unfold substr. case_bool; [lia|done]. Qed.

(** [extract] cuts at the first delimiter and keeps what follows it. *)
Lemma extract_cut d pre post :
  d ∉ pre → extract (pre ++ d :: post) d = Ret (pre, post) ∧ extract pre d = Ret (pre, []).
Proof.
  intros Hd. unfold extract, find_char.
  rewrite find_from_app, find_from_None by (done || lia). split; [|done].
  rewrite !substr_ret by (rewrite length_app; simpl length; lia).
  cbn [mbind outcome_bind]. rewrite drop_0.
  rewrite take_app_length' by lia.
  replace (Z.to_nat (0 + Z.of_nat (length pre) + 1)) with (length pre + 1)%nat by lia.
  rewrite <- drop_drop, drop_app_length. done.
Qed.

(** [extract] with an offset moves the offset before it takes the substring,
    and so returns text from behind the delimiter. *)
Lemma extract_at_cut d pre post :
  d ∉ pre →
  extract_at (pre ++ d :: post) d 0 = Ret (take (length pre) post, Z.of_nat (length pre) + 1) ∧
  extract_at pre d 0 = Ret ([], Z.of_nat (length pre)).
Proof.
  intros Hd. unfold extract_at, find_char.
  rewrite find_from_app, find_from_None by (done || lia).
  rewrite !substr_ret by (rewrite ?length_app; simpl length; lia).
  cbn [mbind outcome_bind mret outcome_ret].
  replace (Z.to_nat (0 + Z.of_nat (length pre) + 1)) with (length pre + 1)%nat by lia.
  rewrite <- drop_drop, drop_app_length, Nat2Z.id, drop_all.
  split; [|done]. simpl. by replace (Z.to_nat (0 + Z.of_nat (length pre))) with (length pre) by lia.
Qed.

Lemma podFromHex_iff sizeof_T text d :
  podFromHex sizeof_T text = Ret (Some d) ↔
  hex_decode text = Some d ∧ Z.of_nat (length d) = sizeof_T.
Proof.
  unfold podFromHex, fromHex_buffer_try. cbv zeta.
  rewrite even_size.
  destruct (_ mod 2 =? 0) eqn:Ee; cbn [negb].
  2: { cbn [mbind outcome_bind mret outcome_ret andb]. split; [done|].
       intros [Hd%hex_decode_even _]. bool_to_prop. zlia. }
  rewrite Z.shiftr_div_pow2 by lia. destruct (sizeof_T <? _) eqn:Es.
  { cbn [mbind outcome_bind mret outcome_ret andb]. split; [done|].
    intros [Hd%hex_decode_even Hs]. bool_to_prop. zlia. }
  rewrite <- Z.shiftr_div_pow2 by lia.
  rewrite (fromHex_try_loop_spec text [] 0) by (done || lia).
  cbn [mbind outcome_bind app].
  destruct (hex_decode text) as [d'|] eqn:Ed.
  + rewrite (hex_prefix_decode _ _ Ed). rewrite bool_decide_eq_true_2 by eauto.
    cbn [andb]. case_bool; bool_to_prop; split.
    * by intros [= ->].
    * by intros [[= ->] ?].
    * done.
    * by intros [[= ->] ?].
  + rewrite bool_decide_eq_false_2 by (by intros []). split; [done|by intros []].
Qed.

Lemma podFromHex_total sizeof_T text : ∃ r, podFromHex sizeof_T text = Ret r.
Proof.
  unfold podFromHex, fromHex_buffer_try. cbv zeta. rewrite even_size. destruct (_ mod 2 =? 0) eqn:Ee; cbn [negb]; [|by eexists].
  rewrite Z.shiftr_div_pow2 by lia. destruct (sizeof_T <? _) eqn:Es; [by eexists|]. rewrite <- Z.shiftr_div_pow2 by lia.
  rewrite (fromHex_try_loop_spec text [] 0) by (done || lia). by eexists.
Qed.

(** ** The contract of the conversions *)

(** [toHex] succeeds on every byte string, writes two characters per byte,
    and [fromHex] reads the bytes back; conversely a text [fromHex] accepts is,
    up to the case of its letters, what [toHex] writes for the result. *)
Theorem hex_roundtrip :
  (∀ data, is_bytes data →
     ∃ text, toHex data = Ret text ∧ length text = (2 * length data)%nat ∧
       fromHex text = Ret data) ∧
  (∀ text data, is_bytes text → fromHex text = Ret data →
     toHex data = Ret (hex_lower <$> text)).
Proof.
  split.
  - intros data H. destruct (toHex_decode data H) as (t & E & D & L & _).
    exists t. by rewrite fromHex_iff.
  - intros text data H E%fromHex_iff. by apply hex_decode_toHex.
Qed.

(** the variants of [fromHex] agree. The boolean one never throws, returns
    true exactly on the texts the throwing one accepts, and then appends the
    bytes that one returns; [podFromHex] accepts those of the right size. *)
Theorem fromHex_variants_agree text data sizeof_T :
  (∃ ok data', fromHex_append text data = Ret (ok, data ++ data') ∧
     (ok = true → fromHex text = Ret data') ∧
     (ok = false → ∀ d, fromHex text ≠ Ret d)) ∧
  (∀ d, podFromHex sizeof_T text = Ret (Some d) ↔
     fromHex text = Ret d ∧ Z.of_nat (length d) = sizeof_T).
Proof.
  split.
  - destruct (fromHex_append_spec text data) as (data' & E & Hd).
    eexists _, data'. split; [done|]. split.
    + intros Hs%bool_decide_eq_true. rewrite fromHex_iff. by apply Hd.
    + intros Hs%bool_decide_eq_false d. rewrite fromHex_iff.
      intros Hx. apply Hs. by rewrite Hx.
  - intros d. rewrite fromHex_iff. apply podFromHex_iff.
Qed.

(** [extract(text, delimiter)] returns the text before the first
    delimiter and leaves what follows it, or everything when there is none.
    [extract(text, delimiter, offset)], which moves [offset] before it takes the
    substring, returns instead a piece of the text behind the delimiter, and the
    empty text for the last field. *)
Theorem extract_fields d pre post :
  d ∉ pre →
  extract (pre ++ d :: post) d = Ret (pre, post) ∧ extract pre d = Ret (pre, []) ∧
  extract_at (pre ++ d :: post) d 0 = Ret (take (length pre) post, Z.of_nat (length pre) + 1) ∧
  extract_at pre d 0 = Ret ([], Z.of_nat (length pre)).
Proof.
  intros Hd. pose proof (extract_cut d pre post Hd) as [E1 E2].
  pose proof (extract_at_cut d pre post Hd) as [E3 E4]. by rewrite E1, E2, E3, E4.
Qed.

Lemma extract_fields_witness :
  extract [97; 98; 44; 99] 44 = Ret ([97; 98], [99]) ∧ extract [97; 98] 44 = Ret ([97; 98], []) ∧
  extract_at [97; 98; 44; 99] 44 0 = Ret ([99], 3) ∧ extract_at [97; 98] 44 0 = Ret ([], 2).
Proof. apply (extract_fields 44 [97; 98] [99]). by apply (bool_decide_unpack _). Defined.
