(* ===== verification/Base58.v ===== *)
(** * Base58 ([src/src/Common/Base58.cpp])

    The block-wise base-58 encoding of addresses, with the reverse tables built
    as the static constructors build them, and the tagged, checksummed address
    format on top of it. A [std::string] is the list of its bytes; a function
    that returns [false] gives [None].

    The theorems show that decoding inverts encoding, that a text [decode]
    accepts is the only one that decodes to its bytes, and that an address round
    trips through [encode_addr] and [decode_addr] for any hash function. *)

From S2P Require Import Prelude Varint Streams IntUtil StringTools.

Local Open Scope Z_scope.

Definition alphabet : list Z :=
  bytes_of_string "123456789ABCDEFGHJKLMNPQRSTUVWXYZabcdefghijkmnopqrstuvwxyz".
Definition alphabet_size : Z := 58.
Definition encoded_block_sizes : list Z := [0; 2; 3; 5; 6; 7; 9; 10; 11].
Definition full_block_size : Z := 8.
Definition full_encoded_block_size : Z := 11.
Definition addr_checksum_size : Z := 4.

(** [char] is signed. *)
Definition signed_char (c : Z) : Z := if 128 <=? c then c - 256 else c.

(** The constructor of [reverse_alphabet]. *)
Definition reverse_alphabet_data : outcome (list Z) :=
  z ← at_ alphabet (alphabet_size - 1);
  a0 ← at_ alphabet 0;
  for_ (Z.to_nat alphabet_size) 0
    (λ i m_data, ai ← at_ alphabet i; set_at m_data (u64 (ai - a0)) i)
    (replicate (Z.to_nat (z - a0 + 1)) (-1)).

(** [reverse_alphabet::instance(letter)]. *)
Definition reverse_alphabet (letter : Z) : outcome Z :=
  m_data ← reverse_alphabet_data;
  a0 ← at_ alphabet 0;
  let idx := u64 (signed_char letter - a0) in
  if idx <? Z.of_nat (length m_data) then at_ m_data idx else mret (-1).

(** The constructor of [decoded_block_sizes]. *)
Definition decoded_block_sizes_data : outcome (list Z) :=
  full ← at_ encoded_block_sizes full_block_size;
  for_ (Z.to_nat (full_block_size + 1)) 0
    (λ i m_data, e ← at_ encoded_block_sizes i; set_at m_data e i)
    (replicate (Z.to_nat (full + 1)) (-1)).

(** [decoded_block_sizes::instance(encoded_block_size)]. *)
Definition decoded_block_sizes (encoded_block_size : Z) : outcome Z :=
  assert_ (encoded_block_size <=? full_encoded_block_size);;
  m_data ← decoded_block_sizes_data;
  at_ m_data encoded_block_size.

Definition uint_8be_to_64 (data : list Z) : outcome Z :=
  let size := Z.of_nat (length data) in
  assert_ ((1 <=? size) && (size <=? 8));;
  mret (fold_left (λ res b, Z.lor (u64 (Z.shiftl res 8)) b) data 0).

(** The last [size] bytes of the big-endian word. *)
Definition uint_64_to_8be (num size : Z) : outcome (list Z) :=
  assert_ ((1 <=? size) && (size <=? 8));;
  mret (drop (Z.to_nat (8 - size)) (rev (le_bytes 8 num))).

(** The loop of [encode_block]: [res] is the block's field of the result,
    already filled with the first letter. Eleven digits hold 64 bits. *)
Fixpoint encode_block_loop (fuel : nat) (num i : Z) (res : list Z) : outcome (list Z) :=
  if 0 <? num then
    match fuel with
    | O => Abort
    | S fuel' =>
        let remainder := num mod alphabet_size in
        let num := num / alphabet_size in
        c ← at_ alphabet remainder;
        res ← set_at res i c;
        encode_block_loop fuel' num (i - 1) res
    end
  else mret res.

Definition encode_block (block : list Z) : outcome (list Z) :=
  let size := Z.of_nat (length block) in
  assert_ ((1 <=? size) && (size <=? full_block_size));;
  num ← uint_8be_to_64 block;
  esize ← at_ encoded_block_sizes size;
  a0 ← at_ alphabet 0;
  encode_block_loop 11 num (esize - 1) (replicate (Z.to_nat esize) a0).

(** The loop of [decode_block], from the last character to the first: [i] is
    the number of characters left. *)
Fixpoint decode_block_loop (i : nat) (block : list Z) (res_num order : Z)
    : outcome (option Z) :=
  match i with
  | O => mret (Some res_num)
  | S i' =>
      c ← at_ block (Z.of_nat i');
      digit ← reverse_alphabet c;
      if digit <? 0 then mret None
      else
        '(lo, product_hi) ← mul128 order digit;
        let tmp := u64 (res_num + lo) in
        if (tmp <? res_num) || negb (0 =? product_hi) then mret None
        else decode_block_loop i' block tmp (u64 (order * alphabet_size))
  end.

Definition decode_block (block : list Z) : outcome (option (list Z)) :=
  let size := Z.of_nat (length block) in
  assert_ ((1 <=? size) && (size <=? full_encoded_block_size));;
  res_size ← decoded_block_sizes size;
  if res_size <=? 0 then mret None
  else
    r ← decode_block_loop (length block) block 0 1;
    match r with
    | None => mret None
    | Some res_num =>
        if (res_size <? full_block_size) && (u64 (Z.shiftl 1 (8 * res_size)) <=? res_num)
        then mret None
        else res ← uint_64_to_8be res_num res_size; mret (Some res)
    end.

(** The [n] full blocks of [data], in order. *)
Fixpoint encode_blocks (n : nat) (data : list Z) : outcome (list Z) :=
  match n with
  | O => mret []
  | S n' =>
      b ← encode_block (take (Z.to_nat full_block_size) data);
      rest ← encode_blocks n' (drop (Z.to_nat full_block_size) data);
      mret (b ++ rest)
  end.

(** [Tools::Base58::encode]: the fields of the result follow each other. *)
Definition encode (data : list Z) : outcome (list Z) :=
  match data with
  | [] => mret []
  | _ =>
      let full_block_count := Z.of_nat (length data) / full_block_size in
      let last_block_size := Z.of_nat (length data) mod full_block_size in
      res ← encode_blocks (Z.to_nat full_block_count) data;
      if 0 <? last_block_size then
        last ← encode_block (drop (Z.to_nat (full_block_count * full_block_size)) data);
        mret (res ++ last)
      else mret res
  end.

Fixpoint decode_blocks (n : nat) (enc : list Z) : outcome (option (list Z)) :=
  match n with
  | O => mret (Some [])
  | S n' =>
      b ← decode_block (take (Z.to_nat full_encoded_block_size) enc);
      match b with
      | None => mret None
      | Some d =>
          r ← decode_blocks n' (drop (Z.to_nat full_encoded_block_size) enc);
          mret (option_map (app d) r)
      end
  end.

Definition decode (enc : list Z) : outcome (option (list Z)) :=
  match enc with
  | [] => mret (Some [])
  | _ =>
      let full_block_count := Z.of_nat (length enc) / full_encoded_block_size in
      let last_block_size := Z.of_nat (length enc) mod full_encoded_block_size in
      last_block_decoded_size ← decoded_block_sizes last_block_size;
      if last_block_decoded_size <? 0 then mret None
      else
        r ← decode_blocks (Z.to_nat full_block_count) enc;
        match r with
        | None => mret None
        | Some data =>
            if 0 <? last_block_size then
              l ← decode_block (drop (Z.to_nat (full_block_count * full_encoded_block_size)) enc);
              mret (option_map (app data) l)
            else mret (Some data)
        end
  end.

Section Address.
(** [Crypto::cn_fast_hash]: the 32 bytes of a hash. *)
Variable cn_fast_hash : list Z → list Z.

Definition encode_addr (tag : Z) (data : list Z) : outcome (list Z) :=
  let buf := get_varint_data tag in
  let buf := buf ++ data in
  let hash := cn_fast_hash buf in
  let buf := buf ++ take (Z.to_nat addr_checksum_size) hash in
  encode buf.

Definition decode_addr (addr : list Z) : outcome (option (Z * list Z)) :=
  r ← decode addr;
  match r with
  | None => mret None
  | Some addr_data =>
      let size := Z.of_nat (length addr_data) in
      if size <=? addr_checksum_size then mret None
      else
        checksum ← substr addr_data (size - addr_checksum_size) None;
        let addr_data := take (Z.to_nat (size - addr_checksum_size)) addr_data in
        let hash := cn_fast_hash addr_data in
        let expected_checksum := take (Z.to_nat addr_checksum_size) hash in
        if negb (bool_decide (expected_checksum = checksum)) then mret None
        else
          let '(read, tag, _) := read_varint 64 addr_data in
          if read <=? 0 then mret None
          else data ← substr addr_data read None; mret (Some (tag, data))
  end.
End Address.

(** ** Digits *)

(** The value of big-endian base-58 digits, and the [n] digits of a number. *)
Definition be58 (ds : list Z) : Z := fold_left (λ acc d, acc * 58 + d) ds 0.

Fixpoint digits58 (n : nat) (num : Z) : list Z :=
  match n with O => [] | S n' => digits58 n' (num / 58) ++ [num mod 58] end.

Definition is_digit58 (d : Z) : Prop := 0 <= d < 58.

Lemma be58_snoc ds d : be58 (ds ++ [d]) = be58 ds * 58 + d.
Proof. unfold be58. by rewrite fold_left_app. Qed.

Lemma be58_range ds : Forall is_digit58 ds → 0 <= be58 ds < 58 ^ Z.of_nat (length ds).
Proof.
  induction ds as [|d ds IH] using rev_ind; intros H; [done|].
  apply Forall_app in H as [H1 [Hd _]%Forall_cons_iff]. specialize (IH H1).
  rewrite be58_snoc, length_app. simpl length.
  rewrite Nat2Z.inj_add, Z.pow_add_r by lia. unfold is_digit58 in Hd. lia.
Qed.

Lemma digits58_spec n : ∀ num,
  Forall is_digit58 (digits58 n num) ∧ length (digits58 n num) = n ∧
  (0 <= num < 58 ^ Z.of_nat n → be58 (digits58 n num) = num).
Proof.
  induction n as [|n IH]; intros num; cbn [digits58].
  { split; [constructor|]. split; [done|]. cbn. lia. }
  destruct (IH (num / 58)) as (Hf & Hl & Hv). split_and!.
  - apply Forall_app; split; [done|]. constructor; [|constructor]. unfold is_digit58. zlia.
  - rewrite length_app, Hl. simpl. lia.
  - intros H. rewrite be58_snoc, Hv; [zlia|].
    rewrite Nat2Z.inj_succ, Z.pow_succ_r in H by lia. zlia.
Qed.

Lemma digits58_be58 ds : Forall is_digit58 ds → digits58 (length ds) (be58 ds) = ds.
Proof.
  induction ds as [|d ds IH] using rev_ind; intros H; [done|].
  apply Forall_app in H as [H1 [Hd _]%Forall_cons_iff]. unfold is_digit58 in Hd.
  rewrite be58_snoc, length_app. simpl length. rewrite Nat.add_1_r. cbn [digits58].
  replace ((be58 ds * 58 + d) / 58) with (be58 ds) by zlia.
  replace ((be58 ds * 58 + d) mod 58) with d by zlia. by rewrite IH.
Qed.

Lemma digits58_0 n : digits58 n 0 = replicate n 0.
Proof.
  induction n as [|n IH]; [done|]. cbn [digits58]. change (0 / 58) with 0. rewrite IH.
  change [0 mod 58] with (replicate 1 0). by rewrite <- replicate_add, Nat.add_1_r.
Qed.

(** ** Letters *)

Definition letter (d : Z) : Z := default 0 (alphabet !! Z.to_nat d).

Definition letter_digit (c : Z) : option Z :=
  match reverse_alphabet c with
  | Ret d => if d <? 0 then None else Some d
  | _ => None
  end.

Lemma at_alphabet d : is_digit58 d → at_ alphabet d = Ret (letter d).
Proof.
  intros H. unfold at_, letter. unfold is_digit58 in H. case_bool; [lia|].
  destruct (alphabet !! Z.to_nat d) eqn:E; [done|].
  apply lookup_ge_None in E. change (length alphabet) with 58%nat in E. lia.
Qed.

Lemma reverse_alphabet_ret c :
  is_u8 c → ∃ d, reverse_alphabet c = Ret d ∧
    (d < 0 ∨ is_digit58 d ∧ letter d = c).
Proof.
  intros Hc. pose (f c := match reverse_alphabet c with
    | Ret d => (d <? 0) || ((d <? 58) && (letter d =? c)) | _ => false end).
  assert (f c = true) as Hf by (apply u8_forall; [vm_compute; done|done]).
  unfold f in Hf. destruct (reverse_alphabet c) as [d| |]; [|done..].
  exists d. split; [done|]. unfold is_digit58.
  destruct (d <? 0) eqn:?; bool_to_prop; [by left|]. right.
  simpl in Hf. bool_to_prop. split; lia.
Qed.

Lemma letter_digit_letter d : is_digit58 d → is_u8 (letter d) ∧ letter_digit (letter d) = Some d.
Proof.
  intros Hd. pose (f d := bool_decide (is_u8 (letter d)) &&
    bool_decide (letter_digit (letter d) = Some d)).
  assert (forallb f (seqZ 0 58) = true) as H by (vm_compute; done).
  rewrite forallb_forall in H. specialize (H d).
  apply andb_true_iff in H as [H1 H2].
  { exact (conj (bool_decide_eq_true_1 _ H1) (bool_decide_eq_true_1 _ H2)). }
  apply list_elem_of_In, elem_of_seqZ. unfold is_digit58 in Hd. lia.
Qed.

#[local] Opaque alphabet reverse_alphabet letter.

Lemma letter_digit_Some c d :
  is_u8 c → letter_digit c = Some d → is_digit58 d ∧ letter d = c.
Proof.
  intros Hc. unfold letter_digit. destruct (reverse_alphabet_ret c Hc) as (d' & -> & Hd).
  destruct (d' <? 0) eqn:?; bool_to_prop; intros [= ->]. destruct Hd; [lia|done].
Qed.

Lemma reverse_letter_digit c :
  is_u8 c → ∃ d, reverse_alphabet c = Ret d ∧
    letter_digit c = (if d <? 0 then None else Some d) ∧ (0 <= d → is_digit58 d).
Proof.
  intros Hc. unfold letter_digit. destruct (reverse_alphabet_ret c Hc) as (d & -> & Hd).
  exists d. split_and!; [done..|]. intros ?. destruct Hd as [?|[? _]]; [lia|done].
Qed.

#[local] Opaque letter_digit.

Lemma mapM_letter_digit ds :
  Forall is_digit58 ds → mapM letter_digit (letter <$> ds) = Some ds.
Proof.
  induction 1 as [|d ds Hd _ IH]; [done|]. cbn.
  destruct (letter_digit_letter d Hd) as [_ ->]. cbn. by rewrite IH.
Qed.

Lemma mapM_letter_digit_Some cs : ∀ ds,
  is_bytes cs → mapM letter_digit cs = Some ds →
  Forall is_digit58 ds ∧ letter <$> ds = cs.
Proof.
  induction cs as [|c cs IH]; intros ds Hb E; cbn in E.
  { injection E as <-. by split; [constructor|]. }
  destruct (letter_digit c) as [d|] eqn:Ed; [|done].
  destruct (mapM letter_digit cs) as [ds'|] eqn:Em; [|done]. injection E as <-.
  apply Forall_cons_iff in Hb as [Hc Hb]. destruct (IH ds' Hb eq_refl) as [Hf He].
  destruct (letter_digit_Some c d Hc Ed) as [Hd Hl].
  split; [by constructor|]. cbn. by rewrite Hl, He.
Qed.

(** ** Blocks *)

Lemma replicate_insert_last {A} n (a c : A) tail :
  <[n := c]> (replicate (S n) a ++ tail) = replicate n a ++ c :: tail.
Proof.
  rewrite replicate_S_end, <- app_assoc.
  rewrite insert_app_r_alt by (rewrite length_replicate; lia).
  by rewrite length_replicate, Nat.sub_diag.
Qed.

Lemma encode_block_loop_spec n : ∀ fuel num tail,
  (n <= fuel)%nat → 0 <= num < 58 ^ Z.of_nat n →
  encode_block_loop fuel num (Z.of_nat n - 1) (replicate n (letter 0) ++ tail) =
  Ret ((letter <$> digits58 n num) ++ tail).
Proof.
  induction n as [|n IH]; intros fuel num tail Hf Hn.
  { change (58 ^ Z.of_nat 0) with 1 in Hn. assert (num = 0) as -> by lia. by destruct fuel. }
  destruct (0 <? num) eqn:Hpos; bool_to_prop.
  - destruct fuel as [|fuel]; [lia|]. cbn [encode_block_loop].
    rewrite (proj2 (Z.ltb_lt 0 num)) by lia. unfold alphabet_size.
    rewrite at_alphabet by (unfold is_digit58; zlia). cbn [mbind outcome_bind].
    rewrite set_at_ret by (rewrite length_app, length_replicate; lia).
    cbn [mbind outcome_bind].
    replace (Z.to_nat (Z.of_nat (S n) - 1)) with n by lia.
    rewrite replicate_insert_last.
    replace (Z.of_nat (S n) - 1 - 1) with (Z.of_nat n - 1) by lia.
    rewrite IH; [|lia|].
    + cbn [digits58]. by rewrite fmap_app, <- app_assoc.
    + rewrite Nat2Z.inj_succ, Z.pow_succ_r in Hn by lia. zlia.
  - assert (num = 0) as -> by lia. rewrite digits58_0, fmap_replicate. by destruct fuel.
Qed.

(** Sizes of an encoded block: large enough for its bytes, and inverted by
    [decoded_block_sizes]. *)
Definition esize (s : nat) : nat := Z.to_nat (default 0 (encoded_block_sizes !! s)).

Lemma esize_ok s :
  (1 <= s <= 8)%nat →
  at_ encoded_block_sizes (Z.of_nat s) = Ret (Z.of_nat (esize s)) ∧
  (1 <= esize s <= 11)%nat ∧ 2 ^ (8 * Z.of_nat s) <= 58 ^ Z.of_nat (esize s) ∧
  decoded_block_sizes (Z.of_nat (esize s)) = Ret (Z.of_nat s).
Proof.
  intros H. do 9 (destruct s as [|s]; [try lia; split_and!;
    first [reflexivity|apply Nat.leb_le; reflexivity|apply Z.leb_le; reflexivity]|]). lia.
Qed.

Lemma decoded_block_sizes_ret e :
  0 <= e <= 11 → ∃ s, decoded_block_sizes e = Ret s ∧
    (s = -1 ∨ s = 0 ∧ e = 0 ∨ 1 <= s <= 8 ∧ e = Z.of_nat (esize (Z.to_nat s))).
Proof.
  intros H. pose (f e := match decoded_block_sizes e with
    | Ret s => (s =? -1) || ((s =? 0) && (e =? 0)) ||
        ((1 <=? s) && (s <=? 8) && (e =? Z.of_nat (esize (Z.to_nat s))))
    | _ => false end).
  assert (forallb f (seqZ 0 12) = true) as Hall by (vm_compute; done).
  rewrite forallb_forall in Hall. specialize (Hall e).
  assert (f e = true) as Hf.
  { apply Hall, list_elem_of_In, elem_of_seqZ. lia. }
  unfold f in Hf. destruct (decoded_block_sizes e) as [s| |]; [|done..].
  exists s. split; [done|]. rewrite !orb_true_iff, !andb_true_iff in Hf. lia.
Qed.

#[local] Opaque decoded_block_sizes.

Lemma fold_be bs : ∀ acc,
  is_bytes bs → (length bs <= 8)%nat → 0 <= acc < 2 ^ (64 - 8 * Z.of_nat (length bs)) →
  fold_left (λ res b, Z.lor (u64 (Z.shiftl res 8)) b) bs acc =
  acc * 2 ^ (8 * Z.of_nat (length bs)) + le_value (rev bs).
Proof.
  induction bs as [|b bs IH]; intros acc Hb Hl Ha; [simpl; lia|].
  apply Forall_cons_iff in Hb as [H8 Hb]. simpl length in *. cbn [fold_left].
  unfold in_range in H8.
  assert (0 <= acc * 256 < 2 ^ (64 - 8 * Z.of_nat (length bs))).
  { replace (64 - 8 * Z.of_nat (length bs))
      with (64 - 8 * Z.of_nat (S (length bs)) + 8) by lia.
    rewrite Z.pow_add_r by lia. lia. }
  assert (2 ^ (64 - 8 * Z.of_nat (length bs)) <= 2 ^ 64) by (apply Z.pow_le_mono_r; lia).
  rewrite u64_small by (rewrite Z.shiftl_mul_pow2; unfold in_range; lia).
  rewrite Z.lor_comm, lor_shiftl_add by lia.
  rewrite IH; [|done|lia|].
  - simpl rev. rewrite le_value_app, length_rev. simpl le_value.
    replace (8 * Z.of_nat (S (length bs))) with (8 + 8 * Z.of_nat (length bs)) by lia.
    rewrite Z.pow_add_r by lia. lia.
  - split; [lia|].
    replace (64 - 8 * Z.of_nat (length bs)) with (8 + (64 - 8 * Z.of_nat (S (length bs))))
      by lia.
    rewrite Z.pow_add_r by lia. lia.
Qed.

Lemma le_bytes_take n m z : (n <= m)%nat → take n (le_bytes m z) = le_bytes n z.
Proof.
  revert m z. induction n as [|n IH]; intros [|m] z H; try lia; [done..|].
  cbn [le_bytes take]. f_equal. apply IH. lia.
Qed.

Lemma uint_64_to_8be_ret num s :
  (1 <= s <= 8)%nat → uint_64_to_8be num (Z.of_nat s) = Ret (rev (le_bytes s num)).
Proof.
  intros H. unfold uint_64_to_8be. destruct (_ && _) eqn:E; bool_to_prop; [|lia].
  cbn [assert_ mbind outcome_bind]. unfold mret, outcome_ret. f_equal.
  replace (Z.to_nat (8 - Z.of_nat s)) with (8 - s)%nat by lia.
  rewrite <- (le_bytes_take s 8) by lia.
  rewrite skipn_rev, le_bytes_length. by replace (8 - (8 - s))%nat with s by lia.
Qed.

Lemma encode_block_ret block :
  is_bytes block → (1 <= length block <= 8)%nat →
  encode_block block =
  Ret (letter <$> digits58 (esize (length block)) (le_value (rev block))).
Proof.
  intros Hb Hl. unfold encode_block, uint_8be_to_64, full_block_size.
  assert ((1 <=? Z.of_nat (length block)) && (Z.of_nat (length block) <=? 8) = true) as ->
    by lia.
  cbn [assert_ mbind outcome_bind].
  destruct (esize_ok (length block) Hl) as (He & Hs & Hp & _). rewrite He.
  cbn [mbind outcome_bind mret outcome_ret]. rewrite at_alphabet by (unfold is_digit58; lia).
  cbn [mbind outcome_bind].
  rewrite fold_be; [|done|lia|split; [lia|apply Z.pow_pos_nonneg; lia]].
  rewrite Z.mul_0_l, Z.add_0_l, Nat2Z.id.
  pose proof (encode_block_loop_spec (esize (length block)) 11 (le_value (rev block)) [])
    as Hspec. rewrite !app_nil_r in Hspec. apply Hspec; [lia|].
  pose proof (le_value_range (rev block) (Forall_rev Hb)) as Hr.
  rewrite length_rev in Hr. lia.
Qed.

Lemma mapM_snoc {A B} (f : A → option B) l x :
  mapM f (l ++ [x]) = (ds ← mapM f l; d ← f x; Some (ds ++ [d])).
Proof.
  induction l as [|y l IH]; cbn; [by destruct (f x)|].
  destruct (f y); cbn; [|done]. rewrite IH. destruct (mapM f l); cbn; [|done].
  by destruct (f x).
Qed.

(** The overflow test of the loop is exact. *)
Lemma decode_overflow res p :
  is_u64 res → 0 <= p → p / 2 ^ 64 < 2 ^ 64 →
  (u64 (res + p mod 2 ^ 64) <? res) || negb (0 =? p / 2 ^ 64) = (2 ^ 64 <=? res + p).
Proof.
  intros [] Hp Hq. unfold u64, wrap. apply eq_true_iff_eq.
  rewrite orb_true_iff, negb_true_iff, Z.ltb_lt, Z.eqb_neq, Z.leb_le. zlia.
Qed.

Lemma decode_block_loop_spec cs : ∀ post res k,
  is_bytes cs → 0 <= k → k + Z.of_nat (length cs) <= 11 → is_u64 res →
  decode_block_loop (length cs) (cs ++ post) res (u64 (58 ^ k)) =
  Ret (ds ← mapM letter_digit cs;
       let v := res + be58 ds * 58 ^ k in if v <? 2 ^ 64 then Some v else None).
Proof.
  induction cs as [|c cs IH] using rev_ind; intros post res k Hb Hk Hl Hr.
  { cbn. rewrite Z.mul_0_l, Z.add_0_r. unfold in_range in Hr. by case_bool; [|lia]. }
  apply Forall_app in Hb as [Hb [Hc _]%Forall_cons_iff].
  rewrite length_app in *. simpl length in *. rewrite Nat.add_1_r. cbn [decode_block_loop].
  rewrite <- app_assoc. cbn [app].
  rewrite (at_app_r cs (c :: post) _ 0) by lia.
  change (at_ (c :: post) 0) with (Ret c). cbn [mbind outcome_bind].
  rewrite mapM_snoc.
  destruct (reverse_letter_digit c Hc) as (d & -> & -> & Hd). cbn [mbind outcome_bind].
  destruct (d <? 0) eqn:Hneg; bool_to_prop.
  { by destruct (mapM letter_digit cs). }
  cbn [option_bind]. specialize (Hd Hneg). unfold is_digit58 in Hd.
  assert (1 <= 58 ^ k <= 58 ^ 10) as Ho.
  { split; [apply (Z.pow_le_mono_r 58 0); lia|apply Z.pow_le_mono_r; lia]. }
  change (58 ^ 10) with 430804206899405824 in Ho.
  rewrite (u64_small (58 ^ k)) by (unfold in_range; lia).
  rewrite mul128_ret by (unfold in_range; lia). cbn [mbind outcome_bind].
  assert (0 <= 58 ^ k * d < 2 ^ 65) as Hp.
  { split; [apply Z.mul_nonneg_nonneg; lia|].
    apply (Z.le_lt_trans _ (430804206899405824 * 57)); [apply Z.mul_le_mono_nonneg|]; lia. }
  rewrite decode_overflow by (done || zlia).
  assert (∀ ds, be58 (ds ++ [d]) * 58 ^ k = be58 ds * 58 ^ (k + 1) + 58 ^ k * d) as Hds.
  { intros ds. rewrite be58_snoc, Z.pow_add_r by lia. lia. }
  destruct (2 ^ 64 <=? _) eqn:Hov; bool_to_prop.
  - destruct (mapM letter_digit cs) as [ds|] eqn:Em; [|done]. cbn [mbind option_bind].
    rewrite Hds. destruct (mapM_letter_digit_Some cs ds Hb Em) as [Hdig _].
    pose proof (be58_range ds Hdig).
    assert (0 <= be58 ds * 58 ^ (k + 1)) by (apply Z.mul_nonneg_nonneg; lia).
    case_bool; [lia|done].
  - unfold in_range in Hr. rewrite (Z.mod_small (58 ^ k * d)) by lia.
    rewrite (u64_small (res + _)) by (unfold in_range; lia).
    unfold alphabet_size.
    replace (58 ^ k * 58) with (58 ^ (k + 1)) by (rewrite Z.pow_add_r; lia).
    rewrite IH by (done || unfold in_range; lia).
    destruct (mapM letter_digit cs) as [ds|]; [|done]. cbn [mbind option_bind].
    rewrite Hds. by replace (res + (be58 ds * 58 ^ (k + 1) + 58 ^ k * d))
      with (res + 58 ^ k * d + be58 ds * 58 ^ (k + 1)) by lia.
Qed.

Lemma decode_block_prefix (e : list Z) (Hl : (1 <= length e <= 11)%nat) :
  (1 <=? Z.of_nat (length e)) && (Z.of_nat (length e) <=? full_encoded_block_size) = true.
Proof. unfold full_encoded_block_size. lia. Qed.

Lemma decode_block_ret e s :
  is_bytes e → (1 <= s <= 8)%nat → length e = esize s →
  decode_block e =
  Ret (ds ← mapM letter_digit e;
       if be58 ds <? 2 ^ (8 * Z.of_nat s) then Some (rev (le_bytes s (be58 ds))) else None).
Proof.
  intros Hb Hs He. destruct (esize_ok s Hs) as (_ & Hl & _ & Hd). rewrite <- He in *.
  unfold decode_block. rewrite decode_block_prefix by done.
  cbn [assert_ mbind outcome_bind]. rewrite Hd. cbn [mbind outcome_bind].
  destruct (_ <=? 0) eqn:?; bool_to_prop; [lia|].
  pose proof (decode_block_loop_spec e [] 0 0 Hb ltac:(lia) ltac:(lia) ltac:(done)) as E.
  rewrite app_nil_r in E. change (u64 (58 ^ 0)) with 1 in E. rewrite E.
  cbn [mbind outcome_bind].
  destruct (mapM letter_digit e) as [ds|] eqn:Em; [|done]. cbn [mbind option_bind].
  change (58 ^ 0) with 1. rewrite Z.add_0_l, Z.mul_1_r.
  assert (2 ^ (8 * Z.of_nat s) <= 2 ^ 64) by (apply Z.pow_le_mono_r; lia).
  destruct (be58 ds <? 2 ^ 64) eqn:Hlt; bool_to_prop.
  2: { by case_bool; [lia|]. }
  assert ((Z.of_nat s <? full_block_size) && (u64 (Z.shiftl 1 (8 * Z.of_nat s)) <=? be58 ds)
    = negb (be58 ds <? 2 ^ (8 * Z.of_nat s))) as ->.
  { unfold full_block_size. destruct (Z.ltb_spec (Z.of_nat s) 8).
    - assert (2 ^ (8 * Z.of_nat s) <= 2 ^ 56) by (apply Z.pow_le_mono_r; lia).
      rewrite Z.shiftl_mul_pow2, Z.mul_1_l, u64_small by (unfold in_range; lia).
      rewrite Z.ltb_antisym. cbn [andb]. by rewrite negb_involutive.
    - assert (s = 8%nat) as -> by lia. change (8 * Z.of_nat 8) with 64.
      by rewrite (proj2 (Z.ltb_lt _ _) Hlt). }
  destruct (be58 ds <? 2 ^ (8 * Z.of_nat s)); cbn [negb]; [|done].
  by rewrite uint_64_to_8be_ret.
Qed.

Lemma decode_block_bad_size e :
  (1 <= length e <= 11)%nat → (∀ s, (1 <= s <= 8)%nat → length e ≠ esize s) →
  decode_block e = Ret None.
Proof.
  intros Hl Hno. unfold decode_block. rewrite decode_block_prefix by done.
  cbn [assert_ mbind outcome_bind].
  destruct (decoded_block_sizes_ret (Z.of_nat (length e)) ltac:(lia)) as (s & -> & Hs).
  cbn [mbind outcome_bind]. destruct (s <=? 0) eqn:?; bool_to_prop; [done|].
  destruct Hs as [?|[[? ?]|[Hs He]]]; [lia..|].
  destruct (Hno (Z.to_nat s)); lia.
Qed.

Lemma esize_dec (e : list Z) :
  (∃ s, (1 <= s <= 8)%nat ∧ length e = esize s) ∨
  (∀ s, (1 <= s <= 8)%nat → length e ≠ esize s).
Proof.
  destruct (decide (Exists (λ s, length e = esize s) (seq 1 8))) as [Hex|Hno].
  - left. apply Exists_exists in Hex as (s & Hs%in_seq & He). exists s. split; [lia|done].
  - right. intros s Hs He. apply Hno. apply Exists_exists. exists s. split; [|done].
    apply in_seq. lia.
Qed.

Lemma decode_block_total e :
  is_bytes e → (1 <= length e <= 11)%nat → ∃ r, decode_block e = Ret r.
Proof.
  intros Hb Hl. destruct (esize_dec e) as [(s & Hs & He)|Hno].
  - eexists. by apply (decode_block_ret e s).
  - eexists. by apply decode_block_bad_size.
Qed.

(** A block round trips, and only its own encoding decodes to it. *)
Lemma encode_decode_block block :
  is_bytes block → (1 <= length block <= 8)%nat →
  ∃ e, encode_block block = Ret e ∧ length e = esize (length block) ∧ is_bytes e ∧
    decode_block e = Ret (Some block).
Proof.
  intros Hb Hl. eexists. split; [by apply encode_block_ret|].
  destruct (digits58_spec (esize (length block)) (le_value (rev block))) as (Hd & Hn & Hv).
  destruct (esize_ok (length block) Hl) as (_ & _ & Hp & _).
  pose proof (le_value_range (rev block) (Forall_rev Hb)) as Hr. rewrite length_rev in Hr.
  assert (is_bytes (letter <$> digits58 (esize (length block)) (le_value (rev block)))) as Hby.
  { apply Forall_fmap. eapply Forall_impl; [|exact Hd].
    intros d Hdd. by apply letter_digit_letter. }
  rewrite length_fmap. split_and!; [done..|].
  rewrite (decode_block_ret _ (length block)) by (done || rewrite length_fmap; done).
  rewrite mapM_letter_digit by done. cbn [mbind option_bind].
  rewrite Hv by lia. case_bool; [|lia].
  rewrite <- (length_rev block) at 1. rewrite le_bytes_value by (by apply Forall_rev).
  by rewrite rev_involutive.
Qed.

Lemma decode_encode_block e d :
  is_bytes e → (1 <= length e <= 11)%nat → decode_block e = Ret (Some d) →
  (1 <= length d <= 8)%nat ∧ length e = esize (length d) ∧ is_bytes d ∧
  encode_block d = Ret e.
Proof.
  intros Hb Hl E.
  destruct (esize_dec e) as [(s & Hs & He)|Hno].
  2: { by rewrite decode_block_bad_size in E. }
  rewrite (decode_block_ret e s) in E by (done || lia).
  destruct (mapM letter_digit e) as [ds|] eqn:Em; [|done]. cbn [mbind option_bind] in E.
  destruct (_ <? _) eqn:Hlt in E; [|done]. bool_to_prop. injection E as <-.
  destruct (mapM_letter_digit_Some e ds Hb Em) as [Hd Hle].
  rewrite length_rev, le_bytes_length.
  assert (is_bytes (rev (le_bytes s (be58 ds)))) as Hby.
  { apply Forall_rev, le_bytes_bytes. }
  split_and!; [lia..|done|done|].
  rewrite encode_block_ret by (done || rewrite length_rev, le_bytes_length; lia).
  rewrite length_rev, le_bytes_length, rev_involutive, le_value_bytes.
  pose proof (be58_range ds Hd). rewrite Z.mod_small by lia.
  rewrite <- He, <- Hle, length_fmap. by rewrite digits58_be58.
Qed.

(** ** Whole strings *)

#[local] Opaque encode_block decode_block.

Lemma encode_blocks_ret n : ∀ data,
  is_bytes data → (8 * n <= length data)%nat →
  ∃ res, encode_blocks n data = Ret res ∧ length res = (11 * n)%nat ∧ is_bytes res ∧
    ∀ tail, decode_blocks n (res ++ tail) = Ret (Some (take (8 * n) data)).
Proof.
  induction n as [|n IH]; intros data Hb Hl.
  { exists []. split_and!; try done. constructor. }
  cbn [encode_blocks]. change (Z.to_nat full_block_size) with 8%nat.
  destruct (encode_decode_block (take 8 data)) as (e & -> & He & Hbe & Hd).
  { by apply Forall_take. } { rewrite length_take. lia. }
  rewrite length_take, Nat.min_l in He by lia. change (esize 8) with 11%nat in He.
  destruct (IH (drop 8 data)) as (res & -> & Hlr & Hbr & Hdr).
  { by apply Forall_drop. } { rewrite length_drop. lia. }
  exists (e ++ res). split; [done|]. split; [rewrite length_app; lia|].
  split; [by apply Forall_app|]. intros tail. cbn [decode_blocks].
  change (Z.to_nat full_encoded_block_size) with 11%nat.
  rewrite <- app_assoc. rewrite take_app_length', drop_app_length' by done.
  rewrite Hd. cbn [mbind outcome_bind]. rewrite Hdr. cbn [mbind outcome_bind mret outcome_ret].
  cbn [option_map]. do 2 f_equal.
  replace (8 * S n)%nat with (8 + 8 * n)%nat by lia. by rewrite take_take_drop.
Qed.

Lemma decode_blocks_total n : ∀ enc,
  is_bytes enc → (11 * n <= length enc)%nat →
  ∃ r, decode_blocks n enc = Ret r ∧
    ∀ d, r = Some d → length d = (8 * n)%nat ∧ is_bytes d ∧
      ∀ tail, encode_blocks n (d ++ tail) = Ret (take (11 * n) enc).
Proof.
  induction n as [|n IH]; intros enc Hb Hl.
  { exists (Some []). split; [done|]. intros d [= <-]. split_and!; [done|constructor|done]. }
  cbn [decode_blocks]. change (Z.to_nat full_encoded_block_size) with 11%nat.
  assert (length (take 11 enc) = 11%nat) as H11 by (rewrite length_take; lia).
  destruct (decode_block_total (take 11 enc)) as [r Hr]; [by apply Forall_take|lia|].
  rewrite Hr. cbn [mbind outcome_bind]. destruct r as [d|]; [|by eexists].
  destruct (decode_encode_block (take 11 enc) d) as (Hd8 & He & Hbd & Hed);
    [by apply Forall_take|lia|done|].
  assert (length d = 8%nat) as Hd.
  { rewrite H11 in He. destruct (decide (length d = 8%nat)); [done|].
    exfalso. clear - He Hd8 n0. destruct (length d) as [|m]; [lia|].
    do 7 (destruct m as [|m]; [done|]). lia. }
  destruct (IH (drop 11 enc)) as (r & -> & Hr').
  { by apply Forall_drop. } { rewrite length_drop. lia. }
  eexists. split; [done|]. intros x Hx. destruct r as [d'|]; [|done].
  injection Hx as <-. destruct (Hr' d' eq_refl) as (Hl' & Hb' & Henc).
  rewrite length_app. split; [lia|]. split; [by apply Forall_app|].
  intros tail. cbn [encode_blocks]. change (Z.to_nat full_block_size) with 8%nat.
  rewrite <- app_assoc, take_app_length', drop_app_length' by done.
  rewrite Hed, Henc. cbn [mbind outcome_bind]. unfold mret, outcome_ret. f_equal.
  replace (11 * S n)%nat with (11 + 11 * n)%nat by lia. by rewrite take_take_drop.
Qed.

(** Writing a length as full blocks and a last one. *)
Lemma split_len k l : (0 < k)%nat →
  Z.to_nat (Z.of_nat l / Z.of_nat k) = (l / k)%nat ∧
  Z.of_nat l mod Z.of_nat k = Z.of_nat (l mod k) ∧
  Z.to_nat (Z.of_nat l / Z.of_nat k * Z.of_nat k) = (k * (l / k))%nat ∧
  (l = k * (l / k) + l mod k)%nat ∧ (l mod k < k)%nat.
Proof.
  intros Hk. rewrite <- Nat2Z.inj_div, <- Nat2Z.inj_mod.
  pose proof (Nat.div_mod_eq l k). pose proof (Nat.mod_upper_bound l k). split_and!; lia.
Qed.

Lemma encode_unfold data :
  data ≠ [] →
  encode data =
  (res ← encode_blocks (length data / 8) data;
   if (0 <? length data mod 8)%nat then
     l ← encode_block (drop (8 * (length data / 8)) data); mret (res ++ l)
   else mret res).
Proof.
  intros Hne. destruct (split_len 8 (length data) ltac:(lia)) as (E1 & E2 & E3 & _ & _).
  destruct data as [|x data']; [done|]. unfold encode. set (data := x :: data') in *.
  unfold full_block_size. change 8 with (Z.of_nat 8). rewrite E1, E2, E3.
  destruct (encode_blocks _ _); [|done..]. cbn [mbind outcome_bind].
  destruct (Nat.ltb_spec 0 (length data mod 8)), (Z.ltb_spec 0 (Z.of_nat (length data mod 8)));
    done || lia.
Qed.

Lemma decode_unfold enc :
  enc ≠ [] →
  decode enc =
  (n ← decoded_block_sizes (Z.of_nat (length enc mod 11));
   if n <? 0 then mret None
   else
     r ← decode_blocks (length enc / 11) enc;
     match r with
     | None => mret None
     | Some data =>
         if (0 <? length enc mod 11)%nat then
           l ← decode_block (drop (11 * (length enc / 11)) enc);
           mret (option_map (app data) l)
         else mret (Some data)
     end).
Proof.
  intros Hne. destruct (split_len 11 (length enc) ltac:(lia)) as (E1 & E2 & E3 & _ & _).
  destruct enc as [|x enc']; [done|]. unfold decode. set (enc := x :: enc') in *.
  unfold full_encoded_block_size. change 11 with (Z.of_nat 11). rewrite E1, E2, E3.
  destruct (decoded_block_sizes _) as [n| |]; [|done..]. cbn [mbind outcome_bind].
  destruct (n <? 0); [done|]. destruct (decode_blocks _ _) as [[d|]| |]; [|done..].
  cbn [mbind outcome_bind].
  destruct (Nat.ltb_spec 0 (length enc mod 11)), (Z.ltb_spec 0 (Z.of_nat (length enc mod 11)));
    done || lia.
Qed.

Lemma esize_lt s : (1 <= s < 8)%nat → (1 <= esize s < 11)%nat.
Proof.
  intros H. do 8 (destruct s as [|s]; [try lia; split; apply Nat.leb_le; reflexivity|]). lia.
Qed.

Lemma div_mod_parts k a b : (b < k)%nat → ((k * a + b) / k = a ∧ (k * a + b) mod k = b)%nat.
Proof.
  intros H. split; symmetry; [apply (Nat.div_unique _ k a b)|apply (Nat.mod_unique _ k a b)]; lia.
Qed.

Lemma decoded_zero : decoded_block_sizes (Z.of_nat 0) = Ret 0.
Proof. vm_compute. done. Qed.

Lemma encode_ret data :
  is_bytes data →
  ∃ e, encode data = Ret e ∧ is_bytes e ∧ decode e = Ret (Some data).
Proof.
  intros Hb. destruct (decide (data = [])) as [->|Hne].
  { exists []. split_and!; try done. }
  rewrite encode_unfold by done.
  destruct (split_len 8 (length data) ltac:(lia)) as (_ & _ & _ & Hlen & Hm).
  set (n := (length data / 8)%nat) in *. set (m := (length data mod 8)%nat) in *.
  destruct (encode_blocks_ret n data Hb ltac:(lia)) as (res & -> & Hlr & Hbr & Hdr).
  cbn [mbind outcome_bind]. destruct (Nat.ltb_spec 0 m) as [Hpos|Hz].
  - assert (length (drop (8 * n) data) = m) as Hld by (rewrite length_drop; lia).
    destruct (encode_decode_block (drop (8 * n) data)) as (e & -> & He & Hbe & Hde);
      [by apply Forall_drop|lia|]. cbn [mbind outcome_bind]. rewrite Hld in He.
    pose proof (esize_lt m ltac:(lia)) as Hes.
    assert (length (res ++ e) = 11 * n + esize m)%nat as Hle by (rewrite length_app; lia).
    destruct (div_mod_parts 11 n (esize m) ltac:(lia)) as [Hq Hr].
    exists (res ++ e). split; [done|]. split; [by apply Forall_app|].
    rewrite decode_unfold by (intros E; rewrite E in Hle; simpl in Hle; lia).
    rewrite Hle, Hq, Hr. destruct (esize_ok m ltac:(lia)) as (_ & _ & _ & ->).
    cbn [mbind outcome_bind]. destruct (_ <? 0) eqn:?; bool_to_prop; [lia|].
    rewrite Hdr. cbn [mbind outcome_bind].
    rewrite (proj2 (Nat.ltb_lt 0 (esize m))) by lia.
    rewrite drop_app_length' by lia. rewrite Hde. cbn [mbind outcome_bind mret outcome_ret].
    cbn [option_map]. by rewrite take_drop.
  - assert (m = 0)%nat as Hm0 by lia. exists res. split; [done|]. split; [done|].
    destruct (div_mod_parts 11 n 0 ltac:(lia)) as [Hq Hr]. rewrite Nat.add_0_r in *.
    assert (0 < length data)%nat by (destruct data; [done|simpl; lia]).
    rewrite decode_unfold by (intros ->; simpl in Hlr; lia).
    rewrite Hlr, Hq, Hr, decoded_zero. cbn [mbind outcome_bind].
    change (0 <? 0) with false. cbn match.
    specialize (Hdr []). rewrite app_nil_r in Hdr. rewrite Hdr. cbn [mbind outcome_bind].
    change (0 <? 0)%nat with false. cbn match. rewrite take_ge by lia. done.
Qed.

Lemma decode_ret enc :
  is_bytes enc →
  ∃ r, decode enc = Ret r ∧ ∀ d, r = Some d → is_bytes d ∧ encode d = Ret enc.
Proof.
  intros Hb. destruct (decide (enc = [])) as [->|Hne].
  { exists (Some []). split; [done|]. intros d [= <-]. done. }
  rewrite decode_unfold by done.
  destruct (split_len 11 (length enc) ltac:(lia)) as (_ & _ & _ & Hlen & Hm).
  set (n := (length enc / 11)%nat) in *. set (m := (length enc mod 11)%nat) in *.
  destruct (decoded_block_sizes_ret (Z.of_nat m) ltac:(lia)) as (s & -> & Hs).
  cbn [mbind outcome_bind]. destruct (s <? 0) eqn:?; bool_to_prop; [by eexists|].
  destruct (decode_blocks_total n enc Hb ltac:(lia)) as (r & -> & Hr).
  cbn [mbind outcome_bind]. destruct r as [data|]; [|by eexists].
  destruct (Hr data eq_refl) as (Hld & Hbd & Henc). clear Hr.
  destruct (Nat.ltb_spec 0 m) as [Hpos|Hz].
  - assert (length (drop (11 * n) enc) = m) as Hlm by (rewrite length_drop; lia).
    destruct (decode_block_total (drop (11 * n) enc)) as [r Hr];
      [by apply Forall_drop|lia|]. rewrite Hr. cbn [mbind outcome_bind].
    eexists. split; [done|]. intros d Hd. destruct r as [l|]; [|done]. injection Hd as <-.
    destruct (decode_encode_block (drop (11 * n) enc) l) as (Hl8 & He & Hbl & Hel);
      [by apply Forall_drop|lia|done|]. rewrite Hlm in He.
    assert (length l < 8)%nat as Hl7.
    { destruct (decide (length l = 8%nat)) as [E|]; [|lia].
      rewrite E in He. change (esize 8) with 11%nat in He. lia. }
    split; [by apply Forall_app|].
    destruct (div_mod_parts 8 n (length l) Hl7) as [Hq Hr2].
    rewrite encode_unfold by (destruct data, l; simpl in *; done || lia).
    rewrite length_app, Hld, Hq, Hr2, Henc. cbn [mbind outcome_bind].
    rewrite (proj2 (Nat.ltb_lt 0 (length l))) by lia.
    rewrite drop_app_length' by lia. rewrite Hel. cbn [mbind outcome_bind].
    by rewrite take_drop.
  - exists (Some data). split; [done|]. intros d [= <-]. split; [done|].
    assert (0 < length enc)%nat by (destruct enc; [done|simpl; lia]).
    destruct (div_mod_parts 8 n 0 ltac:(lia)) as [Hq Hr2]. rewrite Nat.add_0_r in *.
    rewrite encode_unfold by (destruct data; simpl in *; done || lia).
    specialize (Henc []). rewrite app_nil_r in Henc.
    rewrite Hld, Hq, Hr2, Henc. cbn [mbind outcome_bind].
    change (0 <? 0)%nat with false. cbn match. by rewrite take_ge by lia.
Qed.

(** ** Addresses *)

Section AddressLaws.
Variable cn_fast_hash : list Z → list Z.
Hypothesis hash_bytes : ∀ b, is_bytes (cn_fast_hash b) ∧ length (cn_fast_hash b) = 32%nat.

Lemma write_varint_bytes v : is_u64 v → is_bytes (write_varint v).
Proof using. intros [H0 _]. by apply write_varint_loop_bytes. Qed.

Lemma addr_parts body check :
  length check = 4%nat →
  let l := body ++ check in
  let size := Z.of_nat (length l) in
  substr l (size - addr_checksum_size) None = Ret check ∧
  take (Z.to_nat (size - addr_checksum_size)) l = body.
Proof using.
  intros Hc. cbv zeta. unfold addr_checksum_size. rewrite length_app, Hc.
  replace (Z.of_nat (length body + 4) - 4) with (Z.of_nat (length body)) by lia.
  rewrite substr_ret by (rewrite length_app; lia). rewrite Nat2Z.id.
  by rewrite drop_app_length, take_app_length.
Qed.

Lemma encode_decode_addr tag data :
  is_u64 tag → is_bytes data →
  ∃ addr, encode_addr cn_fast_hash tag data = Ret addr ∧ is_bytes addr ∧
    decode_addr cn_fast_hash addr = Ret (Some (tag, data)).
Proof using hash_bytes.
  intros Ht Hd. unfold encode_addr, get_varint_data. cbv zeta.
  set (body := write_varint tag ++ data).
  set (check := take (Z.to_nat addr_checksum_size) (cn_fast_hash body)).
  assert (is_bytes body) as Hb
    by (apply Forall_app; split; [by apply write_varint_bytes|done]).
  assert (length check = 4%nat) as Hc.
  { unfold check. rewrite length_take. destruct (hash_bytes body) as [_ ->]. done. }
  destruct (encode_ret (body ++ check)) as (addr & -> & Ha & Hdec).
  { apply Forall_app. split; [done|]. apply Forall_take, hash_bytes. }
  exists addr. split; [done|]. split; [done|].
  unfold decode_addr. rewrite Hdec. cbn [mbind outcome_bind].
  pose proof (write_varint_loop_length 9 tag) as Hvl. fold (write_varint tag) in Hvl.
  destruct (_ <=? addr_checksum_size) eqn:E; bool_to_prop.
  { exfalso. unfold body, addr_checksum_size in E. rewrite !length_app in E. lia. }
  destruct (addr_parts body check Hc) as [-> ->]. cbn [mbind outcome_bind].
  rewrite bool_decide_eq_true_2 by done. cbn [negb].
  unfold body at 1. rewrite read_write_varint by (done || lia).
  destruct (_ <=? 0) eqn:E0; bool_to_prop; [lia|].
  rewrite substr_ret by (unfold body; rewrite length_app; lia).
  unfold body. rewrite Nat2Z.id, drop_app_length. done.
Qed.

Lemma decode_encode_addr addr tag data :
  is_bytes addr → decode_addr cn_fast_hash addr = Ret (Some (tag, data)) →
  is_u64 tag ∧ is_bytes data ∧
  (data ≠ [] → encode_addr cn_fast_hash tag data = Ret addr).
Proof using hash_bytes.
  intros Hb E. unfold decode_addr in E.
  destruct (decode_ret addr Hb) as (r & Hdec & Hr). rewrite Hdec in E.
  cbn [mbind outcome_bind] in E. destruct r as [l|]; [|done].
  destruct (Hr l eq_refl) as [Hbl Henc].
  destruct (_ <=? addr_checksum_size) eqn:Es in E; bool_to_prop; [done|].
  unfold addr_checksum_size in Es. set (k := (length l - 4)%nat).
  assert (length (drop k l) = 4%nat) as Hc by (rewrite length_drop; lia).
  destruct (addr_parts (take k l) (drop k l) Hc) as [E1 E2]. rewrite take_drop in E1, E2.
  rewrite E1, E2 in E. cbn [mbind outcome_bind] in E.
  destruct (bool_decide _) eqn:Ecs in E; [|done]. apply bool_decide_eq_true in Ecs.
  cbn [negb] in E. assert (is_bytes (take k l)) as Hbk by (by apply Forall_take).
  destruct (read_varint 64 (take k l)) as [[rd v] rest] eqn:Ev.
  destruct (rd <=? 0) eqn:Erd; bool_to_prop; [done|].
  destruct (read_varint_canonical _ _ _ _ Hbk Ev Erd) as (Hv & pre & Hpre & Hrd & Hcan).
  rewrite Hpre, Hrd in E. rewrite substr_ret in E by (rewrite length_app; lia).
  rewrite Nat2Z.id, drop_app_length in E. cbn [mbind outcome_bind] in E.
  injection E as -> ->. split; [done|].
  split. { rewrite Hpre in Hbk. by apply Forall_app in Hbk as [_ ?]. }
  intros Hne. destruct Hcan as [->|[-> _]]; [|done].
  unfold encode_addr, get_varint_data. cbv zeta. by rewrite <- Hpre, Ecs, take_drop, Henc.
Qed.
End AddressLaws.

(** ** The contract of the encoding *)

(** C39: [encode] succeeds on every byte string and [decode] gives the bytes
    back; and every text [decode] accepts is the encoding of its result, so no
    two texts decode to the same bytes. *)
Theorem base58_roundtrip :
  (∀ data, is_bytes data →
     ∃ e, encode data = Ret e ∧ decode e = Ret (Some data)) ∧
  (∀ enc, is_bytes enc →
     ∃ r, decode enc = Ret r ∧ ∀ data, r = Some data → encode data = Ret enc).
Proof.
  split.
  - intros data H. destruct (encode_ret data H) as (e & ? & _ & ?). eauto.
  - intros enc H. destruct (decode_ret enc H) as (r & ? & Hr). exists r.
    split; [done|]. intros d Hd. by apply Hr.
Qed.

(** for any hash function with 32-byte results, an address built by
    [encode_addr] decodes to its tag and its data; and an address [decode_addr]
    accepts with non-empty data is the one [encode_addr] builds for them. *)
Theorem address_roundtrip cn_fast_hash :
  (∀ b, is_bytes (cn_fast_hash b) ∧ length (cn_fast_hash b) = 32%nat) →
  (∀ tag data, is_u64 tag → is_bytes data →
     ∃ addr, encode_addr cn_fast_hash tag data = Ret addr ∧
       decode_addr cn_fast_hash addr = Ret (Some (tag, data))) ∧
  (∀ addr tag data, is_bytes addr → data ≠ [] →
     decode_addr cn_fast_hash addr = Ret (Some (tag, data)) →
     encode_addr cn_fast_hash tag data = Ret addr).
Proof.
  intros Hh. split.
  - intros tag data Ht Hd.
    destruct (encode_decode_addr cn_fast_hash Hh tag data Ht Hd) as (a & ? & _ & ?). eauto.
  - intros addr tag data Ha Hne E.
    by destruct (decode_encode_addr cn_fast_hash Hh addr tag data Ha E) as (_ & _ & ?); auto.
Qed.

(** A stand-in hash: the length of the data in the first byte. *)
Definition sample_hash (b : list Z) : list Z := u8 (Z.of_nat (length b)) :: replicate 31 7.

Lemma address_roundtrip_witness :
  ∃ addr, encode_addr sample_hash 0x42 (replicate 64 1) = Ret addr ∧
    decode_addr sample_hash addr = Ret (Some (0x42, replicate 64 1)).
Proof.
  apply (address_roundtrip sample_hash).
  - intros b. split; [|done]. constructor; [apply u8_range|]. by apply Forall_replicate.
  - done.
  - by apply Forall_replicate.
Defined.
