(* ===== verification/Config.v ===== *)
(** * Configuration ([src/src/CryptoNoteConfig.h])

    The constants of the network, with the source's names. *)

From S2P Require Import Prelude.

Local Open Scope Z_scope.

Definition CRYPTONOTE_MAX_BLOCK_NUMBER : Z := 500000000.
Definition CRYPTONOTE_MAX_BLOCK_BLOB_SIZE : Z := 500000000.
Definition CRYPTONOTE_MAX_TX_SIZE : Z := 1000000000.
Definition CRYPTONOTE_PUBLIC_ADDRESS_BASE58_PREFIX : Z := 0xe6dc4e2.
Definition CRYPTONOTE_BLOCK_FUTURE_TIME_LIMIT : Z := 60 * 60 * 2.
Definition CRYPTONOTE_BLOCK_FUTURE_TIME_LIMIT_V1 : Z := 360.
Definition CRYPTONOTE_MINED_MONEY_UNLOCK_WINDOW : Z := 15.
Definition BLOCKCHAIN_TIMESTAMP_CHECK_WINDOW : Z := 30.
Definition BLOCKCHAIN_TIMESTAMP_CHECK_WINDOW_V1 : Z := 11.
Definition MONEY_SUPPLY : Z := 100000000000000.
Definition CRYPTONOTE_REWARD_BLOCKS_WINDOW : Z := 100.
Definition CRYPTONOTE_BLOCK_GRANTED_FULL_REWARD_ZONE : Z := 100000.
Definition CRYPTONOTE_COINBASE_BLOB_RESERVED_SIZE : Z := 600.
Definition CRYPTONOTE_DISPLAY_DECIMAL_POINT : Z := 5.
Definition POINT : Z := 1000.
Definition COIN : Z := 100000.
Definition MINIMUM_FEE : Z := 100.
Definition MINIMUM_FEE_BANKING : Z := 1000.
Definition DEFAULT_DUST_THRESHOLD : Z := 10.
Definition DIFFICULTY_TARGET : Z := 120.
Definition EXPECTED_NUMBER_OF_BLOCKS_PER_DAY : Z := 24 * 60 * 60 / DIFFICULTY_TARGET.
Definition DIFFICULTY_WINDOW : Z := EXPECTED_NUMBER_OF_BLOCKS_PER_DAY.
Definition DIFFICULTY_WINDOW_V1 : Z := DIFFICULTY_WINDOW.
Definition DIFFICULTY_WINDOW_V2 : Z := DIFFICULTY_WINDOW.
Definition DIFFICULTY_WINDOW_V3 : Z := 60.
Definition DIFFICULTY_BLOCKS_COUNT : Z := DIFFICULTY_WINDOW_V3 + 1.
Definition DIFFICULTY_CUT : Z := 60.
Definition DIFFICULTY_CUT_V1 : Z := DIFFICULTY_CUT.
Definition DIFFICULTY_CUT_V2 : Z := DIFFICULTY_CUT.
Definition DIFFICULTY_LAG : Z := 15.
Definition DEPOSIT_MIN_AMOUNT : Z := 1 * COIN.
Definition DEPOSIT_MIN_TERM : Z := 21900.
Definition DEPOSIT_MAX_TERM : Z := 1 * 12 * 21900.
Definition DEPOSIT_MIN_TOTAL_RATE_FACTOR : Z := 0.
Definition DEPOSIT_MAX_TOTAL_RATE : Z := 4.
Definition MAX_BLOCK_SIZE_INITIAL : Z := CRYPTONOTE_BLOCK_GRANTED_FULL_REWARD_ZONE * 10.
Definition MAX_BLOCK_SIZE_GROWTH_SPEED_NUMERATOR : Z := 100 * 1024.
Definition MAX_BLOCK_SIZE_GROWTH_SPEED_DENOMINATOR : Z :=
  365 * 24 * 60 * 60 / DIFFICULTY_TARGET.
Definition CRYPTONOTE_LOCKED_TX_ALLOWED_DELTA_BLOCKS : Z := 1.
Definition CRYPTONOTE_LOCKED_TX_ALLOWED_DELTA_SECONDS : Z :=
  DIFFICULTY_TARGET * CRYPTONOTE_LOCKED_TX_ALLOWED_DELTA_BLOCKS.
Definition CRYPTONOTE_MAX_TX_SIZE_LIMIT : Z :=
  CRYPTONOTE_BLOCK_GRANTED_FULL_REWARD_ZONE / 4 - CRYPTONOTE_COINBASE_BLOB_RESERVED_SIZE.
Definition CRYPTONOTE_MEMPOOL_TX_LIVETIME : Z := 60 * 60 * 12.
Definition CRYPTONOTE_MEMPOOL_TX_FROM_ALT_BLOCK_LIVETIME : Z := 60 * 60 * 24.
Definition CRYPTONOTE_NUMBER_OF_PERIODS_TO_FORGET_TX_DELETED_FROM_POOL : Z := 7.
Definition FUSION_TX_MAX_SIZE : Z := CRYPTONOTE_MAX_TX_SIZE_LIMIT * 2.
Definition FUSION_TX_MIN_INPUT_COUNT : Z := 12.
Definition FUSION_TX_MIN_IN_OUT_COUNT_RATIO : Z := 4.
Definition UPGRADE_HEIGHT_V2 : Z := 1.
Definition UPGRADE_HEIGHT_V3 : Z := 2.
Definition UPGRADE_VOTING_THRESHOLD : Z := 90.
Definition UPGRADE_VOTING_WINDOW : Z := EXPECTED_NUMBER_OF_BLOCKS_PER_DAY.
Definition UPGRADE_WINDOW : Z := EXPECTED_NUMBER_OF_BLOCKS_PER_DAY.

Definition START_BLOCK_REWARD : Z := 5000 * POINT.
Definition MAX_BLOCK_REWARD : Z := 20 * COIN.
Definition REWARD_INCREASE_INTERVAL : Z := 21900.

Definition GENESIS_COINBASE_TX_HEX : list Z := bytes_of_string
  "010f01ff000180897a029b2e4c0281c0b02e7c53291a94d1d0cbff8883f8024f5142ee494ffbbd088071210171e9780fdd03e2f1a2364e958566a583dbd230df2f3d247456802efe6ef0ce5e".
Definition GENESIS_NONCE : Z := 10000.
Definition GENESIS_TIMESTAMP : Z := 1527078920.

Definition TRANSACTION_VERSION_1 : Z := 1.
Definition TRANSACTION_VERSION_2 : Z := 2.
Definition BLOCK_MAJOR_VERSION_1 : Z := 1.
Definition BLOCK_MAJOR_VERSION_2 : Z := 2.
Definition BLOCK_MAJOR_VERSION_3 : Z := 3.
Definition BLOCK_MINOR_VERSION_0 : Z := 0.
Definition BLOCK_MINOR_VERSION_1 : Z := 1.
