(* ===== verification/Amounts.v ===== *)
(** * Amounts

    - [decompose_amount_into_digits] of [CryptoNoteFormatUtils.h] and
      [decomposeAmount] of [CryptoNoteTools.cpp];
    - [getPenalizedAmount] of [CryptoNoteBasicImpl.cpp];
    - [formatAmount] and [parseAmount] of [Currency.cpp].

    The theorems: a decomposition adds up to the amount and each piece is a
    single digit or dust below the threshold; the penalty is the exact quotient
    the formula asks for and none of its assertions fails; a printed amount
    parses back. *)

From S2P Require Import Prelude IntUtil StringTools.

Local Open Scope Z_scope.

(** ** Decomposition *)

(** A call of [chunk_handler] or of [dust_handler]. *)
Inductive piece := Chunk (a : Z) | Dust (a : Z).

Definition piece_amount (p : piece) : Z := match p with Chunk a | Dust a => a end.

(** The loop; twenty iterations consume every 64-bit amount. The calls made to
    the handlers, in order. *)
Fixpoint decompose_loop (fuel : nat) (amount order dust : Z) (is_dust_handled : bool)
    (dust_threshold : Z) : list piece :=
  if amount =? 0 then
    if negb is_dust_handled && negb (dust =? 0) then [Dust dust] else []
  else
    match fuel with
    | O => []
    | S fuel' =>
        let chunk := u64 (amount mod 10 * order) in
        let amount := amount / 10 in
        let order := u64 (order * 10) in
        if u64 (dust + chunk) <=? dust_threshold then
          decompose_loop fuel' amount order (u64 (dust + chunk)) is_dust_handled dust_threshold
        else
          (if negb is_dust_handled && negb (dust =? 0) then [Dust dust] else []) ++
          (if negb (chunk =? 0) then [Chunk chunk] else []) ++
          decompose_loop fuel' amount order dust
            (is_dust_handled || negb (dust =? 0)) dust_threshold
    end.

Definition decompose_amount_into_digits (amount dust_threshold : Z) : list piece :=
  if amount =? 0 then [] else decompose_loop 20 amount 1 0 false dust_threshold.

(** [decomposeAmount]: both handlers append to the same vector. *)
Definition decomposeAmount (amount dustThreshold : Z) (decomposedAmounts : list Z) : list Z :=
  decomposedAmounts ++ (piece_amount <$> decompose_amount_into_digits amount dustThreshold).

(** ** The size penalty *)

Definition getPenalizedAmount (amount medianSize currentBlockSize : Z) : outcome Z :=
  assert_ (currentBlockSize <=? u64 (2 * medianSize));;
  assert_ (medianSize <=? UINT32_MAX);;
  assert_ (currentBlockSize <=? UINT32_MAX);;
  if amount =? 0 then mret 0
  else if currentBlockSize <=? medianSize then mret amount
  else
    '(productLo, productHi) ←
      mul128 amount (u64 (currentBlockSize * u64 (u64 (2 * medianSize) - currentBlockSize)));
    '(_, hi, lo) ← div128_32 productHi productLo (u32 medianSize);
    '(_, penalizedAmountHi, penalizedAmountLo) ← div128_32 hi lo (u32 medianSize);
    assert_ (0 =? penalizedAmountHi);;
    assert_ (penalizedAmountLo <? amount);;
    mret penalizedAmountLo.

(** ** Printing and parsing *)

Definition char_0 : Z := 48.
Definition char_dot : Z := 46.

(** The decimal digits of [std::to_string]; twenty are enough for 64 bits. *)
Fixpoint digits10 (fuel : nat) (n : Z) (acc : list Z) : list Z :=
  match fuel with
  | O => acc
  | S fuel' =>
      let acc := (char_0 + n mod 10) :: acc in
      if n <? 10 then acc else digits10 fuel' (n / 10) acc
  end.

Definition to_string (n : Z) : list Z := digits10 20 n [].

(** [Currency::formatAmount(uint64_t)]; [m_numberOfDecimalPlaces] is [places]. *)
Definition formatAmount (places : nat) (amount : Z) : list Z :=
  let s := to_string amount in
  let s := if (length s <? places + 1)%nat
           then replicate (places + 1 - length s) char_0 ++ s else s in
  let p := (length s - places)%nat in
  take p s ++ [char_dot] ++ drop p s.

(** [isspace] and [isdigit] in the C locale. *)
Definition isspace (c : Z) : bool := (c =? 32) || ((9 <=? c) && (c <=? 13)).
Definition isdigit (c : Z) : bool := (48 <=? c) && (c <=? 57).

(** [boost::algorithm::trim]. *)
Fixpoint drop_spaces (s : list Z) : list Z :=
  match s with
  | c :: s' => if isspace c then drop_spaces s' else s
  | [] => []
  end.

Definition trim (s : list Z) : list Z := rev (drop_spaces (rev (drop_spaces s))).

(** The loop that erases zeros behind the last kept decimal place: [s] is
    reversed, so that [back()] is its head. *)
Fixpoint erase_zeros (places fractionSize : nat) (s : list Z) : nat * list Z :=
  match s with
  | c :: s' =>
      if (places <? fractionSize)%nat && (c =? char_0)
      then erase_zeros places (fractionSize - 1) s'
      else (fractionSize, s)
  | [] => (fractionSize, [])
  end.

Definition decimal_value (s : list Z) : Z := fold_left (λ acc c, acc * 10 + (c - char_0)) s 0.

(** [Common::fromString] of a text of digits: extraction into a [uint64_t]
    fails when the value does not fit. *)
Definition fromString_u64 (s : list Z) : option Z :=
  let v := decimal_value s in if v <=? UINT64_MAX then Some v else None.

Definition parseAmount (places : nat) (str : list Z) : option Z :=
  let strAmount := trim str in
  let step (fractionSize : nat) (strAmount : list Z) : option Z :=
    match strAmount with
    | [] => None
    | _ =>
        if negb (forallb isdigit strAmount) then None
        else
          let strAmount := if (fractionSize <? places)%nat
            then strAmount ++ replicate (places - fractionSize) char_0 else strAmount in
          fromString_u64 strAmount
    end in
  match find_char char_dot strAmount 0 with
  | Some pointIndex =>
      let fractionSize := (length strAmount - Z.to_nat pointIndex - 1)%nat in
      let '(fractionSize, s) := erase_zeros places fractionSize (rev strAmount) in
      let strAmount := rev s in
      if (places <? fractionSize)%nat then None
      else
        step fractionSize
          (take (Z.to_nat pointIndex) strAmount ++ drop (Z.to_nat pointIndex + 1) strAmount)
  | None => step 0%nat strAmount
  end.

(** ** Decomposition: proofs *)

(** A digit times a power of ten, or dust up to the threshold. *)
Definition piece_ok (t : Z) (p : piece) : Prop :=
  match p with
  | Chunk a => ∃ d k, 1 <= d <= 9 ∧ 0 <= k ∧ a = d * 10 ^ k
  | Dust a => 0 < a <= t
  end.

Lemma pow10_pos k : 0 <= k → 0 < 10 ^ k.
Proof. intros. by apply Z.pow_pos_nonneg. Qed.

Lemma pow10_succ k : 0 <= k → 10 ^ (k + 1) = 10 ^ k * 10.
Proof. intros. rewrite Z.pow_add_r by lia. lia. Qed.

(** Facts of one iteration at position [k] with [fuel] digits left. *)
Lemma decompose_step amount k fuel :
  0 <= amount → amount ≠ 0 → amount < 10 ^ Z.of_nat (S fuel) → 0 <= k →
  k + Z.of_nat (S fuel) <= 20 → amount * 10 ^ k < 2 ^ 64 →
  u64 (10 ^ k) = 10 ^ k ∧ u64 (amount mod 10 * 10 ^ k) = amount mod 10 * 10 ^ k ∧
  u64 (10 ^ k * 10) = u64 (10 ^ (k + 1)) ∧ amount / 10 < 10 ^ Z.of_nat fuel ∧
  amount / 10 * 10 ^ (k + 1) = amount * 10 ^ k - amount mod 10 * 10 ^ k ∧
  0 <= amount mod 10 * 10 ^ k <= amount * 10 ^ k.
Proof.
  intros Ha Hne Hlt Hk Hf Hb. pose proof (pow10_pos k Hk).
  assert (10 ^ k < 2 ^ 64).
  { apply (Z.le_lt_trans _ (10 ^ 19)); [apply Z.pow_le_mono_r; lia|done]. }
  assert (0 <= amount mod 10 <= amount) as Hm by zlia.
  assert (0 <= amount mod 10 * 10 ^ k <= amount * 10 ^ k) as Hc.
  { split; [apply Z.mul_nonneg_nonneg; lia|apply Z.mul_le_mono_nonneg_r; lia]. }
  rewrite Nat2Z.inj_succ, Z.pow_succ_r in Hlt by lia.
  assert (amount = 10 * (amount / 10) + amount mod 10) as Hdm by zlia.
  split_and!; try done.
  - apply u64_small. unfold in_range. lia.
  - apply u64_small. unfold in_range. lia.
  - by rewrite pow10_succ.
  - zlia.
  - rewrite pow10_succ by done. rewrite Hdm at 2.
    generalize (amount / 10) (amount mod 10). intros. lia.
  - apply Hc.
  - apply Hc.
Qed.

(** After the first chunk above the threshold: every later digit is a chunk of
    its own. *)
Lemma decompose_late fuel : ∀ amount k dust handled t,
  0 <= amount < 10 ^ Z.of_nat fuel → 0 <= k → k + Z.of_nat fuel <= 20 →
  0 <= dust <= t → t < dust + 10 ^ k → amount * 10 ^ k + dust < 2 ^ 64 →
  handled = true ∨ dust = 0 →
  let ps := decompose_loop fuel amount (u64 (10 ^ k)) dust handled t in
  sumZ (piece_amount <$> ps) = amount * 10 ^ k ∧ Forall (piece_ok t) ps.
Proof.
  induction fuel as [|fuel IH]; intros amount k dust handled t Ha Hk Hf Hd Ht Hb Hh; cbv zeta.
  { change (10 ^ Z.of_nat 0) with 1 in Ha. assert (amount = 0) as -> by lia. cbn.
    destruct Hh as [->| ->]; [|rewrite andb_false_r]; cbn; split; by try constructor. }
  cbn [decompose_loop]. destruct (amount =? 0) eqn:E; bool_to_prop.
  { subst. destruct Hh as [->| ->]; [|rewrite andb_false_r]; cbn; split; by try constructor. }
  assert (0 < 10 ^ k) by (by apply pow10_pos).
  destruct (decompose_step amount k fuel) as (-> & -> & -> & Hlt & Heq & Hc);
    [lia..|]. clear E.
  assert (handled || negb (dust =? 0) = handled) as ->.
  { destruct Hh as [->| ->]; [done|]. by rewrite orb_false_r. }
  assert (negb handled && negb (dust =? 0) = false) as ->.
  { destruct Hh as [->| ->]; [done|]. by rewrite andb_false_r. }
  rewrite (u64_small (dust + _)) by (unfold in_range; lia).
  assert (0 <= amount mod 10 < 10) as Hm by zlia.
  assert (IHc : ∀ d', d' = dust →
    let ps := decompose_loop fuel (amount / 10) (u64 (10 ^ (k + 1))) d' handled t in
    sumZ (piece_amount <$> ps) = amount / 10 * 10 ^ (k + 1) ∧ Forall (piece_ok t) ps).
  { intros d' ->. apply IH;
      [split; [zlia|done]|lia|lia|done|rewrite pow10_succ by done; lia|lia|done]. }
  destruct (Z.eq_dec (amount mod 10) 0) as [E0|E0].
  - rewrite E0 in *. rewrite Z.mul_0_l, Z.add_0_r in *. destruct (dust <=? t) eqn:?; bool_to_prop; [|lia].
    destruct (IHc dust eq_refl) as [Hs Hok]. split; [lia|done].
  - assert (10 ^ k <= amount mod 10 * 10 ^ k).
    { rewrite <- (Z.mul_1_l (10 ^ k)) at 1. apply Z.mul_le_mono_nonneg_r; lia. }
    destruct (_ <=? t) eqn:?; bool_to_prop; [lia|].
    destruct (_ =? 0) eqn:?; bool_to_prop; [lia|]. cbn [negb app].
    destruct (IHc dust eq_refl) as [Hs Hok]. split.
    + rewrite fmap_cons, sumZ_cons, Hs. cbn [piece_amount]. lia.
    + constructor; [|done]. exists (amount mod 10), k. split_and!; [lia..|done].
Qed.

(** Before it: the low digits gather in [dust]. *)
Lemma decompose_early fuel : ∀ amount k dust t,
  0 <= amount < 10 ^ Z.of_nat fuel → 0 <= k → k + Z.of_nat fuel <= 20 →
  0 <= dust <= t → amount * 10 ^ k + dust < 2 ^ 64 →
  let ps := decompose_loop fuel amount (u64 (10 ^ k)) dust false t in
  sumZ (piece_amount <$> ps) = amount * 10 ^ k + dust ∧ Forall (piece_ok t) ps.
Proof.
  assert (Hdust : ∀ dust t, 0 <= dust <= t →
    let ps := if negb (dust =? 0) then [Dust dust] else [] in
    sumZ (piece_amount <$> ps) = dust ∧ Forall (piece_ok t) ps).
  { intros dust t Hd. cbv zeta. destruct (dust =? 0) eqn:E; bool_to_prop; cbn.
    - split; [lia|constructor].
    - split; [lia|]. constructor; [cbn; lia|constructor]. }
  induction fuel as [|fuel IH]; intros amount k dust t Ha Hk Hf Hd Hb; cbv zeta.
  { change (10 ^ Z.of_nat 0) with 1 in Ha. assert (amount = 0) as -> by lia. cbn -[sumZ].
    by apply Hdust. }
  cbn [decompose_loop]. destruct (amount =? 0) eqn:E; bool_to_prop.
  { subst. cbn [negb andb]. rewrite Z.mul_0_l, Z.add_0_l. by apply Hdust. }
  assert (0 < 10 ^ k) by (by apply pow10_pos).
  destruct (decompose_step amount k fuel) as (-> & -> & -> & Hlt & Heq & Hc); [lia..|].
  rewrite (u64_small (dust + _)) by (unfold in_range; lia).
  destruct (_ <=? t) eqn:Et; bool_to_prop.
  - destruct (IH (amount / 10) (k + 1) (dust + amount mod 10 * 10 ^ k) t) as [Hs Hok];
      [split; [zlia|done]|lia..|]. split; [lia|done].
  - destruct (Hdust dust t Hd) as [Hds Hdok]. cbn [negb andb].
    destruct (amount mod 10 * 10 ^ k =? 0) eqn:E0; bool_to_prop.
    { rewrite E0 in Et. lia. }
    destruct (decompose_late fuel (amount / 10) (k + 1) dust (false || negb (dust =? 0)) t)
      as [Hs Hok]; [split; [zlia|done]|lia|lia|done| |lia| |].
    + rewrite pow10_succ by done. assert (amount mod 10 < 10) by zlia.
      assert (amount mod 10 * 10 ^ k <= 9 * 10 ^ k) by (apply Z.mul_le_mono_nonneg_r; lia).
      lia.
    + destruct (dust =? 0) eqn:?; bool_to_prop; [by right|by left].
    + cbn [negb app]. rewrite fmap_app, sumZ_app, fmap_cons, sumZ_cons, Hds, Hs.
      cbn [piece_amount]. split; [lia|]. apply Forall_app. split; [done|]. constructor; [|done].
      exists (amount mod 10), k. assert (amount mod 10 ≠ 0).
      { intros Hz. rewrite Hz in E0. lia. } split_and!; [zlia|zlia|lia|done].
Qed.

Lemma decompose_ok amount t :
  is_u64 amount → 0 <= t →
  let ps := decompose_amount_into_digits amount t in
  sumZ (piece_amount <$> ps) = amount ∧ Forall (piece_ok t) ps.
Proof.
  intros [H0 H1] Ht. cbv zeta. unfold decompose_amount_into_digits.
  destruct (amount =? 0) eqn:E; bool_to_prop; [subst; split; [done|constructor]|].
  pose proof (decompose_early 20 amount 0 0 t) as Hd. cbv zeta in Hd.
  change (u64 (10 ^ 0)) with 1 in Hd. change (10 ^ 0) with 1 in Hd.
  rewrite Z.mul_1_r, Z.add_0_r in Hd. apply Hd; lia.
Qed.

Lemma decomposeAmount_sum amount t acc :
  is_u64 amount → 0 <= t → sumZ (decomposeAmount amount t acc) = sumZ acc + amount.
Proof.
  intros Ha Ht. unfold decomposeAmount. rewrite sumZ_app.
  by destruct (decompose_ok amount t Ha Ht) as [-> _].
Qed.

(** ** The penalty: proofs *)

(** Dividing twice by [m] is dividing by its square. *)
Lemma div128_twice hi lo m :
  is_u64 hi → is_u64 lo → 0 < m < 2 ^ 32 →
  ∃ r1 h1 l1 r2 h2 l2, div128_32 hi lo m = Ret (r1, h1, l1) ∧
    div128_32 h1 l1 m = Ret (r2, h2, l2) ∧ is_u64 h2 ∧ is_u64 l2 ∧
    h2 * 2 ^ 64 + l2 = (hi * 2 ^ 64 + lo) / (m * m).
Proof.
  intros Hh Hl Hm.
  destruct (div128_32_ret hi lo m Hh Hl Hm) as (r1 & h1 & l1 & E1 & Hh1 & Hl1 & Hr1 & Q1).
  destruct (div128_32_ret h1 l1 m Hh1 Hl1 Hm) as (r2 & h2 & l2 & E2 & Hh2 & Hl2 & Hr2 & Q2).
  exists r1, h1, l1, r2, h2, l2. split_and!; [done..|].
  rewrite <- Z.div_div by lia.
  apply (Z.div_unique _ _ _ r1) in Q1; [|lia]. rewrite <- Q1.
  by apply (Z.div_unique _ _ _ r2); [lia|].
Qed.

Lemma penalty_product m c :
  0 <= m <= UINT32_MAX → m < c <= 2 * m → 0 <= c * (2 * m - c) < m * m.
Proof. intros Hm Hc. split; [apply Z.mul_nonneg_nonneg; lia|nia]. Qed.

(** On its precondition the function returns, and the value is the floor of
    [amount * c * (2m - c) / m^2] above the median. *)
Lemma getPenalizedAmount_ret amount m c :
  is_u64 amount → 0 <= c <= 2 * m → 0 <= m <= UINT32_MAX → c <= UINT32_MAX →
  getPenalizedAmount amount m c =
  Ret (if c <=? m then amount else amount * (c * (2 * m - c)) / (m * m)).
Proof.
  intros Ha Hc Hm Hc32. unfold getPenalizedAmount.
  rewrite (u64_small (2 * m)) by (unfold UINT32_MAX, in_range in *; lia).
  rewrite (proj2 (Z.leb_le c (2 * m))), (proj2 (Z.leb_le m UINT32_MAX)),
    (proj2 (Z.leb_le c UINT32_MAX)) by lia. unfold UINT32_MAX in *.
  cbn [assert_ mbind outcome_bind].
  destruct (amount =? 0) eqn:E0; bool_to_prop.
  { subst. by destruct (c <=? m). }
  destruct (c <=? m) eqn:Ecm; bool_to_prop; [done|].
  destruct (penalty_product m c) as [P0 P1]; [unfold UINT32_MAX; lia..|].
  assert (m * m <= (2 ^ 32 - 1) * (2 ^ 32 - 1)) by (apply Z.mul_le_mono_nonneg; lia).
  rewrite (u64_small (2 * m - c)) by (unfold in_range; lia).
  rewrite (u64_small (c * _)) by (unfold in_range; lia).
  rewrite (u32_small m) by (unfold in_range; lia).
  rewrite mul128_ret by (done || unfold in_range; lia). cbn [mbind outcome_bind].
  set (p := amount * (c * (2 * m - c))).
  assert (0 <= p) as Hp by (unfold in_range in Ha; apply Z.mul_nonneg_nonneg; lia).
  assert (p < amount * (m * m)) as Hpm.
  { apply Z.mul_lt_mono_pos_l; [unfold in_range in Ha; lia|lia]. }
  assert (is_u64 (p / 2 ^ 64)) as Hhi.
  { split; [apply Z.div_pos; lia|]. apply Z.div_lt_upper_bound; [lia|].
    unfold in_range in Ha. eapply Z.lt_le_trans; [exact Hpm|].
    apply Z.mul_le_mono_nonneg; lia. }
  assert (is_u64 (p mod 2 ^ 64)) as Hlo by (apply u64_range).
  destruct (div128_twice _ _ m Hhi Hlo ltac:(lia))
    as (r1 & h1 & l1 & r2 & h2 & l2 & -> & E2 & Hh2 & Hl2 & Hq).
  cbn [mbind outcome_bind]. rewrite E2. cbn [mbind outcome_bind].
  replace (p / 2 ^ 64 * 2 ^ 64 + p mod 2 ^ 64) with p in Hq by zlia.
  assert (0 <= p / (m * m) < amount) as Hlt.
  { split; [apply Z.div_pos; nia|]. apply Z.div_lt_upper_bound; nia. }
  unfold in_range in *. assert (h2 = 0) as -> by lia.
  change (0 =? 0) with true. cbn [assert_ mbind outcome_bind].
  assert (l2 = p / (m * m)) as -> by lia.
  by rewrite (proj2 (Z.ltb_lt _ _)) by lia.
Qed.

Lemma getPenalizedAmount_bounds amount m c :
  0 <= amount → 0 <= m → m < c <= 2 * m →
  0 <= amount * (c * (2 * m - c)) / (m * m) <= amount.
Proof.
  intros Ha Hm Hc. split; [apply Z.div_pos; [|nia]; apply Z.mul_nonneg_nonneg; nia|].
  apply Z.div_le_upper_bound; [nia|]. rewrite Z.mul_comm.
  apply Z.mul_le_mono_nonneg_r; nia.
Qed.


(** ** Printing and parsing: proofs *)

Lemma decimal_value_app s1 s2 :
  decimal_value (s1 ++ s2) = decimal_value s1 * 10 ^ Z.of_nat (length s2) + decimal_value s2.
Proof.
  induction s2 as [|c s2 IH] using rev_ind; [rewrite app_nil_r; cbn; lia|].
  rewrite app_assoc. unfold decimal_value in *. rewrite fold_left_app, IH, fold_left_app.
  cbn [fold_left]. rewrite length_app. simpl length. rewrite Nat2Z.inj_add, Z.pow_add_r by lia.
  change (10 ^ Z.of_nat 1) with 10. lia.
Qed.

Lemma decimal_value_zeros n : decimal_value (replicate n char_0) = 0.
Proof.
  induction n as [|n IH]; [done|]. rewrite replicate_S_end.
  unfold decimal_value in *. rewrite fold_left_app, IH. done.
Qed.

Lemma forallb_app {A} (f : A → bool) l k : forallb f (l ++ k) = forallb f l && forallb f k.
Proof. induction l as [|x l IH]; [done|]. cbn. by rewrite IH, andb_assoc. Qed.

Lemma forallb_replicate {A} (f : A → bool) n x : f x = true → forallb f (replicate n x) = true.
Proof. intros H. induction n as [|n IH]; [done|]. cbn. by rewrite H, IH. Qed.

Lemma digits10_spec fuel : ∀ n acc,
  0 <= n < 10 ^ Z.of_nat (S fuel) →
  ∃ ds, digits10 (S fuel) n acc = ds ++ acc ∧ forallb isdigit ds = true ∧
    decimal_value ds = n ∧ ds ≠ [].
Proof.
  induction fuel as [|fuel IH]; intros n acc Hn;
    (assert (isdigit (char_0 + n mod 10) = true) as Hd
       by (unfold isdigit, char_0; apply andb_true_iff; rewrite !Z.leb_le; zlia));
    cbn [digits10]; destruct (n <? 10) eqn:E; bool_to_prop.
  1,3: exists [char_0 + n mod 10]; cbn [app forallb]; rewrite Hd;
    split_and!; [done..| |done]; unfold decimal_value; cbn [fold_left]; zlia.
  - change (10 ^ Z.of_nat 1) with 10 in Hn. lia.
  - destruct (IH (n / 10) ((char_0 + n mod 10) :: acc)) as (ds & Eds & Hds & Hv & _).
    { rewrite Nat2Z.inj_succ, Z.pow_succ_r in Hn by lia. zlia. }
    exists (ds ++ [char_0 + n mod 10]). cbn [digits10] in Eds. rewrite Eds, <- app_assoc.
    split; [done|]. rewrite forallb_app, Hds. cbn [forallb]. rewrite Hd.
    split; [done|]. rewrite decimal_value_app, Hv.
    split; [|by destruct ds].
    unfold decimal_value. cbn [fold_left length]. change (10 ^ Z.of_nat 1) with 10. zlia.
Qed.

Lemma to_string_spec n :
  is_u64 n → forallb isdigit (to_string n) = true ∧ decimal_value (to_string n) = n ∧
    to_string n ≠ [].
Proof.
  intros [H0 H1]. destruct (digits10_spec 19 n []) as (ds & E & Hd & Hv & Hne).
  { change (Z.of_nat 20) with 20. lia. }
  unfold to_string. rewrite E, app_nil_r. done.
Qed.

Definition no_space (c : Z) : Prop := isspace c = false.

Lemma drop_spaces_id s : Forall no_space s → drop_spaces s = s.
Proof. destruct 1 as [|c s Hc _]; [done|]. cbn. by rewrite Hc. Qed.

Lemma trim_id s : Forall no_space s → trim s = s.
Proof.
  intros H. unfold trim. rewrite (drop_spaces_id s H), drop_spaces_id by (by apply Forall_rev).
  apply rev_involutive.
Qed.

Lemma digits_no_space s : forallb isdigit s = true → Forall no_space s ∧ char_dot ∉ s.
Proof.
  induction s as [|c s IH]; cbn; intros H; [split; [constructor|by apply not_elem_of_nil]|].
  apply andb_true_iff in H as [Hc H]. destruct (IH H) as [Hf Hn].
  unfold isdigit in Hc. apply andb_true_iff in Hc as [Hc1 Hc2]. bool_to_prop. split.
  - constructor; [|done]. unfold no_space, isspace.
    rewrite (proj2 (Z.eqb_neq c 32)), (proj2 (Z.leb_gt c 13)), andb_false_r by lia. done.
  - apply not_elem_of_cons. split; [unfold char_dot; lia|done].
Qed.

(** [parseAmount] reads a decimal fraction with at most [places] decimals. *)
Lemma parseAmount_decimal places a b :
  forallb isdigit a = true → forallb isdigit b = true → a ++ b ≠ [] →
  (length b <= places)%nat →
  parseAmount places (a ++ char_dot :: b) =
  fromString_u64 (a ++ b ++ replicate (places - length b) char_0).
Proof.
  intros Ha Hb Hne Hl. unfold parseAmount.
  destruct (digits_no_space a Ha) as [Sa Na]. destruct (digits_no_space b Hb) as [Sb _].
  rewrite trim_id by (apply Forall_app; split; [done|by constructor]).
  unfold find_char. rewrite find_from_app by (done || lia).
  rewrite Z.add_0_l, Nat2Z.id, length_app. simpl length.
  replace (length a + S (length b) - length a - 1)%nat with (length b) by lia.
  assert (∀ s, erase_zeros places (length b) s = (length b, s)) as Herase.
  { intros [|c s]; [done|]. cbn [erase_zeros].
    by rewrite (proj2 (Nat.ltb_ge places (length b))) by lia. }
  rewrite Herase. cbv beta match zeta. rewrite rev_involutive.
  rewrite (proj2 (Nat.ltb_ge places (length b))) by done.
  rewrite take_app_length, <- drop_drop, drop_app_length. change (drop 1 (char_dot :: b)) with b.
  destruct (a ++ b) as [|x l] eqn:E; [done|]. rewrite <- E.
  rewrite forallb_app, Ha, Hb. cbn [negb andb].
  destruct (Nat.ltb_spec (length b) places).
  - by rewrite <- app_assoc.
  - replace (places - length b)%nat with 0%nat by lia. by rewrite app_nil_r.
Qed.

Lemma format_parse places amount :
  is_u64 amount → parseAmount places (formatAmount places amount) = Some amount.
Proof.
  intros Hu. destruct (to_string_spec amount Hu) as (Hd & Hv & Hne). unfold formatAmount.
  set (s := if (length (to_string amount) <? places + 1)%nat then _ else _).
  assert (forallb isdigit s = true ∧ decimal_value s = amount ∧ (places < length s)%nat)
    as (Sd & Sv & Sl).
  { subst s. destruct (Nat.ltb_spec (length (to_string amount)) (places + 1)).
    - rewrite forallb_app, forallb_replicate, Hd, decimal_value_app, decimal_value_zeros by done.
      rewrite length_app, length_replicate. split_and!; [done|lia..].
    - split_and!; [done..|lia]. }
  clearbody s. rewrite <- (take_drop (length s - places) s) in Sd.
  rewrite forallb_app in Sd. apply andb_true_iff in Sd as [Sa Sb].
  assert (length (drop (length s - places) s) = places) as Hlb by (rewrite length_drop; lia).
  change ([char_dot] ++ ?l) with (char_dot :: l).
  rewrite parseAmount_decimal; [|done|done| |lia].
  - rewrite Hlb, Nat.sub_diag, app_nil_r, take_drop. unfold fromString_u64. rewrite Sv.
    unfold in_range, UINT64_MAX in *. by rewrite (proj2 (Z.leb_le _ _)) by lia.
  - rewrite take_drop. intros ->. simpl in Sl. lia.
Qed.

(** ** The contract of the amounts *)

(** a decomposition adds up to the amount; every chunk is a digit times a
    power of ten and dust stays within the threshold. *)
Theorem decompose_sound amount dust_threshold :
  is_u64 amount → 0 <= dust_threshold →
  let ps := decompose_amount_into_digits amount dust_threshold in
  sumZ (piece_amount <$> ps) = amount ∧ Forall (piece_ok dust_threshold) ps.
Proof. apply decompose_ok. Qed.

Lemma decompose_sound_witness :
  let ps := decompose_amount_into_digits 62387455827 455827 in
  sumZ (piece_amount <$> ps) = 62387455827 ∧ Forall (piece_ok 455827) ps.
Proof. apply (decompose_sound 62387455827 455827); [|lia]. unfold in_range. lia. Defined.

(** on its precondition [getPenalizedAmount] returns, with every assertion
    true, the amount itself up to the median size and the floor of
    [amount * c * (2m - c) / m^2], not above the amount, beyond it. *)
Theorem penalized_exact amount m c :
  is_u64 amount → 0 <= c <= 2 * m → 0 <= m <= UINT32_MAX → c <= UINT32_MAX →
  getPenalizedAmount amount m c =
    Ret (if c <=? m then amount else amount * (c * (2 * m - c)) / (m * m)) ∧
  (m < c → 0 <= amount * (c * (2 * m - c)) / (m * m) <= amount).
Proof.
  intros Ha Hc Hm Hc32. split; [by apply getPenalizedAmount_ret|].
  intros Hlt. unfold in_range in Ha. apply getPenalizedAmount_bounds; lia.
Qed.

Lemma penalized_exact_witness :
  getPenalizedAmount 2000000 100000 150000 = Ret 1500000 ∧
  (100000 < 150000 → 0 <= 2000000 * (150000 * (2 * 100000 - 150000)) / (100000 * 100000)
    <= 2000000).
Proof. apply (penalized_exact 2000000 100000 150000); vm_compute; intuition discriminate. Defined.

(** every printed amount parses back to itself, and a decimal number with
    at most the display's decimal places parses to its value, or is rejected
    when that does not fit 64 bits. *)
Theorem amount_text_roundtrip places :
  (∀ amount, is_u64 amount → parseAmount places (formatAmount places amount) = Some amount) ∧
  (∀ a b, forallb isdigit a = true → forallb isdigit b = true → a ++ b ≠ [] →
     (length b <= places)%nat →
     let v := decimal_value a * 10 ^ Z.of_nat places +
              decimal_value b * 10 ^ Z.of_nat (places - length b) in
     parseAmount places (a ++ char_dot :: b) = if v <=? UINT64_MAX then Some v else None).
Proof.
  split; [apply format_parse|]. intros a b Ha Hb Hne Hl. cbv zeta.
  rewrite parseAmount_decimal by done. unfold fromString_u64.
  rewrite !decimal_value_app, decimal_value_zeros, length_app, length_replicate.
  replace (length b + (places - length b))%nat with places by lia.
  by rewrite Z.add_0_r.
Qed.
