(* ===== verification/CryptoNoteTypes.v ===== *)
(** * The data of the chain ([src/include/CryptoNote.h], [src/include/CryptoTypes.h])

    Inputs, outputs, transactions, blocks and keys, with the source's
    structures and variants. Hashes, keys, key images and signatures are their
    bytes; integers are [Z], their widths are stated where values are encoded. *)

From S2P Require Import Prelude.

Local Open Scope Z_scope.

(** ** Fixed-size byte data *)

Definition Hash := list Z.
Definition PublicKey := list Z.
Definition SecretKey := list Z.
Definition KeyImage := list Z.
Definition Signature := list Z.
Definition BinaryArray := list Z.

(** The bytes of a structure of [n] bytes. *)
Definition is_pod (n : nat) (l : list Z) : Prop := is_bytes l ∧ length l = n.

#[export] Instance is_pod_dec n l : Decision (is_pod n l).
Proof. unfold is_pod. apply _. Defined.

Definition NULL_HASH : Hash := replicate 32 0.

Lemma is_pod_zero n : is_pod n (replicate n 0).
Proof. split; [by apply Forall_replicate|apply length_replicate]. Qed.

(** ** Transactions *)

Record BaseInput := { bi_blockIndex : Z }.

Record KeyInput := {
  ki_amount : Z;
  ki_outputIndexes : list Z;
  ki_keyImage : KeyImage
}.

Record MultisignatureInput := {
  mi_amount : Z;
  mi_signatureCount : Z;
  mi_outputIndex : Z;
  mi_term : Z
}.

Record KeyOutput := { ko_key : PublicKey }.

Record MultisignatureOutput := {
  mo_keys : list PublicKey;
  mo_requiredSignatureCount : Z;
  mo_term : Z
}.

Inductive TransactionInput :=
  | InBase (i : BaseInput)
  | InKey (i : KeyInput)
  | InMultisignature (i : MultisignatureInput).

Inductive TransactionOutputTarget :=
  | OutKey (o : KeyOutput)
  | OutMultisignature (o : MultisignatureOutput).

Record TransactionOutput := {
  out_amount : Z;
  out_target : TransactionOutputTarget
}.

Record TransactionPrefix := {
  version : Z;
  unlockTime : Z;
  inputs : list TransactionInput;
  outputs : list TransactionOutput;
  extra : list Z
}.

Record Transaction := {
  tx_prefix :> TransactionPrefix;
  signatures : list (list Signature)
}.

(** ** Blocks *)

Record BlockHeader := {
  majorVersion : Z;
  minorVersion : Z;
  nonce : Z;
  timestamp : Z;
  previousBlockHash : Hash
}.

Record Block := {
  block_header :> BlockHeader;
  baseTransaction : Transaction;
  transactionHashes : list Hash
}.

(** ** Accounts *)

Record AccountPublicAddress := {
  spendPublicKey : PublicKey;
  viewPublicKey : PublicKey
}.

Record AccountKeys := {
  address : AccountPublicAddress;
  spendSecretKey : SecretKey;
  viewSecretKey : SecretKey
}.

Record KeyPair := { publicKey : PublicKey; secretKey : SecretKey }.

(** ** Decidable equality *)

#[export] Instance BaseInput_eq_dec : EqDecision BaseInput.
Proof. solve_decision. Defined.
#[export] Instance KeyInput_eq_dec : EqDecision KeyInput.
Proof. solve_decision. Defined.
#[export] Instance MultisignatureInput_eq_dec : EqDecision MultisignatureInput.
Proof. solve_decision. Defined.
#[export] Instance KeyOutput_eq_dec : EqDecision KeyOutput.
Proof. solve_decision. Defined.
#[export] Instance MultisignatureOutput_eq_dec : EqDecision MultisignatureOutput.
Proof. solve_decision. Defined.
#[export] Instance TransactionInput_eq_dec : EqDecision TransactionInput.
Proof. solve_decision. Defined.
#[export] Instance TransactionOutputTarget_eq_dec : EqDecision TransactionOutputTarget.
Proof. solve_decision. Defined.
#[export] Instance TransactionOutput_eq_dec : EqDecision TransactionOutput.
Proof. solve_decision. Defined.
#[export] Instance TransactionPrefix_eq_dec : EqDecision TransactionPrefix.
Proof. solve_decision. Defined.
#[export] Instance Transaction_eq_dec : EqDecision Transaction.
Proof. solve_decision. Defined.
#[export] Instance BlockHeader_eq_dec : EqDecision BlockHeader.
Proof. solve_decision. Defined.
#[export] Instance Block_eq_dec : EqDecision Block.
Proof. solve_decision. Defined.

(** ** Values a freshly constructed object has *)

Definition default_TransactionInput : TransactionInput := InBase {| bi_blockIndex := 0 |}.
Definition default_KeyInput : KeyInput :=
  {| ki_amount := 0; ki_outputIndexes := []; ki_keyImage := replicate 32 0 |}.
Definition default_MultisignatureInput : MultisignatureInput :=
  {| mi_amount := 0; mi_signatureCount := 0; mi_outputIndex := 0; mi_term := 0 |}.
Definition default_KeyOutput : KeyOutput := {| ko_key := replicate 32 0 |}.
Definition default_MultisignatureOutput : MultisignatureOutput :=
  {| mo_keys := []; mo_requiredSignatureCount := 0; mo_term := 0 |}.
Definition default_TransactionOutput : TransactionOutput :=
  {| out_amount := 0; out_target := OutKey default_KeyOutput |}.
