(* ===== verification/Serialization.v ===== *)
(** * Serialization ([src/src/Serialization])

    [ISerializer] as a class of operations on a serializer's state, the generic
    code of [SerializationOverloads.h] over it, and the two binary serializers as
    instances over any stream.

    As in the source, one function serves both directions: an operation takes
    the current value and returns the value it leaves in the argument, which is
    the value itself when writing and the value read when reading.

    The second half is the theory the per-type theorems use: [codec] says that a
    pair of the writing and the reading instance of one function are inverse to
    each other on a set of values and that reading accepts nothing but what
    writing produces. *)

From S2P Require Import Prelude Varint Streams.

Local Open Scope Z_scope.

Inductive SerializerType := INPUT | OUTPUT.

#[export] Instance SerializerType_eq_dec : EqDecision SerializerType.
Proof. solve_decision. Defined.

(** Every operation returns the value left in its argument and the [bool] the
    source's method returns. *)
Class ISerializer (St : Type) := {
  ser_type : SerializerType;
  beginObject : string → M St bool;
  endObject : M St unit;
  beginArray : Z → string → M St (Z * bool);
  endArray : M St unit;
  ser_uint8 : Z → string → M St (Z * bool);
  ser_uint16 : Z → string → M St (Z * bool);
  ser_uint32 : Z → string → M St (Z * bool);
  ser_uint64 : Z → string → M St (Z * bool);
  ser_bool : bool → string → M St (bool * bool);
  ser_string : list Z → string → M St (list Z * bool);
  ser_binary : Z → list Z → string → M St (list Z * bool)
}.

(** [vector.resize(n)]. *)
Definition resize {A} (n : nat) (d : A) (l : list A) : list A :=
  take n l ++ replicate (n - length l) d.

Section Overloads.
Context {St : Type} `{!ISerializer St}.

(** [serialize(T& value, StringView name, ISerializer&)] for a structure. *)
Definition in_object {T} (serialize : T → M St T) (value : T) (name : string)
    : M St (T * bool) :=
  ok ← beginObject name;
  if negb ok then mret (value, false)
  else value ← serialize value; endObject;; mret (value, true).

(** The loop over the elements of a container. *)
Fixpoint ser_items {T} (ser : T → string → M St (T * bool)) (l : list T) : M St (list T) :=
  match l with
  | [] => mret []
  | x :: l' =>
      '(x, _) ← ser x EmptyString;
      l' ← ser_items ser l'; mret (x :: l')
  end.

Definition serializeContainer {T} (d : T) (ser : T → string → M St (T * bool))
    (value : list T) (name : string) : M St (list T * bool) :=
  '(size, ok) ← beginArray (Z.of_nat (length value)) name;
  if negb ok then mret ([], false)
  else
    value ← ser_items ser (resize (Z.to_nat size) d value);
    endArray;; mret (value, true).

(** [serializeAsBinary] for a vector of bytes: [sizeof(T)] is one. *)
Definition serializeAsBinary (value : list Z) (name : string) : M St (list Z) :=
  if decide (ser_type = INPUT)
  then '(blob, _) ← ser_string [] name; mret blob
  else '(_, _) ← ser_string value name; mret value.

Definition serializeBlockHeight (blockHeight : Z) (name : string) : M St Z :=
  if decide (ser_type = INPUT)
  then
    '(height, _) ← ser_uint64 0 name;
    if height =? UINT64_MAX then mret UINT32_MAX
    else if (UINT32_MAX <? height) && (height <? UINT64_MAX)
    then throw "Deserialization error: wrong value"
    else mret (u32 height)
  else '(blockHeight, _) ← ser_uint32 blockHeight name; mret blockHeight.
End Overloads.

(** ** The binary serializers *)

Record BinaryInputStreamSerializer (Si : Type) := BIS { bis_stream : Si }.
Record BinaryOutputStreamSerializer (So : Type) := BOS { bos_stream : So }.
Arguments BIS {Si} bis_stream.
Arguments bis_stream {Si} b.
Arguments BOS {So} bos_stream.
Arguments bos_stream {So} b.

Section BinaryInput.
Context {Si : Type} `{!IInputStream Si}.

(** A stream operation on the serializer's stream. *)
Definition on_input {A} (m : M Si A) : M (BinaryInputStreamSerializer Si) A := λ s,
  match m (bis_stream s) with
  | Ret (a, st) => Ret (a, BIS st)
  | Throw e => Throw e
  | Abort => Abort
  end.

Definition max_read_size : Z := 100 * 1024 * 1024.

Definition bis_beginArray (_ : Z) (name : string)
    : M (BinaryInputStreamSerializer Si) (Z * bool) :=
  size ← on_input (readVarint 64);
  if max_read_size <? size then throw "array size is too big" else mret (size, true).

Definition bis_varint (w : Z) (_ : Z) (name : string)
    : M (BinaryInputStreamSerializer Si) (Z * bool) :=
  value ← on_input (readVarint w); mret (value, true).

Definition bis_bool (_ : bool) (name : string)
    : M (BinaryInputStreamSerializer Si) (bool * bool) :=
  value ← on_input read_uint8; mret (negb (value =? 0), true).

Definition bis_string (_ : list Z) (name : string)
    : M (BinaryInputStreamSerializer Si) (list Z * bool) :=
  size ← on_input (readVarint 64);
  if max_read_size <? size then throw "string size is too big"
  else if 0 <? size then value ← on_input (read size); mret (value, true)
  else mret ([], true).

Definition bis_binary (size : Z) (_ : list Z) (name : string)
    : M (BinaryInputStreamSerializer Si) (list Z * bool) :=
  value ← on_input (read size); mret (value, true).

#[export] Instance BinaryInputStreamSerializer_ser :
    ISerializer (BinaryInputStreamSerializer Si) := {|
  ser_type := INPUT;
  beginObject _ := mret true;
  endObject := mret tt;
  beginArray := bis_beginArray;
  endArray := mret tt;
  ser_uint8 := bis_varint 8;
  ser_uint16 := bis_varint 16;
  ser_uint32 := bis_varint 32;
  ser_uint64 := bis_varint 64;
  ser_bool := bis_bool;
  ser_string := bis_string;
  ser_binary := bis_binary
|}.
End BinaryInput.

Section BinaryOutput.
Context {So : Type} `{!IOutputStream So}.

Definition on_output {A} (m : M So A) : M (BinaryOutputStreamSerializer So) A := λ s,
  match m (bos_stream s) with
  | Ret (a, st) => Ret (a, BOS st)
  | Throw e => Throw e
  | Abort => Abort
  end.

Definition bos_varint (value : Z) (name : string)
    : M (BinaryOutputStreamSerializer So) (Z * bool) :=
  on_output (writeVarint value);; mret (value, true).

(** [char boolVal = value]. *)
Definition bos_bool (value : bool) (name : string)
    : M (BinaryOutputStreamSerializer So) (bool * bool) :=
  on_output (write [Z.b2z value]);; mret (value, true).

Definition bos_string (value : list Z) (name : string)
    : M (BinaryOutputStreamSerializer So) (list Z * bool) :=
  on_output (writeVarint (Z.of_nat (length value)));;
  on_output (write value);; mret (value, true).

Definition bos_binary (size : Z) (value : list Z) (name : string)
    : M (BinaryOutputStreamSerializer So) (list Z * bool) :=
  on_output (write (take (Z.to_nat size) value));; mret (value, true).

#[export] Instance BinaryOutputStreamSerializer_ser :
    ISerializer (BinaryOutputStreamSerializer So) := {|
  ser_type := OUTPUT;
  beginObject _ := mret true;
  endObject := mret tt;
  beginArray := bos_varint;
  endArray := mret tt;
  ser_uint8 := bos_varint;
  ser_uint16 := bos_varint;
  ser_uint32 := bos_varint;
  ser_uint64 := bos_varint;
  ser_bool := bos_bool;
  ser_string := bos_string;
  ser_binary := bos_binary
|}.
End BinaryOutput.

(** ** Serializers as streams

    A binary serializer passes bytes through to its stream, so the judgements
    [reads] and [writes] apply to it. *)

#[export] Instance BIS_stream {Si} `{!IInputStream Si} :
  IInputStream (BinaryInputStreamSerializer Si) := λ n, on_input (readSome n).
#[export] Instance BOS_stream {So} `{!IOutputStream So} :
  IOutputStream (BinaryOutputStreamSerializer So) := λ d, on_output (writeSome d).

#[export] Program Instance BIS_lawful {Si} `{LawfulInput Si} :
    LawfulInput (BinaryInputStreamSerializer Si) := {|
  in_ok s := in_ok (bis_stream s);
  unread s := unread (bis_stream s)
|}.
Next Obligation. intros Si ?? [s] Hs. by apply unread_bytes. Qed.
Next Obligation.
  intros Si ?? n [s] Hn Hs. destruct (readSome_law n s Hn Hs) as (bs & s' & E & ?).
  exists bs, (BIS s'). unfold readSome at 1, BIS_stream, on_input. cbn. by rewrite E.
Qed.

#[export] Program Instance BOS_lawful {So} `{LawfulOutput So} :
    LawfulOutput (BinaryOutputStreamSerializer So) := {|
  written s := written (bos_stream s)
|}.
Next Obligation.
  intros So ?? d [s]. destruct (writeSome_law d s) as (n & s' & E & ?).
  exists n, (BOS s'). unfold writeSome at 1, BOS_stream, on_output. cbn. by rewrite E.
Qed.

(** ** What a reader may consume *)

Section Consumes.
Context {St : Type} `{LawfulInput St}.

(** [m] never runs into a failed assertion, and when it returns [a] it has
    consumed some bytes [bs] with [P a bs]. *)
Definition consumes {A} (m : M St A) (P : A → list Z → Prop) : Prop :=
  ∀ s, in_ok s →
    match m s with
    | Ret (a, s') => in_ok s' ∧ ∃ bs, unread s = bs ++ unread s' ∧ P a bs
    | Throw _ => True
    | Abort => False
    end.

Lemma consumes_ret {A} (a : A) (P : A → list Z → Prop) : P a [] → consumes (mret a) P.
Proof. intros HP s Hs. split; [done|]. by exists []. Qed.

Lemma consumes_throw {A} e (P : A → list Z → Prop) : consumes (throw e) P.
Proof. by intros s Hs. Qed.

Lemma consumes_bind {A B} (m : M St A) (f : A → M St B) P Q :
  consumes m P → (∀ a bs, P a bs → consumes (f a) (λ b bs', Q b (bs ++ bs'))) →
  consumes (m ≫= f) Q.
Proof.
  intros Hm Hf s Hs. specialize (Hm s Hs). unfold mbind, M_bind.
  destruct (m s) as [[a s1]|e|]; [|done..]. destruct Hm as (Hs1 & bs & Hu & HP).
  specialize (Hf a bs HP s1 Hs1). destruct (f a s1) as [[b s2]|e|]; [|done..].
  destruct Hf as (Hs2 & bs' & Hu' & HQ). split; [done|].
  exists (bs ++ bs'). split; [by rewrite Hu, Hu', app_assoc|done].
Qed.

Lemma consumes_impl {A} (m : M St A) (P Q : A → list Z → Prop) :
  consumes m P → (∀ a bs, P a bs → Q a bs) → consumes m Q.
Proof.
  intros Hm HPQ s Hs. specialize (Hm s Hs). destruct (m s) as [[a s1]|e|]; [|done..].
  destruct Hm as (? & bs & ? & ?). split; [done|]. exists bs. split; [done|]. by apply HPQ.
Qed.

Lemma consumes_read n :
  0 <= n → consumes (read n) (λ a bs, a = bs ∧ is_bytes bs ∧ Z.of_nat (length bs) = n).
Proof.
  intros Hn s Hs. destruct (Z_le_gt_dec n (Z.of_nat (length (unread s)))) as [Hle|Hgt].
  - pose proof (reads_read (take (Z.to_nat n) (unread s)) s (drop (Z.to_nat n) (unread s)) Hs)
      as (s' & E & Hs' & Hu); [by rewrite take_drop|].
    rewrite length_take, Nat.min_l, Z2Nat.id in E by lia. rewrite E.
    split; [done|]. exists (take (Z.to_nat n) (unread s)). rewrite Hu, take_drop.
    split_and!; [done..| |rewrite length_take; lia].
    by apply Forall_take, unread_bytes.
  - by rewrite read_short by (done || lia).
Qed.

Lemma consumes_readVarint w :
  8 <= w <= 64 → consumes (readVarint w) (λ a bs, in_range w a ∧ bs = write_varint a).
Proof.
  intros Hw s Hs.
  pose proof (readVarint_loop_equiv 10 w 0 0 0 s Hs ltac:(lia) Hw ltac:(lia)
    ltac:(lia) ltac:(lia)) as Ha. fold (readVarint (St := St) w) in Ha.
  change (readVarint_loop 10 w 0 0 s) with (readVarint w s) in Ha.
  destruct (read_varint_loop w (unread s) 0 0 0) as [[r v] rest] eqn:E.
  cbn [varint_answer] in Ha.
  destruct (r =? -1) eqn:E1; [by rewrite Ha|]. destruct (r =? -2) eqn:E2; [by rewrite Ha|].
  destruct Ha as (pre & Hpre & Ha). destruct (list.last pre) as [b|] eqn:El.
  2: { by destruct Ha as [_ ->]. }
  destruct (b <? 128) eqn:Eb; [|by destruct Ha as [_ ->]].
  destruct Ha as (s' & -> & Hs' & Hu). split; [done|]. exists pre. rewrite Hu.
  split; [done|].
  pose proof (read_varint_loop_code w (unread s) 0 0 0) as Hcode. rewrite E in Hcode.
  destruct (read_varint_loop_canonical w (unread s) 0 0 0 r v rest 9)
    as (pre' & x & Hpre' & Hr & Hv & Hx & Hc); [by apply unread_bytes|lia..|done|lia|].
  rewrite Hpre in Hpre'. apply app_inv_tail in Hpre' as <-.
  replace (w - 0) with w in Hx by lia. assert (v = x) as -> by lia.
  split; [done|]. destruct Hc as [[-> _]|[_ Hall]]; [done|].
  apply last_Some in El as (l & ->). apply Forall_app in Hall as [_ [Hb _]%Forall_cons_iff].
  lia.
Qed.
End Consumes.

(** ** Codecs *)

Section Codecs.
Context {Si So : Type} `{LawfulInput Si} `{LawfulOutput So}.
Abbreviation RI := (M (BinaryInputStreamSerializer Si)).
Abbreviation WO := (M (BinaryOutputStreamSerializer So)).

Lemma reads_on_input {A} (m : M Si A) bs a : reads m bs a → reads (on_input m) bs a.
Proof.
  intros Hm [s] rest Hs Hu. destruct (Hm s rest Hs Hu) as (s' & E & ? & ?).
  exists (BIS s'). unfold on_input. cbn. by rewrite E.
Qed.

Lemma consumes_on_input {A} (m : M Si A) P : consumes m P → consumes (on_input m) P.
Proof.
  intros Hm [s] Hs. specialize (Hm s Hs). unfold on_input. cbn.
  by destruct (m s) as [[a s']|e|].
Qed.

Lemma writes_on_output {A} (m : M So A) bs a : writes m bs a → writes (on_output m) bs a.
Proof.
  intros [Hb Hm]. split; [done|]. intros [s]. destruct (Hm s) as (s' & E & ?).
  exists (BOS s'). unfold on_output. cbn. by rewrite E.
Qed.

(** [w] and [r], the two instances of one serialization function, are inverse
    on the values of [ok]: what [w] writes for such a value [r] reads back from
    any previous value, and [r] accepts only what [w] writes for such a value. *)
Record codec {T} (r : T → RI T) (w : T → WO T) (ok : T → Prop) : Prop := {
  codec_rt v : ok v → ∃ bs, writes (w v) bs v ∧ ∀ v0, reads (r v0) bs v;
  codec_canon v0 : consumes (r v0) (λ v bs, ok v ∧ writes (w v) bs v)
}.

(** The same for the operations that take a name and return a flag. *)
Record ncodec {T} (r : T → string → RI (T * bool)) (w : T → string → WO (T * bool))
    (ok : T → Prop) : Prop := {
  ncodec_rt v name : ok v →
    ∃ bs, writes (w v name) bs (v, true) ∧ ∀ v0, reads (r v0 name) bs (v, true);
  ncodec_canon v0 name : consumes (r v0 name) (λ v bs,
    v.2 = true ∧ ok v.1 ∧ writes (w v.1 name) bs (v.1, true))
}.

Lemma varint_writes v name :
  is_u64 v → writes (bos_varint (So := So) v name) (write_varint v) (v, true).
Proof.
  intros Hv. apply (writes_bind_ret (on_output (writeVarint v)) (λ _, (v, true)) _ tt).
  by apply writes_on_output, writes_writeVarint.
Qed.

Lemma varint_reads w v v0 name :
  8 <= w <= 64 → in_range w v →
  reads (bis_varint (Si := Si) w v0 name) (write_varint v) (v, true).
Proof.
  intros Hw Hv. apply (reads_bind_ret _ (λ x, (x, true))), reads_on_input.
  by apply reads_readVarint.
Qed.

Lemma varint_ncodec w :
  8 <= w <= 64 → ncodec (bis_varint w) bos_varint (in_range w).
Proof.
  intros Hw. assert (∀ v, in_range w v → is_u64 v) as H64.
  { unfold in_range. intros v Hv. assert (2 ^ w <= 2 ^ 64) by (apply Z.pow_le_mono_r; lia).
    lia. }
  split.
  - intros v name Hv. exists (write_varint v). split; [by apply varint_writes, H64|].
    intros v0. by apply varint_reads.
  - intros v0 name. eapply consumes_bind; [by apply consumes_on_input, consumes_readVarint|].
    intros v bs [Hv ->]. apply consumes_ret. rewrite app_nil_r.
    split_and!; [done..|]. by apply varint_writes, H64.
Qed.

Lemma beginArray_ncodec :
  ncodec bis_beginArray bos_varint (λ n, 0 <= n <= max_read_size).
Proof.
  split.
  - intros v name [Hv0 Hm]. unfold max_read_size in Hm.
    assert (is_u64 v) as Hv by (unfold in_range; lia).
    exists (write_varint v). split; [by apply varint_writes|].
    intros v0. unfold bis_beginArray. rewrite <- (app_nil_r (write_varint v)).
    eapply reads_bind; [apply reads_on_input, reads_readVarint; [lia|exact Hv]|].
    unfold max_read_size. case_bool; [lia|]. apply reads_ret.
  - intros v0 name. unfold bis_beginArray.
    eapply consumes_bind; [by apply consumes_on_input, consumes_readVarint|].
    intros v bs [Hv ->]. case_bool; [apply consumes_throw|]. apply consumes_ret.
    rewrite app_nil_r. unfold in_range in Hv. cbn. split_and!; [done|lia..|].
    by apply varint_writes.
Qed.

(** A block of bytes is written and read as it is. *)
Lemma binary_writes l name :
  is_bytes l → writes (bos_binary (So := So) (Z.of_nat (length l)) l name) l (l, true).
Proof.
  intros Hb. unfold bos_binary. rewrite Nat2Z.id, take_ge by lia.
  apply (writes_bind_ret (on_output (write l)) (λ _, (l, true)) _ tt).
  by apply writes_on_output, writes_write.
Qed.

Lemma binary_reads l v0 name :
  reads (bis_binary (Si := Si) (Z.of_nat (length l)) v0 name) l (l, true).
Proof. apply (reads_bind_ret _ (λ x, (x, true))), reads_on_input, reads_read. Qed.

Lemma binary_consumes n v0 name :
  consumes (bis_binary (Si := Si) (Z.of_nat n) v0 name)
    (λ v bs, v = (bs, true) ∧ is_bytes bs ∧ length bs = n).
Proof.
  eapply consumes_bind; [apply consumes_on_input, consumes_read; lia|].
  intros v bs (-> & Hb & Hl). apply consumes_ret. rewrite app_nil_r.
  split_and!; [done..|lia].
Qed.

Lemma binary_ncodec n :
  ncodec (bis_binary (Z.of_nat n)) (bos_binary (Z.of_nat n)) (λ l, is_bytes l ∧ length l = n).
Proof.
  split.
  - intros l name [Hb <-]. exists l. split; [by apply binary_writes|]. intros v0.
    apply binary_reads.
  - intros v0 name. eapply consumes_impl; [apply binary_consumes|].
    intros v bs (-> & Hb & <-). cbn. split_and!; [done..|].
    by apply binary_writes.
Qed.

Lemma string_writes l name :
  is_bytes l → Z.of_nat (length l) <= max_read_size →
  writes (bos_string (So := So) l name) (write_varint (Z.of_nat (length l)) ++ l) (l, true).
Proof.
  intros Hb Hl. unfold max_read_size in Hl. unfold bos_string. eapply writes_bind.
  - apply writes_on_output, writes_writeVarint. unfold in_range. lia.
  - apply (writes_bind_ret (on_output (write l)) (λ _, (l, true)) _ tt).
    by apply writes_on_output, writes_write.
Qed.

Lemma string_reads l v0 name :
  Z.of_nat (length l) <= max_read_size →
  reads (bis_string (Si := Si) v0 name) (write_varint (Z.of_nat (length l)) ++ l) (l, true).
Proof.
  intros Hl. unfold bis_string. eapply reads_bind.
  { apply reads_on_input, reads_readVarint; [lia|].
    unfold max_read_size in Hl. unfold in_range. lia. }
  case_bool; [lia|]. case_bool.
  - apply (reads_bind_ret _ (λ x, (x, true))), reads_on_input, reads_read.
  - destruct l; [|simpl in *; lia]. apply reads_ret.
Qed.

Lemma string_ncodec :
  ncodec bis_string bos_string
    (λ l, is_bytes l ∧ Z.of_nat (length l) <= max_read_size).
Proof.
  split.
  - intros l name [Hb Hl]. eexists. split; [by apply string_writes|]. intros v0.
    by apply string_reads.
  - intros v0 name. unfold bis_string.
    eapply consumes_bind; [by apply consumes_on_input, consumes_readVarint|].
    intros n bs [Hn ->]. case_bool; [apply consumes_throw|]. case_bool.
    + eapply consumes_bind; [apply consumes_on_input, consumes_read; lia|].
      intros v bs (-> & Hb & Hl). apply consumes_ret. rewrite app_nil_r. cbn.
      subst n. split_and!; [done..|]. by apply string_writes.
    + apply consumes_ret. unfold in_range in Hn. assert (n = 0) as -> by lia. cbn.
      split; [done|]. split; [split; [constructor|done]|].
      refine (string_writes [] name _ ltac:(done)). constructor.
Qed.

(** Reading a flag accepts any non-zero byte, so only the round trip holds. *)
Lemma bool_rt b name :
  ∃ bs, writes (bos_bool (So := So) b name) bs (b, true) ∧
    ∀ b0, reads (bis_bool (Si := Si) b0 name) bs (b, true).
Proof.
  exists [Z.b2z b]. split.
  - apply (writes_bind_ret (on_output (write [Z.b2z b])) (λ _, (b, true)) _ tt).
    apply writes_on_output, writes_write. by constructor; [destruct b|].
  - intros b0. replace (b, true) with (negb (Z.b2z b =? 0), true) by (by destruct b).
    apply (reads_bind_ret _ (λ x, (negb (x =? 0), true))), reads_on_input, reads_uint8.
    by destruct b.
Qed.

(** ** Structures and containers *)

Lemma object_ncodec {T} (r : T → RI T) (w : T → WO T) ok :
  codec r w ok → ncodec (in_object r) (in_object w) ok.
Proof.
  assert (∀ v bs name, writes (w v) bs v → writes (in_object w v name) bs (v, true)) as Hwr.
  { intros v bs name Hv. unfold in_object. cbn [beginObject endObject BinaryOutputStreamSerializer_ser].
    apply (writes_bind_ret (w v) (λ x, (x, true))) in Hv. exact Hv. }
  intros [Hrt Hc]. split.
  - intros v name Hv. destruct (Hrt v Hv) as (bs & Hw & Hr). exists bs.
    split; [by apply Hwr|]. intros v0. exact (reads_bind_ret (r v0) (λ x, (x, true)) bs v (Hr v0)).
  - intros v0 name. refine (consumes_bind (r v0) (λ x, mret (x, true)) _ _ (Hc v0) _).
    intros v bs [Hv Hw]. apply consumes_ret. rewrite app_nil_r. auto.
Qed.

(** [w] writes what [r] reads back, for the operations that take a name. *)
Definition round_trips {T} (r : T → string → RI (T * bool)) (w : T → string → WO (T * bool)) (ok : T → Prop) : Prop :=
  ∀ v name, ok v → ∃ bs, writes (w v name) bs (v, true) ∧ ∀ v0, reads (r v0 name) bs (v, true).

Lemma bool_round : round_trips bis_bool bos_bool (λ _, True).
Proof. intros b name _. apply bool_rt. Qed.

(** The elements of a container, read into as many as were allocated. *)
Lemma items_rt {T} (r : T → string → RI (T * bool)) w ok l :
  round_trips r w ok → Forall ok l → ∃ bs, writes (ser_items w l) bs l ∧
    ∀ l0, length l0 = length l → reads (ser_items r l0) bs l.
Proof.
  intros Hrt. induction 1 as [|x l Hx _ (bs & Hw & Hr)].
  { exists []. split; [apply writes_ret|]. intros [|] ?; [apply reads_ret|done]. }
  destruct (Hrt x EmptyString Hx) as (bs1 & Hw1 & Hr1).
  exists (bs1 ++ bs). split.
  - cbn [ser_items]. eapply writes_bind; [exact Hw1|]. cbn match.
    apply (writes_bind_ret (ser_items w l) (cons x)), Hw.
  - intros [|y l0] Hl; [done|]. cbn [ser_items]. eapply reads_bind; [apply Hr1|]. cbn match.
    apply (reads_bind_ret (ser_items r l0) (cons x)), Hr. simpl in Hl. lia.
Qed.

Lemma object_round {T} (r : T → RI T) (w : T → WO T) (ok : T → Prop) :
  (∀ v, ok v → ∃ bs, writes (w v) bs v ∧ ∀ v0, reads (r v0) bs v) → round_trips (in_object r) (in_object w) ok.
Proof.
  intros Hrt v name Hv. destruct (Hrt v Hv) as (bs & Hw & Hr). exists bs. split.
  - unfold in_object. cbn [beginObject endObject BinaryOutputStreamSerializer_ser].
    exact (writes_bind_ret (w v) (λ x, (x, true)) bs v Hw).
  - intros v0. exact (reads_bind_ret (r v0) (λ x, (x, true)) bs v (Hr v0)).
Qed.

Section Items.
Context {T : Type} (r : T → string → RI (T * bool)) (w : T → string → WO (T * bool)).
Context (ok : T → Prop) (Hcodec : ncodec r w ok).

Lemma items_canon l0 :
  consumes (ser_items r l0) (λ l bs,
    length l = length l0 ∧ Forall ok l ∧ writes (ser_items w l) bs l).
Proof using Hcodec.
  induction l0 as [|y l0 IH]; cbn [ser_items].
  { apply consumes_ret. split_and!; [done|constructor|apply writes_ret]. }
  eapply consumes_bind; [apply (ncodec_canon _ _ _ Hcodec)|].
  intros [x b] bs (_ & Hx & Hw). cbn [fst] in *. cbn match.
  eapply consumes_bind; [exact IH|]. intros l bs' (Hl & Hok & Hw').
  apply consumes_ret. rewrite app_nil_r.
  split_and!; [simpl; lia|by constructor|]. cbn [ser_items].
  eapply writes_bind; [exact Hw|]. cbn match.
  apply (writes_bind_ret (ser_items w l) (cons x)), Hw'.
Qed.

Lemma length_resize n (d : T) l : length (resize n d l) = n.
Proof using. unfold resize. rewrite length_app, length_take, length_replicate. lia. Qed.

Lemma resize_same (d : T) l : resize (length l) d l = l.
Proof using. unfold resize. rewrite Nat.sub_diag, take_ge by done. apply app_nil_r. Qed.

Lemma container_ncodec d :
  ncodec (serializeContainer d r) (serializeContainer d w)
    (λ l, Forall ok l ∧ Z.of_nat (length l) <= max_read_size).
Proof using Hcodec.
  assert (∀ l bs1 bs2 name,
    writes (bos_varint (So := So) (Z.of_nat (length l)) name) bs1 (Z.of_nat (length l), true) →
    writes (ser_items w l) bs2 l →
    writes (serializeContainer d w l name) (bs1 ++ bs2) (l, true)) as Hwr.
  { intros l bs1 bs2 name Hw1 Hw2. unfold serializeContainer.
    eapply writes_bind; [exact Hw1|]. cbn match. cbn [negb]. rewrite Nat2Z.id, resize_same.
    exact (writes_bind_ret (ser_items w l) (λ x, (x, true)) bs2 l Hw2). }
  split.
  - intros l name [Hok Hl]. destruct (items_rt r w ok l (ncodec_rt _ _ _ Hcodec) Hok) as (bs2 & Hw2 & Hr2).
    destruct (ncodec_rt _ _ _ beginArray_ncodec (Z.of_nat (length l)) name ltac:(cbv beta; lia))
      as (bs1 & Hw1 & Hr1).
    exists (bs1 ++ bs2). split; [by apply Hwr|]. intros v0. unfold serializeContainer.
    eapply reads_bind; [apply Hr1|]. cbn match. cbn [negb]. rewrite Nat2Z.id.
    refine (reads_bind_ret _ (λ x, (x, true)) bs2 l (Hr2 _ _)). apply length_resize.
  - intros v0 name. unfold serializeContainer.
    eapply consumes_bind; [apply (ncodec_canon _ _ _ beginArray_ncodec)|].
    intros [n b] bs1 (Hb & Hn & Hw1). cbn [fst snd] in *. subst b. cbn match. cbn [negb].
    refine (consumes_bind _ (λ x, mret (x, true)) _ _ (items_canon _) _).
    intros l bs2 (Hl & Hok & Hw2). rewrite length_resize in Hl. apply consumes_ret.
    rewrite app_nil_r. cbn [fst snd]. assert (n = Z.of_nat (length l)) as -> by lia.
    split_and!; [done..|lia|]. by apply Hwr.
Qed.
End Items.

Lemma bytes_codec name :
  codec (λ v, serializeAsBinary v name) (λ v, serializeAsBinary v name)
    (λ l, is_bytes l ∧ Z.of_nat (length l) <= max_read_size).
Proof.
  pose proof string_ncodec as [Hrt Hc].
  assert (∀ v bs, writes (bos_string (So := So) v name) bs (v, true) →
    writes (serializeAsBinary v name) bs v) as Hwr.
  { intros v bs Hw. rewrite <- (app_nil_r bs).
    refine (writes_bind _ _ bs [] (v, true) v Hw _). apply writes_ret. }
  split.
  - intros v Hv. destruct (Hrt v name Hv) as (bs & Hw & Hr). exists bs.
    split; [by apply Hwr|]. intros v0.
    rewrite <- (app_nil_r bs). refine (reads_bind _ _ bs [] (v, true) v (Hr []) _).
    apply reads_ret.
  - intros v0. refine (consumes_bind _ _ _ _ (Hc [] name) _).
    intros [v b] bs (_ & Hv & Hw). apply consumes_ret. rewrite app_nil_r.
    split; [done|]. by apply Hwr.
Qed.
End Codecs.
