(* ===== verification/CryptoNoteSerialization.v ===== *)
(** * Serialization of the chain's data ([src/src/CryptoNoteCore/CryptoNoteSerialization.cpp])

    One [serialize] function per structure, generic over the serializer as in
    the source, and the conversions of [CryptoNoteTools.h] to and from byte
    arrays.

    The theorems instantiate the functions at the two binary serializers: an
    encodable transaction or block survives the round trip, and a byte string
    the parser accepts is exactly the one the writer produces for the result, so
    that a hash of the bytes identifies the object. *)

From S2P Require Import Prelude Varint Streams Config CryptoNoteTypes Serialization.

Local Open Scope Z_scope.

Definition getSignaturesCount (input : TransactionInput) : Z :=
  match input with
  | InBase _ => 0
  | InKey txin => Z.of_nat (length (ki_outputIndexes txin))
  | InMultisignature txin => mi_signatureCount txin
  end.

(** [BinaryVariantTagGetter] on inputs and on output targets. *)
Definition input_tag (i : TransactionInput) : Z :=
  match i with InBase _ => 0xff | InKey _ => 0x2 | InMultisignature _ => 0x3 end.

Definition output_tag (o : TransactionOutputTarget) : Z :=
  match o with OutKey _ => 0x2 | OutMultisignature _ => 0x3 end.

Record TransactionExtraMergeMiningTag := { mm_depth : Z; mm_merkleRoot : Hash }.

Section Serialize.
Context {St : Type} `{!ISerializer St}.

(** [serializePod] for the structures that are their bytes. *)
Definition serializePod (sizeof_v : Z) (v : list Z) (name : string) : M St (list Z * bool) :=
  ser_binary sizeof_v v name.

Definition serialize_key (v : PublicKey) (name : string) : M St (list Z * bool) :=
  serializePod 32 v name.
Definition serialize_hash (v : Hash) (name : string) : M St (list Z * bool) :=
  serializePod 32 v name.

(** [serializer.binary(&n, sizeof(n), name)] of an integer of [n] bytes. *)
Definition ser_raw_uint (size : nat) (v : Z) (name : string) : M St Z :=
  '(bs, _) ← ser_binary (Z.of_nat size) (le_bytes size v) name; mret (le_value bs).

Definition serializeVarintVector (vector : list Z) (name : string) : M St (list Z * bool) :=
  '(size, ok) ← beginArray (Z.of_nat (length vector)) name;
  if negb ok then mret ([], false)
  else
    vector ← ser_items ser_uint32 (resize (Z.to_nat size) 0 vector);
    endArray;; mret (vector, true).

Definition serialize_BaseInput (gen : BaseInput) : M St BaseInput :=
  '(blockIndex, _) ← ser_uint32 (bi_blockIndex gen) "height";
  mret {| bi_blockIndex := blockIndex |}.

Definition serialize_KeyInput (key : KeyInput) : M St KeyInput :=
  '(amount, _) ← ser_uint64 (ki_amount key) "amount";
  '(outputIndexes, _) ← serializeVarintVector (ki_outputIndexes key) "key_offsets";
  '(keyImage, _) ← serialize_key (ki_keyImage key) "k_image";
  mret {| ki_amount := amount; ki_outputIndexes := outputIndexes; ki_keyImage := keyImage |}.

Definition serialize_MultisignatureInput (m : MultisignatureInput) : M St MultisignatureInput :=
  '(amount, _) ← ser_uint64 (mi_amount m) "amount";
  '(signatureCount, _) ← ser_uint8 (mi_signatureCount m) "signatures";
  '(outputIndex, _) ← ser_uint32 (mi_outputIndex m) "outputIndex";
  '(term, _) ← ser_uint32 (mi_term m) "term";
  mret {| mi_amount := amount; mi_signatureCount := signatureCount;
          mi_outputIndex := outputIndex; mi_term := term |}.

Definition serialize_KeyOutput (key : KeyOutput) : M St KeyOutput :=
  '(k, _) ← serialize_key (ko_key key) "key"; mret {| ko_key := k |}.

Definition serialize_MultisignatureOutput (m : MultisignatureOutput)
    : M St MultisignatureOutput :=
  '(keys, _) ← serializeContainer (replicate 32 0) serialize_key (mo_keys m) "keys";
  '(required, _) ← ser_uint8 (mo_requiredSignatureCount m) "required_signatures";
  '(term, _) ← ser_uint32 (mo_term m) "term";
  mret {| mo_keys := keys; mo_requiredSignatureCount := required; mo_term := term |}.

(** [getVariantValue] for inputs. *)
Definition getVariantValue_input (tag : Z) : M St TransactionInput :=
  if tag =? 0xff then
    '(v, _) ← in_object serialize_BaseInput {| bi_blockIndex := 0 |} "value"; mret (InBase v)
  else if tag =? 0x2 then
    '(v, _) ← in_object serialize_KeyInput default_KeyInput "value"; mret (InKey v)
  else if tag =? 0x3 then
    '(v, _) ← in_object serialize_MultisignatureInput default_MultisignatureInput "value";
    mret (InMultisignature v)
  else throw "Unknown variant tag".

(** [getVariantValue] for output targets. *)
Definition getVariantValue_output (tag : Z) : M St TransactionOutputTarget :=
  if tag =? 0x2 then
    '(v, _) ← in_object serialize_KeyOutput default_KeyOutput "data"; mret (OutKey v)
  else if tag =? 0x3 then
    '(v, _) ← in_object serialize_MultisignatureOutput default_MultisignatureOutput "data";
    mret (OutMultisignature v)
  else throw "Unknown variant tag".

(** [VariantSerializer] applied to an input. *)
Definition VariantSerializer_input (i : TransactionInput) (name : string)
    : M St TransactionInput :=
  match i with
  | InBase v => '(v, _) ← in_object serialize_BaseInput v name; mret (InBase v)
  | InKey v => '(v, _) ← in_object serialize_KeyInput v name; mret (InKey v)
  | InMultisignature v =>
      '(v, _) ← in_object serialize_MultisignatureInput v name; mret (InMultisignature v)
  end.

Definition VariantSerializer_output (o : TransactionOutputTarget) (name : string)
    : M St TransactionOutputTarget :=
  match o with
  | OutKey v => '(v, _) ← in_object serialize_KeyOutput v name; mret (OutKey v)
  | OutMultisignature v =>
      '(v, _) ← in_object serialize_MultisignatureOutput v name; mret (OutMultisignature v)
  end.

Definition serialize_TransactionInput (i : TransactionInput) : M St TransactionInput :=
  if decide (ser_type = OUTPUT) then
    '(_, _) ← ser_binary 1 [input_tag i] "type";
    VariantSerializer_input i "value"
  else
    '(tag, _) ← ser_binary 1 [0] "type";
    getVariantValue_input (le_value tag).

Definition serialize_TransactionOutputTarget (o : TransactionOutputTarget)
    : M St TransactionOutputTarget :=
  if decide (ser_type = OUTPUT) then
    '(_, _) ← ser_binary 1 [output_tag o] "type";
    VariantSerializer_output o "data"
  else
    '(tag, _) ← ser_binary 1 [0] "type";
    getVariantValue_output (le_value tag).

Definition serialize_TransactionOutput (o : TransactionOutput) : M St TransactionOutput :=
  '(amount, _) ← ser_uint64 (out_amount o) "amount";
  '(target, _) ← in_object serialize_TransactionOutputTarget (out_target o) "target";
  mret {| out_amount := amount; out_target := target |}.

Definition serialize_TransactionPrefix (txP : TransactionPrefix) : M St TransactionPrefix :=
  '(version, _) ← ser_uint8 (version txP) "version";
  if TRANSACTION_VERSION_2 <? version then throw "Wrong transaction version"
  else
    '(unlockTime, _) ← ser_uint64 (unlockTime txP) "unlock_time";
    '(inputs, _) ← serializeContainer default_TransactionInput
                     (in_object serialize_TransactionInput) (inputs txP) "vin";
    '(outputs, _) ← serializeContainer default_TransactionOutput
                     (in_object serialize_TransactionOutput) (outputs txP) "vout";
    extra ← serializeAsBinary (extra txP) "extra";
    mret {| version := version; unlockTime := unlockTime; inputs := inputs;
            outputs := outputs; extra := extra |}.

(** The signatures of one input when reading: as many as the input asks for. *)
Definition sigs_error := "Serialization error: unexpected signatures size"%string.

(** The loop over the inputs: [sigs] are the entries of [tx.signatures] not
    yet visited. *)
Fixpoint serialize_signatures (signaturesNotExpected : bool) (ins : list TransactionInput)
    (sigs : list (list Signature)) : M St (list (list Signature)) :=
  match ins with
  | [] => mret sigs
  | i :: ins' =>
      let signatureSize := getSignaturesCount i in
      if signaturesNotExpected then
        if signatureSize =? 0 then serialize_signatures signaturesNotExpected ins' sigs
        else throw "Serialization error: signatures are not expected"
      else
        match sigs with
        | [] => abort
        | sig :: sigs' =>
            sig ←
              (if decide (ser_type = OUTPUT) then
                 if negb (signatureSize =? Z.of_nat (length sig)) then throw sigs_error
                 else ser_items (serializePod 64) sig
               else
                 ser_items (serializePod 64)
                   (replicate (Z.to_nat signatureSize) (replicate 64 0)));
            rest ← serialize_signatures signaturesNotExpected ins' sigs';
            mret (sig :: rest)
        end
  end.

Definition serialize_Transaction (tx : Transaction) : M St Transaction :=
  prefix ← serialize_TransactionPrefix tx;
  let sigSize := length (inputs prefix) in
  let sigs := if decide (ser_type = INPUT) then resize sigSize [] (signatures tx)
              else signatures tx in
  let signaturesNotExpected := bool_decide (sigs = []) in
  if negb signaturesNotExpected && negb (length (inputs prefix) =? length sigs)%nat
  then throw sigs_error
  else
    sigs ← serialize_signatures signaturesNotExpected (inputs prefix) sigs;
    mret {| tx_prefix := prefix; signatures := sigs |}.

Definition serializeBlockHeader (header : BlockHeader) : M St BlockHeader :=
  '(majorVersion, _) ← ser_uint8 (majorVersion header) "major_version";
  if BLOCK_MAJOR_VERSION_3 <? majorVersion then throw "Wrong major version"
  else
    '(minorVersion, _) ← ser_uint8 (minorVersion header) "minor_version";
    '(timestamp, _) ← ser_uint64 (timestamp header) "timestamp";
    '(previousBlockHash, _) ← serialize_hash (previousBlockHash header) "prev_id";
    nonce ← ser_raw_uint 4 (nonce header) "nonce";
    mret {| majorVersion := majorVersion; minorVersion := minorVersion; nonce := nonce;
            timestamp := timestamp; previousBlockHash := previousBlockHash |}.

Definition serialize_Block (block : Block) : M St Block :=
  header ← serializeBlockHeader block;
  '(baseTransaction, _) ← in_object serialize_Transaction (baseTransaction block) "miner_tx";
  '(transactionHashes, _) ← serializeContainer (replicate 32 0) serialize_hash
                              (transactionHashes block) "tx_hashes";
  mret {| block_header := header; baseTransaction := baseTransaction;
          transactionHashes := transactionHashes |}.

Definition serialize_AccountPublicAddress (a : AccountPublicAddress)
    : M St AccountPublicAddress :=
  '(spend, _) ← serialize_key (spendPublicKey a) "m_spend_public_key";
  '(view, _) ← serialize_key (viewPublicKey a) "m_view_public_key";
  mret {| spendPublicKey := spend; viewPublicKey := view |}.

Definition serialize_AccountKeys (keys : AccountKeys) : M St AccountKeys :=
  '(addr, _) ← in_object serialize_AccountPublicAddress (address keys) "m_account_address";
  '(spend, _) ← serialize_key (spendSecretKey keys) "m_spend_secret_key";
  '(view, _) ← serialize_key (viewSecretKey keys) "m_view_secret_key";
  mret {| address := addr; spendSecretKey := spend; viewSecretKey := view |}.

Definition serialize_KeyPair (keyPair : KeyPair) : M St KeyPair :=
  '(sec, _) ← serialize_key (secretKey keyPair) "secret_key";
  '(pub, _) ← serialize_key (publicKey keyPair) "public_key";
  mret {| publicKey := pub; secretKey := sec |}.

Definition doSerialize_MergeMiningTag (tag : TransactionExtraMergeMiningTag)
    : M St TransactionExtraMergeMiningTag :=
  '(depth, _) ← ser_uint64 (mm_depth tag) "depth";
  '(merkleRoot, _) ← serialize_hash (mm_merkleRoot tag) "merkle_root";
  mret {| mm_depth := depth; mm_merkleRoot := merkleRoot |}.
End Serialize.

(** [serialize(TransactionExtraMergeMiningTag&)]: the fields go through a
    string of their own. *)
Definition serialize_MergeMiningTag {St} `{!ISerializer St} (tag : TransactionExtraMergeMiningTag)
    : M St TransactionExtraMergeMiningTag :=
  if decide (ser_type = OUTPUT) then
    '(_, os) ← lift (doSerialize_MergeMiningTag tag (BOS {| sos_out := [] |}));
    '(_, _) ← ser_string (sos_out (bos_stream os)) EmptyString;
    mret tag
  else
    '(field, _) ← ser_string [] EmptyString;
    '(tag, _) ← lift (doSerialize_MergeMiningTag tag (BIS (new_MemoryInputStream field)));
    mret tag.

(** ** Byte arrays ([CryptoNoteTools.h]) *)

(** [toBinaryArray(object, binaryArray)]: [None] where it returns false; the
    array is appended to. *)
Definition toBinaryArray {T}
    (serialize : T → M (BinaryOutputStreamSerializer VectorOutputStream) T)
    (object : T) (binaryArray : BinaryArray) : outcome (option BinaryArray) :=
  match serialize object (BOS {| vos_out := binaryArray |}) with
  | Ret (_, s) => Ret (Some (vos_out (bos_stream s)))
  | Throw _ => Ret None
  | Abort => Abort
  end.

(** [fromBinaryArray(object, binaryArray)]: the result is accepted only when
    all bytes were consumed. *)
Definition fromBinaryArray {T}
    (serialize : T → M (BinaryInputStreamSerializer MemoryInputStream) T)
    (object : T) (binaryArray : BinaryArray) : outcome (option T) :=
  match serialize object (BIS (new_MemoryInputStream binaryArray)) with
  | Ret (v, s) => Ret (if mis_endOfStream (bis_stream s) then Some v else None)
  | Throw _ => Ret None
  | Abort => Abort
  end.

Definition getObjectBinarySize {T} serialize (object : T) : outcome Z :=
  r ← toBinaryArray serialize object [];
  mret (match r with None => UINT64_MAX | Some ba => u64 (Z.of_nat (length ba)) end).

Definition getObjectHash {T} (cn_fast_hash : list Z → Hash) serialize (object : T)
    : outcome Hash :=
  r ← toBinaryArray serialize object [];
  mret (match r with None => NULL_HASH | Some ba => cn_fast_hash ba end).

(** ** What can be encoded *)

Definition small_list {A} (l : list A) : Prop := Z.of_nat (length l) <= max_read_size.

Definition enc_BaseInput (i : BaseInput) : Prop := is_u32 (bi_blockIndex i).

Definition enc_KeyInput (i : KeyInput) : Prop :=
  is_u64 (ki_amount i) ∧
  (Forall (in_range 32) (ki_outputIndexes i) ∧ small_list (ki_outputIndexes i)) ∧
  is_pod 32 (ki_keyImage i).

Definition enc_MultisignatureInput (i : MultisignatureInput) : Prop :=
  is_u64 (mi_amount i) ∧ is_u8 (mi_signatureCount i) ∧ is_u32 (mi_outputIndex i) ∧
  is_u32 (mi_term i).

Definition enc_TransactionInput (i : TransactionInput) : Prop :=
  match i with
  | InBase i => enc_BaseInput i
  | InKey i => enc_KeyInput i
  | InMultisignature i => enc_MultisignatureInput i
  end.

Definition enc_KeyOutput (o : KeyOutput) : Prop := is_pod 32 (ko_key o).

Definition enc_MultisignatureOutput (o : MultisignatureOutput) : Prop :=
  (Forall (is_pod 32) (mo_keys o) ∧ small_list (mo_keys o)) ∧
  is_u8 (mo_requiredSignatureCount o) ∧ is_u32 (mo_term o).

Definition enc_TransactionOutputTarget (o : TransactionOutputTarget) : Prop :=
  match o with
  | OutKey o => enc_KeyOutput o
  | OutMultisignature o => enc_MultisignatureOutput o
  end.

Definition enc_TransactionOutput (o : TransactionOutput) : Prop :=
  is_u64 (out_amount o) ∧ enc_TransactionOutputTarget (out_target o).

Definition enc_TransactionPrefix (t : TransactionPrefix) : Prop :=
  (is_u8 (version t) ∧ version t <= TRANSACTION_VERSION_2) ∧ is_u64 (unlockTime t) ∧
  (Forall enc_TransactionInput (inputs t) ∧ small_list (inputs t)) ∧
  (Forall enc_TransactionOutput (outputs t) ∧ small_list (outputs t)) ∧
  (is_bytes (extra t) ∧ small_list (extra t)).

(** Each input has its number of signatures. *)
Definition sigs_match (i : TransactionInput) (sig : list Signature) : Prop :=
  getSignaturesCount i = Z.of_nat (length sig) ∧ Forall (is_pod 64) sig.

Definition enc_Transaction (t : Transaction) : Prop :=
  enc_TransactionPrefix t ∧ Forall2 sigs_match (inputs t) (signatures t).

Definition enc_BlockHeader (h : BlockHeader) : Prop :=
  (is_u8 (majorVersion h) ∧ majorVersion h <= BLOCK_MAJOR_VERSION_3) ∧
  is_u8 (minorVersion h) ∧ is_u64 (timestamp h) ∧ is_pod 32 (previousBlockHash h) ∧
  is_u32 (nonce h).

Definition enc_Block (b : Block) : Prop :=
  enc_BlockHeader b ∧ enc_Transaction (baseTransaction b) ∧
  (Forall (is_pod 32) (transactionHashes b) ∧ small_list (transactionHashes b)).

(** Encodability is decidable. *)
#[export] Instance small_list_dec {A} (l : list A) : Decision (small_list l).
Proof. unfold small_list. apply _. Defined.
#[export] Instance enc_BaseInput_dec x : Decision (enc_BaseInput x).
Proof. unfold enc_BaseInput. apply _. Defined.
#[export] Instance enc_KeyInput_dec x : Decision (enc_KeyInput x).
Proof. unfold enc_KeyInput. apply _. Defined.
#[export] Instance enc_MultisignatureInput_dec x : Decision (enc_MultisignatureInput x).
Proof. unfold enc_MultisignatureInput. apply _. Defined.
#[export] Instance enc_TransactionInput_dec x : Decision (enc_TransactionInput x).
Proof. destruct x; apply _. Defined.
#[export] Instance enc_KeyOutput_dec x : Decision (enc_KeyOutput x).
Proof. unfold enc_KeyOutput. apply _. Defined.
#[export] Instance enc_MultisignatureOutput_dec x : Decision (enc_MultisignatureOutput x).
Proof. unfold enc_MultisignatureOutput. apply _. Defined.
#[export] Instance enc_TransactionOutputTarget_dec x : Decision (enc_TransactionOutputTarget x).
Proof. destruct x; apply _. Defined.
#[export] Instance enc_TransactionOutput_dec x : Decision (enc_TransactionOutput x).
Proof. unfold enc_TransactionOutput. apply _. Defined.
#[export] Instance enc_TransactionPrefix_dec x : Decision (enc_TransactionPrefix x).
Proof. unfold enc_TransactionPrefix. apply _. Defined.
#[export] Instance sigs_match_dec i s : Decision (sigs_match i s).
Proof. unfold sigs_match. apply _. Defined.
#[export] Instance enc_Transaction_dec x : Decision (enc_Transaction x).
Proof. unfold enc_Transaction. apply _. Defined.
#[export] Instance enc_BlockHeader_dec x : Decision (enc_BlockHeader x).
Proof. unfold enc_BlockHeader. apply _. Defined.
#[export] Instance enc_Block_dec x : Decision (enc_Block x).
Proof. unfold enc_Block. apply _. Defined.

(** ** Codecs of the structures *)

#[local] Opaque bis_varint bis_string bis_binary bis_beginArray.
#[local] Opaque bos_varint bos_string bos_binary reads writes consumes.

(** One field: the bytes written for a value of [Hok]. *)
Ltac field Hnc Hok name W R :=
  let bs := fresh "bs" in
  destruct (ncodec_rt _ _ _ Hnc _ name Hok) as (bs & W & R).

Ltac head_of t := lazymatch t with ?f _ => head_of f | _ => t end.

(** Walks a sequence of writes, or of reads, whose pieces are hypotheses. *)
Ltac writes_seq :=
  try match goal with |- writes ?m _ _ => let h := head_of m in unfold h end;
  repeat (eapply writes_bind;
    [match goal with W : writes ?m _ _ |- writes ?m _ _ => exact W end|cbv beta match]);
  apply writes_ret.
Ltac reads_seq :=
  intros ?; try match goal with |- reads ?m _ _ => let h := head_of m in unfold h end;
  repeat (eapply reads_bind;
    [match goal with R : ∀ v, reads (?f v ?n) _ _ |- reads (?f ?v ?n) _ _ => exact (R v) end
    |cbv beta match]); apply reads_ret.

(** One field of a reader. *)
Ltac consume Hnc :=
  eapply consumes_bind; [apply (ncodec_canon _ _ _ Hnc)|];
  let x := fresh "x" in let b := fresh "b" in
  intros [x b] ? (_ & ? & ?); cbn [fst snd] in *; cbv beta match.
Ltac consumed := apply consumes_ret.

Section Codecs.
Context {Si So : Type} `{LawfulInput Si} `{LawfulOutput So}.
Abbreviation codec_of f ok := (codec (Si := Si) (So := So) f f ok).
Abbreviation ncodec_of f ok := (ncodec (Si := Si) (So := So) f f ok).

Lemma uint8_nc : ncodec_of ser_uint8 (in_range 8).
Proof. by apply varint_ncodec. Qed.
Lemma uint32_nc : ncodec_of ser_uint32 (in_range 32).
Proof. by apply varint_ncodec. Qed.
Lemma uint64_nc : ncodec_of ser_uint64 (in_range 64).
Proof. by apply varint_ncodec. Qed.
Lemma pod_nc n : ncodec_of (serializePod (Z.of_nat n)) (is_pod n).
Proof. apply (binary_ncodec n). Qed.
Lemma key_nc : ncodec_of serialize_key (is_pod 32).
Proof. apply (pod_nc 32). Qed.
Lemma hash_nc : ncodec_of serialize_hash (is_pod 32).
Proof. apply (pod_nc 32). Qed.
Lemma hashes_nc :
  ncodec_of (serializeContainer (replicate 32 0) serialize_hash)
    (λ l, Forall (is_pod 32) l ∧ small_list l).
Proof. apply (container_ncodec _ _ _ hash_nc). Qed.
Lemma varints_nc :
  ncodec_of serializeVarintVector (λ l, Forall (in_range 32) l ∧ small_list l).
Proof. apply (container_ncodec _ _ _ uint32_nc). Qed.
Lemma keys_nc :
  ncodec_of (serializeContainer (replicate 32 0) serialize_key)
    (λ l, Forall (is_pod 32) l ∧ small_list l).
Proof. apply (container_ncodec _ _ _ key_nc). Qed.

Lemma BaseInput_codec : codec_of serialize_BaseInput enc_BaseInput.
Proof.
  split.
  - intros [h] Hh. field uint32_nc Hh "height"%string W R.
    eexists. split; [writes_seq|reads_seq].
  - intros v0. consume uint32_nc. consumed. split; [done|writes_seq].
Qed.

Lemma KeyInput_codec : codec_of serialize_KeyInput enc_KeyInput.
Proof.
  split.
  - intros [a l k] (Ha & Hl & Hk). cbn in Ha, Hl, Hk. field uint64_nc Ha "amount"%string W1 R1.
    field varints_nc Hl "key_offsets"%string W2 R2. field key_nc Hk "k_image"%string W3 R3.
    eexists. split; [writes_seq|reads_seq].
  - intros v0. consume uint64_nc. consume varints_nc. consume key_nc. consumed.
    split; [done|writes_seq].
Qed.

Lemma MultisignatureInput_codec :
  codec_of serialize_MultisignatureInput enc_MultisignatureInput.
Proof.
  split.
  - intros [a c i t] (Ha & Hc & Hi & Ht). cbn in Ha, Hc, Hi, Ht. field uint64_nc Ha "amount"%string W1 R1.
    field uint8_nc Hc "signatures"%string W2 R2. field uint32_nc Hi "outputIndex"%string W3 R3.
    field uint32_nc Ht "term"%string W4 R4.
    eexists. split; [writes_seq|reads_seq].
  - intros v0. consume uint64_nc. consume uint8_nc. consume uint32_nc. consume uint32_nc.
    consumed. split; [done|writes_seq].
Qed.

Lemma KeyOutput_codec : codec_of serialize_KeyOutput enc_KeyOutput.
Proof.
  split.
  - intros [k] Hk. field key_nc Hk "key"%string W1 R1. eexists. split; [writes_seq|reads_seq].
  - intros v0. consume key_nc. consumed. split; [done|writes_seq].
Qed.

Lemma MultisignatureOutput_codec :
  codec_of serialize_MultisignatureOutput enc_MultisignatureOutput.
Proof.
  split.
  - intros [l c t] (Hl & Hc & Ht). cbn in Hl, Hc, Ht. field keys_nc Hl "keys"%string W1 R1.
    field uint8_nc Hc "required_signatures"%string W2 R2. field uint32_nc Ht "term"%string W3 R3.
    eexists. split; [writes_seq|reads_seq].
  - intros v0. consume keys_nc. consume uint8_nc. consume uint32_nc. consumed.
    split; [done|writes_seq].
Qed.

(** The tag of a variant, one raw byte. *)
Lemma tag_writes t name :
  is_u8 t → writes (St := BinaryOutputStreamSerializer So) (ser_binary 1 [t] name) [t] ([t], true).
Proof. intros Ht. apply (binary_writes [t]). by constructor. Qed.

Lemma tag_reads t t0 name :
  reads (St := BinaryInputStreamSerializer Si) (ser_binary 1 t0 name) [t] ([t], true).
Proof. apply (binary_reads [t]). Qed.

Lemma tag_consumes t0 name :
  consumes (St := BinaryInputStreamSerializer Si) (ser_binary 1 t0 name)
    (λ v bs, ∃ t, v = ([t], true) ∧ bs = [t] ∧ is_u8 t).
Proof.
  eapply consumes_impl; [apply (binary_consumes 1)|].
  intros v bs (-> & Hb & Hl). destruct bs as [|t [|]]; [done| |done].
  apply Forall_cons_iff in Hb as [Hb _]. by exists t.
Qed.

Lemma input_output i :
  serialize_TransactionInput (St := BinaryOutputStreamSerializer So) i =
  ('(_, _) ← ser_binary 1 [input_tag i] "type"%string;
   VariantSerializer_input i "value"%string).
Proof. done. Qed.

Lemma input_input i :
  serialize_TransactionInput (St := BinaryInputStreamSerializer Si) i =
  ('(tag, _) ← ser_binary 1 [0] "type"%string; getVariantValue_input (le_value tag)).
Proof. done. Qed.

(** One alternative of a variant. *)
Section Alternative.
Context {T V : Type} (inj : T → V) (f_r : T → M (BinaryInputStreamSerializer Si) T).
Context (f_w : T → M (BinaryOutputStreamSerializer So) T) (ok : T → Prop).
Context (Hc : codec f_r f_w ok) (name : string).

Lemma alternative_rt v :
  ok v → ∃ bs,
    writes ('(v, _) ← in_object f_w v name; mret (inj v)) bs (inj v) ∧
    ∀ v0, reads ('(v, _) ← in_object f_r v0 name; mret (inj v)) bs (inj v).
Proof using Hc.
  intros Hv. destruct (ncodec_rt _ _ _ (object_ncodec _ _ _ Hc) v name Hv) as (bs & W & R).
  exists (bs ++ []). split.
  - eapply writes_bind; [exact W|]. apply writes_ret.
  - intros v0. eapply reads_bind; [exact (R v0)|]. apply reads_ret.
Qed.

Lemma alternative_canon v0 :
  consumes ('(v, _) ← in_object f_r v0 name; mret (inj v)) (λ x bs,
    ∃ v, x = inj v ∧ ok v ∧
      writes ('(v, _) ← in_object f_w v name; mret (inj v)) bs (inj v)).
Proof using Hc.
  eapply consumes_bind; [apply (ncodec_canon _ _ _ (object_ncodec _ _ _ Hc))|].
  intros [v b] bs (_ & Hv & W). cbn [fst snd] in *. cbv beta match. apply consumes_ret.
  exists v. split_and!; [done..|]. eapply writes_bind; [exact W|]. apply writes_ret.
Qed.
End Alternative.

Lemma TransactionInput_codec :
  codec_of serialize_TransactionInput enc_TransactionInput.
Proof.
  split.
  - intros v Hv. rewrite input_output.
    assert (∃ bs, writes (St := BinaryOutputStreamSerializer So)
        (VariantSerializer_input v "value"%string) bs v ∧
      reads (St := BinaryInputStreamSerializer Si)
        (getVariantValue_input (input_tag v)) bs v) as (bs & W & R).
    { destruct v as [i|i|i].
      - destruct (alternative_rt InBase _ _ _ BaseInput_codec "value"%string i Hv)
          as (bs & W & R). eexists. split; [exact W|apply R].
      - destruct (alternative_rt InKey _ _ _ KeyInput_codec "value"%string i Hv)
          as (bs & W & R). eexists. split; [exact W|apply R].
      - destruct (alternative_rt InMultisignature _ _ _ MultisignatureInput_codec
          "value"%string i Hv) as (bs & W & R). eexists. split; [exact W|apply R]. }
    exists ([input_tag v] ++ bs). split.
    + eapply writes_bind; [apply tag_writes; by destruct v|exact W].
    + intros v0. rewrite input_input. eapply reads_bind; [apply tag_reads|].
      cbv beta match. by replace (le_value [input_tag v]) with (input_tag v)
        by (cbn [le_value]; lia).
  - intros v0. rewrite input_input. eapply consumes_bind; [apply tag_consumes|].
    intros x bs (t & -> & -> & Ht). cbv beta match.
    replace (le_value [t]) with t by (cbn [le_value]; lia). unfold getVariantValue_input.
    destruct (t =? 255) eqn:E1; [|destruct (t =? 2) eqn:E2; [|destruct (t =? 3) eqn:E3]];
      bool_to_prop; subst; [..|apply consumes_throw].
    all: eapply consumes_impl; [apply alternative_canon;
      first [apply BaseInput_codec|apply KeyInput_codec|apply MultisignatureInput_codec]|].
    all: intros x bs (v & -> & Hv & W); split; [exact Hv|].
    all: rewrite input_output; eapply writes_bind; [by apply tag_writes|exact W].
Qed.

Lemma output_output o :
  serialize_TransactionOutputTarget (St := BinaryOutputStreamSerializer So) o =
  ('(_, _) ← ser_binary 1 [output_tag o] "type"%string;
   VariantSerializer_output o "data"%string).
Proof. done. Qed.

Lemma output_input o :
  serialize_TransactionOutputTarget (St := BinaryInputStreamSerializer Si) o =
  ('(tag, _) ← ser_binary 1 [0] "type"%string; getVariantValue_output (le_value tag)).
Proof. done. Qed.

Lemma TransactionOutputTarget_codec :
  codec_of serialize_TransactionOutputTarget enc_TransactionOutputTarget.
Proof.
  split.
  - intros v Hv. rewrite output_output.
    assert (∃ bs, writes (St := BinaryOutputStreamSerializer So)
        (VariantSerializer_output v "data"%string) bs v ∧
      reads (St := BinaryInputStreamSerializer Si)
        (getVariantValue_output (output_tag v)) bs v) as (bs & W & R).
    { destruct v as [i|i].
      - destruct (alternative_rt OutKey _ _ _ KeyOutput_codec "data"%string i Hv)
          as (bs & W & R). eexists. split; [exact W|apply R].
      - destruct (alternative_rt OutMultisignature _ _ _ MultisignatureOutput_codec
          "data"%string i Hv) as (bs & W & R). eexists. split; [exact W|apply R]. }
    exists ([output_tag v] ++ bs). split.
    + eapply writes_bind; [apply tag_writes; by destruct v|exact W].
    + intros v0. rewrite output_input. eapply reads_bind; [apply tag_reads|].
      cbv beta match. by replace (le_value [output_tag v]) with (output_tag v)
        by (cbn [le_value]; lia).
  - intros v0. rewrite output_input. eapply consumes_bind; [apply tag_consumes|].
    intros x bs (t & -> & -> & Ht). cbv beta match.
    replace (le_value [t]) with t by (cbn [le_value]; lia). unfold getVariantValue_output.
    destruct (t =? 2) eqn:E1; [|destruct (t =? 3) eqn:E2]; bool_to_prop; subst;
      [..|apply consumes_throw].
    all: eapply consumes_impl; [apply alternative_canon;
      first [apply KeyOutput_codec|apply MultisignatureOutput_codec]|].
    all: intros x bs (v & -> & Hv & W); split; [exact Hv|].
    all: rewrite output_output; eapply writes_bind; [by apply tag_writes|exact W].
Qed.

Lemma TransactionOutput_codec :
  codec_of serialize_TransactionOutput enc_TransactionOutput.
Proof.
  pose proof (object_ncodec _ _ _ TransactionOutputTarget_codec) as target_nc. split.
  - intros [a t] (Ha & Ht). cbn in Ha, Ht. field uint64_nc Ha "amount"%string W1 R1.
    field target_nc Ht "target"%string W2 R2. eexists. split; [writes_seq|reads_seq].
  - intros v0. consume uint64_nc. consume target_nc. consumed. split; [done|writes_seq].
Qed.

Lemma TransactionPrefix_codec :
  codec_of serialize_TransactionPrefix enc_TransactionPrefix.
Proof.
  pose proof (container_ncodec _ _ _ (object_ncodec _ _ _ TransactionInput_codec)
    default_TransactionInput) as ins_nc.
  pose proof (container_ncodec _ _ _ (object_ncodec _ _ _ TransactionOutput_codec)
    default_TransactionOutput) as outs_nc.
  pose proof (bytes_codec (Si := Si) (So := So) "extra"%string) as [extra_rt extra_canon].
  split.
  - intros [v u i o e] ((Hv & Hv2) & Hu & Hi & Ho & He). cbn in Hv, Hv2, Hu, Hi, Ho, He.
    field uint8_nc Hv "version"%string W1 R1. field uint64_nc Hu "unlock_time"%string W2 R2.
    field ins_nc Hi "vin"%string W3 R3. field outs_nc Ho "vout"%string W4 R4.
    destruct (extra_rt e He) as (bs5 & W5 & R5).
    exists (bs ++ bs0 ++ bs1 ++ bs2 ++ bs5 ++ []). split; [|intros v0];
      unfold serialize_TransactionPrefix; cbn [version unlockTime inputs outputs extra].
    + eapply writes_bind; [exact W1|cbv beta match]. case_bool; [lia|]. writes_seq.
    + eapply reads_bind; [exact (R1 _)|cbv beta match]. case_bool; [lia|].
      eapply reads_bind; [exact (R2 _)|cbv beta match].
      eapply reads_bind; [exact (R3 _)|cbv beta match].
      eapply reads_bind; [exact (R4 _)|cbv beta match].
      eapply reads_bind; [exact (R5 _)|]. apply reads_ret.
  - intros v0. consume uint8_nc. case_bool; [apply consumes_throw|].
    consume uint64_nc. consume ins_nc. consume outs_nc.
    eapply consumes_bind; [apply extra_canon|]. intros e bse (He & We). consumed.
    split; [done|].
    unfold serialize_TransactionPrefix; cbn [version unlockTime inputs outputs extra].
    eapply writes_bind; [eassumption|cbv beta match]. case_bool; [lia|]. writes_seq.
Qed.

(** ** Signatures *)

Lemma sig_list_rt sig :
  Forall (is_pod 64) sig → ∃ bs,
    writes (St := BinaryOutputStreamSerializer So) (ser_items (serializePod 64) sig) bs sig ∧
    ∀ l0, length l0 = length sig →
      reads (St := BinaryInputStreamSerializer Si) (ser_items (serializePod 64) l0) bs sig.
Proof. apply (items_rt _ _ _ _ (ncodec_rt _ _ _ (pod_nc 64))). Qed.

Lemma signatures_write_cons i ins sig sigs bs1 bs :
  getSignaturesCount i = Z.of_nat (length sig) →
  writes (St := BinaryOutputStreamSerializer So) (ser_items (serializePod 64) sig) bs1 sig →
  writes (St := BinaryOutputStreamSerializer So) (serialize_signatures false ins sigs) bs sigs →
  writes (St := BinaryOutputStreamSerializer So)
    (serialize_signatures false (i :: ins) (sig :: sigs)) (bs1 ++ bs ++ []) (sig :: sigs).
Proof.
  intros Hn W1 W. cbn [serialize_signatures]. eapply writes_bind.
  { change (decide (ser_type = OUTPUT))
      with (left (A := OUTPUT = OUTPUT) (B := OUTPUT ≠ OUTPUT) eq_refl).
    cbv beta match. rewrite Hn, Z.eqb_refl. cbn [negb]. exact W1. }
  eapply writes_bind; [exact W|]. apply writes_ret.
Qed.

Lemma signatures_rt ins sigs :
  Forall2 sigs_match ins sigs → ∃ bs,
    writes (St := BinaryOutputStreamSerializer So) (serialize_signatures false ins sigs) bs sigs ∧
    ∀ sigs0, length sigs0 = length ins →
      reads (St := BinaryInputStreamSerializer Si) (serialize_signatures false ins sigs0) bs sigs.
Proof.
  induction 1 as [|i sig ins sigs [Hn Hp] _ (bs & W & R)].
  { exists []. split; [apply writes_ret|]. intros [|] ?; [apply reads_ret|done]. }
  destruct (sig_list_rt sig Hp) as (bs1 & W1 & R1).
  exists (bs1 ++ bs ++ []). split.
  - by apply signatures_write_cons.
  - intros [|s0 sigs0] Hl; [done|]. cbn [serialize_signatures]. eapply reads_bind.
    { apply R1. rewrite Hn, Nat2Z.id. apply length_replicate. }
    eapply reads_bind; [apply R; simpl in Hl; lia|]. apply reads_ret.
Qed.

Lemma signatures_canon ins : ∀ sigs0,
  Forall (λ i, 0 <= getSignaturesCount i) ins → length sigs0 = length ins →
  consumes (St := BinaryInputStreamSerializer Si) (serialize_signatures false ins sigs0)
    (λ sigs bs, Forall2 sigs_match ins sigs ∧
      writes (St := BinaryOutputStreamSerializer So)
        (serialize_signatures false ins sigs) bs sigs).
Proof.
  induction ins as [|i ins IH]; intros sigs0 Hpos Hl.
  { destruct sigs0; [|done]. apply consumes_ret. split; [constructor|apply writes_ret]. }
  destruct sigs0 as [|s0 sigs0]; [done|]. apply Forall_cons_iff in Hpos as [Hi Hpos].
  cbv beta in Hi. cbn [serialize_signatures]. eapply consumes_bind; [apply (items_canon _ _ _ (pod_nc 64))|].
  intros sig bs1 (Hn & Hp & W1). rewrite length_replicate in Hn.
  eapply consumes_bind; [apply IH; [done|simpl in Hl; lia]|].
  intros sigs bs (Hm & W). apply consumes_ret.
  assert (getSignaturesCount i = Z.of_nat (length sig)) as Hc.
  { rewrite <- (Z2Nat.id (getSignaturesCount i)) by done. f_equal. symmetry. exact Hn. }
  split; [by constructor; [split|]|]. by apply signatures_write_cons.
Qed.

Lemma enc_input_count i : enc_TransactionInput i → 0 <= getSignaturesCount i.
Proof.
  destruct i as [i|i|i]; cbn; [lia|lia|]. intros (_ & [? _] & _). done.
Qed.

Abbreviation WO := (BinaryOutputStreamSerializer So).
Abbreviation RI := (BinaryInputStreamSerializer Si).

(** The part of [serialize(Transaction&)] behind the prefix, in each
    direction. *)
Lemma Transaction_write_tail (p : TransactionPrefix) sigs bs :
  length (inputs p) = length sigs →
  writes (St := WO) (serialize_signatures false (inputs p) sigs) bs sigs →
  writes (St := WO) (
    if negb (bool_decide (sigs = [])) && negb (length (inputs p) =? length sigs)%nat
    then throw sigs_error
    else sigs ← serialize_signatures (bool_decide (sigs = [])) (inputs p) sigs;
         mret {| tx_prefix := p; signatures := sigs |})
    (bs ++ []) {| tx_prefix := p; signatures := sigs |}.
Proof.
  intros Hl W. rewrite Hl, Nat.eqb_refl, andb_false_r. eapply writes_bind; [|apply writes_ret].
  destruct sigs as [|x sigs]; [|by rewrite bool_decide_eq_false_2].
  by destruct (inputs p).
Qed.

Lemma Transaction_codec : codec_of serialize_Transaction enc_Transaction.
Proof.
  pose proof TransactionPrefix_codec as [prt pcanon]. split.
  - intros [p sigs] [Hp Hs]. cbn in Hp, Hs. destruct (prt p Hp) as (bs1 & W1 & R1).
    destruct (signatures_rt (inputs p) sigs Hs) as (bs2 & W2 & R2).
    pose proof (Forall2_length Hs) as Hl.
    exists (bs1 ++ bs2 ++ []). split.
    + eapply writes_bind; [exact W1|]. by apply Transaction_write_tail.
    + intros v0. eapply reads_bind; [exact (R1 _)|]. cbv zeta.
      change (decide (ser_type = INPUT))
        with (left (A := INPUT = INPUT) (B := INPUT ≠ INPUT) eq_refl). cbv beta match.
      rewrite length_resize, Nat.eqb_refl, andb_false_r.
      eapply reads_bind; [|apply reads_ret].
      specialize (R2 (resize (length (inputs p)) [] (signatures v0)) (length_resize _ _ _)).
      destruct (decide (inputs p = [])) as [E|E].
      * rewrite E in *. by destruct sigs.
      * rewrite bool_decide_eq_false_2; [exact R2|].
        intros E0%(f_equal length). rewrite length_resize in E0. by destruct (inputs p).
  - intros v0. eapply consumes_bind; [apply pcanon|]. intros p bs1 (Hp & W1). cbv zeta.
    change (decide (ser_type = INPUT))
      with (left (A := INPUT = INPUT) (B := INPUT ≠ INPUT) eq_refl). cbv beta match.
    rewrite length_resize, Nat.eqb_refl, andb_false_r.
    assert (Hpos : Forall (λ i, 0 <= getSignaturesCount i) (inputs p)).
    { destruct Hp as (_ & _ & [Hi _] & _). eapply Forall_impl; [|exact Hi].
      apply enc_input_count. }
    eapply consumes_bind with (P := λ sigs bs, Forall2 sigs_match (inputs p) sigs ∧
      writes (St := WO) (serialize_signatures false (inputs p) sigs) bs sigs).
    { pose proof (signatures_canon (inputs p) (resize (length (inputs p)) [] (signatures v0))
        Hpos (length_resize _ _ _)) as Hcan.
      destruct (decide (inputs p = [])) as [E|E].
      - rewrite E in *. exact Hcan.
      - rewrite bool_decide_eq_false_2; [exact Hcan|].
        intros E0%(f_equal length). rewrite length_resize in E0. by destruct (inputs p). }
    intros sigs bs2 (Hm & W2). consumed. split; [by split|].
    eapply writes_bind; [exact W1|]. cbv zeta. apply Transaction_write_tail; [|done].
    by eapply Forall2_length.
Qed.

(** ** Blocks and keys *)

Lemma raw_uint_codec n name :
  codec (Si := Si) (So := So) (λ v, ser_raw_uint n v name) (λ v, ser_raw_uint n v name)
    (in_range (8 * Z.of_nat n)).
Proof.
  assert (∀ v, in_range (8 * Z.of_nat n) v →
    writes (St := WO) (ser_raw_uint n v name) (le_bytes n v ++ []) v) as Hw.
  { intros v Hv. unfold ser_raw_uint. eapply writes_bind.
    - pose proof (binary_writes (So := So) (le_bytes n v) name (le_bytes_bytes _ _)) as W.
      rewrite le_bytes_length in W. exact W.
    - cbv beta match. rewrite le_value_bytes, Z.mod_small by exact Hv. apply writes_ret. }
  split.
  - intros v Hv. exists (le_bytes n v ++ []). split; [by apply Hw|]. intros v0.
    unfold ser_raw_uint. eapply reads_bind.
    + pose proof (binary_reads (Si := Si) (le_bytes n v) (le_bytes n v0) name) as R.
      rewrite le_bytes_length in R. exact R.
    + cbv beta match. rewrite le_value_bytes, Z.mod_small by exact Hv. apply reads_ret.
  - intros v0. unfold ser_raw_uint. eapply consumes_bind; [apply (binary_consumes n)|].
    intros x bs (-> & Hb & Hl). cbv beta match. consumed.
    pose proof (le_value_range bs Hb) as Hr. rewrite Hl in Hr. split; [exact Hr|].
    specialize (Hw (le_value bs) Hr). rewrite <- Hl in Hw at 2.
    rewrite le_bytes_value in Hw by done. exact Hw.
Qed.

Lemma BlockHeader_codec : codec_of serializeBlockHeader enc_BlockHeader.
Proof.
  pose proof (raw_uint_codec 4 "nonce"%string) as [nrt ncanon]. split.
  - intros [ma mi n t h] ((Hma & Hma3) & Hmi & Ht & Hh & Hn). cbn in Hma, Hma3, Hmi, Ht, Hh, Hn.
    field uint8_nc Hma "major_version"%string W1 R1.
    field uint8_nc Hmi "minor_version"%string W2 R2.
    field uint64_nc Ht "timestamp"%string W3 R3. field hash_nc Hh "prev_id"%string W4 R4.
    destruct (nrt n Hn) as (bs5 & W5 & R5).
    exists (bs ++ bs0 ++ bs1 ++ bs2 ++ bs5 ++ []). split; [|intros v0];
      unfold serializeBlockHeader;
      cbn [majorVersion minorVersion nonce timestamp previousBlockHash].
    + eapply writes_bind; [exact W1|cbv beta match]. case_bool; [lia|].
      eapply writes_bind; [exact W2|cbv beta match].
      eapply writes_bind; [exact W3|cbv beta match].
      eapply writes_bind; [exact W4|cbv beta match].
      eapply writes_bind; [exact W5|]. apply writes_ret.
    + eapply reads_bind; [exact (R1 _)|cbv beta match]. case_bool; [lia|].
      eapply reads_bind; [exact (R2 _)|cbv beta match].
      eapply reads_bind; [exact (R3 _)|cbv beta match].
      eapply reads_bind; [exact (R4 _)|cbv beta match].
      eapply reads_bind; [exact (R5 _)|]. apply reads_ret.
  - intros v0. consume uint8_nc. case_bool; [apply consumes_throw|].
    consume uint8_nc. consume uint64_nc. consume hash_nc.
    eapply consumes_bind; [apply ncanon|]. intros n bsn (Hn & Wn). consumed. split; [done|].
    unfold serializeBlockHeader; cbn [majorVersion minorVersion nonce timestamp previousBlockHash].
    eapply writes_bind; [eassumption|cbv beta match]. case_bool; [lia|].
    repeat (eapply writes_bind; [eassumption|cbv beta match]). apply writes_ret.
Qed.

Lemma Block_codec : codec_of serialize_Block enc_Block.
Proof.
  pose proof BlockHeader_codec as [hrt hcanon].
  pose proof (object_ncodec _ _ _ Transaction_codec) as tx_nc.
  split.
  - intros [h t l] (Hh & Ht & Hl). cbn in Hh, Ht, Hl. destruct (hrt h Hh) as (bs1 & W1 & R1).
    field tx_nc Ht "miner_tx"%string W2 R2. field hashes_nc Hl "tx_hashes"%string W3 R3.
    exists (bs1 ++ bs ++ bs0 ++ []). split; [|intros v0];
      unfold serialize_Block; cbn [block_header baseTransaction transactionHashes].
    + eapply writes_bind; [exact W1|]. eapply writes_bind; [exact W2|cbv beta match].
      eapply writes_bind; [exact W3|cbv beta match]. apply writes_ret.
    + eapply reads_bind; [exact (R1 _)|]. eapply reads_bind; [exact (R2 _)|cbv beta match].
      eapply reads_bind; [exact (R3 _)|cbv beta match]. apply reads_ret.
  - intros v0. eapply consumes_bind; [apply hcanon|]. intros h bsh (Hh & Wh).
    consume tx_nc. consume hashes_nc. consumed. split; [done|].
    unfold serialize_Block; cbn [block_header baseTransaction transactionHashes].
    eapply writes_bind; [exact Wh|].
    repeat (eapply writes_bind; [eassumption|cbv beta match]). apply writes_ret.
Qed.

Definition enc_AccountPublicAddress (a : AccountPublicAddress) : Prop :=
  is_pod 32 (spendPublicKey a) ∧ is_pod 32 (viewPublicKey a).

Lemma AccountPublicAddress_codec :
  codec_of serialize_AccountPublicAddress enc_AccountPublicAddress.
Proof.
  split.
  - intros [s v] (Hs & Hv). cbn in Hs, Hv. field key_nc Hs "m_spend_public_key"%string W1 R1.
    field key_nc Hv "m_view_public_key"%string W2 R2. eexists. split; [writes_seq|reads_seq].
  - intros v0. consume key_nc. consume key_nc. consumed. split; [done|writes_seq].
Qed.

Lemma AccountKeys_codec :
  codec_of serialize_AccountKeys (λ k, enc_AccountPublicAddress (address k) ∧
    is_pod 32 (spendSecretKey k) ∧ is_pod 32 (viewSecretKey k)).
Proof.
  pose proof (object_ncodec _ _ _ AccountPublicAddress_codec) as addr_nc. split.
  - intros [a s v] (Ha & Hs & Hv). cbn in Ha, Hs, Hv.
    field addr_nc Ha "m_account_address"%string W1 R1.
    field key_nc Hs "m_spend_secret_key"%string W2 R2.
    field key_nc Hv "m_view_secret_key"%string W3 R3. eexists. split; [writes_seq|reads_seq].
  - intros v0. consume addr_nc. consume key_nc. consume key_nc. consumed.
    split; [done|writes_seq].
Qed.

Lemma KeyPair_codec :
  codec_of serialize_KeyPair (λ k, is_pod 32 (publicKey k) ∧ is_pod 32 (secretKey k)).
Proof.
  split.
  - intros [p s] (Hp & Hs). cbn in Hp, Hs. field key_nc Hs "secret_key"%string W1 R1.
    field key_nc Hp "public_key"%string W2 R2. eexists. split; [writes_seq|reads_seq].
  - intros v0. consume key_nc. consume key_nc. consumed. split; [done|writes_seq].
Qed.

Lemma doSerialize_MergeMiningTag_codec :
  codec_of doSerialize_MergeMiningTag (λ t, is_u64 (mm_depth t) ∧ is_pod 32 (mm_merkleRoot t)).
Proof.
  split.
  - intros [d r] (Hd & Hr). cbn in Hd, Hr. field uint64_nc Hd "depth"%string W1 R1.
    field hash_nc Hr "merkle_root"%string W2 R2. eexists. split; [writes_seq|reads_seq].
  - intros v0. consume uint64_nc. consume hash_nc. consumed. split; [done|writes_seq].
Qed.
End Codecs.

(** ** Byte arrays *)

#[local] Transparent reads writes consumes.

Section Arrays.
Context {T : Type} (r : T → M (BinaryInputStreamSerializer MemoryInputStream) T).
Context (w : T → M (BinaryOutputStreamSerializer VectorOutputStream) T) (ok : T → Prop).
Context (Hc : codec r w ok).

Lemma new_stream_ok ba :
  is_bytes ba → Z.of_nat (length ba) < 2 ^ 64 →
  in_ok (BIS (new_MemoryInputStream ba)) ∧ unread (BIS (new_MemoryInputStream ba)) = ba.
Proof using.
  intros Hb Hl. cbn. split; [|by rewrite drop_0].
  split_and!; [lia..|unfold in_range; lia|done].
Qed.

Lemma endOfStream_unread s :
  in_ok s → mis_endOfStream s = true ↔ unread s = [].
Proof using.
  destruct s as [buf size pos]. cbn. intros (Hpos & Hsz & _ & _).
  unfold mis_endOfStream. cbn. rewrite Z.eqb_eq. split.
  - intros ->. apply drop_ge. lia.
  - intros Hd%(f_equal length). rewrite length_drop in Hd. simpl in Hd. lia.
Qed.

Lemma to_from_array v :
  ok v → ∃ ba, toBinaryArray w v [] = Ret (Some ba) ∧ is_bytes ba ∧
    (Z.of_nat (length ba) < 2 ^ 64 → ∀ v0, fromBinaryArray r v0 ba = Ret (Some v)).
Proof using Hc.
  intros Hv. destruct (codec_rt _ _ _ Hc v Hv) as (ba & [Hb Hw] & Hr). exists ba.
  unfold toBinaryArray, fromBinaryArray.
  destruct (Hw (BOS {| vos_out := [] |})) as ([[out]] & -> & Hout). cbn in Hout. subst out.
  split; [done|]. split; [done|]. intros Hl v0.
  destruct (new_stream_ok ba Hb Hl) as [Hok Hun].
  destruct (Hr v0 (BIS (new_MemoryInputStream ba)) []) as ([s'] & -> & Hs' & Hu).
  { done. } { by rewrite app_nil_r. }
  cbn [bis_stream]. by rewrite (proj2 (endOfStream_unread s' Hs') Hu).
Qed.

Lemma from_to_array v0 ba :
  is_bytes ba → Z.of_nat (length ba) < 2 ^ 64 →
  ∃ res, fromBinaryArray r v0 ba = Ret res ∧
    ∀ v, res = Some v → ok v ∧ toBinaryArray w v [] = Ret (Some ba).
Proof using Hc.
  intros Hb Hl. destruct (new_stream_ok ba Hb Hl) as [Hok Hun].
  pose proof (codec_canon _ _ _ Hc v0 _ Hok) as Hcan. unfold fromBinaryArray.
  destruct (r v0 _) as [[v s']|e|]; [|by exists None|done].
  destruct s' as [s']. cbn [bis_stream]. eexists. split; [done|]. intros v' Hv'.
  destruct Hcan as (Hs' & bs & Hu & Hv & _ & Hw). rewrite Hun in Hu.
  destruct (mis_endOfStream s') eqn:E; [|done]. injection Hv' as <-.
  apply endOfStream_unread in E; [|done]. cbn in Hu, E. rewrite E, app_nil_r in Hu. subst bs.
  split; [done|]. unfold toBinaryArray.
  destruct (Hw (BOS {| vos_out := [] |})) as ([[out]] & -> & Hout). cbn in Hout. by subst out.
Qed.
End Arrays.

(** ** The contract of the formats *)

(** C31: an encodable transaction survives the round trip through its bytes:
    [toBinaryArray] succeeds and [fromBinaryArray] gives the transaction back. *)
Theorem transaction_roundtrip t :
  enc_Transaction t →
  ∃ ba, toBinaryArray serialize_Transaction t [] = Ret (Some ba) ∧
    (Z.of_nat (length ba) < 2 ^ 64 →
     ∀ t0, fromBinaryArray serialize_Transaction t0 ba = Ret (Some t)).
Proof.
  intros Ht. destruct (to_from_array _ _ _ Transaction_codec t Ht) as (ba & ? & _ & ?). eauto.
Qed.

(** A transaction with one key input of two ring members, a deposit and a
    change output. *)
Definition sample_transaction : Transaction := {|
  tx_prefix := {|
    version := 1; unlockTime := 0;
    inputs := [InKey {| ki_amount := 1000; ki_outputIndexes := [7; 300];
                        ki_keyImage := replicate 32 5 |}];
    outputs := [ {| out_amount := 600; out_target := OutKey {| ko_key := replicate 32 9 |} |};
                 {| out_amount := 390; out_target := OutMultisignature
                      {| mo_keys := [replicate 32 1]; mo_requiredSignatureCount := 1;
                         mo_term := 21900 |} |} ];
    extra := [1; 2; 3] |};
  signatures := [[replicate 64 3; replicate 64 4]]
|}.

Lemma sample_encodable : enc_Transaction sample_transaction.
Proof. apply (bool_decide_unpack _). vm_compute. done. Qed.

Lemma transaction_roundtrip_witness :
  ∃ ba, toBinaryArray serialize_Transaction sample_transaction [] = Ret (Some ba) ∧
    (Z.of_nat (length ba) < 2 ^ 64 →
     ∀ t0, fromBinaryArray serialize_Transaction t0 ba = Ret (Some sample_transaction)).
Proof. exact (transaction_roundtrip sample_transaction sample_encodable). Defined.

(** C32: parsing a transaction never fails an assertion, and the bytes it
    accepts are exactly the bytes the writer produces for the result: no two
    byte strings parse to the same transaction. *)
Theorem transaction_bytes_canonical t0 ba :
  is_bytes ba → Z.of_nat (length ba) < 2 ^ 64 →
  ∃ res, fromBinaryArray serialize_Transaction t0 ba = Ret res ∧
    ∀ t, res = Some t →
      enc_Transaction t ∧ toBinaryArray serialize_Transaction t [] = Ret (Some ba).
Proof. apply from_to_array, Transaction_codec. Qed.

Lemma transaction_bytes_canonical_witness :
  ∃ res, fromBinaryArray serialize_Transaction sample_transaction [1; 0; 0; 0; 0] = Ret res ∧
    ∀ t, res = Some t →
      enc_Transaction t ∧
      toBinaryArray serialize_Transaction t [] = Ret (Some [1; 0; 0; 0; 0]).
Proof.
  apply (transaction_bytes_canonical sample_transaction [1; 0; 0; 0; 0]);
    [repeat constructor; done|done].
Defined.

(** blocks have both properties: an encodable block survives the round
    trip, and an accepted byte string is the encoding of its result. *)
Theorem block_roundtrip_canonical :
  (∀ b, enc_Block b →
     ∃ ba, toBinaryArray serialize_Block b [] = Ret (Some ba) ∧
       (Z.of_nat (length ba) < 2 ^ 64 →
        ∀ b0, fromBinaryArray serialize_Block b0 ba = Ret (Some b))) ∧
  (∀ b0 ba, is_bytes ba → Z.of_nat (length ba) < 2 ^ 64 →
     ∃ res, fromBinaryArray serialize_Block b0 ba = Ret res ∧
       ∀ b, res = Some b →
         enc_Block b ∧ toBinaryArray serialize_Block b [] = Ret (Some ba)).
Proof.
  split.
  - intros b Hb. destruct (to_from_array _ _ _ Block_codec b Hb) as (ba & ? & _ & ?). eauto.
  - apply from_to_array, Block_codec.
Qed.
