(* ===== verification/Crypto.v ===== *)
(** * The cryptographic interface

    The operations of [src/src/crypto] the chain code calls, as a class: the chain code
    is modelled for any implementation of them. [CryptoLaws] states what the clients
    rely on, for keys of the right form. [toy_crypto] is a small instance that satisfies
    the laws and serves the concrete examples; the functions of [crypto.cpp] as they are
    modelled are an instance too, [lithe_crypto] of file [CryptoInstance]. *)

From S2P Require Import Prelude CryptoNoteTypes.

Local Open Scope Z_scope.

Definition KeyDerivation := list Z.

Class CryptoOps := {
  cn_fast_hash : list Z → Hash;
  cn_slow_hash : list Z → Hash;
  cn_fast_slow_hash_v1 : list Z → Hash;
  cn_conceal_slow_hash_v0 : list Z → Hash;
  check_key : PublicKey → bool;
  generate_key_derivation : PublicKey → SecretKey → option KeyDerivation;
  derive_public_key : KeyDerivation → Z → PublicKey → option PublicKey;
  derive_secret_key : KeyDerivation → Z → SecretKey → SecretKey;
  generate_key_image : PublicKey → SecretKey → KeyImage;
  generate_ring_signature : Hash → KeyImage → list PublicKey → SecretKey → Z → list Signature;
  check_ring_signature : Hash → KeyImage → list PublicKey → list Signature → bool;
  generate_signature : Hash → PublicKey → SecretKey → Signature;
  check_signature : Hash → PublicKey → Signature → bool;
  scalarmultKey : KeyImage → KeyImage → KeyImage;
  (** Double rounds, data, key and nonce. *)
  chacha8 : Z → list Z → list Z → list Z → list Z;
  (** The public key of a secret key; [None] for bytes that are not a secret key. *)
  secret_key_to_public_key : SecretKey → option PublicKey;
  (** The point of the curve that belongs to a secret key. *)
  key_of : SecretKey → PublicKey;
  (** The bytes that are secret keys and those that are public keys. *)
  is_secret : SecretKey → Prop;
  is_public : PublicKey → Prop
}.

Class CryptoLaws `{CryptoOps} := {
  fast_hash_pod b : is_pod 32 (cn_fast_hash b);
  key_public s : is_secret s → is_public (key_of s);
  public_pod k : is_public k → is_pod 32 k;
  (** The exchange is symmetric. *)
  derivation_sym s1 s2 : is_secret s1 → is_secret s2 →
    generate_key_derivation (key_of s1) s2 = generate_key_derivation (key_of s2) s1;
  (** The exchange succeeds on public keys. *)
  derivation_defined k s : is_public k → is_secret s → generate_key_derivation k s ≠ None;
  derivation_pod k s d : is_pod 32 k → is_secret s → generate_key_derivation k s = Some d → is_pod 32 d;
  (** Keys derived from a public key and from its secret key match. *)
  derive_match d i s : is_pod 32 d → 0 <= i → is_secret s →
    is_secret (derive_secret_key d i s) ∧ derive_public_key d i (key_of s) = Some (key_of (derive_secret_key d i s));
  (** A ring signature has one signature for each key of the ring. *)
  ring_length h i ks s n : length (generate_ring_signature h i ks s n) = length ks;
  (** Signatures made with the right keys are valid; the bytes that are hashed for a ring
      have a length below 2^31. *)
  ring_valid h ks s n : is_pod 32 h → Forall is_public ks → Z.of_nat (length ks) < 2 ^ 24 → is_secret s →
    0 <= n → ks !! Z.to_nat n = Some (key_of s) →
    let i := generate_key_image (key_of s) s in
    check_ring_signature h i ks (generate_ring_signature h i ks s n) = true;
  signature_valid h s : is_pod 32 h → is_secret s → check_signature h (key_of s) (generate_signature h (key_of s) s) = true;
  public_key_of s k : is_pod 32 s → secret_key_to_public_key s = Some k → k = key_of s ∧ is_secret s
}.

(** ** A small instance *)

Section Toy.
(** Numbers below 2^16 as 32 bytes. *)
Definition toy (n : Z) : list Z := u8 n :: u8 (n / 256) :: replicate 30 0.
Definition untoy (l : list Z) : Z := nth 0 l 0 + 256 * nth 1 l 0.

Definition toy_crypto : CryptoOps := {|
  cn_fast_hash b := toy (foldl (λ a x, (a * 31 + x + 7) mod 65536) 1 b);
  cn_slow_hash b := toy (foldl (λ a x, (a * 37 + x + 7) mod 65536) 1 b);
  cn_fast_slow_hash_v1 b := toy (foldl (λ a x, (a * 41 + x + 7) mod 65536) 1 b);
  cn_conceal_slow_hash_v0 b := toy (foldl (λ a x, (a * 43 + x + 7) mod 65536) 1 b);
  check_key k := true;
  generate_key_derivation p s := Some (toy (untoy p * untoy s));
  derive_public_key d i p := Some (toy ((untoy p + untoy d * (i + 1)) mod 65536));
  derive_secret_key d i s := toy ((untoy s + untoy d * (i + 1)) mod 65536);
  generate_key_image p s := toy (untoy s * 3);
  generate_ring_signature h i ks s n := (λ _, replicate 64 (u8 (nth 0 s 0))) <$> ks;
  check_ring_signature h i ks sigs := bool_decide (length ks = length sigs);
  generate_signature h k s := replicate 64 (u8 (nth 0 s 0));
  check_signature h k s := bool_decide (nth 0 s 0 = nth 0 k 0);
  scalarmultKey p a := 1 :: replicate 31 0;
  chacha8 r d key iv := (λ b, 255 - b) <$> d;
  secret_key_to_public_key s := Some (toy (untoy s));
  key_of s := toy (untoy s);
  is_secret s := True;
  is_public k := is_pod 32 k
|}.

Lemma toy_pod n : is_pod 32 (toy n).
Proof.
  split; [|done]. constructor; [apply u8_range|]. constructor; [apply u8_range|].
  by apply Forall_replicate.
Qed.

Lemma untoy_toy n : untoy (toy n) = n mod 65536.
Proof.
  unfold untoy, toy, u8, wrap. cbn [nth]. change (2 ^ 8) with 256. zlia.
Qed.

Lemma toy_mod n : toy (n mod 65536) = toy n.
Proof.
  unfold toy, u8, wrap. change (2 ^ 8) with 256.
  assert ((n mod 65536) mod 256 = n mod 256) as -> by zlia.
  by assert ((n mod 65536) / 256 mod 256 = (n / 256) mod 256) as -> by zlia.
Qed.

Lemma toy_laws : @CryptoLaws toy_crypto.
Proof.
  split.
  - intros b. apply toy_pod.
  - intros s _. apply toy_pod.
  - done.
  - intros s1 s2 _ _. cbn. f_equal. rewrite !untoy_toy, <- !(toy_mod (_ * _)). f_equal.
    rewrite !Z.mul_mod_idemp_l by lia. by rewrite Z.mul_comm.
  - done.
  - intros k s d _ _ [= <-]. apply toy_pod.
  - intros d i s _ _ _. split; [done|]. cbn. rewrite untoy_toy, untoy_toy. f_equal. rewrite !toy_mod.
    rewrite <- (toy_mod (untoy s + _)), <- (toy_mod (_ + untoy d * (i + 1))).
    by rewrite Z.add_mod_idemp_l by lia.
  - intros h i ks s n. cbn. apply length_fmap.
  - intros h ks s n _ _ _ _ _ _. cbn. by rewrite length_fmap, bool_decide_eq_true_2.
  - intros h s _ _. apply bool_decide_eq_true_2. change (u8 (nth 0 s 0) = u8 (nth 0 s 0 + 256 * nth 1 s 0)).
    unfold u8, wrap. change (2 ^ 8) with 256. by rewrite Z.mul_comm, Z_mod_plus_full.
  - intros s k _ [= <-]. done.
Qed.
End Toy.
