(* ===== verification/Currency.v ===== *)
(** * The currency ([src/src/CryptoNoteCore/Currency.cpp], [Currency.h])

    The parameters of the currency as a record, built as [CurrencyBuilder]
    builds them, and the monetary rules: base reward, block reward with its size
    penalty, deposit interest, fees, the miner's transaction, fusion transactions
    and the genesis block. Difficulty has a file of its own.

    The interest of monthly deposits is computed by the source in single and
    double precision floats; the model uses the Standard Library's specification
    of IEEE 754 arithmetic at those precisions.

    The theorems: the supply is never exceeded and a block reward is exactly
    what the emission and the fees give; where the base reward and the interest
    stop with a failed assertion; and that the miner's outputs add up to the
    reward. *)

From Stdlib Require Import SpecFloat.
From stdpp Require Import sorting.
From S2P Require Import Prelude Streams IntUtil StringTools Base58 Config Amounts.
From S2P Require Import CryptoNoteTypes Serialization CryptoNoteSerialization.

Local Open Scope Z_scope.

(** ** Parameters *)

Record Currency := {
  m_maxBlockHeight : Z;
  m_maxBlockBlobSize : Z;
  m_maxTxSize : Z;
  m_publicAddressBase58Prefix : Z;
  m_minedMoneyUnlockWindow : Z;
  m_timestampCheckWindow : Z;
  m_timestampCheckWindow_v1 : Z;
  m_blockFutureTimeLimit : Z;
  m_blockFutureTimeLimit_v1 : Z;
  m_moneySupply : Z;
  m_rewardBlocksWindow : Z;
  m_blockGrantedFullRewardZone : Z;
  m_minerTxBlobReservedSize : Z;
  m_numberOfDecimalPlaces : Z;
  m_coin : Z;
  m_minimumFee : Z;
  m_minimumFeeBanking : Z;
  m_defaultDustThreshold : Z;
  m_difficultyTarget : Z;
  m_difficultyWindow : Z;
  m_difficultyLag : Z;
  m_difficultyCut : Z;
  m_depositMinAmount : Z;
  m_depositMinTerm : Z;
  m_depositMaxTerm : Z;
  m_depositMinTotalRateFactor : Z;
  m_depositMaxTotalRate : Z;
  m_maxBlockSizeInitial : Z;
  m_maxBlockSizeGrowthSpeedNumerator : Z;
  m_maxBlockSizeGrowthSpeedDenominator : Z;
  m_lockedTxAllowedDeltaSeconds : Z;
  m_lockedTxAllowedDeltaBlocks : Z;
  m_mempoolTxLiveTime : Z;
  m_mempoolTxFromAltBlockLiveTime : Z;
  m_numberOfPeriodsToForgetTxDeletedFromPool : Z;
  m_upgradeHeightV2 : Z;
  m_upgradeHeightV3 : Z;
  m_upgradeVotingThreshold : Z;
  m_upgradeVotingWindow : Z;
  m_upgradeWindow : Z;
  m_transactionMaxSize : Z;
  m_fusionTxMaxSize : Z;
  m_fusionTxMinInputCount : Z;
  m_fusionTxMinInOutCountRatio : Z;
  m_testnet : bool
}.

(** [CurrencyBuilder::numberOfDecimalPlaces]: the loop that computes [m_coin]. *)
Fixpoint coin_loop (n : nat) (m_coin : Z) : Z :=
  match n with O => m_coin | S n' => coin_loop n' (u64 (m_coin * 10)) end.

(** [CurrencyBuilder::CurrencyBuilder], with the checks of the setters that
    have one. *)
Definition CurrencyBuilder : outcome Currency :=
  (if DIFFICULTY_WINDOW <? 2 then Throw "val at difficultyWindow()" else mret tt);;
  (if (UPGRADE_VOTING_THRESHOLD <=? 0) || (100 <? UPGRADE_VOTING_THRESHOLD)
   then Throw "val at upgradeVotingThreshold()" else mret tt);;
  (if UPGRADE_WINDOW <=? 0 then Throw "val at upgradeWindow()" else mret tt);;
  mret {|
    m_maxBlockHeight := CRYPTONOTE_MAX_BLOCK_NUMBER;
    m_maxBlockBlobSize := CRYPTONOTE_MAX_BLOCK_BLOB_SIZE;
    m_maxTxSize := CRYPTONOTE_MAX_TX_SIZE;
    m_publicAddressBase58Prefix := CRYPTONOTE_PUBLIC_ADDRESS_BASE58_PREFIX;
    m_minedMoneyUnlockWindow := CRYPTONOTE_MINED_MONEY_UNLOCK_WINDOW;
    m_timestampCheckWindow := BLOCKCHAIN_TIMESTAMP_CHECK_WINDOW;
    m_timestampCheckWindow_v1 := BLOCKCHAIN_TIMESTAMP_CHECK_WINDOW_V1;
    m_blockFutureTimeLimit := CRYPTONOTE_BLOCK_FUTURE_TIME_LIMIT;
    m_blockFutureTimeLimit_v1 := CRYPTONOTE_BLOCK_FUTURE_TIME_LIMIT_V1;
    m_moneySupply := MONEY_SUPPLY;
    m_rewardBlocksWindow := CRYPTONOTE_REWARD_BLOCKS_WINDOW;
    m_blockGrantedFullRewardZone := CRYPTONOTE_BLOCK_GRANTED_FULL_REWARD_ZONE;
    m_minerTxBlobReservedSize := CRYPTONOTE_COINBASE_BLOB_RESERVED_SIZE;
    m_numberOfDecimalPlaces := CRYPTONOTE_DISPLAY_DECIMAL_POINT;
    m_coin := coin_loop (Z.to_nat CRYPTONOTE_DISPLAY_DECIMAL_POINT) 1;
    m_minimumFee := MINIMUM_FEE;
    m_minimumFeeBanking := MINIMUM_FEE_BANKING;
    m_defaultDustThreshold := DEFAULT_DUST_THRESHOLD;
    m_difficultyTarget := DIFFICULTY_TARGET;
    m_difficultyWindow := DIFFICULTY_WINDOW;
    m_difficultyLag := DIFFICULTY_LAG;
    m_difficultyCut := DIFFICULTY_CUT;
    m_depositMinAmount := DEPOSIT_MIN_AMOUNT;
    m_depositMinTerm := DEPOSIT_MIN_TERM;
    m_depositMaxTerm := DEPOSIT_MAX_TERM;
    m_depositMinTotalRateFactor := DEPOSIT_MIN_TOTAL_RATE_FACTOR;
    m_depositMaxTotalRate := DEPOSIT_MAX_TOTAL_RATE;
    m_maxBlockSizeInitial := MAX_BLOCK_SIZE_INITIAL;
    m_maxBlockSizeGrowthSpeedNumerator := MAX_BLOCK_SIZE_GROWTH_SPEED_NUMERATOR;
    m_maxBlockSizeGrowthSpeedDenominator := MAX_BLOCK_SIZE_GROWTH_SPEED_DENOMINATOR;
    m_lockedTxAllowedDeltaSeconds := CRYPTONOTE_LOCKED_TX_ALLOWED_DELTA_SECONDS;
    m_lockedTxAllowedDeltaBlocks := CRYPTONOTE_LOCKED_TX_ALLOWED_DELTA_BLOCKS;
    m_mempoolTxLiveTime := CRYPTONOTE_MEMPOOL_TX_LIVETIME;
    m_mempoolTxFromAltBlockLiveTime := CRYPTONOTE_MEMPOOL_TX_FROM_ALT_BLOCK_LIVETIME;
    m_numberOfPeriodsToForgetTxDeletedFromPool :=
      CRYPTONOTE_NUMBER_OF_PERIODS_TO_FORGET_TX_DELETED_FROM_POOL;
    m_upgradeHeightV2 := UPGRADE_HEIGHT_V2;
    m_upgradeHeightV3 := UPGRADE_HEIGHT_V3;
    m_upgradeVotingThreshold := UPGRADE_VOTING_THRESHOLD;
    m_upgradeVotingWindow := UPGRADE_VOTING_WINDOW;
    m_upgradeWindow := UPGRADE_WINDOW;
    m_transactionMaxSize := CRYPTONOTE_MAX_TX_SIZE_LIMIT;
    m_fusionTxMaxSize := FUSION_TX_MAX_SIZE;
    m_fusionTxMinInputCount := FUSION_TX_MIN_INPUT_COUNT;
    m_fusionTxMinInOutCountRatio := FUSION_TX_MIN_IN_OUT_COUNT_RATIO;
    m_testnet := false
  |}.

(** The currency of the main network. *)
Definition mainnet : Currency :=
  Eval vm_compute in match CurrencyBuilder with
                     | Ret c => c
                     | _ => Build_Currency 0 0 0 0 0 0 0 0 0 0 0 0 0 0 0 0 0 0 0 0 0 0 0 0 0 0
                              0 0 0 0 0 0 0 0 0 0 0 0 0 0 0 0 0 0 false
                     end.

(** ** Rules by version *)

Section Rules.
Variable c : Currency.

Definition timestampCheckWindow (blockMajorVersion : Z) : Z :=
  if BLOCK_MAJOR_VERSION_3 <=? blockMajorVersion
  then m_timestampCheckWindow_v1 c else m_timestampCheckWindow c.

Definition blockFutureTimeLimit (blockMajorVersion : Z) : Z :=
  if BLOCK_MAJOR_VERSION_3 <=? blockMajorVersion
  then m_blockFutureTimeLimit_v1 c else m_blockFutureTimeLimit c.

Definition difficultyBlocksCount : Z := u64 (m_difficultyWindow c + m_difficultyLag c).

Definition difficultyBlocksCountByBlockVersion (blockMajorVersion : Z) : Z :=
  if BLOCK_MAJOR_VERSION_3 <=? blockMajorVersion
  then DIFFICULTY_BLOCKS_COUNT else difficultyBlocksCount.

Definition difficultyWindowByBlockVersion (blockMajorVersion : Z) : Z :=
  if BLOCK_MAJOR_VERSION_3 <=? blockMajorVersion then DIFFICULTY_WINDOW_V3
  else if BLOCK_MAJOR_VERSION_2 <=? blockMajorVersion then m_difficultyWindow c
  else if blockMajorVersion =? BLOCK_MAJOR_VERSION_1 then DIFFICULTY_WINDOW_V2
  else DIFFICULTY_WINDOW_V1.

Definition difficultyCutByBlockVersion (blockMajorVersion : Z) : Z :=
  if BLOCK_MAJOR_VERSION_2 <=? blockMajorVersion then m_difficultyCut c
  else if blockMajorVersion =? BLOCK_MAJOR_VERSION_1 then DIFFICULTY_CUT_V2
  else DIFFICULTY_CUT_V1.

Definition upgradeHeight (majorVersion : Z) : Z :=
  if majorVersion =? BLOCK_MAJOR_VERSION_2 then m_upgradeHeightV2 c
  else if majorVersion =? BLOCK_MAJOR_VERSION_3 then m_upgradeHeightV3 c
  else UINT32_MAX.

Definition minNumberVotingBlocks : Z :=
  u32 (u32 (m_upgradeVotingWindow c * m_upgradeVotingThreshold c) + 99) / 100.
Definition maxUpgradeDistance : Z := u32 (7 * m_upgradeWindow c).
Definition calculateUpgradeHeight (voteCompleteHeight : Z) : Z :=
  u32 (voteCompleteHeight + m_upgradeWindow c).

(** ** Rewards *)

Definition REWARD_INCREASING_FACTOR : list Z := (λ i, i * 250000) <$> seqZ 0 61.

Definition baseRewardFunction (alreadyGeneratedCoins height : Z) : outcome Z :=
  let incrIntervals := height / REWARD_INCREASE_INTERVAL in
  assert_ (incrIntervals <? Z.of_nat (length REWARD_INCREASING_FACTOR));;
  factor ← at_ REWARD_INCREASING_FACTOR incrIntervals;
  let base_reward := u64 (START_BLOCK_REWARD + factor) in
  let base_reward := Z.min base_reward MAX_BLOCK_REWARD in
  mret (Z.min base_reward (u64 (m_moneySupply c - alreadyGeneratedCoins))).

(** [getBlockReward]: (reward, emissionChange), or [None] for a block that is
    too big. *)
Definition getBlockReward (medianSize currentBlockSize alreadyGeneratedCoins fee height : Z)
    : outcome (option (Z * Z)) :=
  assert_ (alreadyGeneratedCoins <=? m_moneySupply c);;
  baseReward ← baseRewardFunction alreadyGeneratedCoins height;
  let medianSize := Z.max medianSize (m_blockGrantedFullRewardZone c) in
  if u64 (2 * medianSize) <? currentBlockSize then mret None
  else
    penalizedBaseReward ← getPenalizedAmount baseReward medianSize currentBlockSize;
    penalizedFee ← getPenalizedAmount fee medianSize currentBlockSize;
    let emissionChange := i64 (u64 (penalizedBaseReward - u64 (fee - penalizedFee))) in
    let reward := u64 (penalizedBaseReward + penalizedFee) in
    mret (Some (reward, emissionChange)).

(** ** Interest *)

(** Single and double precision. *)
Definition f32_of_Z (z : Z) : spec_float := binary_normalize 24 128 z 0 false.
Definition f64_of_Z (z : Z) : spec_float := binary_normalize 53 1024 z 0 false.

(** Conversion of a double to a float. *)
Definition f32_of (x : spec_float) : spec_float :=
  match x with
  | S754_finite s m e => binary_normalize 24 128 (cond_Zopp s (Zpos m)) e s
  | _ => x
  end.

(** Conversion of a float to an integer: the fraction is dropped. *)
Definition f32_to_Z (x : spec_float) : Z :=
  match x with S754_finite s m e => cond_Zopp s (Z.shiftl (Zpos m) e) | _ => 0 end.

(** The double nearest to [n / 1000]. *)
Definition thousandths (n : Z) : spec_float := SFdiv 53 1024 (f64_of_Z n) (f64_of_Z 1000).

Definition baseInterest (amount : Z) : spec_float :=
  let amount4Humans := amount / 1000000 in
  let baseInterest := f32_of (thousandths 29) in
  let baseInterest := if (10000 <=? amount4Humans) && (amount4Humans <? 20000)
                      then f32_of (thousandths 39) else baseInterest in
  if 20000 <=? amount4Humans then f32_of (thousandths 49) else baseInterest.

(** The effective rate [eir] for a deposit of [term] blocks. *)
Definition effectiveRate (baseInterest : spec_float) (term : Z) : spec_float :=
  let months := f32_of_Z (term / 21900) in
  let months := if SFltb (f32_of_Z 12) months then f32_of_Z 12 else months in
  let ear := f32_of (SFadd 53 1024 baseInterest
    (SFmul 53 1024 (SFsub 24 128 months (f32_of_Z 1)) (thousandths 1))) in
  SFmul 24 128 (SFdiv 24 128 ear (f32_of_Z 12)) months.

Definition calculateInterest (amount term : Z) : Z :=
  let interest := SFmul 24 128 (f32_of_Z amount) (effectiveRate (baseInterest amount) term) in
  f32_to_Z interest.

Definition calculateInterestMaths (amount term height : Z) : outcome Z :=
  if term mod 21900 =? 0 then mret (calculateInterest amount term)
  else
    let a := u64 (u64 (term * m_depositMaxTotalRate c) - m_depositMinTotalRateFactor c) in
    '(bLo, bHi) ← mul128 amount a;
    assert_ (m_depositMaxTerm c <? UINT32_MAX / 100);;
    '(_, cHi, cLo) ← div128_32 bHi bLo (u32 (100 * m_depositMaxTerm c));
    assert_ (cHi =? 0);;
    if height <=? 1 then
      '(interestLo, interestHi) ← mul128 cLo 100;
      assert_ (interestHi =? 0);;
      mret interestLo
    else mret cLo.

(** ** Fees *)

Fixpoint calculateTotalTransactionInterest_loop (ins : list TransactionInput) (height interest : Z)
    : outcome Z :=
  match ins with
  | [] => mret interest
  | InMultisignature m :: ins' =>
      if negb (mi_term m =? 0) then
        i ← calculateInterestMaths (mi_amount m) (mi_term m) height;
        calculateTotalTransactionInterest_loop ins' height (u64 (interest + i))
      else calculateTotalTransactionInterest_loop ins' height interest
  | _ :: ins' => calculateTotalTransactionInterest_loop ins' height interest
  end.

Definition calculateTotalTransactionInterest (tx : Transaction) (height : Z) : outcome Z :=
  calculateTotalTransactionInterest_loop (inputs tx) height 0.

Definition getTransactionInputAmount (i : TransactionInput) (height : Z) : outcome Z :=
  match i with
  | InKey k => mret (ki_amount k)
  | InMultisignature m =>
      if mi_term m =? 0 then mret (mi_amount m)
      else
        interest ← calculateInterestMaths (mi_amount m) (mi_term m) height;
        mret (u64 (mi_amount m + interest))
  | InBase _ => mret 0
  end.

Fixpoint inputs_amount (ins : list TransactionInput) (height amount : Z) : outcome Z :=
  match ins with
  | [] => mret amount
  | i :: ins' =>
      a ← getTransactionInputAmount i height;
      inputs_amount ins' height (u64 (amount + a))
  end.

Definition getTransactionAllInputsAmount (tx : Transaction) (height : Z) : outcome Z :=
  inputs_amount (inputs tx) height 0.

(** [getTransactionFee(tx, fee, height)]: [None] where it returns false. *)
Definition getTransactionFee (tx : Transaction) (height : Z) : outcome (option Z) :=
  amount_in ← inputs_amount (inputs tx) height 0;
  let amount_out := sum64 (out_amount <$> outputs tx) in
  if amount_in <? amount_out then
    if (0 <? Z.of_nat (length (inputs tx))) && (0 <? Z.of_nat (length (outputs tx))) &&
       (u64 (amount_in + MINIMUM_FEE) <? amount_out)
    then mret (Some MINIMUM_FEE)
    else mret None
  else mret (Some (u64 (amount_in - amount_out))).

(** [getTransactionFee(tx, height)]. *)
Definition getTransactionFee_or_zero (tx : Transaction) (height : Z) : outcome Z :=
  r ← getTransactionFee tx height;
  mret (match r with Some fee => fee | None => 0 end).

Definition maxBlockCumulativeSize (height : Z) : outcome Z :=
  assert_ (height <=? UINT64_MAX / m_maxBlockSizeGrowthSpeedNumerator c);;
  let maxSize := u64 (m_maxBlockSizeInitial c +
    u64 (height * m_maxBlockSizeGrowthSpeedNumerator c) /
      m_maxBlockSizeGrowthSpeedDenominator c) in
  assert_ (m_maxBlockSizeInitial c <=? maxSize);;
  mret maxSize.
End Rules.

(** ** Fusion transactions *)

Section Fusion.
Variable c : Currency.

(** The digits one to nine times the powers of ten up to 10^18, and 10^19. *)
Definition PRETTY_AMOUNTS : list Z :=
  flat_map (λ k, (λ d, d * 10 ^ k) <$> seqZ 1 9) (seqZ 0 19) ++ [10 ^ 19].

(** [getInputsAmounts] of [CryptoNoteTools.cpp]. *)
Fixpoint getInputsAmounts (ins : list TransactionInput) : list Z :=
  match ins with
  | [] => []
  | InKey k :: ins' => ki_amount k :: getInputsAmounts ins'
  | InMultisignature m :: ins' => mi_amount m :: getInputsAmounts ins'
  | InBase _ :: ins' => getInputsAmounts ins'
  end.

(** [getInputAmount] and [getOutputAmount]. *)
Definition getInputAmount (tx : Transaction) : Z := sum64 (getInputsAmounts (inputs tx)).
Definition getOutputAmount (tx : Transaction) : Z := sum64 (out_amount <$> outputs tx).

(** [std::sort] of integers. *)
Definition sort_Z (l : list Z) : list Z := merge_sort Z.le l.

(** [isFusionTransaction(inputsAmounts, outputsAmounts, size)]. *)
Definition isFusionTransaction_amounts (inputsAmounts outputsAmounts : list Z) (size : Z) : bool :=
  if m_fusionTxMaxSize c <? size then false
  else if Z.of_nat (length inputsAmounts) <? m_fusionTxMinInputCount c then false
  else if Z.of_nat (length inputsAmounts) <?
          u64 (Z.of_nat (length outputsAmounts) * m_fusionTxMinInOutCountRatio c) then false
  else if existsb (λ amount, amount <? m_defaultDustThreshold c) inputsAmounts then false
  else
    let inputAmount := sum64 inputsAmounts in
    let expectedOutputsAmounts :=
      sort_Z (decomposeAmount inputAmount (m_defaultDustThreshold c) []) in
    bool_decide (expectedOutputsAmounts = outputsAmounts).

(** [isFusionTransaction(transaction, size)]. *)
Definition isFusionTransaction (transaction : Transaction) (size : Z) : outcome bool :=
  binarySize ← getObjectBinarySize serialize_Transaction transaction;
  assert_ (binarySize =? size);;
  mret (isFusionTransaction_amounts (getInputsAmounts (inputs transaction))
          (out_amount <$> outputs transaction) size).

(** [std::lower_bound]: the first position whose element is not below. *)
Fixpoint lower_bound (l : list Z) (x : Z) (i : nat) : nat :=
  match l with
  | [] => i
  | y :: l' => if y <? x then lower_bound l' x (S i) else i
  end.

(** [isAmountApplicableInFusionTransactionInput]: the power of ten of an
    applicable amount. *)
Definition isAmountApplicableInFusionTransactionInput (amount threshold height : Z) : option Z :=
  if threshold <=? amount then None
  else if (height <? UPGRADE_HEIGHT_V3) && (amount <? m_defaultDustThreshold c) then None
  else
    let it := lower_bound PRETTY_AMOUNTS amount 0 in
    match PRETTY_AMOUNTS !! it with
    | None => None
    | Some a => if negb (amount =? a) then None else Some (u8 (Z.of_nat it / 9))
    end.

Definition getApproximateMaximumInputCount (transactionSize outputCount mixinCount : Z) : Z :=
  let outputsSize := u64 (outputCount * (1 + 32 + (8 + 2))) in
  let headerSize := 1 + 8 + 1 + 32 in
  let inputSize := u64 (1 + (8 + 2) + 32 + 64 + 1 + 4 + u64 (mixinCount * (4 + 64))) in
  u64 (u64 (transactionSize - headerSize) - outputsSize) / inputSize.
End Fusion.

(** ** Addresses ([CryptoNoteBasicImpl.cpp]) *)

Section Addresses.
Variable cn_fast_hash : list Z → list Z.
(** [Crypto::check_key]. *)
Variable check_key : PublicKey → bool.

Definition getAccountAddressAsStr (prefix : Z) (adr : AccountPublicAddress) : outcome (list Z) :=
  ba ← toBinaryArray serialize_AccountPublicAddress adr [];
  match ba with
  | None => Abort
  | Some ba => encode_addr cn_fast_hash prefix ba
  end.

Definition parseAccountAddressString (str : list Z) : outcome (option (Z * AccountPublicAddress)) :=
  r ← decode_addr cn_fast_hash str;
  match r with
  | None => mret None
  | Some (prefix, data) =>
      a ← fromBinaryArray serialize_AccountPublicAddress
            {| spendPublicKey := replicate 32 0; viewPublicKey := replicate 32 0 |} data;
      match a with
      | None => mret None
      | Some adr =>
          mret (if check_key (spendPublicKey adr) && check_key (viewPublicKey adr)
                then Some (prefix, adr) else None)
      end
  end.

(** [Currency::accountAddressAsString] and [Currency::parseAccountAddressString]. *)
Definition accountAddressAsString (c : Currency) (adr : AccountPublicAddress) : outcome (list Z) :=
  getAccountAddressAsStr (m_publicAddressBase58Prefix c) adr.

Definition Currency_parseAccountAddressString (c : Currency) (str : list Z)
    : outcome (option AccountPublicAddress) :=
  r ← parseAccountAddressString str;
  mret (match r with
        | None => None
        | Some (prefix, addr) =>
            if negb (prefix =? m_publicAddressBase58Prefix c) then None else Some addr
        end).
End Addresses.

Definition is_coinbase (tx : Transaction) : bool :=
  match inputs tx with
  | [InBase _] => true
  | _ => false
  end.

(** ** The genesis block *)

Definition empty_transaction : Transaction := {|
  tx_prefix := {| version := 0; unlockTime := 0; inputs := []; outputs := []; extra := [] |};
  signatures := [] |}.

(** [Currency::generateGenesisBlock]: [None] where it returns false. *)
Definition generateGenesisBlock (testnet : bool) : outcome (option Block) :=
  '(ok, minerTxBlob) ← fromHex_append GENESIS_COINBASE_TX_HEX [];
  if negb ok then mret None
  else
    r ← fromBinaryArray serialize_Transaction empty_transaction minerTxBlob;
    match r with
    | None => mret None
    | Some baseTransaction =>
        let nonce := if testnet then u32 (GENESIS_NONCE + 1) else GENESIS_NONCE in
        mret (Some {|
          block_header := {| majorVersion := BLOCK_MAJOR_VERSION_1;
                             minorVersion := BLOCK_MINOR_VERSION_0;
                             nonce := nonce; timestamp := GENESIS_TIMESTAMP;
                             previousBlockHash := NULL_HASH |};
          baseTransaction := baseTransaction; transactionHashes := [] |})
    end.

(** ** Rewards: proofs *)

Lemma reward_factor h :
  0 <= h < 1335900 →
  ∃ f, at_ REWARD_INCREASING_FACTOR (h / REWARD_INCREASE_INTERVAL) = Ret f ∧
    0 <= f <= 15000000.
Proof.
  intros Hh. unfold REWARD_INCREASE_INTERVAL.
  assert (0 <= h / 21900 < 61) as Hi by zlia.
  exists (h / 21900 * 250000). split; [|lia]. apply at_Some; [lia|].
  unfold REWARD_INCREASING_FACTOR. rewrite list_lookup_fmap, lookup_seqZ_lt by lia. cbn.
  f_equal. lia.
Qed.

(** The schedule starts above its own ceiling: the base reward is constant
    while it is defined. *)
Lemma baseRewardFunction_ret c coins h :
  is_u64 (m_moneySupply c) → 0 <= coins <= m_moneySupply c → 0 <= h < 1335900 →
  baseRewardFunction c coins h = Ret (Z.min MAX_BLOCK_REWARD (m_moneySupply c - coins)).
Proof.
  intros Hs Hc Hh. unfold baseRewardFunction.
  change (Z.of_nat (length REWARD_INCREASING_FACTOR)) with 61.
  rewrite (proj2 (Z.ltb_lt _ 61)) by (unfold REWARD_INCREASE_INTERVAL; zlia).
  cbn [assert_ mbind outcome_bind]. destruct (reward_factor h Hh) as (f & -> & Hf).
  cbn [mbind outcome_bind]. unfold mret, outcome_ret, in_range in *. f_equal.
  unfold START_BLOCK_REWARD, MAX_BLOCK_REWARD, POINT, COIN.
  rewrite !u64_small by (unfold in_range; lia). lia.
Qed.

Lemma baseRewardFunction_abort c coins h :
  1335900 <= h → baseRewardFunction c coins h = Abort.
Proof.
  intros Hh. unfold baseRewardFunction.
  change (Z.of_nat (length REWARD_INCREASING_FACTOR)) with 61.
  rewrite (proj2 (Z.ltb_ge _ 61)) by (unfold REWARD_INCREASE_INTERVAL; zlia). done.
Qed.

Lemma i64_of_u64 z : INT64_MIN <= z <= INT64_MAX → i64 (u64 z) = z.
Proof.
  unfold i64, u64, wrap, INT64_MIN, INT64_MAX. intros H.
  rewrite Z.add_mod_idemp_l by lia. rewrite Z.mod_small; lia.
Qed.

(** An amount after the size penalty. *)
Definition penalized (m size a : Z) : Z :=
  if size <=? m then a else a * (size * (2 * m - size)) / (m * m).

Lemma penalized_bounds m size a : 0 <= a → 0 <= m → size <= 2 * m → 0 <= penalized m size a <= a.
Proof.
  intros Ha Hm Hs. unfold penalized. case_bool; [lia|]. apply getPenalizedAmount_bounds; lia.
Qed.

(** What [getBlockReward] promises: the reward is the penalized base reward
    plus the penalized fees, its excess over the fees is the emission, and the
    emission keeps the supply. *)
Definition reward_ok (c : Currency) (m size coins fee reward emission : Z) : Prop :=
  let base := Z.min MAX_BLOCK_REWARD (m_moneySupply c - coins) in
  reward = penalized m size base + penalized m size fee ∧ emission = reward - fee ∧
  0 <= reward <= base + fee ∧ coins + emission <= m_moneySupply c.

Lemma getBlockReward_ret c median size coins fee h :
  0 <= m_moneySupply c < 2 ^ 62 → 0 <= coins <= m_moneySupply c → 0 <= h < 1335900 →
  0 <= fee < 2 ^ 62 → 0 <= median → 0 <= size <= UINT32_MAX →
  let m := Z.max median (m_blockGrantedFullRewardZone c) in
  m <= UINT32_MAX →
  if 2 * m <? size then getBlockReward c median size coins fee h = Ret None
  else ∃ reward emission,
    getBlockReward c median size coins fee h = Ret (Some (reward, emission)) ∧
    reward_ok c m size coins fee reward emission.
Proof.
  intros Hs Hc Hh Hf Hmed Hsz m Hm.
  assert (is_u64 (m_moneySupply c)) as Hs64 by (unfold in_range; lia).
  assert (0 <= m) as Hm0 by lia. unfold getBlockReward.
  rewrite (proj2 (Z.leb_le coins _)) by lia. cbn [assert_ mbind outcome_bind].
  rewrite baseRewardFunction_ret by done. cbn [mbind outcome_bind]. fold m.
  rewrite u64_small by (unfold in_range, UINT32_MAX in *; lia).
  destruct (2 * m <? size) eqn:E; bool_to_prop; [done|].
  set (base := Z.min MAX_BLOCK_REWARD (m_moneySupply c - coins)).
  assert (0 <= base <= MAX_BLOCK_REWARD ∧ base <= m_moneySupply c - coins) as [Hb Hb2].
  { subst base. unfold MAX_BLOCK_REWARD, COIN. lia. }
  unfold MAX_BLOCK_REWARD, COIN in Hb.
  rewrite !getPenalizedAmount_ret by (unfold in_range; lia).
  cbn [mbind outcome_bind].
  fold (penalized m size base). fold (penalized m size fee).
  pose proof (penalized_bounds m size base ltac:(lia) Hm0 E).
  pose proof (penalized_bounds m size fee ltac:(lia) Hm0 E).
  eexists _, _. split; [done|]. unfold reward_ok. fold base.
  rewrite (u64_small (fee - _)), (u64_small (_ + penalized m size fee)) by (unfold in_range; lia).
  rewrite i64_of_u64 by (unfold INT64_MIN, INT64_MAX; lia). split_and!; lia.
Qed.

(** ** Interest: proofs *)

Lemma interest_numerator term : is_u32 term → u64 (u64 (term * 4) - 0) = 4 * term.
Proof.
  intros H. unfold in_range in H. rewrite Z.sub_0_r, !u64_small; unfold in_range; [lia..|].
  rewrite u64_small; unfold in_range; lia.
Qed.

Lemma interest_rational amount term height :
  is_u64 amount → is_u32 term → term mod 21900 ≠ 0 → 1 < height →
  calculateInterestMaths mainnet amount term height =
    if amount * (4 * term) / 26280000 <? 2 ^ 64
    then Ret (amount * (4 * term) / 26280000) else Abort.
Proof.
  intros Ha Ht Hm Hh. unfold calculateInterestMaths.
  rewrite (proj2 (Z.eqb_neq _ _) Hm).
  change (m_depositMaxTotalRate mainnet) with 4.
  change (m_depositMinTotalRateFactor mainnet) with 0.
  rewrite interest_numerator by done.
  change (m_depositMaxTerm mainnet <? UINT32_MAX / 100) with true.
  change (u32 (100 * m_depositMaxTerm mainnet)) with 26280000.
  assert (is_u64 (4 * term)) as H4 by (unfold in_range in *; lia).
  rewrite mul128_ret by done. cbn [assert_ mbind outcome_bind].
  set (p := amount * (4 * term)).
  assert (is_u64 (p / 2 ^ 64) ∧ is_u64 (p mod 2 ^ 64)) as [Hhi Hlo].
  { unfold in_range in *. split; [|apply Z.mod_pos_bound; lia].
    assert (0 <= p < 2 ^ 64 * 2 ^ 64) by (subst p; nia).
    split; [apply Z.div_pos; lia|]. apply Z.div_lt_upper_bound; lia. }
  destruct (div128_32_ret _ _ 26280000 Hhi Hlo ltac:(lia))
    as (r & qhi & qlo & -> & Hqh & Hql & Hr & E).
  assert (p / 26280000 = qhi * 2 ^ 64 + qlo) as ->.
  { symmetry. apply (Z.div_unique_pos _ _ _ r); [done|].
    pose proof (Z.div_mod p (2 ^ 64) ltac:(lia)). lia. }
  unfold in_range in *. cbn [mbind outcome_bind].
  destruct (Z.eqb_spec qhi 0) as [->|Hq]; cbn [assert_ mbind outcome_bind].
  - rewrite (proj2 (Z.leb_gt height 1)), (proj2 (Z.ltb_lt _ _)) by lia. done.
  - rewrite (proj2 (Z.ltb_ge (qhi * 2 ^ 64 + qlo) _)) by lia. done.
Qed.

(** ** Fusion: proofs *)

#[export] Instance Zle_total : Total Z.le.
Proof. intros x y. lia. Qed.

Lemma sort_Z_spec l : StronglySorted Z.le (sort_Z l) ∧ sort_Z l ≡ₚ l.
Proof. unfold sort_Z. split; [apply (StronglySorted_merge_sort Z.le)|apply merge_sort_Permutation]. Qed.

Lemma lower_bound_spec l x i :
  ∃ k, lower_bound l x i = (i + k)%nat ∧ (∀ j y, (j < k)%nat → l !! j = Some y → y < x) ∧
    (∀ y, l !! k = Some y → x <= y).
Proof.
  revert i. induction l as [|y l IH]; intros i.
  { exists 0%nat. split; [cbn; lia|]. split; [lia|done]. }
  cbn [lower_bound]. destruct (y <? x) eqn:E; bool_to_prop.
  - destruct (IH (S i)) as (k & -> & Hlt & Hge). exists (S k). split; [lia|]. split.
    + intros [|j] z Hj Hz; [naive_solver|]. apply (Hlt j); [lia|done].
    + done.
  - exists 0%nat. split; [lia|]. split; [lia|]. intros z [= <-]. done.
Qed.

(** A binary search of a strictly sorted table finds exactly its elements. *)
Lemma lower_bound_found l x k :
  StronglySorted Z.lt l → l !! k = Some x → lower_bound l x 0 = k.
Proof.
  intros Hs Hx. destruct (lower_bound_spec l x 0) as (k' & -> & Hlt & Hge). cbn.
  destruct (Nat.lt_trichotomy k k') as [H|[->|H]]; [|done|].
  - specialize (Hlt k x H Hx). lia.
  - destruct (lookup_lt_is_Some_2 l k') as [y Hy].
    { apply lookup_lt_Some in Hx. lia. }
    specialize (Hge y Hy).
    assert (y < x); [|lia]. clear Hlt Hge. revert k k' y Hx Hy H.
    induction Hs as [|z l Hs IH Hf]; [done|].
    intros [|k] [|k'] y Hx Hy Hk; [lia|lia| |].
    + injection Hy as ->. rewrite Forall_lookup in Hf. by apply (Hf k).
    + apply (IH k k'); [done..|lia].
Qed.

Fixpoint increasing (l : list Z) : bool :=
  match l with
  | x :: (y :: _) as l' => (x <? y) && increasing l'
  | _ => true
  end.

Lemma increasing_sorted l : increasing l = true → StronglySorted Z.lt l.
Proof.
  intros H. apply Sorted_StronglySorted; [exact Z.lt_trans|].
  induction l as [|x [|y l] IH]; [constructor|by repeat constructor|].
  cbn [increasing] in H. bool_to_prop. constructor; [by apply IH|by constructor].
Qed.

Lemma PRETTY_sorted : StronglySorted Z.lt PRETTY_AMOUNTS.
Proof. apply increasing_sorted. vm_compute. reflexivity. Qed.

Lemma PRETTY_lookup k a :
  PRETTY_AMOUNTS !! k = Some a ↔
  (k < 172)%nat ∧ a = (Z.of_nat k mod 9 + 1) * 10 ^ (Z.of_nat k / 9).
Proof.
  assert (length PRETTY_AMOUNTS = 172%nat) as Hl by (vm_compute; reflexivity).
  assert (∀ k, (k < 172)%nat →
    PRETTY_AMOUNTS !! k = Some ((Z.of_nat k mod 9 + 1) * 10 ^ (Z.of_nat k / 9))) as H.
  { clear k a Hl. intros k Hk.
    assert (forallb (λ k, bool_decide (PRETTY_AMOUNTS !! k =
      Some ((Z.of_nat k mod 9 + 1) * 10 ^ (Z.of_nat k / 9)))) (seq 0 172) = true) as HF
      by (vm_compute; reflexivity).
    rewrite forallb_forall in HF. apply (bool_decide_unpack _), Is_true_true, HF, in_seq. lia. }
  split.
  - intros E. apply lookup_lt_Some in E as Hk. rewrite Hl in Hk. rewrite (H k Hk) in E.
    split; [done|congruence].
  - intros [Hk ->]. by apply H.
Qed.

(** An amount of [d * 10^p] stands at position [9p + d - 1]. *)
Lemma PRETTY_digit d p :
  1 <= d <= 9 → 0 <= p → is_u64 (d * 10 ^ p) →
  PRETTY_AMOUNTS !! Z.to_nat (9 * p + d - 1) = Some (d * 10 ^ p).
Proof.
  intros Hd Hp Ha. unfold in_range in Ha.
  assert (p < 20).
  { apply Z.nle_gt. intros H. pose proof (Z.pow_le_mono_r 10 20 p ltac:(lia) H). nia. }
  assert (9 * p + d - 1 < 172).
  { destruct (decide (p = 19)) as [->|]; [|lia]. destruct (decide (d = 1)); [lia|].
    exfalso. lia. }
  apply PRETTY_lookup. split; [lia|]. rewrite Z2Nat.id by lia.
  assert ((9 * p + d - 1) / 9 = p) as -> by zlia.
  assert ((9 * p + d - 1) mod 9 = d - 1) as -> by zlia. f_equal. lia.
Qed.

(** ** Fees: proofs *)

Lemma inputs_amount_ret c ins height acc amounts :
  Forall2 (λ i a, getTransactionInputAmount c i height = Ret a) ins amounts →
  inputs_amount c ins height (u64 acc) = Ret (u64 (acc + sumZ amounts)).
Proof.
  intros H. revert acc. induction H as [|i a ins amounts Hi H IH]; intros acc.
  - cbn. by rewrite Z.add_0_r.
  - cbn [inputs_amount]. rewrite Hi. cbn [mbind outcome_bind].
    assert (u64 (u64 acc + a) = u64 (acc + a)) as -> by apply wrap_add_l.
    by rewrite IH, sumZ_cons, Z.add_assoc.
Qed.

(** ** Addresses: proofs *)

(** The binary form of an address is its two keys. *)
Lemma address_bytes adr :
  enc_AccountPublicAddress adr →
  toBinaryArray serialize_AccountPublicAddress adr [] =
    Ret (Some (spendPublicKey adr ++ viewPublicKey adr)).
Proof.
  intros [[Hb1 Hl1] [Hb2 Hl2]].
  assert (writes (St := BinaryOutputStreamSerializer VectorOutputStream)
    (serialize_AccountPublicAddress adr) (spendPublicKey adr ++ viewPublicKey adr ++ []) adr)
    as [_ Hw].
  { unfold serialize_AccountPublicAddress, serialize_key, serializePod. destruct adr as [sp vw].
    cbn [spendPublicKey viewPublicKey] in *.
    eapply writes_bind.
    { pose proof (binary_writes (So := VectorOutputStream) sp "m_spend_public_key" Hb1) as W.
      rewrite Hl1 in W. exact W. }
    cbv beta match. eapply writes_bind.
    { pose proof (binary_writes (So := VectorOutputStream) vw "m_view_public_key" Hb2) as W.
      rewrite Hl2 in W. exact W. }
    apply writes_ret. }
  unfold toBinaryArray. destruct (Hw (BOS {| vos_out := [] |})) as ([[out]] & -> & E).
  cbn in E. rewrite app_nil_r in E. by subst out.
Qed.

Section AddressProofs.
Context (cn_fast_hash : list Z → list Z) (check_key : PublicKey → bool).
Hypothesis hash_bytes : ∀ b, is_bytes (cn_fast_hash b) ∧ length (cn_fast_hash b) = 32%nat.

Lemma address_print_parse prefix adr :
  is_u64 prefix → enc_AccountPublicAddress adr →
  check_key (spendPublicKey adr) = true → check_key (viewPublicKey adr) = true →
  ∃ str, getAccountAddressAsStr cn_fast_hash prefix adr = Ret str ∧
    parseAccountAddressString cn_fast_hash check_key str = Ret (Some (prefix, adr)).
Proof using hash_bytes.
  intros Hp Ha Hs Hv.
  destruct (to_from_array _ _ _ AccountPublicAddress_codec adr Ha) as (ba & Eba & Hba & Hback).
  assert (Z.of_nat (length ba) < 2 ^ 64) as Hlen.
  { rewrite address_bytes in Eba by done. injection Eba as <-.
    destruct Ha as [[_ H1] [_ H2]]. rewrite length_app, H1, H2. done. }
  destruct (encode_decode_addr cn_fast_hash hash_bytes prefix ba Hp Hba) as (str & Es & _ & Ed).
  exists str. unfold getAccountAddressAsStr, parseAccountAddressString. rewrite Eba, Ed.
  split; [done|]. cbn [mbind outcome_bind]. rewrite (Hback Hlen). cbn [mbind outcome_bind].
  by rewrite Hs, Hv.
Qed.

End AddressProofs.

(** ** Properties *)

(** the base reward is the constant ceiling, or what the supply has left,
    for every height below 61 intervals of 21,900 blocks, and the assertion of
    [baseRewardFunction] fails from there on, although blocks up to height
    500,000,000 are admitted. *)
Theorem base_reward_schedule coins h :
  0 <= coins <= MONEY_SUPPLY → 0 <= h <= CRYPTONOTE_MAX_BLOCK_NUMBER →
  baseRewardFunction mainnet coins h =
    if h <? 1335900 then Ret (Z.min MAX_BLOCK_REWARD (MONEY_SUPPLY - coins)) else Abort.
Proof.
  intros Hc Hh. case_bool.
  - change MONEY_SUPPLY with (m_moneySupply mainnet) in *. apply baseRewardFunction_ret; [|lia..].
    unfold in_range. cbn. lia.
  - by apply baseRewardFunction_abort.
Qed.

Lemma base_reward_schedule_witness :
  baseRewardFunction mainnet 0 300000 = Ret 2000000 ∧
  baseRewardFunction mainnet 0 1335900 = Abort.
Proof.
  split;
    (rewrite base_reward_schedule;
     [reflexivity|unfold MONEY_SUPPLY; lia|unfold CRYPTONOTE_MAX_BLOCK_NUMBER; lia]).
Defined.



(** the interest of a deposit whose term is not a whole number of 21,900
    block periods is the exact floor of [amount * 4 * term / 26,280,000]
    (the 128-bit product and quotient lose nothing); where that does not fit 64
    bits the code stops at an assertion. *)
Theorem interest_exact amount term height :
  is_u64 amount → is_u32 term → term mod 21900 ≠ 0 → 1 < height →
  calculateInterestMaths mainnet amount term height =
    if amount * (4 * term) / 26280000 <? 2 ^ 64
    then Ret (amount * (4 * term) / 26280000) else Abort.
Proof. apply interest_rational. Qed.

Lemma interest_exact_witness :
  calculateInterestMaths mainnet 100000000 30000 500 = Ret 456621 ∧
  calculateInterestMaths mainnet UINT64_MAX 4294967295 500 = Abort.
Proof.
  split; (rewrite interest_exact; [reflexivity|by (vm_compute; split)|by (vm_compute; split)|done|lia]).
Defined.

(** where the amounts do not overflow, the fee of a transaction is what its
    inputs, with their interest, exceed its outputs by. A transaction whose
    outputs exceed its inputs is refused only when the excess is at most the
    minimum fee: any larger excess is reported as a valid transaction that pays
    the minimum fee. *)
Theorem transaction_fee_spec c (tx : Transaction) height amounts :
  Forall2 (λ i a, getTransactionInputAmount c i height = Ret a) (inputs tx) amounts →
  inputs tx ≠ [] → outputs tx ≠ [] →
  0 <= sumZ amounts < 2 ^ 64 - MINIMUM_FEE → is_u64 (sumZ (out_amount <$> outputs tx)) →
  let spent := sumZ (out_amount <$> outputs tx) in
  getTransactionFee c tx height =
    Ret (if spent <=? sumZ amounts then Some (sumZ amounts - spent)
         else if spent - sumZ amounts <=? MINIMUM_FEE then None
         else Some MINIMUM_FEE).
Proof.
  intros Ha Hin Hout Hs Ho spent. unfold getTransactionFee.
  pose proof (inputs_amount_ret c _ height 0 amounts Ha) as E.
  change (u64 0) with 0 in E. rewrite E. cbn [mbind outcome_bind].
  rewrite sum64_exact by done. fold spent. rewrite Z.add_0_l.
  unfold MINIMUM_FEE, in_range in *. fold spent in Ho.
  rewrite (u64_small (sumZ amounts)) by (unfold in_range; lia).
  destruct (inputs tx) as [|i ins]; [done|]. destruct (outputs tx) as [|o outs]; [done|].
  cbn [length]. rewrite !u64_small by (unfold in_range; lia). unfold mret, outcome_ret.
  destruct (Z.leb_spec spent (sumZ amounts)), (Z.ltb_spec (sumZ amounts) spent); try lia.
  - rewrite u64_small by (unfold in_range; lia). done.
  - rewrite !(proj2 (Z.ltb_lt 0 _)) by lia. cbn [andb].
    destruct (Z.ltb_spec (sumZ amounts + 100) spent), (Z.leb_spec (spent - sumZ amounts) 100);
      done || lia.
Qed.

(** An input of 1,000 atomic units and one output of the given amount. *)
Definition sample_spend (out : Z) : Transaction := {|
  tx_prefix := {| version := 1; unlockTime := 0;
    inputs := [InKey {| ki_amount := 1000; ki_outputIndexes := []; ki_keyImage := replicate 32 0 |}];
    outputs := [{| out_amount := out; out_target := OutKey {| ko_key := replicate 32 0 |} |}];
    extra := [] |};
  signatures := [] |}.

Lemma transaction_fee_spec_witness :
  getTransactionFee mainnet (sample_spend 900) 5 = Ret (Some 100) ∧
  getTransactionFee mainnet (sample_spend 1100) 5 = Ret None ∧
  getTransactionFee mainnet (sample_spend 999999) 5 = Ret (Some 100).
Proof.
  split_and!; (rewrite (transaction_fee_spec mainnet _ 5 [1000]);
    [reflexivity|repeat constructor|done|done|done|by (vm_compute; split)]).
Defined.

(** from height two on, the binary search of the table accepts an amount as
    a fusion input exactly when it is below the threshold and a digit times a
    power of ten, and returns that power. *)
Theorem fusion_amount_exact c amount threshold height p :
  is_u64 amount → UPGRADE_HEIGHT_V3 <= height →
  isAmountApplicableInFusionTransactionInput c amount threshold height = Some p ↔
  amount < threshold ∧ 0 <= p ∧ ∃ d, 1 <= d <= 9 ∧ amount = d * 10 ^ p.
Proof.
  intros Ha Hh. unfold isAmountApplicableInFusionTransactionInput.
  destruct (Z.leb_spec threshold amount) as [Ht|Ht].
  { split; [done|]. intros [? _]. lia. }
  rewrite (proj2 (Z.ltb_ge height _)) by done. cbn [andb]. split.
  - generalize (lower_bound PRETTY_AMOUNTS amount 0). intros k.
    destruct (PRETTY_AMOUNTS !! k) as [a|] eqn:E; [|done].
    destruct (Z.eqb_spec amount a) as [<-|]; [|done]. cbn [negb]. intros [= <-].
    apply PRETTY_lookup in E as [Hk Heq].
    assert (0 <= Z.of_nat k / 9 <= 19 ∧ 0 <= Z.of_nat k mod 9 <= 8) as [? ?] by (clear Heq Ha Ht; zlia).
    rewrite u8_small by (unfold in_range; lia). split; [done|]. split; [lia|].
    exists (Z.of_nat k mod 9 + 1). split; [lia|done].
  - intros (_ & Hp & d & Hd & ->). pose proof (PRETTY_digit d p Hd Hp Ha) as E.
    rewrite (lower_bound_found _ _ _ PRETTY_sorted E), E, Z.eqb_refl. cbn [negb].
    assert (9 * p + d - 1 < 172).
    { apply PRETTY_lookup in E as [? _]. lia. }
    rewrite Z2Nat.id by lia. f_equal.
    assert ((9 * p + d - 1) / 9 = p) as -> by (clear E Ha Ht; zlia).
    apply u8_small. unfold in_range. lia.
Qed.

Lemma fusion_amount_exact_witness :
  isAmountApplicableInFusionTransactionInput mainnet 7000 100000 2 = Some 3.
Proof.
  apply (fusion_amount_exact mainnet 7000 100000 2 3).
  - by (vm_compute; split).
  - done.
  - split; [done|]. split; [done|]. by exists 7.
Defined.

(** an address whose keys are points of the curve is printed, and parsing
    the string under the same currency gives the address back; under a currency
    with another prefix the string is refused. *)
Theorem account_address_roundtrip cn_fast_hash check_key c adr :
  (∀ b, is_bytes (cn_fast_hash b) ∧ length (cn_fast_hash b) = 32%nat) →
  is_u64 (m_publicAddressBase58Prefix c) → enc_AccountPublicAddress adr →
  check_key (spendPublicKey adr) = true → check_key (viewPublicKey adr) = true →
  ∃ str, accountAddressAsString cn_fast_hash c adr = Ret str ∧
    ∀ c', Currency_parseAccountAddressString cn_fast_hash check_key c' str =
      Ret (if m_publicAddressBase58Prefix c =? m_publicAddressBase58Prefix c'
           then Some adr else None).
Proof.
  intros Hh Hp Ha Hs Hv.
  destruct (address_print_parse cn_fast_hash check_key Hh _ adr Hp Ha Hs Hv) as (str & Hpr & Hpa).
  exists str. split; [done|]. intros c'. unfold Currency_parseAccountAddressString. rewrite Hpa.
  cbn [mbind outcome_bind]. unfold mret, outcome_ret. by destruct (_ =? _).
Qed.

Lemma account_address_roundtrip_witness :
  ∃ str, accountAddressAsString sample_hash mainnet
      {| spendPublicKey := replicate 32 7; viewPublicKey := replicate 32 9 |} = Ret str ∧
    ∀ c', Currency_parseAccountAddressString sample_hash (λ k, bool_decide (k ≠ replicate 32 0)) c' str =
      Ret (if m_publicAddressBase58Prefix mainnet =? m_publicAddressBase58Prefix c'
           then Some {| spendPublicKey := replicate 32 7; viewPublicKey := replicate 32 9 |} else None).
Proof.
  apply account_address_roundtrip; [| |split; by apply (bool_decide_unpack _); vm_compute|done|done].
  - intros b. split; [|done]. constructor; [apply u8_range|]. by apply Forall_replicate.
  - by (vm_compute; split).
Defined.

(** the genesis block is generated, on the main network and on the test
    network: the constant in hexadecimal is a canonical transaction, it is a
    coinbase, it pays exactly the base reward of height zero and it unlocks after
    the mined money window. *)
Theorem genesis_block_valid testnet :
  ∃ b, generateGenesisBlock testnet = Ret (Some b) ∧
    is_coinbase (baseTransaction b) = true ∧
    baseRewardFunction mainnet 0 0 = Ret (getOutputAmount (baseTransaction b)) ∧
    unlockTime (baseTransaction b) = m_minedMoneyUnlockWindow mainnet ∧
    ∃ ba, toBinaryArray serialize_Transaction (baseTransaction b) [] = Ret (Some ba) ∧
      toHex ba = Ret GENESIS_COINBASE_TX_HEX.
Proof.
  destruct testnet; (eexists; split; [vm_compute; reflexivity|]);
    (split_and!; [vm_compute; reflexivity..|]);
    (eexists; split; [vm_compute; reflexivity|vm_compute; reflexivity]).
Qed.
