(* ===== verification/Difficulty.v ===== *)
(** * Difficulty adjustment

    [Currency::nextDifficulty] and [Currency::nextDifficultyLWMA3] of
    [src/src/CryptoNoteCore/Currency.cpp]: the classic window with outliers cut
    on both sides, and the linearly weighted moving average that follows it.
    Both are proved equal to reference definitions over the integers on the
    inputs that do not overflow, and the second is proved to move by bounded
    steps on all inputs. *)

From S2P Require Import Prelude IntUtil Config Currency.
From stdpp Require Import sorting.

Local Open Scope Z_scope.

(** [std::vector::resize]. *)
Definition resize (n : nat) (l : list Z) : list Z := take n l ++ replicate (n - length l) 0.

(** Division of unsigned integers; a zero divisor stops the program. *)
Definition udiv (a b : Z) : outcome Z := if b =? 0 then Abort else mret (a / b).

Section NextDifficulty.
Variable c : Currency.

Definition nextDifficulty (timestamps cumulativeDifficulties : list Z) : outcome Z :=
  let W := m_difficultyWindow c in
  assert_ (2 <=? W);;
  let big := W <? Z.of_nat (length timestamps) in
  let timestamps := if big then resize (Z.to_nat W) timestamps else timestamps in
  let cumulativeDifficulties :=
    if big then resize (Z.to_nat W) cumulativeDifficulties else cumulativeDifficulties in
  let len := Z.of_nat (length timestamps) in
  assert_ (len =? Z.of_nat (length cumulativeDifficulties));;
  assert_ (len <=? W);;
  if len <=? 1 then mret 1
  else
    let timestamps := sort_Z timestamps in
    let kept := u64 (W - u64 (2 * m_difficultyCut c)) in
    assert_ (u64 (2 * m_difficultyCut c) <=? u64 (W - 2));;
    let cutBegin := if len <=? kept then 0 else u64 (u64 (len - kept) + 1) / 2 in
    let cutEnd := if len <=? kept then len else u64 (cutBegin + kept) in
    assert_ ((u64 (cutBegin + 2) <=? cutEnd) && (cutEnd <=? len));;
    tEnd ← at_ timestamps (u64 (cutEnd - 1));
    tBegin ← at_ timestamps cutBegin;
    let timeSpan := u64 (tEnd - tBegin) in
    let timeSpan := if timeSpan =? 0 then 1 else timeSpan in
    dEnd ← at_ cumulativeDifficulties (u64 (cutEnd - 1));
    dBegin ← at_ cumulativeDifficulties cutBegin;
    let totalWork := u64 (dEnd - dBegin) in
    assert_ (0 <? totalWork);;
    '(low, high) ← mul128 totalWork (m_difficultyTarget c);
    if negb (high =? 0) || (u64 (u64 (low + timeSpan) - 1) <? low) then mret 0
    else udiv (u64 (u64 (low + timeSpan) - 1)) timeSpan.
End NextDifficulty.

(** ** LWMA-3 *)

(** The body of the loop: (previous_timestamp, L, sum_3_ST). *)
Definition lwma_step (timestamps : list Z) (T N i : Z) (st : Z * Z * Z) : outcome (Z * Z * Z) :=
  let '(previous_timestamp, L, sum_3_ST) := st in
  t ← at_ timestamps i;
  let this_timestamp := if previous_timestamp <? t then t else u64 (previous_timestamp + 1) in
  let ST := Z.min (u64 (6 * T)) (u64 (this_timestamp - previous_timestamp)) in
  let L := u64 (L + u64 (ST * i)) in
  let sum_3_ST := if u64 (N - 3) <? i then u64 (sum_3_ST + ST) else sum_3_ST in
  mret (this_timestamp, L, sum_3_ST).

Definition nextDifficultyLWMA3 (timestamps cumulative_difficulties : list Z) : outcome Z :=
  let T := 120 in
  let N := 60 in
  let size := Z.of_nat (length timestamps) in
  assert_ ((size =? Z.of_nat (length cumulative_difficulties)) && (size <=? u64 (N + 1)));;
  let difficulty_guess := 100 in
  if size <=? 10 then mret difficulty_guess
  else
    let N := if size <? u64 (N + 1) then u64 (size - 1) else N in
    previous_timestamp ← at_ timestamps 0;
    '(_, L, sum_3_ST) ← for_ (Z.to_nat N) 1 (lwma_step timestamps T N) (previous_timestamp, 0, 0);
    dN ← at_ cumulative_difficulties N;
    d0 ← at_ cumulative_difficulties 0;
    next_D ← udiv (u64 (u64 (u64 (u64 (dN - d0) * T) * u64 (N + 1)) * 99)) (u64 (200 * L));
    dPrev ← at_ cumulative_difficulties (u64 (N - 1));
    let prev_D := u64 (dN - dPrev) in
    let next_D := Z.max (u64 (prev_D * 67) / 100) (Z.min next_D (u64 (prev_D * 150) / 100)) in
    let next_D := if sum_3_ST <? u64 (8 * T) / 10
                  then Z.max next_D (u64 (prev_D * 108) / 100) else next_D in
    mret next_D.

(** ** Reference definitions *)

(** Ceiling of a quotient. *)
Definition ceil_div (a b : Z) : Z := (a + b - 1) / b.

(** The window [nextDifficulty] keeps of [n] blocks on the main network: at most
    600 of at most 720, the cut shared by both ends. *)
Definition window_begin (n : Z) : Z := if n <=? 600 then 0 else (n - 600 + 1) / 2.
Definition window_end (n : Z) : Z := if n <=? 600 then n else window_begin n + 600.

(** Solve times with out-of-order timestamps pushed to one second after their
    predecessor, at most six targets each. *)
Fixpoint solve_times (prev : Z) (ts : list Z) : list Z :=
  match ts with
  | [] => []
  | t :: ts' => let this := Z.max t (prev + 1) in Z.min 720 (this - prev) :: solve_times this ts'
  end.

(** [i * l_0 + (i+1) * l_1 + ...]. *)
Fixpoint weighted (i : Z) (l : list Z) : Z :=
  match l with [] => 0 | x :: l' => x * i + weighted (i + 1) l' end.

Definition clamp_D (prev_D next_D recent : Z) : Z :=
  let D := Z.max (prev_D * 67 / 100) (Z.min next_D (prev_D * 150 / 100)) in
  if recent <? 96 then Z.max D (prev_D * 108 / 100) else D.

(** ** LWMA-3: proofs *)

(** The sum the jump rule looks at, as the loop gathers it. *)
Fixpoint recent_sum (N i : Z) (l : list Z) : Z :=
  match l with [] => 0 | x :: l' => (if N - 3 <? i then x else 0) + recent_sum N (i + 1) l' end.

Lemma recent_sum_all N i l : N - 3 < i → recent_sum N i l = sumZ l.
Proof.
  revert i. induction l as [|x l IH]; intros i Hi; [done|].
  cbn [recent_sum]. rewrite (proj2 (Z.ltb_lt _ _) Hi), sumZ_cons, IH; lia.
Qed.

Lemma recent_sum_last N i l :
  N = i + Z.of_nat (length l) - 1 → recent_sum N i l = sumZ (drop (length l - 3) l).
Proof.
  revert i. induction l as [|x l IH]; intros i HN; [done|].
  cbn [length] in *. destruct (decide (N - 3 < i)) as [H|H].
  - rewrite recent_sum_all by done. by replace (S (length l) - 3)%nat with 0%nat by lia.
  - cbn [recent_sum]. rewrite (proj2 (Z.ltb_ge _ _)), IH by lia.
    by replace (S (length l) - 3)%nat with (S (length l - 3)) by lia.
Qed.

Lemma u64_add_l a b : u64 (u64 a + b) = u64 (a + b).
Proof. apply wrap_add_l. Qed.
Lemma u64_add_r a b : u64 (a + u64 b) = u64 (a + b).
Proof. apply wrap_add_r. Qed.

Lemma lwma_step_ret timestamps N i t prev L s3 :
  timestamps !! i = Some t → 0 <= t < 2 ^ 63 → 3 <= N < 2 ^ 32 → 0 <= prev < 2 ^ 63 + 2 ^ 32 →
  let this := Z.max t (prev + 1) in
  let st := Z.min 720 (this - prev) in
  lwma_step timestamps 120 N (Z.of_nat i) (prev, u64 L, u64 s3) =
    Ret (this, u64 (L + st * Z.of_nat i), u64 (s3 + (if N - 3 <? Z.of_nat i then st else 0))).
Proof.
  intros Hlook Ht HN Hp this st. unfold lwma_step.
  rewrite (at_Some _ _ t) by (rewrite ?Nat2Z.id; done || lia). cbn [mbind outcome_bind].
  assert ((if prev <? t then t else u64 (prev + 1)) = this) as ->.
  { subst this. case_bool; [lia|]. rewrite u64_small by (unfold in_range; lia). lia. }
  rewrite (u64_small (this - prev)) by (unfold in_range; lia).
  rewrite (u64_small (N - 3)) by (unfold in_range; lia).
  change (u64 (6 * 120)) with 720. fold st. rewrite u64_add_r, u64_add_l.
  destruct (N - 3 <? Z.of_nat i); [by rewrite u64_add_l|by rewrite Z.add_0_r].
Qed.

(** The loop computes the weighted sum and the recent sum of the solve times. *)
Lemma lwma_loop timestamps N n : ∀ i prev L s3,
  Forall (λ t, 0 <= t < 2 ^ 63) (drop i timestamps) → length (drop i timestamps) = n →
  3 <= N < 2 ^ 32 → 0 <= prev < 2 ^ 63 + Z.of_nat i → Z.of_nat (i + n) < 2 ^ 32 →
  ∃ prev', for_ n (Z.of_nat i) (lwma_step timestamps 120 N) (prev, u64 L, u64 s3) =
    Ret (prev', u64 (L + weighted (Z.of_nat i) (solve_times prev (drop i timestamps))),
         u64 (s3 + recent_sum N (Z.of_nat i) (solve_times prev (drop i timestamps)))).
Proof.
  induction n as [|n IH]; intros i prev L s3 Ht Hl HN Hp Hi.
  { apply length_zero_iff_nil in Hl. rewrite Hl. cbn. exists prev. by rewrite !Z.add_0_r. }
  destruct (drop i timestamps) as [|t ts] eqn:Ed; [done|].
  assert (timestamps !! i = Some t) as Hlook.
  { rewrite <- (Nat.add_0_r i), <- lookup_drop. by rewrite Ed. }
  assert (drop (S i) timestamps = ts) as Ed'.
  { by rewrite <- Nat.add_1_r, <- drop_drop, Ed. }
  apply Forall_cons_iff in Ht as [Ht Hts]. rewrite for_S.
  rewrite (lwma_step_ret _ _ _ t) by (done || lia). cbn [mbind outcome_bind].
  cbn [solve_times weighted recent_sum].
  set (this := Z.max t (prev + 1)). set (st := Z.min 720 (this - prev)).
  set (r := if N - 3 <? Z.of_nat i then st else 0).
  destruct (IH (S i) this (L + st * Z.of_nat i) (s3 + r)) as [prev' E];
    rewrite ?Ed'; [done|by injection Hl|done|subst this; lia|lia|].
  exists prev'. replace (Z.of_nat i + 1) with (Z.of_nat (S i)) by lia. rewrite E, Ed'.
  by rewrite !Z.add_assoc.
Qed.

Lemma solve_times_length prev ts : length (solve_times prev ts) = length ts.
Proof. revert prev. induction ts as [|t ts IH]; intros prev; [done|]. cbn. by rewrite IH. Qed.

Lemma solve_times_bounds prev ts : Forall (λ s, 1 <= s <= 720) (solve_times prev ts).
Proof. revert prev. induction ts as [|t ts IH]; intros prev; constructor; [lia|apply IH]. Qed.

Lemma weighted_bounds i l :
  0 < i → l ≠ [] → Forall (λ s, 1 <= s <= 720) l →
  0 < weighted i l <= 720 * (i + Z.of_nat (length l)) * Z.of_nat (length l).
Proof.
  intros Hi Hne H. revert i Hi Hne. induction H as [|x l Hx H IH]; intros i Hi Hne; [done|].
  cbn [weighted length]. destruct (decide (l = [])) as [->|Hl]; [cbn; nia|].
  specialize (IH (i + 1) ltac:(lia) Hl). nia.
Qed.

Lemma sumZ_bounds l : Forall (λ s, 1 <= s <= 720) l → 0 <= sumZ l <= 720 * Z.of_nat (length l).
Proof. induction 1; cbn [sumZ foldr length] in *; [lia|]. fold (sumZ l) in *. lia. Qed.

Lemma clamp_D_bounds prev_D next_D recent :
  0 <= prev_D →
  prev_D * 67 / 100 <= clamp_D prev_D next_D recent <= prev_D * 150 / 100 ∧
  (recent < 96 → prev_D * 108 / 100 <= clamp_D prev_D next_D recent).
Proof.
  intros Hp. unfold clamp_D.
  assert (prev_D * 67 / 100 <= prev_D * 150 / 100 ∧ prev_D * 108 / 100 <= prev_D * 150 / 100)
    as [? ?] by zlia.
  case_bool; lia.
Qed.

(** What the LWMA computes from [t0 :: ts] and cumulative difficulties that end
    in [dp], [dn]. *)
Definition lwma3_spec (t0 : Z) (ts : list Z) (d0 dp dn : Z) : Z :=
  let sts := solve_times t0 ts in
  let n := Z.of_nat (length ts) in
  clamp_D (dn - dp) ((dn - d0) * 120 * (n + 1) * 99 / (200 * weighted 1 sts))
    (sumZ (drop (length ts - 3) sts)).

(** The loop on any timestamps: the weighted sum is positive and small. *)
Lemma lwma_loop_total timestamps N n : ∀ i prev L s3,
  (i + n <= length timestamps)%nat → (i + n <= 62)%nat → (0 < i)%nat →
  is_u64 prev → Forall is_u64 timestamps → 0 <= L <= 720 * 62 * Z.of_nat i →
  ∃ prev' L' s3', for_ n (Z.of_nat i) (lwma_step timestamps 120 N) (prev, L, s3) = Ret (prev', L', s3') ∧
    L + Z.of_nat n <= L' <= 720 * 62 * Z.of_nat (i + n).
Proof.
  induction n as [|n IH]; intros i prev L s3 Hl Hi Hi0 Hp Ht HL.
  { exists prev, L, s3. cbn. split; [done|lia]. }
  destruct (lookup_lt_is_Some_2 timestamps i) as [t Et]; [lia|].
  pose proof (proj1 (Forall_lookup _ _) Ht i t Et) as Ht64.
  set (this := if prev <? t then t else u64 (prev + 1)).
  set (ST := Z.min (u64 (6 * 120)) (u64 (this - prev))).
  assert (is_u64 this) as Hthis by (subst this; case_bool; [done|apply u64_range]).
  assert (1 <= ST <= 720) as HST.
  { subst ST. change (u64 (6 * 120)) with 720. pose proof (u64_range (this - prev)) as Hr.
    unfold in_range in *. assert (u64 (this - prev) ≠ 0) as Hz; [|lia].
    subst this. case_bool; unfold u64, wrap in *; zlia. }
  assert (∃ s, lwma_step timestamps 120 N (Z.of_nat i) (prev, L, s3) =
    Ret (this, L + ST * Z.of_nat i, s)) as [s Es].
  { unfold lwma_step. rewrite (at_Some _ _ t) by (rewrite ?Nat2Z.id; done || lia).
    cbn [mbind outcome_bind]. fold this ST.
    rewrite (u64_small (ST * Z.of_nat i)) by (unfold in_range; nia).
    rewrite (u64_small (L + ST * Z.of_nat i)) by (unfold in_range; nia). by eexists. }
  rewrite for_S, Es. cbn [mbind outcome_bind].
  replace (Z.of_nat i + 1) with (Z.of_nat (S i)) by lia.
  match goal with |- context [for_ n _ _ (this, ?L1, ?s1)] =>
    destruct (IH (S i) this L1 s1) as (prev' & L' & s3' & E & HL') end; [lia..|done|done|nia|].
  exists prev', L', s3'. split; [exact E|]. nia.
Qed.

(** On vectors of equal length within the window the algorithm returns, whatever the
    values are: no index is out of range and the divisor is not zero. *)
Lemma lwma3_total timestamps cds :
  length timestamps = length cds → (length timestamps <= 61)%nat → Forall is_u64 timestamps →
  ∃ d, nextDifficultyLWMA3 timestamps cds = Ret d.
Proof.
  intros Hl H61 Ht. unfold nextDifficultyLWMA3. cbv zeta. rewrite <- Hl, Z.eqb_refl. change (u64 (60 + 1)) with 61.
  rewrite (proj2 (Z.leb_le _ 61)) by lia. cbn [andb assert_ mbind outcome_bind].
  case_bool; [by eexists|].
  assert ((if Z.of_nat (length timestamps) <? 61 then u64 (Z.of_nat (length timestamps) - 1) else 60) =
    Z.of_nat (length timestamps - 1)) as ->.
  { case_bool; [rewrite u64_small by (unfold in_range; lia)|]; lia. }
  set (n := (length timestamps - 1)%nat).
  destruct timestamps as [|t0 ts]; [simpl in *; lia|].
  rewrite (at_Some (t0 :: ts) 0 t0) by done. cbn [mbind outcome_bind]. rewrite Nat2Z.id.
  pose proof (proj1 (proj1 (Forall_cons_iff _ _ _) Ht)) as Ht0. cbn [length] in *.
  destruct (lwma_loop_total (t0 :: ts) (Z.of_nat n) n 1 t0 0 0) as (p & L & s3 & E & HL);
    [cbn [length]; lia..|done|done|lia|]. change (Z.of_nat 1) with 1 in E. rewrite E. cbn [mbind outcome_bind].
  destruct (lookup_lt_is_Some_2 cds n) as [dn En]; [lia|].
  destruct (lookup_lt_is_Some_2 cds 0) as [d0 E0]; [lia|].
  destruct (lookup_lt_is_Some_2 cds (n - 1)) as [dp Ep]; [lia|].
  rewrite (at_Some cds (Z.of_nat n) dn) by (rewrite ?Nat2Z.id; done || apply Nat2Z.is_nonneg).
  rewrite (at_Some cds 0 d0) by done. cbn [mbind outcome_bind].
  rewrite (u64_small (200 * L)) by (unfold in_range; lia). unfold udiv.
  rewrite (proj2 (Z.eqb_neq (200 * L) 0)) by lia. cbn [mbind outcome_bind].
  rewrite (u64_small (Z.of_nat n - 1)) by (unfold in_range; lia).
  rewrite (at_Some cds (Z.of_nat n - 1) dp); [by eexists|lia|].
  by replace (Z.to_nat (Z.of_nat n - 1)) with (n - 1)%nat by lia.
Qed.

Section Lwma.
Context (t0 : Z) (ts cds : list Z) (d0 dp dn : Z).
Hypothesis sizes : length cds = S (length ts) ∧ (10 <= length ts <= 60)%nat.
Hypothesis times : Forall (λ t, 0 <= t < 2 ^ 63) (t0 :: ts).
Hypothesis works : cds !! 0%nat = Some d0 ∧ cds !! (length ts - 1)%nat = Some dp ∧
  cds !! length ts = Some dn.
Hypothesis ordered : 0 <= d0 <= dp ∧ dp <= dn < 2 ^ 64.
Hypothesis fits : (dn - d0) * 120 * 61 * 99 < 2 ^ 64.

Lemma lwma3_sums :
  ∃ prev', for_ (length ts) 1 (lwma_step (t0 :: ts) 120 (Z.of_nat (length ts))) (t0, 0, 0) =
    Ret (prev', weighted 1 (solve_times t0 ts),
         sumZ (drop (length ts - 3) (solve_times t0 ts))) ∧
    0 < weighted 1 (solve_times t0 ts) < 2 ^ 32.
Proof using sizes times.
  destruct sizes as [_ Hn]. apply Forall_cons_iff in times as [Ht0 Hts].
  destruct (lwma_loop (t0 :: ts) (Z.of_nat (length ts)) (length ts) 1 t0 0 0) as [prev' E];
    [done|done|lia..|]. change (drop 1 (t0 :: ts)) with ts in E. change (u64 0) with 0 in E. change (Z.of_nat 1) with 1 in E.
  pose proof (solve_times_length t0 ts) as Hl.
  pose proof (solve_times_bounds t0 ts) as Hb.
  assert (solve_times t0 ts ≠ []) as Hne by (intros H; rewrite H in Hl; simpl in Hl; lia).
  pose proof (weighted_bounds 1 _ ltac:(lia) Hne Hb) as Hw. rewrite Hl in Hw.
  pose proof (sumZ_bounds _ (Forall_drop _ (length ts - 3) _ Hb)) as Hs.
  rewrite length_drop, Hl in Hs.
  rewrite (recent_sum_last _ _ (solve_times t0 ts)) in E by lia. rewrite Hl in E.
  assert (720 * (1 + Z.of_nat (length ts)) * Z.of_nat (length ts) <= 720 * 61 * 60)
    by (clear -Hn; nia).
  exists prev'. rewrite E, !Z.add_0_l, !u64_small by (unfold in_range; lia). split; [done|]. lia.
Qed.

Lemma lwma3_ret : nextDifficultyLWMA3 (t0 :: ts) cds = Ret (lwma3_spec t0 ts d0 dp dn).
Proof using sizes times works ordered fits.
  destruct lwma3_sums as (prev' & Hloop & Hw). destruct sizes as [Hl Hn].
  destruct works as (W0 & W1 & W2). unfold nextDifficultyLWMA3.
  set (size := Z.of_nat (length (t0 :: ts))).
  assert (size = Z.of_nat (length ts) + 1) as Hsz by (subst size; cbn [length]; lia).
  rewrite Hl. change (u64 (60 + 1)) with 61.
  rewrite (proj2 (Z.eqb_eq size _)), (proj2 (Z.leb_le size 61)) by lia. cbn [andb].
  cbn [assert_ mbind outcome_bind]. rewrite (proj2 (Z.leb_gt size 10)) by lia.
  assert ((if size <? 61 then u64 (size - 1) else 60) = Z.of_nat (length ts)) as ->.
  { case_bool; [rewrite u64_small by (unfold in_range; lia)|]; lia. }
  rewrite (at_Some (t0 :: ts) 0 t0) by done. cbn [mbind outcome_bind].
  rewrite Nat2Z.id, Hloop. cbn [mbind outcome_bind].
  rewrite (at_Some cds (Z.of_nat (length ts)) dn) by (rewrite ?Nat2Z.id; done || lia).
  rewrite (at_Some cds 0 d0) by done.
  cbn [mbind outcome_bind].
  set (w := weighted 1 (solve_times t0 ts)) in *. set (n := Z.of_nat (length ts)) in *.
  rewrite (u64_small (n + 1)), (u64_small (dn - d0)), (u64_small (200 * w)),
    (u64_small (n - 1)) by (unfold in_range; lia).
  assert (0 <= (dn - d0) * 120 * (n + 1) <= (dn - d0) * 120 * 61) by nia.
  rewrite (u64_small ((dn - d0) * 120)), (u64_small (_ * (n + 1))), (u64_small (_ * 99))
    by (unfold in_range; lia). unfold udiv.
  rewrite (proj2 (Z.eqb_neq (200 * w) 0)) by lia. cbn [mbind outcome_bind mret outcome_ret].
  rewrite (at_Some cds _ dp) by (done || lia || by replace (Z.to_nat (n - 1)) with (length ts - 1)%nat by lia).
  cbn [mbind outcome_bind]. change (u64 (8 * 120) / 10) with 96.
  rewrite !(u64_small (dn - dp)) by (unfold in_range; lia).
  rewrite (u64_small (_ * 67)), (u64_small (_ * 150)), (u64_small (_ * 108))
    by (unfold in_range; lia). done.
Qed.
End Lwma.

(** ** The classic window: proofs *)

Definition nth_Z (l : list Z) (i : Z) : Z := default 0 (l !! Z.to_nat i).

Lemma at_nth l i : 0 <= i < Z.of_nat (length l) → at_ l i = Ret (nth_Z l i).
Proof.
  intros H. destruct (lookup_lt_is_Some_2 l (Z.to_nat i)) as [x Hx]; [lia|].
  unfold nth_Z. rewrite Hx. apply at_Some; [lia|done].
Qed.

Lemma nth_sorted (R : relation Z) l i j :
  StronglySorted R l → 0 <= i < j → j < Z.of_nat (length l) → R (nth_Z l i) (nth_Z l j).
Proof.
  intros Hs Hi Hj. unfold nth_Z.
  destruct (lookup_lt_is_Some_2 l (Z.to_nat i)) as [x Hx]; [lia|].
  destruct (lookup_lt_is_Some_2 l (Z.to_nat j)) as [y Hy]; [lia|].
  rewrite Hx, Hy. cbn. assert (Z.to_nat i < Z.to_nat j)%nat as Hij by lia.
  clear Hi Hj. revert Hx Hy Hij. generalize (Z.to_nat i), (Z.to_nat j).
  induction Hs as [|z l Hs IH Hf]; [done|].
  intros [|k] [|k'] Hx Hy Hk; [lia| |lia|].
  - injection Hx as ->. rewrite Forall_lookup in Hf. by apply (Hf k').
  - apply (IH k k'); [done..|lia].
Qed.

Lemma resize_take n l : (n <= length l)%nat → resize n l = take n l.
Proof. intros H. unfold resize. replace (n - length l)%nat with 0%nat by lia. apply app_nil_r. Qed.

Lemma nth_in P l i : Forall P l → 0 <= i < Z.of_nat (length l) → P (nth_Z l i).
Proof.
  intros HF H. destruct (lookup_lt_is_Some_2 l (Z.to_nat i)) as [x Hx]; [lia|].
  unfold nth_Z. rewrite Hx. rewrite Forall_lookup in HF. by apply (HF (Z.to_nat i)).
Qed.

Lemma window_spec n :
  2 <= n <= 720 → 0 <= window_begin n ∧ window_begin n + 2 <= window_end n <= n ∧
    window_end n <= window_begin n + 600.
Proof. intros H. unfold window_end, window_begin. destruct (Z.leb_spec n 600); zlia. Qed.

(** The difficulty of the kept window. *)
Definition difficulty_spec (ts cds : list Z) : Z :=
  let n := Z.of_nat (length ts) in
  let sorted := sort_Z ts in
  let span := Z.max 1 (nth_Z sorted (window_end n - 1) - nth_Z sorted (window_begin n)) in
  let work := (nth_Z cds (window_end n - 1) - nth_Z cds (window_begin n)) * 120 in
  if work + span - 1 <? 2 ^ 64 then ceil_div work span else 0.

(** The last steps: the 128-bit product and the rounded quotient. *)
Lemma difficulty_quotient work span :
  0 < work < 2 ^ 64 → 0 < span < 2 ^ 64 →
  ('(low, high) ← mul128 work 120;
   if negb (high =? 0) || (u64 (u64 (low + span) - 1) <? low) then mret 0
   else udiv (u64 (u64 (low + span) - 1)) span) =
  Ret (if work * 120 + span - 1 <? 2 ^ 64 then ceil_div (work * 120) span else 0).
Proof.
  intros Hw Hs. rewrite mul128_ret by (unfold in_range; lia). cbn [mbind outcome_bind].
  assert (∀ low, u64 (u64 (low + span) - 1) = u64 (low + span - 1)) as E.
  { intros low. exact (u64_add_l (low + span) (-1)). }
  rewrite !E. destruct (Z.ltb_spec (work * 120 + span - 1) (2 ^ 64)) as [H|H].
  - rewrite Z.div_small, (Z.mod_small (work * 120)) by lia. cbn [negb orb Z.eqb].
    rewrite u64_small by (unfold in_range; lia).
    rewrite (proj2 (Z.ltb_ge _ _)) by lia. unfold udiv.
    rewrite (proj2 (Z.eqb_neq span 0)) by lia. done.
  - destruct (Z.eqb_spec ((work * 120) / 2 ^ 64) 0) as [Hz|Hz]; [|done]. cbn [negb orb].
    assert (0 <= work * 120 < 2 ^ 64) as Hlt by (clear -Hz Hw; zlia).
    rewrite (Z.mod_small (work * 120)) by lia.
    assert (u64 (work * 120 + span - 1) = work * 120 + span - 1 - 2 ^ 64) as ->.
    { unfold u64, wrap. symmetry. apply (Z.mod_unique_pos _ _ 1); lia. }
    rewrite (proj2 (Z.ltb_lt _ _)) by lia. done.
Qed.

Lemma nextDifficulty_ret ts cds :
  length cds = length ts → (2 <= length ts <= 720)%nat →
  Forall is_u64 ts → Forall is_u64 cds → StronglySorted Z.lt cds →
  nextDifficulty mainnet ts cds = Ret (difficulty_spec ts cds).
Proof.
  intros Hl Hn Hts Hcds Hs. unfold nextDifficulty, difficulty_spec.
  change (m_difficultyWindow mainnet) with 720. change (m_difficultyTarget mainnet) with 120.
  change (u64 (720 - u64 (2 * m_difficultyCut mainnet))) with 600.
  change (u64 (2 * m_difficultyCut mainnet) <=? u64 (720 - 2)) with true.
  rewrite (proj2 (Z.ltb_ge 720 _)) by lia. rewrite Hl, Z.eqb_refl.
  rewrite (proj2 (Z.leb_le (Z.of_nat (length ts)) 720)) by lia.
  rewrite (proj2 (Z.leb_gt (Z.of_nat (length ts)) 1)) by lia.
  change (2 <=? 720) with true. cbn [assert_ mbind outcome_bind].
  destruct (sort_Z_spec ts) as [Hsorted Hperm].
  pose proof (Permutation_length Hperm) as Hlen.
  assert (Forall is_u64 (sort_Z ts)) as Hsts by (by rewrite Hperm).
  set (n := Z.of_nat (length ts)) in *. set (st := sort_Z ts) in *.
  destruct (window_spec n ltac:(lia)) as (Hb & He & _).
  assert ((if n <=? 600 then 0 else u64 (u64 (n - 600) + 1) / 2) = window_begin n) as ->.
  { unfold window_begin. case_bool; [done|]. rewrite u64_add_l, u64_small by (unfold in_range; lia). done. }
  assert ((if n <=? 600 then n else u64 (window_begin n + 600)) = window_end n) as ->.
  { unfold window_end. case_bool; [done|]. apply u64_small. unfold in_range. lia. }
  rewrite (u64_small (window_begin n + 2)), (u64_small (window_end n - 1)) by (unfold in_range; lia).
  rewrite !(proj2 (Z.leb_le _ _)) by lia. cbn [assert_ andb mbind outcome_bind].
  rewrite !at_nth by lia. cbn [mbind outcome_bind].
  assert (is_u64 (nth_Z st (window_begin n)) ∧ is_u64 (nth_Z st (window_end n - 1))) as [Tb Te]
    by (split; apply (nth_in is_u64); done || lia).
  assert (is_u64 (nth_Z cds (window_begin n)) ∧ is_u64 (nth_Z cds (window_end n - 1))) as [Db De]
    by (split; apply (nth_in is_u64); done || lia).
  pose proof (nth_sorted Z.le st (window_begin n) (window_end n - 1) Hsorted ltac:(lia) ltac:(lia)).
  pose proof (nth_sorted Z.lt cds (window_begin n) (window_end n - 1) Hs ltac:(lia) ltac:(lia)).
  set (tb := nth_Z st (window_begin n)) in *. set (te := nth_Z st (window_end n - 1)) in *.
  set (db := nth_Z cds (window_begin n)) in *. set (de := nth_Z cds (window_end n - 1)) in *.
  unfold in_range in *. rewrite !(u64_small (te - tb)), (u64_small (de - db)) by (unfold in_range; lia).
  assert ((if te - tb =? 0 then 1 else te - tb) = Z.max 1 (te - tb)) as -> by (case_bool; lia).
  rewrite (proj2 (Z.ltb_lt 0 _)) by lia. cbn [assert_ mbind outcome_bind].
  apply difficulty_quotient; lia.
Qed.

Lemma nextDifficulty_truncates ts cds :
  length cds = length ts →
  nextDifficulty mainnet ts cds = nextDifficulty mainnet (take 720 ts) (take 720 cds).
Proof.
  intros Hl. destruct (decide (length ts <= 720)%nat) as [H|H]; [by rewrite !take_ge by lia|].
  unfold nextDifficulty. change (m_difficultyWindow mainnet) with 720.
  rewrite (proj2 (Z.ltb_lt 720 (Z.of_nat (length ts)))) by lia.
  rewrite (proj2 (Z.ltb_ge 720 (Z.of_nat (length (take 720 ts))))) by (rewrite length_take; lia).
  change (Z.to_nat 720) with 720%nat. by rewrite !resize_take by lia.
Qed.

(** ** Properties *)

(** for at least two blocks with increasing cumulative difficulties,
    [nextDifficulty] returns (no assertion fails, no index is out of range) the
    exact ceiling of work times target over time span, both taken over the
    window that keeps at most 600 of the first 720 sorted blocks, and zero when
    the rounded dividend does not fit 64 bits. *)
Theorem nextDifficulty_exact ts cds :
  length cds = length ts → (2 <= length ts)%nat →
  Forall is_u64 ts → Forall is_u64 cds → StronglySorted Z.lt cds →
  nextDifficulty mainnet ts cds = Ret (difficulty_spec (take 720 ts) (take 720 cds)).
Proof.
  intros Hl Hn Hts Hcds Hs. rewrite nextDifficulty_truncates by done.
  apply nextDifficulty_ret; rewrite ?length_take; [lia|lia|by apply Forall_take..|].
  rewrite <- (take_drop 720 cds) in Hs. by apply StronglySorted_app_1_l in Hs.
Qed.

Lemma nextDifficulty_exact_witness :
  nextDifficulty mainnet [1000; 1130; 1090] [10; 25; 45] = Ret 33.
Proof.
  rewrite nextDifficulty_exact; [by vm_compute|done|cbn; lia| | |].
  - repeat constructor; lia.
  - repeat constructor; lia.
  - by apply increasing_sorted.
Defined.

(** on a window of 11 to 61 blocks that does not overflow, the LWMA-3 loop
    computes the reference formula: the average difficulty times the target over
    the linearly weighted solve times, 1% lower, kept within 67% and 150% of the
    last difficulty and at least 108% of it after three fast blocks. *)
Theorem lwma3_exact t0 ts cds d0 dp dn :
  length cds = S (length ts) → (10 <= length ts <= 60)%nat →
  Forall (λ t, 0 <= t < 2 ^ 63) (t0 :: ts) →
  cds !! 0%nat = Some d0 → cds !! (length ts - 1)%nat = Some dp → cds !! length ts = Some dn →
  0 <= d0 <= dp → dp <= dn < 2 ^ 64 → (dn - d0) * 120 * 61 * 99 < 2 ^ 64 →
  let D := lwma3_spec t0 ts d0 dp dn in
  nextDifficultyLWMA3 (t0 :: ts) cds = Ret D ∧
  (dn - dp) * 67 / 100 <= D <= (dn - dp) * 150 / 100 ∧
  (sumZ (drop (length ts - 3) (solve_times t0 ts)) < 96 → (dn - dp) * 108 / 100 <= D).
Proof.
  intros Hl Hn Ht H0 H1 H2 Ho1 Ho2 Hf D. split.
  - by apply lwma3_ret.
  - apply clamp_D_bounds. lia.
Qed.

Lemma lwma3_exact_witness :
  nextDifficultyLWMA3 (0 :: [120; 240; 360; 480; 600; 720; 840; 960; 1080; 1200])
    [0; 1000; 2000; 3000; 4000; 5000; 6000; 7000; 8000; 9000; 10000] = Ret 990.
Proof.
  refine (proj1 (lwma3_exact 0 [120; 240; 360; 480; 600; 720; 840; 960; 1080; 1200]
    [0; 1000; 2000; 3000; 4000; 5000; 6000; 7000; 8000; 9000; 10000] 0 9000 10000 _ _ _ _ _ _ _ _ _));
    try done; try lia; [cbn; lia|]. repeat constructor; lia.
Defined.
