(* ===== verification/TransactionExtra.v ===== *)
(** * Transaction extra

    [src/src/CryptoNoteCore/TransactionExtra.h] and [TransactionExtra.cpp]: the
    tagged fields of the [extra] bytes of a transaction, their parser and
    writers, payment ids and the encrypted messages. The elliptic curve, the hash
    and the cipher ([src/src/crypto]) are arguments. *)

From S2P Require Import Prelude Varint Streams IntUtil StringTools.
From S2P Require Import CryptoNoteTypes Serialization CryptoNoteSerialization.

Local Open Scope Z_scope.

Definition TX_EXTRA_PADDING_MAX_COUNT : Z := 255.
Definition TX_EXTRA_NONCE_MAX_COUNT : Z := 255.
Definition TX_EXTRA_TAG_PADDING : Z := 0.
Definition TX_EXTRA_TAG_PUBKEY : Z := 1.
Definition TX_EXTRA_NONCE : Z := 2.
Definition TX_EXTRA_MERGE_MINING_TAG : Z := 3.
Definition TX_EXTRA_MESSAGE_TAG : Z := 4.
Definition TX_EXTRA_TTL : Z := 5.
Definition TX_EXTRA_NONCE_PAYMENT_ID : Z := 0.
Definition TX_EXTRA_MESSAGE_CHECKSUM_SIZE : Z := 4.

(** The variant [TransactionExtraField]. *)
Inductive TransactionExtraField : Type :=
| TransactionExtraPadding (size : Z)
| TransactionExtraPublicKey (publicKey : PublicKey)
| TransactionExtraNonce (nonce : list Z)
| TransactionExtraMerge (tag : TransactionExtraMergeMiningTag)
| tx_extra_message (data : list Z)
| TransactionExtraTTL (ttl : Z).

(** ** Parsing *)

Abbreviation reader := (M (BinaryInputStreamSerializer MemoryInputStream)).

(** The zero bytes after a padding tag: [None] where the parser returns false.
    At most 255 are read, so 256 units of fuel are never used up. *)
Fixpoint padding_loop (fuel : nat) (size : Z) : reader (option Z) := λ s,
  match fuel with
  | O => Abort
  | S fuel =>
      if negb (mis_endOfStream (bis_stream s)) && (size <=? TX_EXTRA_PADDING_MAX_COUNT) then
        (on_input read_uint8 ≫= λ b,
         if negb (b =? 0) then mret None else padding_loop fuel (size + 1) : reader (option Z)) s
      else Ret (Some size, s)
  end.

(** One iteration of the switch: [None] for [return false], [Some None] for a
    tag that is not known, which is skipped. *)
Definition parse_field (c : Z) : reader (option (option TransactionExtraField)) :=
  if c =? TX_EXTRA_TAG_PADDING then
    r ← padding_loop 256 1;
    match r with
    | None => mret None
    | Some size =>
        if TX_EXTRA_PADDING_MAX_COUNT <? size then mret None
        else mret (Some (Some (TransactionExtraPadding size)))
    end
  else if c =? TX_EXTRA_TAG_PUBKEY then
    '(publicKey, _) ← serialize_key (replicate 32 0) "public_key";
    mret (Some (Some (TransactionExtraPublicKey publicKey)))
  else if c =? TX_EXTRA_NONCE then
    size ← on_input read_uint8;
    nonce ← (if 0 <? size then on_input (read size) else mret []);
    mret (Some (Some (TransactionExtraNonce nonce)))
  else if c =? TX_EXTRA_MERGE_MINING_TAG then
    '(mmTag, _) ← in_object serialize_MergeMiningTag
                    {| mm_depth := 0; mm_merkleRoot := replicate 32 0 |} "mm_tag";
    mret (Some (Some (TransactionExtraMerge mmTag)))
  else if c =? TX_EXTRA_MESSAGE_TAG then
    '(data, _) ← ser_string [] "message";
    mret (Some (Some (tx_extra_message data)))
  else if c =? TX_EXTRA_TTL then
    size ← on_input (readVarint 8);
    ttl ← on_input (readVarint 64);
    mret (Some (Some (TransactionExtraTTL ttl)))
  else mret (Some None).

(** The loop over the stream. Every iteration consumes the tag, so a fuel of one
    more than the number of bytes is never used up. *)
Fixpoint parse_loop (fuel : nat) (s : BinaryInputStreamSerializer MemoryInputStream)
    (fields : list TransactionExtraField) : outcome (list TransactionExtraField * bool) :=
  match fuel with
  | O => Abort
  | S fuel =>
      if mis_endOfStream (bis_stream s) then mret (fields, true)
      else
        match (on_input read_uint8 ≫= parse_field) s with
        | Ret (Some (Some f), s') => parse_loop fuel s' (fields ++ [f])
        | Ret (Some None, s') => parse_loop fuel s' fields
        | Ret (None, _) => mret (fields, false)
        | Throw _ => mret (fields, false)
        | Abort => Abort
        end
  end.

(** The fields gathered and the result. *)
Definition parseTransactionExtra (transactionExtra : list Z)
    : outcome (list TransactionExtraField * bool) :=
  match transactionExtra with
  | [] => mret ([], true)
  | _ => parse_loop (S (length transactionExtra)) (BIS (new_MemoryInputStream transactionExtra)) []
  end.

(** [findTransactionExtraFieldByType], for the types it is used at. *)
Fixpoint find_field {A} (pick : TransactionExtraField → option A)
    (fields : list TransactionExtraField) : option A :=
  match fields with
  | [] => None
  | f :: fields' => match pick f with Some a => Some a | None => find_field pick fields' end
  end.
Definition pick_key (f : TransactionExtraField) : option PublicKey :=
  match f with TransactionExtraPublicKey k => Some k | _ => None end.
Definition pick_nonce (f : TransactionExtraField) : option (list Z) :=
  match f with TransactionExtraNonce n => Some n | _ => None end.
Definition pick_merge (f : TransactionExtraField) : option TransactionExtraMergeMiningTag :=
  match f with TransactionExtraMerge t => Some t | _ => None end.

Definition getTransactionPublicKeyFromExtra (tx_extra : list Z) : outcome PublicKey :=
  '(tx_extra_fields, _) ← parseTransactionExtra tx_extra;
  mret (match find_field pick_key tx_extra_fields with
        | None => replicate 32 0
        | Some k => k
        end).

Definition getMergeMiningTagFromExtra (tx_extra : list Z)
    : outcome (option TransactionExtraMergeMiningTag) :=
  '(tx_extra_fields, _) ← parseTransactionExtra tx_extra;
  mret (find_field pick_merge tx_extra_fields).

(** ** Writing

    The writers append to the array; [None] where they return false. *)

Definition addTransactionPublicKeyToExtra (tx_extra : list Z) (tx_pub_key : PublicKey) : list Z :=
  tx_extra ++ TX_EXTRA_TAG_PUBKEY :: tx_pub_key.

Definition addExtraNonceToTransactionExtra (tx_extra extra_nonce : list Z) : option (list Z) :=
  if TX_EXTRA_NONCE_MAX_COUNT <? Z.of_nat (length extra_nonce) then None
  else Some (tx_extra ++ TX_EXTRA_NONCE :: u8 (Z.of_nat (length extra_nonce)) :: extra_nonce).

Definition appendMergeMiningTagToExtra (tx_extra : list Z) (mm_tag : TransactionExtraMergeMiningTag)
    : outcome (option (list Z)) :=
  blob ← toBinaryArray serialize_MergeMiningTag mm_tag [];
  mret (match blob with
        | None => None
        | Some blob => Some (tx_extra ++ TX_EXTRA_MERGE_MINING_TAG :: blob)
        end).

(** [tx_extra_message::serialize]. *)
Definition serialize_message {St} `{!ISerializer St} (data : list Z) : M St (list Z) :=
  '(data, _) ← ser_string data "data"; mret data.

Definition append_message_to_extra (tx_extra data : list Z) : outcome (option (list Z)) :=
  blob ← toBinaryArray serialize_message data [];
  mret (match blob with
        | None => None
        | Some blob => Some (tx_extra ++ TX_EXTRA_MESSAGE_TAG :: blob)
        end).

Definition appendTTLToExtra (tx_extra : list Z) (ttl : Z) : list Z :=
  let ttlData := get_varint_data ttl in
  let extraFieldSize := get_varint_data (Z.of_nat (length ttlData)) in
  tx_extra ++ TX_EXTRA_TTL :: extraFieldSize ++ ttlData.

(** [ExtraSerializerVisitor]. *)
Definition write_field (extra : list Z) (f : TransactionExtraField) : outcome (option (list Z)) :=
  match f with
  | TransactionExtraPadding size =>
      mret (if TX_EXTRA_PADDING_MAX_COUNT <? size then None
            else Some (extra ++ replicate (Z.to_nat size) 0))
  | TransactionExtraPublicKey publicKey =>
      mret (Some (addTransactionPublicKeyToExtra extra publicKey))
  | TransactionExtraNonce nonce => mret (addExtraNonceToTransactionExtra extra nonce)
  | TransactionExtraMerge tag => appendMergeMiningTagToExtra extra tag
  | tx_extra_message data => append_message_to_extra extra data
  | TransactionExtraTTL ttl => mret (Some (appendTTLToExtra extra ttl))
  end.

Fixpoint writeTransactionExtra (tx_extra : list Z) (tx_extra_fields : list TransactionExtraField)
    : outcome (option (list Z)) :=
  match tx_extra_fields with
  | [] => mret (Some tx_extra)
  | tag :: fields =>
      r ← write_field tx_extra tag;
      match r with
      | None => mret None
      | Some tx_extra => writeTransactionExtra tx_extra fields
      end
  end.

(** ** Payment ids *)

Definition setPaymentIdToTransactionExtraNonce (payment_id : Hash) : list Z :=
  TX_EXTRA_NONCE_PAYMENT_ID :: payment_id.

Definition getPaymentIdFromTransactionExtraNonce (extra_nonce : list Z) : option Hash :=
  match extra_nonce with
  | b :: payment_id =>
      if negb (Z.of_nat (length extra_nonce) =? 33) then None
      else if negb (b =? TX_EXTRA_NONCE_PAYMENT_ID) then None
      else Some payment_id
  | [] => None
  end.

Definition parsePaymentId (paymentIdString : list Z) : outcome (option Hash) :=
  podFromHex 32 paymentIdString.

Definition createTxExtraWithPaymentId (paymentIdString extra : list Z) : outcome (option (list Z)) :=
  r ← parsePaymentId paymentIdString;
  mret (match r with
        | None => None
        | Some paymentIdBin =>
            addExtraNonceToTransactionExtra extra (setPaymentIdToTransactionExtraNonce paymentIdBin)
        end).

Definition getPaymentIdFromTxExtra (extra : list Z) : outcome (option Hash) :=
  '(tx_extra_fields, ok) ← parseTransactionExtra extra;
  mret (if negb ok then None
        else match find_field pick_nonce tx_extra_fields with
             | None => None
             | Some extra_nonce => getPaymentIdFromTransactionExtraNonce extra_nonce
             end).

(** ** Messages *)

Section Messages.
(** [generate_key_derivation], [cn_fast_hash] and [chacha8] with its number of
    double rounds, data, key and nonce. *)
Variable generate_key_derivation : PublicKey → SecretKey → option (list Z).
Variable cn_fast_hash : list Z → list Z.
Variable chacha8 : Z → list Z → list Z → list Z → list Z.

(** The key of [message_key_data]. *)
Definition message_key (derivation : list Z) : list Z := cn_fast_hash (derivation ++ [0x80; 0]).

(** [tx_extra_message::encrypt]: the data, or [None] where it returns false. *)
Definition encrypt (index : Z) (message : list Z) (recipient : option AccountPublicAddress)
    (txkey : KeyPair) : option (list Z) :=
  let buf := message ++ replicate (Z.to_nat TX_EXTRA_MESSAGE_CHECKSUM_SIZE) 0 in
  match recipient with
  | None => Some buf
  | Some recipient =>
      match generate_key_derivation (spendPublicKey recipient) (secretKey txkey) with
      | None => None
      | Some derivation =>
          Some (chacha8 10 buf (message_key derivation) (le_bytes 8 (swap64le index)))
      end
  end.

(** [tx_extra_message::decrypt]. *)
Definition decrypt (data : list Z) (index : Z) (txkey : PublicKey)
    (recepient_secret_key : option SecretKey) : option (list Z) :=
  let mlen := Z.of_nat (length data) in
  if mlen <? TX_EXTRA_MESSAGE_CHECKSUM_SIZE then None
  else
    match
      match recepient_secret_key with
      | None => Some data
      | Some sk =>
          match generate_key_derivation txkey sk with
          | None => None
          | Some derivation =>
              Some (chacha8 10 data (message_key derivation) (le_bytes 8 (swap64le index)))
          end
      end
    with
    | None => None
    | Some buf =>
        let mlen := Z.to_nat (mlen - TX_EXTRA_MESSAGE_CHECKSUM_SIZE) in
        if forallb (λ b, b =? 0) (take (Z.to_nat TX_EXTRA_MESSAGE_CHECKSUM_SIZE) (drop mlen buf))
        then Some (take mlen buf) else None
    end.

(** The loop of [get_messages_from_extra]: [i] counts the messages. *)
Fixpoint messages_loop (fields : list TransactionExtraField) (txkey : PublicKey)
    (recepient_secret_key : option SecretKey) (i : Z) : list (list Z) :=
  match fields with
  | [] => []
  | tx_extra_message data :: fields' =>
      let rest := messages_loop fields' txkey recepient_secret_key (u64 (i + 1)) in
      match decrypt data i txkey recepient_secret_key with
      | Some res => res :: rest
      | None => rest
      end
  | _ :: fields' => messages_loop fields' txkey recepient_secret_key i
  end.

Definition get_messages_from_extra (extra : list Z) (txkey : PublicKey)
    (recepient_secret_key : option SecretKey) : outcome (list (list Z)) :=
  '(tx_extra_fields, ok) ← parseTransactionExtra extra;
  mret (if negb ok then [] else messages_loop tx_extra_fields txkey recepient_secret_key 0).
End Messages.

(** ** The bytes of each field *)

#[local] Opaque reads writes bos_varint bis_varint bos_binary bis_binary bos_string bis_string.

Lemma hash_writes {So} `{LawfulOutput So} l name :
  is_pod 32 l → writes (serialize_hash (St := BinaryOutputStreamSerializer So) l name) l (l, true).
Proof. intros [Hb Hl]. pose proof (binary_writes (So := So) l name Hb) as W. by rewrite Hl in W. Qed.

Lemma hash_reads {Si} `{LawfulInput Si} l v0 name :
  is_pod 32 l → reads (serialize_hash (St := BinaryInputStreamSerializer Si) v0 name) l (l, true).
Proof. intros [_ Hl]. pose proof (binary_reads (Si := Si) l v0 name) as R. by rewrite Hl in R. Qed.

Definition enc_tag (t : TransactionExtraMergeMiningTag) : Prop :=
  is_u64 (mm_depth t) ∧ is_pod 32 (mm_merkleRoot t).

Definition tag_bytes (t : TransactionExtraMergeMiningTag) : list Z :=
  write_varint (mm_depth t) ++ mm_merkleRoot t ++ [].

Lemma tag_fields_write {So} `{LawfulOutput So} t :
  enc_tag t →
  writes (doSerialize_MergeMiningTag (St := BinaryOutputStreamSerializer So) t) (tag_bytes t) t.
Proof.
  destruct t as [d r]. intros [Hd Hr]. unfold doSerialize_MergeMiningTag.
  eapply writes_bind; [by apply varint_writes|]. cbv beta match.
  eapply writes_bind; [by apply hash_writes|]. apply writes_ret.
Qed.

Lemma tag_fields_read {Si} `{LawfulInput Si} t t0 :
  enc_tag t →
  reads (doSerialize_MergeMiningTag (St := BinaryInputStreamSerializer Si) t0) (tag_bytes t) t.
Proof.
  destruct t as [d r]. intros [Hd Hr]. unfold doSerialize_MergeMiningTag.
  eapply reads_bind; [by apply (varint_reads 64)|]. cbv beta match.
  eapply reads_bind; [by apply hash_reads|]. apply reads_ret.
Qed.

Lemma tag_bytes_ok t :
  enc_tag t → is_bytes (tag_bytes t) ∧ (length (tag_bytes t) <= 42)%nat.
Proof.
  intros Ht. split; [exact (proj1 (tag_fields_write (So := VectorOutputStream) t Ht))|].
  destruct Ht as [_ [_ Hl]]. unfold tag_bytes. rewrite app_nil_r, length_app, Hl.
  pose proof (write_varint_loop_length 9 (mm_depth t)). unfold write_varint. lia.
Qed.

Definition string_bytes (l : list Z) : list Z := write_varint (Z.of_nat (length l)) ++ l.

(** The fields of a tag travel in a string of their own. *)
Lemma mm_tag_writes t :
  enc_tag t →
  writes (serialize_MergeMiningTag (St := BinaryOutputStreamSerializer VectorOutputStream) t)
    (string_bytes (tag_bytes t) ++ []) t.
Proof.
  intros Ht. destruct (tag_bytes_ok t Ht) as [Hb Hl].
  destruct (tag_fields_write (So := StringOutputStream) t Ht) as [_ Hw].
  destruct (Hw (BOS {| sos_out := [] |})) as ([[out]] & E & Hout). cbn in Hout. subst out.
  unfold serialize_MergeMiningTag. cbn [ser_type BinaryOutputStreamSerializer_ser].
  rewrite decide_True by done. rewrite E.
  refine (writes_bind (mret _) _ [] _ (t, BOS {| sos_out := tag_bytes t |}) t (writes_ret _) _).
  eapply writes_bind.
  { apply string_writes; [done|]. unfold max_read_size. cbn [sos_out bos_stream]. lia. }
  apply writes_ret.
Qed.

Lemma mm_tag_reads t t0 name :
  enc_tag t →
  reads (in_object (St := BinaryInputStreamSerializer MemoryInputStream)
    serialize_MergeMiningTag t0 name) (string_bytes (tag_bytes t) ++ []) (t, true).
Proof.
  intros Ht. destruct (tag_bytes_ok t Ht) as [Hb Hl].
  refine (reads_bind_ret (serialize_MergeMiningTag t0) (λ x, (x, true)) _ t _).
  unfold serialize_MergeMiningTag. cbn [ser_type BinaryInputStreamSerializer_ser].
  rewrite decide_False by done. eapply reads_bind.
  { apply string_reads. unfold max_read_size. lia. }
  cbv beta match.
  destruct (tag_fields_read (Si := MemoryInputStream) t t0 Ht
    (BIS (new_MemoryInputStream (tag_bytes t))) []) as (s' & E & _ & _).
  { by apply new_stream_ok; [|lia]. } { rewrite app_nil_r. by apply new_stream_ok; [|lia]. }
  rewrite E. refine (reads_bind (mret _) _ [] [] (t, s') t (reads_ret _) (reads_ret _)).
Qed.

(** ** Fields and lists of fields *)

(** The fields that can be written and read back. *)
Definition enc_field (f : TransactionExtraField) : Prop :=
  match f with
  | TransactionExtraPadding _ => False
  | TransactionExtraPublicKey k => is_pod 32 k
  | TransactionExtraNonce n => is_bytes n ∧ Z.of_nat (length n) <= TX_EXTRA_NONCE_MAX_COUNT
  | TransactionExtraMerge t => enc_tag t
  | tx_extra_message d => is_bytes d ∧ Z.of_nat (length d) <= max_read_size
  | TransactionExtraTTL ttl => is_u64 ttl
  end.

Definition field_tag (f : TransactionExtraField) : Z :=
  match f with
  | TransactionExtraPadding _ => TX_EXTRA_TAG_PADDING
  | TransactionExtraPublicKey _ => TX_EXTRA_TAG_PUBKEY
  | TransactionExtraNonce _ => TX_EXTRA_NONCE
  | TransactionExtraMerge _ => TX_EXTRA_MERGE_MINING_TAG
  | tx_extra_message _ => TX_EXTRA_MESSAGE_TAG
  | TransactionExtraTTL _ => TX_EXTRA_TTL
  end.

(** The bytes after the tag. *)
Definition field_bytes (f : TransactionExtraField) : list Z :=
  match f with
  | TransactionExtraPadding size => replicate (Z.to_nat size - 1) 0
  | TransactionExtraPublicKey k => k
  | TransactionExtraNonce n => Z.of_nat (length n) :: n
  | TransactionExtraMerge t => string_bytes (tag_bytes t)
  | tx_extra_message d => string_bytes d
  | TransactionExtraTTL ttl => string_bytes (write_varint ttl)
  end.

#[local] Transparent writes.

Lemma toBinaryArray_writes {T} (w : T → M (BinaryOutputStreamSerializer VectorOutputStream) T) v bs :
  writes (w v) bs v → toBinaryArray w v [] = Ret (Some bs).
Proof.
  intros [_ Hw]. unfold toBinaryArray.
  destruct (Hw (BOS {| vos_out := [] |})) as ([[out]] & -> & E). cbn in E. by subst out.
Qed.

#[local] Opaque writes.

Lemma write_field_ret extra f :
  enc_field f → write_field extra f = Ret (Some (extra ++ field_tag f :: field_bytes f)).
Proof.
  destruct f as [size|k|n|t|d|ttl]; cbn [enc_field write_field field_tag field_bytes].
  - done.
  - done.
  - intros [_ Hl]. unfold addExtraNonceToTransactionExtra.
    rewrite (proj2 (Z.ltb_ge _ _)) by done.
    rewrite u8_small; [done|]. unfold in_range, TX_EXTRA_NONCE_MAX_COUNT in *. lia.
  - intros Ht. unfold appendMergeMiningTagToExtra.
    rewrite (toBinaryArray_writes _ _ _ (mm_tag_writes t Ht)). by rewrite app_nil_r.
  - intros [Hb Hl]. unfold append_message_to_extra.
    rewrite (toBinaryArray_writes _ d (string_bytes d ++ [])); [by rewrite app_nil_r|].
    eapply writes_bind; [by apply string_writes|]. apply writes_ret.
  - done.
Qed.

Lemma parse_field_reads f :
  enc_field f → reads (parse_field (field_tag f)) (field_bytes f) (Some (Some f)).
Proof.
  destruct f as [size|k|n|t|d|ttl]; cbn [enc_field field_tag field_bytes]; unfold parse_field.
  - done.
  - intros Hk. rewrite <- (app_nil_r k) at 1.
    eapply (reads_bind (serialize_key _ _)); [by apply hash_reads|apply reads_ret].
  - intros [Hb Hl]. unfold TX_EXTRA_NONCE_MAX_COUNT in Hl.
    eapply (reads_bind (on_input read_uint8) _ [Z.of_nat (length n)]).
    { apply reads_on_input, reads_uint8. unfold in_range. lia. }
    apply (reads_bind_ret _ (λ x, Some (Some (TransactionExtraNonce x)))). case_bool.
    + apply reads_on_input, reads_read.
    + destruct n; [apply reads_ret|simpl in *; lia].
  - intros Ht. rewrite <- (app_nil_r (string_bytes _)), <- (app_nil_r (string_bytes _)).
    eapply (reads_bind (in_object _ _ _)); [by apply mm_tag_reads|apply reads_ret].
  - intros [Hb Hl]. rewrite <- (app_nil_r (string_bytes _)).
    eapply (reads_bind (ser_string _ _)); [by apply string_reads|apply reads_ret].
  - intros Ht. pose proof (write_varint_loop_length 9 ttl) as Hlen. fold (write_varint ttl) in Hlen.
    eapply (reads_bind (on_input (readVarint 8))).
    { apply reads_on_input, reads_readVarint; unfold in_range; lia. }
    apply (reads_bind_ret _ (λ x, Some (Some (TransactionExtraTTL x)))).
    apply reads_on_input, reads_readVarint; [lia|done].
Qed.

Lemma end_unread (s : BinaryInputStreamSerializer MemoryInputStream) :
  in_ok s → mis_endOfStream (bis_stream s) = bool_decide (unread s = []).
Proof.
  intros Hs. pose proof (endOfStream_unread (bis_stream s) Hs) as H.
  destruct (bool_decide_reflect (unread s = [])) as [E|E]; [by apply H|].
  destruct (mis_endOfStream _); [|done]. by destruct E; apply H.
Qed.

#[local] Transparent reads.

Lemma read_tag b rest (s : BinaryInputStreamSerializer MemoryInputStream) :
  is_u8 b → in_ok s → unread s = b :: rest →
  ∃ s', on_input read_uint8 s = Ret (b, s') ∧ in_ok s' ∧ unread s' = rest.
Proof.
  intros Hb Hs Hu.
  exact (reads_on_input _ _ _ (reads_uint8 (St := MemoryInputStream) b Hb) s rest Hs Hu).
Qed.

Lemma padding_loop_zeros k : ∀ fuel size s,
  in_ok s → unread s = replicate k 0 → (k < fuel)%nat → size + Z.of_nat k <= 255 →
  ∃ s', padding_loop fuel size s = Ret (Some (size + Z.of_nat k), s') ∧ in_ok s' ∧ unread s' = [].
Proof.
  induction k as [|k IH]; intros [|fuel] size s Hs Hu Hf Hk; [lia| |lia|]; cbn [padding_loop];
    rewrite end_unread by done; rewrite Hu.
  - cbn. exists s. by rewrite Z.add_0_r.
  - rewrite bool_decide_false by done. unfold TX_EXTRA_PADDING_MAX_COUNT.
    rewrite (proj2 (Z.leb_le size 255)) by lia. cbn [negb andb].
    destruct (read_tag 0 (replicate k 0) s ltac:(done) Hs Hu)
      as (s1 & E & Hs1 & Hu1).
    destruct (IH fuel (size + 1) s1 Hs1 Hu1 ltac:(lia) ltac:(lia)) as (s' & E' & Hs' & Hu').
    exists s'. unfold mbind, M_bind. rewrite E. cbn [negb Z.eqb]. rewrite E'.
    split; [|done]. do 3 f_equal. lia.
Qed.

(** Padding of [size] bytes at the end of the array. *)
Definition padding (pad : option Z) : list TransactionExtraField :=
  match pad with None => [] | Some size => [TransactionExtraPadding size] end.
Definition pad_ok (pad : option Z) : Prop :=
  match pad with None => True | Some size => 1 <= size <= TX_EXTRA_PADDING_MAX_COUNT end.

Definition fields_bytes (fields : list TransactionExtraField) : list Z :=
  flat_map (λ f, field_tag f :: field_bytes f) fields.

Lemma field_tag_range f : is_u8 (field_tag f).
Proof. destruct f; by vm_compute. Qed.

Lemma parse_padding fuel pad s acc :
  pad_ok pad → in_ok s → unread s = fields_bytes (padding pad) → (length (unread s) < fuel)%nat →
  parse_loop fuel s acc = Ret (acc ++ padding pad, true).
Proof.
  intros Hp Hs Hu Hf. destruct fuel as [|fuel]; [lia|]. cbn [parse_loop].
  rewrite end_unread by done. destruct pad as [size|];
    cbn [padding fields_bytes flat_map app field_tag field_bytes] in Hu; rewrite Hu.
  2: { cbn. by rewrite app_nil_r. }
  rewrite app_nil_r in *. cbn in Hp. unfold TX_EXTRA_PADDING_MAX_COUNT in Hp.
  rewrite bool_decide_false by done.
  destruct (read_tag 0 _ s ltac:(done) Hs Hu)
    as (s1 & E & Hs1 & Hu1).
  destruct (padding_loop_zeros (Z.to_nat size - 1) 256 1 s1 Hs1 Hu1 ltac:(lia) ltac:(lia))
    as (s' & E' & Hs' & Hu').
  replace (1 + Z.of_nat (Z.to_nat size - 1)) with size in E' by lia.
  assert (parse_field 0 s1 = Ret (Some (Some (TransactionExtraPadding size)), s')) as Hpf.
  { unfold parse_field. cbn [Z.eqb TX_EXTRA_TAG_PADDING]. unfold mbind, M_bind. rewrite E'.
    unfold TX_EXTRA_PADDING_MAX_COUNT. by rewrite (proj2 (Z.ltb_ge 255 size)) by lia. }
  unfold mbind, M_bind. rewrite E, Hpf. destruct fuel as [|fuel].
  { rewrite Hu in Hf. simpl in Hf. lia. }
  cbn [parse_loop]. rewrite end_unread, Hu' by done. done.
Qed.

Lemma parse_fields fields pad : ∀ fuel s acc,
  Forall enc_field fields → pad_ok pad → in_ok s →
  unread s = fields_bytes (fields ++ padding pad) → (length (unread s) < fuel)%nat →
  parse_loop fuel s acc = Ret (acc ++ fields ++ padding pad, true).
Proof.
  induction fields as [|f fields IH]; intros fuel s acc Hfs Hp Hs Hu Hf; [by apply parse_padding|].
  apply Forall_cons_iff in Hfs as [Hfd Hfs].
  destruct fuel as [|fuel]; [lia|]. cbn [parse_loop]. rewrite end_unread by done.
  cbn [app] in Hu. unfold fields_bytes in Hu. cbn [flat_map app] in Hu.
  fold (fields_bytes (fields ++ padding pad)) in Hu. rewrite Hu in Hf |- *.
  rewrite bool_decide_false by done.
  destruct (read_tag (field_tag f) _ s (field_tag_range f) Hs Hu) as (s1 & E & Hs1 & Hu1).
  destruct (parse_field_reads f Hfd s1 _ Hs1 Hu1) as (s2 & E2 & Hs2 & Hu2).
  unfold mbind, M_bind. rewrite E, E2, IH; [by rewrite <- app_assoc|done..|].
  rewrite Hu2. cbn [length app] in Hf. rewrite length_app in Hf. lia.
Qed.

Lemma writeTransactionExtra_ret fields pad : ∀ extra,
  Forall enc_field fields → pad_ok pad →
  writeTransactionExtra extra (fields ++ padding pad) =
    Ret (Some (extra ++ fields_bytes (fields ++ padding pad))).
Proof.
  induction fields as [|f fields IH]; intros extra Hfs Hp.
  - destruct pad as [size|]; cbn; [|by rewrite app_nil_r]. cbn in Hp.
    rewrite (proj2 (Z.ltb_ge _ _)) by lia. cbn [mbind outcome_bind mret outcome_ret].
    rewrite app_nil_r. do 3 f_equal.
    replace (Z.to_nat size) with (S (Z.to_nat size - 1)) at 1 by lia. done.
  - apply Forall_cons_iff in Hfs as [Hf Hfs]. cbn [app writeTransactionExtra].
    rewrite write_field_ret by done. cbn [mbind outcome_bind].
    rewrite IH by done. unfold fields_bytes. cbn [flat_map]. by rewrite <- app_assoc.
Qed.

(** ** The parser returns on every input *)

#[local] Opaque reads writes consumes.

Lemma string_is_bytes l : is_bytes l → is_bytes (string_bytes l).
Proof.
  intros Hl. apply Forall_app. split; [|done]. apply write_varint_loop_bytes. lia.
Qed.

Lemma field_is_bytes f : enc_field f → is_bytes (field_tag f :: field_bytes f).
Proof.
  intros Hf. constructor; [apply field_tag_range|].
  destruct f as [size|k|n|t|d|ttl]; cbn [enc_field field_bytes] in *.
  - done.
  - apply Hf.
  - destruct Hf as [Hb Hl]. constructor; [|done].
    unfold in_range, TX_EXTRA_NONCE_MAX_COUNT in *. lia.
  - by apply string_is_bytes, tag_bytes_ok.
  - apply string_is_bytes, Hf.
  - apply string_is_bytes, write_varint_loop_bytes. unfold in_range in Hf. lia.
Qed.

Lemma fields_are_bytes fields pad :
  Forall enc_field fields → is_bytes (fields_bytes (fields ++ padding pad)).
Proof.
  induction 1 as [|f fields Hf _ IH].
  - destruct pad as [size|]; [|constructor]. cbn. rewrite app_nil_r.
    constructor; [done|]. by apply Forall_replicate.
  - change (is_bytes ((field_tag f :: field_bytes f) ++ fields_bytes (fields ++ padding pad))).
    apply Forall_app. split; [by apply field_is_bytes|done].
Qed.

Definition anything {A} (a : A) (bs : list Z) : Prop := True.

Lemma consumes_any {St A} `{LawfulInput St} (m : M St A) P : consumes m P → consumes m anything.
Proof. intros Hm. by eapply consumes_impl. Qed.

Lemma consumes_seq {St A B} `{LawfulInput St} (m : M St A) (f : A → M St B) :
  consumes m anything → (∀ a, consumes (f a) anything) → consumes (m ≫= f) anything.
Proof. intros Hm Hf. eapply consumes_bind; [exact Hm|]. intros a bs _. apply Hf. Qed.

Lemma consumes_byte {St} `{LawfulInput St} :
  consumes (read_uint8 (St := St)) (λ b bs, is_u8 b ∧ length bs = 1%nat).
Proof.
  eapply consumes_bind; [by apply (consumes_read 1)|].
  intros l bs (-> & Hb & Hl). apply consumes_ret. rewrite app_nil_r. split; [|lia].
  pose proof (le_value_range bs Hb) as Hr. by rewrite Hl in Hr.
Qed.

#[local] Transparent consumes.

Lemma padding_consumes fuel : ∀ size,
  size <= 256 → 257 - size <= Z.of_nat fuel → consumes (padding_loop fuel size) anything.
Proof.
  induction fuel as [|fuel IH]; intros size Hs Hf s Hin; [lia|]. cbn [padding_loop].
  unfold TX_EXTRA_PADDING_MAX_COUNT. destruct (negb _ && (size <=? 255)) eqn:E.
  - bool_to_prop.
    refine (consumes_seq (on_input read_uint8) _ _ _ s Hin).
    + apply consumes_on_input. eapply consumes_any, consumes_byte.
    + intros b. case_bool; [by apply consumes_ret|]. apply IH; lia.
  - split; [done|]. by exists [].
Qed.

Lemma consumes_lift {St A} `{LawfulInput St} (m : outcome A) :
  m ≠ Abort → consumes (St := St) (lift m) anything.
Proof.
  intros Hm s Hs. unfold lift. destruct m; [|done|by apply Hm]. split; [done|]. by exists [].
Qed.

Lemma tag_fields_total field t0 :
  is_bytes field → Z.of_nat (length field) <= max_read_size →
  doSerialize_MergeMiningTag t0 (BIS (new_MemoryInputStream field)) ≠ Abort.
Proof.
  intros Hb Hl. unfold max_read_size in Hl.
  destruct (new_stream_ok field Hb ltac:(lia)) as [Hok _].
  pose proof (codec_canon _ _ _ (doSerialize_MergeMiningTag_codec (So := VectorOutputStream)) t0 _ Hok)
    as Hc.
  intros E. by rewrite E in Hc.
Qed.

Lemma mm_tag_consumes t0 name :
  consumes (in_object (St := BinaryInputStreamSerializer MemoryInputStream)
    serialize_MergeMiningTag t0 name) anything.
Proof.
  refine (consumes_seq (serialize_MergeMiningTag t0) (λ x, mret (x, true)) _ _);
    [|by intros; apply consumes_ret].
  unfold serialize_MergeMiningTag. cbn [ser_type BinaryInputStreamSerializer_ser].
  rewrite decide_False by done. eapply consumes_bind.
  { apply (ncodec_canon _ _ _ (string_ncodec (So := VectorOutputStream))). }
  intros [field b] bs (_ & [Hb Hl] & _). cbv beta match. apply consumes_seq.
  - by apply consumes_lift, tag_fields_total.
  - intros [t s]. by apply consumes_ret.
Qed.

Lemma parse_field_consumes c : consumes (parse_field c) anything.
Proof.
  assert (∀ {A B} (m : reader A) (f : A → B), consumes m anything →
    consumes (m ≫= λ x, mret (f x)) anything) as Hret.
  { intros A B m f Hm. apply consumes_seq; [done|]. intros a. by apply consumes_ret. }
  assert (consumes (on_input (Si := MemoryInputStream) read_uint8) anything) as Hbyte.
  { apply consumes_on_input. eapply consumes_any, consumes_byte. }
  assert (∀ w, 8 <= w <= 64 → consumes (on_input (Si := MemoryInputStream) (readVarint w)) anything)
    as Hvar.
  { intros w Hw. apply consumes_on_input. eapply consumes_any, consumes_readVarint, Hw. }
  unfold parse_field. case_bool.
  { apply consumes_seq; [by apply padding_consumes|]. intros [size|]; [|by apply consumes_ret].
    case_bool; by apply consumes_ret. }
  case_bool.
  { apply consumes_seq; [|intros []; by apply consumes_ret].
    eapply consumes_any, (binary_consumes 32). }
  case_bool.
  { eapply consumes_bind; [apply consumes_on_input, consumes_byte|]. intros b bs [Hb _].
    apply (Hret _ _ _ (λ nonce, Some (Some (TransactionExtraNonce nonce)))).
    case_bool; [|by apply consumes_ret]. apply consumes_on_input.
    eapply consumes_any, consumes_read. lia. }
  case_bool; [apply consumes_seq; [apply mm_tag_consumes|intros []; by apply consumes_ret]|].
  case_bool.
  { apply consumes_seq; [|intros []; by apply consumes_ret].
    eapply consumes_any, (ncodec_canon _ _ _ (string_ncodec (So := VectorOutputStream))). }
  case_bool; [|by apply consumes_ret].
  apply consumes_seq; [by apply Hvar|]. intros _. by apply Hret, Hvar.
Qed.

Lemma parse_loop_total fuel : ∀ s fields,
  in_ok s → (length (unread s) < fuel)%nat → ∃ r, parse_loop fuel s fields = Ret r.
Proof.
  induction fuel as [|fuel IH]; intros s fields Hs Hf; [lia|]. cbn [parse_loop].
  destruct (mis_endOfStream _); [by eexists|].
  assert (consumes (on_input read_uint8 ≫= parse_field) (λ _ bs, 1 <= length bs)%nat) as Hc.
  { eapply consumes_bind; [apply consumes_on_input, consumes_byte|]. intros b bs [_ Hl].
    eapply consumes_impl; [apply parse_field_consumes|]. intros _ bs' _.
    rewrite length_app. lia. }
  specialize (Hc s Hs). destruct ((on_input read_uint8 ≫= parse_field) s) as [[[[f|]|] s']|e|]; [..|by eexists|done].
  - destruct Hc as (Hs' & bs & Hu & Hl). apply IH; [done|]. rewrite Hu, length_app in Hf. lia.
  - destruct Hc as (Hs' & bs & Hu & Hl). apply IH; [done|]. rewrite Hu, length_app in Hf. lia.
  - by eexists.
Qed.

(** ** Properties *)

Lemma parse_fields_bytes fields pad :
  Forall enc_field fields → pad_ok pad →
  Z.of_nat (length (fields_bytes (fields ++ padding pad))) < 2 ^ 64 →
  parseTransactionExtra (fields_bytes (fields ++ padding pad)) = Ret (fields ++ padding pad, true).
Proof.
  intros Hf Hp Hl. unfold parseTransactionExtra.
  destruct (fields_bytes (fields ++ padding pad)) as [|b bs] eqn:E.
  { destruct fields, pad; done. }
  rewrite <- E in *.
  destruct (new_stream_ok (fields_bytes (fields ++ padding pad))) as [Hok Hu];
    [by apply fields_are_bytes|done|].
  by apply (parse_fields fields pad _ _ []); rewrite ?Hu; [..|lia].
Qed.

(** any list of fields within their limits, with padding only at the end,
    is written, and the parser reads exactly the same fields back. *)
Theorem extra_roundtrip fields pad :
  Forall enc_field fields → pad_ok pad →
  Z.of_nat (length (fields_bytes (fields ++ padding pad))) < 2 ^ 64 →
  ∃ extra, writeTransactionExtra [] (fields ++ padding pad) = Ret (Some extra) ∧
    parseTransactionExtra extra = Ret (fields ++ padding pad, true).
Proof.
  intros Hf Hp Hl. exists (fields_bytes (fields ++ padding pad)).
  split; [by apply writeTransactionExtra_ret|by apply parse_fields_bytes].
Qed.

Lemma extra_roundtrip_witness :
  ∃ extra, writeTransactionExtra [] ([TransactionExtraPublicKey (replicate 32 5);
      TransactionExtraNonce [0; 1; 2]; TransactionExtraTTL 1600000000] ++ padding (Some 3)) =
      Ret (Some extra) ∧
    parseTransactionExtra extra = Ret ([TransactionExtraPublicKey (replicate 32 5);
      TransactionExtraNonce [0; 1; 2]; TransactionExtraTTL 1600000000] ++ padding (Some 3), true).
Proof.
  apply extra_roundtrip; [|by vm_compute|by vm_compute].
  repeat constructor; by vm_compute.
Defined.

Lemma parseTransactionExtra_ret extra :
  is_bytes extra → Z.of_nat (length extra) < 2 ^ 64 →
  ∃ fields ok, parseTransactionExtra extra = Ret (fields, ok).
Proof.
  intros Hb Hl. unfold parseTransactionExtra. destruct extra as [|b l] eqn:E; [by eexists _, _|].
  rewrite <- E in *. destruct (new_stream_ok extra Hb Hl) as [Hok Hu].
  destruct (parse_loop_total (S (length extra)) _ [] Hok) as [[fields ok] Hr]; [rewrite Hu; lia|].
  by exists fields, ok.
Qed.

(** the parser returns on every byte string: it never loops and never reads
    out of range, whatever the bytes are. *)
Theorem parse_extra_total extra :
  is_bytes extra → Z.of_nat (length extra) < 2 ^ 64 →
  ∃ fields ok, parseTransactionExtra extra = Ret (fields, ok).
Proof. apply parseTransactionExtra_ret. Qed.

Lemma parse_extra_total_witness :
  ∃ fields ok, parseTransactionExtra [4; 255; 255; 255; 255; 9] = Ret (fields, ok).
Proof. apply parse_extra_total; [apply (bool_decide_unpack _); by vm_compute|by vm_compute]. Defined.

Lemma find_app {A} (pick : TransactionExtraField → option A) l k :
  find_field pick l = None → find_field pick (l ++ k) = find_field pick k.
Proof.
  induction l as [|f l IH]; [done|]. cbn [app find_field]. destruct (pick f); [done|exact IH].
Qed.

(** a payment id written in hexadecimal is added to the extra bytes of a
    transaction that has no nonce yet, and [getPaymentIdFromTxExtra] finds it
    again behind the fields that were there. *)
Theorem payment_id_roundtrip id text fields :
  is_pod 32 id → toHex id = Ret text →
  Forall enc_field fields → find_field pick_nonce fields = None →
  Z.of_nat (length (fields_bytes fields)) < 2 ^ 63 →
  ∃ extra, createTxExtraWithPaymentId text (fields_bytes fields) = Ret (Some extra) ∧
    getPaymentIdFromTxExtra extra = Ret (Some id).
Proof.
  intros [Hb Hl] Ht Hf Hn Hlen.
  set (all := fields ++ [TransactionExtraNonce (TX_EXTRA_NONCE_PAYMENT_ID :: id)]).
  assert (Forall enc_field all) as Hall.
  { apply Forall_app. split; [done|]. constructor; [|done]. split; [by constructor|].
    cbn. rewrite Hl. by vm_compute. }
  assert (fields_bytes all = fields_bytes fields ++ TX_EXTRA_NONCE :: 33 :: 0 :: id) as Hbytes.
  { unfold all, fields_bytes. rewrite flat_map_app. cbn. by rewrite app_nil_r, Hl. }
  assert (podFromHex 32 text = Ret (Some id)) as Hpod.
  { apply podFromHex_iff. destruct (toHex_decode id Hb) as (t & E & D & _).
    rewrite Ht in E. injection E as <-. split; [done|]. lia. }
  exists (fields_bytes all). split.
  - unfold createTxExtraWithPaymentId, parsePaymentId. rewrite Hpod. cbn [mbind outcome_bind].
    unfold addExtraNonceToTransactionExtra, setPaymentIdToTransactionExtraNonce. cbn [length].
    rewrite Hl. by rewrite Hbytes.
  - assert (parseTransactionExtra (fields_bytes all) = Ret (all, true)) as Hparse.
    { pose proof (parse_fields_bytes all None Hall I) as Hp. cbn [padding] in Hp. rewrite app_nil_r in Hp.
      apply Hp. rewrite Hbytes, length_app. cbn [length]. rewrite Hl. lia. }
    unfold getPaymentIdFromTxExtra. rewrite Hparse. cbn [mbind outcome_bind negb].
    unfold all. rewrite find_app by done. cbn [find_field pick_nonce].
    unfold getPaymentIdFromTransactionExtraNonce. cbn [length]. by rewrite Hl.
Qed.

Lemma payment_id_roundtrip_witness :
  ∃ text extra, toHex (replicate 32 0xab) = Ret text ∧
    createTxExtraWithPaymentId text (fields_bytes [TransactionExtraPublicKey (replicate 32 5)]) =
      Ret (Some extra) ∧
    getPaymentIdFromTxExtra extra = Ret (Some (replicate 32 0xab)).
Proof.
  eexists.
  destruct (payment_id_roundtrip (replicate 32 0xab)
    (match toHex (replicate 32 0xab) with Ret t => t | _ => [] end)
    [TransactionExtraPublicKey (replicate 32 5)]) as (extra & H1 & H2).
  - apply (bool_decide_unpack _). by vm_compute.
  - by vm_compute.
  - constructor; [apply (bool_decide_unpack _); by vm_compute|constructor].
  - done.
  - by vm_compute.
  - exists extra. split; [by vm_compute|]. split; [exact H1|exact H2].
Defined.

Section MessageProofs.
Context (generate_key_derivation : PublicKey → SecretKey → option (list Z)).
Context (cn_fast_hash : list Z → list Z) (chacha8 : Z → list Z → list Z → list Z → list Z).
(** A stream cipher: the same key and nonce undo the encryption. *)
Hypothesis chacha8_involutive : ∀ r data key iv,
  chacha8 r (chacha8 r data key iv) key iv = data ∧
  length (chacha8 r data key iv) = length data.

Lemma checksum_ok message :
  let buf := message ++ replicate 4 0 in
  let mlen := Z.to_nat (Z.of_nat (length buf) - 4) in
  forallb (λ b, b =? 0) (take 4 (drop mlen buf)) = true ∧ take mlen buf = message.
Proof using.
  cbv zeta. rewrite length_app, length_replicate.
  replace (Z.to_nat (Z.of_nat (length message + 4) - 4)) with (length message) by lia.
  by rewrite drop_app_length, take_app_length.
Qed.

(** A message is recovered with the secret key whose exchange with the public
    transaction key gives the derivation of the sender; a message without a
    recipient is recovered without a key. *)
Lemma decrypt_encrypt index message recipient txkey sk data :
  match recipient, sk with
  | Some r, Some k => generate_key_derivation (spendPublicKey r) (secretKey txkey) =
                      generate_key_derivation (publicKey txkey) k
  | None, None => True
  | _, _ => False
  end →
  encrypt generate_key_derivation cn_fast_hash chacha8 index message recipient txkey = Some data →
  decrypt generate_key_derivation cn_fast_hash chacha8 data index (publicKey txkey) sk = Some message.
Proof using chacha8_involutive.
  intros Hk He. pose proof (checksum_ok message) as [Hsum Htake]. cbv zeta in *.
  unfold encrypt, decrypt, TX_EXTRA_MESSAGE_CHECKSUM_SIZE in *. change (Z.to_nat 4) with 4%nat in *.
  set (buf := message ++ replicate 4 0) in *.
  assert (4 <= Z.of_nat (length buf)).
  { unfold buf. rewrite length_app, length_replicate. lia. }
  destruct recipient as [r|], sk as [k|]; try done.
  - rewrite Hk in He. destruct (generate_key_derivation _ k) as [dv|] eqn:E; [|done].
    destruct (chacha8_involutive 10 buf (message_key cn_fast_hash dv) (le_bytes 8 (swap64le index)))
      as [Hinv Hlen].
    assert (data = chacha8 10 buf (message_key cn_fast_hash dv) (le_bytes 8 (swap64le index))) as ->
      by congruence.
    rewrite Hlen, Hinv. rewrite (proj2 (Z.ltb_ge _ _)) by lia. by rewrite Hsum, Htake.
  - injection He as <-. rewrite (proj2 (Z.ltb_ge _ _)) by lia. by rewrite Hsum, Htake.
Qed.
End MessageProofs.

(** decrypting an encrypted message with the matching secret key, or a
    plain message without a key, returns the message. The key exchange being
    symmetric and the cipher being its own inverse are the hypotheses. *)
Theorem message_roundtrip generate_key_derivation cn_fast_hash chacha8 index message recipient
    txkey sk data :
  (∀ r d key iv, chacha8 r (chacha8 r d key iv) key iv = d ∧ length (chacha8 r d key iv) = length d) →
  match recipient, sk with
  | Some r, Some k => generate_key_derivation (spendPublicKey r) (secretKey txkey) =
                      generate_key_derivation (publicKey txkey) k
  | None, None => True
  | _, _ => False
  end →
  encrypt generate_key_derivation cn_fast_hash chacha8 index message recipient txkey = Some data →
  decrypt generate_key_derivation cn_fast_hash chacha8 data index (publicKey txkey) sk = Some message.
Proof. intros Hc. by apply decrypt_encrypt. Qed.

(** A key exchange that adds and a cipher that complements the bytes. *)
Definition sample_exchange (p : PublicKey) (s : SecretKey) : option (list Z) :=
  Some [hd 0 p + hd 0 s].
Definition sample_cipher (r : Z) (d key iv : list Z) : list Z := (λ b, 255 - b) <$> d.

Lemma message_roundtrip_witness :
  let txkey := {| publicKey := [3]; secretKey := [3] |} in
  let recipient := {| spendPublicKey := [8]; viewPublicKey := [9] |} in
  decrypt sample_exchange (λ l, l) sample_cipher
    (match encrypt sample_exchange (λ l, l) sample_cipher 1 [104; 105] (Some recipient) txkey with
     | Some d => d | None => [] end) 1 (publicKey txkey) (Some [8]) = Some [104; 105].
Proof.
  cbv zeta.
  apply (message_roundtrip _ _ _ _ _ (Some {| spendPublicKey := [8]; viewPublicKey := [9] |})
    {| publicKey := [3]; secretKey := [3] |}).
  - intros r d key iv. unfold sample_cipher. split; [|apply length_fmap].
    rewrite <- list_fmap_compose. rewrite <- (list_fmap_id d) at 2.
    apply list_fmap_ext. intros i x _. cbn. lia.
  - reflexivity.
  - reflexivity.
Defined.
