(* ===== verification/TreeHash.v ===== *)
(** * Merkle tree of a block ([src/src/crypto/tree-hash.c])

    [tree_hash], [tree_depth], [tree_branch] and [tree_hash_from_branch], with
    the in-place loops of the source over an array of hashes. [cn_fast_hash] is
    an argument. The array obtained from [alloca] holds an arbitrary value
    [uninit] until it is written. The loops are proved equal to a recursive
    Merkle root, and the branch of the first leaf to lead to that root. *)

From S2P Require Import Prelude.

Local Open Scope Z_scope.

Section TreeHash.
Variable cn_fast_hash : list Z → list Z.
Variable uninit : list Z.

(** [cn_fast_hash(hashes[i], 2 * HASH_SIZE, out)]: two adjacent hashes. *)
Definition hash_pair (hashes : list (list Z)) (i : Z) : outcome (list Z) :=
  a ← at_ hashes i; b ← at_ hashes (i + 1); mret (cn_fast_hash (a ++ b)).

(** [for (...; j < n; i += 2, ++j) cn_fast_hash(src[i], 2 * HASH_SIZE, ints[j])]
    where the source array is another one ... *)
Fixpoint pair_from (n : nat) (hashes : list (list Z)) (i j : Z) (ints : list (list Z))
    : outcome (Z * list (list Z)) :=
  match n with
  | O => mret (i, ints)
  | S n' =>
      h ← hash_pair hashes i;
      ints ← set_at ints j h;
      pair_from n' hashes (i + 2) (j + 1) ints
  end.

(** ... and where it is [ints] itself. *)
Fixpoint pair_in_place (n : nat) (i j : Z) (ints : list (list Z)) : outcome (list (list Z)) :=
  match n with
  | O => mret ints
  | S n' =>
      h ← hash_pair ints i;
      ints ← set_at ints j h;
      pair_in_place n' (i + 2) (j + 1) ints
  end.

(** [cnt |= cnt >> i] for [i = 1, 2, 4, ..., 32], then [cnt &= ~(cnt >> 1)]. *)
Definition smear (cnt : Z) : Z :=
  fold_left (λ cnt i, Z.lor cnt (Z.shiftr cnt i)) [1; 2; 4; 8; 16; 32] cnt.
Definition highest_bit (cnt : Z) : Z := Z.ldiff cnt (Z.shiftr cnt 1).

(** [while (cnt > 2)]. The fuel is the number of bits of [cnt]. *)
Fixpoint fold_levels (fuel : nat) (cnt : Z) (ints : list (list Z)) : outcome (list (list Z)) :=
  match fuel with
  | O => Abort
  | S fuel' =>
      if 2 <? cnt then
        let cnt := Z.shiftr cnt 1 in
        ints ← pair_in_place (Z.to_nat cnt) 0 0 ints;
        fold_levels fuel' cnt ints
      else mret ints
  end.

Definition tree_hash (hashes : list (list Z)) : outcome (list Z) :=
  let count := Z.of_nat (length hashes) in
  assert_ (0 <? count);;
  if count =? 1 then at_ hashes 0
  else if count =? 2 then hash_pair hashes 0
  else
    let cnt := highest_bit (smear (count - 1)) in
    let k := u64 (2 * cnt - count) in
    let ints := take (Z.to_nat k) hashes ++ replicate (Z.to_nat (cnt - k)) uninit in
    '(i, ints) ← pair_from (Z.to_nat (cnt - k)) hashes k k ints;
    assert_ (i =? count);;
    ints ← fold_levels 64 cnt ints;
    hash_pair ints 0.

(** [for (i = 32; i > 0; i >>= 1) if (count >> i > 0) ...] *)
Definition tree_depth (count : Z) : outcome Z :=
  assert_ (0 <? count);;
  let '(_, depth) :=
    fold_left (λ '(count, depth) i,
      if 0 <? Z.shiftr count i then (Z.shiftr count i, depth + i) else (count, depth))
      [32; 16; 8; 4; 2; 1] (count, 0) in
  mret depth.

(** The first loop of [tree_branch]: (cnt, depth). *)
Definition branch_size (count : Z) : Z * Z :=
  fold_left (λ '(cnt, depth) i,
    if u64 (Z.shiftl cnt i) <=? count then (u64 (Z.shiftl cnt i), depth + i) else (cnt, depth))
    [32; 16; 8; 4; 2; 1] (1, 0).

(** [while (depth > 0)]: the branch is filled from the deepest level. *)
Fixpoint branch_levels (depth : nat) (cnt : Z) (ints branch : list (list Z))
    : outcome (list (list Z)) :=
  match depth with
  | O => mret branch
  | S depth' =>
      assert_ (cnt =? Z.shiftl 1 (Z.of_nat depth));;
      let cnt := Z.shiftr cnt 1 in
      h ← at_ ints 0;
      branch ← set_at branch (Z.of_nat depth') h;
      ints ← pair_in_place (Z.to_nat (cnt - 1)) 1 0 ints;
      branch_levels depth' cnt ints branch
  end.

(** [tree_branch], with the output array of [tree_depth(count)] hashes. *)
Definition tree_branch (hashes branch : list (list Z)) : outcome (list (list Z)) :=
  let count := Z.of_nat (length hashes) in
  assert_ (0 <? count);;
  let '(cnt, depth) := branch_size count in
  assert_ (cnt =? Z.shiftl 1 depth);;
  d ← tree_depth count;
  assert_ (depth =? d);;
  let k := u64 (2 * cnt - count) in
  let ints := take (Z.to_nat (k - 1)) (drop 1 hashes) ++ replicate (Z.to_nat (cnt - k)) uninit in
  '(i, ints) ← pair_from (Z.to_nat (cnt - k)) hashes k (k - 1) ints;
  assert_ (i =? count);;
  branch_levels (Z.to_nat depth) cnt ints branch.

(** The bit of [path] for a level. *)
Definition path_bit (path : option (list Z)) (depth : Z) : outcome bool :=
  match path with
  | None => mret false
  | Some path =>
      b ← at_ path (Z.shiftr depth 3);
      mret (negb (Z.land b (Z.shiftl 1 (Z.land depth 7)) =? 0))
  end.

(** The loop of [tree_hash_from_branch] over the two halves of [buffer]. *)
Fixpoint from_branch_loop (depth : nat) (branch : list (list Z)) (leaf : list Z)
    (path : option (list Z)) (from_leaf : bool) (buffer0 buffer1 : list Z)
    : outcome (list Z * list Z) :=
  match depth with
  | O => mret (buffer0, buffer1)
  | S depth' =>
      right ← path_bit path (Z.of_nat depth');
      let node := if from_leaf then leaf else cn_fast_hash (buffer0 ++ buffer1) in
      b ← at_ branch (Z.of_nat depth');
      if (right : bool) then from_branch_loop depth' branch leaf path false b node
      else from_branch_loop depth' branch leaf path false node b
  end.

Definition tree_hash_from_branch (branch : list (list Z)) (depth : Z) (leaf : list Z)
    (path : option (list Z)) : outcome (list Z) :=
  if depth =? 0 then mret leaf
  else
    '(buffer0, buffer1) ← from_branch_loop (Z.to_nat depth) branch leaf path true uninit uninit;
    mret (cn_fast_hash (buffer0 ++ buffer1)).
End TreeHash.

(** ** Reference definitions *)

Section Spec.
Variable H : list Z → list Z.

(** One level of the tree. *)
Fixpoint pairs (l : list (list Z)) : list (list Z) :=
  match l with
  | a :: b :: l' => H (a ++ b) :: pairs l'
  | _ => []
  end.

(** The root of a perfect tree of [2^k] leaves. *)
Fixpoint perfect_root (k : nat) (l : list (list Z)) : list Z :=
  match k with
  | O => hd [] l
  | S k' => perfect_root k' (pairs l)
  end.

(** The leaves of [2^k <= n <= 2^(k+1)]: the last ones are paired so that [2^k]
    nodes remain. *)
Definition bottom_level (k : nat) (l : list (list Z)) : list (list Z) :=
  let single := (2 * 2 ^ k - length l)%nat in
  take single l ++ pairs (drop single l).

(** The Merkle root of a non-empty list of hashes. *)
Definition tree_root (l : list (list Z)) : list Z :=
  match l with
  | [h] => h
  | _ => let k := Nat.log2 (length l) in perfect_root k (bottom_level k l)
  end.

(** What a branch proves: the nodes next to the path of the first leaf. *)
Fixpoint climb (leaf : list Z) (branch : list (list Z)) : list Z :=
  match branch with
  | [] => leaf
  | b :: branch' => H (climb leaf branch' ++ b)
  end.
End Spec.

(** ** Powers of two *)

(** The bits [L - m < j <= L] of [cnt] are set and none above. *)
Definition run (L m cnt : Z) : Prop :=
  ∀ j, 0 <= j → (L - m < j <= L → Z.testbit cnt j = true) ∧ (L < j → Z.testbit cnt j = false).

Lemma run_step L m cnt : 0 < m → run L m cnt → run L (2 * m) (Z.lor cnt (Z.shiftr cnt m)).
Proof.
  intros Hm Hr j Hj. rewrite Z.lor_spec, Z.shiftr_spec by done.
  destruct (Hr j Hj) as [H1 H2]. destruct (Hr (j + m) ltac:(lia)) as [H3 H4]. split; intros Hc.
  - destruct (Z_lt_le_dec (L - m) j); [by rewrite H1 by lia|]. rewrite H3 by lia. apply orb_true_r.
  - by rewrite H2, H4 by lia.
Qed.

Lemma highest_bit_smear n : 0 < n < 2 ^ 64 → highest_bit (smear n) = 2 ^ Z.log2 n.
Proof.
  intros Hn. set (L := Z.log2 n).
  assert (0 <= L < 64) as HL.
  { split; [apply Z.log2_nonneg|]. apply Z.log2_lt_pow2; lia. }
  assert (run L 64 (smear n)) as Hr.
  { unfold smear. cbn [fold_left].
    do 6 (apply (run_step L 1) || apply (run_step L 2) || apply (run_step L 4) ||
          apply (run_step L 8) || apply (run_step L 16) || apply (run_step L 32); [lia|]).
    intros j Hj. split; intros Hc; [|by apply Z.bits_above_log2; fold L; lia].
    replace j with L by lia. apply Z.bit_log2. lia. }
  unfold highest_bit. apply Z.bits_inj'. intros j Hj.
  rewrite Z.ldiff_spec, Z.shiftr_spec, Z.pow2_bits_eqb by lia.
  destruct (Hr j Hj) as [H1 H2]. destruct (Hr (j + 1) ltac:(lia)) as [H3 H4].
  destruct (Z.eqb_spec L j) as [->|Hne].
  - by rewrite H1, H4 by lia.
  - destruct (Z_lt_le_dec L j); [by rewrite H2 by lia|]. rewrite H3 by lia. apply andb_false_r.
Qed.

(** Both binary searches for the depth take the same steps. *)
Definition depth_step (L d i : Z) : Z := if d + i <=? L then d + i else d.

Lemma depth_search L :
  0 <= L < 64 → fold_left (depth_step L) [32; 16; 8; 4; 2; 1] 0 = L.
Proof.
  intros HL.
  assert (forallb (λ L, fold_left (depth_step L) [32; 16; 8; 4; 2; 1] 0 =? L) (seqZ 0 64) = true)
    as HF by (vm_compute; reflexivity).
  rewrite forallb_forall in HF. apply Z.eqb_eq, HF, list_elem_of_In, elem_of_seqZ. lia.
Qed.

Lemma pow2_le_log2 n d : 0 < n → 0 <= d → 2 ^ d <= n ↔ d <= Z.log2 n.
Proof. intros Hn Hd. by apply Z.log2_le_pow2. Qed.

Lemma branch_size_spec n : 0 < n < 2 ^ 64 → branch_size n = (2 ^ Z.log2 n, Z.log2 n).
Proof.
  intros Hn. assert (0 <= Z.log2 n < 64) as HL.
  { split; [apply Z.log2_nonneg|]. apply Z.log2_lt_pow2; lia. }
  rewrite <- (depth_search (Z.log2 n) HL) at 1 2. unfold branch_size.
  assert (∀ l d, 0 <= d → Forall (λ i, 0 < i) l → d + sumZ l < 64 →
    fold_left (λ '(cnt, depth) i,
      if u64 (Z.shiftl cnt i) <=? n then (u64 (Z.shiftl cnt i), depth + i) else (cnt, depth))
      l (2 ^ d, d) =
    (2 ^ fold_left (depth_step (Z.log2 n)) l d, fold_left (depth_step (Z.log2 n)) l d)) as Hloop.
  { induction l as [|i l IH]; intros d Hd Hl Hs; [done|]. apply Forall_cons_iff in Hl as [Hi Hl].
    rewrite sumZ_cons in Hs. assert (0 <= sumZ l).
    { apply sumZ_nonneg. eapply Forall_impl; [|exact Hl]. cbn. lia. }
    cbn [fold_left]. rewrite Z.shiftl_mul_pow2, <- Z.pow_add_r by lia.
    rewrite u64_small. 2: { split; [lia|]. apply Z.pow_lt_mono_r; lia. }
    unfold depth_step at 2 4. pose proof (pow2_le_log2 n (d + i) ltac:(lia) ltac:(lia)) as Hp.
    destruct (Z.leb_spec (2 ^ (d + i)) n), (Z.leb_spec (d + i) (Z.log2 n)); try lia; apply IH; done || lia. }
  refine (Hloop [32; 16; 8; 4; 2; 1] 0 _ _ _); [lia| |done]. repeat constructor; lia.
Qed.

Lemma tree_depth_spec n : 0 < n < 2 ^ 64 → tree_depth n = Ret (Z.log2 n).
Proof.
  intros Hn. assert (0 <= Z.log2 n < 64) as HL.
  { split; [apply Z.log2_nonneg|]. apply Z.log2_lt_pow2; lia. }
  unfold tree_depth. rewrite (proj2 (Z.ltb_lt 0 n)) by lia. cbn [assert_ mbind outcome_bind].
  assert (∀ l d, 0 <= d → Forall (λ i, 0 < i) l →
    fold_left (λ '(count, depth) i,
      if 0 <? Z.shiftr count i then (Z.shiftr count i, depth + i) else (count, depth))
      l (Z.shiftr n d, d) =
    (Z.shiftr n (fold_left (depth_step (Z.log2 n)) l d), fold_left (depth_step (Z.log2 n)) l d))
    as Hloop.
  { induction l as [|i l IH]; intros d Hd Hl; [done|]. apply Forall_cons_iff in Hl as [Hi Hl].
    cbn [fold_left]. rewrite Z.shiftr_shiftr by lia.
    assert (0 < Z.shiftr n (d + i) ↔ d + i <= Z.log2 n) as Hp.
    { rewrite <- pow2_le_log2, Z.shiftr_div_pow2 by lia. pose proof (Z.pow_pos_nonneg 2 (d + i)).
      split; intros Hc.
      - apply Z.nlt_ge. intros Hlt. rewrite Z.div_small in Hc; lia.
      - apply Z.div_str_pos. lia. }
    unfold depth_step at 2 4.
    destruct (Z.ltb_spec 0 (Z.shiftr n (d + i))), (Z.leb_spec (d + i) (Z.log2 n)); try lia;
      apply IH; done || lia. }
  pose proof (Hloop [32; 16; 8; 4; 2; 1] 0 ltac:(lia) ltac:(repeat constructor; lia)) as E.
  rewrite Z.shiftr_0_r in E. rewrite E. by rewrite depth_search.
Qed.

(** ** The loops compute levels *)

Section Proofs.
Variable H : list Z → list Z.
Variable uninit : list Z.

Lemma pairs_cons a b l : pairs H (a :: b :: l) = H (a ++ b) :: pairs H l.
Proof using. done. Qed.

Lemma pairs_length n : ∀ l, length l = (2 * n)%nat → length (pairs H l) = n.
Proof using.
  induction n as [|n IH]; intros [|a [|b l]] Hl; simpl in *; try lia.
  rewrite IH; lia.
Qed.

Lemma drop_two {A} (l : list A) i :
  (i + 2 <= length l)%nat → ∃ a b, l !! i = Some a ∧ l !! S i = Some b ∧ drop i l = a :: b :: drop (i + 2) l.
Proof using.
  intros Hi. destruct (lookup_lt_is_Some_2 l i) as [a Ha]; [lia|].
  destruct (lookup_lt_is_Some_2 l (S i)) as [b Hb]; [lia|]. exists a, b.
  split_and!; [done..|]. rewrite (drop_S l a i), (drop_S l b (S i)) by done.
  by replace (i + 2)%nat with (S (S i)) by lia.
Qed.

Lemma hash_pair_ret l i a b :
  l !! i = Some a → l !! S i = Some b → hash_pair H l (Z.of_nat i) = Ret (H (a ++ b)).
Proof using.
  intros Ha Hb. unfold hash_pair. rewrite (at_Some l (Z.of_nat i) a), (at_Some l (Z.of_nat i + 1) b);
    [done|lia| |lia|].
  - by replace (Z.to_nat (Z.of_nat i + 1)) with (S i) by lia.
  - by rewrite Nat2Z.id.
Qed.

(** What is left after the [j]-th entry was overwritten. *)
Lemma overwrite {A} (l : list A) j (h : A) :
  (j < length l)%nat →
  set_at l (Z.of_nat j) h = Ret (<[j:=h]> l) ∧ take (S j) (<[j:=h]> l) = take j l ++ [h].
Proof using.
  intros Hj. split; [rewrite set_at_ret by lia; by rewrite Nat2Z.id|].
  rewrite (take_S_r _ _ h) by (by rewrite list_lookup_insert_eq). by rewrite take_insert_ge by lia.
Qed.

Lemma pair_from_spec n : ∀ hashes i j ints,
  (i + 2 * n <= length hashes)%nat → (j + n <= length ints)%nat →
  pair_from H n hashes (Z.of_nat i) (Z.of_nat j) ints =
    Ret (Z.of_nat (i + 2 * n),
         take j ints ++ pairs H (take (2 * n) (drop i hashes)) ++ drop (j + n) ints).
Proof using.
  induction n as [|n IH]; intros hashes i j ints Hi Hj.
  { cbn. rewrite !Nat.add_0_r. rewrite take_0. cbn. by rewrite take_drop. }
  cbn [pair_from]. destruct (drop_two hashes i ltac:(lia)) as (a & b & Ha & Hb & Hd).
  rewrite (hash_pair_ret _ _ a b) by done. cbn [mbind outcome_bind].
  destruct (overwrite ints j (H (a ++ b)) ltac:(lia)) as [-> Ht]. cbn [mbind outcome_bind].
  replace (Z.of_nat i + 2) with (Z.of_nat (i + 2)) by lia.
  replace (Z.of_nat j + 1) with (Z.of_nat (S j)) by lia.
  rewrite IH by (rewrite ?length_insert; lia). rewrite Ht, drop_insert_lt by lia.
  replace (2 * S n)%nat with (S (S (2 * n))) by lia. rewrite Hd. cbn [take]. rewrite pairs_cons.
  rewrite <- app_assoc. cbn [app]. do 2 f_equal; [f_equal; lia|].
  do 3 f_equal. f_equal. lia.
Qed.

Lemma pair_in_place_spec n : ∀ i j ints,
  (i + 2 * n <= length ints)%nat → (j <= i)%nat →
  pair_in_place H n (Z.of_nat i) (Z.of_nat j) ints =
    Ret (take j ints ++ pairs H (take (2 * n) (drop i ints)) ++ drop (j + n) ints).
Proof using.
  induction n as [|n IH]; intros i j ints Hi Hj.
  { cbn. rewrite !Nat.add_0_r. rewrite take_0. cbn. by rewrite take_drop. }
  cbn [pair_in_place]. destruct (drop_two ints i ltac:(lia)) as (a & b & Ha & Hb & Hd).
  rewrite (hash_pair_ret _ _ a b) by done. cbn [mbind outcome_bind].
  destruct (overwrite ints j (H (a ++ b)) ltac:(lia)) as [-> Ht]. cbn [mbind outcome_bind].
  replace (Z.of_nat i + 2) with (Z.of_nat (i + 2)) by lia.
  replace (Z.of_nat j + 1) with (Z.of_nat (S j)) by lia.
  rewrite IH by (rewrite ?length_insert; lia). rewrite Ht, !drop_insert_lt by lia.
  replace (2 * S n)%nat with (S (S (2 * n))) by lia. rewrite Hd. cbn [take]. rewrite pairs_cons.
  rewrite <- app_assoc. cbn [app]. f_equal. do 2 f_equal. f_equal. f_equal. lia.
Qed.

Lemma pow2_Z k : Z.of_nat (2 ^ k) = 2 ^ Z.of_nat k.
Proof using. by rewrite Nat2Z.inj_pow. Qed.

Lemma pow2_pos k : (1 <= 2 ^ k)%nat.
Proof using. induction k; simpl; lia. Qed.

Lemma shiftr_pow2 k : Z.shiftr (Z.of_nat (2 ^ S k)) 1 = Z.of_nat (2 ^ k).
Proof using.
  rewrite Z.shiftr_div_pow2 by lia. change (2 ^ 1) with 2.
  replace (Z.of_nat (2 ^ S k)) with (Z.of_nat (2 ^ k) * 2) by (simpl; lia). by rewrite Z.div_mul.
Qed.

Lemma fold_levels_spec k : ∀ fuel ints,
  (k < fuel)%nat → (2 ^ S k <= length ints)%nat →
  ∃ ints', fold_levels H fuel (Z.of_nat (2 ^ S k)) ints = Ret ints' ∧
    hash_pair H ints' 0 = Ret (perfect_root H (S k) (take (2 ^ S k) ints)).
Proof using.
  induction k as [|k IH]; intros [|fuel] ints Hf Hl; [lia| |lia|].
  - exists ints. split; [done|]. destruct ints as [|a [|b l]]; simpl in Hl; try lia. done.
  - cbn [fold_levels]. pose proof (pow2_pos k).
    rewrite (proj2 (Z.ltb_lt 2 _)) by (cbn [Nat.pow]; lia).
    rewrite shiftr_pow2, Nat2Z.id, (pair_in_place_spec _ 0%nat 0%nat) by (cbn [Nat.pow] in *; lia).
    cbn [mbind outcome_bind]. rewrite take_0, drop_0. cbn [app].
    replace (2 * 2 ^ S k)%nat with (2 ^ S (S k))%nat by (cbn [Nat.pow]; lia).
    set (l := take (2 ^ S (S k)) ints).
    assert (length (pairs H l) = 2 ^ S k)%nat as Hp.
    { apply pairs_length. unfold l. rewrite length_take. cbn [Nat.pow] in *. lia. }
    destruct (IH fuel (pairs H l ++ drop (0 + 2 ^ S k) ints) ltac:(lia)) as (ints' & -> & E).
    { rewrite length_app. lia. }
    exists ints'. split; [done|]. rewrite E. by rewrite <- Hp, take_app_length.
Qed.

(** A power of two of leaves: pairing all of them is one level of the tree. *)
Lemma tree_root_below l k :
  (2 ^ k < length l <= 2 ^ S k)%nat → tree_root H l = perfect_root H k (bottom_level H k l).
Proof using.
  intros Hl. pose proof (pow2_pos k). unfold tree_root.
  destruct l as [|a [|b l']] eqn:E; [simpl in Hl; lia..|]. rewrite <- E in *. clear a b l' E.
  destruct (decide (length l = 2 ^ S k)%nat) as [Heq|Hne].
  - rewrite Heq, Nat.log2_pow2 by lia. unfold bottom_level. rewrite Heq.
    replace (2 * 2 ^ S k - 2 ^ S k)%nat with (length l) by lia.
    replace (2 * 2 ^ k - 2 ^ S k)%nat with 0%nat by (cbn [Nat.pow]; lia).
    by rewrite take_ge, drop_all, take_0, drop_0, app_nil_r.
  - by rewrite (Nat.log2_unique (length l) k) by lia.
Qed.

(** The first loop leaves the bottom level in [ints]. *)
Lemma first_level l k :
  (2 ^ k <= length l <= 2 ^ S k)%nat →
  let single := (2 * 2 ^ k - length l)%nat in
  pair_from H (2 ^ k - single) l (Z.of_nat single) (Z.of_nat single)
    (take single l ++ replicate (2 ^ k - single) uninit) =
  Ret (Z.of_nat (length l), bottom_level H k l) ∧ length (bottom_level H k l) = (2 ^ k)%nat.
Proof using.
  intros Hl single. cbn [Nat.pow] in Hl.
  assert (length (take single l) = single) as Ht by (rewrite length_take; lia).
  assert (length (drop single l) = 2 * (2 ^ k - single))%nat as Hd by (rewrite length_drop; lia).
  split.
  - rewrite pair_from_spec by (rewrite ?length_app, ?length_replicate, ?Ht; lia).
    rewrite take_app_length', (drop_ge (_ ++ _)) by (rewrite ?length_app, ?length_replicate; lia).
    rewrite (take_ge (drop single l)) by lia. rewrite app_nil_r.
    replace (single + 2 * (2 ^ k - single))%nat with (length l) by lia. done.
  - unfold bottom_level. fold single. rewrite length_app, Ht, (pairs_length (2 ^ k - single)) by done.
    lia.
Qed.

Lemma log2_nat_Z n : (0 < n)%nat → Z.log2 (Z.of_nat n) = Z.of_nat (Nat.log2 n).
Proof using.
  intros Hn. apply Z.log2_unique; [lia|]. pose proof (Nat.log2_spec n Hn) as [H1 H2].
  rewrite <- Nat2Z.inj_succ, <- !pow2_Z. lia.
Qed.

Lemma tree_hash_ret l :
  (1 <= length l)%nat → Z.of_nat (length l) < 2 ^ 62 →
  tree_hash H uninit l = Ret (tree_root H l).
Proof using.
  intros Hl Hmax. unfold tree_hash. rewrite (proj2 (Z.ltb_lt 0 _)) by lia.
  cbn [assert_ mbind outcome_bind].
  destruct (Z.eqb_spec (Z.of_nat (length l)) 1) as [E1|E1].
  { destruct l as [|h [|]]; simpl in *; try lia. done. }
  destruct (Z.eqb_spec (Z.of_nat (length l)) 2) as [E2|E2].
  { destruct l as [|a [|b [|]]]; simpl in *; try lia. done. }
  replace (Z.of_nat (length l) - 1) with (Z.of_nat (length l - 1)) by lia.
  rewrite highest_bit_smear, log2_nat_Z, <- pow2_Z by lia. set (k := Nat.log2 (length l - 1)).
  destruct (Nat.log2_spec (length l - 1) ltac:(lia)) as [Hk1 Hk2]. fold k in Hk1, Hk2.
  destruct k as [|k'] eqn:Ek; [cbn in Hk2; lia|]. rewrite <- Ek in *. clearbody k.
  assert (2 ^ S k = 2 * 2 ^ k)%nat as Hpow by (simpl; lia).
  rewrite u64_small by (unfold in_range; lia).
  replace (2 * Z.of_nat (2 ^ k) - Z.of_nat (length l)) with (Z.of_nat (2 * 2 ^ k - length l)) by lia.
  rewrite Nat2Z.id.
  replace (Z.to_nat (Z.of_nat (2 ^ k) - Z.of_nat (2 * 2 ^ k - length l)))
    with (2 ^ k - (2 * 2 ^ k - length l))%nat by lia.
  destruct (first_level l k ltac:(lia)) as [-> Hlen]. cbn [mbind outcome_bind].
  rewrite Z.eqb_refl. cbn [assert_ mbind outcome_bind]. subst k.
  destruct (fold_levels_spec k' 64 (bottom_level H (S k') l)) as (ints' & -> & E); [|lia|].
  { assert (Z.of_nat k' < 64); [|lia]. apply (Z.pow_lt_mono_r_iff 2); [lia..|].
    rewrite <- pow2_Z. cbn [Nat.pow] in Hk1. lia. }
  cbn [mbind outcome_bind]. rewrite E, take_ge by lia. by rewrite (tree_root_below l (S k')) by lia.
Qed.

(** ** Branches *)

Lemma climb_snoc leaf B h : climb H leaf (B ++ [h]) = climb H (H (leaf ++ h)) B.
Proof using. induction B as [|b B IH]; [done|]. cbn [app climb]. by rewrite IH. Qed.

(** [ints] holds a level without its first node. *)
Lemma branch_levels_spec depth : ∀ L ints branch,
  length L = (2 ^ depth)%nat → (depth <= length branch)%nat →
  take (2 ^ depth - 1) ints = drop 1 L → (2 ^ depth - 1 <= length ints)%nat →
  ∃ branch', branch_levels H depth (Z.of_nat (2 ^ depth)) ints branch = Ret branch' ∧
    length branch' = length branch ∧ drop depth branch' = drop depth branch ∧
    climb H (hd [] L) (take depth branch') = perfect_root H depth L.
Proof using.
  induction depth as [|d IH]; intros L ints branch HL Hb Hi Hlen.
  { exists branch. split_and!; done. }
  pose proof (pow2_pos d). assert (2 ^ S d = 2 * 2 ^ d)%nat as Hpow by (simpl; lia).
  destruct L as [|x [|y L]]; [simpl in HL; lia..|]. destruct ints as [|i0 ints]; [simpl in Hlen; lia|].
  destruct (2 ^ S d - 1)%nat as [|m] eqn:Em; [lia|]. cbn [take drop] in Hi.
  injection Hi as -> Hi. cbn [length] in HL, Hlen. cbn [branch_levels].
  rewrite Z.shiftl_1_l, <- pow2_Z, Z.eqb_refl. cbn [assert_ mbind outcome_bind].
  rewrite (at_Some (y :: ints) 0 y) by done. cbn [mbind outcome_bind].
  rewrite set_at_ret, Nat2Z.id by lia. cbn [mbind outcome_bind].
  rewrite shiftr_pow2. replace (Z.to_nat (Z.of_nat (2 ^ d) - 1)) with (2 ^ d - 1)%nat by lia.
  rewrite (pair_in_place_spec _ 1%nat 0%nat) by (cbn [length]; lia). cbn [mbind outcome_bind].
  rewrite take_0. cbn [app drop]. rewrite drop_0.
  replace (2 * (2 ^ d - 1))%nat with m by lia. rewrite Hi.
  assert (length (pairs H L) = 2 ^ d - 1)%nat as Hp by (apply pairs_length; lia).
  set (ints1 := pairs H L ++ drop (0 + (2 ^ d - 1)) (y :: ints)).
  destruct (IH (pairs H (x :: y :: L)) ints1 (<[d:=y]> branch)) as (branch' & E & Hl & Hdr & Hc).
  { rewrite pairs_cons. cbn [length]. lia. } { rewrite length_insert. lia. }
  { unfold ints1. by rewrite <- Hp, take_app_length. }
  { unfold ints1. rewrite length_app. lia. }
  rewrite length_insert in Hl. exists branch'. split; [exact E|]. split; [done|].
  assert (branch' !! d = Some y) as Hy.
  { rewrite <- (Nat.add_0_r d), <- lookup_drop, Hdr, lookup_drop, Nat.add_0_r.
    apply list_lookup_insert_eq. lia. }
  split.
  - rewrite <- Nat.add_1_r, <- !drop_drop, Hdr, drop_drop. rewrite drop_insert_lt by lia.
    by rewrite drop_drop.
  - rewrite (take_S_r _ _ y) by done. rewrite climb_snoc. exact Hc.
Qed.

Lemma from_branch_spec d : ∀ branch leaf from_leaf b0 b1,
  (S d <= length branch)%nat →
  ∃ x y, from_branch_loop H (S d) branch leaf None from_leaf b0 b1 = Ret (x, y) ∧
    H (x ++ y) = climb H (if from_leaf then leaf else H (b0 ++ b1)) (take (S d) branch).
Proof using.
  induction d as [|d IH]; intros branch leaf from_leaf b0 b1 Hb.
  - destruct branch as [|b branch]; [simpl in Hb; lia|]. cbn. by eexists _, _.
  - destruct (lookup_lt_is_Some_2 branch (S d)) as [b Hlook]; [lia|].
    set (node := if from_leaf then leaf else H (b0 ++ b1)).
    destruct (IH branch leaf false node b ltac:(lia)) as (x & y & E & Hc). exists x, y.
    split; [|by rewrite (take_S_r _ _ b), climb_snoc].
    cbn [from_branch_loop path_bit mbind outcome_bind mret outcome_ret].
    rewrite (at_Some branch (Z.of_nat (S d)) b) by (rewrite ?Nat2Z.id; done || lia).
    cbn [mbind outcome_bind]. exact E.
Qed.

Lemma hd_bottom k l :
  (2 ^ k <= length l < 2 ^ S k)%nat → hd [] (bottom_level H k l) = hd [] l.
Proof using.
  intros Hl. unfold bottom_level. destruct l as [|h l]; [pose proof (pow2_pos k); simpl in *; lia|].
  replace (2 * 2 ^ k - length (h :: l))%nat with (S (2 * 2 ^ k - length (h :: l) - 1))%nat
    by (cbn [Nat.pow] in Hl; lia). done.
Qed.

(** The first loop of [tree_branch] leaves the bottom level without its first
    node in [ints]. *)
Lemma first_level_tail l k :
  (2 ^ k <= length l < 2 ^ S k)%nat →
  let single := (2 * 2 ^ k - length l)%nat in
  pair_from H (2 ^ k - single) l (Z.of_nat single) (Z.of_nat (single - 1))
    (take (single - 1) (drop 1 l) ++ replicate (2 ^ k - single) uninit) =
  Ret (Z.of_nat (length l), drop 1 (bottom_level H k l)).
Proof using.
  intros Hl single. cbn [Nat.pow] in Hl. pose proof (pow2_pos k).
  assert (length (take (single - 1) (drop 1 l)) = single - 1)%nat as Ht
    by (rewrite length_take, length_drop; lia).
  assert (length (drop single l) = 2 * (2 ^ k - single))%nat as Hd by (rewrite length_drop; lia).
  rewrite pair_from_spec by (rewrite ?length_app, ?length_replicate, ?Ht; lia).
  rewrite take_app_length', (drop_ge (_ ++ _)) by (rewrite ?length_app, ?length_replicate; lia).
  rewrite (take_ge (drop single l)) by lia. rewrite app_nil_r.
  replace (single + 2 * (2 ^ k - single))%nat with (length l) by lia.
  unfold bottom_level. fold single. rewrite drop_app_le by (rewrite length_take; lia).
  by rewrite skipn_firstn_comm.
Qed.

Lemma tree_root_at l k :
  (2 ^ k <= length l < 2 ^ S k)%nat → tree_root H l = perfect_root H k (bottom_level H k l).
Proof using.
  intros Hl. assert (Nat.log2 (length l) = k) as Hk by (apply Nat.log2_unique; lia).
  unfold tree_root. destruct l as [|h [|h' l']]; [simpl in Hl; pose proof (pow2_pos k); lia| |by rewrite Hk].
  cbn in Hk. by subst k.
Qed.

Lemma tree_branch_ret l branch :
  (1 <= length l)%nat → Z.of_nat (length l) < 2 ^ 62 →
  length branch = Nat.log2 (length l) →
  ∃ branch', tree_branch H uninit l branch = Ret branch' ∧ length branch' = length branch ∧
    climb H (hd [] l) branch' = tree_root H l.
Proof using.
  intros Hl Hmax Hb. unfold tree_branch. rewrite (proj2 (Z.ltb_lt 0 _)) by lia.
  cbn [assert_ mbind outcome_bind]. rewrite branch_size_spec, tree_depth_spec by lia.
  rewrite Z.shiftl_1_l. cbn [mbind outcome_bind]. rewrite !Z.eqb_refl. cbn [assert_ mbind outcome_bind].
  rewrite !log2_nat_Z, <- pow2_Z by lia. set (k := Nat.log2 (length l)) in *.
  destruct (Nat.log2_spec (length l) ltac:(lia)) as [Hk1 Hk2]. fold k in Hk1, Hk2.
  assert (2 ^ S k = 2 * 2 ^ k)%nat as Hpow by (simpl; lia).
  rewrite !u64_small by (unfold in_range; lia).
  replace (2 * Z.of_nat (2 ^ k) - Z.of_nat (length l)) with (Z.of_nat (2 * 2 ^ k - length l)) by lia.
  pose proof (first_level_tail l k ltac:(lia)) as Hfirst. cbv zeta in Hfirst.
  set (single := (2 * 2 ^ k - length l)%nat) in *.
  replace (Z.of_nat single - 1) with (Z.of_nat (single - 1)) by lia. rewrite !Nat2Z.id.
  replace (Z.to_nat (Z.of_nat (2 ^ k) - Z.of_nat single)) with (2 ^ k - single)%nat by lia.
  rewrite Hfirst. cbn [mbind outcome_bind]. rewrite Z.eqb_refl. cbn [assert_ mbind outcome_bind].
  destruct (first_level l k ltac:(lia)) as [_ Hlen].
  destruct (branch_levels_spec k (bottom_level H k l) (drop 1 (bottom_level H k l)) branch)
    as (branch' & -> & Hlb & _ & Hc); [done|lia|by rewrite take_ge by (rewrite length_drop; lia)|
    rewrite length_drop; lia|].
  exists branch'. split; [done|]. split; [done|].
  rewrite hd_bottom, take_ge in Hc by lia. by rewrite Hc, (tree_root_at l k) by lia.
Qed.
End Proofs.

(** ** Properties *)

(** C38: the in-place loops of [tree_hash] compute the Merkle root of any
    non-empty list of hashes; no assertion fails and the uninitialised memory is
    never read. *)
Theorem tree_hash_exact cn_fast_hash uninit hashes :
  hashes ≠ [] → Z.of_nat (length hashes) < 2 ^ 62 →
  tree_hash cn_fast_hash uninit hashes = Ret (tree_root cn_fast_hash hashes).
Proof. intros Hne Hmax. apply tree_hash_ret; [|done]. destruct hashes; [done|simpl; lia]. Qed.

(** A hash that shows its input. *)
Definition show_hash (l : list Z) : list Z := 0 :: l ++ [9].

Lemma tree_hash_exact_witness :
  tree_hash show_hash [77] [[1]; [2]; [3]; [4]; [5]] =
    Ret (show_hash (show_hash ([1] ++ [2]) ++ show_hash ([3] ++ show_hash ([4] ++ [5])))).
Proof. rewrite tree_hash_exact; done. Defined.

(** [tree_branch] returns the branch of the first leaf, and
    [tree_hash_from_branch] climbs along it from that leaf to the very root
    [tree_hash] computes. *)
Theorem merkle_branch_sound cn_fast_hash uninit hashes branch :
  hashes ≠ [] → Z.of_nat (length hashes) < 2 ^ 62 →
  tree_depth (Z.of_nat (length hashes)) = Ret (Z.of_nat (length branch)) →
  ∃ branch', tree_branch cn_fast_hash uninit hashes branch = Ret branch' ∧
    length branch' = length branch ∧
    tree_hash_from_branch cn_fast_hash uninit branch' (Z.of_nat (length branch)) (hd [] hashes) None =
      tree_hash cn_fast_hash uninit hashes.
Proof.
  intros Hne Hmax Hd. assert (1 <= length hashes)%nat as Hl by (destruct hashes; [done|simpl; lia]).
  rewrite tree_depth_spec, log2_nat_Z in Hd by lia. injection Hd as Hd.
  destruct (tree_branch_ret cn_fast_hash uninit hashes branch Hl Hmax ltac:(lia))
    as (branch' & E & Hlb & Hc).
  exists branch'. split; [done|]. split; [done|]. rewrite tree_hash_ret, <- Hc by done.
  unfold tree_hash_from_branch. destruct (length branch) as [|d] eqn:Eb.
  - by destruct branch'.
  - rewrite (proj2 (Z.eqb_neq _ 0)), Nat2Z.id by lia.
    destruct (from_branch_spec cn_fast_hash d branch' (hd [] hashes) true uninit uninit ltac:(lia))
      as (x & y & -> & Hxy).
    cbn [mbind outcome_bind]. rewrite Hxy, take_ge by lia. done.
Qed.

Lemma merkle_branch_sound_witness :
  ∃ branch', tree_branch show_hash [77] [[1]; [2]; [3]; [4]; [5]] [[]; []] = Ret branch' ∧
    length branch' = length [[]; [] : list Z] ∧
    tree_hash_from_branch show_hash [77] branch' 2 [1] None =
      tree_hash show_hash [77] [[1]; [2]; [3]; [4]; [5]].
Proof. apply (merkle_branch_sound show_hash [77] [[1]; [2]; [3]; [4]; [5]] [[]; []]); done. Defined.
