(* ===== verification/FormatUtils.v ===== *)
(** * Transactions and blocks: construction and checks

    [src/src/CryptoNoteCore/CryptoNoteFormatUtils.cpp]: building a transaction,
    the checks of its shape and amounts, recognising the outputs of an account,
    the bytes and hashes of a block, and the conversion of output offsets; and
    [Currency::constructMinerTx] and [Currency::checkProofOfWork] of
    [Currency.cpp]. Randomly generated keys are arguments. *)

From S2P Require Import Prelude Varint Streams IntUtil StringTools Config Amounts CryptoNoteTypes.
From S2P Require Import Serialization CryptoNoteSerialization Crypto Currency TransactionExtra TreeHash.
From stdpp Require Import sorting.

Local Open Scope Z_scope.

(** ** Entries of a transfer *)

Record TransactionSourceEntry := {
  src_outputs : list (Z * PublicKey);
  realOutput : Z;
  realTransactionPublicKey : PublicKey;
  realOutputIndexInTransaction : Z;
  src_amount : Z
}.

Record TransactionDestinationEntry := { dst_amount : Z; dst_addr : AccountPublicAddress }.

Record tx_message_entry := {
  msg_message : list Z;
  msg_encrypt : bool;
  msg_addr : AccountPublicAddress
}.

(** ** Output offsets *)

(** [for (i = 1; ...) res[i] += res[i - 1]], from the left. *)
Fixpoint accumulate (prev : Z) (l : list Z) : list Z :=
  match l with
  | [] => []
  | x :: l' => let y := u32 (x + prev) in y :: accumulate y l'
  end.
Definition relative_output_offsets_to_absolute (off : list Z) : list Z :=
  match off with [] => [] | x :: l => x :: accumulate x l end.

(** [for (i = size - 1; i != 0; i--) res[i] -= res[i - 1]], from the right: the
    element on the left is still the old one. *)
Fixpoint differences (prev : Z) (l : list Z) : list Z :=
  match l with
  | [] => []
  | x :: l' => u32 (x - prev) :: differences x l'
  end.
Definition absolute_output_offsets_to_relative (off : list Z) : list Z :=
  match sort_Z off with [] => [] | x :: l => x :: differences x l end.

(** ** Checks of a transaction *)

Definition get_inputs_money_amount (tx : Transaction) : Z := sum64 (getInputsAmounts (inputs tx)).
Definition get_outs_money_amount (tx : Transaction) : Z := sum64 (out_amount <$> outputs tx).

Definition get_block_height (b : Block) : Z :=
  match inputs (baseTransaction b) with
  | [InBase i] => bi_blockIndex i
  | _ => 0
  end.

Definition check_inputs_types_supported (tx : TransactionPrefix) : bool :=
  forallb (λ i, match i with
    | InMultisignature _ => negb (version tx <? TRANSACTION_VERSION_2)
    | InKey _ => true
    | InBase _ => false
    end) (inputs tx).

(** [checkMultisignatureInputsDiff]: the pairs inserted so far. *)
Fixpoint multisig_diff (ins : list TransactionInput) (inputsUsage : gset (Z * Z)) : bool :=
  match ins with
  | [] => true
  | InMultisignature m :: ins' =>
      let key := (mi_amount m, mi_outputIndex m) in
      if bool_decide (key ∈ inputsUsage) then false
      else multisig_diff ins' ({[key]} ∪ inputsUsage)
  | _ :: ins' => multisig_diff ins' inputsUsage
  end.
Definition checkMultisignatureInputsDiff (tx : TransactionPrefix) : bool :=
  multisig_diff (inputs tx) ∅.

(** The amount of an input with the interest it may have earned: [None] where
    the check returns false. *)
Definition input_max_amount (i : TransactionInput) : outcome (option Z) :=
  match i with
  | InBase _ => mret (Some 0)
  | InKey k => mret (Some (ki_amount k))
  | InMultisignature m =>
      let amount := mi_amount m in
      if negb (mi_term m =? 0) then
        '(lo, hi) ← mul128 amount DEPOSIT_MAX_TOTAL_RATE;
        '(_, maxInterestHi, maxInterestLo) ← div128_32 hi lo 100;
        if 0 <? maxInterestHi then mret None
        else if u64 (UINT64_MAX - maxInterestLo) <? amount then mret None
        else mret (Some (u64 (amount + maxInterestLo)))
      else mret (Some amount)
  end.

Fixpoint inputs_overflow_loop (ins : list TransactionInput) (money : Z) : outcome bool :=
  match ins with
  | [] => mret true
  | i :: ins' =>
      r ← input_max_amount i;
      match r with
      | None => mret false
      | Some amount =>
          if u64 (amount + money) <? money then mret false
          else inputs_overflow_loop ins' (u64 (money + amount))
      end
  end.
Definition check_inputs_overflow (tx : TransactionPrefix) : outcome bool :=
  inputs_overflow_loop (inputs tx) 0.

Fixpoint outs_overflow_loop (outs : list TransactionOutput) (money : Z) : bool :=
  match outs with
  | [] => true
  | o :: outs' =>
      if u64 (out_amount o + money) <? money then false
      else outs_overflow_loop outs' (u64 (money + out_amount o))
  end.
Definition check_outs_overflow (tx : TransactionPrefix) : bool := outs_overflow_loop (outputs tx) 0.

Definition check_money_overflow (tx : TransactionPrefix) : outcome bool :=
  b ← check_inputs_overflow tx;
  mret (if b : bool then check_outs_overflow tx else false).

(** A binary search of the table of [Currency]. *)
Definition is_valid_decomposed_amount (amount : Z) : bool :=
  match PRETTY_AMOUNTS !! lower_bound PRETTY_AMOUNTS amount 0 with
  | None => false
  | Some a => amount =? a
  end.

Definition short_hash_str (h : Hash) : outcome (list Z) :=
  res ← toHex h;
  mret (if Z.of_nat (length res) =? 64
        then take 8 res ++ bytes_of_string "...." ++ drop 56 res else res).

Section Crypto.
Context `{CryptoOps}.
(** The content of a variable that was not written. *)
Variable uninit : list Z.

(** [parseAndValidateTransactionFromBinaryArray]: the transaction, its hash and
    the hash of its prefix. *)
Definition parseAndValidateTransactionFromBinaryArray (tx_blob : BinaryArray)
    : outcome (option (Transaction * Hash * Hash)) :=
  r ← fromBinaryArray serialize_Transaction empty_transaction tx_blob;
  match r with
  | None => mret None
  | Some tx =>
      tx_prefix_hash ← getObjectHash cn_fast_hash serialize_TransactionPrefix (tx_prefix tx);
      mret (Some (tx, cn_fast_hash tx_blob, tx_prefix_hash))
  end.

(** [generate_key_image_helper]: a failure is asserted away. *)
Definition generate_key_image_helper (ack : AccountKeys) (tx_public_key : PublicKey)
    (real_output_index : Z) : outcome (KeyPair * KeyImage) :=
  match generate_key_derivation tx_public_key (viewSecretKey ack) with
  | None => Abort
  | Some recv_derivation =>
      match derive_public_key recv_derivation real_output_index (spendPublicKey (address ack)) with
      | None => Abort
      | Some pub =>
          let sec := derive_secret_key recv_derivation real_output_index (spendSecretKey ack) in
          mret ({| publicKey := pub; secretKey := sec |}, generate_key_image pub sec)
      end
  end.

(** ** [check_outs_valid]

    [None] for true, the error text for false. [error_given] tells whether the
    caller passed a string to write the text to. *)
Definition check_out_valid (version : Z) (error_given : bool) (out : TransactionOutput)
    : outcome (option string) :=
  match out_target out with
  | OutKey k =>
      if out_amount out =? 0 then mret (Some "Zero amount ouput"%string)
      else if negb (check_key (ko_key k)) then mret (Some "Output with invalid key"%string)
      else mret None
  | OutMultisignature m =>
      if version <? TRANSACTION_VERSION_2 then
        if error_given then
          mret (Some "Transaction contains multisignature output but its version is less than 2"%string)
        else Abort
      else if Z.of_nat (length (mo_keys m)) <? mo_requiredSignatureCount m then
        mret (Some "Multisignature output with invalid required signature count"%string)
      else if negb (forallb check_key (mo_keys m)) then
        mret (Some "Multisignature output with invalid public key"%string)
      else mret None
  end.

Fixpoint check_outs_loop (version : Z) (error_given : bool) (outs : list TransactionOutput)
    : outcome (option string) :=
  match outs with
  | [] => mret None
  | out :: outs' =>
      r ← check_out_valid version error_given out;
      match r with
      | Some e => mret (Some e)
      | None => check_outs_loop version error_given outs'
      end
  end.
Definition check_outs_valid (tx : TransactionPrefix) (error_given : bool) : outcome (option string) :=
  check_outs_loop (version tx) error_given (outputs tx).

(** ** [constructTransaction] *)

(** The inputs, their one-time keys and their sum; [None] where the code
    returns false. *)
Definition fill_input (sender_account_keys : AccountKeys) (src_entr : TransactionSourceEntry)
    : outcome (option (KeyInput * KeyPair)) :=
  if Z.of_nat (length (src_outputs src_entr)) <=? realOutput src_entr then mret None
  else
    '(in_ephemeral, img) ← generate_key_image_helper sender_account_keys
        (realTransactionPublicKey src_entr) (realOutputIndexInTransaction src_entr);
    '(_, real_key) ← at_ (src_outputs src_entr) (realOutput src_entr);
    mret (if negb (bool_decide (publicKey in_ephemeral = real_key)) then None
          else Some ({| ki_amount := src_amount src_entr;
                        ki_outputIndexes :=
                          absolute_output_offsets_to_relative (fst <$> src_outputs src_entr);
                        ki_keyImage := img |}, in_ephemeral)).

Fixpoint fill_inputs (sender_account_keys : AccountKeys) (sources : list TransactionSourceEntry)
    : outcome (option (list (KeyInput * KeyPair))) :=
  match sources with
  | [] => mret (Some [])
  | src_entr :: sources' =>
      r ← fill_input sender_account_keys src_entr;
      match r with
      | None => mret None
      | Some i =>
          r ← fill_inputs sender_account_keys sources';
          mret (match r with None => None | Some l => Some (i :: l) end)
      end
  end.

(** [std::sort] of the destinations by amount. *)
Definition dst_le (d1 d2 : TransactionDestinationEntry) : Prop := dst_amount d1 <= dst_amount d2.
#[export] Instance dst_le_dec d1 d2 : Decision (dst_le d1 d2).
Proof. unfold dst_le. apply _. Defined.
Definition shuffled_dsts (destinations : list TransactionDestinationEntry) :=
  merge_sort dst_le destinations.

(** The one-time key of output [i] for an address: shared with the miner. *)
Definition out_key (addr : AccountPublicAddress) (txkey : KeyPair) (i : Z) : option PublicKey :=
  match generate_key_derivation (viewPublicKey addr) (secretKey txkey) with
  | None => None
  | Some derivation => derive_public_key derivation i (spendPublicKey addr)
  end.

Fixpoint fill_outputs (txkey : KeyPair) (dsts : list TransactionDestinationEntry) (output_index : Z)
    : option (list TransactionOutput) :=
  match dsts with
  | [] => Some []
  | dst_entr :: dsts' =>
      if negb (0 <? dst_amount dst_entr) then None
      else match out_key (dst_addr dst_entr) txkey output_index with
           | None => None
           | Some out_eph_public_key =>
               match fill_outputs txkey dsts' (u64 (output_index + 1)) with
               | None => None
               | Some outs =>
                   Some ({| out_amount := dst_amount dst_entr;
                            out_target := OutKey {| ko_key := out_eph_public_key |} |} :: outs)
               end
           end
  end.

Fixpoint fill_messages (txkey : KeyPair) (messages : list tx_message_entry) (i : Z) (extra : list Z)
    : outcome (option (list Z)) :=
  match messages with
  | [] => mret (Some extra)
  | msg :: messages' =>
      match encrypt generate_key_derivation cn_fast_hash chacha8 i (msg_message msg)
              (if msg_encrypt msg then Some (msg_addr msg) else None) txkey with
      | None => mret None
      | Some tag =>
          r ← append_message_to_extra extra tag;
          match r with
          | None => mret None
          | Some extra => fill_messages txkey messages' (u64 (i + 1)) extra
          end
      end
  end.

Definition constructTransaction (sender_account_keys : AccountKeys)
    (sources : list TransactionSourceEntry) (destinations : list TransactionDestinationEntry)
    (messages : list tx_message_entry) (ttl : Z) (extra : list Z) (unlock_time : Z) (txkey : KeyPair)
    : outcome (option Transaction) :=
  let extra := addTransactionPublicKeyToExtra extra (publicKey txkey) in
  r ← fill_inputs sender_account_keys sources;
  match r with
  | None => mret None
  | Some ins =>
      let summary_inputs_money := sum64 (src_amount <$> sources) in
      let dsts := shuffled_dsts destinations in
      match fill_outputs txkey dsts 0 with
      | None => mret None
      | Some outs =>
          let summary_outs_money := sum64 (dst_amount <$> dsts) in
          if summary_inputs_money <? summary_outs_money then mret None
          else
            r ← fill_messages txkey messages 0 extra;
            match r with
            | None => mret None
            | Some extra =>
                let extra := if negb (ttl =? 0) then appendTTLToExtra extra ttl else extra in
                let prefix := {| version := TRANSACTION_VERSION_1; unlockTime := unlock_time;
                                 inputs := (InKey ∘ fst) <$> ins; outputs := outs;
                                 extra := extra |} in
                tx_prefix_hash ← getObjectHash cn_fast_hash serialize_TransactionPrefix prefix;
                mret (Some {| tx_prefix := prefix;
                  signatures := zip_with (λ src_entr '(i, in_ephemeral),
                    generate_ring_signature tx_prefix_hash (ki_keyImage i) (snd <$> src_outputs src_entr)
                      (secretKey in_ephemeral) (realOutput src_entr)) sources ins |})
            end
      end
  end.

(** ** Outputs of an account *)

(** [is_out_to_acc] with a derivation: the result of [derive_public_key] is not
    looked at. *)
Definition is_out_to_acc_derived (acc : AccountKeys) (out_key : KeyOutput)
    (derivation : KeyDerivation) (keyIndex : Z) : bool :=
  let pk := default uninit (derive_public_key derivation keyIndex (spendPublicKey (address acc))) in
  bool_decide (pk = ko_key out_key).

Definition acc_derivation (acc : AccountKeys) (tx_pub_key : PublicKey) : KeyDerivation :=
  default uninit (generate_key_derivation tx_pub_key (viewSecretKey acc)).

Definition is_out_to_acc (acc : AccountKeys) (out_key : KeyOutput) (tx_pub_key : PublicKey)
    (keyIndex : Z) : bool :=
  is_out_to_acc_derived acc out_key (acc_derivation acc tx_pub_key) keyIndex.

(** The loop of [lookup_acc_outs]: the indices and the sum. *)
Fixpoint lookup_outs_loop (acc : AccountKeys) (derivation : KeyDerivation)
    (outs : list TransactionOutput) (keyIndex outputIndex : Z) (found : list Z) (money : Z)
    : list Z * Z :=
  match outs with
  | [] => (found, money)
  | o :: outs' =>
      match out_target o with
      | OutKey k =>
          if is_out_to_acc_derived acc k derivation keyIndex
          then lookup_outs_loop acc derivation outs' (u64 (keyIndex + 1)) (u64 (outputIndex + 1))
                 (found ++ [outputIndex]) (u64 (money + out_amount o))
          else lookup_outs_loop acc derivation outs' (u64 (keyIndex + 1)) (u64 (outputIndex + 1))
                 found money
      | OutMultisignature m =>
          lookup_outs_loop acc derivation outs' (u64 (keyIndex + Z.of_nat (length (mo_keys m))))
            (u64 (outputIndex + 1)) found money
      end
  end.

Definition lookup_acc_outs (acc : AccountKeys) (tx : Transaction) (tx_pub_key : PublicKey)
    : list Z * Z :=
  lookup_outs_loop acc (acc_derivation acc tx_pub_key) (outputs tx) 0 0 [] 0.

Definition lookup_acc_outs_extra (acc : AccountKeys) (tx : Transaction)
    : outcome (option (list Z * Z)) :=
  transactionPublicKey ← getTransactionPublicKeyFromExtra (extra tx);
  mret (if bool_decide (transactionPublicKey = replicate 32 0) then None
        else Some (lookup_acc_outs acc tx transactionPublicKey)).

(** ** Block hashes *)

Definition get_tx_tree_hash (b : Block) : outcome Hash :=
  h ← getObjectHash cn_fast_hash serialize_Transaction (baseTransaction b);
  tree_hash cn_fast_hash uninit (h :: transactionHashes b).

Definition get_block_hashing_blob (b : Block) : outcome (option BinaryArray) :=
  r ← toBinaryArray serializeBlockHeader (block_header b) [];
  match r with
  | None => mret None
  | Some ba =>
      treeRootHash ← get_tx_tree_hash b;
      mret (Some (ba ++ treeRootHash ++
        get_varint_data (u64 (Z.of_nat (length (transactionHashes b)) + 1))))
  end.

(** [toBinaryArray] of a byte array: a string. *)
Definition serialize_BinaryArray {St} `{!ISerializer St} (object : BinaryArray) : M St BinaryArray :=
  '(b, _) ← ser_string object EmptyString; mret b.

Definition get_block_hash (b : Block) : outcome Hash :=
  r ← get_block_hashing_blob b;
  match r with
  | None => mret NULL_HASH
  | Some ba => getObjectHash cn_fast_hash serialize_BinaryArray ba
  end.

Definition get_block_longhash (b : Block) : outcome (option Hash) :=
  r ← get_block_hashing_blob b;
  mret (match r with
        | None => None
        | Some bd =>
            Some (if 3 <=? majorVersion b then cn_conceal_slow_hash_v0 bd
                  else if majorVersion b =? 2 then cn_fast_slow_hash_v1 bd
                  else cn_slow_hash bd)
        end).

(** [Currency::checkProofOfWork]: the hash and whether it is good enough. *)
Definition checkProofOfWork (block : Block) (currentDifficulty : Z) : outcome (option Hash * bool) :=
  r ← get_block_longhash block;
  mret (match r with
        | None => (None, false)
        | Some proofOfWork => (Some proofOfWork, check_hash proofOfWork currentDifficulty)
        end).

(** ** [Currency::constructMinerTx] *)

(** [while (maxOuts < outAmounts.size())]: the last amount is added to the one
    before it. *)
Fixpoint merge_outs (fuel : nat) (maxOuts : Z) (outAmounts : list Z) : outcome (list Z) :=
  match fuel with
  | O => Abort
  | S fuel =>
      let size := Z.of_nat (length outAmounts) in
      if maxOuts <? size then
        a ← at_ outAmounts (size - 2);
        b ← at_ outAmounts (size - 1);
        l ← set_at outAmounts (size - 2) (u64 (a + b));
        merge_outs fuel maxOuts (take (Z.to_nat (size - 1)) l)
      else mret outAmounts
  end.

Fixpoint miner_outputs (minerAddress : AccountPublicAddress) (txkey : KeyPair) (outAmounts : list Z)
    (no : Z) : option (list TransactionOutput) :=
  match outAmounts with
  | [] => Some []
  | amount :: outAmounts' =>
      match out_key minerAddress txkey no with
      | None => None
      | Some outEphemeralPubKey =>
          match miner_outputs minerAddress txkey outAmounts' (u64 (no + 1)) with
          | None => None
          | Some outs =>
              Some ({| out_amount := amount;
                       out_target := OutKey {| ko_key := outEphemeralPubKey |} |} :: outs)
          end
      end
  end.

(** The signatures of [tx] are left as they are. *)
Definition constructMinerTx (c : Currency) (height medianSize alreadyGeneratedCoins
    currentBlockSize fee : Z) (minerAddress : AccountPublicAddress) (tx : Transaction)
    (extraNonce : BinaryArray) (maxOuts : Z) (txkey : KeyPair) : outcome (option Transaction) :=
  let extra := addTransactionPublicKeyToExtra [] (publicKey txkey) in
  match (if bool_decide (extraNonce = []) then Some extra
         else addExtraNonceToTransactionExtra extra extraNonce) with
  | None => mret None
  | Some extra =>
      r ← getBlockReward c medianSize currentBlockSize alreadyGeneratedCoins fee height;
      match r with
      | None => mret None
      | Some (blockReward, _) =>
          let outAmounts := piece_amount <$>
            decompose_amount_into_digits blockReward (m_defaultDustThreshold c) in
          if negb (1 <=? maxOuts) then mret None
          else
            outAmounts ← merge_outs (S (length outAmounts)) maxOuts outAmounts;
            match miner_outputs minerAddress txkey outAmounts 0 with
            | None => mret None
            | Some outs =>
                if negb (sum64 outAmounts =? blockReward) then mret None
                else mret (Some {|
                  tx_prefix := {| version := TRANSACTION_VERSION_1;
                    unlockTime := u64 (height + m_minedMoneyUnlockWindow c);
                    inputs := [InBase {| bi_blockIndex := height |}];
                    outputs := outs; extra := extra |};
                  signatures := signatures tx |})
            end
      end
  end.
End Crypto.

(** ** Output offsets: proofs *)

Lemma accumulate_differences l : ∀ x,
  Forall is_u32 (x :: l) → accumulate x (differences x l) = l.
Proof.
  induction l as [|y l IH]; intros x Hl; [done|].
  apply Forall_cons_iff in Hl as [Hx Hl]. pose proof Hl as Hl'.
  apply Forall_cons_iff in Hl' as [Hy _]. cbn [differences accumulate].
  assert (u32 (u32 (y - x) + x) = y) as ->; [|by rewrite IH].
  unfold u32. rewrite wrap_add_l. replace (y - x + x) with y by lia. by apply wrap_small.
Qed.

Lemma differences_accumulate l : ∀ x,
  Forall is_u32 (x :: l) → differences x (accumulate x l) = l.
Proof.
  induction l as [|y l IH]; intros x Hl; [done|].
  apply Forall_cons_iff in Hl as [Hx Hl]. pose proof Hl as Hl'.
  apply Forall_cons_iff in Hl' as [Hy Ht]. cbn [differences accumulate].
  f_equal; [|apply IH; constructor; [apply u32_range|done]].
  unfold u32. rewrite <- Z.add_opp_r, wrap_add_l. replace (y + x + - x) with y by lia.
  by apply wrap_small.
Qed.

Lemma accumulate_sorted l : ∀ x,
  Forall is_u32 (x :: l) → x + sumZ l < 2 ^ 32 →
  StronglySorted Z.le (x :: accumulate x l) ∧ Forall is_u32 (x :: accumulate x l).
Proof.
  induction l as [|y l IH]; intros x Hl Hs.
  { split; [repeat constructor|done]. }
  apply Forall_cons_iff in Hl as [Hx Hl]. apply Forall_cons_iff in Hl as [Hy Hl].
  rewrite sumZ_cons in Hs. unfold in_range in Hx, Hy.
  assert (0 <= sumZ l).
  { apply sumZ_nonneg. eapply Forall_impl; [exact Hl|]. unfold in_range. intros ? ?. lia. }
  cbn [accumulate]. rewrite u32_small by (unfold in_range; lia).
  destruct (IH (y + x)) as [IH1 IH2]; [constructor; [unfold in_range; lia|done]|lia|].
  split; constructor; try done.
  apply StronglySorted_inv in IH1 as [_ Hf]. constructor; [lia|].
  eapply Forall_impl; [exact Hf|]. intros ? ?. lia.
Qed.

(** Sorting a sorted list changes nothing. *)
Lemma sort_Z_sorted l : StronglySorted Z.le l → sort_Z l = l.
Proof.
  intros Hl. destruct (sort_Z_spec l) as [Hs Hp].
  by apply (StronglySorted_unique Z.le).
Qed.

(** ** Overflow checks: proofs *)

Lemma outs_overflow_spec outs : ∀ money,
  is_u64 money → Forall (λ o, is_u64 (out_amount o)) outs →
  outs_overflow_loop outs money = true ↔ money + sumZ (out_amount <$> outs) < 2 ^ 64.
Proof.
  induction outs as [|o outs IH]; intros money Hm Ho.
  { cbn. unfold in_range in Hm. split; [lia|done]. }
  apply Forall_cons_iff in Ho as [Ha Ho]. cbn [outs_overflow_loop]. rewrite fmap_cons, sumZ_cons.
  unfold in_range in Hm, Ha.
  assert (0 <= sumZ (out_amount <$> outs)).
  { apply sumZ_nonneg, Forall_fmap. eapply Forall_impl; [exact Ho|]. unfold in_range. intros ? ?. cbn. lia. }
  destruct (Z_lt_le_dec (out_amount o + money) (2 ^ 64)) as [Hlt|Hge].
  - rewrite (Z.add_comm money (out_amount o)), !u64_small by (unfold in_range; lia).
    rewrite (proj2 (Z.ltb_ge _ _)) by lia. rewrite IH by (done || unfold in_range; lia). lia.
  - assert (u64 (out_amount o + money) = out_amount o + money - 2 ^ 64) as ->.
    { unfold u64, wrap. symmetry. apply (Z.mod_unique_pos _ _ 1); lia. }
    rewrite (proj2 (Z.ltb_lt _ _)) by lia. split; [done|lia].
Qed.

(** ** Input amounts: proofs *)

(** The interest [check_inputs_overflow] reckons with: four percent. *)
Definition max_amount (i : TransactionInput) : Z :=
  match i with
  | InBase _ => 0
  | InKey k => ki_amount k
  | InMultisignature m =>
      if mi_term m =? 0 then mi_amount m else mi_amount m + mi_amount m * 4 / 100
  end.

Definition input_u64 (i : TransactionInput) : Prop :=
  match i with
  | InBase _ => True
  | InKey k => is_u64 (ki_amount k)
  | InMultisignature m => is_u64 (mi_amount m)
  end.

Lemma input_max_amount_ret i :
  input_u64 i → 0 <= max_amount i ∧
  input_max_amount i = Ret (if max_amount i <? 2 ^ 64 then Some (max_amount i) else None).
Proof.
  destruct i as [b|k|m]; cbn [input_u64 max_amount input_max_amount]; [done| |].
  { intros [H0 H1]. split; [done|]. by rewrite (proj2 (Z.ltb_lt _ _)) by lia. }
  intros Hm. unfold in_range in Hm. destruct (Z.eqb_spec (mi_term m) 0) as [_|_]; cbn [negb].
  { split; [lia|]. by rewrite (proj2 (Z.ltb_lt _ _)) by lia. }
  unfold DEPOSIT_MAX_TOTAL_RATE. rewrite mul128_ret by (unfold in_range; lia).
  set (a := mi_amount m) in *. cbn [mbind outcome_bind].
  destruct (div128_32_ret ((a * 4) / 2 ^ 64) ((a * 4) mod 2 ^ 64) 100) as
    (r & qhi & qlo & -> & Hqh & Hql & Hr & E); [unfold in_range; zlia..|]. cbn [mbind outcome_bind].
  unfold in_range in *. pose proof (Z.div_mod (a * 4) (2 ^ 64) ltac:(lia)) as Hdm.
  assert (qhi * 2 ^ 64 + qlo = a * 4 / 100) as Hq by (apply (Z.div_unique_pos _ _ _ r); lia).
  assert (qhi = 0) as ->.
  { assert (a * 4 / 100 < 2 ^ 64); [apply Z.div_lt_upper_bound|]; lia. }
  change (0 <? 0) with false. cbn match. rewrite <- Hq. split; [lia|].
  unfold UINT64_MAX. rewrite (u64_small (_ - qlo)) by (unfold in_range; lia).
  destruct (Z.ltb_spec (2 ^ 64 - 1 - qlo) a), (Z.ltb_spec (a + (0 * 2 ^ 64 + qlo)) (2 ^ 64)); try lia; [done|].
  rewrite u64_small by (unfold in_range; lia). done.
Qed.

Lemma inputs_overflow_spec ins : ∀ money,
  is_u64 money → Forall input_u64 ins →
  inputs_overflow_loop ins money = Ret (money + sumZ (max_amount <$> ins) <? 2 ^ 64).
Proof.
  induction ins as [|i ins IH]; intros money Hm Hi; unfold in_range in Hm.
  { cbn [inputs_overflow_loop sumZ fmap list_fmap foldr]. by rewrite (proj2 (Z.ltb_lt _ _)) by lia. }
  apply Forall_cons_iff in Hi as [Ha Hi]. cbn [inputs_overflow_loop]. rewrite fmap_cons, sumZ_cons.
  destruct (input_max_amount_ret i Ha) as [H0 ->]. cbn [mbind outcome_bind].
  assert (0 <= sumZ (max_amount <$> ins)).
  { apply sumZ_nonneg, Forall_fmap. eapply Forall_impl; [exact Hi|].
    intros x Hx. cbn. by apply input_max_amount_ret. }
  destruct (Z.ltb_spec (max_amount i) (2 ^ 64)) as [Hlt|Hge].
  2: { by rewrite (proj2 (Z.ltb_ge _ _)) by lia. }
  destruct (Z_lt_le_dec (max_amount i + money) (2 ^ 64)).
  - rewrite (Z.add_comm money (max_amount i)), !u64_small by (unfold in_range; lia).
    rewrite (proj2 (Z.ltb_ge _ money)) by lia. rewrite IH by (done || unfold in_range; lia).
    f_equal. f_equal. lia.
  - assert (u64 (max_amount i + money) = max_amount i + money - 2 ^ 64) as ->.
    { unfold u64, wrap. symmetry. apply (Z.mod_unique_pos _ _ 1); lia. }
    rewrite (proj2 (Z.ltb_lt _ money)), (proj2 (Z.ltb_ge _ (2 ^ 64))) by lia. done.
Qed.

(** ** Miner transactions: proofs *)

Lemma merge_outs_step pre a b maxOuts fuel :
  maxOuts < Z.of_nat (length (pre ++ [a; b])) →
  merge_outs (S fuel) maxOuts (pre ++ [a; b]) = merge_outs fuel maxOuts (pre ++ [u64 (a + b)]).
Proof.
  intros Hm. cbn [merge_outs]. rewrite (proj2 (Z.ltb_lt _ _)) by done.
  rewrite length_app. cbn [length].
  replace (Z.of_nat (length pre + 2) - 2) with (Z.of_nat (length pre)) by lia.
  replace (Z.of_nat (length pre + 2) - 1) with (Z.of_nat (S (length pre))) by lia.
  rewrite (at_Some _ (Z.of_nat (length pre)) a) by (rewrite ?Nat2Z.id, ?list_lookup_middle; done || lia).
  rewrite (at_Some _ (Z.of_nat (S (length pre))) b).
  2: { lia. } 2: { rewrite Nat2Z.id, lookup_app_r by lia. by replace (S (length pre) - length pre)%nat with 1%nat by lia. }
  cbn [mbind outcome_bind]. rewrite set_at_ret by (rewrite length_app; cbn [length]; lia).
  cbn [mbind outcome_bind]. rewrite !Nat2Z.id. f_equal.
  rewrite insert_app_r_alt, Nat.sub_diag by lia. cbn.
  replace (pre ++ [u64 (a + b); b]) with ((pre ++ [u64 (a + b)]) ++ [b]) by (by rewrite <- app_assoc).
  rewrite take_app_length'; [done|]. rewrite length_app. cbn. lia.
Qed.

Lemma merge_outs_ret fuel : ∀ maxOuts l,
  1 <= maxOuts → Forall (λ x, 0 < x) l → sumZ l < 2 ^ 64 → (length l < fuel)%nat →
  ∃ l', merge_outs fuel maxOuts l = Ret l' ∧ sumZ l' = sumZ l ∧ Z.of_nat (length l') <= maxOuts ∧
    Forall (λ x, 0 < x) l'.
Proof.
  induction fuel as [|fuel IH]; intros maxOuts l Hm Hl Hs Hf; [lia|].
  destruct (Z_lt_le_dec maxOuts (Z.of_nat (length l))) as [Hlt|Hle].
  2: { exists l. cbn [merge_outs]. by rewrite (proj2 (Z.ltb_ge _ _)) by lia. }
  destruct l as [|b0 l0 _] using rev_ind; [simpl in Hlt; lia|].
  destruct l0 as [|a pre _] using rev_ind; [simpl in Hlt; lia|].
  rewrite <- app_assoc in *. cbn [app] in *. rewrite merge_outs_step by done.
  rewrite sumZ_app, !sumZ_cons, sumZ_nil in Hs.
  apply Forall_app in Hl as [Hpre Hab]. apply Forall_cons_iff in Hab as [Ha Hb].
  apply Forall_cons_iff in Hb as [Hb _].
  assert (0 <= sumZ pre) by (apply sumZ_nonneg; eapply Forall_impl; [exact Hpre|]; simpl; lia).
  rewrite u64_small by (unfold in_range; lia).
  destruct (IH maxOuts (pre ++ [a + b0])) as (l' & -> & Hsum & Hlen & Hpos).
  - done.
  - apply Forall_app. split; [done|]. constructor; [lia|constructor].
  - rewrite sumZ_app, sumZ_cons, sumZ_nil. lia.
  - rewrite length_app in *. cbn [length] in *. lia.
  - exists l'. split; [done|]. rewrite Hsum, !sumZ_app, !sumZ_cons, sumZ_nil. split; [lia|done].
Qed.

Lemma piece_pos t p : piece_ok t p → 0 < piece_amount p.
Proof.
  destruct p; cbn; [intros (d & k & Hd & Hk & ->)|lia]. pose proof (pow10_pos k Hk). nia.
Qed.

Section MinerProofs.
Context `{CryptoLaws}.

(** An address of known secret keys. *)
Definition account_address (acc : AccountKeys) : Prop :=
  address acc = {| spendPublicKey := key_of (spendSecretKey acc);
                   viewPublicKey := key_of (viewSecretKey acc) |} ∧
  is_secret (spendSecretKey acc) ∧ is_secret (viewSecretKey acc).

Lemma exchange_defined s1 s2 : is_secret s1 → is_secret s2 → ∃ d, generate_key_derivation (key_of s1) s2 = Some d ∧ is_pod 32 d.
Proof.
  intros H1 H2. pose proof (key_public s1 H1) as Hk. pose proof (derivation_defined _ _ Hk H2) as Hd.
  destruct (generate_key_derivation _ _) as [d|] eqn:E; [|done]. exists d. split; [done|].
  by apply (derivation_pod (key_of s1) s2); [apply public_pod| |].
Qed.

Lemma out_key_defined acc txkey i :
  account_address acc → is_secret (secretKey txkey) → 0 <= i → ∃ k, out_key (address acc) txkey i = Some k.
Proof.
  intros (-> & Hs & Hv) Ht Hi. unfold out_key. cbn [viewPublicKey spendPublicKey].
  destruct (exchange_defined (viewSecretKey acc) (secretKey txkey) Hv Ht) as (d & -> & Hd).
  destruct (derive_match d i (spendSecretKey acc)) as [_ ->]; [done..|]. by eexists.
Qed.

Lemma miner_outputs_ret acc txkey amounts : ∀ no,
  account_address acc → is_secret (secretKey txkey) → 0 <= no →
  ∃ outs, miner_outputs (address acc) txkey amounts no = Some outs ∧ out_amount <$> outs = amounts.
Proof.
  induction amounts as [|a amounts IH]; intros no Ha Ht Hn; [by exists []|]. cbn [miner_outputs].
  destruct (out_key_defined acc txkey no Ha Ht Hn) as [k ->].
  destruct (IH (u64 (no + 1)) Ha Ht (proj1 (u64_range _))) as (outs & -> & E). eexists. split; [done|]. cbn. by rewrite E.
Qed.
End MinerProofs.

(** ** Constructed transactions: proofs *)

Section ConstructProofs.
Context `{CryptoLaws}.

Lemma fill_input_some keys src i kp :
  fill_input keys src = Ret (Some (i, kp)) →
  ki_amount i = src_amount src ∧
  ki_outputIndexes i = absolute_output_offsets_to_relative (fst <$> src_outputs src) ∧
  0 <= realOutput src < Z.of_nat (length (src_outputs src)) ∧
  (src_outputs src).*2 !! Z.to_nat (realOutput src) = Some (publicKey kp).
Proof using.
  unfold fill_input. case_bool; [done|]. intros E.
  apply outcome_bind_ret in E as ([kp' img] & _ & E).
  apply outcome_bind_ret in E as ([idx real_key] & Ek & E). apply at_ret in Ek as [Hpos Hk].
  destruct (bool_decide_reflect (publicKey kp' = real_key)) as [Hp|]; [|done].
  injection E as <- <-. split_and!; [done..|].
  rewrite list_lookup_fmap, Hk. cbn. by rewrite Hp.
Qed.

Lemma fill_inputs_some keys sources : ∀ ins,
  fill_inputs keys sources = Ret (Some ins) →
  Forall2 (λ src ik, fill_input keys src = Ret (Some ik)) sources ins.
Proof using.
  induction sources as [|src sources IH]; intros ins E.
  { injection E as <-. constructor. }
  cbn [fill_inputs] in E. apply outcome_bind_ret in E as ([i|] & Ei & E); [|done].
  apply outcome_bind_ret in E as ([l|] & El & E); [|done]. injection E as <-.
  constructor; [done|by apply IH].
Qed.

(** Output [k] of the list pays entry [k]. *)
Definition pays (txkey : KeyPair) (i : Z) (d : TransactionDestinationEntry) (o : TransactionOutput)
    : Prop :=
  0 < dst_amount d ∧ out_amount o = dst_amount d ∧
  ∃ k, out_key (dst_addr d) txkey i = Some k ∧ out_target o = OutKey {| ko_key := k |}.

Lemma fill_outputs_some txkey dsts : ∀ i outs,
  0 <= i → i + Z.of_nat (length dsts) < 2 ^ 64 → fill_outputs txkey dsts i = Some outs →
  length outs = length dsts ∧
  ∀ k d o, dsts !! k = Some d → outs !! k = Some o → pays txkey (i + Z.of_nat k) d o.
Proof using.
  induction dsts as [|d dsts IH]; intros i outs Hi Hl E; cbn [fill_outputs] in E.
  { injection E as <-. done. }
  destruct (Z.ltb_spec 0 (dst_amount d)) as [Hp|]; [|done]. cbn [negb] in E. cbn [length] in Hl.
  destruct (out_key (dst_addr d) txkey i) as [key|] eqn:Ek; [|done].
  rewrite u64_small in E by (unfold in_range; lia).
  destruct (fill_outputs txkey dsts (i + 1)) as [outs'|] eqn:Eo; [|done]. injection E as <-.
  destruct (IH (i + 1) outs' ltac:(lia) ltac:(lia) Eo) as [IHl IHp].
  split; [cbn; lia|]. intros [|k] d' o' Hd Ho; cbn in Hd, Ho.
  - injection Hd as <-. injection Ho as <-. rewrite Z.add_0_r. unfold pays. eauto 6.
  - replace (i + Z.of_nat (S k)) with (i + 1 + Z.of_nat k) by lia. by apply IHp.
Qed.

Lemma offsets_length l : length (absolute_output_offsets_to_relative l) = length l.
Proof using.
  destruct (sort_Z_spec l) as [_ Hp%Permutation_length]. rewrite <- Hp.
  unfold absolute_output_offsets_to_relative. destruct (sort_Z l) as [|x k]; [done|]. cbn. f_equal.
  clear Hp. revert x. induction k as [|y k IH]; intros x; [done|]. cbn. by rewrite IH.
Qed.

(** What a constructed transaction is made of. *)
Lemma constructTransaction_some keys sources dsts msgs ttl extra unlock txkey tx :
  constructTransaction keys sources dsts msgs ttl extra unlock txkey = Ret (Some tx) →
  ∃ ins h, Forall2 (λ src ik, fill_input keys src = Ret (Some ik)) sources ins ∧
    inputs tx = (InKey ∘ fst) <$> ins ∧
    fill_outputs txkey (shuffled_dsts dsts) 0 = Some (outputs tx) ∧
    sum64 (dst_amount <$> shuffled_dsts dsts) <= sum64 (src_amount <$> sources) ∧
    signatures tx = zip_with (λ src_entr '(i, in_ephemeral),
      generate_ring_signature h (ki_keyImage i) (snd <$> src_outputs src_entr)
        (secretKey in_ephemeral) (realOutput src_entr)) sources ins ∧
    getObjectHash cn_fast_hash serialize_TransactionPrefix (tx_prefix tx) = Ret h.
Proof using.
  unfold constructTransaction. intros E. apply outcome_bind_ret in E as ([ins|] & Ei & E); [|done].
  destruct (fill_outputs _ _ _) as [outs|] eqn:Eo; [|done].
  destruct (Z.ltb_spec (sum64 (src_amount <$> sources)) (sum64 (dst_amount <$> shuffled_dsts dsts)))
    as [|Hle]; [done|].
  apply outcome_bind_ret in E as ([ex|] & _ & E); [|done].
  apply outcome_bind_ret in E as (h & Eh & E). injection E as <-.
  exists ins, h. cbn. split_and!; [by apply fill_inputs_some|done..].
Qed.
End ConstructProofs.

(** ** Properties *)

(** making output offsets relative and absolute again sorts them; making
    the offsets of a ring absolute and relative again changes nothing as long as
    they stay within 32 bits. *)
Theorem offsets_roundtrip off :
  Forall is_u32 off →
  relative_output_offsets_to_absolute (absolute_output_offsets_to_relative off) = sort_Z off ∧
  (sumZ off < 2 ^ 32 →
   absolute_output_offsets_to_relative (relative_output_offsets_to_absolute off) = off).
Proof.
  intros Hoff. split.
  - destruct (sort_Z_spec off) as [_ Hp]. assert (Forall is_u32 (sort_Z off)) as Hs by (by rewrite Hp).
    unfold absolute_output_offsets_to_relative. destruct (sort_Z off) as [|x l]; [done|].
    cbn. by rewrite accumulate_differences.
  - intros Hsum. destruct off as [|x l]; [done|]. rewrite sumZ_cons in Hsum.
    destruct (accumulate_sorted l x Hoff Hsum) as [Hs _].
    unfold absolute_output_offsets_to_relative, relative_output_offsets_to_absolute.
    rewrite sort_Z_sorted by done. by rewrite differences_accumulate.
Qed.

Lemma offsets_roundtrip_witness :
  relative_output_offsets_to_absolute (absolute_output_offsets_to_relative [30; 7; 12]) =
    sort_Z [30; 7; 12] ∧
  (sumZ [30; 7; 12] < 2 ^ 32 →
   absolute_output_offsets_to_relative (relative_output_offsets_to_absolute [30; 7; 12]) = [30; 7; 12]).
Proof. apply offsets_roundtrip. repeat constructor; lia. Defined.

(** [check_money_overflow] never stops at an assertion and accepts a
    transaction exactly when neither the sum of its outputs nor the sum of its
    inputs, each with four percent of interest where it has a term, leaves 64
    bits. *)
Theorem money_overflow_exact tx :
  Forall input_u64 (inputs tx) → Forall (λ o, is_u64 (out_amount o)) (outputs tx) →
  check_money_overflow tx =
    Ret ((sumZ (max_amount <$> inputs tx) <? 2 ^ 64) &&
         (sumZ (out_amount <$> outputs tx) <? 2 ^ 64)).
Proof.
  intros Hi Ho. unfold check_money_overflow, check_inputs_overflow, check_outs_overflow.
  rewrite inputs_overflow_spec by (done || by vm_compute). cbn [mbind outcome_bind]. rewrite Z.add_0_l.
  pose proof (outs_overflow_spec (outputs tx) 0 ltac:(by vm_compute) Ho) as Hs. rewrite Z.add_0_l in Hs.
  unfold mret, outcome_ret. f_equal. destruct (sumZ (max_amount <$> inputs tx) <? 2 ^ 64); [|done].
  cbn [andb]. apply eq_true_iff_eq. by rewrite Hs, Z.ltb_lt.
Qed.

(** A deposit of [amount] withdrawn after twelve periods. *)
Definition sample_withdrawal (amount : Z) : TransactionPrefix := {|
  version := 2; unlockTime := 0;
  inputs := [InMultisignature {| mi_amount := amount; mi_signatureCount := 1;
                                 mi_outputIndex := 0; mi_term := 12 * 21900 |}];
  outputs := [{| out_amount := amount; out_target := OutKey {| ko_key := replicate 32 1 |} |}];
  extra := [] |}.

Lemma money_overflow_exact_witness :
  check_money_overflow (sample_withdrawal 1000000) = Ret true.
Proof.
  rewrite money_overflow_exact; [by vm_compute| |]; repeat constructor; by vm_compute.
Defined.

(** the overflow check reckons with less interest than
    [Currency::calculateInterest] pays: a withdrawal passes the check although
    its amount with interest wraps around 64 bits. *)
Theorem overflow_check_underestimates :
  let tx := {| tx_prefix := sample_withdrawal 17500000000000000000; signatures := [] |} in
  check_money_overflow tx = Ret true ∧
  calculateInterestMaths mainnet 17500000000000000000 (12 * 21900) 1000 =
    Ret 1049999931982479360 ∧
  getTransactionAllInputsAmount mainnet tx 1000 = Ret 103255858272927744.
Proof. vm_compute. split_and!; reflexivity. Qed.

Lemma inputs_of_fill `{CryptoOps} keys sources ins :
  Forall2 (λ src ik, fill_input keys src = Ret (Some ik)) sources ins →
  getInputsAmounts ((InKey ∘ fst) <$> ins) = src_amount <$> sources.
Proof.
  induction 1 as [|src [i kp] sources ins Hf _ IH]; [done|].
  apply fill_input_some in Hf as (Ha & _). cbn. by rewrite Ha, <- IH.
Qed.

Lemma signatures_of_fill `{CryptoLaws} keys sources ins h :
  Forall2 (λ src ik, fill_input keys src = Ret (Some ik)) sources ins →
  Forall2 (λ i sig, getSignaturesCount i = Z.of_nat (length sig)) ((InKey ∘ fst) <$> ins)
    (zip_with (λ src_entr '(i, in_ephemeral),
      generate_ring_signature h (ki_keyImage i) (snd <$> src_outputs src_entr)
        (secretKey in_ephemeral) (realOutput src_entr)) sources ins).
Proof.
  induction 1 as [|src [i kp] sources ins Hf _ IH]; [constructor|].
  apply fill_input_some in Hf as (_ & Hi & _). constructor; [|done].
  cbn. by rewrite ring_length, Hi, offsets_length, !length_fmap.
Qed.

(** An input and its signatures spend a source: the input has the amount, the ring and
    the key image of the source, whose real output has the one-time key that the
    sender's keys give, and the signatures are made for the ring with that key. *)
Definition spends `{CryptoOps} (keys : AccountKeys) (h : Hash) (src : TransactionSourceEntry) (i : TransactionInput)
    (sig : list Signature) : Prop :=
  ∃ in_ephemeral img,
    generate_key_image_helper keys (realTransactionPublicKey src) (realOutputIndexInTransaction src) =
      Ret (in_ephemeral, img) ∧
    (src_outputs src).*2 !! Z.to_nat (realOutput src) = Some (publicKey in_ephemeral) ∧
    i = InKey {| ki_amount := src_amount src;
                 ki_outputIndexes := absolute_output_offsets_to_relative (src_outputs src).*1; ki_keyImage := img |} ∧
    sig = generate_ring_signature h img (src_outputs src).*2 (secretKey in_ephemeral) (realOutput src).

Lemma fill_input_spends `{CryptoOps} keys src i kp h :
  fill_input keys src = Ret (Some (i, kp)) →
  spends keys h src (InKey i)
    (generate_ring_signature h (ki_keyImage i) (src_outputs src).*2 (secretKey kp) (realOutput src)).
Proof.
  intros E. pose proof (fill_input_some _ _ _ _ E) as (_ & _ & _ & Hreal). unfold fill_input in E. case_bool_in E; [done|].
  apply outcome_bind_ret in E as ([kp' img] & Ek & E). apply outcome_bind_ret in E as ([idx key] & _ & E).
  case_bool_in E; [done|]. injection E as <- <-. exists kp', img. by split_and!.
Qed.

Lemma fill_inputs_spend `{CryptoOps} keys sources ins h :
  Forall2 (λ src ik, fill_input keys src = Ret (Some ik)) sources ins →
  Forall3 (spends keys h) sources ((InKey ∘ fst) <$> ins)
    (zip_with (λ src_entr '(i, in_ephemeral),
      generate_ring_signature h (ki_keyImage i) (snd <$> src_outputs src_entr)
        (secretKey in_ephemeral) (realOutput src_entr)) sources ins).
Proof. induction 1 as [|src [i kp] sources ins Hf _ IH]; constructor; [by apply fill_input_spends|done]. Qed.

Lemma dsts_perm dsts : shuffled_dsts dsts ≡ₚ dsts.
Proof. apply merge_sort_Permutation. Qed.

(** C33: a constructed transaction spends exactly its sources and pays exactly its
    destinations: each input has the amount, the ring and the key image of its source,
    in order, and the ring signature with the one-time key of the source's real output
    over the hash of the prefix; the outputs are the destinations in some order, each
    with its positive amount and the one-time key of its address at that index; in
    total they are not above the inputs; and every input is of a supported type and has
    as many signatures as ring members, which is what the serializer demands. The sums
    of the amounts of the sources and of the destinations and the number of the
    destinations must fit 64 bits. *)
Theorem constructTransaction_sound `{CryptoLaws} keys sources dsts msgs ttl extra unlock txkey tx :
  constructTransaction keys sources dsts msgs ttl extra unlock txkey = Ret (Some tx) →
  is_u64 (sumZ (src_amount <$> sources)) → is_u64 (sumZ (dst_amount <$> dsts)) →
  Z.of_nat (length dsts) < 2 ^ 64 →
  (∃ h, getObjectHash cn_fast_hash serialize_TransactionPrefix (tx_prefix tx) = Ret h ∧
     Forall3 (spends keys h) sources (inputs tx) (signatures tx)) ∧
  (∃ ordered, ordered ≡ₚ dsts ∧ length (outputs tx) = length ordered ∧
     ∀ k d o, ordered !! k = Some d → outputs tx !! k = Some o → pays txkey (Z.of_nat k) d o) ∧
  getInputsAmounts (inputs tx) = src_amount <$> sources ∧
  out_amount <$> outputs tx ≡ₚ dst_amount <$> dsts ∧
  sumZ (out_amount <$> outputs tx) <= sumZ (src_amount <$> sources) ∧
  check_inputs_types_supported tx = true ∧
  Forall2 (λ i sig, getSignaturesCount i = Z.of_nat (length sig)) (inputs tx) (signatures tx).
Proof.
  intros E Hs Hd Hlen.
  destruct (constructTransaction_some _ _ _ _ _ _ _ _ _ E) as (ins & h & Hf & Hin & Ho & Hle & Hsig & Hh).
  pose proof (dsts_perm dsts) as Hp.
  assert (sumZ (dst_amount <$> shuffled_dsts dsts) = sumZ (dst_amount <$> dsts)) as Hsum
    by (by rewrite Hp).
  rewrite !sum64_exact in Hle by (done || by rewrite Hsum). rewrite Hsum in Hle.
  destruct (fill_outputs_some txkey (shuffled_dsts dsts) 0 (outputs tx) ltac:(lia)
    ltac:(rewrite Hp; lia) Ho) as [Hl Hpay].
  assert (Forall2 (λ o d, out_amount o = dst_amount d ∧ 0 < out_amount o)
    (outputs tx) (shuffled_dsts dsts)) as Hall.
  { apply Forall2_same_length_lookup. split; [done|]. intros k o d Hk Hk'.
    destruct (Hpay k d o Hk' Hk) as (Hpos & Heq & _). lia. }
  assert (out_amount <$> outputs tx = dst_amount <$> shuffled_dsts dsts) as Hamounts.
  { clear -Hall. induction Hall as [|o d outs ds [Ho _] _ IH]; [done|]. cbn. by rewrite Ho, IH. }
  rewrite Hin, Hsig. split_and!.
  - exists h. split; [done|]. by apply fill_inputs_spend.
  - exists (shuffled_dsts dsts). split_and!; [done..|]. intros k d o Hk Hk'. by apply (Hpay k d o).
  - by apply inputs_of_fill in Hf.
  - by rewrite Hamounts, Hp.
  - rewrite Hamounts, Hsum. lia.
  - unfold check_inputs_types_supported. rewrite Hin. clear. by induction ins.
  - exact (signatures_of_fill _ _ _ h Hf).
Qed.

(** An account and a transaction of the toy curve. *)
Definition toy_account (spend view : Z) : AccountKeys := {|
  address := {| spendPublicKey := toy spend; viewPublicKey := toy view |};
  spendSecretKey := toy spend; viewSecretKey := toy view |}.

Definition toy_source : TransactionSourceEntry := {|
  src_outputs := [(40, toy 9000); (17, toy (5 + 77 * 3)); (99, toy 123)];
  realOutput := 1; realTransactionPublicKey := toy 11; realOutputIndexInTransaction := 2;
  src_amount := 5000 |}.

Definition toy_destinations : list TransactionDestinationEntry :=
  [{| dst_amount := 3000; dst_addr := address (toy_account 21 22) |};
   {| dst_amount := 1900; dst_addr := address (toy_account 5 7) |}].

Definition toy_transaction : option Transaction :=
  match constructTransaction (H := toy_crypto) (toy_account 5 7) [toy_source] toy_destinations
          [] 0 [] 0 {| publicKey := toy 31; secretKey := toy 31 |} with
  | Ret r => r
  | _ => None
  end.

Lemma constructTransaction_sound_witness :
  match toy_transaction with
  | Some tx =>
      (∃ h, getObjectHash (@cn_fast_hash toy_crypto) serialize_TransactionPrefix (tx_prefix tx) = Ret h ∧
         Forall3 (spends (H := toy_crypto) (toy_account 5 7) h) [toy_source] (inputs tx) (signatures tx)) ∧
      (∃ ordered, ordered ≡ₚ toy_destinations ∧ length (outputs tx) = length ordered ∧
         ∀ k d o, ordered !! k = Some d → outputs tx !! k = Some o →
           pays (H := toy_crypto) {| publicKey := toy 31; secretKey := toy 31 |} (Z.of_nat k) d o)
  | None => False
  end.
Proof.
  destruct toy_transaction as [tx|] eqn:E; [|by vm_compute in E].
  destruct (constructTransaction_sound (H := toy_crypto) (H0 := toy_laws) (toy_account 5 7)
    [toy_source] toy_destinations [] 0 [] 0 {| publicKey := toy 31; secretKey := toy 31 |} tx)
    as (H1 & H2 & _).
  - rewrite <- E. by vm_compute.
  - by vm_compute.
  - by vm_compute.
  - by vm_compute.
  - split; [exact H1|exact H2].
Defined.

(** The receiver derives the key the sender derived. *)
Lemma out_key_received `{CryptoLaws} uninit acc s i k :
  account_address acc → is_secret s →
  out_key (address acc) {| publicKey := key_of s; secretKey := s |} i = Some k →
  is_out_to_acc uninit acc {| ko_key := k |} (key_of s) i = true.
Proof.
  intros (Ha & _ & Hv) Hs Hk. unfold is_out_to_acc, is_out_to_acc_derived, acc_derivation. unfold out_key in Hk.
  rewrite Ha in Hk |- *.
  cbn [viewPublicKey spendPublicKey secretKey ko_key] in *.
  rewrite (derivation_sym (viewSecretKey acc) s Hv Hs) in Hk.
  destruct (generate_key_derivation (key_of s) _) as [d|]; [|done]. cbn [from_option id].
  rewrite Hk. cbn [from_option id]. by apply bool_decide_eq_true.
Qed.

(** the receiver of a transfer recognises it: every output that pays a
    destination at the address of an account is found to belong to the account,
    with the account's view key and the public key of the transaction. *)
Theorem outputs_recognised `{CryptoLaws} uninit keys sources dsts msgs ttl extra unlock s tx acc i d o :
  constructTransaction keys sources dsts msgs ttl extra unlock
    {| publicKey := key_of s; secretKey := s |} = Ret (Some tx) →
  Z.of_nat (length dsts) < 2 ^ 64 → account_address acc → is_secret s →
  shuffled_dsts dsts !! i = Some d → outputs tx !! i = Some o → dst_addr d = address acc →
  ∃ k, out_target o = OutKey k ∧ out_amount o = dst_amount d ∧
    is_out_to_acc uninit acc k (key_of s) (Z.of_nat i) = true.
Proof.
  intros E Hlen Hacc Hs Hd Ho Haddr.
  destruct (constructTransaction_some _ _ _ _ _ _ _ _ _ E) as (_ & _ & _ & _ & Hf & _).
  destruct (fill_outputs_some _ (shuffled_dsts dsts) 0 (outputs tx) ltac:(lia)
    ltac:(rewrite dsts_perm; lia) Hf) as [_ Hpay].
  destruct (Hpay i d o Hd Ho) as (_ & Ha & k & Hk & Ht). rewrite Haddr, Z.add_0_l in Hk.
  exists {| ko_key := k |}. split; [done|]. split; [done|]. by apply out_key_received.
Qed.

Lemma outputs_recognised_witness :
  match toy_transaction with
  | Some tx => ∀ o, outputs tx !! 1%nat = Some o →
      ∃ k, out_target o = OutKey k ∧ out_amount o = 3000 ∧
        is_out_to_acc (H := toy_crypto) [] (toy_account 21 22) k (toy 31) 1 = true
  | None => False
  end.
Proof.
  destruct toy_transaction as [tx|] eqn:E; [|by vm_compute in E]. intros o Ho.
  destruct (outputs_recognised (H := toy_crypto) (H0 := toy_laws) [] (toy_account 5 7)
    [toy_source] toy_destinations [] 0 [] 0 (toy 31) tx (toy_account 21 22) 1
    {| dst_amount := 3000; dst_addr := address (toy_account 21 22) |} o) as (k & H1 & H2 & H3).
  - rewrite <- E. by vm_compute.
  - by vm_compute.
  - done.
  - done.
  - reflexivity.
  - exact Ho.
  - reflexivity.
  - exists k. split_and!; [exact H1|exact H2|exact H3].
Defined.

(** for a block of admissible size and a valid miner address,
    [constructMinerTx] succeeds: the transaction is a coinbase for the height,
    its outputs, at most [maxOuts], pay exactly the block reward, and it unlocks
    after the mined money window. *)
Theorem miner_tx_pays_reward `{CryptoLaws} height median coins size fee acc tx
    (nonce : BinaryArray) maxOuts txkey :
  0 <= coins <= MONEY_SUPPLY → 0 <= height < 1335900 → 0 <= fee < 2 ^ 62 →
  0 <= median <= UINT32_MAX → 0 <= size <= UINT32_MAX →
  size <= 2 * Z.max median CRYPTONOTE_BLOCK_GRANTED_FULL_REWARD_ZONE →
  account_address acc → is_secret (secretKey txkey) → Z.of_nat (length nonce) <= TX_EXTRA_NONCE_MAX_COUNT → 1 <= maxOuts →
  ∃ tx' reward emission,
    constructMinerTx mainnet height median coins size fee (address acc) tx nonce maxOuts txkey =
      Ret (Some tx') ∧
    getBlockReward mainnet median size coins fee height = Ret (Some (reward, emission)) ∧
    is_coinbase tx' = true ∧ inputs tx' = [InBase {| bi_blockIndex := height |}] ∧
    sumZ (out_amount <$> outputs tx') = reward ∧ Z.of_nat (length (outputs tx')) <= maxOuts ∧
    unlockTime tx' = height + 15.
Proof.
  intros Hc Hh Hf Hm Hs Hsize Hacc Hkey Hn Hmax.
  assert (Z.max median (m_blockGrantedFullRewardZone mainnet) <= UINT32_MAX) as Hmm.
  { cbn. unfold UINT32_MAX in *. lia. }
  pose proof (getBlockReward_ret mainnet median size coins fee height ltac:(done) Hc Hh Hf
    ltac:(lia) Hs Hmm) as Hr.
  rewrite (proj2 (Z.ltb_ge _ _)) in Hr by exact Hsize.
  destruct Hr as (reward & emission & Er & Hreward & _ & Hb & _).
  unfold MAX_BLOCK_REWARD, COIN in Hb.
  assert (is_u64 reward) as Hr64 by (unfold in_range; lia).
  pose proof (decompose_ok reward (m_defaultDustThreshold mainnet) Hr64 ltac:(done)) as [Hsum Hok].
  set (amounts := piece_amount <$> decompose_amount_into_digits reward (m_defaultDustThreshold mainnet)) in *.
  destruct (merge_outs_ret (S (length amounts)) maxOuts amounts) as (l & El & Hl & Hlen & Hpos);
    [done| |unfold in_range in Hr64; lia|lia|].
  { apply Forall_fmap. eapply Forall_impl; [exact Hok|]. intros p Hp. by eapply piece_pos. }
  destruct (miner_outputs_ret acc txkey l 0 Hacc Hkey ltac:(lia)) as (outs & Eo & Ho).
  set (extra0 := addTransactionPublicKeyToExtra [] (publicKey txkey)).
  assert (∃ ex, (if bool_decide (nonce = []) then Some extra0
    else addExtraNonceToTransactionExtra extra0 nonce) = Some ex) as [ex Eex].
  { case_bool_decide; [by eexists|]. unfold addExtraNonceToTransactionExtra.
    rewrite (proj2 (Z.ltb_ge _ _)) by done. by eexists. }
  eexists _, reward, emission. split.
  { unfold constructMinerTx. cbv zeta. fold extra0. rewrite Eex, Er. cbn [mbind outcome_bind]. fold amounts.
    rewrite (proj2 (Z.leb_le 1 maxOuts)) by done. cbn [negb]. rewrite El. cbn [mbind outcome_bind].
    rewrite Eo, sum64_exact by (by rewrite Hl, Hsum). rewrite Hl, Hsum, Z.eqb_refl. cbn [negb]. done. }
  split; [done|]. cbn [tx_prefix outputs inputs unlockTime]. rewrite Ho, Hl, Hsum.
  split_and!; [done..| |].
  - rewrite <- (length_fmap out_amount), Ho. done.
  - change (m_minedMoneyUnlockWindow mainnet) with 15. apply u64_small. unfold in_range. lia.
Qed.

Lemma miner_tx_pays_reward_witness :
  ∃ tx' reward emission,
    constructMinerTx (H := toy_crypto) mainnet 500 0 70000000 1000 300 (address (toy_account 5 7))
      empty_transaction [1; 2] 3 {| publicKey := toy 31; secretKey := toy 31 |} = Ret (Some tx') ∧
    getBlockReward mainnet 0 1000 70000000 300 500 = Ret (Some (reward, emission)) ∧
    is_coinbase tx' = true ∧ inputs tx' = [InBase {| bi_blockIndex := 500 |}] ∧
    sumZ (out_amount <$> outputs tx') = reward ∧ Z.of_nat (length (outputs tx')) <= 3 ∧
    unlockTime tx' = 500 + 15.
Proof.
  apply (miner_tx_pays_reward (H := toy_crypto) (H0 := toy_laws) 500 0 70000000 1000 300
    (toy_account 5 7) empty_transaction [1; 2] 3);
    unfold MONEY_SUPPLY, UINT32_MAX, CRYPTONOTE_BLOCK_GRANTED_FULL_REWARD_ZONE; try lia; done.
Defined.
