(* ===== verification/TransactionObjects.v ===== *)
(** * Transaction objects

    The interface to transactions that wallets use: [TransactionApiExtra.h], the
    fields of the extra bytes; [TransactionUtils.cpp]; the reader
    [TransactionPrefixImpl] ([TransactionPrefixImpl.cpp]); and the reader and writer
    [TransactionImpl] ([Transaction.cpp]). The interface [ITransactionReader] is a
    class with both readers as instances. *)

From S2P Require Import Prelude Varint Streams IntUtil StringTools Config Amounts CryptoNoteTypes.
From S2P Require Import Serialization CryptoNoteSerialization Crypto Currency TransactionExtra FormatUtils.

Local Open Scope Z_scope.

(** ** [TransactionUtils.cpp] *)

Inductive InputType := InputType_Invalid | InputType_Key | InputType_Multisignature | InputType_Generating.
Inductive OutputType := OutputType_Invalid | OutputType_Key | OutputType_Multisignature.

#[export] Instance InputType_eq_dec : EqDecision InputType.
Proof. solve_decision. Defined.
#[export] Instance OutputType_eq_dec : EqDecision OutputType.
Proof. solve_decision. Defined.

Fixpoint keyimages_diff (ins : list TransactionInput) (ki : gset KeyImage) : bool :=
  match ins with
  | [] => true
  | InKey k :: ins' =>
      if bool_decide (ki_keyImage k ∈ ki) then false else keyimages_diff ins' ({[ki_keyImage k]} ∪ ki)
  | _ :: ins' => keyimages_diff ins' ki
  end.
Definition checkInputsKeyimagesDiff (tx : TransactionPrefix) : bool := keyimages_diff (inputs tx) ∅.

Definition getRequiredSignaturesCount (i : TransactionInput) : Z :=
  match i with
  | InKey k => Z.of_nat (length (ki_outputIndexes k))
  | InMultisignature m => mi_signatureCount m
  | InBase _ => 0
  end.

(** [getTransactionInputAmount] of this file: without interest. *)
Definition input_amount (i : TransactionInput) : Z :=
  match i with InKey k => ki_amount k | InMultisignature m => mi_amount m | InBase _ => 0 end.

Definition getTransactionInputType (i : TransactionInput) : InputType :=
  match i with
  | InKey _ => InputType_Key
  | InMultisignature _ => InputType_Multisignature
  | InBase _ => InputType_Generating
  end.

Definition getInputChecked (transaction : TransactionPrefix) (index : Z) : outcome TransactionInput :=
  if Z.of_nat (length (inputs transaction)) <=? index then Throw "Transaction input index out of range"
  else at_ (inputs transaction) index.

Definition getInputChecked_type (transaction : TransactionPrefix) (index : Z) (type : InputType)
    : outcome TransactionInput :=
  input ← getInputChecked transaction index;
  if negb (bool_decide (getTransactionInputType input = type)) then Throw "Unexpected transaction input type"
  else mret input.

Definition getTransactionOutputType (out : TransactionOutputTarget) : OutputType :=
  match out with OutKey _ => OutputType_Key | OutMultisignature _ => OutputType_Multisignature end.

Definition getOutputChecked (transaction : TransactionPrefix) (index : Z) : outcome TransactionOutput :=
  if Z.of_nat (length (outputs transaction)) <=? index then Throw "Transaction output index out of range"
  else at_ (outputs transaction) index.

Definition getOutputChecked_type (transaction : TransactionPrefix) (index : Z) (type : OutputType)
    : outcome TransactionOutput :=
  output ← getOutputChecked transaction index;
  if negb (bool_decide (getTransactionOutputType (out_target output) = type))
  then Throw "Unexpected transaction output target type"
  else mret output.

Section Crypto.
Context `{CryptoOps}.
(** The content of a variable that was not written. *)
Variable uninit : list Z.

Definition isOutToKey (spendPublicKey outKey : PublicKey) (derivation : KeyDerivation) (keyIndex : Z) : bool :=
  bool_decide (default uninit (derive_public_key derivation keyIndex spendPublicKey) = outKey).

(** The keys of a multisignature output: its index for each key of the account, and
    the number of keys counted. *)
Fixpoint find_keys (spendPublicKey : PublicKey) (keys : list PublicKey) (derivation : KeyDerivation)
    (keyIndex outputIndex : Z) : list Z * Z :=
  match keys with
  | [] => ([], keyIndex)
  | key :: keys' =>
      let '(out, n) := find_keys spendPublicKey keys' derivation (u64 (keyIndex + 1)) outputIndex in
      (if isOutToKey spendPublicKey key derivation outputIndex then outputIndex :: out else out, n)
  end.

(** The loop of [findOutputsToAccount]: the indices of the outputs and the sum of the
    key outputs. *)
Fixpoint find_outputs (keys : AccountKeys) (derivation : KeyDerivation) (outs : list TransactionOutput)
    (keyIndex outputIndex amount : Z) : list Z * Z :=
  match outs with
  | [] => ([], amount)
  | o :: outs' =>
      match out_target o with
      | OutKey k =>
          let mine := is_out_to_acc_derived uninit keys k derivation keyIndex in
          let '(out, amount) := find_outputs keys derivation outs' (u64 (keyIndex + 1)) (u32 (outputIndex + 1))
                                  (if mine then u64 (amount + out_amount o) else amount) in
          (if mine then outputIndex :: out else out, amount)
      | OutMultisignature target =>
          let '(own, keyIndex) := find_keys (spendPublicKey (address keys)) (mo_keys target) derivation keyIndex
                                    outputIndex in
          let '(out, amount) := find_outputs keys derivation outs' keyIndex (u32 (outputIndex + 1)) amount in
          (own ++ out, amount)
      end
  end.

Definition findOutputsToAccount (transaction : TransactionPrefix) (addr : AccountPublicAddress)
    (viewSecretKey : SecretKey) : outcome (list Z * Z) :=
  (* only the view secret key is used *)
  let keys := {| address := addr; spendSecretKey := uninit; viewSecretKey := viewSecretKey |} in
  txPubKey ← getTransactionPublicKeyFromExtra (extra transaction);
  let derivation := default uninit (generate_key_derivation txPubKey viewSecretKey) in
  mret (find_outputs keys derivation (outputs transaction) 0 0 0).

(** ** [TransactionApiExtra.h]

    The object holds the fields; [parse] ignores whether the bytes were parsed to the
    end, [serialize] whether all fields were written. *)

Definition TransactionExtra := list TransactionExtraField.

Definition extra_parse (extra : list Z) : outcome TransactionExtra :=
  '(fields, _) ← parseTransactionExtra extra; mret fields.

Definition extra_getPublicKey (fields : TransactionExtra) : option PublicKey := find_field pick_key fields.
Definition extra_getNonce (fields : TransactionExtra) : option (list Z) := find_field pick_nonce fields.

(** [set]: the first field of the type is replaced, or the value is added. *)
Fixpoint extra_set {A} (pick : TransactionExtraField → option A) (value : TransactionExtraField)
    (fields : TransactionExtra) : TransactionExtra :=
  match fields with
  | [] => [value]
  | f :: fields' =>
      match pick f with Some _ => value :: fields' | None => f :: extra_set pick value fields' end
  end.

(** [writeTransactionExtra] into an empty array; a field that cannot be written ends
    the loop, and the bytes of the fields before it are kept. *)
Fixpoint serialize_fields (extra : list Z) (fields : TransactionExtra) : outcome (list Z) :=
  match fields with
  | [] => mret extra
  | f :: fields' =>
      r ← write_field extra f;
      match r with
      | None => mret extra
      | Some extra => serialize_fields extra fields'
      end
  end.
Definition extra_serialize (fields : TransactionExtra) : outcome (list Z) := serialize_fields [] fields.

(** ** The readers *)

Record TransactionImpl := {
  impl_transaction : Transaction;
  impl_secretKey : option SecretKey;
  impl_transactionHash : option Hash;
  impl_extra : TransactionExtra
}.

Record TransactionPrefixImpl := {
  m_txPrefix : TransactionPrefix;
  m_extra : TransactionExtra;
  m_txHash : Hash
}.

Class ITransactionReader (T : Type) := {
  getTransactionHash : T → outcome Hash;
  getTransactionPrefix : T → TransactionPrefix;
  getExtraFields : T → TransactionExtra;
  getTransactionSecretKey : T → option SecretKey;
  validateSignatures : T → outcome bool;
  getTransactionData : T → outcome (option BinaryArray)
}.

Definition object_hash (tx : Transaction) : outcome Hash := getObjectHash cn_fast_hash serialize_Transaction tx.
Definition prefix_hash (tx : TransactionPrefix) : outcome Hash := getObjectHash cn_fast_hash serialize_TransactionPrefix tx.

(** [TransactionImpl::getTransactionHash] keeps the hash it computes. *)
Definition impl_getTransactionHash (t : TransactionImpl) : outcome (Hash * TransactionImpl) :=
  match impl_transactionHash t with
  | Some h => mret (h, t)
  | None =>
      h ← object_hash (impl_transaction t);
      mret (h, {| impl_transaction := impl_transaction t; impl_secretKey := impl_secretKey t;
                  impl_transactionHash := Some h; impl_extra := impl_extra t |})
  end.

Fixpoint enough_signatures (ins : list TransactionInput) (sigs : list (list Signature)) : bool :=
  match ins, sigs with
  | [], _ => true
  | _ :: _, [] => false
  | i :: ins', s :: sigs' =>
      negb (Z.of_nat (length s) <? getRequiredSignaturesCount i) && enough_signatures ins' sigs'
  end.

(** [TransactionImpl::validateSignatures]. *)
Definition impl_validateSignatures (transaction : Transaction) : bool :=
  if (length (signatures transaction) <? length (inputs transaction))%nat then false
  else enough_signatures (inputs transaction) (signatures transaction).

#[export] Instance TransactionImpl_reader : ITransactionReader TransactionImpl := {|
  getTransactionHash t := '(h, _) ← impl_getTransactionHash t; mret h;
  getTransactionPrefix t := tx_prefix (impl_transaction t);
  getExtraFields := impl_extra;
  getTransactionSecretKey := impl_secretKey;
  validateSignatures t := mret (impl_validateSignatures (impl_transaction t));
  getTransactionData t := toBinaryArray serialize_Transaction (impl_transaction t) []
|}.

#[export] Instance TransactionPrefixImpl_reader : ITransactionReader TransactionPrefixImpl := {|
  getTransactionHash t := mret (m_txHash t);
  getTransactionPrefix := m_txPrefix;
  getExtraFields := m_extra;
  getTransactionSecretKey t := None;
  validateSignatures t := Throw "Validating signatures is not supported for transaction prefix";
  getTransactionData t := toBinaryArray serialize_TransactionPrefix (m_txPrefix t) []
|}.

(** [createTransactionPrefix] from a prefix and its hash, and from a transaction. *)
Definition createTransactionPrefix (prefix : TransactionPrefix) (transactionHash : Hash)
    : outcome TransactionPrefixImpl :=
  fields ← extra_parse (extra prefix);
  mret {| m_txPrefix := prefix; m_extra := fields; m_txHash := transactionHash |}.
Definition createTransactionPrefix_full (fullTransaction : Transaction) : outcome TransactionPrefixImpl :=
  h ← object_hash fullTransaction; createTransactionPrefix fullTransaction h.

(** The getters, which both classes have in the same words. *)
Section Reader.
Context {T} `{ITransactionReader T}.
Variable t : T.

Definition getTransactionPrefixHash : outcome Hash := prefix_hash (getTransactionPrefix t).
Definition getTransactionPublicKey : PublicKey := default (replicate 32 0) (extra_getPublicKey (getExtraFields t)).
Definition getUnlockTime : Z := unlockTime (getTransactionPrefix t).
Definition getExtraNonce : option (list Z) := extra_getNonce (getExtraFields t).
Definition getPaymentId : option Hash :=
  match getExtraNonce with
  | Some nonce => getPaymentIdFromTransactionExtraNonce nonce
  | None => None
  end.
Definition getExtra : list Z := extra (getTransactionPrefix t).
Definition getInputCount : Z := Z.of_nat (length (inputs (getTransactionPrefix t))).
Definition getInputTotalAmount : Z := sum64 (input_amount <$> inputs (getTransactionPrefix t)).
Definition getInputType (index : Z) : outcome InputType :=
  i ← getInputChecked (getTransactionPrefix t) index; mret (getTransactionInputType i).
Definition getKeyInput (index : Z) : outcome KeyInput :=
  i ← getInputChecked_type (getTransactionPrefix t) index InputType_Key;
  match i with InKey k => mret k | _ => Throw "boost::bad_get" end.
Definition getMultisignatureInput (index : Z) : outcome MultisignatureInput :=
  i ← getInputChecked_type (getTransactionPrefix t) index InputType_Multisignature;
  match i with InMultisignature m => mret m | _ => Throw "boost::bad_get" end.
Definition getOutputCount : Z := Z.of_nat (length (outputs (getTransactionPrefix t))).
Definition getOutputTotalAmount : Z := sum64 (out_amount <$> outputs (getTransactionPrefix t)).
Definition getOutputType (index : Z) : outcome OutputType :=
  o ← getOutputChecked (getTransactionPrefix t) index; mret (getTransactionOutputType (out_target o)).
Definition getKeyOutput (index : Z) : outcome (KeyOutput * Z) :=
  o ← getOutputChecked_type (getTransactionPrefix t) index OutputType_Key;
  match out_target o with OutKey k => mret (k, out_amount o) | _ => Throw "boost::bad_get" end.
Definition getMultisignatureOutput (index : Z) : outcome (MultisignatureOutput * Z) :=
  o ← getOutputChecked_type (getTransactionPrefix t) index OutputType_Multisignature;
  match out_target o with OutMultisignature m => mret (m, out_amount o) | _ => Throw "boost::bad_get" end.
Definition getRequiredSignaturesCount_at (index : Z) : outcome Z :=
  i ← getInputChecked (getTransactionPrefix t) index; mret (getRequiredSignaturesCount i).
Definition validateInputs : outcome bool :=
  if negb (check_inputs_types_supported (getTransactionPrefix t)) then mret false
  else
    ok ← check_inputs_overflow (getTransactionPrefix t);
    mret (ok && checkInputsKeyimagesDiff (getTransactionPrefix t) &&
          checkMultisignatureInputsDiff (getTransactionPrefix t)).
Definition validateOutputs : outcome bool :=
  error ← check_outs_valid (getTransactionPrefix t) false;
  mret (match error with Some _ => false | None => check_outs_overflow (getTransactionPrefix t) end).
End Reader.

(** ** The writer *)

Definition with_transaction (tx : Transaction) (t : TransactionImpl) : TransactionImpl :=
  {| impl_transaction := tx; impl_secretKey := impl_secretKey t; impl_transactionHash := impl_transactionHash t;
     impl_extra := impl_extra t |}.

Definition invalidateHash (t : TransactionImpl) : TransactionImpl :=
  {| impl_transaction := impl_transaction t; impl_secretKey := impl_secretKey t; impl_transactionHash := None;
     impl_extra := impl_extra t |}.

Definition with_signatures (sigs : list (list Signature)) (tx : Transaction) : Transaction :=
  {| tx_prefix := tx_prefix tx; signatures := sigs |}.

(** A transaction with other fields of the prefix. *)
Definition with_prefix (p : TransactionPrefix) (tx : Transaction) : Transaction :=
  {| tx_prefix := p; signatures := signatures tx |}.

(** The constructors: with fresh keys [txKeys], from bytes, from a transaction. *)
Definition createTransaction (txKeys : KeyPair) : outcome TransactionImpl :=
  let fields := extra_set pick_key (TransactionExtraPublicKey (publicKey txKeys)) [] in
  ba ← extra_serialize fields;
  mret {| impl_transaction :=
            {| tx_prefix := {| version := TRANSACTION_VERSION_1; unlockTime := 0; inputs := []; outputs := [];
                               extra := ba |};
               signatures := [] |};
          impl_secretKey := Some (secretKey txKeys); impl_transactionHash := None; impl_extra := fields |}.

Definition createTransaction_blob (ba : BinaryArray) : outcome TransactionImpl :=
  r ← fromBinaryArray serialize_Transaction empty_transaction ba;
  match r with
  | None => Throw "Invalid transaction data"
  | Some tx =>
      fields ← extra_parse (extra tx);
      mret {| impl_transaction := tx; impl_secretKey := None; impl_transactionHash := Some (cn_fast_hash ba);
              impl_extra := fields |}
  end.

Definition createTransaction_from (tx : Transaction) : outcome TransactionImpl :=
  fields ← extra_parse (extra tx);
  mret {| impl_transaction := tx; impl_secretKey := None; impl_transactionHash := None; impl_extra := fields |}.

Definition txSecretKey (t : TransactionImpl) : outcome SecretKey :=
  match impl_secretKey t with
  | None => Throw "Operation requires transaction secret key"
  | Some k => mret k
  end.

Definition checkIfSigning (t : TransactionImpl) : outcome () :=
  match signatures (impl_transaction t) with
  | [] => mret ()
  | _ => Throw "Cannot perform requested operation, since it will invalidate transaction signatures"
  end.

Definition setUnlockTime (time : Z) (t : TransactionImpl) : outcome TransactionImpl :=
  _ ← checkIfSigning t;
  let p := tx_prefix (impl_transaction t) in
  mret (invalidateHash (with_transaction (with_prefix
    {| version := version p; unlockTime := time; inputs := inputs p; outputs := outputs p; extra := extra p |}
    (impl_transaction t)) t)).

Definition setTransactionSecretKey (key : SecretKey) (t : TransactionImpl) : outcome TransactionImpl :=
  let pk := default uninit (secret_key_to_public_key key) in
  let txPubKey := default uninit (extra_getPublicKey (impl_extra t)) in
  if negb (bool_decide (txPubKey = pk)) then Throw "Secret transaction key does not match public key"
  else mret {| impl_transaction := impl_transaction t; impl_secretKey := Some key;
               impl_transactionHash := impl_transactionHash t; impl_extra := impl_extra t |}.

(** The functions that add an input or an output return its index. *)
Definition push_input (version : Z) (i : TransactionInput) (t : TransactionImpl) : Z * TransactionImpl :=
  let p := tx_prefix (impl_transaction t) in
  (Z.of_nat (length (inputs p)), invalidateHash (with_transaction (with_prefix
    {| version := version; unlockTime := unlockTime p; inputs := inputs p ++ [i]; outputs := outputs p;
       extra := extra p |} (impl_transaction t)) t)).

Definition push_output (version : Z) (o : TransactionOutput) (t : TransactionImpl) : Z * TransactionImpl :=
  let p := tx_prefix (impl_transaction t) in
  (Z.of_nat (length (outputs p)), invalidateHash (with_transaction (with_prefix
    {| version := version; unlockTime := unlockTime p; inputs := inputs p; outputs := outputs p ++ [o];
       extra := extra p |} (impl_transaction t)) t)).

Definition addKeyInput (input : KeyInput) (t : TransactionImpl) : outcome (Z * TransactionImpl) :=
  _ ← checkIfSigning t; mret (push_input (version (impl_transaction t)) (InKey input) t).

Definition addMultisignatureInput (input : MultisignatureInput) (t : TransactionImpl) : outcome (Z * TransactionImpl) :=
  _ ← checkIfSigning t; mret (push_input TRANSACTION_VERSION_2 (InMultisignature input) t).

Record GlobalOutput := { go_targetKey : PublicKey; go_outputIndex : Z }.
Record OutputKeyInfo := {
  oki_transactionPublicKey : PublicKey;
  oki_transactionIndex : Z;
  oki_outputInTransaction : Z
}.
Record InputKeyInfo := {
  iki_amount : Z;
  iki_outputs : list GlobalOutput;
  iki_realOutput : OutputKeyInfo
}.

(** [addInput] for an output of the sender: also the one-time keys. *)
Definition addInput (senderKeys : AccountKeys) (info : InputKeyInfo) (t : TransactionImpl)
    : outcome (Z * KeyPair * TransactionImpl) :=
  _ ← checkIfSigning t;
  '(ephKeys, keyImage) ← generate_key_image_helper senderKeys (oki_transactionPublicKey (iki_realOutput info))
                           (oki_outputInTransaction (iki_realOutput info));
  '(i, t) ← addKeyInput {| ki_amount := iki_amount info;
                           ki_outputIndexes := absolute_output_offsets_to_relative (go_outputIndex <$> iki_outputs info);
                           ki_keyImage := keyImage |} t;
  mret (i, ephKeys, t).

(** [ephemeralKey] is the content of the variable before the call. *)
Definition derivePublicKey (to : AccountPublicAddress) (txKey : SecretKey) (outputIndex : Z)
    (ephemeralKey : PublicKey) : PublicKey :=
  let derivation := default uninit (generate_key_derivation (viewPublicKey to) txKey) in
  default ephemeralKey (derive_public_key derivation outputIndex (spendPublicKey to)).

Definition addOutput (amount : Z) (to : AccountPublicAddress) (t : TransactionImpl) : outcome (Z * TransactionImpl) :=
  _ ← checkIfSigning t;
  txKey ← txSecretKey t;
  let key := derivePublicKey to txKey (Z.of_nat (length (outputs (impl_transaction t)))) uninit in
  mret (push_output (version (impl_transaction t)) {| out_amount := amount; out_target := OutKey {| ko_key := key |} |} t).

Definition addOutput_shared (amount : Z) (to : list AccountPublicAddress) (requiredSignatures term : Z)
    (t : TransactionImpl) : outcome (Z * TransactionImpl) :=
  _ ← checkIfSigning t;
  txKey ← txSecretKey t;
  let outputIndex := Z.of_nat (length (outputs (impl_transaction t))) in
  let outMsig := {| mo_keys := (λ a, derivePublicKey a txKey outputIndex (replicate 32 0)) <$> to;
                    mo_requiredSignatureCount := requiredSignatures; mo_term := term |} in
  mret (push_output TRANSACTION_VERSION_2 {| out_amount := amount; out_target := OutMultisignature outMsig |} t).

Definition addKeyOutput (amount : Z) (out : KeyOutput) (t : TransactionImpl) : outcome (Z * TransactionImpl) :=
  _ ← checkIfSigning t;
  mret (push_output (version (impl_transaction t)) {| out_amount := amount; out_target := OutKey out |} t).

Definition addMultisignatureOutput (amount : Z) (out : MultisignatureOutput) (t : TransactionImpl)
    : outcome (Z * TransactionImpl) :=
  _ ← checkIfSigning t;
  mret (push_output (version (impl_transaction t)) {| out_amount := amount; out_target := OutMultisignature out |} t).

(** [getSignatures] followed by an update of the signatures of an input. *)
Definition update_signatures (f : list Signature → list Signature) (input : Z) (t : TransactionImpl)
    : outcome TransactionImpl :=
  let tx := impl_transaction t in
  let sigs := if (length (signatures tx) <? length (inputs tx))%nat
              then signatures tx ++ replicate (length (inputs tx) - length (signatures tx)) []
              else signatures tx in
  if Z.of_nat (length sigs) <=? input then Throw "Invalid input index"
  else
    old ← at_ sigs input;
    mret (with_transaction (with_signatures (<[Z.to_nat input := f old]> sigs) tx) t).

Definition signInputKey (index : Z) (info : InputKeyInfo) (ephKeys : KeyPair) (t : TransactionImpl)
    : outcome TransactionImpl :=
  i ← getInputChecked_type (impl_transaction t) index InputType_Key;
  match i with
  | InKey input =>
      prefixHash ← prefix_hash (impl_transaction t);
      let sigs := generate_ring_signature prefixHash (ki_keyImage input) (go_targetKey <$> iki_outputs info)
                    (secretKey ephKeys) (oki_transactionIndex (iki_realOutput info)) in
      t ← update_signatures (λ _, sigs) index t;
      mret (invalidateHash t)
  | _ => Throw "boost::bad_get"
  end.

Definition signInputMultisignature_keys (index : Z) (ephemeralKeys : KeyPair) (t : TransactionImpl)
    : outcome TransactionImpl :=
  txPrefixHash ← prefix_hash (impl_transaction t);
  let signature := generate_signature txPrefixHash (publicKey ephemeralKeys) (secretKey ephemeralKeys) in
  t ← update_signatures (λ sigs, sigs ++ [signature]) index t;
  mret (invalidateHash t).

Definition signInputMultisignature (index : Z) (sourceTransactionKey : PublicKey) (outputIndex : Z)
    (accountKeys : AccountKeys) (t : TransactionImpl) : outcome TransactionImpl :=
  let derivation := default uninit (generate_key_derivation sourceTransactionKey (viewSecretKey accountKeys)) in
  let ephemeralPublicKey :=
    default uninit (derive_public_key derivation outputIndex (spendPublicKey (address accountKeys))) in
  let ephemeralSecretKey := derive_secret_key derivation outputIndex (spendSecretKey accountKeys) in
  txPrefixHash ← prefix_hash (impl_transaction t);
  let signature := generate_signature txPrefixHash ephemeralPublicKey ephemeralSecretKey in
  t ← update_signatures (λ sigs, sigs ++ [signature]) index t;
  mret (invalidateHash t).

Definition with_extra (ba : list Z) (t : TransactionImpl) : TransactionImpl :=
  let p := tx_prefix (impl_transaction t) in
  with_transaction (with_prefix
    {| version := version p; unlockTime := unlockTime p; inputs := inputs p; outputs := outputs p; extra := ba |}
    (impl_transaction t)) t.

Definition setExtraNonce (nonce : list Z) (t : TransactionImpl) : outcome TransactionImpl :=
  _ ← checkIfSigning t;
  let fields := extra_set pick_nonce (TransactionExtraNonce nonce) (impl_extra t) in
  ba ← extra_serialize fields;
  let t := with_extra ba t in
  mret {| impl_transaction := impl_transaction t; impl_secretKey := impl_secretKey t; impl_transactionHash := None;
          impl_extra := fields |}.

Definition setPaymentId (hash : Hash) (t : TransactionImpl) : outcome TransactionImpl :=
  _ ← checkIfSigning t; setExtraNonce (setPaymentIdToTransactionExtraNonce hash) t.

(** Neither the fields nor the stored hash are brought up to date. *)
Definition appendExtra (extraData : list Z) (t : TransactionImpl) : outcome TransactionImpl :=
  _ ← checkIfSigning t; mret (with_extra (extra (impl_transaction t) ++ extraData) t).

(** ** Sequences of calls *)

Inductive call :=
| call_hash
| call_setUnlockTime (time : Z)
| call_setTransactionSecretKey (key : SecretKey)
| call_setPaymentId (hash : Hash)
| call_setExtraNonce (nonce : list Z)
| call_appendExtra (extraData : list Z)
| call_addKeyInput (input : KeyInput)
| call_addMultisignatureInput (input : MultisignatureInput)
| call_addInput (senderKeys : AccountKeys) (info : InputKeyInfo)
| call_addOutput (amount : Z) (to : AccountPublicAddress)
| call_addOutput_shared (amount : Z) (to : list AccountPublicAddress) (requiredSignatures term : Z)
| call_addKeyOutput (amount : Z) (out : KeyOutput)
| call_addMultisignatureOutput (amount : Z) (out : MultisignatureOutput)
| call_signInputKey (index : Z) (info : InputKeyInfo) (ephKeys : KeyPair)
| call_signInputMultisignature (index : Z) (sourceTransactionKey : PublicKey) (outputIndex : Z) (accountKeys : AccountKeys)
| call_signInputMultisignature_keys (index : Z) (ephemeralKeys : KeyPair).

Definition run (c : call) (t : TransactionImpl) : outcome TransactionImpl :=
  match c with
  | call_hash => '(_, t) ← impl_getTransactionHash t; mret t
  | call_setUnlockTime time => setUnlockTime time t
  | call_setTransactionSecretKey key => setTransactionSecretKey key t
  | call_setPaymentId hash => setPaymentId hash t
  | call_setExtraNonce nonce => setExtraNonce nonce t
  | call_appendExtra extraData => appendExtra extraData t
  | call_addKeyInput input => '(_, t) ← addKeyInput input t; mret t
  | call_addMultisignatureInput input => '(_, t) ← addMultisignatureInput input t; mret t
  | call_addInput senderKeys info => '(_, _, t) ← addInput senderKeys info t; mret t
  | call_addOutput amount to => '(_, t) ← addOutput amount to t; mret t
  | call_addOutput_shared amount to requiredSignatures term =>
      '(_, t) ← addOutput_shared amount to requiredSignatures term t; mret t
  | call_addKeyOutput amount out => '(_, t) ← addKeyOutput amount out t; mret t
  | call_addMultisignatureOutput amount out => '(_, t) ← addMultisignatureOutput amount out t; mret t
  | call_signInputKey index info ephKeys => signInputKey index info ephKeys t
  | call_signInputMultisignature index key outputIndex accountKeys =>
      signInputMultisignature index key outputIndex accountKeys t
  | call_signInputMultisignature_keys index ephemeralKeys => signInputMultisignature_keys index ephemeralKeys t
  end.

Fixpoint run_all (cs : list call) (t : TransactionImpl) : outcome TransactionImpl :=
  match cs with
  | [] => mret t
  | c :: cs' => t ← run c t; run_all cs' t
  end.
End Crypto.

(** ** Calls and what they keep *)

Section Proofs.
Context `{CryptoOps} (uninit : list Z).

(** The input a call signs, and the nonce it sets. *)
Definition signs (c : call) : option Z :=
  match c with
  | call_signInputKey index _ _ | call_signInputMultisignature index _ _ _
  | call_signInputMultisignature_keys index _ => Some index
  | _ => None
  end.
Definition sets_nonce (c : call) : option (list Z) :=
  match c with
  | call_setPaymentId hash => Some (setPaymentIdToTransactionExtraNonce hash)
  | call_setExtraNonce nonce => Some nonce
  | _ => None
  end.

(** The effects that calls have. *)
Inductive effect (t : TransactionImpl) : call → TransactionImpl → Prop :=
| effect_none c : effect t c t
| effect_hash h : object_hash (impl_transaction t) = Ret h →
    effect t call_hash {| impl_transaction := impl_transaction t; impl_secretKey := impl_secretKey t;
                          impl_transactionHash := Some h; impl_extra := impl_extra t |}
| effect_key key : default uninit (extra_getPublicKey (impl_extra t)) = default uninit (secret_key_to_public_key key) →
    effect t (call_setTransactionSecretKey key)
      {| impl_transaction := impl_transaction t; impl_secretKey := Some key;
         impl_transactionHash := impl_transactionHash t; impl_extra := impl_extra t |}
| effect_prefix c p : signatures (impl_transaction t) = [] →
    inputs (impl_transaction t) `prefix_of` inputs p → outputs (impl_transaction t) `prefix_of` outputs p →
    extra p = extra (impl_transaction t) →
    effect t c (invalidateHash (with_transaction (with_prefix p (impl_transaction t)) t))
| effect_nonce c nonce ba : sets_nonce c = Some nonce → signatures (impl_transaction t) = [] →
    extra_serialize (extra_set pick_nonce (TransactionExtraNonce nonce) (impl_extra t)) = Ret ba →
    effect t c {| impl_transaction := impl_transaction (with_extra ba t); impl_secretKey := impl_secretKey t;
                  impl_transactionHash := None;
                  impl_extra := extra_set pick_nonce (TransactionExtraNonce nonce) (impl_extra t) |}
| effect_append d : signatures (impl_transaction t) = [] →
    effect t (call_appendExtra d) (with_extra (extra (impl_transaction t) ++ d) t)
| effect_sign c index f t1 : signs c = Some index → update_signatures f index t = Ret t1 →
    effect t c (invalidateHash t1).

Lemma unsigned t u : checkIfSigning t = Ret u → signatures (impl_transaction t) = [].
Proof. unfold checkIfSigning. by destruct (signatures (impl_transaction t)). Qed.

Lemma push_input_effect c v i t : signatures (impl_transaction t) = [] → effect t c (snd (push_input v i t)).
Proof. intros Hs. apply effect_prefix; cbn; [done|by eexists|done..]. Qed.

Lemma push_output_effect c v o t : signatures (impl_transaction t) = [] → effect t c (snd (push_output v o t)).
Proof. intros Hs. apply effect_prefix; cbn; [done|done|by eexists|done]. Qed.

Lemma setExtraNonce_effect c nonce t t' :
  sets_nonce c = Some nonce → setExtraNonce nonce t = Ret t' → effect t c t'.
Proof.
  unfold setExtraNonce. intros Hc E. apply outcome_bind_ret in E as (u & Hu%unsigned & E).
  apply outcome_bind_ret in E as (ba & Eb & E). injection E as <-. by eapply effect_nonce.
Qed.

Lemma addKeyInput_effect c i t r : addKeyInput i t = Ret r → effect t c (snd r).
Proof.
  unfold addKeyInput. intros E. apply outcome_bind_ret in E as (u & Hu%unsigned & E). injection E as <-.
  by apply push_input_effect.
Qed.

Ltac bind_in E := let x := fresh "x" in let Ex := fresh "Ex" in apply outcome_bind_ret in E as (x & Ex & E).

Lemma run_effect c t t' : run uninit c t = Ret t' → effect t c t'.
Proof.
  intros E. destruct c; cbn [run] in E.
  - bind_in E. destruct x as [h t1]. injection E as <-. unfold impl_getTransactionHash in Ex.
    destruct (impl_transactionHash t); [injection Ex as <- <-; constructor|]. bind_in Ex. injection Ex as <- <-.
    by constructor.
  - unfold setUnlockTime in E. bind_in E. injection E as <-. by eapply effect_prefix; [eapply unsigned|..].
  - unfold setTransactionSecretKey in E. cbv zeta in E. destruct (bool_decide _) eqn:Hb; [|done].
    injection E as <-. apply bool_decide_eq_true in Hb. by apply effect_key.
  - unfold setPaymentId in E. bind_in E. by eapply setExtraNonce_effect.
  - by eapply setExtraNonce_effect.
  - unfold appendExtra in E. bind_in E. injection E as <-. by eapply effect_append, unsigned.
  - bind_in E. destruct x as [i t1]. injection E as <-. by apply (addKeyInput_effect _ _ _ _ Ex).
  - unfold addMultisignatureInput in E. bind_in E. destruct x as [i t1]. injection E as <-. bind_in Ex.
    injection Ex as _ <-. by eapply (push_input_effect _ TRANSACTION_VERSION_2), unsigned.
  - bind_in E. destruct x as [[i k] t1]. injection E as <-. unfold addInput in Ex. do 2 bind_in Ex.
    destruct x0 as [eph image]. bind_in Ex. destruct x0 as [i' t2]. injection Ex as _ _ <-.
    by apply (addKeyInput_effect _ _ _ _ Ex2).
  - unfold addOutput in E. bind_in E. destruct x as [i t1]. injection E as <-. do 2 bind_in Ex.
    injection Ex as _ <-. by eapply (push_output_effect _ (version (impl_transaction t))), unsigned.
  - unfold addOutput_shared in E. bind_in E. destruct x as [i t1]. injection E as <-. do 2 bind_in Ex.
    injection Ex as _ <-. by eapply (push_output_effect _ TRANSACTION_VERSION_2), unsigned.
  - unfold addKeyOutput in E. bind_in E. destruct x as [i t1]. injection E as <-. bind_in Ex.
    injection Ex as _ <-. by eapply (push_output_effect _ (version (impl_transaction t))), unsigned.
  - unfold addMultisignatureOutput in E. bind_in E. destruct x as [i t1]. injection E as <-. bind_in Ex.
    injection Ex as _ <-. by eapply (push_output_effect _ (version (impl_transaction t))), unsigned.
  - unfold signInputKey in E. bind_in E. destruct x as [|k|]; [done| |done]. do 2 bind_in E. injection E as <-.
    by eapply effect_sign.
  - unfold signInputMultisignature in E. cbv zeta in E. do 2 bind_in E. injection E as <-. by eapply effect_sign.
  - unfold signInputMultisignature_keys in E. cbv zeta in E. do 2 bind_in E. injection E as <-. by eapply effect_sign.
Qed.

(** Inputs and outputs are only added, and a transaction with signatures keeps
    everything but its signatures. *)
Definition extends (t t' : TransactionImpl) : Prop :=
  inputs (impl_transaction t) `prefix_of` inputs (impl_transaction t') ∧
  outputs (impl_transaction t) `prefix_of` outputs (impl_transaction t') ∧
  (signatures (impl_transaction t) ≠ [] →
   tx_prefix (impl_transaction t') = tx_prefix (impl_transaction t) ∧ signatures (impl_transaction t') ≠ []).

#[global] Instance extends_preorder : PreOrder extends.
Proof.
  split; [by intros t; split_and!|]. intros t1 t2 t3 (Hi & Ho & Hs) (Hi' & Ho' & Hs').
  split_and!; [by etransitivity..|]. intros Hne. destruct (Hs Hne) as [E Hne']. destruct (Hs' Hne') as [E' ?].
  split; [by rewrite E'|done].
Qed.

Lemma update_signatures_spec f index t t' :
  update_signatures f index t = Ret t' →
  ∃ sigs old, t' = with_transaction (with_signatures (<[Z.to_nat index := f old]> sigs) (impl_transaction t)) t ∧
    signatures (impl_transaction t) `prefix_of` sigs ∧ 0 <= index ∧ sigs !! Z.to_nat index = Some old.
Proof.
  unfold update_signatures. intros E. cbv zeta in E.
  set (sigs := if (_ <? _)%nat then _ else _) in E.
  case_bool_in E; [done|]. apply outcome_bind_ret in E as (old & E1 & E).
  apply at_ret in E1 as [Hi Ho]. injection E as <-. exists sigs, old. split; [done|]. split; [|done].
  unfold sigs. destruct (_ <? _)%nat; [by eexists|done].
Qed.

Lemma effect_extends t c t' : effect t c t' → extends t t'.
Proof.
  intros [| | |c' p Hs Hi Ho He|c' nonce ba _ Hs _|d Hs|c' index f t1 _ E].
  1-3: by split_and!.
  1-3: split_and!; [done|done|intros []; exact Hs].
  apply update_signatures_spec in E as (sigs & old & -> & _ & _ & Ho). split_and!; [done|done|].
  cbn. intros _. split; [done|]. destruct sigs; [done|]. by destruct (Z.to_nat index).
Qed.

Lemma run_all_extends cs : ∀ t t', run_all uninit cs t = Ret t' → extends t t'.
Proof.
  induction cs as [|c cs IH]; intros t t' E; cbn [run_all] in E; [by injection E as <-|].
  bind_in E. etransitivity; [eapply effect_extends, run_effect, Ex|by apply IH].
Qed.

(** The signatures of an input stay until it is signed again. *)
Lemma effect_keeps_signatures t c t' i sigs :
  effect t c t' → signs c ≠ Some (Z.of_nat i) → signatures (impl_transaction t) !! i = Some sigs →
  signatures (impl_transaction t') !! i = Some sigs.
Proof.
  intros Heff Hn Hl. destruct Heff as [| | |c' p Hs|c' nonce ba _ Hs|d Hs|c' index f t1 Hc E];
    try (by rewrite Hs in Hl); try done.
  apply update_signatures_spec in E as (all & old & -> & Hp & Hi & _). cbn.
  rewrite list_lookup_insert_ne by (intros Hi0; apply Hn; rewrite Hc; f_equal; lia). by eapply prefix_lookup_Some.
Qed.

Lemma run_all_keeps_signatures cs : ∀ t t' i sigs,
  run_all uninit cs t = Ret t' → Forall (λ c, signs c ≠ Some (Z.of_nat i)) cs →
  signatures (impl_transaction t) !! i = Some sigs → signatures (impl_transaction t') !! i = Some sigs.
Proof.
  induction cs as [|c cs IH]; intros t t' i sigs E Hn Hl; cbn [run_all] in E; [by injection E as <-|].
  bind_in E. apply Forall_cons_iff in Hn as [Hc Hn]. eapply IH; [exact E|done|].
  eapply effect_keeps_signatures; [by eapply run_effect|done..].
Qed.

(** ** The state of an object *)

Lemma find_set_nonce fields nonce :
  find_field pick_nonce (extra_set pick_nonce (TransactionExtraNonce nonce) fields) = Some nonce.
Proof. induction fields as [|[] fields IH]; done. Qed.

Lemma find_key_set_nonce fields nonce :
  find_field pick_key (extra_set pick_nonce (TransactionExtraNonce nonce) fields) = find_field pick_key fields.
Proof. induction fields as [|[] fields IH]; cbn; congruence. Qed.

Lemma set_nonce_enc fields nonce :
  Forall enc_field fields → is_bytes nonce → Z.of_nat (length nonce) <= TX_EXTRA_NONCE_MAX_COUNT →
  Forall enc_field (extra_set pick_nonce (TransactionExtraNonce nonce) fields).
Proof.
  intros Hf Hb Hl. induction Hf as [|f fields Hf Hfs IH]; cbn [extra_set]; [by repeat constructor|].
  destruct (pick_nonce f); by constructor.
Qed.

Lemma serialize_fields_ret fields : ∀ ba,
  Forall enc_field fields → serialize_fields ba fields = Ret (ba ++ fields_bytes fields).
Proof.
  induction fields as [|f fields IH]; intros ba Hf; cbn [serialize_fields]; [by rewrite app_nil_r|].
  apply Forall_cons_iff in Hf as [Hf Hfs]. rewrite write_field_ret by done. cbn [mbind outcome_bind].
  rewrite IH by done. unfold fields_bytes. cbn [flat_map]. by rewrite <- app_assoc.
Qed.

(** Calls with arguments within the limits, other than [appendExtra]. *)
Definition good (c : call) : Prop :=
  match c with
  | call_appendExtra _ => False
  | call_setTransactionSecretKey key => is_pod 32 key ∧ is_Some (secret_key_to_public_key key)
  | call_setPaymentId hash => is_pod 32 hash
  | call_setExtraNonce nonce => is_bytes nonce ∧ Z.of_nat (length nonce) <= TX_EXTRA_NONCE_MAX_COUNT
  | _ => True
  end.

Record object_ok (pub : PublicKey) (t : TransactionImpl) : Prop := {
  ok_hash h : impl_transactionHash t = Some h → object_hash (impl_transaction t) = Ret h;
  ok_fields : Forall enc_field (impl_extra t);
  ok_extra : extra (impl_transaction t) = fields_bytes (impl_extra t);
  ok_public : extra_getPublicKey (impl_extra t) = Some pub;
  ok_secret sk : impl_secretKey t = Some sk → pub = key_of sk ∧ is_secret sk
}.

Lemma good_nonce c nonce :
  good c → sets_nonce c = Some nonce → is_bytes nonce ∧ Z.of_nat (length nonce) <= TX_EXTRA_NONCE_MAX_COUNT.
Proof.
  destruct c; try done; cbn; intros Hg [= <-]; [|done]. destruct Hg as [Hb Hl].
  split; [by constructor|]. unfold setPaymentIdToTransactionExtraNonce, TX_EXTRA_NONCE_MAX_COUNT. cbn [length]. lia.
Qed.

Lemma effect_ok `{!CryptoLaws} pub t c t' : object_ok pub t → good c → effect t c t' → object_ok pub t'.
Proof.
  intros [Hh Hf He Hp Hs] Hg Heff. revert Hg.
  destruct Heff as [|h E|key E|c' p Hu _ _ Hx|c' nonce ba Hn Hu Es|d Hu|c' index f t1 _ E]; intros Hg; try done.
  - split; try done. cbn. intros h' Eh. by injection Eh as <-.
  - split; try done. cbn. intros sk Esk. injection Esk as <-. destruct Hg as [Hpod [k Ek]]. rewrite Ek in E. rewrite Hp in E. cbn in E.
    rewrite E. by apply public_key_of.
  - split; try done. cbn. by rewrite Hx.
  - destruct (good_nonce _ _ Hg Hn) as [Hb Hl]. pose proof (set_nonce_enc _ _ Hf Hb Hl) as Hf'.
    unfold extra_serialize in Es. rewrite serialize_fields_ret in Es by done. injection Es as <-.
    split; try done. rewrite <- Hp. apply find_key_set_nonce.
  - apply update_signatures_spec in E as (sigs & old & -> & _). by split.
Qed.

Lemma run_all_ok `{!CryptoLaws} pub cs : ∀ t t',
  object_ok pub t → Forall good cs → run_all uninit cs t = Ret t' → object_ok pub t'.
Proof.
  induction cs as [|c cs IH]; intros t t' Ht Hg E; cbn [run_all] in E; [by injection E as <-|].
  bind_in E. apply Forall_cons_iff in Hg as [Hc Hg]. eapply IH; [|done|exact E].
  eapply effect_ok; [done..|by apply run_effect].
Qed.

Lemma created_ok txKeys t :
  is_pod 32 (publicKey txKeys) → publicKey txKeys = key_of (secretKey txKeys) → is_secret (secretKey txKeys) →
  createTransaction txKeys = Ret t → object_ok (publicKey txKeys) t.
Proof.
  intros Hp Hk Hs E. unfold createTransaction in E. cbv zeta in E. bind_in E. injection E as <-.
  assert (Forall enc_field [TransactionExtraPublicKey (publicKey txKeys)]) as Hf by (constructor; [exact Hp|constructor]).
  unfold extra_serialize in Ex. cbn [extra_set] in Ex. rewrite serialize_fields_ret in Ex by done. injection Ex as <-.
  split; try done. cbn. intros sk Esk. by injection Esk as <-.
Qed.
End Proofs.

(** ** Finding outputs *)

Section Finding.
Context `{CryptoLaws} (uninit : list Z).

Definition single_key (o : TransactionOutput) : Prop :=
  match out_target o with OutKey _ => True | OutMultisignature m => length (mo_keys m) = 1%nat end.

(** While every multisignature output has one key, keys and outputs are counted alike. *)
Lemma find_outputs_member keys d outs : ∀ n amount i o k,
  Forall single_key outs → 0 <= n → n + Z.of_nat (length outs) < 2 ^ 32 → outs !! i = Some o → out_target o = OutKey k →
  is_out_to_acc_derived uninit keys k d (n + Z.of_nat i) = true →
  n + Z.of_nat i ∈ (find_outputs uninit keys d outs n n amount).1.
Proof.
  induction outs as [|o' outs IH]; intros n amount i o k Hs Hn Hl Ho Hk Hm; [done|].
  apply Forall_cons_iff in Hs as [Ho' Hs]. cbn [find_outputs length] in *.
  assert (u64 (n + 1) = n + 1 ∧ u32 (n + 1) = n + 1) as [E1 E2]
    by (split; [apply u64_small|apply u32_small]; unfold in_range; lia).
  destruct i as [|i]; cbn in Ho.
  - injection Ho as ->. rewrite Hk. rewrite Z.add_0_r in *. rewrite Hm.
    destruct (find_outputs _ _ _ _ _ _ _). by left.
  - replace (n + Z.of_nat (S i)) with ((n + 1) + Z.of_nat i) in * by lia.
    destruct (out_target o') as [k'|m] eqn:Et.
    + rewrite E1, E2. match goal with |- context [find_outputs _ _ _ _ _ _ ?a] =>
        pose proof (IH (n + 1) a i o k Hs ltac:(lia) ltac:(lia) Ho Hk Hm) as Hin end.
      destruct (find_outputs _ _ _ _ _ _ _) as [out am]. cbn in *. case_bool; [by right|done].
    + unfold single_key in Ho'. rewrite Et in Ho'. destruct (mo_keys m) as [|key [|? ?]] eqn:Em; [done| |done].
      cbn [find_keys]. rewrite E1, E2. pose proof (IH (n + 1) amount i o k Hs ltac:(lia) ltac:(lia) Ho Hk Hm) as Hin.
      destruct (find_outputs _ _ _ _ _ _ _) as [out am]. cbn in *. apply elem_of_app. by right.
Qed.

(** The key that [addOutput] derives is recognised by its receiver. *)
Lemma derived_is_mine acc sk i :
  account_address acc → is_secret sk →
  is_out_to_acc_derived uninit {| address := address acc; spendSecretKey := uninit; viewSecretKey := viewSecretKey acc |}
    {| ko_key := derivePublicKey uninit (address acc) sk i uninit |}
    (default uninit (generate_key_derivation (key_of sk) (viewSecretKey acc))) i = true.
Proof.
  intros (Ha & _ & Hv) Hs. unfold is_out_to_acc_derived, derivePublicKey. apply bool_decide_eq_true. rewrite Ha. cbn.
  by rewrite (derivation_sym (viewSecretKey acc) sk Hv Hs).
Qed.

Lemma public_key_parsed pub t :
  object_ok pub t → Z.of_nat (length (extra (impl_transaction t))) < 2 ^ 64 →
  parseTransactionExtra (extra (impl_transaction t)) = Ret (impl_extra t, true).
Proof.
  intros Hok Hl. rewrite (ok_extra _ _ Hok) in *. pose proof (parse_fields_bytes (impl_extra t) None) as Hp.
  cbn [padding] in Hp. rewrite app_nil_r in Hp. apply Hp; [apply Hok|done|done].
Qed.

Lemma addOutput_spec amount to t i t' :
  addOutput uninit amount to t = Ret (i, t') →
  ∃ sk, impl_secretKey t = Some sk ∧ signatures (impl_transaction t) = [] ∧
    i = Z.of_nat (length (outputs (impl_transaction t))) ∧
    outputs (impl_transaction t') !! Z.to_nat i =
      Some {| out_amount := amount; out_target := OutKey {| ko_key := derivePublicKey uninit to sk i uninit |} |}.
Proof.
  unfold addOutput. intros E. apply outcome_bind_ret in E as (u & Hu%unsigned & E).
  apply outcome_bind_ret in E as (sk & Esk & E). injection E as <- <-. unfold txSecretKey in Esk.
  destruct (impl_secretKey t) as [sk'|]; [|done]. injection Esk as ->. exists sk. split_and!; [done..|]. cbn.
  by rewrite Nat2Z.id, lookup_app_r, Nat.sub_diag by lia.
Qed.
End Finding.

Lemma prefix_hash_pod `{CryptoLaws} tx h : prefix_hash tx = Ret h → is_pod 32 h.
Proof.
  unfold prefix_hash, getObjectHash. intros E. apply outcome_bind_ret in E as ([ba|] & _ & E); injection E as <-;
    [apply fast_hash_pod|split; [by apply Forall_replicate|done]].
Qed.

(** ** Theorems *)

(** C27: an object keeps its parts in step: after any calls within the limits, other than
    [appendExtra], its hash is that of its transaction, its transaction key is the one
    it was created with, and a reader of its transaction finds the same extra fields. *)
Theorem transaction_object_invariant `{CryptoLaws} uninit txKeys t0 cs t :
  is_pod 32 (publicKey txKeys) → publicKey txKeys = key_of (secretKey txKeys) → is_secret (secretKey txKeys) →
  createTransaction txKeys = Ret t0 →
  Forall good cs → run_all uninit cs t0 = Ret t →
  getTransactionHash t = object_hash (impl_transaction t) ∧ getTransactionPublicKey t = publicKey txKeys ∧
  (Z.of_nat (length (extra (impl_transaction t))) < 2 ^ 64 →
   ∀ h, ∃ r, createTransactionPrefix (impl_transaction t) h = Ret r ∧ m_extra r = impl_extra t ∧
     getPaymentId r = getPaymentId t).
Proof.
  intros Hp Hk Hs E0 Hg E. pose proof (run_all_ok uninit _ _ _ _ (created_ok _ _ Hp Hk Hs E0) Hg E) as Hok. split_and!.
  - cbn. unfold impl_getTransactionHash. destruct (impl_transactionHash t) as [h|] eqn:Eh.
    + cbn. by rewrite (ok_hash _ _ Hok h Eh).
    + by destruct (object_hash (impl_transaction t)).
  - unfold getTransactionPublicKey. cbn [getExtraFields TransactionImpl_reader]. by rewrite (ok_public _ _ Hok).
  - intros Hl h. unfold createTransactionPrefix, extra_parse. rewrite (public_key_parsed _ _ Hok Hl). cbn.
    eexists. by split_and!.
Qed.

Definition toy_keys : KeyPair := {| publicKey := toy 11; secretKey := toy 11 |}.

Lemma transaction_object_invariant_witness :
  ∃ t, (t0 ← createTransaction toy_keys;
        run_all (H := toy_crypto) [] [call_hash; call_setPaymentId (replicate 32 9); call_setUnlockTime 5; call_hash] t0) = Ret t ∧
    @getPaymentId _ (@TransactionImpl_reader toy_crypto) t = Some (replicate 32 9) ∧
    @getTransactionHash _ (@TransactionImpl_reader toy_crypto) t = object_hash (H := toy_crypto) (impl_transaction t).
Proof.
  destruct (createTransaction toy_keys) as [t0| |] eqn:E0; [|by vm_compute in E0..]. cbn [mbind outcome_bind].
  destruct (run_all (H := toy_crypto) _ _ t0) as [t| |] eqn:E; [|vm_compute in E0; injection E0 as <-; by vm_compute in E..].
  exists t. split; [done|]. split; [vm_compute in E0; injection E0 as <-; vm_compute in E; by injection E as <-|].
  eapply (transaction_object_invariant (H := toy_crypto) (H0 := toy_laws) [] toy_keys t0
    [call_hash; call_setPaymentId (replicate 32 9); call_setUnlockTime 5; call_hash]); try done; [by apply toy_pod|].
  repeat constructor; by apply (bool_decide_unpack _); vm_compute.
Defined.

(** C14: signing: the ring signature that is made for an added input is valid for the
    transaction that results in the end, whatever calls come in between and after, as
    long as the input is not signed anew: a transaction with signatures does not change
    in any other way. *)
Theorem signed_input_verifies `{CryptoLaws} uninit senderKeys info t i ephKeys t1 cs1 t2 t3 cs2 t4 :
  addInput senderKeys info t = Ret (i, ephKeys, t1) → run_all uninit cs1 t1 = Ret t2 →
  signInputKey i info ephKeys t2 = Ret t3 → run_all uninit cs2 t3 = Ret t4 →
  Forall (λ c, signs c ≠ Some i) cs2 → account_address senderKeys →
  is_pod 32 (oki_transactionPublicKey (iki_realOutput info)) → 0 <= oki_outputInTransaction (iki_realOutput info) →
  Forall is_public (go_targetKey <$> iki_outputs info) → Z.of_nat (length (iki_outputs info)) < 2 ^ 24 →
  0 <= oki_transactionIndex (iki_realOutput info) →
  (go_targetKey <$> iki_outputs info) !! Z.to_nat (oki_transactionIndex (iki_realOutput info)) = Some (publicKey ephKeys) →
  ∃ input h sigs, inputs (impl_transaction t4) !! Z.to_nat i = Some (InKey input) ∧
    ki_amount input = iki_amount info ∧ prefix_hash (impl_transaction t4) = Ret h ∧
    signatures (impl_transaction t4) !! Z.to_nat i = Some sigs ∧
    check_ring_signature h (ki_keyImage input) (go_targetKey <$> iki_outputs info) sigs = true.
Proof.
  intros E1 E2 E3 E4 Hn (Ha & Hsec & Hview) Hpk Hout Hring Hlen Hr Hreal. unfold addInput in E1. apply outcome_bind_ret in E1 as (u & _ & E1).
  apply outcome_bind_ret in E1 as ([eph image] & Eimg & E1). apply outcome_bind_ret in E1 as ([i' t1'] & Eadd & E1).
  injection E1 as -> -> ->. unfold addKeyInput in Eadd. apply outcome_bind_ret in Eadd as (u' & _ & Eadd).
  injection Eadd as <- <-.
  assert (is_secret (secretKey ephKeys) ∧ ephKeys = {| publicKey := key_of (secretKey ephKeys); secretKey := secretKey ephKeys |} ∧
    image = generate_key_image (key_of (secretKey ephKeys)) (secretKey ephKeys)) as (Hsk & Heph & ->).
  { unfold generate_key_image_helper in Eimg. destruct (generate_key_derivation _ _) as [d|] eqn:Ed; [|done].
    apply derivation_pod in Ed; [|done|done]. rewrite Ha in Eimg. cbn in Eimg.
    destruct (derive_match d _ _ Ed Hout Hsec) as [Hsk Em]. rewrite Em in Eimg. by injection Eimg as <- <-. }
  rewrite Heph in Hreal. cbn in Hreal. clear Heph Eimg. set (n := length (inputs (impl_transaction t))) in *.
  apply run_all_extends in E2 as (Hin & _). cbn in Hin.
  assert (inputs (impl_transaction t2) !! n = Some (InKey {| ki_amount := iki_amount info;
    ki_outputIndexes := absolute_output_offsets_to_relative (go_outputIndex <$> iki_outputs info);
    ki_keyImage := generate_key_image (key_of (secretKey ephKeys)) (secretKey ephKeys) |})) as Hi2.
  { eapply prefix_lookup_Some; [|exact Hin]. by rewrite lookup_app_r, Nat.sub_diag by lia. }
  unfold signInputKey in E3. apply outcome_bind_ret in E3 as (input & Einput & E3).
  unfold getInputChecked_type, getInputChecked in Einput. apply outcome_bind_ret in Einput as (input' & Einput & Ety).
  case_bool_in Einput; [done|]. apply at_ret in Einput as [_ Hl]. rewrite Nat2Z.id, Hi2 in Hl. injection Hl as <-.
  injection Ety as <-. apply outcome_bind_ret in E3 as (h & Eh & E3). apply outcome_bind_ret in E3 as (t3' & Eu & E3).
  injection E3 as <-. apply update_signatures_spec in Eu as (sigs & old & -> & _ & _ & Hold). rewrite Nat2Z.id in *.
  pose proof (run_all_extends _ _ _ _ E4) as (_ & _ & Hfix).
  destruct Hfix as [Epre _]; [cbn; destruct sigs; [done|]; by destruct n|]. cbn in Epre.
  eexists _, h, _. rewrite Epre. split; [exact Hi2|]. split; [done|]. split; [exact Eh|]. split.
  - eapply (run_all_keeps_signatures uninit cs2); [exact E4|done|]. cbn. apply list_lookup_insert_eq.
    by eapply lookup_lt_Some.
  - apply ring_valid; try done; [by apply (prefix_hash_pod (impl_transaction t2))|by rewrite length_fmap].
Qed.

Definition toy_info : InputKeyInfo := {|
  iki_amount := 1000;
  iki_outputs := [{| go_targetKey := toy 40; go_outputIndex := 3 |}; {| go_targetKey := toy 222; go_outputIndex := 8 |}];
  iki_realOutput := {| oki_transactionPublicKey := toy 31; oki_transactionIndex := 1; oki_outputInTransaction := 0 |}
|}.
Definition toy_eph : KeyPair := {| publicKey := toy 222; secretKey := toy 222 |}.
Definition toy_msig (index : Z) : MultisignatureInput :=
  {| mi_amount := 70; mi_signatureCount := 1; mi_outputIndex := index; mi_term := 0 |}.
Definition toy_after : list call := [call_hash; call_signInputMultisignature_keys 1 toy_eph].

(** The transaction with its two inputs, before and after the first is signed. *)
Definition toy_unsigned : outcome TransactionImpl :=
  t0 ← createTransaction toy_keys;
  '(_, _, t1) ← addInput (H := toy_crypto) (toy_account 5 7) toy_info t0;
  run_all (H := toy_crypto) [] [call_addMultisignatureInput (toy_msig 4)] t1.
Definition toy_signed : outcome TransactionImpl :=
  t2 ← toy_unsigned; t3 ← signInputKey (H := toy_crypto) 0 toy_info toy_eph t2;
  run_all (H := toy_crypto) [] toy_after t3.

Lemma signed_input_verifies_witness :
  ∃ t4 input h sigs, toy_signed = Ret t4 ∧
    inputs (impl_transaction t4) !! 0%nat = Some (InKey input) ∧
    signatures (impl_transaction t4) !! 0%nat = Some sigs ∧
    check_ring_signature (CryptoOps := toy_crypto) h (ki_keyImage input) [toy 40; toy 222] sigs = true.
Proof.
  destruct (createTransaction toy_keys) as [t0| |] eqn:E0; [|by vm_compute in E0..].
  destruct (addInput (H := toy_crypto) (toy_account 5 7) toy_info t0) as [[[i eph] t1]| |] eqn:E1;
    [|vm_compute in E0; injection E0 as <-; by vm_compute in E1..].
  assert (i = 0 ∧ eph = toy_eph) as [-> ->].
  { vm_compute in E0. injection E0 as <-. vm_compute in E1. injection E1 as <- <- _. done. }
  destruct toy_unsigned as [t2| |] eqn:E2; [|by vm_compute in E2..].
  destruct (signInputKey (H := toy_crypto) 0 toy_info toy_eph t2) as [t3| |] eqn:E3;
    [|vm_compute in E2; injection E2 as <-; by vm_compute in E3..].
  destruct toy_signed as [t4| |] eqn:E4; [|by vm_compute in E4..].
  destruct (signed_input_verifies (H := toy_crypto) (H0 := toy_laws) [] (toy_account 5 7) toy_info t0 0 toy_eph t1
    [call_addMultisignatureInput (toy_msig 4)] t2 t3 toy_after t4 E1) as (input & h & sigs & Hi & _ & _ & Hs & Hv).
  - unfold toy_unsigned in E2. rewrite E0 in E2. cbn [mbind outcome_bind] in E2. by rewrite E1 in E2.
  - exact E3.
  - unfold toy_signed in E4. rewrite E2 in E4. cbn [mbind outcome_bind] in E4. by rewrite E3 in E4.
  - by repeat constructor.
  - done.
  - apply toy_pod.
  - done.
  - do 2 (constructor; [apply toy_pod|]). constructor.
  - done.
  - done.
  - done.
  - by exists t4, input, h, sigs.
Defined.

(** receiving: an output that was added for an address is found with the view key of
    the account, when every multisignature output of the transaction has one key. *)
Theorem added_output_found `{CryptoLaws} uninit txKeys t0 cs1 t1 amount acc i t2 cs2 t3 :
  is_pod 32 (publicKey txKeys) → publicKey txKeys = key_of (secretKey txKeys) → is_secret (secretKey txKeys) →
  createTransaction txKeys = Ret t0 →
  Forall good cs1 → run_all uninit cs1 t0 = Ret t1 → addOutput uninit amount (address acc) t1 = Ret (i, t2) →
  Forall good cs2 → run_all uninit cs2 t2 = Ret t3 → account_address acc →
  Forall single_key (outputs (impl_transaction t3)) →
  Z.of_nat (length (outputs (impl_transaction t3))) < 2 ^ 32 → Z.of_nat (length (extra (impl_transaction t3))) < 2 ^ 64 →
  ∃ outs sum, findOutputsToAccount uninit (impl_transaction t3) (address acc) (viewSecretKey acc) = Ret (outs, sum) ∧
    i ∈ outs.
Proof.
  intros Hp Hk Hs E0 Hg1 E1 Ea Hg2 E2 Hacc Hone Hlen Hx.
  pose proof (run_all_ok uninit _ _ _ _ (created_ok _ _ Hp Hk Hs E0) Hg1 E1) as Hok1.
  pose proof (addOutput_spec _ _ _ _ _ _ Ea) as (sk & Hsk & _ & Hi & Ho).
  assert (object_ok (publicKey txKeys) t2) as Hok2.
  { apply (run_all_ok uninit _ [call_addOutput amount (address acc)] t1 t2 Hok1); [by repeat constructor|].
    cbn. by rewrite Ea. }
  pose proof (run_all_ok uninit _ _ _ _ Hok2 Hg2 E2) as Hok3. destruct (run_all_extends _ _ _ _ E2) as (_ & Hout & _).
  pose proof (prefix_lookup_Some _ _ _ _ Ho Hout) as Ho3.
  unfold findOutputsToAccount, getTransactionPublicKeyFromExtra. rewrite (public_key_parsed _ _ Hok3 Hx).
  cbn [mbind outcome_bind mret outcome_ret]. pose proof (ok_public _ _ Hok3) as Hpub. unfold extra_getPublicKey in Hpub.
  destruct (ok_secret _ _ Hok1 sk Hsk) as [Ek Hsec]. rewrite Hpub, Ek.
  match goal with |- context [find_outputs ?u ?k ?d ?o 0 0 0] =>
    pose proof (find_outputs_member u k d o 0 0 (Z.to_nat i) _ _ Hone ltac:(lia) ltac:(lia) Ho3 eq_refl) as Hin end.
  destruct (find_outputs _ _ _ _ _ _ _) as [outs sum]. exists outs, sum. split; [done|].
  replace (0 + Z.of_nat (Z.to_nat i)) with i in Hin by lia. by apply Hin, derived_is_mine.
Qed.

Lemma added_output_found_witness :
  ∃ t3 outs sum, (t0 ← createTransaction toy_keys;
      '(_, t2) ← addOutput (H := toy_crypto) [] 500 (address (toy_account 5 7)) t0;
      run_all (H := toy_crypto) [] [call_addOutput 20 (address (toy_account 8 9))] t2) = Ret t3 ∧
    findOutputsToAccount (H := toy_crypto) [] (impl_transaction t3) (address (toy_account 5 7)) (toy 7) = Ret (outs, sum) ∧
    0 ∈ outs.
Proof.
  destruct (createTransaction toy_keys) as [t0| |] eqn:E0; [|by vm_compute in E0..]. cbn [mbind outcome_bind].
  destruct (addOutput (H := toy_crypto) [] 500 (address (toy_account 5 7)) t0) as [[i t2]| |] eqn:E1;
    [|vm_compute in E0; injection E0 as <-; by vm_compute in E1..].
  assert (i = 0) as -> by (vm_compute in E0; injection E0 as <-; vm_compute in E1; by injection E1 as <- _).
  destruct (run_all (H := toy_crypto) [] [call_addOutput 20 (address (toy_account 8 9))] t2) as [t3| |] eqn:E2;
    [|vm_compute in E0; injection E0 as <-; vm_compute in E1; injection E1 as <-; by vm_compute in E2..].
  assert (Forall single_key (outputs (impl_transaction t3)) ∧
    Z.of_nat (length (outputs (impl_transaction t3))) < 2 ^ 32 ∧
    Z.of_nat (length (extra (impl_transaction t3))) < 2 ^ 64) as (H1 & H2 & H3).
  { vm_compute in E0. injection E0 as <-. vm_compute in E1. injection E1 as <-. vm_compute in E2. injection E2 as <-.
    split_and!; [by repeat constructor|done|done]. }
  destruct (added_output_found (H := toy_crypto) (H0 := toy_laws) [] toy_keys t0 [] t0 500 (toy_account 5 7) 0 t2
    [call_addOutput 20 (address (toy_account 8 9))] t3 (toy_pod 11) eq_refl I E0) as (outs & sum & E & Hin);
    [constructor|done|exact E1|by repeat constructor|exact E2|done|exact H1|exact H2|exact H3|].
  exists t3, outs, sum. split_and!; [exact E2|exact E|exact Hin].
Defined.

(** bytes appended to the extra bytes are lost: a hash that was asked for before is
    still given out, and setting a nonce writes the extra bytes as if nothing had been
    appended. *)
Theorem appended_extra_lost `{CryptoOps} t d t1 :
  appendExtra d t = Ret t1 →
  extra (impl_transaction t1) = extra (impl_transaction t) ++ d ∧
  (∀ h, impl_transactionHash t = Some h → getTransactionHash t1 = Ret h) ∧
  ∀ nonce, setExtraNonce nonce t1 = setExtraNonce nonce t.
Proof.
  unfold appendExtra. intros E. apply outcome_bind_ret in E as (u & Hu & E). injection E as <-. split_and!; [done| |].
  - intros h Eh. cbn. unfold impl_getTransactionHash. cbn. by rewrite Eh.
  - intros nonce. done.
Qed.

Lemma appended_extra_lost_witness :
  ∃ t1, (t0 ← createTransaction toy_keys; appendExtra [1; 2; 3] t0) = Ret t1 ∧
    (∀ nonce, setExtraNonce nonce t1 = (t0 ← createTransaction toy_keys; setExtraNonce nonce t0)) ∧
    extra (impl_transaction t1) = 1 :: toy 11 ++ [1; 2; 3].
Proof.
  destruct (createTransaction toy_keys) as [t0| |] eqn:E0; [|by vm_compute in E0..]. cbn [mbind outcome_bind].
  destruct (appendExtra [1; 2; 3] t0) as [t1| |] eqn:E1; [|vm_compute in E0; injection E0 as <-; by vm_compute in E1..].
  exists t1. split; [done|]. destruct (appended_extra_lost (H := toy_crypto) t0 [1; 2; 3] t1 E1) as (Hx & _ & Hn).
  split; [exact Hn|]. rewrite Hx. vm_compute in E0. by injection E0 as <-.
Defined.

(** a multisignature output that is added as such leaves the version at one, unlike
    one added for addresses; the check of the outputs then writes an error text
    through a null pointer. *)
Theorem multisignature_output_version `{CryptoOps} amount out t i t1 :
  addMultisignatureOutput amount out t = Ret (i, t1) → version (impl_transaction t) = TRANSACTION_VERSION_1 →
  check_outs_valid (impl_transaction t) false = Ret None → validateOutputs t1 = Abort.
Proof.
  unfold addMultisignatureOutput. intros E Hv Hok. apply outcome_bind_ret in E as (u & _ & E). injection E as _ <-.
  assert (check_outs_loop TRANSACTION_VERSION_1 false
    (outputs (impl_transaction t) ++ [{| out_amount := amount; out_target := OutMultisignature out |}]) = Abort) as Hab.
  { unfold check_outs_valid in Hok. rewrite Hv in Hok. induction (outputs (impl_transaction t)) as [|o outs IH]; [done|].
    cbn [check_outs_loop app] in *. destruct (check_out_valid _ _ o) as [[e|]| |]; cbn [mbind outcome_bind] in *; [done|by apply IH|done..]. }
  unfold validateOutputs, check_outs_valid. cbn. by rewrite Hv, Hab.
Qed.

Lemma multisignature_output_version_witness :
  (t0 ← createTransaction toy_keys;
   '(_, t1) ← addMultisignatureOutput 5 {| mo_keys := [toy 9]; mo_requiredSignatureCount := 1; mo_term := 0 |} t0;
   @validateOutputs toy_crypto _ (@TransactionImpl_reader toy_crypto) t1) = Abort.
Proof.
  destruct (createTransaction toy_keys) as [t0| |] eqn:E0; [|by vm_compute in E0..]. cbn [mbind outcome_bind].
  destruct (addMultisignatureOutput _ _ t0) as [[i t1]| |] eqn:E1;
    [|vm_compute in E0; injection E0 as <-; by vm_compute in E1..].
  apply (multisignature_output_version (H := toy_crypto) 5 _ t0 i t1 E1); vm_compute in E0; by injection E0 as <-.
Defined.

(** An output after a multisignature output of two keys is not found: the outputs are
    counted by keys where they are searched and by outputs where they are added. *)
Example output_after_two_keys_missed :
  (t0 ← createTransaction toy_keys;
   '(_, t1) ← addOutput_shared (H := toy_crypto) [] 30 [address (toy_account 21 22); address (toy_account 8 9)] 2 0 t0;
   '(i, t2) ← addOutput (H := toy_crypto) [] 500 (address (toy_account 5 7)) t1;
   '(outs, sum) ← findOutputsToAccount (H := toy_crypto) [] (impl_transaction t2) (address (toy_account 5 7)) (toy 7);
   mret (i, outs, sum)) = Ret (1, [], 0).
Proof. vm_compute. reflexivity. Qed.
