(* ===== verification/DepositIndex.v ===== *)
(** * Deposit index

    [src/src/CryptoNoteCore/DepositIndex.cpp] and [InvestmentIndex.cpp], which
    has the same code under other names: for each block that changes the locked
    amount, the running totals of deposits and of interest. The index is proved
    to refine the list of the amounts of all blocks. *)

From S2P Require Import Prelude.

Local Open Scope Z_scope.

Record DepositIndexEntry := { de_height : Z; de_amount : Z; de_interest : Z }.

Record DepositIndex := { di_index : list DepositIndexEntry; blockCount : Z }.

Definition new_DepositIndex : DepositIndex := {| di_index := []; blockCount := 0 |}.

(** [index.back()], zero for an empty index. *)
Definition fullDepositAmount (d : DepositIndex) : Z :=
  match list.last (di_index d) with None => 0 | Some e => de_amount e end.
Definition fullInterestAmount (d : DepositIndex) : Z :=
  match list.last (di_index d) with None => 0 | Some e => de_interest e end.

(** [sumWillOverflow] on [int64_t] and on [uint64_t]. *)
Definition sumWillOverflow_i64 (x y : Z) : bool :=
  if (0 <? y) && (INT64_MAX - y <? x) then true
  else if (y <? 0) && (x <? INT64_MIN - y) then true
  else false.
Definition sumWillOverflow_u64 (x y : Z) : bool := UINT64_MAX - y <? x.

Definition pushBlock (amount interest : Z) (d : DepositIndex) : outcome DepositIndex :=
  let lastAmount := fullDepositAmount d in
  let lastInterest := fullInterestAmount d in
  assert_ (negb (sumWillOverflow_i64 amount lastAmount));;
  assert_ (negb (sumWillOverflow_u64 interest lastInterest));;
  assert_ (0 <=? amount + lastAmount);;
  mret {| di_index := if negb (amount =? 0)
                      then di_index d ++ [{| de_height := blockCount d;
                                             de_amount := amount + lastAmount;
                                             de_interest := interest + lastInterest |}]
                      else di_index d;
          blockCount := u32 (blockCount d + 1) |}.

Definition popBlock (d : DepositIndex) : outcome DepositIndex :=
  assert_ (0 <? blockCount d);;
  let blockCount := blockCount d - 1 in
  mret {| di_index := match list.last (di_index d) with
                      | Some e => if de_height e =? blockCount
                                  then take (length (di_index d) - 1) (di_index d)
                                  else di_index d
                      | None => di_index d
                      end;
          blockCount := blockCount |}.

(** [std::upper_bound]: the position of the first entry above the height. *)
Fixpoint upper_bound (l : list DepositIndexEntry) (height : Z) : nat :=
  match l with
  | [] => 0
  | e :: l' => if height <? de_height e then 0 else S (upper_bound l' height)
  end.

Definition popBlocks (from : Z) (d : DepositIndex) : Z * DepositIndex :=
  if blockCount d <=? from then (0, d)
  else
    let it := upper_bound (di_index d) from in
    let it := match it with
              | O => O
              | S it' =>
                  match di_index d !! it' with
                  | Some e => if negb (de_height e =? from) then it else it'
                  | None => it
                  end
              end in
    let diff := blockCount d - from in
    (diff, {| di_index := take it (di_index d); blockCount := blockCount d - diff |}).

(** [(--it)->...], zero at the beginning. *)
Definition at_height (field : DepositIndexEntry → Z) (height : Z) (d : DepositIndex) : Z :=
  if blockCount d =? 0 then 0
  else match upper_bound (di_index d) height with
       | O => 0
       | S it => match di_index d !! it with Some e => field e | None => 0 end
       end.
Definition depositAmountAtHeight (height : Z) (d : DepositIndex) : Z := at_height de_amount height d.
Definition depositInterestAtHeight (height : Z) (d : DepositIndex) : Z :=
  at_height de_interest height d.

(** ** The list of blocks behind the index *)

(** The entries of the blocks from height [h] on top of the totals [a], [i]. *)
Fixpoint entries (h a i : Z) (blocks : list (Z * Z)) : list DepositIndexEntry :=
  match blocks with
  | [] => []
  | (amount, interest) :: blocks' =>
      if amount =? 0 then entries (h + 1) a i blocks'
      else {| de_height := h; de_amount := a + amount; de_interest := i + interest |} ::
           entries (h + 1) (a + amount) (i + interest) blocks'
  end.

(** The totals the index keeps: interest counts only in blocks that change the
    amount. *)
Definition total_amount (blocks : list (Z * Z)) : Z := sumZ (fst <$> blocks).
Definition counted_interest (blocks : list (Z * Z)) : Z :=
  sumZ ((λ b, if b.1 =? 0 then 0 else b.2) <$> blocks).

Definition represents (d : DepositIndex) (blocks : list (Z * Z)) : Prop :=
  di_index d = entries 0 0 0 blocks ∧ blockCount d = Z.of_nat (length blocks) ∧
  Z.of_nat (length blocks) < 2 ^ 32.

Lemma entries_app b1 b2 h a i :
  entries h a i (b1 ++ b2) =
  entries h a i b1 ++
    entries (h + Z.of_nat (length b1)) (a + total_amount b1) (i + counted_interest b1) b2.
Proof.
  revert h a i. induction b1 as [|[x y] b1 IH]; intros h a i.
  { unfold total_amount, counted_interest. cbn. by rewrite !Z.add_0_r. }
  unfold total_amount, counted_interest in *. rewrite !fmap_cons, !sumZ_cons.
  cbn [app entries length fst snd]. destruct (Z.eqb_spec x 0) as [->|Hx]; rewrite IH;
    [f_equal|cbn [app]; do 2 f_equal]; f_equal; lia.
Qed.

(** All entries lie below the height the list ends at, from [h] on. *)
Lemma entries_heights blocks h a i :
  Forall (λ e, h <= de_height e < h + Z.of_nat (length blocks)) (entries h a i blocks).
Proof.
  revert h a i. induction blocks as [|[x y] blocks IH]; intros h a i; [constructor|].
  cbn [entries length]. destruct (x =? 0).
  - eapply Forall_impl; [|apply (IH (h + 1) a i)]. intros e He. cbn beta in He. lia.
  - constructor; [cbn; lia|].
    eapply Forall_impl; [|apply (IH (h + 1) (a + x) (i + y))]. intros e He. cbn beta in He. lia.
Qed.

Lemma entries_last blocks h a i :
  match list.last (entries h a i blocks) with
  | None => total_amount blocks = 0 ∧ counted_interest blocks = 0
  | Some e => de_amount e = a + total_amount blocks ∧ de_interest e = i + counted_interest blocks
  end.
Proof.
  revert h a i. induction blocks as [|[x y] blocks IH]; intros h a i; [done|].
  unfold total_amount, counted_interest in *. rewrite !fmap_cons, !sumZ_cons.
  cbn [entries fst snd]. destruct (Z.eqb_spec x 0) as [->|Hx].
  - specialize (IH (h + 1) a i). destruct (list.last _); lia.
  - specialize (IH (h + 1) (a + x) (i + y)). rewrite last_cons.
    destruct (list.last (entries _ _ _ _)); cbn; lia.
Qed.

Lemma full_totals d blocks :
  represents d blocks →
  fullDepositAmount d = total_amount blocks ∧ fullInterestAmount d = counted_interest blocks.
Proof.
  intros (Hi & _). unfold fullDepositAmount, fullInterestAmount. rewrite Hi.
  pose proof (entries_last blocks 0 0 0). destruct (list.last _); lia.
Qed.

Lemma sumWillOverflow_i64_spec x y :
  INT64_MIN <= x <= INT64_MAX → INT64_MIN <= y <= INT64_MAX →
  sumWillOverflow_i64 x y = false ↔ INT64_MIN <= x + y <= INT64_MAX.
Proof.
  intros Hx Hy. unfold sumWillOverflow_i64.
  destruct (Z.ltb_spec 0 y), (Z.ltb_spec (INT64_MAX - y) x), (Z.ltb_spec y 0),
    (Z.ltb_spec x (INT64_MIN - y)); cbn [andb];
    split; intros; try done; lia.
Qed.

(** What a block may add: the totals stay in range. *)
Definition block_fits (blocks : list (Z * Z)) (amount interest : Z) : Prop :=
  INT64_MIN <= amount <= INT64_MAX ∧ 0 <= total_amount blocks <= INT64_MAX ∧
  0 <= total_amount blocks + amount <= INT64_MAX ∧
  counted_interest blocks + interest <= UINT64_MAX ∧ Z.of_nat (length blocks) + 1 < 2 ^ 32.

Lemma pushBlock_represents d blocks amount interest :
  represents d blocks → block_fits blocks amount interest →
  ∃ d', pushBlock amount interest d = Ret d' ∧ represents d' (blocks ++ [(amount, interest)]).
Proof.
  intros Hr (Ha & Ht & Hs & Hi & Hl). destruct (full_totals d blocks Hr) as [Ea Ei].
  destruct Hr as (Hidx & Hc & _). unfold pushBlock. rewrite Ea, Ei.
  rewrite (proj2 (sumWillOverflow_i64_spec _ (total_amount blocks) Ha ltac:(unfold INT64_MIN; lia)))
    by (unfold INT64_MIN; lia).
  unfold sumWillOverflow_u64. rewrite (proj2 (Z.ltb_ge _ interest)), (proj2 (Z.leb_le 0 _)) by lia.
  cbn [assert_ negb mbind outcome_bind]. eexists. split; [done|]. unfold represents. cbn.
  rewrite Hc, length_app, u32_small by (unfold in_range; lia). cbn [length]. split; [|lia].
  rewrite Hidx, entries_app. cbn [entries]. rewrite !Z.add_0_l.
  destruct (Z.eqb_spec amount 0); cbn [negb]; [by rewrite app_nil_r|].
  do 3 f_equal; lia.
Qed.

Lemma popBlock_represents d blocks b :
  represents d (blocks ++ [b]) → ∃ d', popBlock d = Ret d' ∧ represents d' blocks.
Proof.
  intros (Hidx & Hc & Hl). rewrite length_app in Hc, Hl. cbn [length] in Hc, Hl.
  unfold popBlock. rewrite (proj2 (Z.ltb_lt 0 _)) by lia. cbn [assert_ mbind outcome_bind].
  eexists. split; [done|]. unfold represents. cbn.
  replace (blockCount d - 1) with (Z.of_nat (length blocks)) by lia. split; [|lia].
  rewrite Hidx, entries_app, Z.add_0_l. destruct b as [amount interest]. cbn [entries].
  destruct (Z.eqb_spec amount 0) as [->|Hne].
  - rewrite app_nil_r. pose proof (entries_heights blocks 0 0 0) as Hh.
    destruct (list.last (entries 0 0 0 blocks)) as [e|] eqn:El; [|done].
    apply last_Some in El as (l & El). rewrite El in Hh.
    apply Forall_app in Hh as [_ Hh]. apply Forall_cons_iff in Hh as [Hh _].
    by rewrite (proj2 (Z.eqb_neq _ _)) by lia.
  - rewrite last_snoc. cbn. rewrite Z.eqb_refl, length_app. cbn [length].
    by rewrite Nat.add_sub, take_app_length.
Qed.

Lemma upper_bound_app l1 l2 height :
  Forall (λ e, de_height e <= height) l1 → Forall (λ e, height < de_height e) l2 →
  upper_bound (l1 ++ l2) height = length l1.
Proof.
  intros H1 H2. induction H1 as [|e l1 He _ IH]; cbn [app upper_bound length].
  - destruct H2; cbn [upper_bound]; [done|]. by rewrite (proj2 (Z.ltb_lt _ _)).
  - by rewrite (proj2 (Z.ltb_ge _ _)), IH.
Qed.

Lemma entries_below blocks n :
  Forall (λ e, de_height e < Z.of_nat n) (entries 0 0 0 (take n blocks)).
Proof.
  eapply Forall_impl; [|apply entries_heights]. intros e He. cbn beta in He.
  rewrite length_take in He. lia.
Qed.

Lemma entries_split blocks n :
  (n <= length blocks)%nat →
  entries 0 0 0 blocks = entries 0 0 0 (take n blocks) ++
    entries (Z.of_nat n) (total_amount (take n blocks)) (counted_interest (take n blocks))
      (drop n blocks).
Proof.
  intros Hn. rewrite <- (take_drop n blocks) at 1. rewrite entries_app, length_take, Nat.min_l by done.
  by rewrite !Z.add_0_l.
Qed.

Lemma popBlocks_represents d blocks from :
  represents d blocks → 0 <= from →
  (popBlocks from d).1 = Z.max 0 (Z.of_nat (length blocks) - from) ∧
  represents (popBlocks from d).2 (take (Z.to_nat from) blocks).
Proof.
  intros (Hidx & Hc & Hl) Hf. unfold popBlocks. rewrite Hc.
  destruct (Z.leb_spec (Z.of_nat (length blocks)) from) as [Hle|Hlt]; cbn [fst snd].
  { rewrite take_ge by lia. split; [lia|done]. }
  split; [lia|]. unfold represents. cbn. rewrite length_take, Nat.min_l by lia. split; [|lia].
  rewrite Hidx. set (n := Z.to_nat from). assert (Z.of_nat n = from) as Hn by lia.
  rewrite (entries_split blocks n) by lia. pose proof (entries_below blocks n) as Hb.
  set (E1 := entries 0 0 0 (take n blocks)) in *.
  destruct (drop n blocks) as [|[x y] rest] eqn:Ed.
  { apply (f_equal length) in Ed. rewrite length_drop in Ed. cbn in Ed. lia. }
  cbn [entries]. rewrite Hn in *. destruct (Z.eqb_spec x 0) as [->|Hx].
  - rewrite upper_bound_app.
    + destruct (length E1) as [|k] eqn:Ek; [by destruct E1|].
      destruct (lookup_lt_is_Some_2 E1 k) as [e He]; [lia|].
      rewrite lookup_app_l, He by lia. rewrite Forall_lookup in Hb. specialize (Hb k e He).
      cbn beta in Hb. rewrite (proj2 (Z.eqb_neq _ _)) by lia. cbn [negb]. by rewrite <- Ek, take_app_length.
    + eapply Forall_impl; [|exact Hb]. intros e He. cbn beta in He. lia.
    + eapply Forall_impl; [|apply entries_heights]. intros e He. cbn beta in He. lia.
  - match goal with |- context [E1 ++ ?e :: ?l] => set (e0 := e); set (E3 := l) end.
    replace (E1 ++ e0 :: E3) with ((E1 ++ [e0]) ++ E3) by (by rewrite <- app_assoc).
    rewrite upper_bound_app.
    + rewrite length_app. cbn [length]. rewrite Nat.add_1_r.
      rewrite lookup_app_l by (rewrite length_app; cbn; lia). rewrite list_lookup_middle by done.
      cbn [de_height e0]. rewrite Z.eqb_refl. cbn [negb].
      by rewrite <- app_assoc, take_app_length.
    + apply Forall_app. split; [|constructor; [cbn; lia|constructor]].
      eapply Forall_impl; [|exact Hb]. intros e He. cbn beta in He. lia.
    + eapply Forall_impl; [|apply entries_heights]. intros e He. cbn beta in He. lia.
Qed.

Lemma at_height_represents d blocks height field total :
  (∀ bl, match list.last (entries 0 0 0 bl) with
         | None => total bl = 0 | Some e => field e = total bl end) →
  represents d blocks → 0 <= height →
  at_height field height d = total (take (Z.to_nat (height + 1)) blocks).
Proof.
  intros Hlast (Hidx & Hc & Hl) Hh. unfold at_height. rewrite Hc, Hidx.
  destruct (Z.eqb_spec (Z.of_nat (length blocks)) 0) as [Hz|_].
  { assert (blocks = []) as -> by (by destruct blocks). rewrite take_nil. symmetry. apply (Hlast []). }
  set (n := Nat.min (Z.to_nat (height + 1)) (length blocks)).
  assert (take (Z.to_nat (height + 1)) blocks = take n blocks) as ->.
  { unfold n. destruct (Nat.min_spec (Z.to_nat (height + 1)) (length blocks)) as [[_ ->]|[? ->]]; [done|].
    by rewrite !take_ge by lia. }
  specialize (Hlast (take n blocks)). rewrite (entries_split blocks n) by lia.
  rewrite upper_bound_app.
  - set (E1 := entries 0 0 0 (take n blocks)) in *. destruct (length E1) as [|k] eqn:Ek.
    { assert (E1 = []) as E by (by apply length_zero_iff_nil). by rewrite E in Hlast. }
    rewrite lookup_app_l by lia. rewrite last_lookup, Ek in Hlast. cbn in Hlast.
    destruct (lookup_lt_is_Some_2 E1 k) as [e He]; [lia|]. rewrite He in Hlast |- *. done.
  - eapply Forall_impl; [|apply entries_below]. intros e He. cbn beta in He. lia.
  - eapply Forall_impl; [|apply entries_heights]. intros e He. cbn beta in He.
    rewrite length_drop in He. lia.
Qed.

(** ** Properties *)

Lemma counted_interest_filter blocks : counted_interest blocks = sumZ (snd <$> filter (λ b, b.1 ≠ 0) blocks).
Proof.
  unfold counted_interest. induction blocks as [|[x y] blocks IH]; [done|].
  rewrite fmap_cons, sumZ_cons, filter_cons, IH. cbn [fst snd]. destruct (Z.eqb_spec x 0) as [->|Hx].
  - by rewrite decide_False by (intros Hn; by apply Hn).
  - by rewrite decide_True, fmap_cons, sumZ_cons by done.
Qed.

(** A block that does not fit is refused by an assertion. *)
Lemma pushBlock_refused d blocks amount interest :
  represents d blocks → INT64_MIN <= amount <= INT64_MAX → 0 <= total_amount blocks <= INT64_MAX →
  ¬ (0 <= total_amount blocks + amount <= INT64_MAX ∧ counted_interest blocks + interest <= UINT64_MAX) →
  pushBlock amount interest d = Abort.
Proof.
  intros Hr Ha Ht Hn. destruct (full_totals d blocks Hr) as [Ea Ei]. unfold pushBlock. rewrite Ea, Ei.
  destruct (sumWillOverflow_i64 amount (total_amount blocks)) eqn:E1; [done|].
  apply sumWillOverflow_i64_spec in E1; [|done|unfold INT64_MIN; lia].
  destruct (sumWillOverflow_u64 interest (counted_interest blocks)) eqn:E2; [done|]. unfold sumWillOverflow_u64 in E2.
  destruct (Z.leb_spec 0 (amount + total_amount blocks)); [|done]. bool_to_prop. lia.
Qed.

(** C37: the index refines the list of the blocks, each with its net deposits and its
    interest. A block for which the total of the deposits stays between 0 and the
    greatest 64 bit number with a sign and the total of the recorded interest within 64
    bits is appended, below [2 ^ 32] blocks; any other one fails an assertion. Popping
    removes the last block, [popBlocks] truncates the list and returns how many blocks
    went. The queries return the sum of the net deposits up to the height, and the sum
    of the interest of those blocks whose net deposits are not 0: the interest of the
    others is not recorded. *)
Theorem deposit_index_refines d blocks :
  represents new_DepositIndex [] ∧
  (represents d blocks →
   (∀ amount interest, block_fits blocks amount interest →
      ∃ d', pushBlock amount interest d = Ret d' ∧ represents d' (blocks ++ [(amount, interest)])) ∧
   (∀ amount interest, INT64_MIN <= amount <= INT64_MAX → 0 <= total_amount blocks <= INT64_MAX →
      ¬ (0 <= total_amount blocks + amount <= INT64_MAX ∧ counted_interest blocks + interest <= UINT64_MAX) →
      pushBlock amount interest d = Abort) ∧
   (∀ front b, blocks = front ++ [b] → ∃ d', popBlock d = Ret d' ∧ represents d' front) ∧
   (∀ from, 0 <= from →
      (popBlocks from d).1 = Z.max 0 (Z.of_nat (length blocks) - from) ∧
      represents (popBlocks from d).2 (take (Z.to_nat from) blocks)) ∧
   (∀ height, 0 <= height →
      depositAmountAtHeight height d = sumZ (fst <$> take (Z.to_nat (height + 1)) blocks) ∧
      depositInterestAtHeight height d = sumZ (snd <$> filter (λ b, b.1 ≠ 0) (take (Z.to_nat (height + 1)) blocks)))).
Proof.
  split; [done|]. intros Hr. split_and!.
  - intros amount interest. by apply pushBlock_represents.
  - intros amount interest. by apply pushBlock_refused.
  - intros front b ->. by apply (popBlock_represents d front b).
  - intros from. by apply popBlocks_represents.
  - intros height Hh. rewrite <- counted_interest_filter. fold (total_amount (take (Z.to_nat (height + 1)) blocks)).
    split; (apply at_height_represents; [|done..]);
      intros bl; pose proof (entries_last bl 0 0 0); destruct (list.last _); lia.
Qed.

Lemma deposit_index_refines_witness :
  ∃ d', pushBlock 500 20 {| di_index := [{| de_height := 1; de_amount := 300; de_interest := 9 |}];
                            blockCount := 3 |} = Ret d' ∧
    represents d' ([(0, 4); (300, 9); (0, 2)] ++ [(500, 20)]).
Proof.
  apply (deposit_index_refines _ [(0, 4); (300, 9); (0, 2)]); by vm_compute.
Defined.

(** the interest of a block whose deposits and withdrawals cancel out is not
    recorded: after such a block the total interest is what it was before. *)
Theorem balanced_block_loses_interest d blocks interest d' :
  represents d blocks → Z.of_nat (length blocks) + 1 < 2 ^ 32 →
  pushBlock 0 interest d = Ret d' →
  fullInterestAmount d' = fullInterestAmount d ∧
  depositInterestAtHeight (Z.of_nat (length blocks)) d' =
    depositInterestAtHeight (Z.of_nat (length blocks)) d.
Proof.
  intros Hr Hlen E. unfold pushBlock in E.
  do 3 (apply outcome_bind_ret in E as (? & _ & E)). injection E as <-. split; [done|].
  destruct Hr as (Hidx & Hc & Hl). unfold depositInterestAtHeight, at_height. cbn [blockCount di_index].
  rewrite Hc. destruct (Z.eqb_spec (Z.of_nat (length blocks)) 0) as [Hz|Hz].
  - assert (blocks = []) as -> by (by destruct blocks). by rewrite Hidx.
  - rewrite u32_small by (unfold in_range; lia). by rewrite (proj2 (Z.eqb_neq _ 0)) by lia.
Qed.

Lemma balanced_block_loses_interest_witness :
  let d := {| di_index := [{| de_height := 0; de_amount := 300; de_interest := 9 |}]; blockCount := 1 |} in
  ∃ d', pushBlock 0 77 d = Ret d' ∧ fullInterestAmount d' = 9 ∧ depositInterestAtHeight 1 d' = 9.
Proof.
  intros d. eexists. split; [reflexivity|].
  destruct (balanced_block_loses_interest d [(300, 9)] 77
    {| di_index := [{| de_height := 0; de_amount := 300; de_interest := 9 |}]; blockCount := 2 |})
    as [H1 H2]; [by vm_compute|done|reflexivity|]. split; [exact H1|exact H2].
Defined.
