(* ===== verification/BlockIndex.v ===== *)
(** * Block index

    [src/src/CryptoNoteCore/BlockIndex.h] and [BlockIndex.cpp]: the hashes of the
    main chain, a random-access sequence with a unique hashed index (a Boost
    multi-index container), modelled as a list without duplicates. *)

From S2P Require Import Prelude CryptoNoteTypes.

Local Open Scope Z_scope.

Abbreviation BlockIndex := (list Hash).

Definition bi_pop (b : BlockIndex) : BlockIndex := take (length b - 1) b.

(** [push_back] of the container: a hash that is already there is not inserted. *)
Definition bi_push (h : Hash) (b : BlockIndex) : bool * BlockIndex :=
  if bool_decide (h ∈ b) then (false, b) else (true, b ++ [h]).

Definition bi_hasBlock (h : Hash) (b : BlockIndex) : bool := bool_decide (h ∈ b).

(** The position of the hash. *)
Fixpoint index_of (h : Hash) (b : BlockIndex) : option nat :=
  match b with
  | [] => None
  | x :: b' => if bool_decide (x = h) then Some 0%nat else S <$> index_of h b'
  end.
Definition bi_getBlockHeight (h : Hash) (b : BlockIndex) : option Z :=
  (λ n, u32 (Z.of_nat n)) <$> index_of h b.

Definition bi_size (b : BlockIndex) : Z := u32 (Z.of_nat (length b)).

Definition bi_getBlockId (height : Z) (b : BlockIndex) : outcome Hash :=
  assert_ (height <? Z.of_nat (length b));; at_ b height.

Definition bi_getBlockIds (startBlockIndex maxCount : Z) (b : BlockIndex) : list Hash :=
  if Z.of_nat (length b) <=? startBlockIndex then []
  else
    let count := Z.min maxCount (Z.of_nat (length b) - startBlockIndex) in
    take (Z.to_nat count) (drop (Z.to_nat startBlockIndex) b).

(** [findSupplement]: the height of the first known hash. *)
Fixpoint bi_findSupplement (ids : list Hash) (b : BlockIndex) : option Z :=
  match ids with
  | [] => None
  | id :: ids' =>
      match bi_getBlockHeight id b with
      | Some offset => Some offset
      | None => bi_findSupplement ids' b
      end
  end.

(** [for (i = 1; i <= sparseChainEnd; i *= 2)]. The end is at most 2^32, so [i]
    passes it within 34 iterations. *)
Fixpoint sparse_loop (fuel : nat) (i sparseChainEnd : Z) (b : BlockIndex) : outcome (list Hash) :=
  match fuel with
  | O => Abort
  | S fuel =>
      if i <=? sparseChainEnd then
        h ← at_ b (sparseChainEnd - i);
        rest ← sparse_loop fuel (u64 (i * 2)) sparseChainEnd b;
        mret (h :: rest)
      else mret []
  end.

Definition bi_buildSparseChain (startBlockId : Hash) (b : BlockIndex) : outcome (list Hash) :=
  match bi_getBlockHeight startBlockId b with
  | None => Abort
  | Some startBlockHeight =>
      let sparseChainEnd := u32 (startBlockHeight + 1) in
      result ← sparse_loop 34 1 sparseChainEnd b;
      match list.last result with
      | None => Abort
      | Some back =>
          genesis ← at_ b 0;
          mret (if negb (bool_decide (back = genesis)) then result ++ [genesis] else result)
      end
  end.

Definition bi_getTailId (b : BlockIndex) : outcome Hash :=
  match list.last b with None => Abort | Some h => mret h end.

(** ** Proofs *)

Lemma index_of_spec h b n :
  NoDup b → index_of h b = Some n ↔ b !! n = Some h.
Proof.
  revert n. induction b as [|x b IH]; intros n Hnd; [done|].
  apply list.NoDup_cons in Hnd as [Hx Hnd]. cbn [index_of]. case_bool_decide as E.
  - subst x. split; [by intros [= <-]|]. destruct n as [|n]; [done|].
    intros Hn. destruct Hx. eapply list_elem_of_lookup_2. exact Hn.
  - destruct n as [|n]; cbn.
    + split; [by destruct (index_of h b)|]. intros [= ->]. done.
    + rewrite <- IH by done. destruct (index_of h b); cbn; [|done]. split; congruence.
Qed.

Lemma index_of_None h b : index_of h b = None ↔ h ∉ b.
Proof.
  induction b as [|x b IH]; [split; [intros _ Hx%not_elem_of_nil|]; done|].
  cbn [index_of]. rewrite not_elem_of_cons. case_bool_decide as E.
  - split; [done|]. intros [? _]. by subst.
  - rewrite fmap_None, IH. split; [|by intros [_ ?]]. intros ?. split; [by intros ->|done].
Qed.

(** The invariant: no hash twice and a height that fits 32 bits. *)
Definition bi_ok (b : BlockIndex) : Prop := NoDup b ∧ Z.of_nat (length b) < 2 ^ 32.

Lemma getBlockHeight_spec h b z :
  bi_ok b → bi_getBlockHeight h b = Some z ↔ 0 <= z ∧ b !! Z.to_nat z = Some h.
Proof.
  intros [Hnd Hl]. unfold bi_getBlockHeight. rewrite fmap_Some. split.
  - intros (n & Hn & ->). apply index_of_spec in Hn; [|done].
    pose proof (lookup_lt_Some _ _ _ Hn). rewrite u32_small by (unfold in_range; lia).
    split; [lia|]. by rewrite Nat2Z.id.
  - intros [Hz Hn]. pose proof (lookup_lt_Some _ _ _ Hn). exists (Z.to_nat z).
    split; [by apply index_of_spec|]. rewrite u32_small by (unfold in_range; lia). lia.
Qed.

Lemma getBlockHeight_None h b : bi_getBlockHeight h b = None ↔ h ∉ b.
Proof. unfold bi_getBlockHeight. rewrite fmap_None. apply index_of_None. Qed.

(** The hashes at distance 1, 2, 4, ... from the end. *)
Lemma sparse_loop_ret fuel : ∀ k e b,
  0 <= k → e < 2 ^ 33 → 0 <= e <= Z.of_nat (length b) → 34 <= k + Z.of_nat fuel → k <= 33 → (1 <= fuel)%nat →
  ∃ l, sparse_loop fuel (2 ^ k) e b = Ret l ∧
    ∀ j h, l !! j = Some h ↔ 2 ^ (k + Z.of_nat j) <= e ∧ b !! Z.to_nat (e - 2 ^ (k + Z.of_nat j)) = Some h.
Proof.
  induction fuel as [|fuel IH]; intros k e b Hk He33 He Hf Hk33 Hf1; [lia|]. cbn [sparse_loop].
  assert (1 <= 2 ^ k) by (pose proof (Z.pow_pos_nonneg 2 k); lia).
  destruct (Z.leb_spec (2 ^ k) e) as [Hle|Hgt].
  - assert (k < 33).
    { apply (Z.pow_lt_mono_r_iff 2); lia. }
    destruct (lookup_lt_is_Some_2 b (Z.to_nat (e - 2 ^ k))) as [h Hh]; [lia|].
    rewrite (at_Some b (e - 2 ^ k) h) by (done || lia). cbn [mbind outcome_bind].
    assert (2 ^ k * 2 = 2 ^ (k + 1)) as E2 by (rewrite Z.pow_add_r; lia).
    assert (2 ^ (k + 1) <= 2 ^ 33) by (apply Z.pow_le_mono_r; lia).
    rewrite E2, u64_small by (unfold in_range; lia).
    destruct (IH (k + 1) e b) as (l & -> & Hl); [lia..|].
    cbn [mbind outcome_bind]. exists (h :: l). split; [done|].
    intros [|j] h'; cbn [lookup list_lookup].
    + rewrite Z.add_0_r. split; [by intros [= <-]|]. intros [_ E]. congruence.
    + rewrite Hl. by replace (k + Z.of_nat (S j)) with (k + 1 + Z.of_nat j) by lia.
  - exists []. split; [done|]. intros j h. split; [done|]. intros [Hj _].
    assert (2 ^ k <= 2 ^ (k + Z.of_nat j)) by (apply Z.pow_le_mono_r; lia). lia.
Qed.

Lemma getBlockId_ret z b h :
  0 <= z → bi_getBlockId z b = Ret h ↔ b !! Z.to_nat z = Some h.
Proof.
  intros Hz. unfold bi_getBlockId. split.
  - intros E. apply outcome_bind_ret in E as (_ & _ & E). by apply at_ret in E as [_ E].
  - intros E. pose proof (lookup_lt_Some _ _ _ E). rewrite (proj2 (Z.ltb_lt _ _)) by lia.
    cbn [assert_ mbind outcome_bind]. by apply at_Some.
Qed.

(** The heights of a sparse chain for the block at height [s]. *)
Definition sparse_height (s z : Z) : Prop := z = 0 ∨ ∃ j : nat, z = s + 1 - 2 ^ Z.of_nat j ∧ 0 <= z.

Lemma buildSparseChain_ret start b s :
  bi_ok b → bi_getBlockHeight start b = Some s →
  ∃ l, bi_buildSparseChain start b = Ret l ∧ head l = Some start ∧ list.last l = b !! 0%nat ∧
    (∀ h, h ∈ l → ∃ z, sparse_height s z ∧ b !! Z.to_nat z = Some h) ∧
    (∀ z h, sparse_height s z → b !! Z.to_nat z = Some h → h ∈ l).
Proof.
  intros Hok Hs. pose proof Hok as [Hnd Hl]. unfold bi_buildSparseChain. rewrite Hs.
  apply getBlockHeight_spec in Hs as [H0 Hs]; [|done]. pose proof (lookup_lt_Some _ _ _ Hs) as Hlt.
  rewrite u32_small by (unfold in_range; lia).
  destruct (sparse_loop_ret 34 0 (s + 1) b) as (l & E & Hls); [lia..|].
  change (2 ^ 0) with 1 in E. rewrite E. clear E. cbn [mbind outcome_bind].
  assert (l !! 0%nat = Some start) as Hhd.
  { apply Hls. change (2 ^ (0 + Z.of_nat 0)) with 1. split; [lia|].
    by replace (s + 1 - 1) with s by lia. }
  destruct (lookup_lt_is_Some_2 b 0) as [g Hg]; [lia|].
  assert (∀ h, h ∈ l ↔ ∃ j : nat, 2 ^ Z.of_nat j <= s + 1 ∧
    b !! Z.to_nat (s + 1 - 2 ^ Z.of_nat j) = Some h) as Hmem.
  { intros h. rewrite list_elem_of_lookup. split; intros (j & Hj); exists j; by apply Hls. }
  destruct (list.last l) as [back|] eqn:El.
  2: { apply last_None in El. by rewrite El in Hhd. }
  rewrite (at_Some b 0 g) by done. cbn [mbind outcome_bind].
  set (r := if negb (bool_decide (back = g)) then l ++ [g] else l).
  assert (head r = Some start ∧ list.last r = Some g ∧ ∀ h, h ∈ r ↔ h ∈ l ∨ h = g) as (Hr1 & Hr2 & Hr3).
  { subst r. case_bool_decide as E; cbn [negb].
    - subst back. split_and!; [by destruct l|done|]. intros h. split; [tauto|].
      intros [?| ->]; [done|]. apply last_Some in El as (l' & ->).
      apply elem_of_app. right. by apply list_elem_of_singleton.
    - split_and!; [by destruct l|apply last_snoc|]. intros h.
      by rewrite elem_of_app, list_elem_of_singleton. }
  exists r. rewrite Hg. split_and!; [done..| |].
  - intros h [Hh| ->]%Hr3; [|exists 0; by split; [left|]].
    apply Hmem in Hh as (j & Hj & Hh). eexists. split; [|exact Hh]. right. exists j. lia.
  - intros z h [->|(j & -> & Hj)] Hz; apply Hr3; [right|left].
    + change (Z.to_nat 0) with 0%nat in Hz. congruence.
    + apply Hmem. exists j. split; [lia|done].
Qed.

Lemma findSupplement_spec ids b :
  match bi_findSupplement ids b with
  | None => ∀ id, id ∈ ids → id ∉ b
  | Some o => ∃ id, id ∈ ids ∧ bi_getBlockHeight id b = Some o
  end.
Proof.
  induction ids as [|id ids IH]; cbn [bi_findSupplement]; [by intros id Hid%not_elem_of_nil|].
  destruct (bi_getBlockHeight id b) as [o|] eqn:E.
  { exists id. split; [left|done]. }
  apply getBlockHeight_None in E. destruct (bi_findSupplement ids b) as [o|].
  - destruct IH as (id' & Hin & Ho). exists id'. split; [by right|done].
  - intros id' [->|Hin]%elem_of_cons; [done|by apply IH].
Qed.

(** ** Properties *)

(** heights and hashes of the main chain are inverse to each other, and
    adding a new hash or removing the last one keeps them so. *)
Theorem block_index_bijection b :
  bi_ok b →
  (∀ h z, 0 <= z → bi_getBlockHeight h b = Some z ↔ bi_getBlockId z b = Ret h) ∧
  (∀ h, bi_hasBlock h b = true ↔ ∃ z, 0 <= z ∧ bi_getBlockHeight h b = Some z) ∧
  (∀ h, bi_hasBlock h b = false → Z.of_nat (length b) + 1 < 2 ^ 32 →
     (bi_push h b).1 = true ∧ bi_ok (bi_push h b).2 ∧
     bi_getBlockHeight h (bi_push h b).2 = Some (bi_size b) ∧ bi_pop (bi_push h b).2 = b) ∧
  bi_ok (bi_pop b).
Proof.
  intros Hok. pose proof Hok as [Hnd Hl]. split_and!.
  - intros h z Hz. rewrite getBlockId_ret, getBlockHeight_spec by done. split; [by intros [_ ?]|done].
  - intros h. unfold bi_hasBlock. rewrite bool_decide_eq_true. split.
    + intros (n & Hn)%list_elem_of_lookup. exists (Z.of_nat n). split; [lia|].
      apply getBlockHeight_spec; [done|]. rewrite Nat2Z.id. split; [lia|done].
    + intros (z & _ & Hz). apply getBlockHeight_spec in Hz as [_ Hz]; [|done].
      by eapply list_elem_of_lookup_2.
  - intros h Hh%bool_decide_eq_false Hlen. unfold bi_push. rewrite bool_decide_false by done.
    cbn [fst snd]. assert (bi_ok (b ++ [h])) as Hok'.
    { split; [|rewrite length_app; cbn; lia]. apply list.NoDup_app. split; [done|].
      split; [|apply NoDup_singleton]. by intros x Hx ->%list_elem_of_singleton. }
    split_and!; [done..| |].
    + apply getBlockHeight_spec; [done|]. unfold bi_size.
      rewrite u32_small by (unfold in_range; lia). split; [lia|].
      rewrite Nat2Z.id. by apply list_lookup_middle.
    + unfold bi_pop. rewrite length_app. cbn [length]. by rewrite Nat.add_sub, take_app_length.
  - unfold bi_pop. split; [|rewrite length_take; lia].
    rewrite <- (take_drop (length b - 1) b) in Hnd. by apply list.NoDup_app in Hnd as [? _].
Qed.

Lemma block_index_bijection_witness :
  let b := [[1]; [2]; [3]] in
  (∀ h z, 0 <= z → bi_getBlockHeight h b = Some z ↔ bi_getBlockId z b = Ret h) ∧
  bi_ok (bi_pop b).
Proof.
  intros b. assert (bi_ok b) as Hb by (split; [apply (bool_decide_unpack _); by vm_compute|done]).
  split; [exact (proj1 (block_index_bijection b Hb))|].
  exact (proj2 (proj2 (proj2 (block_index_bijection b Hb)))).
Defined.

(** the sparse chain of a block starts with the block, ends with the
    genesis block and holds blocks of the chain at distances that double; a
    peer whose chain has the same genesis block finds a supplement in it, at the
    height of a block both chains have. *)
Theorem sparse_chain_finds_supplement b b' start s :
  bi_ok b → bi_ok b' → bi_getBlockHeight start b = Some s → b !! 0%nat = b' !! 0%nat →
  ∃ chain, bi_buildSparseChain start b = Ret chain ∧
    head chain = Some start ∧ list.last chain = b !! 0%nat ∧
    (∀ h, h ∈ chain → ∃ z, sparse_height s z ∧ b !! Z.to_nat z = Some h) ∧
    ∃ offset h, bi_findSupplement chain b' = Some offset ∧ 0 <= offset ∧
      b' !! Z.to_nat offset = Some h ∧ h ∈ b ∧ h ∈ chain.
Proof.
  intros Hb Hb' Hs Hg. destruct (buildSparseChain_ret start b s Hb Hs) as (l & E & Hhd & Hlast & Hin & _).
  exists l. split_and!; [done..|]. pose proof (findSupplement_spec l b') as Hf.
  assert (∃ g, b' !! 0%nat = Some g ∧ g ∈ l) as (g & Hg0 & Hgl).
  { rewrite <- Hg, <- Hlast. destruct l as [|x l _] using rev_ind; [done|].
    rewrite last_snoc. exists x. split; [done|]. apply elem_of_app. right. by left. }
  destruct (bi_findSupplement l b') as [o|].
  - destruct Hf as (h & Hh & Ho). apply getBlockHeight_spec in Ho as [Ho0 Ho]; [|done].
    exists o, h. split_and!; [done..| |done].
    destruct (Hin h Hh) as (z & _ & Hz). by eapply list_elem_of_lookup_2.
  - destruct (Hf g Hgl). by eapply list_elem_of_lookup_2.
Qed.

Lemma sparse_chain_finds_supplement_witness :
  let b := [[0]; [1]; [2]; [3]; [4]; [5]] in
  let b' := [[0]; [1]; [2]; [9]; [8]] in
  ∃ chain, bi_buildSparseChain [5] b = Ret chain ∧ head chain = Some [5] ∧
    ∃ offset h, bi_findSupplement chain b' = Some offset ∧ b' !! Z.to_nat offset = Some h ∧ h ∈ b.
Proof.
  intros b b'.
  destruct (sparse_chain_finds_supplement b b' [5] 5) as (chain & E & Hh & _ & _ & o & h & H1 & _ & H2 & H3 & _).
  - split; [apply (bool_decide_unpack _); by vm_compute|done].
  - split; [apply (bool_decide_unpack _); by vm_compute|done].
  - reflexivity.
  - reflexivity.
  - exists chain. split; [exact E|]. split; [exact Hh|]. exists o, h. split_and!; [exact H1|exact H2|exact H3].
Defined.
