(* ===== verification/Checkpoints.v ===== *)
(** * Checkpoints

    [src/src/CryptoNoteCore/Checkpoints.cpp]: the known hashes of the main chain
    and the rule that limits how deep an alternative chain may start. The
    [std::map] is the list of its pairs in the order of the heights. *)

From S2P Require Import Prelude StringTools Amounts Config CryptoNoteTypes.
From stdpp Require Import sorting.

Local Open Scope Z_scope.

Definition Checkpoints := list (Z * Hash).

(** [std::map]: insertion of a key that is absent. *)
Fixpoint map_insert (k : Z) (v : Hash) (m : Checkpoints) : Checkpoints :=
  match m with
  | [] => [(k, v)]
  | (k', v') :: m' => if k <? k' then (k, v) :: m else (k', v') :: map_insert k v m'
  end.

Fixpoint map_find (k : Z) (m : Checkpoints) : option Hash :=
  match m with
  | [] => None
  | (k', v) :: m' => if k' =? k then Some v else map_find k m'
  end.

(** [add_checkpoint]: the result and the points. *)
Definition add_checkpoint (height : Z) (hash_str : list Z) (m_points : Checkpoints)
    : outcome (bool * Checkpoints) :=
  r ← podFromHex 32 hash_str;
  mret (match r with
        | None => (false, m_points)
        | Some h =>
            match map_find height m_points with
            | Some _ => (false, m_points)
            | None => (true, map_insert height h m_points)
            end
        end).

(** The greatest key. *)
Definition is_in_checkpoint_zone (height : Z) (m_points : Checkpoints) : bool :=
  match list.last m_points with
  | None => false
  | Some (k, _) => height <=? k
  end.

(** [check_block]: the result and [is_a_checkpoint]. *)
Definition check_block (height : Z) (h : Hash) (m_points : Checkpoints) : bool * bool :=
  match map_find height m_points with
  | None => (true, false)
  | Some h' => (bool_decide (h' = h), true)
  end.

(** [m_points.upper_bound(height)] and one step back: the last key that is not
    above the height. *)
Fixpoint last_not_above (height : Z) (m_points : Checkpoints) : option Z :=
  match m_points with
  | [] => None
  | (k, _) :: m' =>
      if height <? k then None
      else Some (match last_not_above height m' with Some k' => k' | None => k end)
  end.

Definition is_alternative_block_allowed (blockchain_height block_height : Z) (m_points : Checkpoints)
    : bool :=
  if 0 =? block_height then false
  else if (block_height <? u64 (blockchain_height - CRYPTONOTE_MINED_MONEY_UNLOCK_WINDOW)) &&
          negb (is_in_checkpoint_zone block_height m_points) then false
  else match last_not_above blockchain_height m_points with
       | None => true
       | Some checkpoint_height => checkpoint_height <? block_height
       end.

Definition getCheckpointHeights (m_points : Checkpoints) : list Z := fst <$> m_points.

(** [load_checkpoints]: the results of the single calls are ignored. *)
Fixpoint load_checkpoints (cps : list (Z * list Z)) (m_points : Checkpoints) : outcome Checkpoints :=
  match cps with
  | [] => mret m_points
  | (height, blockId) :: cps' =>
      '(_, m_points) ← add_checkpoint height blockId m_points;
      load_checkpoints cps' m_points
  end.

(** ** Checkpoints from name servers and from files *)

Fixpoint span_digits (s : list Z) : list Z * list Z :=
  match s with
  | c :: s' => if isdigit c then let '(ds, rest) := span_digits s' in (c :: ds, rest) else ([], s)
  | [] => ([], [])
  end.

(** A decimal integer at the head of a text as the standard library reads it, with
    [operator>>] and [std::stoi]: white space, a sign and digits. The sign, the
    absolute value and the rest; [None] without digits. *)
Definition read_integer (s : list Z) : option (bool * Z * list Z) :=
  let s := drop_spaces s in
  let '(negative, s) := match s with
    | c :: s' => if c =? 45 then (true, s') else if c =? 43 then (false, s') else (false, s)
    | [] => (false, [])
    end in
  match span_digits s with
  | ([], _) => None
  | (ds, rest) => Some (negative, decimal_value ds, rest)
  end.

(** One record of [load_checkpoints_from_dns]: a height, a colon and a hash. The
    extraction of an unsigned height negates modulo [2^32]. *)
Definition load_dns_record (record : list Z) (m_points : Checkpoints) : outcome Checkpoints :=
  match find_char 58 record 0 with
  | None => mret m_points
  | Some del =>
      let height_str := take (Z.to_nat del) record in
      let hash_str := take 64 (drop (Z.to_nat del + 1) record) in
      match read_integer height_str with
      | Some (negative, v, []) =>
          if UINT32_MAX <? v then mret m_points
          else
            let height := if negative : bool then u32 (- v) else v in
            r ← podFromHex 32 hash_str;
            match r with
            | None => mret m_points
            | Some _ =>
                match map_find height m_points with
                | Some _ => mret m_points
                | None => '(_, m_points) ← add_checkpoint height hash_str m_points; mret m_points
                end
            end
      | _ => mret m_points
      end
  end.

(** [load_checkpoints_from_dns]; [records] is what the name servers answer. *)
Fixpoint load_checkpoints_from_dns (records : list (list Z)) (m_points : Checkpoints) : outcome Checkpoints :=
  match records with
  | [] => mret m_points
  | record :: records' =>
      m_points ← load_dns_record record m_points;
      load_checkpoints_from_dns records' m_points
  end.

(** [std::stoi], converted to [uint32_t]; a number that is not an [int] throws, and
    [inl] is [std::invalid_argument]. *)
Definition stoi (s : list Z) : outcome (unit + Z) :=
  match read_integer s with
  | None => mret (inl ())
  | Some (negative, v, _) =>
      let z := if negative : bool then - v else v in
      if (z <? - 2 ^ 31) || (2 ^ 31 - 1 <? z) then Throw "std::out_of_range" else mret (inr (u32 z))
  end.

(** The loop of [load_checkpoints_from_file] over the bytes that are left. Each
    round reads up to a comma and then up to the end of the line. *)
Fixpoint load_file_loop (fuel : nat) (s : list Z) (m_points : Checkpoints) : outcome (bool * Checkpoints) :=
  match fuel with
  | O => mret (true, m_points)
  | S fuel =>
      match find_char 44 s 0 with
      | None => mret (true, m_points)
      | Some p =>
          let indexString := take (Z.to_nat p) s in
          let s := drop (Z.to_nat p + 1) s in
          match s with
          | [] => mret (true, m_points)
          | _ =>
              let '(hash, s) := match find_char 10 s 0 with
                | None => (s, [])
                | Some q => (take (Z.to_nat q) s, drop (Z.to_nat q + 1) s)
                end in
              r ← stoi indexString;
              match r with
              | inl _ => mret (false, m_points)
              | inr height =>
                  '(ok, m_points) ← add_checkpoint height hash m_points;
                  if ok : bool then load_file_loop fuel s m_points else mret (false, m_points)
              end
          end
      end
  end.

(** [load_checkpoints_from_file]; [None] is a file that cannot be opened. *)
Definition load_checkpoints_from_file (file : option (list Z)) (m_points : Checkpoints)
    : outcome (bool * Checkpoints) :=
  match file with
  | None => mret (false, m_points)
  | Some bytes => load_file_loop (length bytes) bytes m_points
  end.

(** ** Proofs *)

(** The keys of a [std::map] are strictly increasing. *)
Definition cp_ok (m : Checkpoints) : Prop := StronglySorted Z.lt (fst <$> m).

Lemma map_insert_elem k v m x : x ∈ map_insert k v m ↔ x = (k, v) ∨ x ∈ m.
Proof.
  induction m as [|[k' v'] m IH]; cbn [map_insert].
  - rewrite list_elem_of_singleton. split; [by left|]. by intros [?|?%not_elem_of_nil].
  - case_bool; rewrite !elem_of_cons; [done|]. rewrite IH. tauto.
Qed.

Lemma map_find_elem m k v : cp_ok m → map_find k m = Some v ↔ (k, v) ∈ m.
Proof.
  unfold cp_ok. induction m as [|[k' v'] m IH]; intros Hs; cbn [map_find fmap list_fmap fst] in *.
  - split; [done|]. by intros ?%not_elem_of_nil.
  - apply StronglySorted_inv in Hs as [Hs Hf]. rewrite elem_of_cons.
    destruct (Z.eqb_spec k' k) as [->|Hne].
    + split; [intros [= ->]; by left|]. intros [[= ->]|Hin]; [done|].
      rewrite Forall_fmap, Forall_forall in Hf. specialize (Hf _ Hin). cbn in Hf. lia.
    + rewrite IH by done. split; [by right|]. by intros [[= -> ->]|].
Qed.

Lemma map_insert_ok k v m : cp_ok m → map_find k m = None → cp_ok (map_insert k v m).
Proof.
  unfold cp_ok. induction m as [|[k' v'] m IH]; intros Hs Hn; cbn [map_insert].
  - repeat constructor.
  - cbn [map_find fmap list_fmap fst] in *. apply StronglySorted_inv in Hs as Hs'.
    destruct Hs' as [Hs' Hf]. destruct (Z.eqb_spec k' k) as [|Hne]; [done|]. case_bool; cbn [fmap list_fmap fst].
    + constructor; [done|]. constructor; [done|].
      eapply Forall_impl; [exact Hf|]. intros ? ?. lia.
    + constructor; [by apply IH|]. apply Forall_fmap, Forall_forall. intros [k1 v1] Hin.
      apply map_insert_elem in Hin as [[= -> ->]|Hin]; cbn; [lia|].
      rewrite Forall_fmap, Forall_forall in Hf. by apply (Hf (k1, v1)).
Qed.

Lemma last_greatest m k v k' v' :
  cp_ok m → list.last m = Some (k, v) → (k', v') ∈ m → k' <= k.
Proof.
  intros Hs Hl Hin. apply last_Some in Hl as (l & ->). unfold cp_ok in Hs.
  rewrite fmap_app in Hs. apply elem_of_app in Hin as [Hin|Hin%list_elem_of_singleton].
  - assert (k' < k); [|lia]. eapply StronglySorted_app_1_elem_of; [exact Hs| |].
    + apply list_elem_of_fmap. by exists (k', v').
    + by left.
  - injection Hin as -> ->. lia.
Qed.

Lemma zone_spec h m :
  cp_ok m → is_in_checkpoint_zone h m = true ↔ ∃ k v, (k, v) ∈ m ∧ h <= k.
Proof.
  intros Hs. unfold is_in_checkpoint_zone. destruct (list.last m) as [[k v]|] eqn:El.
  - rewrite Z.leb_le. split.
    + intros Hh. exists k, v. split; [|done]. apply last_Some in El as (l & ->).
      apply elem_of_app. right. by left.
    + intros (k' & v' & Hin & Hh). pose proof (last_greatest m k v k' v' Hs El Hin). lia.
  - apply last_None in El as ->. split; [done|]. by intros (k & v & ?%not_elem_of_nil & _).
Qed.

Lemma last_not_above_spec height m :
  cp_ok m →
  match last_not_above height m with
  | None => ∀ k v, (k, v) ∈ m → height < k
  | Some c => c <= height ∧ (∃ v, (c, v) ∈ m) ∧ ∀ k v, (k, v) ∈ m → k <= height → k <= c
  end.
Proof.
  unfold cp_ok. induction m as [|[k0 v0] m IH]; intros Hs; cbn [last_not_above fmap list_fmap fst] in *.
  { by intros k v ?%not_elem_of_nil. }
  apply StronglySorted_inv in Hs as [Hs Hf]. rewrite Forall_fmap, Forall_forall in Hf.
  destruct (Z.ltb_spec height k0) as [Hlt|Hge].
  - intros k v [[= -> ->]|Hin]%elem_of_cons; [done|]. specialize (Hf _ Hin). cbn in Hf. lia.
  - specialize (IH Hs). destruct (last_not_above height m) as [c|].
    + destruct IH as (Hc & (v & Hv) & Hmax). split; [done|]. split; [exists v; by right|].
      intros k v' [[= -> ->]|Hin]%elem_of_cons Hk; [|by eapply Hmax].
      specialize (Hf _ Hv). cbn in Hf. lia.
    + split; [done|]. split; [exists v0; by left|].
      intros k v [[= -> ->]|Hin]%elem_of_cons Hk; [done|]. specialize (IH k v Hin). lia.
Qed.

Lemma checkpoint_below height h m :
  cp_ok m →
  match last_not_above height m with None => true | Some c => c <? h end = true ↔
  ∀ k v, (k, v) ∈ m → k <= height → k < h.
Proof.
  intros Hs. pose proof (last_not_above_spec height m Hs) as Hl.
  destruct (last_not_above height m) as [c|].
  - destruct Hl as (Hc & (v & Hv) & Hmax). rewrite Z.ltb_lt. split.
    + intros Hch k v' Hin Hk. specialize (Hmax k v' Hin Hk). lia.
    + intros Hall. by apply (Hall c v).
  - split; [|done]. intros _ k v Hin Hk. specialize (Hl k v Hin). lia.
Qed.

(** One point more, or none. *)
Lemma add_checkpoint_spec height text m :
  cp_ok m → ∃ ok m', add_checkpoint height text m = Ret (ok, m') ∧ cp_ok m' ∧
    (∀ k v, (k, v) ∈ m → (k, v) ∈ m') ∧
    (ok = true → ∃ h, podFromHex 32 text = Ret (Some h) ∧ map_find height m' = Some h).
Proof.
  intros Hs. unfold add_checkpoint. destruct (podFromHex_total 32 text) as (r & ->). cbn [mbind outcome_bind].
  destruct r as [h|]; [|by exists false, m]. destruct (map_find height m) as [h'|] eqn:E; [by exists false, m|].
  exists true, (map_insert height h m). split; [done|]. pose proof (map_insert_ok height h m Hs E) as Hok.
  split; [done|]. split.
  - intros k v Hin. apply map_insert_elem. by right.
  - intros _. exists h. split; [done|]. apply map_find_elem; [done|]. apply map_insert_elem. by left.
Qed.

Lemma load_dns_record_spec record m :
  cp_ok m → ∃ m', load_dns_record record m = Ret m' ∧ cp_ok m' ∧ ∀ k v, (k, v) ∈ m → (k, v) ∈ m'.
Proof.
  intros Hs. unfold load_dns_record. destruct (find_char 58 record 0) as [del|]; [|by exists m]. cbv zeta.
  destruct (read_integer _) as [[[negative v] [|? ?]]|]; [|by exists m..]. case_bool; [by exists m|].
  match goal with |- context [podFromHex 32 ?t] => destruct (podFromHex_total 32 t) as (r & ->);
    destruct (add_checkpoint_spec (if negative then u32 (- v) else v) t m Hs) as (ok & m' & Ea & Hok & Hk & _) end.
  cbn [mbind outcome_bind]. destruct r; [|by exists m]. destruct (map_find _ m); [by exists m|].
  rewrite Ea. cbn [mbind outcome_bind]. by exists m'.
Qed.

Lemma load_dns_spec records : ∀ m, cp_ok m →
  ∃ m', load_checkpoints_from_dns records m = Ret m' ∧ cp_ok m' ∧ ∀ k v, (k, v) ∈ m → (k, v) ∈ m'.
Proof.
  induction records as [|record records IH]; intros m Hs; cbn [load_checkpoints_from_dns]; [by exists m|].
  destruct (load_dns_record_spec record m Hs) as (m1 & -> & Hs1 & Hk1). cbn [mbind outcome_bind].
  destruct (IH m1 Hs1) as (m2 & E2 & Hs2 & Hk2). exists m2. split; [done|]. split; [done|]. eauto.
Qed.

Lemma span_digits_all s : forallb isdigit s = true → span_digits s = (s, []).
Proof.
  induction s as [|c s IH]; [done|]. cbn [forallb span_digits]. intros [-> E]%andb_true_iff. by rewrite (IH E).
Qed.

Lemma read_integer_to_string n : is_u64 n → read_integer (to_string n) = Some (false, n, []).
Proof.
  intros Hn. destruct (to_string_spec n Hn) as (Hd & Hv & Hne). unfold read_integer.
  assert (drop_spaces (to_string n) = to_string n) as ->.
  { apply digits_no_space in Hd as [Hs _]. destruct (to_string n) as [|x s]; [done|].
    inversion Hs as [|? ? Hx]; subst. cbn [drop_spaces]. unfold no_space in Hx. by rewrite Hx. }
  destruct (to_string n) as [|x s] eqn:E; [done|]. pose proof Hd as Hd'. cbn [forallb] in Hd'.
  apply andb_true_iff in Hd' as [Hx _]. unfold isdigit in Hx. apply andb_true_iff in Hx as [Hx1 Hx2]. bool_to_prop.
  rewrite (proj2 (Z.eqb_neq x 45)), (proj2 (Z.eqb_neq x 43)) by lia. rewrite (span_digits_all _ Hd).
  by rewrite Hv.
Qed.

(** A record in the form the operators publish. *)
Lemma load_dns_record_add height h text m :
  is_u32 height → map_find height m = None → hex_decode text = Some h → length text = 64%nat → length h = 32%nat →
  load_dns_record (to_string height ++ 58 :: text) m = Ret (map_insert height h m).
Proof.
  intros Hh Hn Hd Hl Hl2. assert (is_u64 height) as Hh' by (unfold in_range in *; lia). unfold load_dns_record, find_char.
  destruct (to_string_spec height Hh') as (Hds & _). rewrite find_from_app; [| |done].
  2: { intros Hin. rewrite forallb_forall in Hds. apply list_elem_of_In, Hds in Hin. done. }
  cbv zeta. rewrite Z.add_0_l, Nat2Z.id, take_app_length, <- drop_drop, drop_app_length. cbn [drop skipn].
  rewrite read_integer_to_string by done. unfold in_range in Hh. case_bool; [unfold UINT32_MAX in *; lia|].
  rewrite drop_0, (take_ge text 64) by (rewrite Hl; done). unfold add_checkpoint.
  rewrite (proj2 (podFromHex_iff 32 text h)) by (split; [done|lia]). cbn [mbind outcome_bind].
  rewrite Hn. done.
Qed.

(** ** Properties *)

(** from height 15 on, an alternative block is allowed exactly when it is
    not the genesis block, when it starts at most 15 blocks below the top or
    lies in the checkpoint zone, and when every checkpoint the chain has passed
    lies below it. Adding a checkpoint keeps the points sorted, never replaces
    one, and makes the check of its height insist on its hash. *)
Theorem checkpoints_rule m blockchain_height block_height :
  cp_ok m → is_u32 blockchain_height → is_u32 block_height → 15 <= blockchain_height →
  (is_alternative_block_allowed blockchain_height block_height m = true ↔
   0 < block_height ∧
   (blockchain_height - 15 <= block_height ∨ ∃ k v, (k, v) ∈ m ∧ block_height <= k) ∧
   ∀ k v, (k, v) ∈ m → k <= blockchain_height → k < block_height) ∧
  (∀ height text h, podFromHex 32 text = Ret (Some h) → map_find height m = None →
     ∃ m', add_checkpoint height text m = Ret (true, m') ∧ cp_ok m' ∧
       ∀ h', check_block height h' m' = (bool_decide (h = h'), true)).
Proof.
  intros Hs HH Hh H15. unfold in_range in *. split.
  - unfold is_alternative_block_allowed, CRYPTONOTE_MINED_MONEY_UNLOCK_WINDOW.
    rewrite u64_small by (unfold in_range; lia).
    destruct (Z.eqb_spec 0 block_height) as [<-|Hne]; [split; [done|lia]|].
    rewrite <- checkpoint_below, <- (zone_spec block_height m Hs) by done.
    destruct (Z.ltb_spec block_height (blockchain_height - 15)) as [Hlt|Hge]; cbn [andb].
    + destruct (is_in_checkpoint_zone block_height m); cbn [negb]; split.
      * intros ?. split; [lia|]. split; [by right|done].
      * by intros (_ & _ & ?).
      * done.
      * intros (_ & [?|?] & _); [lia|done].
    + split; [|by intros (_ & _ & ?)]. intros ?. split; [lia|]. split; [by left|done].
  - intros height text h Hp Hn. unfold add_checkpoint. rewrite Hp. cbn [mbind outcome_bind].
    rewrite Hn. eexists. split; [done|]. split; [by apply map_insert_ok|]. intros h'.
    unfold check_block. rewrite (proj2 (map_find_elem (map_insert height h m) height h
      ltac:(by apply map_insert_ok))); [done|]. apply map_insert_elem. by left.
Qed.

Lemma checkpoints_rule_witness :
  is_alternative_block_allowed 100 90 [(0, [1]); (50, [2])] = true ∧
  is_alternative_block_allowed 100 40 [(0, [1]); (50, [2])] = false.
Proof.
  assert (cp_ok [(0, [1]); (50, [2])]) as Hs by (repeat constructor; lia).
  split.
  - apply (checkpoints_rule _ 100 90 Hs); [by vm_compute|by vm_compute|lia|].
    split; [lia|]. split; [left; lia|].
    intros k v [[= -> ->]|[[= -> ->]|?%not_elem_of_nil]%elem_of_cons]%elem_of_cons _; done.
  - destruct (is_alternative_block_allowed 100 40 _) eqn:E; [|reflexivity].
    apply (checkpoints_rule _ 100 40 Hs) in E as (_ & _ & Hall); [|by vm_compute|by vm_compute|lia].
    exfalso. assert (50 < 40); [|lia]. apply (Hall 50 [2]); [right; left|lia].
Defined.

(** below height 15 the subtraction of the window wraps around, so with the
    checkpoints of the release, which has only the genesis block, no alternative
    block at all is allowed. *)
Theorem no_alternative_below_window blockchain_height block_height h :
  0 <= blockchain_height < 15 → is_u32 block_height →
  is_alternative_block_allowed blockchain_height block_height [(0, h)] = false.
Proof.
  intros HH Hh. unfold in_range in Hh. unfold is_alternative_block_allowed.
  destruct (Z.eqb_spec 0 block_height); [done|].
  assert (u64 (blockchain_height - CRYPTONOTE_MINED_MONEY_UNLOCK_WINDOW) =
    blockchain_height - 15 + 2 ^ 64) as ->.
  { unfold u64, wrap, CRYPTONOTE_MINED_MONEY_UNLOCK_WINDOW. symmetry.
    apply (Z.mod_unique_pos _ _ (-1)); lia. }
  rewrite (proj2 (Z.ltb_lt _ _)) by lia. cbn [is_in_checkpoint_zone list.last andb].
  by rewrite (proj2 (Z.leb_gt _ _)) by lia.
Qed.

Lemma no_alternative_below_window_witness :
  is_alternative_block_allowed 10 9 [(0, [7])] = false.
Proof. apply no_alternative_below_window; [lia|by vm_compute]. Defined.

(** loading checkpoints from name servers always returns, keeps every point there
    was and the order of the points, and adds the point of a record that has a height
    and the hash in hexadecimal digits. *)
Theorem dns_checkpoints_sound records height h text m :
  cp_ok m → is_u32 height → hex_decode text = Some h → length text = 64%nat → length h = 32%nat →
  ∃ m', load_checkpoints_from_dns ((to_string height ++ 58 :: text) :: records) m = Ret m' ∧ cp_ok m' ∧
    (∀ k v, (k, v) ∈ m → (k, v) ∈ m') ∧ (map_find height m = None → map_find height m' = Some h).
Proof.
  intros Hs Hh Hd Hl Hl2. cbn [load_checkpoints_from_dns].
  destruct (load_dns_record_spec (to_string height ++ 58 :: text) m Hs) as (m1 & E1 & Hs1 & Hk1).
  destruct (load_dns_spec records m1 Hs1) as (m2 & E2 & Hs2 & Hk2). rewrite E1. cbn [mbind outcome_bind].
  exists m2. split; [done|]. split; [done|]. split; [eauto|]. intros Hn.
  rewrite (load_dns_record_add height h text m) in E1 by done. injection E1 as <-.
  apply map_find_elem; [done|]. apply Hk2, map_insert_elem. by left.
Qed.

Lemma dns_checkpoints_sound_witness :
  ∃ m', load_checkpoints_from_dns [to_string 77 ++ 58 :: replicate 64 48] [] = Ret m' ∧
    map_find 77 m' = Some (replicate 32 0).
Proof.
  edestruct (dns_checkpoints_sound [] 77 (replicate 32 0) (replicate 64 48) []) as (m' & E & _ & _ & Hf);
    [constructor|by vm_compute|vm_compute; reflexivity|reflexivity|reflexivity|].
  exists m'. split; [exact E|by apply Hf].
Defined.

(** a height that does not fit an [int] in a file of checkpoints is not reported as
    a wrong format: the exception of [std::stoi] leaves [load_checkpoints_from_file]. *)
Theorem file_height_throws v rest m :
  is_u64 v → 2 ^ 31 <= v → rest ≠ [] →
  load_checkpoints_from_file (Some (to_string v ++ 44 :: rest)) m = Throw "std::out_of_range".
Proof.
  intros Hv Hbig Hr. destruct (to_string_spec v Hv) as (Hds & _ & Hne). cbn [load_checkpoints_from_file].
  rewrite length_app. cbn [length]. rewrite Nat.add_succ_r. cbn [load_file_loop]. unfold find_char.
  rewrite find_from_app; [| |done].
  2: { intros Hin. rewrite forallb_forall in Hds. apply list_elem_of_In, Hds in Hin. done. }
  rewrite Z.add_0_l, Nat2Z.id, take_app_length, <- drop_drop, drop_app_length. cbn [drop skipn].
  unfold stoi. rewrite read_integer_to_string by done. destruct rest as [|x rest]; [done|].
  destruct (match find_from 10 (x :: rest) 0 0 with None => _ | Some q => _ end) as [hash s].
  rewrite (proj2 (Z.ltb_ge v (- 2 ^ 31))), (proj2 (Z.ltb_lt (2 ^ 31 - 1) v)) by lia. done.
Qed.

Lemma file_height_throws_witness :
  load_checkpoints_from_file (Some (to_string 4000000000 ++ [44; 48; 48])) [] = Throw "std::out_of_range".
Proof. apply file_height_throws; [by vm_compute|lia|done]. Defined.
