(* ===== verification/UpgradeDetector.v ===== *)
(** * Upgrade detector

    [src/src/CryptoNoteCore/UpgradeDetector.h]: voting for a new major version
    by the minor version of blocks, or an upgrade at a fixed height. The
    blockchain is the list of the (major, minor) versions of its blocks. The
    parts that only print are left out. *)

From S2P Require Import Prelude Config Currency.

Local Open Scope Z_scope.

Definition UNDEF_HEIGHT : Z := UINT32_MAX.

Section Detector.
Variables (c : Currency) (m_targetVersion : Z).
Abbreviation chain := (list (Z * Z)).

(** [m_blockchain.back().bl.majorVersion]. *)
Definition back_major (bc : chain) : outcome Z :=
  match list.last bc with None => Abort | Some b => mret b.1 end.

Definition chain_size (bc : chain) : Z := Z.of_nat (length bc).

(** The votes of the blocks [i .. height]. *)
Definition is_vote (b : Z * Z) : bool :=
  (b.1 =? m_targetVersion - 1) && (b.2 =? BLOCK_MINOR_VERSION_1).

Fixpoint count_votes (n : nat) (i : Z) (bc : chain) (voteCounter : Z) : outcome Z :=
  match n with
  | O => mret voteCounter
  | S n' =>
      b ← at_ bc i;
      count_votes n' (i + 1) bc (u64 (voteCounter + Z.b2z (is_vote b)))
  end.

Definition getNumberOfVotes (height : Z) (bc : chain) : outcome Z :=
  let W := m_upgradeVotingWindow c in
  if height <? u32 (W - 1) then mret 0
  else
    let first := u32 (u32 (height + 1) - W) in
    count_votes (Z.to_nat (height + 1 - first)) first bc 0.

Definition isVotingComplete (height : Z) (bc : chain) : outcome bool :=
  assert_ (upgradeHeight c m_targetVersion =? UNDEF_HEIGHT);;
  assert_ (1 <? m_upgradeVotingWindow c);;
  assert_ ((0 <? m_upgradeVotingThreshold c) && (m_upgradeVotingThreshold c <=? 100));;
  voteCounter ← getNumberOfVotes height bc;
  mret (u32 (m_upgradeVotingThreshold c * m_upgradeVotingWindow c) <=? u64 (100 * voteCounter)).

Fixpoint find_complete (n : nat) (i : Z) (bc : chain) : outcome Z :=
  match n with
  | O => mret UNDEF_HEIGHT
  | S n' =>
      b ← isVotingComplete (u32 i) bc;
      if b : bool then mret (u32 i) else find_complete n' (i + 1) bc
  end.

Definition findVotingCompleteHeight (probableUpgradeHeight : Z) (bc : chain) : outcome Z :=
  assert_ (upgradeHeight c m_targetVersion =? UNDEF_HEIGHT);;
  let first := if maxUpgradeDistance c <? probableUpgradeHeight
               then probableUpgradeHeight - maxUpgradeDistance c else 0 in
  find_complete (Z.to_nat (probableUpgradeHeight + 1 - first)) first bc.

(** [upgradeHeight()] of the detector. *)
Definition detector_upgradeHeight (m_votingCompleteHeight : Z) : Z :=
  if upgradeHeight c m_targetVersion =? UNDEF_HEIGHT then
    if m_votingCompleteHeight =? UNDEF_HEIGHT then UNDEF_HEIGHT
    else calculateUpgradeHeight c m_votingCompleteHeight
  else upgradeHeight c m_targetVersion.

(** The first block of at least the target version ([std::lower_bound]). *)
Fixpoint first_of_version (bc : chain) (i : Z) : Z * option (Z * Z) :=
  match bc with
  | [] => (i, None)
  | b :: bc' => if b.1 <? m_targetVersion then first_of_version bc' (i + 1) else (i, Some b)
  end.

(** [init]: the result and [m_votingCompleteHeight]. *)
Definition detector_init (m_votingCompleteHeight : Z) (bc : chain) : outcome (bool * Z) :=
  let upgrade := upgradeHeight c m_targetVersion in
  match list.last bc with
  | None => mret (true, if upgrade =? UNDEF_HEIGHT then UNDEF_HEIGHT else m_votingCompleteHeight)
  | Some (major, _) =>
      if upgrade =? UNDEF_HEIGHT then
        if m_targetVersion - 1 =? major then
          v ← findVotingCompleteHeight (u32 (chain_size bc - 1)) bc;
          mret (true, v)
        else if m_targetVersion <=? major then
          match first_of_version bc 0 with
          | (_, None) => mret (false, m_votingCompleteHeight)
          | (i, Some b) =>
              if negb (b.1 =? m_targetVersion) then mret (false, m_votingCompleteHeight)
              else
                v ← findVotingCompleteHeight (u32 i) bc;
                mret (negb (v =? UNDEF_HEIGHT), v)
          end
        else mret (true, UNDEF_HEIGHT)
      else if chain_size bc <=? u32 (upgrade + 1) then
        mret (negb (m_targetVersion <=? major), m_votingCompleteHeight)
      else
        b ← at_ bc (u32 (upgrade + 1));
        mret (b.1 =? m_targetVersion, m_votingCompleteHeight)
  end.

(** [blockPushed]: the new [m_votingCompleteHeight]. *)
Definition blockPushed (m_votingCompleteHeight : Z) (bc : chain) : outcome Z :=
  major ← back_major bc;
  let size := chain_size bc in
  if negb (upgradeHeight c m_targetVersion =? UNDEF_HEIGHT) then
    (if size <=? u32 (upgradeHeight c m_targetVersion + 1)
     then assert_ (major <=? m_targetVersion - 1)
     else assert_ (m_targetVersion <=? major));;
    mret m_votingCompleteHeight
  else if negb (m_votingCompleteHeight =? UNDEF_HEIGHT) then
    let upgrade := detector_upgradeHeight m_votingCompleteHeight in
    assert_ (m_votingCompleteHeight <? size);;
    (if size <=? upgrade then assert_ (major =? m_targetVersion - 1)
     else if size =? u32 (upgrade + 1) then assert_ (major =? m_targetVersion - 1)
     else assert_ (major =? m_targetVersion));;
    mret m_votingCompleteHeight
  else
    let lastBlockHeight := u32 (size - 1) in
    b ← isVotingComplete lastBlockHeight bc;
    mret (if b : bool then lastBlockHeight else m_votingCompleteHeight).

Definition blockPopped (m_votingCompleteHeight : Z) (bc : chain) : outcome Z :=
  if negb (m_votingCompleteHeight =? UNDEF_HEIGHT) then
    assert_ (upgradeHeight c m_targetVersion =? UNDEF_HEIGHT);;
    if chain_size bc =? m_votingCompleteHeight then mret UNDEF_HEIGHT
    else assert_ (m_votingCompleteHeight <? chain_size bc);; mret m_votingCompleteHeight
  else mret m_votingCompleteHeight.
End Detector.

(** ** Proofs *)

(** The votes among the last [W] blocks up to a height. *)
Definition votes (target : Z) (W : Z) (height : Z) (bc : list (Z * Z)) : Z :=
  Z.of_nat (length (filter (λ b, is_vote target b = true)
    (take (Z.to_nat W) (drop (Z.to_nat (height + 1 - W)) bc)))).

Lemma count_votes_ret target n : ∀ i bc v,
  (i + n <= length bc)%nat → 0 <= v → v + Z.of_nat n < 2 ^ 64 →
  count_votes target n (Z.of_nat i) bc v =
    Ret (v + Z.of_nat (length (filter (λ b, is_vote target b = true) (take n (drop i bc))))).
Proof.
  induction n as [|n IH]; intros i bc v Hi Hv Hb.
  { rewrite take_0. cbn. by rewrite Z.add_0_r. }
  destruct (lookup_lt_is_Some_2 bc i) as [b Hlook]; [lia|]. cbn [count_votes].
  rewrite (at_Some bc (Z.of_nat i) b) by (rewrite ?Nat2Z.id; done || lia). cbn [mbind outcome_bind].
  rewrite (drop_S bc b i) by done. cbn [take]. rewrite filter_cons.
  replace (Z.of_nat i + 1) with (Z.of_nat (S i)) by lia.
  assert (0 <= Z.b2z (is_vote target b) <= 1) by (destruct (is_vote target b); cbn; lia).
  rewrite u64_small by (unfold in_range; lia). rewrite IH by lia. f_equal.
  destruct (is_vote target b) eqn:E; [rewrite decide_True by done|rewrite decide_False by done];
    cbn [length Z.b2z]; lia.
Qed.

Lemma getNumberOfVotes_ret c target height bc :
  1 < m_upgradeVotingWindow c < 2 ^ 32 → 0 <= height < Z.of_nat (length bc) →
  Z.of_nat (length bc) < 2 ^ 32 →
  getNumberOfVotes c target height bc =
    Ret (if height <? m_upgradeVotingWindow c - 1 then 0
         else votes target (m_upgradeVotingWindow c) height bc).
Proof.
  intros HW Hh Hl. unfold getNumberOfVotes. set (W := m_upgradeVotingWindow c) in *.
  rewrite (u32_small (W - 1)) by (unfold in_range; lia).
  destruct (Z.ltb_spec height (W - 1)); [done|].
  rewrite (u32_small (height + 1)), u32_small by (unfold in_range; lia).
  replace (Z.to_nat (height + 1 - (height + 1 - W))) with (Z.to_nat W) by lia.
  pose proof (count_votes_ret target (Z.to_nat W) (Z.to_nat (height + 1 - W)) bc 0) as E.
  rewrite (Z2Nat.id (height + 1 - W)) in E by lia. rewrite E by lia. by rewrite Z.add_0_l.
Qed.

Lemma votes_bounds target W height bc : 0 <= W → 0 <= votes target W height bc <= W.
Proof.
  intros HW. unfold votes. split; [lia|].
  pose proof (length_filter (λ b, is_vote target b = true)
    (take (Z.to_nat W) (drop (Z.to_nat (height + 1 - W)) bc))) as Hf.
  rewrite length_take in Hf. lia.
Qed.

(** ** Properties *)

(** for a version without a fixed height, the vote is complete at a height
    exactly when at least 648 of the last 720 blocks up to it carry the vote:
    the minor version 1 under the major version before the target. *)
Theorem voting_complete_exact target height bc :
  upgradeHeight mainnet target = UNDEF_HEIGHT →
  0 <= height < Z.of_nat (length bc) → Z.of_nat (length bc) < 2 ^ 32 →
  isVotingComplete mainnet target height bc =
    Ret ((719 <=? height) && (648 <=? votes target 720 height bc)).
Proof.
  intros Hu Hh Hl. unfold isVotingComplete. rewrite Hu, Z.eqb_refl.
  change (1 <? m_upgradeVotingWindow mainnet) with true.
  change ((0 <? m_upgradeVotingThreshold mainnet) && (m_upgradeVotingThreshold mainnet <=? 100)) with true.
  cbn [assert_ mbind outcome_bind]. rewrite getNumberOfVotes_ret by (done || cbn; lia).
  cbn [mbind outcome_bind]. change (m_upgradeVotingWindow mainnet) with 720.
  change (u32 (m_upgradeVotingThreshold mainnet * 720)) with 64800.
  pose proof (votes_bounds target 720 height bc ltac:(lia)) as Hv.
  unfold mret, outcome_ret. f_equal. change (720 - 1) with 719.
  destruct (Z.ltb_spec height 719), (Z.leb_spec 719 height); try lia; [done|].
  rewrite u64_small by (unfold in_range; lia). cbn [andb].
  destruct (Z.leb_spec 64800 (100 * votes target 720 height bc)),
    (Z.leb_spec 648 (votes target 720 height bc)); done || lia.
Qed.

Lemma voting_complete_exact_witness :
  isVotingComplete mainnet 4 719 (replicate 60 (3, 0) ++ replicate 660 (3, 1)) = Ret true.
Proof.
  rewrite voting_complete_exact; [by vm_compute|reflexivity|by vm_compute|by vm_compute].
Defined.

(** Popping after pushing. *)
Lemma blockPopped_pushed c target v v' bc b :
  Z.of_nat (length bc) < UNDEF_HEIGHT →
  v = UNDEF_HEIGHT ∨ (upgradeHeight c target = UNDEF_HEIGHT ∧ 0 <= v < Z.of_nat (length bc)) →
  blockPushed c target v (bc ++ [b]) = Ret v' → blockPopped c target v' bc = Ret v.
Proof.
  intros Hl Hv E. unfold blockPushed in E.
  apply outcome_bind_ret in E as (major & _ & E). unfold blockPopped, chain_size in *.
  rewrite length_app in E. cbn [length] in E. unfold UNDEF_HEIGHT, UINT32_MAX in *.
  destruct (Z.eqb_spec (upgradeHeight c target) (2 ^ 32 - 1)) as [Hu|Hu]; cbn [negb] in E.
  2: { destruct Hv as [->|[? _]]; [|done]. apply outcome_bind_ret in E as (_ & _ & E).
       injection E as <-. done. }
  destruct (Z.eqb_spec v (2 ^ 32 - 1)) as [->|Hne]; cbn [negb] in E.
  - apply outcome_bind_ret in E as ([] & _ & E); injection E as <-; [|done].
    rewrite u32_small by (unfold in_range; lia).
    replace (Z.of_nat (length bc + 1) - 1) with (Z.of_nat (length bc)) by lia.
    rewrite (proj2 (Z.eqb_neq _ _)) by lia. cbn [negb]. by rewrite Z.eqb_refl.
  - destruct Hv as [?|[_ Hv]]; [done|]. do 2 (apply outcome_bind_ret in E as (_ & _ & E)).
    injection E as <-. rewrite (proj2 (Z.eqb_neq _ _) Hne). cbn [negb].
    cbn [assert_ mbind outcome_bind]. rewrite (proj2 (Z.eqb_neq _ _)) by lia.
    by rewrite (proj2 (Z.ltb_lt _ _)) by lia.
Qed.

(** popping a block restores the state of the detector from before the
    block was pushed, whatever the push did. *)
Theorem upgrade_push_pop c target v v' bc b :
  Z.of_nat (length bc) < UNDEF_HEIGHT →
  v = UNDEF_HEIGHT ∨ (upgradeHeight c target = UNDEF_HEIGHT ∧ 0 <= v < Z.of_nat (length bc)) →
  blockPushed c target v (bc ++ [b]) = Ret v' → blockPopped c target v' bc = Ret v.
Proof. apply blockPopped_pushed. Qed.

Lemma upgrade_push_pop_witness :
  let bc := replicate 60 (3, 0) ++ replicate 659 (3, 1) in
  blockPushed mainnet 4 UNDEF_HEIGHT (bc ++ [(3, 1)]) = Ret 719 ∧
  blockPopped mainnet 4 719 bc = Ret UNDEF_HEIGHT.
Proof.
  intros bc. assert (blockPushed mainnet 4 UNDEF_HEIGHT (bc ++ [(3, 1)]) = Ret 719) as E
    by (by vm_compute). split; [exact E|].
  apply (upgrade_push_pop mainnet 4 UNDEF_HEIGHT 719 bc (3, 1)); [by vm_compute|by left|exact E].
Defined.
