(* ===== verification/BlockchainIndices.v ===== *)
(** * Secondary indices of the blockchain

    [src/src/CryptoNoteCore/BlockchainIndices.cpp]: transactions by payment id,
    blocks and transactions by timestamp, the number of generated transactions by
    height and the orphaned blocks by height. A [std::multimap] is the list of its
    pairs in key order (equal keys in insertion order); for an
    [std::unordered_multimap] the list order stands for the unspecified one. *)

From S2P Require Import Prelude Streams CryptoNoteTypes Serialization CryptoNoteSerialization.
From S2P Require Import Crypto TransactionExtra FormatUtils.
From stdpp Require Import sorting.

Local Open Scope Z_scope.

(** ** Multimaps *)

Section Multimap.
Context {K : Type} `{EqDecision K}.
Abbreviation mmap := (list (K * Hash)).

(** [emplace] of an unordered multimap. *)
Definition mm_emplace (k : K) (v : Hash) (m : mmap) : mmap := m ++ [(k, v)].

(** The loops over [equal_range]: the first pair with this key and value is
    erased; the values of the key are gathered. *)
Fixpoint mm_remove (k : K) (v : Hash) (m : mmap) : bool * mmap :=
  match m with
  | [] => (false, [])
  | (k', v') :: m' =>
      if bool_decide (k' = k) && bool_decide (v' = v) then (true, m')
      else let '(b, r) := mm_remove k v m' in (b, (k', v') :: r)
  end.

Definition mm_find (k : K) (m : mmap) : list Hash := snd <$> filter (λ kv, kv.1 = k) m.
End Multimap.

(** [emplace] of an ordered multimap: behind the pairs with the same key. *)
Fixpoint mm_insert (k : Z) (v : Hash) (m : list (Z * Hash)) : list (Z * Hash) :=
  match m with
  | [] => [(k, v)]
  | (k', v') :: m' => if k <? k' then (k, v) :: m else (k', v') :: mm_insert k v m'
  end.

(** ** Payment ids *)

Section PaymentId.
Context `{CryptoOps}.

(** [BlockchainExplorerDataBuilder::getPaymentId]: the result of the parser is
    not looked at. *)
Definition getPaymentId (transaction : Transaction) : outcome (option Hash) :=
  '(txExtraFields, _) ← parseTransactionExtra (extra transaction);
  mret (match find_field pick_nonce txExtraFields with
        | None => None
        | Some extraNonce => getPaymentIdFromTransactionExtraNonce extraNonce
        end).

Definition PaymentIdIndex_add (transaction : Transaction) (index : list (Hash * Hash))
    : outcome (bool * list (Hash * Hash)) :=
  transactionHash ← getObjectHash cn_fast_hash serialize_Transaction transaction;
  r ← getPaymentId transaction;
  mret (match r with
        | None => (false, index)
        | Some paymentId => (true, mm_emplace paymentId transactionHash index)
        end).

Definition PaymentIdIndex_remove (transaction : Transaction) (index : list (Hash * Hash))
    : outcome (bool * list (Hash * Hash)) :=
  transactionHash ← getObjectHash cn_fast_hash serialize_Transaction transaction;
  r ← getPaymentId transaction;
  mret (match r with
        | None => (false, index)
        | Some paymentId => mm_remove paymentId transactionHash index
        end).

(** The result and the hashes appended to the vector. *)
Definition PaymentIdIndex_find (paymentId : Hash) (index : list (Hash * Hash)) : bool * list Hash :=
  let found := mm_find paymentId index in (negb (bool_decide (found = [])), found).
End PaymentId.

(** ** Timestamps *)

Definition TimestampBlocksIndex_add (timestamp : Z) (hash : Hash) (index : list (Z * Hash))
    : bool * list (Z * Hash) := (true, mm_insert timestamp hash index).
Definition TimestampBlocksIndex_remove (timestamp : Z) (hash : Hash) (index : list (Z * Hash))
    : bool * list (Z * Hash) := mm_remove timestamp hash index.

(** The position of [lower_bound(b)], the first pair with a key of at least [b],
    and of [upper_bound(e)], the first pair with a key above [e]. *)
Fixpoint lower_bound (b : Z) (index : list (Z * Hash)) : nat :=
  match index with
  | (k, _) :: index' => if k <? b then S (lower_bound b index') else 0%nat
  | [] => 0%nat
  end.
Fixpoint upper_bound (e : Z) (index : list (Z * Hash)) : nat :=
  match index with
  | (k, _) :: index' => if k <=? e then S (upper_bound e index') else 0%nat
  | [] => 0%nat
  end.

(** The pairs between the iterators [b] and [e]. *)
Definition between (b e : nat) (index : list (Z * Hash)) : list (Z * Hash) := take (e - b) (drop b index).

(** [find]: [None] for a range the wrong way around; else the result, the hashes
    and the number of all hashes in the range. *)
Definition TimestampBlocksIndex_find (timestampBegin timestampEnd hashesNumberLimit : Z)
    (index : list (Z * Hash)) : option (bool * list Hash * Z) :=
  if timestampEnd <? timestampBegin then None
  else
    let range := between (lower_bound timestampBegin index) (upper_bound timestampEnd index) index in
    let hashes := take (Z.to_nat hashesNumberLimit) (snd <$> range) in
    Some (0 <? Z.of_nat (length hashes), hashes, u32 (Z.of_nat (length range))).

Definition TimestampTransactionsIndex_add := TimestampBlocksIndex_add.
Definition TimestampTransactionsIndex_remove := TimestampBlocksIndex_remove.

(** With an end of zero and an empty range at the beginning, the first pair is
    taken. *)
Definition TimestampTransactionsIndex_find (timestampBegin timestampEnd hashesNumberLimit : Z)
    (index : list (Z * Hash)) : option (bool * list Hash * Z) :=
  if timestampEnd <? timestampBegin then None
  else
    let b := lower_bound timestampBegin index in
    let e := upper_bound timestampEnd index in
    let e := if (timestampEnd =? 0) && (e =? b)%nat && (b =? 0)%nat && (0 <? length index)%nat
             then S e else e in
    let range := between b e index in
    let hashes := take (Z.to_nat hashesNumberLimit) (snd <$> range) in
    Some (0 <? Z.of_nat (length hashes), hashes, u32 (Z.of_nat (length range))).

(** ** Generated transactions *)

Record GeneratedTransactionsIndex := {
  gt_index : gmap Z Z;
  lastGeneratedTxNumber : Z
}.

Definition new_GeneratedTransactionsIndex : GeneratedTransactionsIndex :=
  {| gt_index := ∅; lastGeneratedTxNumber := 0 |}.

(** [boost::get<BaseInput>(block.baseTransaction.inputs.front()).blockIndex]. *)
Definition base_height (block : Block) : outcome Z :=
  match inputs (baseTransaction block) with
  | [] => Abort
  | InBase i :: _ => mret (bi_blockIndex i)
  | _ => Throw "boost::bad_get"
  end.

Definition tx_count (block : Block) : Z := Z.of_nat (length (transactionHashes block)) + 1.

Definition GeneratedTransactionsIndex_add (block : Block) (g : GeneratedTransactionsIndex)
    : outcome (bool * GeneratedTransactionsIndex) :=
  blockHeight ← base_height block;
  mret (
    if negb (Z.of_nat (size (gt_index g)) =? blockHeight) then (false, g)
    else match gt_index g !! blockHeight with
         | Some _ => (false, g)
         | None =>
             let n := u64 (lastGeneratedTxNumber g + tx_count block) in
             (true, {| gt_index := <[blockHeight := n]> (gt_index g); lastGeneratedTxNumber := n |})
         end).

Definition GeneratedTransactionsIndex_remove (block : Block) (g : GeneratedTransactionsIndex)
    : outcome (bool * GeneratedTransactionsIndex) :=
  blockHeight ← base_height block;
  if negb (blockHeight =? u64 (Z.of_nat (size (gt_index g)) - 1)) then mret (false, g)
  else match gt_index g !! blockHeight with
       | None => Abort
       | Some _ =>
           let index := delete blockHeight (gt_index g) in
           if negb (blockHeight =? 0) then
             match index !! (blockHeight - 1) with
             | None => Abort
             | Some n => mret (true, {| gt_index := index; lastGeneratedTxNumber := n |})
             end
           else mret (true, {| gt_index := index; lastGeneratedTxNumber := 0 |})
       end.

Definition GeneratedTransactionsIndex_find (height : Z) (g : GeneratedTransactionsIndex) : option Z :=
  gt_index g !! height.

(** [clear] leaves the number of the last transaction as it is. *)
Definition GeneratedTransactionsIndex_clear (g : GeneratedTransactionsIndex)
    : GeneratedTransactionsIndex :=
  {| gt_index := ∅; lastGeneratedTxNumber := lastGeneratedTxNumber g |}.

(** ** Orphaned blocks *)

Section Orphans.
Context `{CryptoOps}.
Variable uninit : list Z.

Definition OrphanBlocksIndex_add (block : Block) (index : list (Z * Hash)) : outcome (list (Z * Hash)) :=
  blockHash ← get_block_hash uninit block;
  blockHeight ← base_height block;
  mret (mm_emplace blockHeight blockHash index).

Definition OrphanBlocksIndex_remove (block : Block) (index : list (Z * Hash))
    : outcome (bool * list (Z * Hash)) :=
  blockHash ← get_block_hash uninit block;
  blockHeight ← base_height block;
  mret (mm_remove blockHeight blockHash index).

Definition OrphanBlocksIndex_find (height : Z) (index : list (Z * Hash)) : bool * list Hash :=
  let found := mm_find height index in (negb (bool_decide (found = [])), found).
End Orphans.

(** ** Proofs *)

Lemma mm_remove_spec {K} `{EqDecision K} (k : K) v m :
  if (mm_remove k v m).1 then (m ≡ₚ (k, v) :: (mm_remove k v m).2)
  else ((k, v) ∉ m) ∧ (mm_remove k v m).2 = m.
Proof.
  induction m as [|[k' v'] m IH]; cbn [mm_remove fst snd];
    [split; [apply not_elem_of_nil|done]|].
  destruct (bool_decide_reflect (k' = k)) as [->|Hk]; cbn [andb fst snd];
    [destruct (bool_decide_reflect (v' = v)) as [->|Hv]; cbn [fst snd]; [done|]|];
    (destruct (mm_remove k v m) as [[] r]; cbn [fst snd] in *;
     [rewrite IH; apply perm_swap|destruct IH as [Hn ->]; split; [|done]; rewrite not_elem_of_cons;
      split; [congruence|done]]).
Qed.

(** Removing what was just emplaced leaves the same pairs. *)
Lemma mm_remove_emplace {K} `{EqDecision K} (k : K) v m :
  (mm_remove k v (mm_emplace k v m)).1 = true ∧ (mm_remove k v (mm_emplace k v m)).2 ≡ₚ m.
Proof.
  pose proof (mm_remove_spec k v (mm_emplace k v m)) as Hs. unfold mm_emplace in *.
  destruct (mm_remove k v (m ++ [(k, v)])) as [[] r]; cbn [fst snd] in *.
  - split; [done|]. apply (Permutation_cons_inv (a := (k, v))). rewrite <- Hs.
    symmetry. apply Permutation_cons_append.
  - destruct Hs as [[] _]. apply elem_of_app. right. by left.
Qed.

Lemma mm_insert_perm k v m : mm_insert k v m ≡ₚ (k, v) :: m.
Proof.
  induction m as [|[k' v'] m IH]; cbn [mm_insert]; [done|]. case_bool; [done|].
  rewrite IH. apply perm_swap.
Qed.

(** The pairs are in key order. *)
Definition mm_ok (m : list (Z * Hash)) : Prop := StronglySorted (λ x y : Z * Hash, x.1 <= y.1) m.

Lemma mm_insert_ok k v m : mm_ok m → mm_ok (mm_insert k v m).
Proof.
  unfold mm_ok. induction m as [|[k' v'] m IH]; intros Hs; cbn [mm_insert]; [repeat constructor|].
  apply StronglySorted_inv in Hs as Hs'. destruct Hs' as [Hs' Hf]. case_bool.
  - constructor; [done|]. constructor; [cbn; lia|].
    eapply Forall_impl; [exact Hf|]. intros [k1 v1]. cbn. lia.
  - constructor; [by apply IH|]. rewrite mm_insert_perm. constructor; [done|exact Hf].
Qed.

Lemma mm_remove_ok k v m : mm_ok m → mm_ok (mm_remove k v m).2.
Proof.
  unfold mm_ok. induction m as [|[k' v'] m IH]; intros Hs; cbn [mm_remove]; [constructor|].
  apply StronglySorted_inv in Hs as [Hs Hf]. destruct (_ && _); [done|].
  pose proof (mm_remove_spec k v m) as Hsp. specialize (IH Hs).
  destruct (mm_remove k v m) as [b r]; cbn [fst snd] in *. constructor; [done|].
  destruct b; [|by destruct Hsp as [_ ->]]. rewrite Hsp in Hf. by apply Forall_cons_iff in Hf as [_ ?].
Qed.

(** ** Generated transactions: proofs *)

(** The index after blocks with these numbers of transactions: at each height the
    number of transactions up to and including its block. *)
Definition gt_represents (g : GeneratedTransactionsIndex) (counts : list Z) : Prop :=
  (∀ h, gt_index g !! h = if (0 <=? h) && (h <? Z.of_nat (length counts))
                          then Some (sumZ (take (Z.to_nat (h + 1)) counts)) else None) ∧
  size (gt_index g) = length counts ∧ lastGeneratedTxNumber g = sumZ counts.

Lemma gt_add_ret g counts block :
  gt_represents g counts → base_height block = Ret (Z.of_nat (length counts)) →
  is_u64 (sumZ counts + tx_count block) →
  ∃ g', GeneratedTransactionsIndex_add block g = Ret (true, g') ∧
    gt_represents g' (counts ++ [tx_count block]).
Proof.
  intros (Hi & Hsz & Hlast) Hb Hu. unfold GeneratedTransactionsIndex_add. rewrite Hb.
  cbn [mbind outcome_bind]. rewrite Hsz, Z.eqb_refl. cbn [negb]. rewrite Hlast, u64_small by done.
  assert (gt_index g !! Z.of_nat (length counts) = None) as Hn.
  { rewrite Hi, Z.ltb_irrefl. by rewrite andb_false_r. }
  rewrite Hn. eexists. split; [done|]. unfold gt_represents. cbn [gt_index lastGeneratedTxNumber].
  rewrite length_app. cbn [length]. split_and!.
  - intros h. destruct (decide (h = Z.of_nat (length counts))) as [->|Hne].
    + rewrite lookup_insert_eq. rewrite (proj2 (Z.leb_le _ _)), (proj2 (Z.ltb_lt _ _)) by lia.
      cbn [andb]. rewrite take_ge by (rewrite length_app; cbn; lia). f_equal.
      rewrite sumZ_app, sumZ_cons, sumZ_nil. lia.
    + rewrite lookup_insert_ne by done. rewrite Hi.
      destruct (Z.leb_spec 0 h), (Z.ltb_spec h (Z.of_nat (length counts))),
        (Z.ltb_spec h (Z.of_nat (length counts + 1))); cbn [andb]; try lia; [|done..].
      by rewrite take_app_le by lia.
  - rewrite map_size_insert_None by done. lia.
  - rewrite sumZ_app, sumZ_cons, sumZ_nil. lia.
Qed.

Lemma gt_remove_ret g counts n block :
  gt_represents g (counts ++ [n]) → base_height block = Ret (Z.of_nat (length counts)) →
  Z.of_nat (length counts) < 2 ^ 64 - 1 →
  ∃ g', GeneratedTransactionsIndex_remove block g = Ret (true, g') ∧ gt_represents g' counts.
Proof.
  intros (Hi & Hsz & Hlast) Hb Hl. unfold GeneratedTransactionsIndex_remove. rewrite Hb.
  cbn [mbind outcome_bind]. rewrite Hsz. rewrite length_app in *. cbn [length] in *.
  rewrite u64_small by (unfold in_range; lia).
  rewrite (proj2 (Z.eqb_eq (Z.of_nat (length counts)) _)) by lia. cbn [negb].
  assert (∀ h, 0 <= h <= Z.of_nat (length counts) →
    gt_index g !! h = Some (sumZ (take (Z.to_nat (h + 1)) (counts ++ [n])))) as Hin.
  { intros h Hh. rewrite Hi, (proj2 (Z.leb_le _ _)), (proj2 (Z.ltb_lt _ _)) by lia. done. }
  rewrite (Hin (Z.of_nat (length counts))) by lia.
  assert (∀ last, last = sumZ counts → gt_represents
    {| gt_index := delete (Z.of_nat (length counts)) (gt_index g); lastGeneratedTxNumber := last |} counts)
    as Hrep.
  { intros last ->. unfold gt_represents. cbn [gt_index lastGeneratedTxNumber]. split_and!; [|..|done].
    - intros h. destruct (decide (h = Z.of_nat (length counts))) as [->|Hne].
      + by rewrite lookup_delete_eq, Z.ltb_irrefl, andb_false_r.
      + rewrite lookup_delete_ne by done. rewrite Hi.
        destruct (Z.leb_spec 0 h), (Z.ltb_spec h (Z.of_nat (length counts))),
          (Z.ltb_spec h (Z.of_nat (length counts + 1))); cbn [andb]; try lia; [|done..].
        by rewrite take_app_le by lia.
    - rewrite map_size_delete, (Hin (Z.of_nat (length counts))) by lia. rewrite Hsz. lia. }
  destruct (Z.eqb_spec (Z.of_nat (length counts)) 0) as [Hz|Hz]; cbn [negb].
  - eexists. split; [done|]. apply Hrep. by destruct counts.
  - rewrite lookup_delete_ne, Hin by lia. eexists. split; [done|]. apply Hrep.
    replace (Z.to_nat (Z.of_nat (length counts) - 1 + 1)) with (length counts) by lia.
    by rewrite take_app_length.
Qed.

Lemma filter_none {A} (P : A → Prop) `{∀ x, Decision (P x)} l :
  Forall (λ x, ¬ P x) l → filter P l = [].
Proof. induction 1 as [|x l Hx _ IH]; [done|]. by rewrite filter_cons_False. Qed.

Lemma mm_remove_insert k v m : (k, v) ∉ m → mm_remove k v (mm_insert k v m) = (true, m).
Proof.
  induction m as [|[k' v'] m IH]; intros Hn; cbn [mm_insert mm_remove];
    [by rewrite !bool_decide_true|].
  apply not_elem_of_cons in Hn as [Hne Hn]. case_bool; cbn [mm_remove];
    [by rewrite (bool_decide_true (k = k)), (bool_decide_true (v = v))|].
  rewrite IH by done. destruct (bool_decide_reflect (k' = k)) as [->|]; cbn [andb]; [|done].
  by rewrite bool_decide_false by congruence.
Qed.

(** The iterator range of an ordered multimap is the pairs whose keys lie in the
    interval. *)
Lemma between_filter b e m :
  mm_ok m → b <= e →
  between (lower_bound b m) (upper_bound e m) m = filter (λ kv, b <= kv.1 ∧ kv.1 <= e) m.
Proof.
  unfold mm_ok, between. intros Hs Hbe. induction m as [|[k v] m IH]; [done|].
  apply StronglySorted_inv in Hs as [Hs Hf]. specialize (IH Hs).
  cbn [lower_bound upper_bound]. destruct (Z.ltb_spec k b) as [Hk|Hk].
  - rewrite (proj2 (Z.leb_le k e)) by lia. rewrite filter_cons_False by (cbn; lia). exact IH.
  - assert (lower_bound b m = 0%nat) as Hlb.
    { destruct m as [|[k' v'] m]; [done|]. apply Forall_cons_iff in Hf as [Hk' _]. cbn in Hk' |- *.
      by rewrite (proj2 (Z.ltb_ge _ _)) by lia. }
    rewrite Hlb, drop_0, Nat.sub_0_r in *. destruct (Z.leb_spec k e) as [He|He].
    + rewrite filter_cons_True by (cbn; lia). cbn [take]. by rewrite IH.
    + symmetry. apply filter_none. constructor; [cbn; lia|].
      eapply Forall_impl; [exact Hf|]. intros [k1 v1]. cbn. lia.
Qed.

(** an index by timestamp keeps its pairs in the order of the timestamps;
    [add] adds one pair, [remove] of a pair that was not there before takes exactly
    that pair away again, and [find] returns, up to the limit and in that order, the
    hashes whose timestamps lie in the interval, with the number of all of them. *)
Theorem timestamp_index_exact index t h b e limit :
  mm_ok index → b <= e → Z.of_nat (length index) < 2 ^ 32 →
  let '(_, added) := TimestampBlocksIndex_add t h index in
  mm_ok added ∧ added ≡ₚ (t, h) :: index ∧
  mm_ok (TimestampBlocksIndex_remove t h index).2 ∧
  ((t, h) ∉ index → TimestampBlocksIndex_remove t h added = (true, index)) ∧
  let hashes := snd <$> filter (λ kv, b <= kv.1 ∧ kv.1 <= e) index in
  TimestampBlocksIndex_find b e limit index =
    Some (bool_decide (hashes ≠ [] ∧ 0 < limit), take (Z.to_nat limit) hashes,
          Z.of_nat (length hashes)).
Proof.
  intros Hok Hbe Hlen. unfold TimestampBlocksIndex_add, TimestampBlocksIndex_remove.
  split_and!; [by apply mm_insert_ok|apply mm_insert_perm|by apply mm_remove_ok|apply mm_remove_insert|].
  unfold TimestampBlocksIndex_find. rewrite (proj2 (Z.ltb_ge _ _)) by lia.
  rewrite between_filter by done. set (r := filter _ _). cbn zeta.
  assert (length r <= length index)%nat as Hr by apply length_filter.
  rewrite u32_small by (unfold in_range; lia). rewrite length_fmap. do 3 f_equal.
  destruct r as [|x r]; cbn [fmap list_fmap take length].
  - rewrite take_nil. by rewrite bool_decide_false by tauto.
  - destruct (decide (0 < limit)).
    + rewrite bool_decide_true by done. replace (Z.to_nat limit) with (S (Z.to_nat (limit - 1))) by lia.
      cbn [take length]. by apply Z.ltb_lt.
    + rewrite bool_decide_false by tauto. replace (Z.to_nat limit) with 0%nat by lia. done.
Qed.

Lemma timestamp_index_exact_witness :
  TimestampBlocksIndex_find 5 9 1 [(3, [1]); (5, [2]); (7, [3]); (11, [4])] = Some (true, [[2]], 2) ∧
  TimestampBlocksIndex_remove 6 [9] (mm_insert 6 [9] [(3, [1]); (5, [2]); (7, [3]); (11, [4])])
    = (true, [(3, [1]); (5, [2]); (7, [3]); (11, [4])]).
Proof.
  destruct (timestamp_index_exact [(3, [1]); (5, [2]); (7, [3]); (11, [4])] 6 [9] 5 9 1)
    as (_ & _ & _ & Hr & Hf); [repeat constructor; cbn; lia|lia|cbn; lia|].
  split; [exact Hf|]. apply Hr. rewrite !not_elem_of_cons. split_and!; try congruence. apply not_elem_of_nil.
Defined.

(** [add] of blocks one after the other. *)
Fixpoint add_blocks (blocks : list Block) (g : GeneratedTransactionsIndex)
    : outcome (bool * GeneratedTransactionsIndex) :=
  match blocks with
  | [] => mret (true, g)
  | block :: blocks' =>
      r ← GeneratedTransactionsIndex_add block g;
      let '(ok, g') := r : bool * GeneratedTransactionsIndex in
      if ok then add_blocks blocks' g' else mret (false, g')
  end.

(** Blocks of a chain, whose first block is at height [h]. *)
Fixpoint consecutive (h : Z) (blocks : list Block) : Prop :=
  match blocks with
  | [] => True
  | block :: blocks' => base_height block = Ret h ∧ consecutive (h + 1) blocks'
  end.

Lemma tx_count_pos block : 0 < tx_count block.
Proof. unfold tx_count. lia. Qed.

Lemma sum_tx_count_nonneg blocks : 0 <= sumZ (tx_count <$> blocks).
Proof.
  induction blocks as [|x l IH]; [done|]. rewrite fmap_cons, sumZ_cons.
  pose proof (tx_count_pos x). lia.
Qed.

Lemma add_blocks_ret blocks : ∀ g done,
  gt_represents g (tx_count <$> done) → consecutive (Z.of_nat (length done)) blocks →
  sumZ (tx_count <$> done ++ blocks) < 2 ^ 64 →
  ∃ g', add_blocks blocks g = Ret (true, g') ∧ gt_represents g' (tx_count <$> done ++ blocks).
Proof.
  induction blocks as [|x l IH]; intros g done Hg Hc Hs; cbn [add_blocks].
  { exists g. by rewrite app_nil_r. }
  destruct Hc as [Hx Hc]. rewrite (cons_middle x), app_assoc in Hs |- *.
  destruct (gt_add_ret g (tx_count <$> done) x Hg) as (g1 & -> & Hg1).
  - by rewrite length_fmap.
  - rewrite !fmap_app, !sumZ_app, fmap_cons, sumZ_cons in Hs. rewrite fmap_nil, sumZ_nil in Hs. pose proof (sum_tx_count_nonneg l). pose proof (tx_count_pos x).
    pose proof (sum_tx_count_nonneg done). unfold in_range. lia.
  - cbn [mbind outcome_bind]. apply IH; [by rewrite fmap_app| |done].
    rewrite length_app. cbn [length]. by replace (Z.of_nat (length done + 1)) with (Z.of_nat (length done) + 1) by lia.
Qed.

Lemma new_represents : gt_represents new_GeneratedTransactionsIndex [].
Proof.
  split_and!; [|done..]. intros h. cbn [length new_GeneratedTransactionsIndex gt_index].
  rewrite lookup_empty. by destruct (Z.leb_spec 0 h), (Z.ltb_spec h (Z.of_nat 0)); cbn [andb]; [lia|..].
Qed.

Lemma gt_represents_unique g g' counts : gt_represents g counts → gt_represents g' counts → g = g'.
Proof.
  intros (Hi & _ & Hl) (Hi' & _ & Hl'). destruct g, g'. cbn in *. f_equal; [|congruence].
  apply map_eq. intros h. by rewrite Hi, Hi'.
Qed.

Lemma consecutive_app l1 l2 : ∀ h,
  consecutive h (l1 ++ l2) ↔ consecutive h l1 ∧ consecutive (h + Z.of_nat (length l1)) l2.
Proof.
  induction l1 as [|x l IH]; intros h; cbn [app consecutive length].
  - rewrite Z.add_0_r. tauto.
  - rewrite IH. replace (h + Z.of_nat (S (length l))) with (h + 1 + Z.of_nat (length l)) by lia. tauto.
Qed.

(** after the blocks of a chain were added from the genesis block on, the index
    answers, at each height of the chain and at no other, with the number of all
    transactions up to that height; a block that is not at the next height is
    refused, and removing the last block gives the index of the chain without it. *)
Theorem generated_transactions_exact blocks block h :
  consecutive 0 (blocks ++ [block]) → sumZ (tx_count <$> blocks ++ [block]) < 2 ^ 64 →
  Z.of_nat (length blocks) < 2 ^ 32 → 0 <= h →
  ∃ g g', add_blocks (blocks ++ [block]) new_GeneratedTransactionsIndex = Ret (true, g) ∧
    GeneratedTransactionsIndex_find h g =
      (if h <=? Z.of_nat (length blocks)
       then Some (sumZ (take (Z.to_nat (h + 1)) (tx_count <$> blocks ++ [block]))) else None) ∧
    GeneratedTransactionsIndex_add block g = Ret (false, g) ∧
    GeneratedTransactionsIndex_remove block g = Ret (true, g') ∧
    add_blocks blocks new_GeneratedTransactionsIndex = Ret (true, g').
Proof.
  intros Hc Hs Hl Hh. pose proof Hc as (Hc0 & Hb & _)%consecutive_app. cbn [Z.add] in Hb.
  destruct (add_blocks_ret (blocks ++ [block]) _ [] new_represents Hc Hs) as (g & Hg & Hrep).
  destruct (add_blocks_ret blocks _ [] new_represents Hc0) as (g0 & Hg0 & Hrep0).
  { rewrite app_nil_l, fmap_app, sumZ_app, fmap_cons, sumZ_cons, fmap_nil, sumZ_nil in *.
    pose proof (tx_count_pos block). lia. }
  rewrite app_nil_l in *. pose proof Hrep as (Hi & Hsz & _).
  rewrite length_fmap, length_app in *. cbn [length] in *.
  rewrite fmap_app in Hrep. destruct (gt_remove_ret _ _ _ block Hrep) as (g' & Hrem & Hrep');
    [by rewrite length_fmap|rewrite length_fmap; lia|].
  exists g, g'. split_and!; [done| | |done|by rewrite (gt_represents_unique _ _ _ Hrep' Hrep0)].
  - unfold GeneratedTransactionsIndex_find. rewrite Hi, (proj2 (Z.leb_le 0 h)) by done. cbn [andb].
    by destruct (Z.leb_spec h (Z.of_nat (length blocks))),
      (Z.ltb_spec h (Z.of_nat (length blocks + 1))); try lia.
  - unfold GeneratedTransactionsIndex_add. rewrite Hb. cbn [mbind outcome_bind]. rewrite Hsz.
    by rewrite (proj2 (Z.eqb_neq _ _)) by lia.
Qed.

Definition sample_block (h : Z) (hashes : list Hash) : Block := {|
  block_header := {| majorVersion := 1; minorVersion := 0; nonce := 0; timestamp := 0;
                     previousBlockHash := [] |};
  baseTransaction := {| tx_prefix := {| version := 1; unlockTime := h + 15;
      inputs := [InBase {| bi_blockIndex := h |}]; outputs := []; extra := [] |}; signatures := [] |};
  transactionHashes := hashes
|}.

Lemma generated_transactions_exact_witness :
  ∃ g g', add_blocks ([sample_block 0 []] ++ [sample_block 1 [[1]; [2]]]) new_GeneratedTransactionsIndex
      = Ret (true, g) ∧
    GeneratedTransactionsIndex_find 1 g = Some 4 ∧
    GeneratedTransactionsIndex_add (sample_block 1 [[1]; [2]]) g = Ret (false, g) ∧
    GeneratedTransactionsIndex_remove (sample_block 1 [[1]; [2]]) g = Ret (true, g') ∧
    add_blocks [sample_block 0 []] new_GeneratedTransactionsIndex = Ret (true, g').
Proof.
  apply (generated_transactions_exact [sample_block 0 []] (sample_block 1 [[1]; [2]]) 1);
    [done|vm_compute; done|cbn; lia|lia].
Defined.

(** [clear] forgets the heights but not the number of the last transaction, so
    the index that is rebuilt after it counts the transactions of before as well. *)
Theorem clear_keeps_transaction_number g block :
  base_height block = Ret 0 → is_u64 (lastGeneratedTxNumber g + tx_count block) →
  ∃ g', GeneratedTransactionsIndex_add block (GeneratedTransactionsIndex_clear g) = Ret (true, g') ∧
    GeneratedTransactionsIndex_find 0 g' = Some (lastGeneratedTxNumber g + tx_count block).
Proof.
  intros Hb Hu. unfold GeneratedTransactionsIndex_add, GeneratedTransactionsIndex_clear. rewrite Hb.
  cbn [mbind outcome_bind gt_index lastGeneratedTxNumber]. rewrite map_size_empty, lookup_empty.
  eexists. split; [done|]. unfold GeneratedTransactionsIndex_find. cbn [gt_index].
  by rewrite lookup_insert_eq, u64_small.
Qed.

Lemma clear_keeps_transaction_number_witness :
  ∃ g', GeneratedTransactionsIndex_add (sample_block 0 [])
      (GeneratedTransactionsIndex_clear {| gt_index := {[0 := 1; 1 := 4]}; lastGeneratedTxNumber := 4 |})
      = Ret (true, g') ∧ GeneratedTransactionsIndex_find 0 g' = Some 5.
Proof.
  apply (clear_keeps_transaction_number
    {| gt_index := {[0 := 1; 1 := 4]}; lastGeneratedTxNumber := 4 |} (sample_block 0 []));
    [done|by vm_compute].
Defined.
