(* ===== verification/ChainState.v ===== *)
(** * The tables of the blockchain

    [src/src/CryptoNoteCore/Blockchain.cpp]: the tables that hold what the
    transactions of the main chain have spent and created, and the operations that
    push a transaction on them ([pushTransaction]), take it back
    ([popTransaction], [popTransactions]) and build them again from the stored
    blocks ([rebuildCache]). The hash maps and sets are finite maps and sets; the
    order of the payment ids, an unordered multimap, is irrelevant, so two states
    that differ only in it are equivalent ([≡]). *)

From S2P Require Import Prelude Streams CryptoNoteTypes Serialization CryptoNoteSerialization.
From S2P Require Import Crypto TransactionExtra FormatUtils BlockchainIndices.

Local Open Scope Z_scope.

(** ** Data *)

Record TransactionIndex := { ti_block : Z; ti_transaction : Z }.

Record MultisignatureOutputUsage := {
  mu_transactionIndex : TransactionIndex;
  mu_outputIndex : Z;
  mu_isUsed : bool
}.

Record TransactionEntry := {
  te_tx : Transaction;
  m_global_output_indexes : list Z
}.

Record BlockEntry := {
  be_bl : Block;
  be_height : Z;
  block_cumulative_size : Z;
  cumulative_difficulty : Z;
  already_generated_coins : Z;
  be_transactions : list TransactionEntry
}.

#[export] Instance TransactionIndex_eq_dec : EqDecision TransactionIndex.
Proof. solve_decision. Defined.
#[export] Instance MultisignatureOutputUsage_eq_dec : EqDecision MultisignatureOutputUsage.
Proof. solve_decision. Defined.

Abbreviation OutputsContainer := (gmap Z (list (TransactionIndex * Z))).
Abbreviation MultisignatureOutputsContainer := (gmap Z (list MultisignatureOutputUsage)).

(** The tables of [Blockchain] that depend on the transactions of the chain. *)
Record ChainState := {
  m_transactionMap : gmap Hash TransactionIndex;
  m_spent_keys : gset KeyImage;
  m_outputs : OutputsContainer;
  m_multisignatureOutputs : MultisignatureOutputsContainer;
  m_paymentIdIndex : list (Hash * Hash)
}.

Definition empty_ChainState : ChainState := {|
  m_transactionMap := ∅; m_spent_keys := ∅; m_outputs := ∅; m_multisignatureOutputs := ∅;
  m_paymentIdIndex := []
|}.

(** ** Spent inputs *)

(** The loop that takes back the key images inserted before a double one; an input
    of another kind among them throws. *)
Fixpoint erase_keys (ins : list TransactionInput) (spent : gset KeyImage) : outcome (gset KeyImage) :=
  match ins with
  | [] => mret spent
  | InKey k :: ins' => erase_keys ins' (spent ∖ {[ki_keyImage k]})
  | _ => Throw "boost::bad_get"
  end.

(** The loop that inserts the key images; [before] are the inputs already seen, the
    last one first. *)
Fixpoint insert_keys (before ins : list TransactionInput) (spent : gset KeyImage)
    : outcome (bool * gset KeyImage) :=
  match ins with
  | [] => mret (true, spent)
  | InKey k :: ins' =>
      if bool_decide (ki_keyImage k ∈ spent) then
        spent' ← erase_keys before spent; mret (false, spent')
      else insert_keys (InKey k :: before) ins' ({[ki_keyImage k]} ∪ spent)
  | i :: ins' => insert_keys (i :: before) ins' spent
  end.

Definition set_isUsed (b : bool) (u : MultisignatureOutputUsage) : MultisignatureOutputUsage :=
  {| mu_transactionIndex := mu_transactionIndex u; mu_outputIndex := mu_outputIndex u; mu_isUsed := b |}.

(** [m_multisignatureOutputs[in.amount][in.outputIndex].isUsed = b]: a missing
    amount is created empty, and an index out of range is outside the vector. *)
Definition mark (b : bool) (m : MultisignatureInput) (outs : MultisignatureOutputsContainer)
    : outcome MultisignatureOutputsContainer :=
  let amountOutputs := default [] (outs !! mi_amount m) in
  u ← at_ amountOutputs (mi_outputIndex m);
  mret (<[mi_amount m := <[Z.to_nat (mi_outputIndex m) := set_isUsed b u]> amountOutputs]> outs).

Fixpoint mark_inputs (b : bool) (ins : list TransactionInput) (outs : MultisignatureOutputsContainer)
    : outcome MultisignatureOutputsContainer :=
  match ins with
  | [] => mret outs
  | InMultisignature m :: ins' => outs' ← mark b m outs; mark_inputs b ins' outs'
  | _ :: ins' => mark_inputs b ins' outs
  end.

(** ** Created outputs *)

(** One output: its position among the outputs of the same amount and kind, and the
    tables with it. *)
Definition push_output (ti : TransactionIndex) (output : Z) (out : TransactionOutput)
    (s : OutputsContainer * MultisignatureOutputsContainer)
    : Z * (OutputsContainer * MultisignatureOutputsContainer) :=
  let '(outs, msigs) := s in
  match out_target out with
  | OutKey _ =>
      let amountOutputs := default [] (outs !! out_amount out) in
      (u32 (Z.of_nat (length amountOutputs)),
       (<[out_amount out := amountOutputs ++ [(ti, output)]]> outs, msigs))
  | OutMultisignature _ =>
      let amountOutputs := default [] (msigs !! out_amount out) in
      (u32 (Z.of_nat (length amountOutputs)),
       (outs, <[out_amount out := amountOutputs ++
          [{| mu_transactionIndex := ti; mu_outputIndex := output; mu_isUsed := false |}]]> msigs))
  end.

Fixpoint push_outputs (ti : TransactionIndex) (output : Z) (l : list TransactionOutput)
    (s : OutputsContainer * MultisignatureOutputsContainer)
    : list Z * (OutputsContainer * MultisignatureOutputsContainer) :=
  match l with
  | [] => ([], s)
  | out :: l' =>
      let '(g, s1) := push_output ti output out s in
      let '(gs, s2) := push_outputs ti (output + 1) l' s1 in
      (g :: gs, s2)
  end.

(** The counter of the loops over the outputs has 16 bits: with more outputs the
    loop does not end. *)
Definition outputs_countable (tx : Transaction) : outcome unit :=
  assert_ (Z.of_nat (length (outputs tx)) <=? 65535).

(** Taking one output back: an output that is not the last one of its amount is
    reported in the log and left. *)
Definition pop_output (ti : TransactionIndex) (output : Z) (out : TransactionOutput)
    (s : OutputsContainer * MultisignatureOutputsContainer)
    : OutputsContainer * MultisignatureOutputsContainer :=
  let '(outs, msigs) := s in
  match out_target out with
  | OutKey _ =>
      match outs !! out_amount out with
      | None => s
      | Some amountOutputs =>
          match list.last amountOutputs with
          | None => s
          | Some (ti', output') =>
              if negb (ti_block ti' =? ti_block ti) || negb (ti_transaction ti' =? ti_transaction ti) then s
              else if negb (output' =? output) then s
              else match removelast amountOutputs with
                   | [] => (delete (out_amount out) outs, msigs)
                   | l => (<[out_amount out := l]> outs, msigs)
                   end
          end
      end
  | OutMultisignature _ =>
      match msigs !! out_amount out with
      | None => s
      | Some amountOutputs =>
          match list.last amountOutputs with
          | None => s
          | Some u =>
              let ti' := mu_transactionIndex u in
              if mu_isUsed u then s
              else if negb (ti_block ti' =? ti_block ti) || negb (ti_transaction ti' =? ti_transaction ti) then s
              else if negb (mu_outputIndex u =? output) then s
              else match removelast amountOutputs with
                   | [] => (outs, delete (out_amount out) msigs)
                   | l => (outs, <[out_amount out := l]> msigs)
                   end
          end
      end
  end.

(** The last output first. *)
Fixpoint pop_outputs (ti : TransactionIndex) (output : Z) (l : list TransactionOutput)
    (s : OutputsContainer * MultisignatureOutputsContainer)
    : OutputsContainer * MultisignatureOutputsContainer :=
  match l with
  | [] => s
  | out :: l' => pop_output ti output out (pop_outputs ti (output + 1) l' s)
  end.

(** Taking the inputs back, in the order of the transaction. *)
Fixpoint unspend_inputs (ins : list TransactionInput) (spent : gset KeyImage)
    (msigs : MultisignatureOutputsContainer) : outcome (gset KeyImage * MultisignatureOutputsContainer) :=
  match ins with
  | [] => mret (spent, msigs)
  | InKey k :: ins' => unspend_inputs ins' (spent ∖ {[ki_keyImage k]}) msigs
  | InMultisignature m :: ins' => msigs' ← mark false m msigs; unspend_inputs ins' spent msigs'
  | InBase _ :: ins' => unspend_inputs ins' spent msigs
  end.

(** ** Transactions *)

Section Transactions.
Context `{CryptoOps}.

(** [pushTransaction]: the result, the global indices of the outputs and the new
    tables. *)
Definition pushTransaction (tx : Transaction) (transactionHash : Hash) (ti : TransactionIndex)
    (s : ChainState) : outcome (bool * list Z * ChainState) :=
  match m_transactionMap s !! transactionHash with
  | Some _ => mret (false, [], s)
  | None =>
      if negb (checkMultisignatureInputsDiff tx) then mret (false, [], s)
      else
        '(inserted, spent) ← insert_keys [] (inputs tx) (m_spent_keys s);
        if negb inserted then
          mret (false, [], {| m_transactionMap := m_transactionMap s; m_spent_keys := spent;
                              m_outputs := m_outputs s;
                              m_multisignatureOutputs := m_multisignatureOutputs s;
                              m_paymentIdIndex := m_paymentIdIndex s |})
        else
          msigs ← mark_inputs true (inputs tx) (m_multisignatureOutputs s);
          _ ← outputs_countable tx;
          let '(indexes, (outs, msigs)) := push_outputs ti 0 (outputs tx) (m_outputs s, msigs) in
          '(_, pids) ← PaymentIdIndex_add tx (m_paymentIdIndex s);
          mret (true, indexes,
                {| m_transactionMap := <[transactionHash := ti]> (m_transactionMap s);
                   m_spent_keys := spent; m_outputs := outs; m_multisignatureOutputs := msigs;
                   m_paymentIdIndex := pids |})
  end.

Definition popTransaction (tx : Transaction) (transactionHash : Hash) (s : ChainState)
    : outcome ChainState :=
  match m_transactionMap s !! transactionHash with
  | None => Throw "std::out_of_range"
  | Some ti =>
      let '(outs, msigs) := pop_outputs ti 0 (outputs tx) (m_outputs s, m_multisignatureOutputs s) in
      '(spent, msigs) ← unspend_inputs (inputs tx) (m_spent_keys s) msigs;
      '(_, pids) ← PaymentIdIndex_remove tx (m_paymentIdIndex s);
      mret {| m_transactionMap := delete transactionHash (m_transactionMap s);
              m_spent_keys := spent; m_outputs := outs; m_multisignatureOutputs := msigs;
              m_paymentIdIndex := pids |}
  end.

(** [popTransactions]: the transactions of the block, the last one first, then the
    miner's; [hashes] are the block's transaction hashes. *)
Fixpoint pop_listed (txs : list Transaction) (hashes : list Hash) (s : ChainState) : outcome ChainState :=
  match txs, hashes with
  | [], _ => mret s
  | tx :: txs', h :: hashes' => s' ← pop_listed txs' hashes' s; popTransaction tx h s'
  | _ :: _, [] => Abort
  end.

Definition popTransactions (block : BlockEntry) (minerTransactionHash : Hash) (s : ChainState)
    : outcome ChainState :=
  match be_transactions block with
  | [] => Abort
  | _ :: entries =>
      s' ← pop_listed (te_tx <$> entries) (transactionHashes (be_bl block)) s;
      popTransaction (baseTransaction (be_bl block)) minerTransactionHash s'
  end.
End Transactions.

(** ** Rebuilding *)

(** The inputs of a stored transaction in [rebuildCache]. *)
Fixpoint spend_inputs (ins : list TransactionInput) (spent : gset KeyImage)
    (msigs : MultisignatureOutputsContainer) : outcome (gset KeyImage * MultisignatureOutputsContainer) :=
  match ins with
  | [] => mret (spent, msigs)
  | InKey k :: ins' => spend_inputs ins' ({[ki_keyImage k]} ∪ spent) msigs
  | InMultisignature m :: ins' => msigs' ← mark true m msigs; spend_inputs ins' spent msigs'
  | InBase _ :: ins' => spend_inputs ins' spent msigs
  end.

(** One transaction in [rebuildCache]: nothing is checked, an entry of the map is
    not replaced and the payment ids are not touched. *)
Definition rebuild_transaction (tx : Transaction) (transactionHash : Hash) (ti : TransactionIndex)
    (s : ChainState) : outcome ChainState :=
  '(spent, msigs) ← spend_inputs (inputs tx) (m_spent_keys s) (m_multisignatureOutputs s);
  _ ← outputs_countable tx;
  let '(_, (outs, msigs)) := push_outputs ti 0 (outputs tx) (m_outputs s, msigs) in
  mret {| m_transactionMap := match m_transactionMap s !! transactionHash with
                              | Some _ => m_transactionMap s
                              | None => <[transactionHash := ti]> (m_transactionMap s)
                              end;
          m_spent_keys := spent; m_outputs := outs; m_multisignatureOutputs := msigs;
          m_paymentIdIndex := m_paymentIdIndex s |}.

(** ** Equivalent states *)

#[export] Instance ChainState_equiv : Equiv ChainState := λ s s',
  m_transactionMap s = m_transactionMap s' ∧ m_spent_keys s = m_spent_keys s' ∧
  m_outputs s = m_outputs s' ∧ m_multisignatureOutputs s = m_multisignatureOutputs s' ∧
  m_paymentIdIndex s ≡ₚ m_paymentIdIndex s'.

#[export] Instance ChainState_equivalence : Equivalence (≡@{ChainState}).
Proof.
  unfold equiv, ChainState_equiv. split.
  - intros s. by split_and!.
  - intros s s' (? & ? & ? & ? & ?). split_and!; by symmetry.
  - intros s1 s2 s3 (? & ? & ? & ? & ?) (? & ? & ? & ? & ?). split_and!; by etrans.
Qed.

(** Outcomes with equivalent results. *)
Inductive outcome_equiv {A} `{Equiv A} : Equiv (outcome A) :=
| equiv_Ret a b : a ≡ b → Ret a ≡ Ret b
| equiv_Throw e : Throw e ≡ Throw e
| equiv_Abort : Abort ≡ Abort.
#[export] Existing Instance outcome_equiv.

#[export] Instance outcome_equivalence {A} `{Equiv A} :
  Equivalence (≡@{A}) → Equivalence (≡@{outcome A}).
Proof.
  intros HE. split.
  - intros []; by constructor.
  - intros x y []; by constructor.
  - intros x y z [a b Hab| |] Hyz; inversion Hyz; subst; constructor; by etrans.
Qed.

(** ** Spent inputs: proofs *)

(** The key images of the inputs. *)
Definition key_images (ins : list TransactionInput) : list KeyImage :=
  omap (λ i, match i with InKey k => Some (ki_keyImage k) | _ => None end) ins.

Definition multisig_inputs (ins : list TransactionInput) : list MultisignatureInput :=
  omap (λ i, match i with InMultisignature m => Some m | _ => None end) ins.

Lemma insert_keys_true ins : ∀ before spent spent',
  insert_keys before ins spent = Ret (true, spent') →
  spent' = spent ∪ list_to_set (key_images ins) ∧ NoDup (key_images ins) ∧
  (∀ k, k ∈ key_images ins → k ∉ spent).
Proof.
  induction ins as [|[i|k|m] ins IH]; intros before spent spent' H; cbn [insert_keys] in H.
  - injection H as <-. split_and!; [set_solver|constructor|]. intros k Hk. by apply not_elem_of_nil in Hk.
  - exact (IH _ _ _ H).
  - destruct (bool_decide_reflect (ki_keyImage k ∈ spent)) as [|Hk].
    { by destruct (erase_keys before spent). }
    apply IH in H as (-> & Hnd & Hnot).
    assert (key_images (InKey k :: ins) = ki_keyImage k :: key_images ins) as -> by done.
    cbn [list_to_set]. split_and!; [set_solver| |].
    + apply list.NoDup_cons. split; [|done]. intros Hin. apply (Hnot _ Hin). set_solver.
    + intros k' [->|Hin]%elem_of_cons; [done|]. specialize (Hnot _ Hin). set_solver.
  - exact (IH _ _ _ H).
Qed.

(** Erasing the inputs seen before a double spending undoes their insertion. *)
Lemma erase_keys_spec before : ∀ spent spent',
  erase_keys before spent = Ret spent' → spent' = spent ∖ list_to_set (key_images before).
Proof.
  induction before as [|[i|k|m] before IH]; intros spent spent' H; cbn [erase_keys] in H; try done.
  - injection H as <-. cbn. set_solver.
  - apply IH in H as ->.
    assert (key_images (InKey k :: before) = ki_keyImage k :: key_images before) as -> by done. set_solver.
Qed.

Lemma insert_keys_false ins : ∀ before spent spent',
  (∀ k, k ∈ key_images before → k ∉ spent) →
  insert_keys before ins (spent ∪ list_to_set (key_images before)) = Ret (false, spent') →
  spent' = spent.
Proof.
  induction ins as [|[i|k|m] ins IH]; intros before spent spent' Hb H; cbn [insert_keys] in H.
  - done.
  - by apply (IH (InBase i :: before)) in H.
  - destruct (bool_decide_reflect (ki_keyImage k ∈ spent ∪ list_to_set (key_images before))) as [|Hk].
    + destruct (erase_keys before _) as [spent1| |] eqn:E; [|done..]. injection H as <-.
      apply erase_keys_spec in E as ->. apply set_eq. intros k'.
      specialize (Hb k'). rewrite elem_of_difference, elem_of_union, elem_of_list_to_set. tauto.
    + apply (IH (InKey k :: before)); assert (key_images (InKey k :: before) =
        ki_keyImage k :: key_images before) as -> by done.
      * intros k' [->|Hin]%elem_of_cons; [set_solver|by apply Hb].
      * rewrite <- H. f_equal. cbn [list_to_set]. set_solver.
  - by apply (IH (InMultisignature m :: before)) in H.
Qed.

(** The position of the output a multisignature input spends. *)
Definition position (m : MultisignatureInput) : Z * Z := (mi_amount m, mi_outputIndex m).

Lemma multisig_diff_NoDup ins : ∀ seen,
  multisig_diff ins seen = true →
  NoDup (position <$> multisig_inputs ins) ∧ (∀ p, p ∈ position <$> multisig_inputs ins → p ∉ seen).
Proof.
  induction ins as [|[i|k|m] ins IH]; intros seen H; cbn [multisig_diff] in H.
  - split; [constructor|]. intros p Hp. by apply not_elem_of_nil in Hp.
  - exact (IH _ H).
  - exact (IH _ H).
  - destruct (bool_decide_reflect ((mi_amount m, mi_outputIndex m) ∈ seen)) as [|Hm]; [done|].
    apply IH in H as [Hnd Hnot].
    assert (multisig_inputs (InMultisignature m :: ins) = m :: multisig_inputs ins) as -> by done.
    rewrite fmap_cons. split.
    + apply list.NoDup_cons. split; [|done]. intros Hin. apply (Hnot _ Hin). unfold position. set_solver.
    + intros p [->|Hin]%elem_of_cons; [done|]. specialize (Hnot _ Hin). set_solver.
Qed.

(** Marking an output that exists. *)
Definition upd (b : bool) (m : MultisignatureInput) (outs : MultisignatureOutputsContainer)
    : MultisignatureOutputsContainer :=
  alter (alter (set_isUsed b) (Z.to_nat (mi_outputIndex m))) (mi_amount m) outs.

(** The output the input refers to. *)
Definition usage (outs : MultisignatureOutputsContainer) (m : MultisignatureInput)
    : option MultisignatureOutputUsage :=
  if mi_outputIndex m <? 0 then None
  else outs !! mi_amount m ≫= λ l, l !! Z.to_nat (mi_outputIndex m).

Lemma mark_Some b m outs u : usage outs m = Some u → mark b m outs = Ret (upd b m outs).
Proof.
  unfold usage, mark, upd. destruct (Z.ltb_spec (mi_outputIndex m) 0) as [|Hm]; [done|].
  destruct (outs !! mi_amount m) as [l|] eqn:E; [|done]. cbn [mbind option_bind default]. intros Hu.
  unfold at_. rewrite (proj2 (Z.ltb_ge _ _)) by done. cbn [default]. unfold id. rewrite Hu. cbn [mbind outcome_bind].
  f_equal. apply map_eq. intros a. destruct (decide (a = mi_amount m)) as [->|Hne].
  - rewrite lookup_insert_eq, lookup_alter_eq, E. cbn. f_equal. apply list_eq. intros j.
    destruct (decide (j = Z.to_nat (mi_outputIndex m))) as [->|Hj].
    + rewrite list_lookup_insert_eq by (eapply lookup_lt_Some, Hu). by rewrite list_lookup_alter_eq, Hu.
    + by rewrite list_lookup_insert_ne, list_lookup_alter_ne by done.
  - by rewrite lookup_insert_ne, lookup_alter_ne by done.
Qed.

Lemma mark_ret b m outs outs' : mark b m outs = Ret outs' →
  ∃ u, usage outs m = Some u ∧ outs' = upd b m outs.
Proof.
  intros Hr. destruct (usage outs m) as [u|] eqn:Hu.
  - exists u. split; [done|]. apply (mark_Some b) in Hu. congruence.
  - exfalso. unfold usage in Hu. unfold mark, at_ in Hr.
    destruct (Z.ltb_spec (mi_outputIndex m) 0); [done|].
    destruct (outs !! mi_amount m) as [l|] eqn:E; cbn [default] in Hr; unfold id in Hr.
    + cbn [mbind option_bind] in Hu. by rewrite Hu in Hr.
    + by rewrite lookup_nil in Hr.
Qed.

Lemma usage_upd_ne b m m' outs :
  position m ≠ position m' → 0 <= mi_outputIndex m → usage (upd b m outs) m' = usage outs m'.
Proof.
  unfold usage, upd, position. intros Hne Hm. destruct (Z.ltb_spec (mi_outputIndex m') 0); [done|].
  destruct (decide (mi_amount m = mi_amount m')) as [Ea|Ha].
  - rewrite <- Ea. rewrite lookup_alter_eq. destruct (outs !! mi_amount m) as [l|]; [|done].
    cbn. apply list_lookup_alter_ne. intros Hi. apply Hne. f_equal; [done|lia].
  - by rewrite lookup_alter_ne by done.
Qed.

Lemma upd_commute b b' m m' outs :
  position m ≠ position m' → 0 <= mi_outputIndex m → 0 <= mi_outputIndex m' →
  upd b m (upd b' m' outs) = upd b' m' (upd b m outs).
Proof.
  unfold upd, position. intros Hne Hm Hm'. destruct (decide (mi_amount m = mi_amount m')) as [Ea|Ha].
  - rewrite Ea, !alter_alter_eq. apply alter_ext. intros l _. cbn.
    apply list_alter_alter_ne. intros Hi. apply Hne. f_equal; [done|lia].
  - by apply alter_alter_ne.
Qed.

Lemma upd_undo m outs u :
  usage outs m = Some u → mu_isUsed u = false → upd false m (upd true m outs) = outs.
Proof.
  unfold usage, upd. intros Hu Hf. destruct (mi_outputIndex m <? 0); [done|].
  destruct (outs !! mi_amount m) as [l|] eqn:E; [|done]. cbn in Hu.
  rewrite alter_alter_eq. apply alter_id. intros l' Hl'. rewrite E in Hl'. injection Hl' as <-. cbn.
  rewrite list_alter_alter_eq. rewrite (list_alter_ext _ id l l); [by apply list_alter_id| |done].
  intros u' Hu'. rewrite Hu in Hu'. injection Hu' as <-. destruct u. cbn in *. by subst.
Qed.

(** Marking all outputs that the inputs refer to. *)
Definition upd_all (b : bool) (ms : list MultisignatureInput) (outs : MultisignatureOutputsContainer)
    : MultisignatureOutputsContainer := foldl (λ o m, upd b m o) outs ms.

Lemma upd_all_cons b m ms outs : upd_all b (m :: ms) outs = upd_all b ms (upd b m outs).
Proof. done. Qed.

(** The outputs the inputs refer to exist and are unspent. *)
Definition unspent (outs : MultisignatureOutputsContainer) (m : MultisignatureInput) : Prop :=
  ∃ u, usage outs m = Some u ∧ mu_isUsed u = false.

Lemma usage_nonneg outs m u : usage outs m = Some u → 0 <= mi_outputIndex m.
Proof. unfold usage. case_bool; [done|lia]. Qed.

Lemma upd_upd_all b b' m ms : ∀ outs,
  position m ∉ position <$> ms → 0 <= mi_outputIndex m → Forall (λ m', 0 <= mi_outputIndex m') ms →
  upd b m (upd_all b' ms outs) = upd_all b' ms (upd b m outs).
Proof.
  induction ms as [|m' ms IH]; intros outs Hm H0 Hf; [done|].
  rewrite fmap_cons, not_elem_of_cons in Hm. destruct Hm as [Hne Hm].
  apply Forall_cons_iff in Hf as [Hm' Hf]. rewrite !upd_all_cons, IH by done. f_equal. by apply upd_commute.
Qed.

Lemma upd_all_undo ms : ∀ outs,
  NoDup (position <$> ms) → Forall (unspent outs) ms →
  upd_all false ms (upd_all true ms outs) = outs.
Proof.
  induction ms as [|m ms IH]; intros outs Hnd Hf; [done|].
  rewrite fmap_cons in Hnd. apply list.NoDup_cons in Hnd as [Hm Hnd].
  apply Forall_cons_iff in Hf as [(u & Hu & Hfalse) Hf]. pose proof (usage_nonneg _ _ _ Hu) as H0.
  assert (Forall (λ m', 0 <= mi_outputIndex m') ms) as Hpos.
  { eapply Forall_impl; [|exact Hf]. intros m' (u' & Hu' & _). by eapply usage_nonneg. }
  rewrite !upd_all_cons, upd_upd_all by done. rewrite (upd_undo _ _ _ Hu Hfalse). by apply IH.
Qed.

Lemma usage_upd_exists b m m' outs u :
  usage outs m' = Some u → ∃ u', usage (upd b m outs) m' = Some u'.
Proof.
  unfold usage, upd. case_bool; [done|]. destruct (decide (mi_amount m = mi_amount m')) as [Ea|Ha].
  - rewrite <- Ea, lookup_alter_eq. destruct (outs !! mi_amount m) as [l|]; [|done]. cbn.
    intros Hu. rewrite list_lookup_alter. case_decide as Hi; [rewrite Hi|]; rewrite Hu; by eexists.
  - rewrite lookup_alter_ne by done. eauto.
Qed.

Lemma mark_inputs_ret b ins : ∀ outs outs',
  mark_inputs b ins outs = Ret outs' → outs' = upd_all b (multisig_inputs ins) outs.
Proof.
  induction ins as [|[i|k|m] ins IH]; intros outs outs' Hr; cbn [mark_inputs] in Hr;
    [by injection Hr|by apply IH|by apply IH|].
  destruct (mark b m outs) as [outs1| |] eqn:E; [|done..]. apply mark_ret in E as (u & _ & ->).
  by apply IH.
Qed.

(** Taking back the inputs of a transaction whose outputs exist. *)
Lemma unspend_inputs_ret ins : ∀ spent outs,
  Forall (λ m, ∃ u, usage outs m = Some u) (multisig_inputs ins) →
  unspend_inputs ins spent outs =
    Ret (spent ∖ list_to_set (key_images ins), upd_all false (multisig_inputs ins) outs).
Proof.
  induction ins as [|[i|k|m] ins IH]; intros spent outs Hf; cbn [unspend_inputs].
  - cbn. do 2 f_equal. set_solver.
  - by apply IH.
  - rewrite IH by done. change (key_images (InKey k :: ins)) with (ki_keyImage k :: key_images ins).
    do 2 f_equal. set_solver.
  - change (multisig_inputs (InMultisignature m :: ins)) with (m :: multisig_inputs ins) in *.
    apply Forall_cons_iff in Hf as [[u Hu] Hf]. rewrite (mark_Some _ _ _ _ Hu). cbn [mbind outcome_bind].
    rewrite IH; [done|]. eapply Forall_impl; [|exact Hf]. intros m' [u' Hu']. by eapply usage_upd_exists.
Qed.

(** ** Created outputs: proofs *)

(** No amount has an empty vector: [popTransaction] erases those it empties. *)
Definition no_empty {A} (m : gmap Z (list A)) : Prop := ∀ a, m !! a ≠ Some [].

Definition tables_ok (s : OutputsContainer * MultisignatureOutputsContainer) : Prop :=
  no_empty s.1 ∧ no_empty s.2.

Lemma no_empty_snoc {A} (m : gmap Z (list A)) a l x : no_empty m → no_empty (<[a := l ++ [x]]> m).
Proof.
  intros Hm a'. destruct (decide (a = a')) as [->|Hne]; [rewrite lookup_insert_eq|by rewrite lookup_insert_ne].
  by destruct l.
Qed.

Lemma push_output_ok ti i out s : tables_ok s → tables_ok (push_output ti i out s).2.
Proof.
  destruct s as [outs msigs]. intros [H1 H2]. unfold push_output.
  destruct (out_target out); split; cbn [fst snd] in *; try done; by apply no_empty_snoc.
Qed.

(** Taking back the last element appended for an amount. *)
Lemma undo_snoc {A} (m : gmap Z (list A)) a x :
  no_empty m →
  (match removelast (default [] (m !! a) ++ [x]) with
   | [] => delete a (<[a := default [] (m !! a) ++ [x]]> m)
   | l => <[a := l]> (<[a := default [] (m !! a) ++ [x]]> m)
   end) = m.
Proof.
  intros Hm. rewrite removelast_last. destruct (m !! a) as [l|] eqn:E; cbn [default].
  - unfold id. destruct l as [|y l]; [by apply Hm in E|]. rewrite insert_insert_eq. by apply insert_id.
  - by apply delete_insert_id.
Qed.

Lemma pop_push_output ti i out s : tables_ok s → pop_output ti i out (push_output ti i out s).2 = s.
Proof.
  destruct s as [outs msigs]. intros [H1 H2]. cbn [fst snd] in *. unfold push_output, pop_output.
  destruct (out_target out); cbn [snd]; rewrite lookup_insert_eq, last_snoc;
    cbn [mu_transactionIndex mu_isUsed mu_outputIndex]; rewrite !Z.eqb_refl; cbn [negb orb].
  - pose proof (undo_snoc outs (out_amount out) (ti, i) H1) as Hu.
    by destruct (removelast _); rewrite Hu.
  - pose proof (undo_snoc msigs (out_amount out)
      {| mu_transactionIndex := ti; mu_outputIndex := i; mu_isUsed := false |} H2) as Hu.
    by destruct (removelast _); rewrite Hu.
Qed.

Lemma pop_push_outputs ti l : ∀ i s, tables_ok s → pop_outputs ti i l (push_outputs ti i l s).2 = s.
Proof.
  induction l as [|out l IH]; intros i s Hs; cbn [push_outputs pop_outputs]; [done|].
  pose proof (pop_push_output ti i out s Hs) as Hpop. pose proof (push_output_ok ti i out s Hs) as Hok.
  destruct (push_output ti i out s) as [g s1]. cbn [snd] in *.
  specialize (IH (i + 1) s1 Hok). destruct (push_outputs ti (i + 1) l s1) as [gs s2].
  cbn [snd] in *. by rewrite IH.
Qed.

Lemma push_outputs_ok ti l : ∀ i s, tables_ok s → tables_ok (push_outputs ti i l s).2.
Proof.
  induction l as [|out l IH]; intros i s Hs; cbn [push_outputs]; [done|].
  pose proof (push_output_ok ti i out s Hs) as Hok. destruct (push_output ti i out s) as [g s1].
  specialize (IH (i + 1) s1 Hok). by destruct (push_outputs ti (i + 1) l s1).
Qed.

Lemma upd_no_empty b m outs : no_empty outs → no_empty (upd b m outs).
Proof.
  intros Hm a. unfold upd. rewrite lookup_alter. case_decide; [|apply Hm]. subst a.
  destruct (outs !! mi_amount m) as [l|] eqn:E; [|done]. cbn. intros [= Hl].
  destruct l; [by apply Hm in E|]. by destruct (Z.to_nat (mi_outputIndex m)).
Qed.

Lemma upd_all_no_empty b ms : ∀ outs, no_empty outs → no_empty (upd_all b ms outs).
Proof.
  induction ms as [|m ms IH]; intros outs Hm; [done|]. rewrite upd_all_cons. by apply IH, upd_no_empty.
Qed.

Lemma upd_all_exists b ms m' : ∀ outs u,
  usage outs m' = Some u → ∃ u', usage (upd_all b ms outs) m' = Some u'.
Proof.
  induction ms as [|m ms IH]; intros outs u Hu; [by eexists|].
  destruct (usage_upd_exists b m _ _ _ Hu) as [u1 Hu1]. rewrite upd_all_cons. eauto.
Qed.

(** ** Transactions: proofs *)

Section TransactionProofs.
Context `{CryptoOps}.

Definition chain_ok (s : ChainState) : Prop := tables_ok (m_outputs s, m_multisignatureOutputs s).

(** What a successful [pushTransaction] does. *)
Lemma pushTransaction_true tx h ti s gs s' :
  pushTransaction tx h ti s = Ret (true, gs, s') →
  let ms := multisig_inputs (inputs tx) in
  m_transactionMap s !! h = None ∧ NoDup (position <$> ms) ∧ NoDup (key_images (inputs tx)) ∧
  (∀ k, k ∈ key_images (inputs tx) → k ∉ m_spent_keys s) ∧
  m_transactionMap s' = <[h := ti]> (m_transactionMap s) ∧
  m_spent_keys s' = m_spent_keys s ∪ list_to_set (key_images (inputs tx)) ∧
  push_outputs ti 0 (outputs tx) (m_outputs s, upd_all true ms (m_multisignatureOutputs s)) =
    (gs, (m_outputs s', m_multisignatureOutputs s')) ∧
  mark_inputs true (inputs tx) (m_multisignatureOutputs s) = Ret (upd_all true ms (m_multisignatureOutputs s)) ∧
  outputs_countable tx = Ret tt ∧
  (∃ b, PaymentIdIndex_add tx (m_paymentIdIndex s) = Ret (b, m_paymentIdIndex s')).
Proof.
  unfold pushTransaction. destruct (m_transactionMap s !! h) eqn:Hh; [done|].
  destruct (checkMultisignatureInputsDiff tx) eqn:Hd; [|done]. cbn [negb].
  destruct (insert_keys [] (inputs tx) (m_spent_keys s)) as [[[] spent]| |] eqn:Hi; [|done..].
  cbn [mbind outcome_bind negb].
  destruct (mark_inputs true _ _) as [msigs| |] eqn:Hm; [|done..]. cbn [mbind outcome_bind].
  destruct (outputs_countable tx) as [[]| |]; [|done..]. cbn [mbind outcome_bind].
  destruct (push_outputs ti 0 (outputs tx) (m_outputs s, msigs)) as [gs0 [outs1 msigs1]] eqn:Hp.
  destruct (PaymentIdIndex_add tx (m_paymentIdIndex s)) as [[b pids]| |] eqn:Hpid; [|done..].
  cbn [mbind outcome_bind]. intros [= <- <-]. cbn.
  apply multisig_diff_NoDup in Hd as [Hd _]. apply insert_keys_true in Hi as (-> & Hnd & Hnot).
  pose proof Hm as Hm'. apply mark_inputs_ret in Hm' as ->. split_and!; eauto.
Qed.

(** A [pushTransaction] that reports a failure has changed nothing. *)
Lemma pushTransaction_false tx h ti s gs s' :
  pushTransaction tx h ti s = Ret (false, gs, s') → s' = s.
Proof.
  unfold pushTransaction. destruct (m_transactionMap s !! h) eqn:Hh; [by intros [= <- <-]|].
  destruct (checkMultisignatureInputsDiff tx); [|by intros [= <- <-]]. cbn [negb].
  destruct (insert_keys [] (inputs tx) (m_spent_keys s)) as [[[] spent]| |] eqn:Hi; [|..|done|done];
    cbn [mbind outcome_bind negb].
  - destruct (mark_inputs true _ _) as [msigs| |]; [|done..]. cbn [mbind outcome_bind].
    destruct (outputs_countable tx) as [[]| |]; [|done..]. cbn [mbind outcome_bind].
    destruct (push_outputs _ _ _ _) as [gs0 [outs1 msigs1]].
    by destruct (PaymentIdIndex_add tx (m_paymentIdIndex s)) as [[b pids]| |].
  - assert (spent = m_spent_keys s) as ->.
    { apply (insert_keys_false (inputs tx) []); [intros k Hk; by apply not_elem_of_nil in Hk|].
      rewrite <- Hi. f_equal. cbn. set_solver. }
    intros [= <- <-]. by destruct s.
Qed.

Lemma pushTransaction_ok tx h ti s gs s' :
  chain_ok s → pushTransaction tx h ti s = Ret (true, gs, s') → chain_ok s'.
Proof.
  intros [H1 H2] Hp. apply pushTransaction_true in Hp as (_ & _ & _ & _ & _ & _ & Hp & _).
  unfold chain_ok. pose proof (push_outputs_ok ti (outputs tx) 0
    (m_outputs s, upd_all true (multisig_inputs (inputs tx)) (m_multisignatureOutputs s))) as Hok.
  rewrite Hp in Hok. apply Hok. split; [done|]. by apply upd_all_no_empty.
Qed.

Lemma PaymentIdIndex_undo tx pids b pids1 :
  PaymentIdIndex_add tx pids = Ret (b, pids1) →
  ∃ b' pids2, PaymentIdIndex_remove tx pids1 = Ret (b', pids2) ∧ pids2 ≡ₚ pids.
Proof.
  unfold PaymentIdIndex_add, PaymentIdIndex_remove.
  destruct (getObjectHash _ _ tx) as [h| |]; [|done..]. cbn [mbind outcome_bind].
  destruct (getPaymentId tx) as [[pid|]| |]; [| |done..]; cbn [mbind outcome_bind]; intros [= <- <-].
  - destruct (mm_remove_emplace pid h pids) as [_ Hp].
    destruct (mm_remove pid h (mm_emplace pid h pids)) as [b' pids2]. exists b', pids2. by split.
  - exists false, pids. by split.
Qed.

(** Taking back the transaction that was pushed last. *)
Lemma pop_push_transaction (tx : Transaction) h ti s gs s' :
  chain_ok s → Forall (unspent (m_multisignatureOutputs s)) (multisig_inputs (inputs tx)) →
  pushTransaction tx h ti s = Ret (true, gs, s') →
  ∃ s'', popTransaction tx h s' = Ret s'' ∧ s'' ≡ s.
Proof.
  intros [Hok1 Hok2] Hun (Hh & Hpos & Hnd & Hnot & Hmap & Hspent & Hpush & _ & _ & b & Hpid)%pushTransaction_true.
  unfold popTransaction. rewrite Hmap, lookup_insert_eq.
  pose proof (pop_push_outputs ti (outputs tx) 0
    (m_outputs s, upd_all true (multisig_inputs (inputs tx)) (m_multisignatureOutputs s))) as Hpop.
  rewrite Hpush in Hpop. cbn [snd] in Hpop. rewrite Hpop by (split; [done|by apply upd_all_no_empty]).
  rewrite unspend_inputs_ret.
  2:{ eapply Forall_impl; [|exact Hun]. intros m (u & Hu & _). by eapply upd_all_exists. }
  cbn [mbind outcome_bind]. destruct (PaymentIdIndex_undo _ _ _ _ Hpid) as (b' & pids & -> & Hp).
  cbn [mbind outcome_bind]. eexists. split; [done|]. split_and!; cbn; [by apply delete_insert_id|
    |done|by apply upd_all_undo|done].
  rewrite Hspent. apply set_eq. intros k. specialize (Hnot k).
  rewrite elem_of_difference, elem_of_union, elem_of_list_to_set. tauto.
Qed.

(** [rebuildCache] treats a transaction like the [pushTransaction] that stored it. *)
Lemma spend_inputs_mark ins : ∀ spent outs outs',
  mark_inputs true ins outs = Ret outs' →
  spend_inputs ins spent outs = Ret (spent ∪ list_to_set (key_images ins), outs').
Proof.
  induction ins as [|[i|k|m] ins IH]; intros spent outs outs' Hm; cbn [mark_inputs spend_inputs] in *.
  - injection Hm as <-. do 2 f_equal. cbn. set_solver.
  - by apply IH.
  - rewrite (IH _ _ _ Hm). do 2 f_equal.
    change (key_images (InKey k :: ins)) with (ki_keyImage k :: key_images ins). set_solver.
  - destruct (mark true m outs) as [outs1| |]; [|done..]. by apply IH.
Qed.

Lemma rebuild_push_transaction tx h ti s gs s' :
  pushTransaction tx h ti s = Ret (true, gs, s') →
  rebuild_transaction tx h ti s = Ret {|
    m_transactionMap := m_transactionMap s'; m_spent_keys := m_spent_keys s'; m_outputs := m_outputs s';
    m_multisignatureOutputs := m_multisignatureOutputs s'; m_paymentIdIndex := m_paymentIdIndex s |}.
Proof.
  intros (Hh & _ & _ & _ & Hmap & Hspent & Hpush & Hmark & Hc & _)%pushTransaction_true.
  unfold rebuild_transaction. rewrite (spend_inputs_mark _ _ _ _ Hmark). cbn [mbind outcome_bind].
  rewrite Hc. cbn [mbind outcome_bind]. rewrite Hpush, Hh. by rewrite Hmap, Hspent.
Qed.

(** ** Equivalent states: proofs *)

Lemma mm_remove_proper (pid h : Hash) l l' : l ≡ₚ l' →
  (mm_remove pid h l).1 = (mm_remove pid h l').1 ∧ (mm_remove pid h l).2 ≡ₚ (mm_remove pid h l').2.
Proof.
  intros Hl. pose proof (mm_remove_spec pid h l) as H1. pose proof (mm_remove_spec pid h l') as H2.
  destruct (mm_remove pid h l) as [[] r], (mm_remove pid h l') as [[] r']; cbn [fst snd] in *.
  - split; [done|]. apply (Permutation_cons_inv (a := (pid, h))). by rewrite <- H1, <- H2.
  - destruct H2 as [[] _]. rewrite <- Hl, H1. by left.
  - destruct H1 as [[] _]. rewrite Hl, H2. by left.
  - destruct H1 as [_ ->], H2 as [_ ->]. by split.
Qed.

#[global] Instance popTransaction_proper tx h : Proper ((≡) ==> (≡)) (popTransaction tx h).
Proof.
  intros s s' (Hmap & Hsp & Ho & Hm & Hp). unfold popTransaction. rewrite Hmap, Ho, Hm, Hsp.
  destruct (m_transactionMap s' !! h) as [ti|]; [|constructor].
  destruct (pop_outputs ti 0 (outputs tx) _) as [outs msigs].
  destruct (unspend_inputs _ _ _) as [[spent msigs1]| |]; [|constructor..]. cbn [mbind outcome_bind].
  unfold PaymentIdIndex_remove. destruct (getObjectHash _ _ tx) as [th| |]; [|constructor..].
  cbn [mbind outcome_bind]. destruct (getPaymentId tx) as [[pid|]| |]; [| |constructor..]; cbn [mbind outcome_bind].
  - destruct (mm_remove_proper pid th _ _ Hp) as [_ Hr]. destruct (mm_remove pid th (m_paymentIdIndex s)),
      (mm_remove pid th (m_paymentIdIndex s')). constructor. by split_and!.
  - constructor. by split_and!.
Qed.
End TransactionProofs.

(** ** Theorems *)

(** C10: [pushTransaction] either reports a failure and has changed nothing, or stores
    a transaction whose key images were fresh and distinct, and then
    [popTransaction] brings back the tables of before. *)
Theorem transaction_push_pop `{CryptoOps} (tx : Transaction) h ti s stored indexes s' :
  chain_ok s → Forall (unspent (m_multisignatureOutputs s)) (multisig_inputs (inputs tx)) →
  pushTransaction tx h ti s = Ret (stored, indexes, s') →
  if stored then
    NoDup (key_images (inputs tx)) ∧
    (∀ k, k ∈ key_images (inputs tx) → (k ∉ m_spent_keys s) ∧ k ∈ m_spent_keys s') ∧
    chain_ok s' ∧ ∃ s'', popTransaction tx h s' = Ret s'' ∧ s'' ≡ s
  else s' = s.
Proof.
  intros Hok Hun Hp. destruct stored; [|by eapply pushTransaction_false].
  pose proof Hp as (_ & _ & Hnd & Hnot & _ & Hs & _)%pushTransaction_true.
  split_and!; [done| |by eapply pushTransaction_ok|by eapply pop_push_transaction].
  intros k Hk. split; [by apply Hnot|]. rewrite Hs. apply elem_of_union. right. by apply elem_of_list_to_set.
Qed.

(** A chain of one block whose transaction has a key output and a deposit output
    without a term, and a transaction that spends both. *)
Definition sample_outputs : Transaction := {|
  tx_prefix := {| version := 2; unlockTime := 0; inputs := [InBase {| bi_blockIndex := 0 |}];
    outputs := [ {| out_amount := 5; out_target := OutKey {| ko_key := toy 9 |} |};
                 {| out_amount := 7; out_target := OutMultisignature
                      {| mo_keys := [toy 3; toy 4]; mo_requiredSignatureCount := 1; mo_term := 0 |} |} ];
    extra := [] |};
  signatures := [] |}.

Definition sample_blocks : list BlockEntry :=
  [{| be_bl := sample_block 0 []; be_height := 0; block_cumulative_size := 100; cumulative_difficulty := 1;
      already_generated_coins := 12;
      be_transactions := [{| te_tx := sample_outputs; m_global_output_indexes := [0; 0] |}] |}].

Definition sample_state : ChainState := {|
  m_transactionMap := ∅; m_spent_keys := ∅;
  m_outputs := {[5 := [({| ti_block := 0; ti_transaction := 0 |}, 0)]]};
  m_multisignatureOutputs := {[7 := [{| mu_transactionIndex := {| ti_block := 0; ti_transaction := 0 |};
                                        mu_outputIndex := 1; mu_isUsed := false |}]]};
  m_paymentIdIndex := [] |}.

Definition sample_spend_both : Transaction := {|
  tx_prefix := {| version := 2; unlockTime := 0;
    inputs := [InKey {| ki_amount := 5; ki_outputIndexes := [0]; ki_keyImage := toy 27 |};
               InMultisignature {| mi_amount := 7; mi_signatureCount := 1; mi_outputIndex := 0; mi_term := 0 |}];
    outputs := [ {| out_amount := 10; out_target := OutKey {| ko_key := toy 11 |} |} ];
    extra := [] |};
  signatures := [[replicate 64 1]; [replicate 64 4]] |}.

Lemma transaction_push_pop_witness :
  match pushTransaction (H := toy_crypto) sample_spend_both (toy 1) {| ti_block := 1; ti_transaction := 1 |}
          sample_state with
  | Ret (true, indexes, s') => indexes = [0] ∧
      ∃ s'', popTransaction (H := toy_crypto) sample_spend_both (toy 1) s' = Ret s'' ∧ s'' ≡ sample_state
  | _ => False
  end.
Proof.
  destruct (pushTransaction (H := toy_crypto) sample_spend_both (toy 1)
    {| ti_block := 1; ti_transaction := 1 |} sample_state) as [[[[] indexes] s']| |] eqn:E;
    [|by vm_compute in E..].
  split; [vm_compute in E; by injection E|].
  apply (transaction_push_pop (H := toy_crypto)) in E as (_ & _ & _ & Hpop); [exact Hpop| |].
  - split; intros a; cbn; (destruct (decide (a = 5)) as [->|]; [by vm_compute|]);
      (destruct (decide (a = 7)) as [->|]; [by vm_compute|]); by rewrite lookup_singleton_ne.
  - constructor; [|constructor]. eexists. split; [vm_compute; reflexivity|done].
Defined.
