(* ===== verification/InputCheck.v ===== *)
(** * Checking the inputs and outputs of a transaction

    [src/src/CryptoNoteCore/Blockchain.cpp] and [Blockchain.h]: what the chain
    requires of a transaction before it is stored ([checkTransactionInputs] and what
    it calls, [check_tx_outputs], [checkTransactionSize]). The functions read the
    stored blocks, the tables and the checkpoints and change none of them; the clock
    is the parameter [now]. *)

From S2P Require Import Prelude Streams CryptoNoteTypes Serialization CryptoNoteSerialization Crypto Config Currency.
From S2P Require Import TransactionExtra FormatUtils Checkpoints BlockIndex BlockchainIndices ChainState.

Local Open Scope Z_scope.

(** [BlockInfo] of [ITransactionValidator.h]. *)
Record BlockInfo := { info_height : Z; info_id : Hash }.

Definition empty_BlockInfo : BlockInfo := {| info_height := 0; info_id := NULL_HASH |}.
Definition info_empty (i : BlockInfo) : bool := bool_decide (info_id i = NULL_HASH).

Section InputCheck.
Context `{CryptoOps}.
Variable uninit : list Z.
Variable c : Currency.
(** [time(NULL)]. *)
Variable now : Z.
(** [m_blocks], [m_blockIndex], [m_checkpoints] and the tables. *)
Variables (blocks : list BlockEntry) (index : BlockIndex) (points : Checkpoints) (s : ChainState).

Definition getCurrentBlockchainHeight : Z := u32 (Z.of_nat (length blocks)).

Definition isInCheckpointZone (height : Z) : bool := is_in_checkpoint_zone height points.

(** [m_blocks[i]]: the vector on disk throws for an index out of range. *)
Definition block_at (i : Z) : outcome BlockEntry :=
  if i <? 0 then Throw "SwappedVector::operator[]"
  else match blocks !! Z.to_nat i with
       | None => Throw "SwappedVector::operator[]"
       | Some b => mret b
       end.

Definition transactionByIndex (ti : TransactionIndex) : outcome TransactionEntry :=
  b ← block_at (ti_block ti); at_ (be_transactions b) (ti_transaction ti).

Definition have_tx_keyimg_as_spent (key_im : KeyImage) : bool := bool_decide (key_im ∈ m_spent_keys s).

Definition haveTransaction (id : Hash) : bool := bool_decide (is_Some (m_transactionMap s !! id)).

Definition haveTransactionKeyImagesAsSpent (tx : Transaction) : bool :=
  existsb (λ i, match i with InKey k => have_tx_keyimg_as_spent (ki_keyImage k) | _ => false end) (inputs tx).

Definition is_tx_spendtime_unlocked (unlock_time : Z) : bool :=
  if unlock_time <? m_maxBlockHeight c
  then unlock_time <=? u64 (u32 (getCurrentBlockchainHeight - 1) + m_lockedTxAllowedDeltaBlocks c)
  else unlock_time <=? u64 (now + m_lockedTxAllowedDeltaSeconds c).

(** ** Key inputs *)

(** [outputs_visitor::handle_output]: the key, or [None] where it returns false. *)
Definition handle_output (tx : Transaction) (out : TransactionOutput) : option PublicKey :=
  if negb (is_tx_spendtime_unlocked (unlockTime tx)) then None
  else match out_target out with
       | OutKey k => Some (ko_key k)
       | OutMultisignature _ => None
       end.

(** The loop of [scanOutputKeysForIndexes] with the visitor: the keys collected and
    the greatest related height, which only the last output of the ring raises. *)
Fixpoint scan_loop (offsets : list Z) (amount_outs_vec : list (TransactionIndex * Z))
    (pmax : Z) : outcome (option (list PublicKey * Z)) :=
  match offsets with
  | [] => mret (Some ([], pmax))
  | i :: offsets' =>
      match amount_outs_vec !! Z.to_nat i with
      | None => mret None
      | Some (ti, o) =>
          tx ← transactionByIndex ti;
          match outputs (te_tx tx) !! Z.to_nat o with
          | None => mret None
          | Some out =>
              match handle_output (te_tx tx) out with
              | None => mret None
              | Some key =>
                  let pmax := if bool_decide (offsets' = []) && (pmax <? ti_block ti)
                              then ti_block ti else pmax in
                  r ← scan_loop offsets' amount_outs_vec pmax;
                  mret (match r with None => None | Some (keys, m) => Some (key :: keys, m) end)
              end
          end
      end
  end.

Definition scanOutputKeysForIndexes (txin : KeyInput) (pmax : Z) : outcome (option (list PublicKey * Z)) :=
  match m_outputs s !! ki_amount txin with
  | None => mret None
  | Some amount_outs_vec =>
      if bool_decide (ki_outputIndexes txin = []) then mret None
      else scan_loop (relative_output_offsets_to_absolute (ki_outputIndexes txin)) amount_outs_vec pmax
  end.

(** The neutral element and the order of the base point, as byte strings. *)
Definition key_image_I : KeyImage := 1 :: replicate 31 0.
Definition key_image_L : KeyImage :=
  [0xed; 0xd3; 0xf5; 0x5c; 0x1a; 0x63; 0x12; 0x58; 0xd6; 0x9c; 0xf7; 0xa2; 0xde; 0xf9; 0xde; 0x14]
  ++ replicate 15 0 ++ [0x10].

(** [check_tx_input]: the result and the greatest related height. *)
Definition check_tx_input (txin : KeyInput) (tx_prefix_hash : Hash) (sig : list Signature) (pmax : Z)
    : outcome (bool * Z) :=
  r ← scanOutputKeysForIndexes txin pmax;
  mret (match r with
        | None => (false, pmax)
        | Some (output_keys, pmax) =>
            if negb (length (ki_outputIndexes txin) =? length output_keys)%nat then (false, pmax)
            else if negb (length sig =? length output_keys)%nat then (false, pmax)
            else if isInCheckpointZone getCurrentBlockchainHeight then (true, pmax)
            else if negb (bool_decide (scalarmultKey (ki_keyImage txin) key_image_L = key_image_I))
            then (false, pmax)
            else (check_ring_signature tx_prefix_hash (ki_keyImage txin) output_keys sig, pmax)
        end).

(** ** Multisignature inputs *)

(** The loop over the signatures and the keys of the output: each signature must
    fit a key behind the one of the signature before. *)
Fixpoint match_signatures (prefix_hash : Hash) (keys : list PublicKey) (sigs : list Signature) : bool :=
  match sigs with
  | [] => true
  | sig :: sigs' =>
      match keys with
      | [] => false
      | key :: keys' =>
          if check_signature prefix_hash key sig then match_signatures prefix_hash keys' sigs'
          else match_signatures prefix_hash keys' sigs
      end
  end.

Definition validateInput (input : MultisignatureInput) (transactionPrefixHash : Hash)
    (transactionSignatures : list Signature) : outcome bool :=
  _ ← assert_ (mi_signatureCount input =? Z.of_nat (length transactionSignatures));
  match m_multisignatureOutputs s !! mi_amount input with
  | None => mret false
  | Some amountOutputs =>
      match amountOutputs !! Z.to_nat (mi_outputIndex input) with
      | None => mret false
      | Some u =>
          if mu_isUsed u then mret false
          else
            outputTransaction ← transactionByIndex (mu_transactionIndex u);
            if negb (is_tx_spendtime_unlocked (unlockTime (te_tx outputTransaction))) then mret false
            else
              out ← at_ (outputs (te_tx outputTransaction)) (mu_outputIndex u);
              _ ← assert_ (out_amount out =? mi_amount input);
              match out_target out with
              | OutKey _ => Abort
              | OutMultisignature output =>
                  mret (
                    (mi_signatureCount input =? mo_requiredSignatureCount output) &&
                    (mi_term input =? mo_term output) &&
                    negb (negb (mo_term output =? 0) &&
                          (getCurrentBlockchainHeight <? u32 (ti_block (mu_transactionIndex u) + mo_term output))) &&
                    match_signatures transactionPrefixHash (mo_keys output) transactionSignatures)
              end
      end
  end.

(** ** Transactions *)

(** The loop of [checkTransactionInputs]; the signatures are those from the input
    on. *)
Fixpoint check_inputs_loop (ins : list TransactionInput) (sigs : list (list Signature))
    (tx_prefix_hash : Hash) (pmax : Z) : outcome (bool * Z) :=
  match ins with
  | [] => mret (true, pmax)
  | i :: ins' =>
      match sigs with
      | [] => Abort
      | sig :: sigs' =>
          match i with
          | InBase _ => mret (false, pmax)
          | InKey k =>
              if bool_decide (ki_outputIndexes k = []) then mret (false, pmax)
              else if have_tx_keyimg_as_spent (ki_keyImage k) then mret (false, pmax)
              else if negb (isInCheckpointZone getCurrentBlockchainHeight) then
                '(ok, pmax) ← check_tx_input k tx_prefix_hash sig pmax;
                if ok : bool then check_inputs_loop ins' sigs' tx_prefix_hash pmax else mret (false, pmax)
              else check_inputs_loop ins' sigs' tx_prefix_hash pmax
          | InMultisignature m =>
              if negb (isInCheckpointZone getCurrentBlockchainHeight) then
                ok ← validateInput m tx_prefix_hash sig;
                if ok : bool then check_inputs_loop ins' sigs' tx_prefix_hash pmax else mret (false, pmax)
              else check_inputs_loop ins' sigs' tx_prefix_hash pmax
          end
      end
  end.

(** [checkTransactionInputs(tx, pmax_used_block_height)]. *)
Definition checkTransactionInputs (tx : Transaction) : outcome (bool * Z) :=
  tx_prefix_hash ← getObjectHash cn_fast_hash serialize_TransactionPrefix (tx_prefix tx);
  _ ← getObjectHash cn_fast_hash serialize_Transaction tx;
  check_inputs_loop (inputs tx) (signatures tx) tx_prefix_hash 0.

(** [check_tx_outputs]. *)
Definition check_tx_output (version : Z) (out : TransactionOutput) : bool :=
  match out_target out with
  | OutKey _ => true
  | OutMultisignature o =>
      if version <? TRANSACTION_VERSION_2 then false
      else if negb (mo_term o =? 0) then
        if (mo_term o <? m_depositMinTerm c) || (m_depositMaxTerm c <? mo_term o) then false
        else negb (out_amount out <? m_depositMinAmount c)
      else true
  end.
Definition check_tx_outputs (tx : Transaction) : bool := forallb (check_tx_output (version tx)) (outputs tx).

Definition getBlockIdByHeight (height : Z) : outcome Hash :=
  _ ← assert_ (height <? bi_size index); bi_getBlockId height index.

Definition getTailId : outcome Hash :=
  if bool_decide (length blocks = 0%nat) then mret NULL_HASH else bi_getTailId index.

(** [checkTransactionInputs(tx, max_used_block_height, max_used_block_id, tail)]: the
    result, and the height and hash of the last block used; a failed check leaves
    the height that was reached. *)
Definition checkTransactionInputs_block (tx : Transaction) (maxUsedBlock : BlockInfo)
    : outcome (bool * BlockInfo) :=
  '(res, max_used_block_height) ← checkTransactionInputs tx;
  let used := {| info_height := max_used_block_height; info_id := info_id maxUsedBlock |} in
  if negb res then mret (false, used)
  else match blocks !! Z.to_nat max_used_block_height with
       | None => mret (false, used)
       | Some b =>
           id ← get_block_hash uninit (be_bl b);
           mret (true, {| info_height := max_used_block_height; info_id := id |})
       end.

(** The tail the check reports through its pointer. *)
Definition tail_info : outcome BlockInfo :=
  _ ← assert_ (negb (bool_decide (length blocks = 0%nat)));
  id ← getTailId;
  mret {| info_height := u32 (getCurrentBlockchainHeight - 1); info_id := id |}.

(** [ITransactionValidator::checkTransactionInputs(tx, maxUsedBlock)]. *)
Definition validator_checkTransactionInputs (tx : Transaction) (maxUsedBlock : BlockInfo)
    : outcome (bool * BlockInfo) :=
  '(ok, used) ← checkTransactionInputs_block tx maxUsedBlock;
  mret (ok && check_tx_outputs tx, used).

(** [ITransactionValidator::checkTransactionInputs(tx, maxUsedBlock, lastFailed)]. *)
Definition check_again (tx : Transaction) (maxUsedBlock lastFailed : BlockInfo)
    : outcome (bool * BlockInfo * BlockInfo) :=
  tail ← tail_info;
  '(ok, used) ← checkTransactionInputs_block tx maxUsedBlock;
  mret (if ok : bool then (true, used, lastFailed) else (false, used, tail)).

Definition validator_recheckTransactionInputs (tx : Transaction) (maxUsedBlock lastFailed : BlockInfo)
    : outcome (bool * BlockInfo * BlockInfo) :=
  if info_empty maxUsedBlock then
    known ← (if negb (info_empty lastFailed) && (info_height lastFailed <? getCurrentBlockchainHeight) then
               id ← getBlockIdByHeight (info_height lastFailed);
               mret (bool_decide (id = info_id lastFailed))
             else mret false);
    if known : bool then mret (false, maxUsedBlock, lastFailed)
    else check_again tx maxUsedBlock lastFailed
  else if getCurrentBlockchainHeight <=? info_height maxUsedBlock then
    mret (false, maxUsedBlock, lastFailed)
  else
    id ← getBlockIdByHeight (info_height maxUsedBlock);
    if bool_decide (id = info_id maxUsedBlock) then mret (true, maxUsedBlock, lastFailed)
    else
      failed ← getBlockIdByHeight (info_height lastFailed);
      if bool_decide (info_id lastFailed = failed) then mret (false, maxUsedBlock, lastFailed)
      else check_again tx maxUsedBlock lastFailed.
End InputCheck.

(** ** What the checks accept *)

Section Exact.
Context `{CryptoOps}.
Variable c : Currency.
Variable now : Z.
Variables (blocks : list BlockEntry) (points : Checkpoints) (s : ChainState).

(** A stored transaction. *)
Definition stored (ti : TransactionIndex) : option Transaction :=
  if (ti_block ti <? 0) || (ti_transaction ti <? 0) then None
  else b ← blocks !! Z.to_nat (ti_block ti);
       e ← be_transactions b !! Z.to_nat (ti_transaction ti); Some (te_tx e).

(** The key of the output with the given global index, if it may be spent. *)
Definition ring_key (amount off : Z) : option PublicKey :=
  match m_outputs s !! amount with
  | None => None
  | Some outs =>
      match outs !! Z.to_nat off with
      | None => None
      | Some (ti, o) =>
          match stored ti with
          | None => None
          | Some tx =>
              match outputs tx !! Z.to_nat o with
              | None => None
              | Some out => handle_output c now blocks tx out
              end
          end
      end
  end.

(** A key input is in order: its key image is fresh and of the right order, and the
    ring signature holds for the keys its indices refer to. *)
Definition valid_key_input (tx_prefix_hash : Hash) (k : KeyInput) (sig : list Signature) : Prop :=
  ki_outputIndexes k ≠ [] ∧ (ki_keyImage k ∉ m_spent_keys s) ∧
  ∃ keys, mapM (ring_key (ki_amount k)) (relative_output_offsets_to_absolute (ki_outputIndexes k)) = Some keys ∧
    length sig = length keys ∧
    scalarmultKey (ki_keyImage k) key_image_L = key_image_I ∧
    check_ring_signature tx_prefix_hash (ki_keyImage k) keys sig = true.

(** A multisignature input is in order: its output is unspent and unlocked, a
    deposit has reached its term, and the signatures are of distinct keys of the
    output, in their order. *)
Definition valid_multisignature_input (tx_prefix_hash : Hash) (m : MultisignatureInput)
    (sig : list Signature) : Prop :=
  ∃ u tx out output,
    (m_multisignatureOutputs s !! mi_amount m ≫= λ l, l !! Z.to_nat (mi_outputIndex m)) = Some u ∧
    mu_isUsed u = false ∧ stored (mu_transactionIndex u) = Some tx ∧
    is_tx_spendtime_unlocked c now blocks (unlockTime tx) = true ∧
    0 <= mu_outputIndex u ∧ outputs tx !! Z.to_nat (mu_outputIndex u) = Some out ∧
    out_amount out = mi_amount m ∧ out_target out = OutMultisignature output ∧
    mi_signatureCount m = mo_requiredSignatureCount output ∧ mi_term m = mo_term output ∧
    (mo_term output ≠ 0 →
       u32 (ti_block (mu_transactionIndex u) + mo_term output) <= getCurrentBlockchainHeight blocks) ∧
    ∃ keys, sublist keys (mo_keys output) ∧
      Forall2 (λ key x, check_signature tx_prefix_hash key x = true) keys sig.

Definition valid_input (tx_prefix_hash : Hash) (i : TransactionInput) (sig : list Signature) : Prop :=
  match i with
  | InBase _ => False
  | InKey k => valid_key_input tx_prefix_hash k sig
  | InMultisignature m =>
      mi_signatureCount m = Z.of_nat (length sig) ∧ valid_multisignature_input tx_prefix_hash m sig
  end.

(** *** Multisignatures *)

Lemma Forall2_nil_r {A B} (R : A → B → Prop) l : Forall2 R l [] ↔ l = [].
Proof. split; [by inversion 1|intros ->; constructor]. Qed.

(** The greedy match finds an assignment whenever there is one. *)
Lemma match_signatures_iff h keys : ∀ sigs,
  match_signatures h keys sigs = true ↔
  ∃ ks, sublist ks keys ∧ Forall2 (λ key x, check_signature h key x = true) ks sigs.
Proof.
  induction keys as [|key keys IH]; intros [|x sigs]; cbn [match_signatures].
  - split; [|done]. intros _. exists []. split; constructor.
  - split; [done|]. intros (ks & Hs & Hf). apply sublist_nil_r in Hs as ->. by inversion Hf.
  - split; [|done]. intros _. exists []. split; [apply sublist_nil_l|constructor].
  - destruct (check_signature h key x) eqn:E; rewrite IH; split.
    + intros (ks & Hs & Hf). exists (key :: ks). split; by constructor.
    + intros (ks & Hs & Hf). inversion Hf as [|k' ? ks' ? Hk Hf']; subst.
      exists ks'. split; [|done]. inversion Hs as [|? ? ? Hs'|? ? ? Hs']; subst; [done|].
      etrans; [|exact Hs']. by constructor.
    + intros (ks & Hs & Hf). exists ks. split; [by constructor|done].
    + intros (ks & Hs & Hf). exists ks. split; [|done].
      inversion Hf as [|k' ? ks' ? Hk Hf']; subst. inversion Hs; subst; [congruence|done].
Qed.

(** *** Lookups *)

Lemma at_iff {A} (l : list A) i x : at_ l i = Ret x ↔ 0 <= i ∧ l !! Z.to_nat i = Some x.
Proof.
  unfold at_. destruct (Z.ltb_spec i 0); [split; [done|lia]|].
  destruct (l !! Z.to_nat i); split; try done.
  - by intros [= ->].
  - by intros [_ [= ->]].
  - by intros [_ ?].
Qed.

Lemma transactionByIndex_iff ti tx :
  (∃ e, transactionByIndex blocks ti = Ret e ∧ te_tx e = tx) ↔ stored ti = Some tx.
Proof.
  unfold transactionByIndex, block_at, stored, at_.
  destruct (Z.ltb_spec (ti_block ti) 0); cbn [orb]; [split; [by intros (? & ? & _)|done]|].
  destruct (blocks !! Z.to_nat (ti_block ti)) as [b|]; cbn [mbind mret outcome_bind outcome_ret option_bind];
    [|split; [by intros (? & ? & _)|by destruct (ti_transaction ti <? 0)]].
  destruct (Z.ltb_spec (ti_transaction ti) 0); [split; [by intros (? & ? & _)|done]|].
  destruct (be_transactions b !! Z.to_nat (ti_transaction ti)) as [e|]; cbn [mbind mret outcome_ret option_bind];
    [|split; [by intros (? & ? & _)|done]].
  split; [by intros (e' & [= <-] & <-)|]. intros [= <-]. by eexists.
Qed.

(** *** Key inputs *)

Lemma scan_loop_iff amount outs offsets : m_outputs s !! amount = Some outs →
  ∀ pmax keys, (∃ m, scan_loop c now blocks offsets outs pmax = Ret (Some (keys, m))) ↔
    mapM (ring_key amount) offsets = Some keys.
Proof.
  intros Houts. induction offsets as [|i offsets IH]; intros pmax keys; cbn [scan_loop mapM].
  { split; [by intros (m & [= <- <-])|]. intros [= <-]. by eexists. }
  assert (ring_key amount i = match outs !! Z.to_nat i with
    | None => None
    | Some (ti, o) => match stored ti with
        | None => None
        | Some tx => match outputs tx !! Z.to_nat o with
            | None => None
            | Some out => handle_output c now blocks tx out
            end
        end
    end) as -> by (unfold ring_key; by rewrite Houts).
  destruct (outs !! Z.to_nat i) as [[ti o]|]; [|split; [by intros (m & ?)|done]].
  destruct (stored ti) as [tx|] eqn:Hst.
  2:{ split; [|done]. intros (m & Hm). destruct (transactionByIndex blocks ti) as [e| |] eqn:E; [|done..].
      assert (stored ti = Some (te_tx e)) by (apply transactionByIndex_iff; eauto). congruence. }
  apply transactionByIndex_iff in Hst as (e & -> & <-). cbn [mbind outcome_bind option_bind].
  destruct (outputs (te_tx e) !! Z.to_nat o) as [out|]; [|split; [by intros (m & ?)|done]].
  destruct (handle_output c now blocks (te_tx e) out) as [key|]; [|split; [by intros (m & ?)|done]].
  set (pmax' := if _ && _ then _ else _). specialize (IH pmax').
  cbn [mbind outcome_bind option_bind].
  destruct (mapM (ring_key amount) offsets) as [ks|].
  - destruct (proj2 (IH ks) eq_refl) as (m & ->). cbn [mbind outcome_bind option_bind mret option_ret].
    split; [by intros (m' & [= <- <-])|]. intros [= <-]. by eexists.
  - split; [|done]. intros (m & Hm).
    destruct (scan_loop c now blocks offsets outs pmax') as [[[ks m']|]| |]; [|done..].
    by pose proof (proj1 (IH ks) (ex_intro _ m' eq_refl)).
Qed.

Lemma mapM_length' {A B} (f : A → option B) l k : mapM f l = Some k → length k = length l.
Proof. intros Hm. apply mapM_Some in Hm. symmetry. by eapply Forall2_length. Qed.

Lemma absolute_length l : length (relative_output_offsets_to_absolute l) = length l.
Proof.
  destruct l as [|x l]; [done|]. cbn. f_equal. revert x. induction l as [|y l IH]; intros x; [done|].
  cbn. by rewrite IH.
Qed.

Lemma check_tx_input_iff k h sig pmax :
  isInCheckpointZone points (getCurrentBlockchainHeight blocks) = false → ki_outputIndexes k ≠ [] →
  (∃ m, check_tx_input c now blocks points s k h sig pmax = Ret (true, m)) ↔
  ∃ keys, mapM (ring_key (ki_amount k)) (relative_output_offsets_to_absolute (ki_outputIndexes k)) = Some keys ∧
    length sig = length keys ∧ scalarmultKey (ki_keyImage k) key_image_L = key_image_I ∧
    check_ring_signature h (ki_keyImage k) keys sig = true.
Proof.
  intros Hz Hne. unfold check_tx_input, scanOutputKeysForIndexes. rewrite Hz.
  destruct (m_outputs s !! ki_amount k) as [outs|] eqn:Ho.
  2:{ split; [by intros (m & ?)|]. intros (keys & Hk & _).
      destruct (ki_outputIndexes k) as [|x l]; [done|]. cbn in Hk. 
      assert (ring_key (ki_amount k) x = None) as Hr by (unfold ring_key; by rewrite Ho). by rewrite Hr in Hk. }
  rewrite (bool_decide_false (ki_outputIndexes k = [])) by done. pose proof (scan_loop_iff _ _
    (relative_output_offsets_to_absolute (ki_outputIndexes k)) Ho pmax) as Hscan.
  split.
  - intros (m & Hm). destruct (scan_loop _ _ _ _ _ _) as [[[keys m']|]| |]; [|done..].
    pose proof (proj1 (Hscan keys) (ex_intro _ m' eq_refl)) as Hk. exists keys. split; [done|].
    cbn [mbind outcome_bind] in Hm. injection Hm as Hm.
    destruct (length (ki_outputIndexes k) =? length keys)%nat; [|done]. cbn [negb] in Hm.
    destruct (Nat.eqb_spec (length sig) (length keys)) as [Hl|]; [|done]. cbn [negb] in Hm.
    destruct (bool_decide_reflect (scalarmultKey (ki_keyImage k) key_image_L = key_image_I)); [|done].
    cbn [negb] in Hm. injection Hm as Hm _. by split_and!.
  - intros (keys & Hk & Hl & Hs & Hr). destruct (proj2 (Hscan keys) Hk) as (m & ->).
    cbn [mbind outcome_bind]. apply mapM_length' in Hk. rewrite absolute_length in Hk.
    rewrite Hl, Hk, !Nat.eqb_refl, bool_decide_true, Hr by done. by eexists.
Qed.

(** *** Multisignature inputs *)

Lemma validateInput_iff m h sig :
  validateInput c now blocks s m h sig = Ret true ↔
  mi_signatureCount m = Z.of_nat (length sig) ∧ valid_multisignature_input h m sig.
Proof.
  unfold validateInput, valid_multisignature_input, assert_.
  destruct (Z.eqb_spec (mi_signatureCount m) (Z.of_nat (length sig))) as [Hc|Hc];
    [|split; [done|by intros [? _]]]. cbn [mbind outcome_bind].
  destruct (m_multisignatureOutputs s !! mi_amount m) as [l|]; cbn [mbind option_bind];
    [|split; [done|by intros (_ & u & tx & out & o & ? & _)]].
  destruct (l !! Z.to_nat (mi_outputIndex m)) as [u|];
    [|split; [done|by intros (_ & u & tx & out & o & ? & _)]].
  split.
  - destruct (mu_isUsed u) eqn:Hu; [done|].
    destruct (transactionByIndex blocks (mu_transactionIndex u)) as [e| |] eqn:Ht; [|done..].
    cbn [mbind outcome_bind].
    destruct (is_tx_spendtime_unlocked c now blocks (unlockTime (te_tx e))) eqn:Hun; [|done]. cbn [negb].
    destruct (at_ (outputs (te_tx e)) (mu_outputIndex u)) as [out| |] eqn:Hat; [|done..].
    apply at_iff in Hat as [H0 Hat]. cbn [mbind outcome_bind].
    destruct (Z.eqb_spec (out_amount out) (mi_amount m)) as [Ha|]; [|done]. cbn [mbind outcome_bind].
    destruct (out_target out) as [|o] eqn:Htgt; [done|]. intros [= Hall].
    rewrite !andb_true_iff, !Z.eqb_eq, negb_true_iff, match_signatures_iff in Hall.
    destruct Hall as [[[Hreq Hterm] Hlock] Hsig]. split; [done|].
    exists u, (te_tx e), out, o. split_and!; try done.
    + apply transactionByIndex_iff. eauto.
    + intros Hne. apply andb_false_iff in Hlock as [Hl|Hl]; [|lia].
      apply negb_false_iff, Z.eqb_eq in Hl. done.
  - intros (_ & u' & tx & out & o & [= <-] & -> & Hst & Hun & H0 & Hout & Ha & Htgt & Hreq & Hterm & Hlock & Hsig).
    apply transactionByIndex_iff in Hst as (e & -> & <-). cbn [mbind outcome_bind]. rewrite Hun. cbn [negb].
    rewrite (proj2 (at_iff _ _ _) (conj H0 Hout)). cbn [mbind outcome_bind].
    rewrite Ha, Z.eqb_refl. cbn [mbind outcome_bind]. rewrite Htgt. do 2 f_equal.
    rewrite !andb_true_iff, !Z.eqb_eq, negb_true_iff, match_signatures_iff. split_and!; try done.
    destruct (Z.eqb_spec (mo_term o) 0); [done|]. cbn [negb andb]. apply Z.ltb_ge. by apply Hlock.
Qed.

(** *** All inputs *)

Lemma check_inputs_loop_iff h ins :
  isInCheckpointZone points (getCurrentBlockchainHeight blocks) = false →
  ∀ sigs pmax, (length ins <= length sigs)%nat →
  (∃ m, check_inputs_loop c now blocks points s ins sigs h pmax = Ret (true, m)) ↔
  Forall2 (valid_input h) ins (take (length ins) sigs).
Proof.
  intros Hz. induction ins as [|i ins IH]; intros [|sig sigs] pmax Hl; cbn [check_inputs_loop length take] in *;
    [split; [constructor|by eexists]..|lia|].
  rewrite Hz. cbn [negb]. rewrite Forall2_cons_iff. destruct i as [b|k|m]; cbn [valid_input].
  - split; [by intros (m & ?)|by intros [? _]].
  - unfold valid_key_input, have_tx_keyimg_as_spent.
    destruct (bool_decide_reflect (ki_outputIndexes k = [])) as [|Hne];
      [split; [by intros (m & ?)|by intros ((? & _) & _)]|].
    destruct (bool_decide_reflect (ki_keyImage k ∈ m_spent_keys s)) as [|Hsp];
      [split; [by intros (m & ?)|by intros ((_ & ? & _) & _)]|].
    pose proof (check_tx_input_iff k h sig pmax Hz Hne) as Hk. split.
    + intros (m & Hm). destruct (check_tx_input c now blocks points s k h sig pmax) as [[[] m']| |]; [|done..].
      split; [|by eapply (IH sigs m'); [lia|by eexists]]. split_and!; [done..|]. apply Hk. by eexists.
    + intros [(_ & _ & Hv) Hf]. apply Hk in Hv as (m' & ->). cbn [mbind outcome_bind]. apply IH; [lia|done].
  - rewrite <- validateInput_iff. split.
    + intros (m' & Hm). destruct (validateInput c now blocks s m h sig) as [[]| |]; [|done..].
      split; [done|]. eapply (IH sigs pmax); [lia|by eexists].
    + intros [-> Hf]. cbn [mbind outcome_bind]. apply IH; [lia|done].
Qed.
End Exact.

(** ** Theorems *)

(** C5: outside the zone of the checkpoints, the check accepts a transaction exactly
    if every input is in order: a key input has a fresh key image of the right order
    and a ring signature that holds for the unlocked key outputs its indices refer
    to; a multisignature input spends an existing, unspent and unlocked output with
    the same terms, after the end of the deposit, with signatures of distinct keys
    of that output; and no input creates coins. *)
Theorem inputs_check_exact `{CryptoOps} c now blocks points s tx h h' :
  isInCheckpointZone points (getCurrentBlockchainHeight blocks) = false →
  getObjectHash cn_fast_hash serialize_TransactionPrefix (tx_prefix tx) = Ret h →
  getObjectHash cn_fast_hash serialize_Transaction tx = Ret h' →
  (length (inputs tx) <= length (signatures tx))%nat →
  (∃ m, checkTransactionInputs c now blocks points s tx = Ret (true, m)) ↔
  Forall2 (valid_input c now blocks s h) (inputs tx) (take (length (inputs tx)) (signatures tx)).
Proof.
  intros Hz Hh Hh' Hl. unfold checkTransactionInputs. rewrite Hh, Hh'. cbn [mbind outcome_bind].
  by apply check_inputs_loop_iff.
Qed.

Definition toy_prefix_hash (tx : Transaction) : outcome Hash :=
  getObjectHash (@cn_fast_hash toy_crypto) serialize_TransactionPrefix (tx_prefix tx).

Lemma inputs_check_exact_witness :
  match toy_prefix_hash sample_spend_both with
  | Ret h => Forall2 (valid_input (H := toy_crypto) mainnet 0 sample_blocks sample_state h)
      (inputs sample_spend_both) [[replicate 64 1]; [replicate 64 4]]
  | _ => False
  end.
Proof.
  destruct (toy_prefix_hash sample_spend_both) as [h| |] eqn:E; [|by vm_compute in E..].
  destruct (getObjectHash (@cn_fast_hash toy_crypto) serialize_Transaction sample_spend_both)
    as [h'| |] eqn:E'; [|by vm_compute in E'..].
  apply (inputs_check_exact (H := toy_crypto) mainnet 0 sample_blocks [] sample_state sample_spend_both h h');
    [by vm_compute|exact E|exact E'|cbn; lia|]. eexists. vm_compute. reflexivity.
Defined.
