(* ===== verification/TransactionPool.v ===== *)
(** * The memory pool

    [src/src/CryptoNoteCore/TransactionPool.cpp] and [TransactionPool.h]: the
    transactions that wait for a block. The pool asks the chain through the
    interface [ITransactionValidator]; the clock ([m_timeProvider.now()] and
    [time]) is the parameter [now]. The container of the transactions is the list
    of its ordered index, the first one in the order of
    [TransactionPriorityComparator] first. Not modelled: the files the pool is
    stored in, the observers, the printing and the locks. *)

From S2P Require Import Prelude Streams IntUtil CryptoNoteTypes Serialization CryptoNoteSerialization Crypto Config.
From S2P Require Import Currency TransactionExtra FormatUtils BlockchainIndices ChainState InputCheck.

Local Open Scope Z_scope.

(** ** The chain, seen from the pool *)

Class ITransactionValidator (V : Type) := {
  val_checkTransactionInputs : V → Transaction → BlockInfo → outcome (bool * BlockInfo);
  val_recheckTransactionInputs : V → Transaction → BlockInfo → BlockInfo → outcome (bool * BlockInfo * BlockInfo);
  val_haveSpentKeyImages : V → Transaction → bool;
  val_checkTransactionSize : V → Z → bool
}.

(** ** Data *)

Record TransactionDetails := {
  td_id : Hash;
  td_tx : Transaction;
  td_blobSize : Z;
  td_fee : Z;
  td_maxUsedBlock : BlockInfo;
  td_lastFailedBlock : BlockInfo;
  td_keptByBlock : bool;
  td_receiveTime : Z
}.

Record tx_verification_context := {
  m_should_be_relayed : bool;
  m_verification_failed : bool;
  m_verification_impossible : bool;
  m_added_to_pool : bool
}.

Definition empty_tvc : tx_verification_context := {|
  m_should_be_relayed := false; m_verification_failed := false; m_verification_impossible := false;
  m_added_to_pool := false |}.

Definition tvc_failed (tvc : tx_verification_context) : tx_verification_context := {|
  m_should_be_relayed := m_should_be_relayed tvc; m_verification_failed := true;
  m_verification_impossible := m_verification_impossible tvc; m_added_to_pool := m_added_to_pool tvc |}.

Record Pool := {
  m_transactions : list TransactionDetails;
  m_spent_key_images : gmap KeyImage (gset Hash);
  m_spentOutputs : gset (Z * Z);
  m_recentlyDeletedTransactions : gmap Hash Z;
  pool_paymentIdIndex : list (Hash * Hash);
  pool_timestampIndex : list (Z * Hash);
  m_ttlIndex : gmap Hash Z
}.

Definition empty_Pool : Pool := {|
  m_transactions := []; m_spent_key_images := ∅; m_spentOutputs := ∅; m_recentlyDeletedTransactions := ∅;
  pool_paymentIdIndex := []; pool_timestampIndex := []; m_ttlIndex := ∅ |}.

(** ** Priorities *)

(** [TransactionPriorityComparator]. *)
Definition priority_before (lhs rhs : TransactionDetails) : outcome bool :=
  '(lhs_lo, lhs_hi) ← mul128 (td_fee lhs) (td_blobSize rhs);
  '(rhs_lo, rhs_hi) ← mul128 (td_fee rhs) (td_blobSize lhs);
  mret ((rhs_hi <? lhs_hi) ||
        (lhs_hi =? rhs_hi) && (rhs_lo <? lhs_lo) ||
        (lhs_hi =? rhs_hi) && (lhs_lo =? rhs_lo) && (td_blobSize lhs <? td_blobSize rhs) ||
        (lhs_hi =? rhs_hi) && (lhs_lo =? rhs_lo) && (td_blobSize lhs =? td_blobSize rhs) &&
          (td_receiveTime lhs <? td_receiveTime rhs)).

(** Insertion in the ordered index: behind the elements that are equivalent. *)
Fixpoint insert_by_priority (txd : TransactionDetails) (l : list TransactionDetails)
    : outcome (list TransactionDetails) :=
  match l with
  | [] => mret [txd]
  | x :: l' =>
      b ← priority_before txd x;
      if b : bool then mret (txd :: l)
      else r ← insert_by_priority txd l'; mret (x :: r)
  end.

Fixpoint find_id (id : Hash) (l : list TransactionDetails) : option TransactionDetails :=
  match l with
  | [] => None
  | x :: l' => if bool_decide (td_id x = id) then Some x else find_id id l'
  end.

Definition erase_id (id : Hash) (l : list TransactionDetails) : list TransactionDetails :=
  filter (λ x, td_id x ≠ id) l.

(** A [std::move]d-from transaction: its vectors are empty. *)
Definition moved (tx : Transaction) : Transaction := {|
  tx_prefix := {| version := version tx; unlockTime := unlockTime tx; inputs := []; outputs := []; extra := [] |};
  signatures := [] |}.

(** ** Inputs in use *)

(** [addTransactionInputs]: the result, the key images and the outputs; what was
    inserted before a failure stays. *)
Fixpoint addTransactionInputs (id : Hash) (ins : list TransactionInput) (keptByBlock : bool)
    (images : gmap KeyImage (gset Hash)) (spent : gset (Z * Z))
    : outcome (bool * gmap KeyImage (gset Hash) * gset (Z * Z)) :=
  match ins with
  | [] => mret (true, images, spent)
  | InKey k :: ins' =>
      let set := default ∅ (images !! ki_keyImage k) in
      if negb (keptByBlock || (size set =? 0)%nat) then
        mret (false, <[ki_keyImage k := set]> images, spent)
      else if bool_decide (id ∈ set) then mret (false, images, spent)
      else addTransactionInputs id ins' keptByBlock (<[ki_keyImage k := {[id]} ∪ set]> images) spent
  | InMultisignature m :: ins' =>
      if negb keptByBlock then
        _ ← assert_ (negb (bool_decide ((mi_amount m, mi_outputIndex m) ∈ spent)));
        addTransactionInputs id ins' keptByBlock images ({[(mi_amount m, mi_outputIndex m)]} ∪ spent)
      else addTransactionInputs id ins' keptByBlock images spent
  | InBase _ :: ins' => addTransactionInputs id ins' keptByBlock images spent
  end.

Fixpoint removeTransactionInputs (id : Hash) (ins : list TransactionInput) (keptByBlock : bool)
    (images : gmap KeyImage (gset Hash)) (spent : gset (Z * Z))
    : outcome (bool * gmap KeyImage (gset Hash) * gset (Z * Z)) :=
  match ins with
  | [] => mret (true, images, spent)
  | InKey k :: ins' =>
      match images !! ki_keyImage k with
      | None => mret (false, images, spent)
      | Some set =>
          if bool_decide (id ∈ set) then
            let set' := set ∖ {[id]} in
            removeTransactionInputs id ins' keptByBlock
              (if bool_decide (set' = ∅) then delete (ki_keyImage k) images
               else <[ki_keyImage k := set']> images) spent
          else mret (false, images, spent)
      end
  | InMultisignature m :: ins' =>
      if negb keptByBlock then
        _ ← assert_ (bool_decide ((mi_amount m, mi_outputIndex m) ∈ spent));
        removeTransactionInputs id ins' keptByBlock images (spent ∖ {[(mi_amount m, mi_outputIndex m)]})
      else removeTransactionInputs id ins' keptByBlock images spent
  | InBase _ :: ins' => removeTransactionInputs id ins' keptByBlock images spent
  end.

Definition haveSpentInputs (tx : Transaction) (p : Pool) : bool :=
  existsb (λ i, match i with
    | InKey k => bool_decide (is_Some (m_spent_key_images p !! ki_keyImage k))
    | InMultisignature m => bool_decide ((mi_amount m, mi_outputIndex m) ∈ m_spentOutputs p)
    | InBase _ => false
    end) (inputs tx).

Definition pick_ttl (f : TransactionExtraField) : option Z :=
  match f with TransactionExtraTTL t => Some t | _ => None end.

(** The time to live in the extra field, 0 without one. *)
Definition get_ttl (tx : Transaction) : outcome Z :=
  '(fields, _) ← parseTransactionExtra (extra tx); mret (default 0 (find_field pick_ttl fields)).

(** ** The pool *)

Section PoolOps.
Context `{CryptoOps} {V : Type} `{!ITransactionValidator V}.
Variable c : Currency.
(** The validator and the clock. *)
Variables (m_validator : V) (now : Z).

(** The checks of the time to live in [add_tx]. *)
Definition ttl_rejected (ttl fee : Z) (keptByBlock : bool) : bool :=
  negb (ttl =? 0) && negb keptByBlock &&
  ((ttl <=? now) || (u64 (m_mempoolTxLiveTime c + m_blockFutureTimeLimit c) <? ttl - now) || negb (fee =? 0)).

(** [add_tx(tx, id, blobSize, tvc, keptByBlock, height)]. *)
Definition add_tx (tx : Transaction) (id : Hash) (blobSize : Z) (tvc : tx_verification_context)
    (keptByBlock : bool) (height : Z) (p : Pool) : outcome (bool * tx_verification_context * Pool) :=
  if negb (check_inputs_types_supported tx) then mret (false, tvc_failed tvc, p)
  else
    inputs_amount ← getTransactionAllInputsAmount c tx height;
    let outputs_amount := get_outs_money_amount tx in
    if inputs_amount <? outputs_amount then mret (false, tvc_failed tvc, p)
    else
      ttl ← get_ttl tx;
      let fee := u64 (inputs_amount - outputs_amount) in
      isFusion ← (if fee =? 0 then isFusionTransaction c tx blobSize else mret false);
      if ttl_rejected ttl fee keptByBlock then mret (false, tvc_failed tvc, p)
      else if negb keptByBlock && haveSpentInputs tx p then mret (false, tvc_failed tvc, p)
      else
        '(inputsValid, maxUsedBlock) ← val_checkTransactionInputs m_validator tx empty_BlockInfo;
        if negb inputsValid && negb keptByBlock then mret (false, tvc_failed tvc, p)
        else
          let maxUsedBlock := if inputsValid : bool then maxUsedBlock else empty_BlockInfo in
          let tvc := {| m_should_be_relayed := m_should_be_relayed tvc;
                        m_verification_failed := m_verification_failed tvc;
                        m_verification_impossible := m_verification_impossible tvc || negb inputsValid;
                        m_added_to_pool := m_added_to_pool tvc |} in
          if negb keptByBlock && negb (val_checkTransactionSize m_validator blobSize) then
            mret (false, tvc_failed tvc, p)
          else if negb keptByBlock && bool_decide (is_Some (m_recentlyDeletedTransactions p !! id)) then
            mret (true, {| m_should_be_relayed := false; m_verification_failed := false;
                           m_verification_impossible := m_verification_impossible tvc;
                           m_added_to_pool := false |}, p)
          else
            let txd := {| td_id := id; td_tx := tx; td_blobSize := blobSize; td_fee := fee;
                          td_maxUsedBlock := maxUsedBlock; td_lastFailedBlock := empty_BlockInfo;
                          td_keptByBlock := keptByBlock; td_receiveTime := now |} in
            match find_id id (m_transactions p) with
            | Some _ => mret (false, tvc, p)
            | None =>
                transactions ← insert_by_priority txd (m_transactions p);
                (* [txd.tx] was moved into the container *)
                '(_, pids) ← PaymentIdIndex_add (moved tx) (pool_paymentIdIndex p);
                let '(_, times) := TimestampTransactionsIndex_add now id (pool_timestampIndex p) in
                let ttls := if negb (ttl =? 0) then
                              match m_ttlIndex p !! id with
                              | Some _ => m_ttlIndex p
                              | None => <[id := ttl]> (m_ttlIndex p)
                              end
                            else m_ttlIndex p in
                '(ok, images, spent) ← addTransactionInputs id (inputs tx) keptByBlock
                                         (m_spent_key_images p) (m_spentOutputs p);
                mret (ok,
                  {| m_should_be_relayed := inputsValid && ((0 <? fee) || isFusion || negb (ttl =? 0));
                     m_verification_failed := negb ok;
                     m_verification_impossible := m_verification_impossible tvc;
                     m_added_to_pool := true |},
                  {| m_transactions := transactions; m_spent_key_images := images; m_spentOutputs := spent;
                     m_recentlyDeletedTransactions := m_recentlyDeletedTransactions p;
                     pool_paymentIdIndex := pids; pool_timestampIndex := times; m_ttlIndex := ttls |})
            end.

(** [add_tx(tx, tvc, keptByBlock, height)]. *)
Definition add_tx_hashed (tx : Transaction) (tvc : tx_verification_context) (keptByBlock : bool) (height : Z)
    (p : Pool) : outcome (bool * tx_verification_context * Pool) :=
  h ← getObjectHash cn_fast_hash serialize_Transaction tx;
  blobSize ← getObjectBinarySize serialize_Transaction tx;
  add_tx tx h blobSize tvc keptByBlock height p.

Definition removeTransaction (txd : TransactionDetails) (p : Pool) : outcome Pool :=
  '(_, images, spent) ← removeTransactionInputs (td_id txd) (inputs (td_tx txd)) (td_keptByBlock txd)
                          (m_spent_key_images p) (m_spentOutputs p);
  '(_, pids) ← PaymentIdIndex_remove (td_tx txd) (pool_paymentIdIndex p);
  let '(_, times) := TimestampTransactionsIndex_remove (td_receiveTime txd) (td_id txd) (pool_timestampIndex p) in
  mret {| m_transactions := erase_id (td_id txd) (m_transactions p);
          m_spent_key_images := images; m_spentOutputs := spent;
          m_recentlyDeletedTransactions := m_recentlyDeletedTransactions p;
          pool_paymentIdIndex := pids; pool_timestampIndex := times;
          m_ttlIndex := delete (td_id txd) (m_ttlIndex p) |}.

Definition take_tx (id : Hash) (p : Pool) : outcome (option (Transaction * Z * Z) * Pool) :=
  match find_id id (m_transactions p) with
  | None => mret (None, p)
  | Some txd =>
      p' ← removeTransaction txd p;
      mret (Some (td_tx txd, td_blobSize txd, td_fee txd), p')
  end.

Definition have_tx (id : Hash) (p : Pool) : bool := bool_decide (is_Some (find_id id (m_transactions p))).

Definition get_transactions_count (p : Pool) : Z := Z.of_nat (length (m_transactions p)).

(** [getTransactions]: the transactions found and the hashes missed. *)
Definition pool_getTransactions (ids : list Hash) (p : Pool) : list Transaction * list Hash :=
  (omap (λ id, td_tx <$> find_id id (m_transactions p)) ids,
   filter (λ id, find_id id (m_transactions p) = None) ids).

Definition is_transaction_ready_to_go (tx : Transaction) (maxUsedBlock lastFailed : BlockInfo) : outcome bool :=
  '(ok, _, _) ← val_recheckTransactionInputs m_validator tx maxUsedBlock lastFailed;
  mret (ok && negb (val_haveSpentKeyImages m_validator tx)).

(** ** Block templates *)

Record BlockTemplate := {
  bt_keyImages : gset KeyImage;
  bt_usedOutputs : gset (Z * Z);
  bt_txHashes : list Hash
}.

Definition canAdd (tx : Transaction) (t : BlockTemplate) : bool :=
  forallb (λ i, match i with
    | InKey k => negb (bool_decide (ki_keyImage k ∈ bt_keyImages t))
    | InMultisignature m => negb (bool_decide ((mi_amount m, mi_outputIndex m) ∈ bt_usedOutputs t))
    | InBase _ => true
    end) (inputs tx).

Fixpoint template_inputs (ins : list TransactionInput) (images : gset KeyImage) (used : gset (Z * Z))
    : outcome (gset KeyImage * gset (Z * Z)) :=
  match ins with
  | [] => mret (images, used)
  | InKey k :: ins' =>
      _ ← assert_ (negb (bool_decide (ki_keyImage k ∈ images)));
      template_inputs ins' ({[ki_keyImage k]} ∪ images) used
  | InMultisignature m :: ins' =>
      _ ← assert_ (negb (bool_decide ((mi_amount m, mi_outputIndex m) ∈ used)));
      template_inputs ins' images ({[(mi_amount m, mi_outputIndex m)]} ∪ used)
  | InBase _ :: ins' => template_inputs ins' images used
  end.

Definition addTransaction (txid : Hash) (tx : Transaction) (t : BlockTemplate) : outcome (bool * BlockTemplate) :=
  if negb (canAdd tx t) then mret (false, t)
  else
    '(images, used) ← template_inputs (inputs tx) (bt_keyImages t) (bt_usedOutputs t);
    mret (true, {| bt_keyImages := images; bt_usedOutputs := used; bt_txHashes := bt_txHashes t ++ [txid] |}).

(** One step of the loop of [fill_block_template]. *)
Definition template_step (median_size max_total_size : Z) (ttls : gmap Hash Z) (txd : TransactionDetails)
    (st : BlockTemplate * Z * Z) : outcome (BlockTemplate * Z * Z) :=
  let '(t, total_size, fee) := st in
  if bool_decide (is_Some (ttls !! td_id txd)) then mret st
  else
    let blockSizeLimit := if td_fee txd =? 0 then median_size else max_total_size in
    if blockSizeLimit <? u64 (total_size + td_blobSize txd) then mret st
    else
      ready ← is_transaction_ready_to_go (td_tx txd) (td_maxUsedBlock txd) (td_lastFailedBlock txd);
      if ready : bool then
        '(added, t') ← addTransaction (td_id txd) (td_tx txd) t;
        mret (if added : bool then (t', u64 (total_size + td_blobSize txd), u64 (fee + td_fee txd))
              else st)
      else mret st.

Fixpoint template_loop (median_size max_total_size : Z) (ttls : gmap Hash Z) (l : list TransactionDetails)
    (st : BlockTemplate * Z * Z) : outcome (BlockTemplate * Z * Z) :=
  match l with
  | [] => mret st
  | txd :: l' => st' ← template_step median_size max_total_size ttls txd st;
                 template_loop median_size max_total_size ttls l' st'
  end.

(** The bound on the size of a template. *)
Definition template_limit (median_size maxCumulativeSize : Z) : Z :=
  Z.min (u64 (u64 (125 * median_size) / 100 - m_minerTxBlobReservedSize c)) maxCumulativeSize.

(** [fill_block_template]: the hashes of the block, the total size and the fee. The
    ordered index is walked from [rbegin]. *)
Definition fill_block_template (median_size maxCumulativeSize : Z) (p : Pool) : outcome (list Hash * Z * Z) :=
  '(t, total_size, fee) ← template_loop median_size (template_limit median_size maxCumulativeSize)
     (m_ttlIndex p) (reverse (m_transactions p))
     ({| bt_keyImages := ∅; bt_usedOutputs := ∅; bt_txHashes := [] |}, 0, 0);
  mret (bt_txHashes t, total_size, fee).

(** ** Expiry *)

Definition is_expired (ttls : gmap Hash Z) (txd : TransactionDetails) : bool :=
  let txAge := u64 (now - td_receiveTime txd) in
  ((if td_keptByBlock txd then m_mempoolTxFromAltBlockLiveTime c else m_mempoolTxLiveTime c) <? txAge) ||
  match ttls !! td_id txd with Some ttl => ttl <=? now | None => false end.

Fixpoint expire_loop (l : list TransactionDetails) (p : Pool) : outcome Pool :=
  match l with
  | [] => mret p
  | txd :: l' =>
      if is_expired (m_ttlIndex p) txd then
        let p := {| m_transactions := m_transactions p; m_spent_key_images := m_spent_key_images p;
                    m_spentOutputs := m_spentOutputs p;
                    m_recentlyDeletedTransactions :=
                      match m_recentlyDeletedTransactions p !! td_id txd with
                      | Some _ => m_recentlyDeletedTransactions p
                      | None => <[td_id txd := now]> (m_recentlyDeletedTransactions p)
                      end;
                    pool_paymentIdIndex := pool_paymentIdIndex p;
                    pool_timestampIndex := pool_timestampIndex p; m_ttlIndex := m_ttlIndex p |} in
        p' ← removeTransaction txd p; expire_loop l' p'
      else expire_loop l' p
  end.

Definition removeExpiredTransactions (p : Pool) : outcome Pool :=
  let deleted := filter (λ kv, u64 (now - kv.2) <=
                   u64 (m_numberOfPeriodsToForgetTxDeletedFromPool c * m_mempoolTxLiveTime c))
                   (m_recentlyDeletedTransactions p) in
  expire_loop (m_transactions p)
    {| m_transactions := m_transactions p; m_spent_key_images := m_spent_key_images p;
       m_spentOutputs := m_spentOutputs p; m_recentlyDeletedTransactions := deleted;
       pool_paymentIdIndex := pool_paymentIdIndex p; pool_timestampIndex := pool_timestampIndex p;
       m_ttlIndex := m_ttlIndex p |}.

(** ** Differences *)

Fixpoint ready_ids (l : list TransactionDetails) : outcome (gset Hash) :=
  match l with
  | [] => mret ∅
  | txd :: l' =>
      ready ← is_transaction_ready_to_go (td_tx txd) (td_maxUsedBlock txd) (td_lastFailedBlock txd);
      r ← ready_ids l';
      mret (if ready : bool then {[td_id txd]} ∪ r else r)
  end.

(** [get_difference]: the new and the deleted hashes, as sets. *)
Definition get_difference (known_tx_ids : list Hash) (p : Pool) : outcome (gset Hash * gset Hash) :=
  ready ← ready_ids (m_transactions p);
  let known := list_to_set known_tx_ids in
  mret (ready ∖ known, known ∖ ready).

(** [buildIndices] of the loaded transactions. *)
Fixpoint build_loop (l : list TransactionDetails) (pids : list (Hash * Hash)) (times : list (Z * Hash))
    (ttls : gmap Hash Z) : outcome (list (Hash * Hash) * list (Z * Hash) * gmap Hash Z) :=
  match l with
  | [] => mret (pids, times, ttls)
  | txd :: l' =>
      '(_, pids) ← PaymentIdIndex_add (td_tx txd) pids;
      let '(_, times) := TimestampTransactionsIndex_add (td_receiveTime txd) (td_id txd) times in
      ttl ← get_ttl (td_tx txd);
      build_loop l' pids times
        (if negb (ttl =? 0) then
           match ttls !! td_id txd with Some _ => ttls | None => <[td_id txd := ttl]> ttls end
         else ttls)
  end.

Definition buildIndices (p : Pool) : outcome Pool :=
  '(pids, times, ttls) ← build_loop (m_transactions p) (pool_paymentIdIndex p) (pool_timestampIndex p) (m_ttlIndex p);
  mret {| m_transactions := m_transactions p; m_spent_key_images := m_spent_key_images p;
          m_spentOutputs := m_spentOutputs p; m_recentlyDeletedTransactions := m_recentlyDeletedTransactions p;
          pool_paymentIdIndex := pids; pool_timestampIndex := times; m_ttlIndex := ttls |}.
End PoolOps.

(** ** The container: proofs *)

Lemma insert_by_priority_perm txd l : ∀ l', insert_by_priority txd l = Ret l' → l' ≡ₚ txd :: l.
Proof.
  induction l as [|x l IH]; intros l' Hr; cbn [insert_by_priority] in Hr; [by injection Hr as <-|].
  destruct (priority_before txd x) as [[]| |]; [by injection Hr as <-| |done..].
  cbn [mbind outcome_bind] in Hr. destruct (insert_by_priority txd l) as [r| |]; [|done..].
  injection Hr as <-. rewrite (IH r eq_refl). apply perm_swap.
Qed.

Lemma insert_by_priority_erase txd l : ∀ l',
  insert_by_priority txd l = Ret l' → td_id txd ∉ td_id <$> l → erase_id (td_id txd) l' = l.
Proof.
  assert (∀ k, td_id txd ∉ td_id <$> k → erase_id (td_id txd) k = k) as Hid.
  { induction k as [|x k IH]; [done|]. rewrite fmap_cons, not_elem_of_cons. intros [Hx Hk].
    unfold erase_id in *. rewrite filter_cons_True by congruence. by rewrite IH. }
  induction l as [|x l IH]; intros l' Hr Hn; cbn [insert_by_priority] in Hr.
  { injection Hr as <-. unfold erase_id. rewrite filter_cons_False; [done|]. by intros []. }
  assert (erase_id (td_id txd) (txd :: x :: l) = x :: l) as Hcons.
  { unfold erase_id. rewrite filter_cons_False by (by intros []). exact (Hid _ Hn). }
  destruct (priority_before txd x) as [[]| |]; [by injection Hr as <-| |done..].
  cbn [mbind outcome_bind] in Hr. destruct (insert_by_priority txd l) as [r| |]; [|done..].
  injection Hr as <-. rewrite fmap_cons, not_elem_of_cons in Hn. destruct Hn as [Hx Hn].
  unfold erase_id. rewrite filter_cons_True by congruence. f_equal. by apply IH.
Qed.

Lemma find_id_Some id l t :
  NoDup (td_id <$> l) → find_id id l = Some t ↔ t ∈ l ∧ td_id t = id.
Proof.
  induction l as [|x l IH]; intros Hnd; cbn [find_id].
  { split; [done|]. by intros [?%not_elem_of_nil _]. }
  rewrite fmap_cons in Hnd. apply list.NoDup_cons in Hnd as [Hx Hnd].
  destruct (bool_decide_reflect (td_id x = id)) as [<-|Hne].
  - split; [intros [= <-]; split; [by left|done]|]. intros [[->|Ht]%elem_of_cons Hid]; [done|].
    destruct Hx. rewrite <- Hid. by apply list_elem_of_fmap_2.
  - rewrite IH by done. rewrite elem_of_cons. split; [by intros [? ?]; split; [right|]|].
    intros [[->|?] ?]; [done|by split].
Qed.

Lemma find_id_None id l : find_id id l = None ↔ id ∉ td_id <$> l.
Proof.
  induction l as [|x l IH]; cbn [find_id]; [split; [intros _; apply not_elem_of_nil|done]|].
  rewrite fmap_cons, not_elem_of_cons. destruct (bool_decide_reflect (td_id x = id)) as [<-|Hne].
  - split; [done|by intros [[] _]].
  - rewrite IH. split; [by intros; split|by intros [_ ?]].
Qed.

Lemma elem_of_erase_id id l t : t ∈ erase_id id l ↔ td_id t ≠ id ∧ t ∈ l.
Proof. unfold erase_id. by rewrite list_elem_of_filter. Qed.

Lemma erase_id_NoDup id l : NoDup (td_id <$> l) → NoDup (td_id <$> erase_id id l).
Proof.
  intros Hnd. eapply sublist_NoDup; [exact Hnd|]. unfold erase_id. apply fmap_sublist, sublist_filter.
Qed.

(** ** Inputs in use: proofs *)

Definition at_key (images : gmap KeyImage (gset Hash)) (k : KeyImage) : gset Hash := default ∅ (images !! k).

Definition images_ok (images : gmap KeyImage (gset Hash)) : Prop := ∀ k, images !! k ≠ Some ∅.

Lemma at_key_insert images k S k' :
  at_key (<[k := S]> images) k' = if decide (k = k') then S else at_key images k'.
Proof. unfold at_key. rewrite lookup_insert. by case_decide. Qed.

Lemma images_eq images images' :
  images_ok images → images_ok images' → (∀ k, at_key images k = at_key images' k) → images = images'.
Proof.
  intros H1 H2 Hk. apply map_eq. intros k. specialize (Hk k). specialize (H1 k). specialize (H2 k).
  unfold at_key in Hk. destruct (images !! k), (images' !! k); cbn in Hk; unfold id in *; congruence.
Qed.

Definition positions (ins : list TransactionInput) : list (Z * Z) := position <$> multisig_inputs ins.

Lemma key_images_cons k ins : key_images (InKey k :: ins) = ki_keyImage k :: key_images ins.
Proof. done. Qed.
Lemma positions_cons m ins : positions (InMultisignature m :: ins) = position m :: positions ins.
Proof. done. Qed.

(** A key image the transaction has already entered is refused. *)
Lemma addTransactionInputs_used id kept k ins : ∀ images spent images' spent',
  id ∈ at_key images k → k ∈ key_images ins →
  addTransactionInputs id ins kept images spent ≠ Ret (true, images', spent').
Proof.
  induction ins as [|[b|k'|m] ins IH]; intros images spent images' spent' Hid Hin;
    cbn [addTransactionInputs].
  - by apply not_elem_of_nil in Hin.
  - by apply IH.
  - rewrite key_images_cons in Hin. destruct (negb _); [done|].
    destruct (bool_decide_reflect (id ∈ default ∅ (images !! ki_keyImage k'))) as [|Hn']; [done|].
    apply elem_of_cons in Hin as [Heq|Hin]; [by rewrite Heq in Hid|].
    apply IH; [|done]. rewrite at_key_insert. case_decide; [|done]. by apply elem_of_union_l, elem_of_singleton.
  - destruct (negb kept); [destruct (assert_ _); [|done..]|]; by apply IH.
Qed.

(** What a successful [addTransactionInputs] does. *)
Lemma addTransactionInputs_true id kept ins : ∀ images spent images' spent',
  images_ok images → (∀ k, k ∈ key_images ins → id ∉ at_key images k) →
  addTransactionInputs id ins kept images spent = Ret (true, images', spent') →
  images_ok images' ∧ NoDup (key_images ins) ∧
  (∀ k, at_key images' k = at_key images k ∪ (if decide (k ∈ key_images ins) then {[id]} else ∅)) ∧
  (kept = false → NoDup (positions ins) ∧ (∀ q, q ∈ positions ins → q ∉ spent)) ∧
  spent' = (if kept then spent else spent ∪ list_to_set (positions ins)).
Proof.
  induction ins as [|[b|k|m] ins IH]; intros images spent images' spent' Hok Hid Hr;
    cbn [addTransactionInputs] in Hr.
  - injection Hr as <- <-. split_and!; [done|constructor| | |by destruct kept; cbn; clear; set_solver].
    + intros k. rewrite decide_False by (apply not_elem_of_nil). clear. set_solver.
    + intros _. split; [constructor|]. intros q Hq. by apply not_elem_of_nil in Hq.
  - exact (IH _ _ _ _ Hok Hid Hr).
  - rewrite key_images_cons in *. destruct (negb _); [done|].
    destruct (bool_decide_reflect (id ∈ default ∅ (images !! ki_keyImage k))) as [|Hn]; [done|].
    destruct (decide (ki_keyImage k ∈ key_images ins)) as [Hin|Hnin].
    { exfalso. eapply (addTransactionInputs_used id kept); [|exact Hin|exact Hr].
      rewrite at_key_insert, decide_True by done. apply elem_of_union_l, elem_of_singleton_2. done. }
    apply IH in Hr as (Hok' & Hnd & Hat & Hpos & Hsp).
    + split_and!; [done|by apply list.NoDup_cons| |done|done].
      intros k'. rewrite Hat, at_key_insert. unfold at_key.
      destruct (decide (ki_keyImage k = k')) as [<-|Hne].
      * rewrite decide_False, (decide_True (P := ki_keyImage k ∈ _ :: _)) by (done || by left). clear. set_solver.
      * destruct (decide (k' ∈ key_images ins)).
        -- by rewrite decide_True by (by right).
        -- rewrite decide_False; [done|]. by intros [?|?]%elem_of_cons; congruence.
    + intros k'. rewrite lookup_insert. case_decide; [|apply Hok]. intros [= He]. clear -He. set_solver.
    + intros k' Hk'. rewrite at_key_insert. case_decide; [congruence|]. apply Hid. by right.
  - destruct kept; cbn [negb] in Hr.
    { apply IH in Hr as (? & ? & ? & ? & ?); [|done..]. by split_and!. }
    rewrite positions_cons. unfold assert_ in Hr.
    destruct (bool_decide_reflect ((mi_amount m, mi_outputIndex m) ∈ spent)) as [|Hn]; [done|].
    cbn [negb mbind outcome_bind] in Hr. apply IH in Hr as (? & ? & ? & Hpos & ->); [|done..].
    destruct (Hpos eq_refl) as [Hnd Hnot]. split_and!; try done.
    + intros _. split.
      * apply list.NoDup_cons. split; [|done]. intros Hq. apply (Hnot _ Hq). unfold position. clear. set_solver.
      * intros q [->|Hq]%elem_of_cons; [done|]. specialize (Hnot _ Hq). clear -Hnot. set_solver.
    + cbn [list_to_set]. unfold position. clear. set_solver.
Qed.

(** What [removeTransactionInputs] does for a transaction that is entered. *)
Lemma removeTransactionInputs_ret id kept ins : ∀ images spent,
  images_ok images → NoDup (key_images ins) → (∀ k, k ∈ key_images ins → id ∈ at_key images k) →
  (kept = false → NoDup (positions ins) ∧ (∀ q, q ∈ positions ins → q ∈ spent)) →
  ∃ images', removeTransactionInputs id ins kept images spent =
      Ret (true, images', if kept then spent else spent ∖ list_to_set (positions ins)) ∧
    images_ok images' ∧
    ∀ k, at_key images' k = at_key images k ∖ (if decide (k ∈ key_images ins) then {[id]} else ∅).
Proof.
  induction ins as [|[b|k|m] ins IH]; intros images spent Hok Hnd Hid Hpos; cbn [removeTransactionInputs].
  - exists images. split_and!; [|done|].
    + destruct kept; [done|]. do 2 f_equal. cbn. clear. set_solver.
    + intros k. rewrite decide_False by apply not_elem_of_nil. clear. set_solver.
  - by apply IH.
  - rewrite key_images_cons in *. apply list.NoDup_cons in Hnd as [Hk Hnd].
    assert (id ∈ at_key images (ki_keyImage k)) as Hin by (apply Hid; by left). unfold at_key in Hin.
    destruct (images !! ki_keyImage k) as [S|] eqn:ES; cbn [default] in Hin;
      [unfold Datatypes.id in Hin|clear -Hin; set_solver].
    rewrite bool_decide_true by done. set (images1 := if bool_decide _ then _ else _).
    assert (∀ k', at_key images1 k' = at_key images k' ∖ (if decide (k' = ki_keyImage k) then {[id]} else ∅))
      as Hat1.
    { intros k'. unfold images1. unfold at_key. destruct (decide (k' = ki_keyImage k)) as [->|Hne].
      - rewrite ES. case_bool_decide as He; [rewrite lookup_delete_eq; cbn; by rewrite He|].
        by rewrite lookup_insert_eq.
      - case_bool_decide; rewrite ?lookup_delete_ne, ?lookup_insert_ne by done; clear; set_solver. }
    destruct (IH images1 spent) as (images' & Hr & Hok' & Hat'); [| |..|exact Hpos|].
    + intros k'. unfold images1. case_bool_decide as He.
      * rewrite lookup_delete. case_decide; [done|apply Hok].
      * rewrite lookup_insert. case_decide; [congruence|apply Hok].
    + done.
    + intros k' Hk'. rewrite Hat1, decide_False by congruence. specialize (Hid k').
      rewrite elem_of_difference. split; [apply Hid; by right|apply not_elem_of_empty].
    + exists images'. split_and!; [exact Hr|done|]. intros k'. rewrite Hat', Hat1.
      destruct (decide (k' = ki_keyImage k)) as [->|Hne].
      * rewrite (decide_False (P := _ ∈ key_images ins)), decide_True by (done || by left). clear. set_solver.
      * destruct (decide (k' ∈ key_images ins)); [rewrite decide_True by (by right)|rewrite decide_False by
          (by intros [?|?]%elem_of_cons)]; clear; set_solver.
  - destruct kept; cbn [negb]; [by apply IH|]. destruct (Hpos eq_refl) as [Hndp Hin].
    rewrite positions_cons in *. apply list.NoDup_cons in Hndp as [Hm Hndp].
    rewrite bool_decide_true by (apply Hin; by left). cbn [assert_ mbind outcome_bind].
    destruct (IH images (spent ∖ {[(mi_amount m, mi_outputIndex m)]})) as (images' & Hr & Hok' & Hat');
      [done|done|done| |].
    + intros _. split; [done|]. intros q Hq. rewrite elem_of_difference. split; [apply Hin; by right|].
      intros ->%elem_of_singleton. by apply Hm.
    + exists images'. split_and!; [|done|done]. rewrite Hr. do 2 f_equal. cbn [list_to_set].
      unfold position. clear. set_solver.
Qed.

(** ** The invariant *)

Section PoolProofs.
Context `{CryptoOps} {V : Type} `{!ITransactionValidator V}.
Variable c : Currency.
Variables (m_validator : V) (now : Z).

(** A transaction of the pool carries its hash, spends each key image once and, unless
    it comes from a block, each multisignature output once. *)
Definition details_ok (t : TransactionDetails) : Prop :=
  getObjectHash cn_fast_hash serialize_Transaction (td_tx t) = Ret (td_id t) ∧
  (∃ r, getPaymentId (td_tx t) = Ret r) ∧
  NoDup (key_images (inputs (td_tx t))) ∧
  (td_keptByBlock t = false → NoDup (positions (inputs (td_tx t)))).

(** Two transactions share no input if neither comes from a block. *)
Definition compatible (t t' : TransactionDetails) : Prop :=
  td_keptByBlock t = false → td_keptByBlock t' = false → td_id t ≠ td_id t' →
  (∀ k, k ∈ key_images (inputs (td_tx t)) → k ∉ key_images (inputs (td_tx t'))) ∧
  (∀ q, q ∈ positions (inputs (td_tx t)) → q ∉ positions (inputs (td_tx t'))).

(** The tables hold exactly the inputs of the transactions of the pool, and the
    indices refer to them. *)
Record pool_ok (p : Pool) : Prop := {
  ok_ids : NoDup (td_id <$> m_transactions p);
  ok_details : ∀ t, t ∈ m_transactions p → details_ok t;
  ok_compatible : ∀ t t', t ∈ m_transactions p → t' ∈ m_transactions p → compatible t t';
  ok_images : images_ok (m_spent_key_images p);
  ok_key_images : ∀ k id, id ∈ at_key (m_spent_key_images p) k ↔
    ∃ t, t ∈ m_transactions p ∧ td_id t = id ∧ k ∈ key_images (inputs (td_tx t));
  ok_outputs : ∀ q, q ∈ m_spentOutputs p ↔
    ∃ t, t ∈ m_transactions p ∧ td_keptByBlock t = false ∧ q ∈ positions (inputs (td_tx t));
  ok_payments : NoDup (pool_paymentIdIndex p) ∧ ∀ pid h, (pid, h) ∈ pool_paymentIdIndex p →
    ∃ t, t ∈ m_transactions p ∧ td_id t = h ∧ getPaymentId (td_tx t) = Ret (Some pid);
  ok_times : NoDup (pool_timestampIndex p) ∧ ∀ ts h, (ts, h) ∈ pool_timestampIndex p →
    ∃ t, t ∈ m_transactions p ∧ td_id t = h ∧ td_receiveTime t = ts;
  ok_ttls : ∀ h, is_Some (m_ttlIndex p !! h) → h ∈ td_id <$> m_transactions p
}.

Lemma empty_pool_ok : pool_ok empty_Pool.
Proof.
  split; cbn; try (by intros * ?%not_elem_of_nil); try done.
  - constructor.
  - intros k id. unfold at_key. rewrite lookup_empty. cbn. split; [|by intros (t & ?%not_elem_of_nil & _)].
    intros Hin. by apply not_elem_of_empty in Hin.
  - intros q. split; [|by intros (t & ?%not_elem_of_nil & _)]. intros Hin. by apply not_elem_of_empty in Hin.
  - split; [constructor|]. by intros pid h ?%not_elem_of_nil.
  - split; [constructor|]. by intros ts h ?%not_elem_of_nil.
  - intros h [x Hx]. by rewrite lookup_empty in Hx.
Qed.

Lemma moved_no_payment (tx : Transaction) pids b pids' :
  PaymentIdIndex_add (moved tx) pids = Ret (b, pids') → pids' = pids.
Proof.
  unfold PaymentIdIndex_add. destruct (getObjectHash _ _ (moved tx)); [|done..].
  cbn [mbind outcome_bind]. assert (getPaymentId (moved tx) = Ret None) as -> by reflexivity.
  cbn [mbind outcome_bind]. by intros [= _ <-].
Qed.

(** What an [add_tx] that reaches the container has done to the pool. *)
Lemma add_tx_added tx id blobSize kept height p ok tvc p' :
  add_tx c m_validator now tx id blobSize empty_tvc kept height p = Ret (ok, tvc, p') →
  m_added_to_pool tvc = true →
  m_verification_failed tvc = negb ok ∧
  ∃ txd ttl l images spent,
    td_id txd = id ∧ td_tx txd = tx ∧ td_blobSize txd = blobSize ∧ td_keptByBlock txd = kept ∧
    td_receiveTime txd = now ∧
    (kept = false → haveSpentInputs tx p = false) ∧
    find_id id (m_transactions p) = None ∧
    insert_by_priority txd (m_transactions p) = Ret l ∧
    addTransactionInputs id (inputs tx) kept (m_spent_key_images p) (m_spentOutputs p) = Ret (ok, images, spent) ∧
    p' = {| m_transactions := l; m_spent_key_images := images; m_spentOutputs := spent;
            m_recentlyDeletedTransactions := m_recentlyDeletedTransactions p;
            pool_paymentIdIndex := pool_paymentIdIndex p;
            pool_timestampIndex := mm_insert now id (pool_timestampIndex p);
            m_ttlIndex := if negb (ttl =? 0) then
                            match m_ttlIndex p !! id with
                            | Some _ => m_ttlIndex p
                            | None => <[id := ttl]> (m_ttlIndex p)
                            end
                          else m_ttlIndex p |}.
Proof.
  unfold add_tx. destruct (check_inputs_types_supported tx); [|by intros [= <- <- <-]]. cbn [negb].
  destruct (getTransactionAllInputsAmount c tx height) as [amount| |]; [|done..]. cbn [mbind outcome_bind].
  destruct (amount <? get_outs_money_amount tx); [by intros [= <- <- <-]|].
  destruct (get_ttl tx) as [ttl| |]; [|done..]. cbn [mbind outcome_bind]. cbn zeta.
  destruct (if _ =? 0 then isFusionTransaction c tx blobSize else mret false) as [fusion| |]; [|done..].
  cbn [mbind outcome_bind]. destruct (ttl_rejected _ _ _ _ _); [by intros [= <- <- <-]|].
  destruct (negb kept && haveSpentInputs tx p) eqn:Hspent; [by intros [= <- <- <-]|].
  destruct (val_checkTransactionInputs m_validator tx empty_BlockInfo) as [[valid used]| |]; [|done..].
  cbn [mbind outcome_bind]. destruct (negb valid && negb kept); [by intros [= <- <- <-]|].
  destruct (negb kept && negb (val_checkTransactionSize m_validator blobSize)); [by intros [= <- <- <-]|].
  destruct (negb kept && bool_decide (is_Some (m_recentlyDeletedTransactions p !! id)));
    [by intros [= <- <- <-]|].
  destruct (find_id id (m_transactions p)) eqn:Hfind; [by intros [= <- <- <-]|].
  set (txd := {| td_id := id |}).
  destruct (insert_by_priority txd (m_transactions p)) as [l| |] eqn:Hins; [|done..]. cbn [mbind outcome_bind].
  destruct (PaymentIdIndex_add (moved tx) (pool_paymentIdIndex p)) as [[b pids]| |] eqn:Hpid; [|done..].
  apply moved_no_payment in Hpid as ->. cbn [mbind outcome_bind TimestampTransactionsIndex_add TimestampBlocksIndex_add].
  destruct (addTransactionInputs _ _ _ _ _) as [[[ok' images] spent]| |] eqn:Hadd; [|done..].
  cbn [mbind outcome_bind]. intros [= <- <- <-] _. split; [done|]. exists txd, ttl, l, images, spent.
  split_and!; try done. intros ->. by destruct (haveSpentInputs tx p).
Qed.

Lemma haveSpentInputs_false tx p :
  haveSpentInputs tx p = false →
  (∀ k, k ∈ key_images (inputs tx) → m_spent_key_images p !! k = None) ∧
  (∀ q, q ∈ positions (inputs tx) → q ∉ m_spentOutputs p).
Proof.
  unfold haveSpentInputs. generalize (inputs tx) as ins.
  induction ins as [|[b|k|m] ins IH]; cbn [existsb]; intros Hf.
  - split; intros x Hx; by apply not_elem_of_nil in Hx.
  - by apply IH.
  - apply orb_false_iff in Hf as [Hk Hf]. apply IH in Hf as [H1 H2]. split; [|exact H2].
    apply bool_decide_eq_false_1 in Hk. intros k' [->|Hk']%elem_of_cons; [|by apply H1].
    by apply eq_None_not_Some.
  - apply orb_false_iff in Hf as [Hm Hf]. apply IH in Hf as [H1 H2]. split; [exact H1|].
    apply bool_decide_eq_false_1 in Hm. intros q [->|Hq]%elem_of_cons; [done|by apply H2].
Qed.

(** The inputs of the transactions after one was added. *)
Lemma elem_of_snoc_images (t0 : TransactionDetails) l l' k id : l' ≡ₚ t0 :: l →
  (∃ t, t ∈ l' ∧ td_id t = id ∧ k ∈ key_images (inputs (td_tx t))) ↔
  (∃ t, t ∈ l ∧ td_id t = id ∧ k ∈ key_images (inputs (td_tx t))) ∨
  (id = td_id t0 ∧ k ∈ key_images (inputs (td_tx t0))).
Proof.
  intros Hp. setoid_rewrite Hp. setoid_rewrite elem_of_cons. split.
  - intros (t & [->|Ht] & <- & Hk); [by right|left; eauto].
  - intros [(t & Ht & <- & Hk)|[-> Hk]]; eauto.
Qed.

Section Added.
(** A successful [add_tx] on a pool in order. *)
Context (p : Pool) (txd : TransactionDetails) (l : list TransactionDetails)
  (images : gmap KeyImage (gset Hash)) (spent : gset (Z * Z)).
Hypothesis Hok : pool_ok p.
Hypothesis Hhash : getObjectHash cn_fast_hash serialize_Transaction (td_tx txd) = Ret (td_id txd).
Hypothesis Hpay : ∃ r, getPaymentId (td_tx txd) = Ret r.
Hypothesis Hfree : td_keptByBlock txd = false → haveSpentInputs (td_tx txd) p = false.
Hypothesis Hnew : find_id (td_id txd) (m_transactions p) = None.
Hypothesis Hins : insert_by_priority txd (m_transactions p) = Ret l.
Hypothesis Hadd : addTransactionInputs (td_id txd) (inputs (td_tx txd)) (td_keptByBlock txd)
  (m_spent_key_images p) (m_spentOutputs p) = Ret (true, images, spent).

Lemma new_id_fresh k : td_id txd ∉ at_key (m_spent_key_images p) k.
Proof.
  intros (t & Ht & Hid & _)%(ok_key_images p Hok). apply find_id_None in Hnew. apply Hnew.
  rewrite <- Hid. by apply list_elem_of_fmap_2.
Qed.

Lemma add_inputs_effect :
  images_ok images ∧ NoDup (key_images (inputs (td_tx txd))) ∧
  (∀ k, at_key images k = at_key (m_spent_key_images p) k ∪
     (if decide (k ∈ key_images (inputs (td_tx txd))) then {[td_id txd]} else ∅)) ∧
  (td_keptByBlock txd = false → NoDup (positions (inputs (td_tx txd))) ∧
     (∀ q, q ∈ positions (inputs (td_tx txd)) → q ∉ m_spentOutputs p)) ∧
  spent = (if td_keptByBlock txd then m_spentOutputs p
           else m_spentOutputs p ∪ list_to_set (positions (inputs (td_tx txd)))).
Proof.
  eapply addTransactionInputs_true; [apply (ok_images p Hok)| |exact Hadd]. intros k _. apply new_id_fresh.
Qed.

Lemma new_compatible t : t ∈ m_transactions p → compatible txd t ∧ compatible t txd.
Proof.
  intros Ht.
  assert (td_keptByBlock txd = false → td_keptByBlock t = false →
    (∀ k, k ∈ key_images (inputs (td_tx txd)) → k ∉ key_images (inputs (td_tx t))) ∧
    (∀ q, q ∈ positions (inputs (td_tx txd)) → q ∉ positions (inputs (td_tx t)))) as Hd.
  { intros Hk Hk'. destruct (haveSpentInputs_false _ _ (Hfree Hk)) as [H1 H2]. split.
    - intros k Hin Hin'. assert (td_id t ∈ at_key (m_spent_key_images p) k) as Hat
        by (apply (ok_key_images p Hok); eauto).
      unfold at_key in Hat. rewrite (H1 _ Hin) in Hat. by apply not_elem_of_empty in Hat.
    - intros q Hin Hin'. apply (H2 _ Hin), (ok_outputs p Hok). eauto. }
  split; intros Hk Hk' _; destruct (Hd ltac:(done) ltac:(done)) as [H1 H2]; [by split|].
  split; intros x Hx Hx'; [by eapply H1|by eapply H2].
Qed.

Lemma new_time_fresh ts : (ts, td_id txd) ∉ pool_timestampIndex p.
Proof.
  intros (t & Ht & Hid & _)%(ok_times p Hok). apply find_id_None in Hnew. apply Hnew.
  rewrite <- Hid. by apply list_elem_of_fmap_2.
Qed.

Lemma new_payment_fresh pid : (pid, td_id txd) ∉ pool_paymentIdIndex p.
Proof.
  intros (t & Ht & Hid & _)%(ok_payments p Hok). apply find_id_None in Hnew. apply Hnew.
  rewrite <- Hid. by apply list_elem_of_fmap_2.
Qed.

Lemma new_ttl_undo ttl :
  delete (td_id txd) (if negb (ttl =? 0) then
    match m_ttlIndex p !! td_id txd with
    | Some _ => m_ttlIndex p
    | None => <[td_id txd := ttl]> (m_ttlIndex p)
    end else m_ttlIndex p) = m_ttlIndex p.
Proof.
  assert (m_ttlIndex p !! td_id txd = None) as Hn.
  { apply eq_None_not_Some. intros Hs%(ok_ttls p Hok). by apply find_id_None in Hnew. }
  rewrite Hn. destruct (negb _); [by apply delete_insert_id|by apply delete_id].
Qed.

Lemma add_tx_ok ttls deleted :
  (∀ h, is_Some (ttls !! h) → h = td_id txd ∨ h ∈ td_id <$> m_transactions p) →
  pool_ok {| m_transactions := l; m_spent_key_images := images; m_spentOutputs := spent;
             m_recentlyDeletedTransactions := deleted; pool_paymentIdIndex := pool_paymentIdIndex p;
             pool_timestampIndex := mm_insert (td_receiveTime txd) (td_id txd) (pool_timestampIndex p);
             m_ttlIndex := ttls |}.
Proof.
  intros Httls. pose proof (insert_by_priority_perm _ _ _ Hins) as Hp.
  destruct add_inputs_effect as (Himg & Hnd & Hat & Hpos & Hsp).
  assert (∀ h, h ∈ td_id <$> l ↔ h = td_id txd ∨ h ∈ td_id <$> m_transactions p) as Hids.
  { intros h. rewrite Hp, fmap_cons. apply elem_of_cons. }
  assert (∀ t, t ∈ l ↔ t = txd ∨ t ∈ m_transactions p) as Hl by (intros t; rewrite Hp; apply elem_of_cons).
  split; cbn [m_transactions m_spent_key_images m_spentOutputs pool_paymentIdIndex pool_timestampIndex m_ttlIndex].
  - rewrite Hp, fmap_cons. apply list.NoDup_cons. split; [by apply find_id_None|apply (ok_ids p Hok)].
  - intros t [->|Ht]%Hl; [|by apply (ok_details p Hok)]. split_and!; [done..|]. intros Hk. by apply Hpos.
  - intros t t' [->|Ht]%Hl [->|Ht']%Hl; [by intros _ _ []|by apply new_compatible..|by apply (ok_compatible p Hok)].
  - done.
  - intros k id. rewrite (elem_of_snoc_images txd _ _ _ _ Hp), Hat, elem_of_union, <- (ok_key_images p Hok).
    destruct (decide _); rewrite ?elem_of_singleton; [tauto|]. split; [intros [?|?%not_elem_of_empty]; tauto|tauto].
  - intros q. setoid_rewrite Hl. rewrite Hsp. destruct (td_keptByBlock txd) eqn:Hk.
    + rewrite (ok_outputs p Hok). split; intros (t & Ht & Hk' & Hq); [eauto|].
      destruct Ht as [->|Ht]; [congruence|eauto].
    + rewrite elem_of_union, elem_of_list_to_set, (ok_outputs p Hok). split.
      * intros [(t & Ht & Hk' & Hq)|Hq]; eauto.
      * intros (t & [->|Ht] & Hk' & Hq); eauto.
  - destruct (ok_payments p Hok) as [Hndp Hin]. split; [done|]. intros pid h (t & Ht & ?)%Hin.
    exists t. split; [apply Hl; by right|done].
  - destruct (ok_times p Hok) as [Hndt Hin]. rewrite mm_insert_perm. split.
    + apply list.NoDup_cons. split; [apply new_time_fresh|done].
    + intros ts h. rewrite mm_insert_perm. intros [[= -> ->]|(t & Ht & ?)%Hin]%elem_of_cons.
      * exists txd. split; [apply Hl; by left|done].
      * exists t. split; [apply Hl; by right|done].
  - intros h Hin. by apply Hids, Httls.
Qed.
End Added.

(** ** Removal *)

Lemma same_id p t t' :
  pool_ok p → t ∈ m_transactions p → t' ∈ m_transactions p → td_id t = td_id t' → t = t'.
Proof.
  intros Hok Ht Ht' Hid. pose proof (ok_ids p Hok) as Hnd.
  assert (find_id (td_id t) (m_transactions p) = Some t) as H1 by (by apply find_id_Some).
  assert (find_id (td_id t) (m_transactions p) = Some t') as H2 by (by apply find_id_Some). congruence.
Qed.

(** An index in which each pair belongs to its transaction, after the removal of the
    pair of one of them. *)
Lemma mm_remove_index {K} `{EqDecision K} (R : K → TransactionDetails → Prop) (k : K) txd p index :
  pool_ok p → txd ∈ m_transactions p → (∀ k', R k' txd → k' = k) →
  NoDup index ∧ (∀ k' h, (k', h) ∈ index → ∃ t, t ∈ m_transactions p ∧ td_id t = h ∧ R k' t) →
  NoDup (mm_remove k (td_id txd) index).2 ∧
  (∀ k' h, (k', h) ∈ (mm_remove k (td_id txd) index).2 →
     ∃ t, t ∈ erase_id (td_id txd) (m_transactions p) ∧ td_id t = h ∧ R k' t).
Proof.
  intros Hok Ht Hk [Hnd Hin]. pose proof (mm_remove_spec k (td_id txd) index) as Hr.
  assert (∀ k' h, (k', h) ∈ index → (k', h) ≠ (k, td_id txd) →
    ∃ t, t ∈ erase_id (td_id txd) (m_transactions p) ∧ td_id t = h ∧ R k' t) as Hother.
  { intros k' h Hin' Hne. destruct (Hin _ _ Hin') as (t & Ht' & <- & HR). exists t. split; [|done].
    apply elem_of_erase_id. split; [|done]. intros Hid. assert (t = txd) as -> by (by eapply same_id).
    apply Hne. f_equal. by apply Hk. }
  destruct (mm_remove k (td_id txd) index) as [[] r]; cbn [fst snd] in *.
  - rewrite Hr in Hnd. apply list.NoDup_cons in Hnd as [Hnot Hnd]. split; [done|]. intros k' h Hin'.
    apply Hother; [rewrite Hr; by right|]. intros [= -> ->]. done.
  - destruct Hr as [Hnot ->]. split; [done|]. intros k' h Hin'. apply Hother; [done|]. by intros [= -> ->].
Qed.

Lemma PaymentIdIndex_remove_ret txd p :
  pool_ok p → txd ∈ m_transactions p →
  ∃ b pids, PaymentIdIndex_remove (td_tx txd) (pool_paymentIdIndex p) = Ret (b, pids) ∧
    NoDup pids ∧ ∀ pid h, (pid, h) ∈ pids →
      ∃ t, t ∈ erase_id (td_id txd) (m_transactions p) ∧ td_id t = h ∧ getPaymentId (td_tx t) = Ret (Some pid).
Proof.
  intros Hok Ht. destruct (ok_details p Hok _ Ht) as (Hh & [r Hr] & _). unfold PaymentIdIndex_remove.
  rewrite Hh, Hr. cbn [mbind outcome_bind]. destruct r as [pid|].
  - destruct (mm_remove_index (λ pid t, getPaymentId (td_tx t) = Ret (Some pid)) pid txd p
      (pool_paymentIdIndex p) Hok Ht) as [Hnd Hin]; [congruence|apply (ok_payments p Hok)|].
    destruct (mm_remove pid (td_id txd) (pool_paymentIdIndex p)) as [b pids]. by exists b, pids.
  - exists false, (pool_paymentIdIndex p). destruct (ok_payments p Hok) as [Hnd Hin]. split_and!; [done..|].
    intros pid h (t & Ht' & Hid & Hp)%Hin. exists t. split; [|done]. apply elem_of_erase_id. split; [|done].
    intros Heq. assert (t = txd) as -> by (by eapply same_id). congruence.
Qed.

Lemma removeTransaction_ok txd p :
  pool_ok p → txd ∈ m_transactions p →
  ∃ p', removeTransaction txd p = Ret p' ∧ pool_ok p' ∧
    m_transactions p' = erase_id (td_id txd) (m_transactions p).
Proof.
  intros Hok Ht. destruct (ok_details p Hok _ Ht) as (_ & _ & Hnd & Hndp).
  destruct (removeTransactionInputs_ret (td_id txd) (td_keptByBlock txd) (inputs (td_tx txd))
    (m_spent_key_images p) (m_spentOutputs p)) as (images & Hr & Himg & Hat).
  { apply (ok_images p Hok). } { done. } { intros k Hk. apply (ok_key_images p Hok). eauto. }
  { intros Hk. split; [by apply Hndp|]. intros q Hq. apply (ok_outputs p Hok). eauto. }
  destruct (PaymentIdIndex_remove_ret txd p Hok Ht) as (b & pids & Hpr & Hpids).
  pose proof (mm_remove_index (λ ts t, td_receiveTime t = ts) (td_receiveTime txd) txd p
    (pool_timestampIndex p) Hok Ht (λ _ e, eq_sym e) (ok_times p Hok)) as Htimes.
  unfold removeTransaction. rewrite Hr. cbn [mbind outcome_bind]. rewrite Hpr. cbn [mbind outcome_bind].
  unfold TimestampTransactionsIndex_remove, TimestampBlocksIndex_remove.
  destruct (mm_remove (td_receiveTime txd) (td_id txd) (pool_timestampIndex p)) as [b' times].
  eexists. split; [done|]. split; [|done].
  split; cbn [m_transactions m_spent_key_images m_spentOutputs pool_paymentIdIndex pool_timestampIndex m_ttlIndex];
    [apply erase_id_NoDup, (ok_ids p Hok)| | |done| | |done|done|].
  - intros t [_ Ht']%elem_of_erase_id. by apply (ok_details p Hok).
  - intros t t' [_ ?]%elem_of_erase_id [_ ?]%elem_of_erase_id. by apply (ok_compatible p Hok).
  - intros k id. rewrite Hat, elem_of_difference, (ok_key_images p Hok). setoid_rewrite elem_of_erase_id. split.
    + intros [(t & Ht' & <- & Hk) Hne]. exists t. split_and!; try done. intros Hid.
      assert (t = txd) as -> by (by eapply same_id). apply Hne. rewrite decide_True by done.
      by apply elem_of_singleton.
    + intros (t & [Hid Ht'] & <- & Hk). split; [eauto|]. destruct (decide _); [|apply not_elem_of_empty].
      by intros ?%elem_of_singleton.
  - intros q. setoid_rewrite elem_of_erase_id. destruct (td_keptByBlock txd) eqn:Hk.
    + rewrite (ok_outputs p Hok). split; intros (t & Ht' & Hk' & Hq); [|destruct Ht'; eauto].
      exists t. split_and!; try done. intros Hid. assert (t = txd) as -> by (by eapply same_id). congruence.
    + rewrite elem_of_difference, elem_of_list_to_set, (ok_outputs p Hok). split.
      * intros [(t & Ht' & Hk' & Hq) Hne]. exists t. split_and!; try done. intros Hid.
        assert (t = txd) as -> by (by eapply same_id). done.
      * intros (t & [Hid Ht'] & Hk' & Hq). split; [eauto|].
        by apply (ok_compatible p Hok t txd Ht' Ht Hk' Hk Hid).
  - intros h [x Hx]. apply lookup_delete_Some in Hx as [Hne Hx].
    assert (h ∈ td_id <$> m_transactions p) as (t & -> & Ht')%list_elem_of_fmap
      by (apply (ok_ttls p Hok); by eexists).
    apply list_elem_of_fmap_2. apply elem_of_erase_id. by split.
Qed.

Lemma take_tx_ok id p :
  pool_ok p → ∃ r p', take_tx id p = Ret (r, p') ∧ pool_ok p' ∧ have_tx id p' = false ∧
    (r = None ↔ have_tx id p = false) ∧
    (∀ tx blobSize fee, r = Some (tx, blobSize, fee) →
       getObjectHash cn_fast_hash serialize_Transaction tx = Ret id ∧
       ∀ k, k ∈ key_images (inputs tx) → id ∉ at_key (m_spent_key_images p') k).
Proof.
  intros Hok. unfold take_tx, have_tx. destruct (find_id id (m_transactions p)) as [txd|] eqn:Hf.
  - apply find_id_Some in Hf as [Ht <-]; [|apply (ok_ids p Hok)].
    destruct (removeTransaction_ok txd p Hok Ht) as (p' & -> & Hok' & Htx). cbn [mbind outcome_bind].
    assert (td_id txd ∉ td_id <$> m_transactions p') as Hnot.
    { rewrite Htx. intros (t & Hid & Hin)%list_elem_of_fmap. by apply elem_of_erase_id in Hin as [? _]. }
    eexists _, p'. split_and!; [done|done| | |].
    + apply bool_decide_eq_false_2. rewrite (proj2 (find_id_None _ _) Hnot). by intros [? ?].
    + by rewrite bool_decide_true by (by eexists).
    + intros tx blobSize fee [= <- <- <-]. split; [apply (ok_details p Hok _ Ht)|].
      intros k _ (t & Ht' & Hid & _)%(ok_key_images p' Hok'). apply Hnot. rewrite <- Hid.
      by apply list_elem_of_fmap_2.
  - eexists None, p. split_and!; [done|done| | |done].
    + apply bool_decide_eq_false_2. rewrite Hf. by intros [? ?].
    + split; [|done]. intros _. apply bool_decide_eq_false_2. by intros [? ?].
Qed.

(** Taking the transaction that was added gives back the pool of before. *)
Lemma take_added p txd l images spent ttl :
  pool_ok p → (∃ r, getPaymentId (td_tx txd) = Ret r) →
  getObjectHash cn_fast_hash serialize_Transaction (td_tx txd) = Ret (td_id txd) →
  find_id (td_id txd) (m_transactions p) = None → insert_by_priority txd (m_transactions p) = Ret l →
  addTransactionInputs (td_id txd) (inputs (td_tx txd)) (td_keptByBlock txd)
    (m_spent_key_images p) (m_spentOutputs p) = Ret (true, images, spent) →
  take_tx (td_id txd) {| m_transactions := l; m_spent_key_images := images; m_spentOutputs := spent;
    m_recentlyDeletedTransactions := m_recentlyDeletedTransactions p;
    pool_paymentIdIndex := pool_paymentIdIndex p;
    pool_timestampIndex := mm_insert (td_receiveTime txd) (td_id txd) (pool_timestampIndex p);
    m_ttlIndex := if negb (ttl =? 0) then
                    match m_ttlIndex p !! td_id txd with
                    | Some _ => m_ttlIndex p
                    | None => <[td_id txd := ttl]> (m_ttlIndex p)
                    end
                  else m_ttlIndex p |} =
  Ret (Some (td_tx txd, td_blobSize txd, td_fee txd), p).
Proof.
  intros Hok [r Hpay] Hhash Hnew Hins Hadd.
  pose proof (insert_by_priority_perm _ _ _ Hins) as Hp. pose proof (proj1 (find_id_None _ _) Hnew) as Hfresh.
  destruct (add_inputs_effect p txd images spent Hok Hnew Hadd) as (Himg & Hnd & Hat & Hpos & Hsp).
  unfold take_tx. cbn [m_transactions]. assert (find_id (td_id txd) l = Some txd) as ->.
  { apply find_id_Some; [|split; [rewrite Hp; by left|done]].
    rewrite Hp, fmap_cons. apply list.NoDup_cons. split; [done|apply (ok_ids p Hok)]. }
  destruct (removeTransactionInputs_ret (td_id txd) (td_keptByBlock txd) (inputs (td_tx txd)) images spent)
    as (images' & Hr & Himg' & Hat').
  { done. } { done. }
  { intros k Hk. rewrite Hat, decide_True by done. by apply elem_of_union_r, elem_of_singleton. }
  { intros Hk. split; [by apply Hpos|]. intros q Hq. rewrite Hsp, Hk. apply elem_of_union_r, elem_of_list_to_set, Hq. }
  assert (images' = m_spent_key_images p) as ->.
  { apply images_eq; [done|apply (ok_images p Hok)|]. intros k. rewrite Hat', Hat.
    pose proof (new_id_fresh p txd Hok Hnew k) as Hk. destruct (decide _); clear -Hk; set_solver. }
  assert ((if td_keptByBlock txd then spent else spent ∖ list_to_set (positions (inputs (td_tx txd)))) =
    m_spentOutputs p) as Hsp'.
  { rewrite Hsp. destruct (td_keptByBlock txd); [done|]. destruct (Hpos eq_refl) as [_ Hnot].
    apply set_eq. intros q. specialize (Hnot q). rewrite elem_of_difference, elem_of_union, elem_of_list_to_set.
    tauto. }
  unfold removeTransaction. cbn [m_spent_key_images m_spentOutputs]. rewrite Hr, Hsp'.
  cbn [mbind outcome_bind pool_paymentIdIndex pool_timestampIndex m_ttlIndex m_recentlyDeletedTransactions m_transactions].
  unfold PaymentIdIndex_remove, TimestampTransactionsIndex_remove, TimestampBlocksIndex_remove.
  rewrite Hhash, Hpay. cbn [mbind outcome_bind].
  rewrite (mm_remove_insert _ _ _ (new_time_fresh p txd Hok Hnew (td_receiveTime txd))).
  rewrite (insert_by_priority_erase _ _ _ Hins Hfresh), (new_ttl_undo p txd Hok Hnew ttl).
  destruct r as [pid|]; cbn [mbind outcome_bind]; [|by destruct p].
  pose proof (mm_remove_spec pid (td_id txd) (pool_paymentIdIndex p)) as Hm.
  destruct (mm_remove pid (td_id txd) (pool_paymentIdIndex p)) as [[] pids]; cbn [fst snd] in Hm.
  - destruct (new_payment_fresh p txd Hok Hnew pid). rewrite Hm. by left.
  - destruct Hm as [_ ->]. by destruct p.
Qed.

(** A transaction from a block that is accepted was put into the pool. *)
Lemma add_tx_kept tx id blobSize height p tvc p' :
  add_tx c m_validator now tx id blobSize empty_tvc true height p = Ret (true, tvc, p') →
  m_added_to_pool tvc = true.
Proof.
  unfold add_tx. cbn [negb andb]. intros E. case_bool_in E; [done|].
  apply outcome_bind_ret in E as (amount & _ & E). cbv zeta in E. case_bool_in E; [done|].
  apply outcome_bind_ret in E as (ttl & _ & E). apply outcome_bind_ret in E as (fusion & _ & E).
  case_bool_in E; [done|]. apply outcome_bind_ret in E as ([valid used] & _ & E). rewrite andb_false_r in E.
  destruct (find_id id (m_transactions p)); [done|].
  apply outcome_bind_ret in E as (l & _ & E). apply outcome_bind_ret in E as ([b pids] & _ & E).
  unfold TimestampTransactionsIndex_add, TimestampBlocksIndex_add in E. cbv zeta in E.
  apply outcome_bind_ret in E as ([[ok images] spent] & _ & E). by injection E as _ <- _.
Qed.

(** An accepted transaction is the only new one of the pool. *)
Lemma add_tx_pool_ok tx id blobSize kept height p tvc p' :
  pool_ok p → getObjectHash cn_fast_hash serialize_Transaction tx = Ret id → (∃ r, getPaymentId tx = Ret r) →
  add_tx c m_validator now tx id blobSize empty_tvc kept height p = Ret (true, tvc, p') →
  m_added_to_pool tvc = true →
  pool_ok p' ∧ ∃ txd, td_id txd = id ∧ td_tx txd = tx ∧ td_keptByBlock txd = kept ∧
    m_transactions p' ≡ₚ txd :: m_transactions p.
Proof.
  intros Hok Hh Hp Ha Hadded. destruct (add_tx_added _ _ _ _ _ _ _ _ _ Ha Hadded) as (_ & txd & ttl & l & images &
    spent & <- & <- & _ & <- & <- & Hfree & Hnew & Hins & Hin & ->).
  split; [|exists txd; split_and!; try done; by eapply insert_by_priority_perm].
  apply (add_tx_ok p txd); try done. intros h Hs. destruct (negb (ttl =? 0)); [|right; by apply (ok_ttls p Hok)].
  destruct (m_ttlIndex p !! td_id txd); [right; by apply (ok_ttls p Hok)|].
  destruct (decide (h = td_id txd)) as [->|Hne]; [by left|]. rewrite lookup_insert_ne in Hs by done.
  right. by apply (ok_ttls p Hok).
Qed.

(** What the pool holds: the hashes with their transactions. *)
Definition contents (p : Pool) : list (Hash * Transaction) := (λ t, (td_id t, td_tx t)) <$> m_transactions p.

Lemma contents_ids p : fst <$> contents p = td_id <$> m_transactions p.
Proof. unfold contents. by rewrite <- list_fmap_compose. Qed.

Lemma contents_find p h tx :
  pool_ok p → (h, tx) ∈ contents p → ∃ t, find_id h (m_transactions p) = Some t ∧ td_tx t = tx.
Proof.
  intros Hok (t & [= -> ->] & Ht)%list_elem_of_fmap. exists t. split; [|done].
  by apply find_id_Some; [apply (ok_ids p Hok)|].
Qed.

Lemma erase_id_fresh id l : id ∉ td_id <$> l → erase_id id l = l.
Proof.
  unfold erase_id. induction l as [|x l IH]; intros Hn; [done|]. rewrite fmap_cons, not_elem_of_cons in Hn.
  destruct Hn as [Hx Hn]. rewrite filter_cons_True by (intros E; by apply Hx). by rewrite IH.
Qed.

Lemma erase_id_perm id l t :
  NoDup (td_id <$> l) → find_id id l = Some t → l ≡ₚ t :: erase_id id l.
Proof.
  unfold erase_id. induction l as [|x l IH]; intros Hnd Hf; [done|]. cbn [find_id] in Hf.
  rewrite fmap_cons in Hnd. apply list.NoDup_cons in Hnd as [Hx Hnd]. rewrite filter_cons.
  destruct (bool_decide_reflect (td_id x = id)) as [E|E].
  - injection Hf as <-. rewrite decide_False by (intros Hc; by apply Hc).
    constructor. fold (erase_id id l). by rewrite erase_id_fresh by (by rewrite <- E).
  - rewrite decide_True by done. rewrite (IH Hnd Hf) at 1. constructor.
Qed.

(** [take_tx] takes one transaction out. *)
Lemma take_tx_contents id p r p' :
  pool_ok p → take_tx id p = Ret (r, p') →
  pool_ok p' ∧ match r with
               | None => p' = p
               | Some (tx, _, _) => contents p ≡ₚ (id, tx) :: contents p' ∧
                   getObjectHash cn_fast_hash serialize_Transaction tx = Ret id ∧
                   NoDup (key_images (inputs tx)) ∧ ∃ pid, getPaymentId tx = Ret pid
               end.
Proof.
  intros Hok E. unfold take_tx in E. destruct (find_id id (m_transactions p)) as [t|] eqn:Hf; [|by injection E as <- <-].
  pose proof (erase_id_perm _ _ _ (ok_ids p Hok) Hf) as Hperm.
  apply find_id_Some in Hf as [Ht <-]; [|apply (ok_ids p Hok)].
  destruct (removeTransaction_ok t p Hok Ht) as (p1 & E1 & Hok1 & Htx). rewrite E1 in E. injection E as <- <-.
  split; [done|]. destruct (ok_details p Hok _ Ht) as (Hh & Hp & Hk & _). split_and!; try done.
  unfold contents. by rewrite Hperm, Htx.
Qed.

(** ** Block templates: proofs *)

(** What the transactions of a template spend. *)
Definition all_images (l : list TransactionDetails) : list KeyImage :=
  mjoin ((λ t, key_images (inputs (td_tx t))) <$> l).
Definition all_positions (l : list TransactionDetails) : list (Z * Z) :=
  mjoin ((λ t, positions (inputs (td_tx t))) <$> l).

Lemma template_inputs_ret ins : ∀ images used images' used',
  template_inputs ins images used = Ret (images', used') →
  NoDup (key_images ins) ∧ (∀ k, k ∈ key_images ins → k ∉ images) ∧
  NoDup (positions ins) ∧ (∀ q, q ∈ positions ins → q ∉ used) ∧
  images' = images ∪ list_to_set (key_images ins) ∧ used' = used ∪ list_to_set (positions ins).
Proof.
  induction ins as [|[b|k|m] ins IH]; intros images used images' used' Hr; cbn [template_inputs] in Hr.
  - injection Hr as <- <-. split_and!; try constructor; try (by intros x Hx; apply not_elem_of_nil in Hx);
      cbn; clear; set_solver.
  - by apply IH in Hr.
  - unfold assert_ in Hr. destruct (bool_decide_reflect (ki_keyImage k ∈ images)) as [|Hn]; [done|].
    cbn [negb mbind outcome_bind] in Hr. apply IH in Hr as (Hnd & Hnot & ? & ? & -> & ->).
    rewrite key_images_cons. split_and!; try done; [| |cbn [list_to_set]; clear; set_solver].
    + apply list.NoDup_cons. split; [|done]. intros Hk. apply (Hnot _ Hk). clear. set_solver.
    + intros k' [->|Hk']%elem_of_cons; [done|]. specialize (Hnot _ Hk'). clear -Hnot. set_solver.
  - unfold assert_ in Hr. destruct (bool_decide_reflect ((mi_amount m, mi_outputIndex m) ∈ used)) as [|Hn]; [done|].
    cbn [negb mbind outcome_bind] in Hr. apply IH in Hr as (? & ? & Hnd & Hnot & -> & ->).
    rewrite positions_cons. split_and!; try done; [| |cbn [list_to_set]; unfold position; clear; set_solver].
    + apply list.NoDup_cons. split; [|done]. intros Hk. apply (Hnot _ Hk). unfold position. clear. set_solver.
    + intros q [->|Hq]%elem_of_cons; [done|]. specialize (Hnot _ Hq). clear -Hnot. set_solver.
Qed.

Definition ready (t : TransactionDetails) : Prop :=
  is_transaction_ready_to_go m_validator (td_tx t) (td_maxUsedBlock t) (td_lastFailedBlock t) = Ret true.

(** The template after the transactions [chosen]. *)
Record template_ok (median_size max_total_size : Z) (ttls : gmap Hash Z) (chosen : list TransactionDetails)
    (st : BlockTemplate * Z * Z) : Prop := {
  tok_hashes : bt_txHashes st.1.1 = td_id <$> chosen;
  tok_images : NoDup (all_images chosen) ∧ ∀ k, k ∈ bt_keyImages st.1.1 ↔ k ∈ all_images chosen;
  tok_outputs : NoDup (all_positions chosen) ∧ ∀ q, q ∈ bt_usedOutputs st.1.1 ↔ q ∈ all_positions chosen;
  tok_ready : Forall (λ t, ready t ∧ ttls !! td_id t = None) chosen;
  tok_size : st.1.2 = sumZ (td_blobSize <$> chosen) ∧ st.1.2 <= Z.max 0 (Z.max median_size max_total_size);
  tok_fee : st.2 = u64 (sumZ (td_fee <$> chosen))
}.

Lemma all_images_snoc l t : all_images (l ++ [t]) = all_images l ++ key_images (inputs (td_tx t)).
Proof. unfold all_images. rewrite fmap_app, join_app. cbn. by rewrite app_nil_r. Qed.
Lemma all_positions_snoc l t : all_positions (l ++ [t]) = all_positions l ++ positions (inputs (td_tx t)).
Proof. unfold all_positions. rewrite fmap_app, join_app. cbn. by rewrite app_nil_r. Qed.

Lemma NoDup_app_fresh {A} (l k : list A) : NoDup l → NoDup k → (∀ x, x ∈ k → x ∉ l) → NoDup (l ++ k).
Proof.
  intros Hl Hk Hx. apply list.NoDup_app. split_and!; [done| |done]. intros x Hin Hin'. by apply (Hx x).
Qed.

Lemma template_step_ok median limit ttls t st st' chosen :
  template_ok median limit ttls chosen st → 0 <= td_blobSize t →
  sumZ (td_blobSize <$> chosen) + td_blobSize t < 2 ^ 64 → 0 <= sumZ (td_blobSize <$> chosen) →
  template_step m_validator median limit ttls t st = Ret st' →
  st' = st ∧ template_ok median limit ttls chosen st' ∨ template_ok median limit ttls (chosen ++ [t]) st'.
Proof.
  intros Hok H0 Hsz Hpos. destruct st as [[bt total] fee]. unfold template_step.
  case_bool_decide as Httl; [intros [= <-]; by left|]. cbn zeta.
  destruct Hok as [Hh [Hi1 Hi2] [Ho1 Ho2] Hr [Ht1 Ht2] Hf]. cbn [fst snd] in *.
  rewrite u64_small by (unfold in_range; lia).
  destruct (Z.ltb_spec (if td_fee t =? 0 then median else limit) (total + td_blobSize t)) as [|Hlim];
    [intros [= <-]; left; by split|].
  destruct (is_transaction_ready_to_go m_validator (td_tx t) (td_maxUsedBlock t) (td_lastFailedBlock t))
    as [[]| |] eqn:Hready; [|intros [= <-]; left; by split|done..].
  cbn [mbind outcome_bind]. unfold addTransaction.
  destruct (canAdd (td_tx t) bt) eqn:Hcan; cbn [negb]; [|intros [= <-]; left; by split].
  destruct (template_inputs (inputs (td_tx t)) (bt_keyImages bt) (bt_usedOutputs bt))
    as [[images used]| |] eqn:Hin; [|done..].
  cbn [mbind outcome_bind]. intros [= <-]. right.
  apply template_inputs_ret in Hin as (Hn1 & Hn2 & Hn3 & Hn4 & -> & ->).
  split; cbn [fst snd bt_txHashes bt_keyImages bt_usedOutputs].
  - by rewrite Hh, fmap_app.
  - rewrite all_images_snoc. split.
    + apply NoDup_app_fresh; [done|done|]. intros k Hk. rewrite <- Hi2. by apply Hn2.
    + intros k. by rewrite elem_of_union, elem_of_list_to_set, elem_of_app, Hi2.
  - rewrite all_positions_snoc. split.
    + apply NoDup_app_fresh; [done|done|]. intros k Hk. rewrite <- Ho2. by apply Hn4.
    + intros k. by rewrite elem_of_union, elem_of_list_to_set, elem_of_app, Ho2.
  - apply Forall_app. split; [done|]. constructor; [|constructor]. split; [done|by apply eq_None_not_Some].
  - rewrite fmap_app, sumZ_app, fmap_cons, sumZ_cons, fmap_nil, sumZ_nil, Z.add_0_r.
    split; [lia|]. destruct (td_fee t =? 0); lia.
  - rewrite fmap_app, sumZ_app, fmap_cons, sumZ_cons, fmap_nil, sumZ_nil, Z.add_0_r, Hf.
    unfold u64. by rewrite wrap_add_l.
Qed.

(** The assertions of [addTransaction] hold for a transaction that spends nothing
    twice. *)
Lemma template_inputs_total ins : ∀ images used,
  NoDup (key_images ins) → NoDup (positions ins) →
  (∀ k, k ∈ key_images ins → k ∉ images) → (∀ q, q ∈ positions ins → q ∉ used) →
  ∃ r, template_inputs ins images used = Ret r.
Proof.
  induction ins as [|[b|k|m] ins IH]; intros images used Hk Hq Hi Hu; cbn [template_inputs].
  - by eexists.
  - by apply IH.
  - rewrite key_images_cons in *. apply list.NoDup_cons in Hk as [Hn Hk].
    rewrite bool_decide_false by (apply Hi; by left). cbn [negb assert_ mbind outcome_bind]. apply IH; try done.
    intros k' Hk' [->%elem_of_singleton|Hin]%elem_of_union; [done|]. apply (Hi k'); [by right|done].
  - rewrite positions_cons in *. apply list.NoDup_cons in Hq as [Hn Hq].
    rewrite bool_decide_false by (apply Hu; by left). cbn [negb assert_ mbind outcome_bind]. apply IH; try done.
    intros q Hq' [->%elem_of_singleton|Hin]%elem_of_union; [done|]. apply (Hu q); [by right|done].
Qed.

Lemma canAdd_iff tx bt : canAdd tx bt = true →
  (∀ k, k ∈ key_images (inputs tx) → k ∉ bt_keyImages bt) ∧
  (∀ q, q ∈ positions (inputs tx) → q ∉ bt_usedOutputs bt).
Proof.
  unfold canAdd. generalize (inputs tx) as ins.
  induction ins as [|[b|k|m] ins IH]; cbn [forallb]; intros Hc.
  - split; intros x Hx; by apply not_elem_of_nil in Hx.
  - by apply IH.
  - apply andb_true_iff in Hc as [Hk Hc]. destruct (IH Hc) as [H1 H2]. split; [|exact H2].
    apply negb_true_iff, bool_decide_eq_false_1 in Hk. intros k' [->|?]%elem_of_cons; [done|by apply H1].
  - apply andb_true_iff in Hc as [Hm Hc]. destruct (IH Hc) as [H1 H2]. split; [exact H1|].
    apply negb_true_iff, bool_decide_eq_false_1 in Hm. intros q [->|?]%elem_of_cons; [done|by apply H2].
Qed.

(** A transaction whose readiness can be decided and that spends nothing twice. *)
Definition checkable (t : TransactionDetails) : Prop :=
  0 <= td_blobSize t ∧ NoDup (key_images (inputs (td_tx t))) ∧ NoDup (positions (inputs (td_tx t))) ∧
  ∃ b, is_transaction_ready_to_go m_validator (td_tx t) (td_maxUsedBlock t) (td_lastFailedBlock t) = Ret b.

Lemma template_step_total median limit ttls t st :
  checkable t → ∃ st', template_step m_validator median limit ttls t st = Ret st'.
Proof.
  intros (_ & Hk & Hq & b & Hb). destruct st as [[bt total] fee]. unfold template_step.
  case_bool_decide; [by eexists|]. cbn zeta. destruct (_ <? u64 _); [by eexists|]. rewrite Hb.
  cbn [mbind outcome_bind]. destruct b; [|by eexists]. unfold addTransaction.
  destruct (canAdd (td_tx t) bt) eqn:Hc; cbn [negb]; [|by eexists].
  destruct (canAdd_iff _ _ Hc) as [H1 H2]. destruct (template_inputs_total _ _ _ Hk Hq H1 H2) as [[i u] ->].
  by eexists.
Qed.

Lemma template_loop_ok median limit ttls l : ∀ st chosen,
  template_ok median limit ttls chosen st → Forall checkable l →
  0 <= sumZ (td_blobSize <$> chosen) → sumZ (td_blobSize <$> chosen ++ l) < 2 ^ 64 →
  ∃ st' more, template_loop m_validator median limit ttls l st = Ret st' ∧ sublist more l ∧
    template_ok median limit ttls (chosen ++ more) st'.
Proof.
  induction l as [|t l IH]; intros st chosen Hok Hf H0 Hsum; cbn [template_loop].
  { exists st, []. rewrite app_nil_r. split_and!; [done|constructor|done]. }
  apply Forall_cons_iff in Hf as [Ht Hf]. destruct (template_step_total median limit ttls t st Ht) as [st1 Hst].
  rewrite Hst. cbn [mbind outcome_bind]. destruct Ht as (Hb & _).
  assert (0 <= sumZ (td_blobSize <$> l)) as Hl.
  { apply sumZ_nonneg. apply Forall_fmap. eapply Forall_impl; [|exact Hf]. by intros x (? & _). }
  rewrite fmap_app, sumZ_app, fmap_cons, sumZ_cons in Hsum.
  destruct (template_step_ok _ _ _ _ _ _ _ Hok Hb ltac:(lia) H0 Hst) as [[-> Hok1]|Hok1].
  - destruct (IH st chosen Hok1 Hf H0) as (st' & more & Hr & Hs & Hok'); [rewrite fmap_app, sumZ_app; lia|].
    exists st', more. split_and!; [done|by constructor|done].
  - destruct (IH st1 (chosen ++ [t]) Hok1 Hf) as (st' & more & Hr & Hs & Hok').
    + rewrite fmap_app, sumZ_app, fmap_cons, sumZ_cons, fmap_nil, sumZ_nil. lia.
    + rewrite !fmap_app, !sumZ_app, fmap_cons, sumZ_cons, fmap_nil, sumZ_nil. lia.
    + exists st', (t :: more). split_and!; [done|by constructor|]. by rewrite <- app_assoc in Hok'.
Qed.
End PoolProofs.

(** ** Theorems *)

(** C11: a transaction that the pool accepts keeps the tables of the pool exact (each
    key image maps to the transactions that spend it, and no two transactions that
    came from the network spend the same), and taking it out again returns it
    unchanged and restores the pool as it was. *)
Theorem pool_add_take `{CryptoOps} {V} `{!ITransactionValidator V} c (v : V) now tx id blobSize kept height
    p tvc p' :
  pool_ok p → getObjectHash cn_fast_hash serialize_Transaction tx = Ret id →
  (∃ r, getPaymentId tx = Ret r) →
  add_tx c v now tx id blobSize empty_tvc kept height p = Ret (true, tvc, p') → m_added_to_pool tvc = true →
  pool_ok p' ∧ have_tx id p' = true ∧
  (∀ k, k ∈ key_images (inputs tx) → id ∈ at_key (m_spent_key_images p') k) ∧
  ∃ fee, take_tx id p' = Ret (Some (tx, blobSize, fee), p).
Proof.
  intros Hok Hh Hp Ha Hadded.
  destruct (add_tx_added _ _ _ _ _ _ _ _ _ _ _ _ Ha Hadded) as (_ & txd & ttl & l & images & spent &
    <- & <- & <- & <- & <- & Hfree & Hnew & Hins & Hin & ->).
  pose proof (take_added p txd l images spent ttl Hok Hp Hh Hnew Hins Hin) as Htake.
  split_and!; [|..|eauto].
  - by eapply add_tx_pool_ok.
  - unfold have_tx. apply bool_decide_eq_true_2. unfold take_tx in Htake.
    cbn [m_transactions] in *. destruct (find_id (td_id txd) l); [by eexists|done].
  - intros k Hk. cbn [m_spent_key_images].
    destruct (add_inputs_effect p txd images spent Hok Hnew Hin) as (_ & _ & Hat & _).
    rewrite Hat, decide_True by done. by apply elem_of_union_r, elem_of_singleton.
Qed.

(** A validator for examples: a transaction is in order if its unlock time is 0. *)
#[local] Instance toy_validator : ITransactionValidator unit := {|
  val_checkTransactionInputs _ tx used := mret (unlockTime tx =? 0, {| info_height := 1; info_id := toy 5 |});
  val_recheckTransactionInputs _ tx used failed := mret (unlockTime tx =? 0, used, failed);
  val_haveSpentKeyImages _ tx := false;
  val_checkTransactionSize _ size := size <? 1000
|}.

(** Transactions that spend a key image, with an output below the input. *)
Definition sample_pool_tx (image out : Z) : Transaction := {|
  tx_prefix := {| version := 1; unlockTime := 0;
    inputs := [InKey {| ki_amount := 1000; ki_outputIndexes := [0]; ki_keyImage := toy image |}];
    outputs := [ {| out_amount := out; out_target := OutKey {| ko_key := toy 11 |} |} ];
    extra := [] |};
  signatures := [[replicate 64 1]] |}.

Definition toy_hash (tx : Transaction) : Hash :=
  match getObjectHash (@cn_fast_hash toy_crypto) serialize_Transaction tx with Ret h => h | _ => [] end.

Lemma pool_add_take_witness :
  match add_tx (H := toy_crypto) mainnet tt 100 (sample_pool_tx 3 900) (toy_hash (sample_pool_tx 3 900)) 200
          empty_tvc false 7 empty_Pool with
  | Ret (true, _, p') => ∃ fee,
      take_tx (H := toy_crypto) (toy_hash (sample_pool_tx 3 900)) p' =
        Ret (Some (sample_pool_tx 3 900, 200, fee), empty_Pool)
  | _ => False
  end.
Proof.
  destruct (add_tx (H := toy_crypto) mainnet tt 100 (sample_pool_tx 3 900) (toy_hash (sample_pool_tx 3 900)) 200
    empty_tvc false 7 empty_Pool) as [[[[] tvc] p']| |] eqn:E; [|by vm_compute in E..].
  apply (pool_add_take (H := toy_crypto)) in E as (_ & _ & _ & Ht);
    [exact Ht|apply empty_pool_ok|by vm_compute|eexists; by vm_compute|by vm_compute in E; injection E as <- _].
Defined.

(** C24: the template of a block lists transactions of the pool that are ready and have
    no time to live, no two of which spend the same key image or deposit; the size is
    the sum of their sizes and within the limits, and the fee the sum of their fees. *)
Theorem block_template_sound {V} `{!ITransactionValidator V} c (v : V) median maxSize p :
  Forall (checkable v) (m_transactions p) → sumZ (td_blobSize <$> m_transactions p) < 2 ^ 64 →
  ∃ chosen total fee,
    fill_block_template c v median maxSize p = Ret (td_id <$> chosen, total, fee) ∧
    sublist chosen (reverse (m_transactions p)) ∧
    Forall (λ t, ready v t ∧ m_ttlIndex p !! td_id t = None) chosen ∧
    NoDup (all_images chosen) ∧ NoDup (all_positions chosen) ∧
    total = sumZ (td_blobSize <$> chosen) ∧ fee = u64 (sumZ (td_fee <$> chosen)) ∧
    total <= Z.max 0 (Z.max median (template_limit c median maxSize)).
Proof.
  intros Hf Hs. unfold fill_block_template.
  destruct (template_loop_ok v median (template_limit c median maxSize) (m_ttlIndex p)
    (reverse (m_transactions p)) ({| bt_keyImages := ∅; bt_usedOutputs := ∅; bt_txHashes := [] |}, 0, 0) [])
    as (st & chosen & Hr & Hsub & Hok).
  - split; cbn; try done; [..|lia]; (split; [constructor|]); intros x; (split; intros Hx;
      [by apply not_elem_of_empty in Hx|by apply not_elem_of_nil in Hx]).
  - by apply Forall_reverse.
  - done.
  - rewrite app_nil_l. by rewrite reverse_Permutation.
  - rewrite Hr. cbn [mbind outcome_bind]. destruct st as [[bt total] fee]. destruct Hok as [Hh [Hi _] [Ho _] Hrd [Ht Htl] Hfe].
    cbn [fst snd] in *. rewrite app_nil_l in *. exists chosen, total, fee. rewrite Hh. by split_and!.
Qed.

Definition sample_details (image fee size : Z) : TransactionDetails := {|
  td_id := toy image; td_tx := sample_pool_tx image 900; td_blobSize := size; td_fee := fee;
  td_maxUsedBlock := empty_BlockInfo; td_lastFailedBlock := empty_BlockInfo; td_keptByBlock := false;
  td_receiveTime := 5 |}.

Definition sample_pool : Pool := {|
  m_transactions := [sample_details 3 1000 60; sample_details 4 100 60; sample_details 5 0 60];
  m_spent_key_images := ∅; m_spentOutputs := ∅; m_recentlyDeletedTransactions := ∅; pool_paymentIdIndex := [];
  pool_timestampIndex := []; m_ttlIndex := ∅ |}.

Lemma sample_checkable i f n : 0 <= n → checkable tt (sample_details i f n).
Proof.
  intros Hn. split_and!; [done|apply NoDup_singleton|constructor|by eexists].
Qed.

Lemma block_template_sound_witness :
  ∃ chosen total fee,
    fill_block_template mainnet tt 100000 150 sample_pool = Ret (td_id <$> chosen, total, fee) ∧
    sublist chosen (reverse (m_transactions sample_pool)) ∧
    Forall (λ t, ready tt t ∧ m_ttlIndex sample_pool !! td_id t = None) chosen ∧
    NoDup (all_images chosen) ∧ NoDup (all_positions chosen) ∧
    total = sumZ (td_blobSize <$> chosen) ∧ fee = u64 (sumZ (td_fee <$> chosen)) ∧
    total <= Z.max 0 (Z.max 100000 (template_limit mainnet 100000 150)).
Proof.
  apply (block_template_sound mainnet tt 100000 150 sample_pool);
    [|by vm_compute].
  do 3 (constructor; [apply sample_checkable; lia|]). constructor.
Defined.

(** the template is filled from the end of the ordered index: of two ready
    transactions of which only one fits, the one that the comparator ranks behind the
    other is taken and the more profitable one is left out. *)
Theorem template_prefers_less_profitable {V} `{!ITransactionValidator V} c (v : V) median maxSize
    best worst p :
  m_transactions p = [best; worst] → priority_before best worst = Ret true → m_ttlIndex p = ∅ →
  ready v best → checkable v best → ready v worst → checkable v worst → 0 < td_fee best → 0 < td_fee worst →
  td_blobSize worst <= template_limit c median maxSize < td_blobSize best + td_blobSize worst →
  td_blobSize best + td_blobSize worst < 2 ^ 64 → is_u64 (td_fee worst) →
  fill_block_template c v median maxSize p = Ret ([td_id worst], td_blobSize worst, td_fee worst).
Proof.
  intros Hl _ Httl Hrb Hcb Hrw (Hw0 & Hk & Hq & _) Hfb Hfw [Hfit Hboth] Hsz Hu. destruct Hcb as (Hb0 & _).
  set (st0 := ({| bt_keyImages := ∅; bt_usedOutputs := ∅; bt_txHashes := [] |}, 0, 0)).
  set (limit := template_limit c median maxSize) in *.
  assert (∃ i u, template_step v median limit ∅ worst st0 =
    Ret ({| bt_keyImages := i; bt_usedOutputs := u; bt_txHashes := [td_id worst] |},
         td_blobSize worst, td_fee worst)) as (i & u & Hstep).
  { unfold template_step, st0. rewrite lookup_empty, bool_decide_false by (by intros [? ?]). cbn zeta.
    rewrite (proj2 (Z.eqb_neq (td_fee worst) 0)), !Z.add_0_l by lia.
    rewrite (u64_small (td_blobSize worst)), (u64_small (td_fee worst)) by (done || unfold in_range; lia).
    rewrite (proj2 (Z.ltb_ge limit (td_blobSize worst))) by lia.
    rewrite Hrw. cbn [mbind outcome_bind]. unfold addTransaction.
    assert (canAdd (td_tx worst) {| bt_keyImages := ∅; bt_usedOutputs := ∅; bt_txHashes := [] |} = true) as ->.
    { unfold canAdd. apply forallb_forall. intros [?|k|m] _; [done|..]; cbn; by rewrite bool_decide_false. }
    cbn [negb bt_keyImages bt_usedOutputs bt_txHashes].
    destruct (template_inputs_total (inputs (td_tx worst)) ∅ ∅ Hk Hq) as [[i u] ->];
      [intros; apply not_elem_of_empty..|]. by exists i, u. }
  unfold fill_block_template. fold limit. fold st0. rewrite Hl, Httl.
  change (reverse [best; worst]) with [worst; best]. cbn [template_loop]. rewrite Hstep.
  cbn [mbind outcome_bind]. unfold template_step.
  rewrite lookup_empty, bool_decide_false by (by intros [? ?]). cbn zeta.
  rewrite (proj2 (Z.eqb_neq (td_fee best) 0)) by lia.
  rewrite (u64_small (td_blobSize worst + td_blobSize best)) by (unfold in_range; lia).
  by rewrite (proj2 (Z.ltb_lt limit _)) by lia.
Qed.

Definition two_transactions : Pool := {|
  m_transactions := [sample_details 3 1000 60; sample_details 4 100 60];
  m_spent_key_images := ∅; m_spentOutputs := ∅; m_recentlyDeletedTransactions := ∅; pool_paymentIdIndex := [];
  pool_timestampIndex := []; m_ttlIndex := ∅ |}.

Lemma template_prefers_less_profitable_witness :
  fill_block_template mainnet tt 100000 100 two_transactions = Ret ([toy 4], 60, 100).
Proof.
  apply (template_prefers_less_profitable mainnet tt 100000 100 (sample_details 3 1000 60) (sample_details 4 100 60));
    [done|by vm_compute|done|done|by apply sample_checkable|done|by apply sample_checkable|done|done|
     by vm_compute|done|by vm_compute].
Defined.

(** [add_tx] indexes the payment id of a transaction it has moved from, so the
    pool finds no transaction it received by its payment id. *)
Theorem added_payment_id_not_indexed `{CryptoOps} {V} `{!ITransactionValidator V} c (v : V) now tx id blobSize
    kept height p tvc p' paymentId :
  add_tx c v now tx id blobSize empty_tvc kept height p = Ret (true, tvc, p') → m_added_to_pool tvc = true →
  getPaymentId tx = Ret (Some paymentId) →
  PaymentIdIndex_find paymentId (pool_paymentIdIndex p') = PaymentIdIndex_find paymentId (pool_paymentIdIndex p).
Proof.
  intros Ha Hadded _. destruct (add_tx_added _ _ _ _ _ _ _ _ _ _ _ _ Ha Hadded) as (_ & txd & ttl & l & images & spent &
    _ & _ & _ & _ & _ & _ & _ & _ & _ & ->). done.
Qed.

(** A transaction whose extra field has a nonce with the payment id of 32 sevens. *)
Definition sample_payment_tx : Transaction := {|
  tx_prefix := {| version := 1; unlockTime := 0;
    inputs := [InKey {| ki_amount := 1000; ki_outputIndexes := [0]; ki_keyImage := toy 3 |}];
    outputs := [ {| out_amount := 900; out_target := OutKey {| ko_key := toy 11 |} |} ];
    extra := [2; 33; 0] ++ replicate 32 7 |};
  signatures := [[replicate 64 1]] |}.

Lemma added_payment_id_not_indexed_witness :
  match add_tx (H := toy_crypto) mainnet tt 100 sample_payment_tx (toy_hash sample_payment_tx) 200
          empty_tvc false 7 empty_Pool with
  | Ret (true, tvc, p') => have_tx (toy_hash sample_payment_tx) p' = true ∧
      PaymentIdIndex_find (replicate 32 7) (pool_paymentIdIndex p') = (false, [])
  | _ => False
  end.
Proof.
  destruct (add_tx (H := toy_crypto) mainnet tt 100 sample_payment_tx (toy_hash sample_payment_tx) 200
    empty_tvc false 7 empty_Pool) as [[[[] tvc] p']| |] eqn:E; [|by vm_compute in E..].
  split; [by vm_compute in E; injection E as _ <-|].
  apply (added_payment_id_not_indexed (H := toy_crypto) _ _ _ _ _ _ _ _ _ _ _ (replicate 32 7)) in E;
    [exact E|by vm_compute in E; injection E as <- _|by vm_compute].
Defined.

(** a transaction that spends a key image twice is refused with an error, yet it
    stays in the pool, its key image stays marked, and the pool reports it as
    present. *)
Theorem failed_add_stays_in_pool `{CryptoOps} {V} `{!ITransactionValidator V} c (v : V) now tx id blobSize
    kept height p tvc p' :
  pool_ok p →
  add_tx c v now tx id blobSize empty_tvc kept height p = Ret (false, tvc, p') → m_added_to_pool tvc = true →
  m_verification_failed tvc = true ∧ have_tx id p' = true ∧ have_tx id p = false.
Proof.
  intros Hok Ha Hadded. destruct (add_tx_added _ _ _ _ _ _ _ _ _ _ _ _ Ha Hadded) as (Hf & txd & ttl & l &
    images & spent & <- & _ & _ & _ & _ & _ & Hnew & Hins & _ & ->).
  pose proof (insert_by_priority_perm _ _ _ Hins) as Hp. split; [done|]. unfold have_tx. cbn [m_transactions].
  split; [|rewrite Hnew; apply bool_decide_eq_false_2; by intros [? ?]].
  apply bool_decide_eq_true_2. exists txd. apply find_id_Some; [|split; [rewrite Hp; by left|done]].
  rewrite Hp, fmap_cons. apply list.NoDup_cons. split; [by apply find_id_None|apply (ok_ids p Hok)].
Qed.

Definition sample_double_image : Transaction := {|
  tx_prefix := {| version := 1; unlockTime := 0;
    inputs := [InKey {| ki_amount := 1000; ki_outputIndexes := [0]; ki_keyImage := toy 3 |};
               InKey {| ki_amount := 1000; ki_outputIndexes := [1]; ki_keyImage := toy 3 |}];
    outputs := [ {| out_amount := 900; out_target := OutKey {| ko_key := toy 11 |} |} ];
    extra := [] |};
  signatures := [[replicate 64 1]; [replicate 64 1]] |}.

Lemma failed_add_stays_in_pool_witness :
  match add_tx (H := toy_crypto) mainnet tt 100 sample_double_image (toy 77) 200 empty_tvc false 7 empty_Pool with
  | Ret (false, tvc, p') => m_verification_failed tvc = true ∧ have_tx (toy 77) p' = true ∧
      have_tx (toy 77) empty_Pool = false
  | _ => False
  end.
Proof.
  destruct (add_tx (H := toy_crypto) mainnet tt 100 sample_double_image (toy 77) 200 empty_tvc false 7 empty_Pool)
    as [[[[] tvc] p']| |] eqn:E; [by vm_compute in E| |by vm_compute in E..].
  apply (failed_add_stays_in_pool (H := toy_crypto) mainnet tt 100 sample_double_image (toy 77) 200 false 7
    empty_Pool tvc p' empty_pool_ok E). by vm_compute in E; injection E as <- _.
Defined.
