(* ===== verification/BlockRules.v ===== *)
(** * The rules for blocks

    [src/src/CryptoNoteCore/Blockchain.cpp]: the state of the block chain and what
    it requires of the next block: its version, its time, its difficulty, its size
    and the transaction that pays the miner ([getDifficultyForNextBlock],
    [check_block_timestamp_main], [checkBlockVersion], [checkCumulativeBlockSize],
    [prevalidate_miner_transaction], [validate_miner_transaction]). These functions
    read the state and do not change it. The chain is the validator of the memory
    pool ([chain_validator]); the clock is the parameter [now]. *)

From S2P Require Import Prelude Streams CryptoNoteTypes Serialization CryptoNoteSerialization Crypto Config Currency.
From S2P Require Import Amounts Difficulty TransactionExtra FormatUtils DepositIndex BlockIndex Checkpoints UpgradeDetector.
From S2P Require Import BlockchainIndices ChainState InputCheck TransactionPool.

Local Open Scope Z_scope.

(** ** State *)

(** [Blockchain]; of each upgrade detector the height it keeps. *)
Record Blockchain := {
  m_blocks : list BlockEntry;
  m_blockIndex : BlockIndex;
  m_tables : ChainState;
  m_depositIndex : DepositIndex;
  m_upgradeDetectorV2 : Z;
  m_upgradeDetectorV3 : Z;
  m_timestampIndex : list (Z * Hash);
  m_generatedTransactionsIndex : GeneratedTransactionsIndex;
  m_orthanBlocksIndex : list (Z * Hash);
  m_alternative_chains : gmap Hash BlockEntry;
  m_checkpoints : Checkpoints;
  m_current_block_cumul_sz_limit : Z;
  m_tx_pool : Pool
}.

Definition new_Blockchain (pool : Pool) : Blockchain := {|
  m_blocks := []; m_blockIndex := []; m_tables := empty_ChainState; m_depositIndex := new_DepositIndex;
  m_upgradeDetectorV2 := UNDEF_HEIGHT; m_upgradeDetectorV3 := UNDEF_HEIGHT;
  m_timestampIndex := []; m_generatedTransactionsIndex := new_GeneratedTransactionsIndex;
  m_orthanBlocksIndex := []; m_alternative_chains := ∅; m_checkpoints := [];
  m_current_block_cumul_sz_limit := 0; m_tx_pool := pool
|}.

(** [m_blocks.size()]. *)
Definition blocks_size (bc : Blockchain) : Z := Z.of_nat (length (m_blocks bc)).

(** The versions of the blocks, which the upgrade detectors read. *)
Definition block_versions (bc : Blockchain) : list (Z * Z) :=
  (λ b, (majorVersion (be_bl b), minorVersion (be_bl b))) <$> m_blocks bc.

(** [Common::medianValue]. *)
Definition medianValue (v : list Z) : Z :=
  match v with
  | [] => 0
  | [x] => x
  | _ =>
      let n := (length v / 2)%nat in
      let v := sort_Z v in
      if Nat.odd (length v) then nth n v 0 else u64 (nth (n - 1) v 0 + nth n v 0) / 2
  end.

Section Rules.
Context `{CryptoOps}.
Variable uninit : list Z.
Variable c : Currency.
Variable now : Z.

(** ** Versions *)

Definition v2_upgradeHeight (bc : Blockchain) : Z :=
  detector_upgradeHeight c BLOCK_MAJOR_VERSION_2 (m_upgradeDetectorV2 bc).
Definition v3_upgradeHeight (bc : Blockchain) : Z :=
  detector_upgradeHeight c BLOCK_MAJOR_VERSION_3 (m_upgradeDetectorV3 bc).

Definition get_block_major_version_for_height (height : Z) (bc : Blockchain) : Z :=
  if v3_upgradeHeight bc <? height then BLOCK_MAJOR_VERSION_3
  else if v2_upgradeHeight bc <? height then BLOCK_MAJOR_VERSION_2
  else BLOCK_MAJOR_VERSION_1.

(** The overload for a 32-bit height has the same body. *)
Definition getBlockMajorVersionForHeight (height : Z) (bc : Blockchain) : Z :=
  if v3_upgradeHeight bc <? height then BLOCK_MAJOR_VERSION_3
  else if v2_upgradeHeight bc <? height then BLOCK_MAJOR_VERSION_2
  else BLOCK_MAJOR_VERSION_1.

Definition checkBlockVersion (b : Block) (bc : Blockchain) : bool :=
  majorVersion b =? get_block_major_version_for_height (get_block_height b) bc.

(** ** Difficulty *)

(** The choice of the algorithm: by the version of the block after the next one. *)
Definition next_difficulty (timestamps commulative_difficulties : list Z) (bc : Blockchain) : outcome Z :=
  let block_index := u32 (blocks_size bc) in
  if 3 <=? get_block_major_version_for_height (u32 (block_index + 1)) bc
  then nextDifficultyLWMA3 timestamps commulative_difficulties
  else nextDifficulty c timestamps commulative_difficulties.

Definition getDifficultyForNextBlock (bc : Blockchain) : outcome Z :=
  let BlockMajorVersion := getBlockMajorVersionForHeight (u32 (blocks_size bc)) bc in
  let offset := blocks_size bc - Z.min (blocks_size bc) (difficultyBlocksCountByBlockVersion c BlockMajorVersion) in
  let offset := if offset =? 0 then 1 else offset in
  let window := drop (Z.to_nat offset) (m_blocks bc) in
  next_difficulty ((λ b, timestamp (be_bl b)) <$> window) (cumulative_difficulty <$> window) bc.

(** ** Times *)

(** [timestamps] by value; the result of [check_block_timestamp]. *)
Definition check_block_timestamp (timestamps : list Z) (b : Block) : bool :=
  if Z.of_nat (length timestamps) <? m_timestampCheckWindow c then true
  else negb (timestamp b <? medianValue timestamps).

Definition check_block_timestamp_main (b : Block) (bc : Blockchain) : bool :=
  if u64 (now + m_blockFutureTimeLimit c) <? timestamp b then false
  else
    let offset := if blocks_size bc <=? m_timestampCheckWindow c then 0
                  else blocks_size bc - m_timestampCheckWindow c in
    check_block_timestamp ((λ b, timestamp (be_bl b)) <$> drop (Z.to_nat offset) (m_blocks bc)) b.

(** ** Sizes *)

(** [getBackwardBlocksSize]: [None] where it returns false. *)
Definition getBackwardBlocksSize (from_height count : Z) (bc : Blockchain) : option (list Z) :=
  if negb (from_height <? blocks_size bc) then None
  else
    let start_offset := (from_height + 1) - Z.min (from_height + 1) count in
    Some (block_cumulative_size <$>
            take (Z.to_nat (from_height + 1 - start_offset)) (drop (Z.to_nat start_offset) (m_blocks bc))).

(** The sizes it appends to the empty vector of its callers. *)
Definition get_last_n_blocks_sizes (count : Z) (bc : Blockchain) : list Z :=
  if blocks_size bc =? 0 then []
  else default [] (getBackwardBlocksSize (blocks_size bc - 1) count bc).

Definition checkCumulativeBlockSize (cumulativeBlockSize height : Z) : outcome bool :=
  maxSize ← maxBlockCumulativeSize c height;
  mret (negb (maxSize <? cumulativeBlockSize)).

(** The limit that [update_next_comulative_size_limit] stores. *)
Definition next_comulative_size_limit (bc : Blockchain) : Z :=
  let median := medianValue (get_last_n_blocks_sizes (m_rewardBlocksWindow c) bc) in
  let median := if median <=? m_blockGrantedFullRewardZone c then m_blockGrantedFullRewardZone c else median in
  u64 (median * 2).

(** ** The miner's transaction *)

Definition prevalidate_miner_transaction (b : Block) (height : Z) : outcome bool :=
  let tx := baseTransaction b in
  if negb (length (inputs tx) =? 1)%nat then mret false
  else if (1 <? length (signatures tx))%nat then mret false
  else
    match inputs tx with
    | InBase i :: _ =>
        if negb (bi_blockIndex i =? height) then mret false
        else if negb (unlockTime tx =? u64 (height + m_minedMoneyUnlockWindow c)) then mret false
        else
          (* called without the optional pointer to an error *)
          r ← check_outs_valid (tx_prefix tx) false;
          mret (match r with Some _ => false | None => check_outs_overflow (tx_prefix tx) end)
    | _ => mret false
    end.

(** [validate_miner_transaction]: the reward and the emission, or [None] where it
    returns false. *)
Definition validate_miner_transaction (b : Block) (height cumulativeBlockSize alreadyGeneratedCoins fee : Z)
    (bc : Blockchain) : outcome (option (Z * Z)) :=
  let minerReward := sum64 (out_amount <$> outputs (baseTransaction b)) in
  let blocksSizeMedian := medianValue (get_last_n_blocks_sizes (m_rewardBlocksWindow c) bc) in
  r ← getBlockReward c blocksSizeMedian cumulativeBlockSize alreadyGeneratedCoins fee height;
  mret (match r with
        | None => None
        | Some (reward, emissionChange) =>
            if reward <? minerReward then
              if height <? 290700 then Some (reward, emissionChange) else None
            else if minerReward <? reward then
              if height <? 290700 then Some (reward, emissionChange) else None
            else Some (reward, emissionChange)
        end).

(** ** The chain as the validator of the pool *)

Definition checkTransactionSize (blobSize : Z) (bc : Blockchain) : bool :=
  negb (u64 (m_current_block_cumul_sz_limit bc - m_minerTxBlobReservedSize c) <=? blobSize).

Definition chain_validator : ITransactionValidator Blockchain := {|
  val_checkTransactionInputs bc tx used :=
    validator_checkTransactionInputs uninit c now (m_blocks bc) (m_checkpoints bc) (m_tables bc) tx used;
  val_recheckTransactionInputs bc tx used failed :=
    validator_recheckTransactionInputs uninit c now (m_blocks bc) (m_blockIndex bc) (m_checkpoints bc)
      (m_tables bc) tx used failed;
  val_haveSpentKeyImages bc tx := haveTransactionKeyImagesAsSpent (m_tables bc) tx;
  val_checkTransactionSize bc blobSize := checkTransactionSize blobSize bc
|}.
End Rules.

(** ** Difficulty: proofs *)

Lemma mainnet_versions height bc :
  getBlockMajorVersionForHeight mainnet height bc = (if 2 <? height then 3 else if 1 <? height then 2 else 1) ∧
  get_block_major_version_for_height mainnet height bc = (if 2 <? height then 3 else if 1 <? height then 2 else 1).
Proof. split; reflexivity. Qed.

(** The window of the LWMA-3 algorithm: at most 61 blocks, without the genesis
    block. *)
Definition lwma_window (bc : Blockchain) : list BlockEntry :=
  drop (Z.to_nat (Z.max 1 (blocks_size bc - 61))) (m_blocks bc).

Lemma difficulty_for_next_block_lwma bc :
  2 <= blocks_size bc < 2 ^ 32 - 1 →
  getDifficultyForNextBlock mainnet bc =
    nextDifficultyLWMA3 ((λ b, timestamp (be_bl b)) <$> lwma_window bc) (cumulative_difficulty <$> lwma_window bc).
Proof.
  intros Hs. unfold getDifficultyForNextBlock, next_difficulty.
  rewrite (u32_small (blocks_size bc)) by (unfold in_range; lia).
  rewrite (u32_small (blocks_size bc + 1)) by (unfold in_range; lia).
  rewrite (proj1 (mainnet_versions _ _)), (proj2 (mainnet_versions _ _)).
  rewrite (proj2 (Z.ltb_lt 2 (blocks_size bc + 1))) by lia. cbn [Z.leb Z.compare].
  match goal with |- context [drop (Z.to_nat ?o) _] => assert (o = Z.max 1 (blocks_size bc - 61)) as -> end;
    [|done].
  destruct (Z.ltb_spec 2 (blocks_size bc)).
  - change (difficultyBlocksCountByBlockVersion mainnet 3) with 61. case_bool; lia.
  - rewrite (proj2 (Z.ltb_lt 1 (blocks_size bc))) by lia.
    change (difficultyBlocksCountByBlockVersion mainnet 2) with 735. case_bool; lia.
Qed.

Lemma difficulty_for_first_blocks bc :
  blocks_size bc < 2 → getDifficultyForNextBlock mainnet bc = Ret 1.
Proof.
  intros Hs. assert (0 <= blocks_size bc) by (unfold blocks_size; lia).
  unfold getDifficultyForNextBlock, next_difficulty.
  rewrite (u32_small (blocks_size bc)) by (unfold in_range; lia).
  rewrite (u32_small (blocks_size bc + 1)) by (unfold in_range; lia).
  rewrite (proj1 (mainnet_versions _ _)), (proj2 (mainnet_versions _ _)).
  rewrite (proj2 (Z.ltb_ge 2 (blocks_size bc + 1))) by lia.
  rewrite (proj2 (Z.leb_gt 3 _)) by (case_bool; lia).
  rewrite drop_ge; [done|]. unfold blocks_size in *. case_bool; lia.
Qed.

(** ** The miner's transaction: proofs *)

Section MinerRules.
Context `{CryptoOps}.

Lemma miner_outputs_some addr txkey amounts : ∀ no outs,
  miner_outputs addr txkey amounts no = Some outs →
  out_amount <$> outs = amounts ∧
  Forall (λ o, ∃ i k, out_key addr txkey i = Some k ∧ out_target o = OutKey {| ko_key := k |}) outs.
Proof.
  induction amounts as [|a amounts IH]; intros no outs E; cbn [miner_outputs] in E.
  { injection E as <-. by split. }
  destruct (out_key addr txkey no) as [k|] eqn:Ek; [|done].
  destruct (miner_outputs addr txkey amounts (u64 (no + 1))) as [outs'|] eqn:Eo; [|done].
  injection E as <-. destruct (IH _ _ Eo) as [Ha Hf]. split; [cbn; by rewrite Ha|].
  constructor; [by exists no, k|done].
Qed.

(** The reward of [getBlockReward] is a 64-bit integer. *)
Lemma getBlockReward_u64 c median size coins fee h reward emission :
  getBlockReward c median size coins fee h = Ret (Some (reward, emission)) → is_u64 reward.
Proof.
  unfold getBlockReward. intros E. repeat (apply outcome_bind_ret in E as (? & _ & E)).
  case_bool_in E; [done|]. repeat (apply outcome_bind_ret in E as (? & _ & E)).
  cbv zeta in E. injection E as <- _. apply u64_range.
Qed.

(** What a constructed miner transaction is. *)
Lemma constructMinerTx_some c height median coins size fee addr tx nonce maxOuts txkey tx' :
  0 <= m_defaultDustThreshold c →
  constructMinerTx c height median coins size fee addr tx nonce maxOuts txkey = Ret (Some tx') →
  ∃ reward emission,
    getBlockReward c median size coins fee height = Ret (Some (reward, emission)) ∧
    sumZ (out_amount <$> outputs tx') = reward ∧ Forall (λ o, 0 < out_amount o) (outputs tx') ∧
    Forall (λ o, ∃ i k, out_key addr txkey i = Some k ∧ out_target o = OutKey {| ko_key := k |}) (outputs tx') ∧
    inputs tx' = [InBase {| bi_blockIndex := height |}] ∧
    unlockTime tx' = u64 (height + m_minedMoneyUnlockWindow c) ∧ signatures tx' = signatures tx ∧
    is_u64 reward.
Proof.
  intros Hd E. unfold constructMinerTx in E. cbv zeta in E.
  destruct (if bool_decide (nonce = []) then _ else _) as [ex|]; [|done].
  apply outcome_bind_ret in E as (r & Er & E). destruct r as [[reward emission]|]; [|done].
  destruct (1 <=? maxOuts) eqn:Em; [|done]. cbn [negb] in E. apply outcome_bind_ret in E as (l & El & E).
  destruct (miner_outputs addr txkey l 0) as [outs|] eqn:Eo; [|done].
  case_bool_in E; [done|]. injection E as <-. exists reward, emission.
  pose proof (getBlockReward_u64 _ _ _ _ _ _ _ _ Er) as Hr.
  destruct (miner_outputs_some _ _ _ _ _ Eo) as [Ha Hf].
  pose proof (decompose_ok reward (m_defaultDustThreshold c) Hr Hd) as [Hsum Hok].
  destruct (merge_outs_ret (S (length (piece_amount <$> decompose_amount_into_digits reward (m_defaultDustThreshold c))))
    maxOuts (piece_amount <$> decompose_amount_into_digits reward (m_defaultDustThreshold c)))
    as (l' & El' & Hl' & _ & Hpos); [exact Em| |rewrite Hsum; apply Hr|lia|].
  { apply Forall_fmap. eapply Forall_impl; [|exact Hok]. intros p Hp. by eapply piece_pos. }
  rewrite El in El'. injection El' as <-. cbn [tx_prefix outputs inputs unlockTime signatures].
  rewrite Ha, Hl', Hsum. split_and!; [done|done| |done..].
  rewrite <- Ha in Hpos. exact (proj1 (Forall_fmap _ _ _) Hpos).
Qed.

Lemma check_outs_loop_keys version outs :
  Forall (λ o, 0 < out_amount o ∧ ∃ k, out_target o = OutKey {| ko_key := k |} ∧ check_key k = true) outs →
  check_outs_loop version false outs = Ret None.
Proof.
  induction 1 as [|o outs (Ha & k & Ek & Hk) _ IH]; [done|]. cbn [check_outs_loop].
  unfold check_out_valid. rewrite Ek. cbn [ko_key]. rewrite (proj2 (Z.eqb_neq _ _)) by lia.
  rewrite Hk. cbn. exact IH.
Qed.

(** The rule of [validate_miner_transaction] for the amount that is paid. *)
Lemma validate_miner_transaction_iff c b height size coins fee bc reward emission :
  validate_miner_transaction c b height size coins fee bc = Ret (Some (reward, emission)) ↔
  getBlockReward c (medianValue (get_last_n_blocks_sizes (m_rewardBlocksWindow c) bc)) size coins fee height =
    Ret (Some (reward, emission)) ∧
  (height < 290700 ∨ sum64 (out_amount <$> outputs (baseTransaction b)) = reward).
Proof.
  unfold validate_miner_transaction. cbv zeta.
  destruct (getBlockReward _ _ _ _ _ _) as [[[r e]|]| |]; cbn [mbind outcome_bind]; [|naive_solver..].
  set (paid := sum64 _).
  destruct (Z.ltb_spec r paid); [|destruct (Z.ltb_spec paid r)]; try (destruct (Z.ltb_spec height 290700)).
  all: split; [intros [=]; subst; (split; [done|lia])|].
  all: intros ([= <- <-] & HH); first [done|exfalso; lia].
Qed.
End MinerRules.

(** ** Theorems *)

(** C29: on the main network the difficulty of the next block is always defined: from
    the third block on it is the LWMA-3 of the blocks after the genesis block, of at
    most 61, so that the assertion on the sizes holds and nothing is divided by zero;
    before, it is 1. *)
Theorem next_difficulty_total bc :
  blocks_size bc < 2 ^ 32 - 1 → Forall (λ b, is_u64 (timestamp (be_bl b))) (m_blocks bc) →
  (∃ d, getDifficultyForNextBlock mainnet bc = Ret d) ∧
  (blocks_size bc < 2 → getDifficultyForNextBlock mainnet bc = Ret 1) ∧
  (2 <= blocks_size bc → getDifficultyForNextBlock mainnet bc =
     nextDifficultyLWMA3 ((λ b, timestamp (be_bl b)) <$> lwma_window bc) (cumulative_difficulty <$> lwma_window bc)).
Proof.
  intros Hs Ht. split_and!; [|apply difficulty_for_first_blocks|intros; by apply difficulty_for_next_block_lwma].
  destruct (Z_lt_le_dec (blocks_size bc) 2); [eexists; by apply difficulty_for_first_blocks|].
  rewrite difficulty_for_next_block_lwma by done. apply lwma3_total.
  - by rewrite !length_fmap.
  - rewrite length_fmap. unfold lwma_window. rewrite length_drop. unfold blocks_size in *. lia.
  - apply Forall_fmap. eapply Forall_drop, Ht.
Qed.

Definition sample_chain : Blockchain :=
  {| m_blocks := sample_blocks; m_blockIndex := []; m_tables := sample_state; m_depositIndex := new_DepositIndex;
     m_upgradeDetectorV2 := UNDEF_HEIGHT; m_upgradeDetectorV3 := UNDEF_HEIGHT; m_timestampIndex := [];
     m_generatedTransactionsIndex := new_GeneratedTransactionsIndex; m_orthanBlocksIndex := [];
     m_alternative_chains := ∅; m_checkpoints := []; m_current_block_cumul_sz_limit := 0;
     m_tx_pool := empty_Pool |}.

Lemma next_difficulty_total_witness : ∃ d, getDifficultyForNextBlock mainnet sample_chain = Ret d.
Proof.
  apply (next_difficulty_total sample_chain); [reflexivity|]. repeat constructor; unfold in_range; cbn; lia.
Defined.

(** C28: the transaction that [constructMinerTx] builds for the next block passes both
    checks of the miner's transaction. From height 290,700 on these accept only a
    transaction that pays exactly the reward; below it they accept any amount. *)
Theorem miner_tx_accepted `{CryptoOps} (c : Currency) bc b height size coins fee addr tx nonce maxOuts txkey :
  0 <= m_defaultDustThreshold c → (length (signatures tx) <= 1)%nat →
  (∀ i k, out_key addr txkey i = Some k → check_key k = true) →
  let median := medianValue (get_last_n_blocks_sizes (m_rewardBlocksWindow c) bc) in
  (constructMinerTx c height median coins size fee addr tx nonce maxOuts txkey =
     Ret (Some (baseTransaction b)) →
   prevalidate_miner_transaction c b height = Ret true ∧
   ∃ reward emission,
     validate_miner_transaction c b height size coins fee bc = Ret (Some (reward, emission)) ∧
     sumZ (out_amount <$> outputs (baseTransaction b)) = reward) ∧
  (290700 <= height → ∀ reward emission,
     validate_miner_transaction c b height size coins fee bc = Ret (Some (reward, emission)) →
     sum64 (out_amount <$> outputs (baseTransaction b)) = reward) ∧
  (height < 290700 → ∀ reward emission,
     getBlockReward c median size coins fee height = Ret (Some (reward, emission)) →
     validate_miner_transaction c b height size coins fee bc = Ret (Some (reward, emission))).
Proof.
  intros Hd Hsig Hkeys median. split_and!.
  - intros E. destruct (constructMinerTx_some _ _ _ _ _ _ _ _ _ _ _ _ Hd E)
      as (reward & emission & Er & Hsum & Hpos & Hout & Hin & Hun & Hs & Hr).
    assert (Forall (λ o, is_u64 (out_amount o)) (outputs (baseTransaction b))) as H64.
    { rewrite <- Hsum in Hr. refine (proj1 (Forall_fmap _ _ _) (sumZ_u64 _ _ (proj2 Hr))). apply Forall_fmap.
      eapply Forall_impl; [|exact Hpos]. cbn. lia. }
    split.
    + unfold prevalidate_miner_transaction. cbv zeta. rewrite Hin, Hs. cbn [length Nat.eqb negb].
      rewrite (proj2 (Nat.ltb_ge _ _)) by lia. cbn [bi_blockIndex]. rewrite Z.eqb_refl, Hun, Z.eqb_refl.
      cbn [negb]. unfold check_outs_valid. rewrite check_outs_loop_keys.
      * cbn. f_equal. apply (outs_overflow_spec (outputs (baseTransaction b)) 0); [done|done|].
        rewrite Hsum. apply Hr.
      * rewrite Forall_forall in *. intros o Ho. split; [by apply Hpos|].
        destruct (Hout o Ho) as (i & k & Ek & Et). exists k. split; [done|]. by eapply Hkeys.
    + exists reward, emission. split; [|done]. apply validate_miner_transaction_iff. split; [done|].
      right. rewrite sum64_exact; [done|]. by rewrite Hsum.
  - intros Hh reward emission E. apply validate_miner_transaction_iff in E as [_ [?|?]]; [lia|done].
  - intros Hh reward emission E. apply validate_miner_transaction_iff. split; [done|by left].
Qed.

(** A block for height 0 of the chain of no blocks, mined for the account. *)
Definition sample_miner_tx : Transaction :=
  match constructMinerTx (H := toy_crypto) mainnet 0 0 0 100 0 (address (toy_account 5 7)) empty_transaction [] 1
          {| publicKey := toy 31; secretKey := toy 31 |} with
  | Ret (Some tx) => tx
  | _ => empty_transaction
  end.

Definition sample_mined_block : Block := {|
  block_header := {| majorVersion := 1; minorVersion := 0; nonce := 0; timestamp := 0; previousBlockHash := NULL_HASH |};
  baseTransaction := sample_miner_tx; transactionHashes := [] |}.

Lemma miner_tx_accepted_witness :
  prevalidate_miner_transaction (H := toy_crypto) mainnet sample_mined_block 0 = Ret true ∧
  ∃ reward emission,
    validate_miner_transaction mainnet sample_mined_block 0 100 0 0 (new_Blockchain empty_Pool) =
      Ret (Some (reward, emission)) ∧
    sumZ (out_amount <$> outputs (baseTransaction sample_mined_block)) = reward.
Proof.
  refine (proj1 (miner_tx_accepted (H := toy_crypto) mainnet (new_Blockchain empty_Pool) sample_mined_block 0 100 0 0
    (address (toy_account 5 7)) empty_transaction [] 1 {| publicKey := toy 31; secretKey := toy 31 |}
    _ _ _) _); [done|cbn; lia|done|].
  vm_compute. reflexivity.
Defined.

(** a miner's transaction of version 1 with a multisignature output behind valid
    ones is not refused: [check_outs_valid] writes its message through the pointer the
    caller did not pass, and the node stops. *)
Theorem multisignature_coinbase_aborts `{CryptoOps} (c : Currency) b height pre amount m rest :
  inputs (baseTransaction b) = [InBase {| bi_blockIndex := height |}] →
  (length (signatures (baseTransaction b)) <= 1)%nat →
  unlockTime (baseTransaction b) = u64 (height + m_minedMoneyUnlockWindow c) →
  version (baseTransaction b) = TRANSACTION_VERSION_1 →
  outputs (baseTransaction b) = pre ++ {| out_amount := amount; out_target := OutMultisignature m |} :: rest →
  Forall (λ o, 0 < out_amount o ∧ ∃ k, out_target o = OutKey {| ko_key := k |} ∧ check_key k = true) pre →
  prevalidate_miner_transaction c b height = Abort.
Proof.
  intros Hin Hs Hu Hv Ho Hpre. unfold prevalidate_miner_transaction. cbv zeta. rewrite Hin. cbn [length Nat.eqb negb].
  rewrite (proj2 (Nat.ltb_ge _ _)) by lia. cbn [bi_blockIndex]. rewrite Z.eqb_refl, Hu, Z.eqb_refl. cbn [negb].
  unfold check_outs_valid. rewrite Ho, Hv. clear Ho.
  assert (check_outs_loop TRANSACTION_VERSION_1 false
    (pre ++ {| out_amount := amount; out_target := OutMultisignature m |} :: rest) = Abort) as ->; [|done].
  induction Hpre as [|o pre (Ha & k & Ek & Hk) _ IH]; [done|]. cbn [app check_outs_loop].
  unfold check_out_valid at 1. rewrite Ek. cbn [ko_key]. rewrite (proj2 (Z.eqb_neq _ _)) by lia.
  rewrite Hk. cbn. exact IH.
Qed.

Lemma multisignature_coinbase_aborts_witness :
  prevalidate_miner_transaction (H := toy_crypto) mainnet
    {| block_header := block_header sample_mined_block;
       baseTransaction := {| tx_prefix := {| version := 1; unlockTime := 15;
         inputs := [InBase {| bi_blockIndex := 0 |}];
         outputs := [{| out_amount := 5; out_target := OutMultisignature
                          {| mo_keys := []; mo_requiredSignatureCount := 0; mo_term := 0 |} |}]; extra := [] |};
         signatures := [] |};
       transactionHashes := [] |} 0 = Abort.
Proof.
  eapply (multisignature_coinbase_aborts (H := toy_crypto) mainnet _ 0 [] 5); try done; cbn; lia.
Defined.
