(* ===== verification/Blockchain.v ===== *)
(** * Adding and removing blocks

    [src/src/CryptoNoteCore/Blockchain.cpp]: the operations that change the main
    chain: [pushBlock] with its three overloads, [popBlock], the exchange of
    transactions with the memory pool ([loadTransactions], [saveTransactions]),
    [removeLastBlock], [rollbackBlockchainTo], and the construction of the tables
    from the stored blocks ([rebuildCache], [loadBlockchainIndices]). Logging, the
    observers and the files are not modelled. An exception or a failed assertion
    ends an operation without a resulting state. *)

From S2P Require Import Prelude Streams CryptoNoteTypes Serialization CryptoNoteSerialization Crypto Config Currency.
From S2P Require Import Amounts Difficulty TransactionExtra FormatUtils DepositIndex BlockIndex Checkpoints UpgradeDetector.
From S2P Require Import BlockchainIndices ChainState InputCheck TransactionPool BlockRules.

Local Open Scope Z_scope.

(** ** Parts of the state *)

Definition with_tables (t : ChainState) (bc : Blockchain) : Blockchain := {|
  m_blocks := m_blocks bc; m_blockIndex := m_blockIndex bc; m_tables := t; m_depositIndex := m_depositIndex bc;
  m_upgradeDetectorV2 := m_upgradeDetectorV2 bc; m_upgradeDetectorV3 := m_upgradeDetectorV3 bc;
  m_timestampIndex := m_timestampIndex bc; m_generatedTransactionsIndex := m_generatedTransactionsIndex bc;
  m_orthanBlocksIndex := m_orthanBlocksIndex bc; m_alternative_chains := m_alternative_chains bc;
  m_checkpoints := m_checkpoints bc; m_current_block_cumul_sz_limit := m_current_block_cumul_sz_limit bc;
  m_tx_pool := m_tx_pool bc |}.

Definition with_pool (p : Pool) (bc : Blockchain) : Blockchain := {|
  m_blocks := m_blocks bc; m_blockIndex := m_blockIndex bc; m_tables := m_tables bc;
  m_depositIndex := m_depositIndex bc;
  m_upgradeDetectorV2 := m_upgradeDetectorV2 bc; m_upgradeDetectorV3 := m_upgradeDetectorV3 bc;
  m_timestampIndex := m_timestampIndex bc; m_generatedTransactionsIndex := m_generatedTransactionsIndex bc;
  m_orthanBlocksIndex := m_orthanBlocksIndex bc; m_alternative_chains := m_alternative_chains bc;
  m_checkpoints := m_checkpoints bc; m_current_block_cumul_sz_limit := m_current_block_cumul_sz_limit bc;
  m_tx_pool := p |}.

(** [block_verification_context]. *)
Record block_verification_context := {
  bvc_added_to_main_chain : bool;
  bvc_verification_failed : bool;
  bvc_marked_as_orphaned : bool;
  bvc_already_exists : bool;
  bvc_switched_to_alt_chain : bool
}.

(** [boost::value_initialized]. *)
Definition empty_bvc : block_verification_context := {|
  bvc_added_to_main_chain := false; bvc_verification_failed := false; bvc_marked_as_orphaned := false;
  bvc_already_exists := false; bvc_switched_to_alt_chain := false |}.

Definition set_failed (bvc : block_verification_context) : block_verification_context := {|
  bvc_added_to_main_chain := bvc_added_to_main_chain bvc; bvc_verification_failed := true;
  bvc_marked_as_orphaned := bvc_marked_as_orphaned bvc; bvc_already_exists := bvc_already_exists bvc;
  bvc_switched_to_alt_chain := bvc_switched_to_alt_chain bvc |}.

Definition set_added (bvc : block_verification_context) : block_verification_context := {|
  bvc_added_to_main_chain := true; bvc_verification_failed := bvc_verification_failed bvc;
  bvc_marked_as_orphaned := bvc_marked_as_orphaned bvc; bvc_already_exists := bvc_already_exists bvc;
  bvc_switched_to_alt_chain := bvc_switched_to_alt_chain bvc |}.

(** ** Deposits of a block *)

(** The change of the deposits in the order of the loops, in signed 64 bits. *)
Fixpoint withdrawn (ins : list TransactionInput) (deposit : Z) : Z :=
  match ins with
  | [] => deposit
  | InMultisignature m :: ins' =>
      withdrawn ins' (if 0 <? mi_term m then i64 (u64 (deposit - mi_amount m)) else deposit)
  | _ :: ins' => withdrawn ins' deposit
  end.

Fixpoint deposited (outs : list TransactionOutput) (deposit : Z) : Z :=
  match outs with
  | [] => deposit
  | o :: outs' =>
      deposited outs' (match out_target o with
        | OutMultisignature m => if 0 <? mo_term m then i64 (u64 (deposit + out_amount o)) else deposit
        | OutKey _ => deposit
        end)
  end.

Definition deposit_change (txs : list TransactionEntry) : Z :=
  fold_left (λ deposit e, deposited (outputs (te_tx e)) (withdrawn (inputs (te_tx e)) deposit)) txs 0.

Definition pushToDepositIndex (block : BlockEntry) (interest : Z) (bc : Blockchain) : outcome Blockchain :=
  d ← DepositIndex.pushBlock (deposit_change (be_transactions block)) interest (m_depositIndex bc);
  mret {|
    m_blocks := m_blocks bc; m_blockIndex := m_blockIndex bc; m_tables := m_tables bc; m_depositIndex := d;
    m_upgradeDetectorV2 := m_upgradeDetectorV2 bc; m_upgradeDetectorV3 := m_upgradeDetectorV3 bc;
    m_timestampIndex := m_timestampIndex bc; m_generatedTransactionsIndex := m_generatedTransactionsIndex bc;
    m_orthanBlocksIndex := m_orthanBlocksIndex bc; m_alternative_chains := m_alternative_chains bc;
    m_checkpoints := m_checkpoints bc; m_current_block_cumul_sz_limit := m_current_block_cumul_sz_limit bc;
    m_tx_pool := m_tx_pool bc |}.

Section Blockchain.
Context `{CryptoOps}.
Variable uninit : list Z.
Variable c : Currency.
Variable now : Z.
#[local] Instance validator : ITransactionValidator Blockchain := chain_validator uninit c now.

(** ** Transactions from and to the pool *)

(** The loops that hand transactions back to the pool, in the order of the list. *)
Fixpoint readd (what : string) (transactions : list Transaction) (height : Z) (bc : Blockchain) (p : Pool)
    : outcome Pool :=
  match transactions with
  | [] => mret p
  | tx :: transactions' =>
      '(ok, _, p') ← add_tx_hashed c bc now tx empty_tvc true height p;
      if ok : bool then readd what transactions' height bc p' else Throw what
  end.

(** The loop of [loadTransactions]; [taken] are the transactions taken so far, the
    last one first. *)
Fixpoint load_loop (hashes : list Hash) (taken : list Transaction) (height : Z) (bc : Blockchain) (p : Pool)
    : outcome (option (list Transaction) * Pool) :=
  match hashes with
  | [] => mret (Some (reverse taken), p)
  | h :: hashes' =>
      '(r, p') ← take_tx h p;
      match r with
      | None =>
          p'' ← readd "Blockchain::loadTransactions, failed to add transaction to pool" taken height bc p';
          mret (None, p'')
      | Some (tx, _, _) => load_loop hashes' (tx :: taken) height bc p'
      end
  end.

Definition loadTransactions (block : Block) (height : Z) (bc : Blockchain)
    : outcome (option (list Transaction) * Pool) :=
  load_loop (transactionHashes block) [] height bc (m_tx_pool bc).

Definition saveTransactions (transactions : list Transaction) (height : Z) (bc : Blockchain)
    : outcome Blockchain :=
  p ← readd "Blockchain::saveTransactions, failed to add transaction to pool" (reverse transactions) height bc
        (m_tx_pool bc);
  mret (with_pool p bc).

(** ** Checks before anything is changed *)

(** [inr] is the difficulty; [inl] a rejection, [true] when it is reported in
    [bvc.m_verification_failed]. *)
Definition check_block_to_push (blockData : Block) (blockHash : Hash) (bc : Blockchain) : outcome (bool + Z) :=
  if bi_hasBlock blockHash (m_blockIndex bc) then mret (inl true)
  else if negb (checkBlockVersion c blockData bc) then mret (inl true)
  else
    merged ← match bi_getBlockHeight blockHash (m_blockIndex bc) with
             | Some height =>
                 tag ← getMergeMiningTagFromExtra (extra (baseTransaction blockData));
                 mret (bool_decide (is_Some tag) && (UPGRADE_HEIGHT_V3 <=? height))
             | None => mret false
             end;
    if merged : bool then mret (inl false)
    else
      tail ← getTailId (m_blocks bc) (m_blockIndex bc);
      if negb (bool_decide (previousBlockHash blockData = tail)) then mret (inl true)
      else if negb (check_block_timestamp_main c now blockData bc) then mret (inl true)
      else
        currentDifficulty ← getDifficultyForNextBlock c bc;
        if currentDifficulty =? 0 then mret (inl false)
        else
          let height := getCurrentBlockchainHeight (m_blocks bc) in
          proven ← (if is_in_checkpoint_zone height (m_checkpoints bc)
                    then mret (fst (check_block height blockHash (m_checkpoints bc)))
                    else '(_, ok) ← checkProofOfWork uninit blockData currentDifficulty; mret ok);
          if negb proven then mret (inl true)
          else
            valid ← prevalidate_miner_transaction c blockData (u32 (blocks_size bc));
            mret (if valid : bool then inr currentDifficulty else inl true).

(** ** The transactions of a block *)

(** [pushTransaction] of a transaction that is appended to the block; the result is
    not looked at. *)
Definition push_entry (tx : Transaction) (hash : Hash) (ti : TransactionIndex) (t : ChainState)
    : outcome (TransactionEntry * ChainState) :=
  '(_, indexes, t') ← pushTransaction tx hash ti t;
  mret ({| te_tx := tx; m_global_output_indexes := indexes |}, t').

(** [toBinaryArray(tx).size()]; a transaction whose serialization fails is outside
    the model. *)
Definition blob_size (tx : Transaction) : outcome Z :=
  r ← toBinaryArray serialize_Transaction tx [];
  match r with Some ba => mret (u64 (Z.of_nat (length ba))) | None => Abort end.

(** What the loop of [pushBlock] accumulates. *)
Record PushState := {
  ps_transactions : list TransactionEntry;
  ps_tables : ChainState;
  ps_size : Z;
  ps_fee : Z;
  ps_interest : Z
}.

(** The three conditions on a transaction; all are evaluated. *)
Definition transaction_valid (blockData : Block) (tx : Transaction) (bc : Blockchain) (t : ChainState)
    : outcome bool :=
  '(inputsOk, _) ← checkTransactionInputs c now (m_blocks bc) (m_checkpoints bc) t tx;
  mret (negb ((majorVersion blockData =? BLOCK_MAJOR_VERSION_1) && (TRANSACTION_VERSION_1 <? version tx)) &&
        inputsOk && check_tx_outputs c tx).

(** The loop over the transactions, from the index [i] in the block on: whether all
    are valid, and the state at the end. *)
Fixpoint push_listed (blockData : Block) (height : Z) (bc : Blockchain) (transactions : list Transaction)
    (hashes : list Hash) (i : Z) (ps : PushState) : outcome (bool * PushState) :=
  match transactions, hashes with
  | [], _ => mret (true, ps)
  | _ :: _, [] => Abort
  | tx :: transactions', tx_id :: hashes' =>
      size ← blob_size tx;
      in_amount ← getTransactionAllInputsAmount c tx height;
      let out_amount := getOutputAmount tx in
      let fee := if in_amount <? out_amount then MINIMUM_FEE else u64 (in_amount - out_amount) in
      valid ← transaction_valid blockData tx bc (ps_tables ps);
      if negb valid then mret (false, ps)
      else
        let i := u16 (i + 1) in
        '(e, t) ← push_entry tx tx_id {| ti_block := height; ti_transaction := i |} (ps_tables ps);
        interest ← calculateTotalTransactionInterest c tx height;
        push_listed blockData height bc transactions' hashes' i
          {| ps_transactions := ps_transactions ps ++ [e]; ps_tables := t;
             ps_size := u64 (ps_size ps + size); ps_fee := u64 (ps_fee ps + fee);
             ps_interest := u64 (ps_interest ps + interest) |}
  end.

(** ** Storing a block *)

(** [pushBlock(BlockEntry&)]. *)
Definition pushBlock_entry (block : BlockEntry) (bc : Blockchain) : outcome Blockchain :=
  blockHash ← get_block_hash uninit (be_bl block);
  let blocks := m_blocks bc ++ [block] in
  let '(_, index) := bi_push blockHash (m_blockIndex bc) in
  let '(_, times) := TimestampBlocksIndex_add (timestamp (be_bl block)) blockHash (m_timestampIndex bc) in
  '(_, generated) ← GeneratedTransactionsIndex_add (be_bl block) (m_generatedTransactionsIndex bc);
  _ ← assert_ (bi_size index =? Z.of_nat (length blocks));
  mret {|
    m_blocks := blocks; m_blockIndex := index; m_tables := m_tables bc; m_depositIndex := m_depositIndex bc;
    m_upgradeDetectorV2 := m_upgradeDetectorV2 bc; m_upgradeDetectorV3 := m_upgradeDetectorV3 bc;
    m_timestampIndex := times; m_generatedTransactionsIndex := generated;
    m_orthanBlocksIndex := m_orthanBlocksIndex bc; m_alternative_chains := m_alternative_chains bc;
    m_checkpoints := m_checkpoints bc; m_current_block_cumul_sz_limit := m_current_block_cumul_sz_limit bc;
    m_tx_pool := m_tx_pool bc |}.

(** The end of [pushBlock]: the upgrade detectors and the size limit. *)
Definition block_pushed (bc : Blockchain) : outcome Blockchain :=
  v2 ← blockPushed c BLOCK_MAJOR_VERSION_2 (m_upgradeDetectorV2 bc) (block_versions bc);
  v3 ← blockPushed c BLOCK_MAJOR_VERSION_3 (m_upgradeDetectorV3 bc) (block_versions bc);
  mret {|
    m_blocks := m_blocks bc; m_blockIndex := m_blockIndex bc; m_tables := m_tables bc;
    m_depositIndex := m_depositIndex bc; m_upgradeDetectorV2 := v2; m_upgradeDetectorV3 := v3;
    m_timestampIndex := m_timestampIndex bc; m_generatedTransactionsIndex := m_generatedTransactionsIndex bc;
    m_orthanBlocksIndex := m_orthanBlocksIndex bc; m_alternative_chains := m_alternative_chains bc;
    m_checkpoints := m_checkpoints bc; m_current_block_cumul_sz_limit := next_comulative_size_limit c bc;
    m_tx_pool := m_tx_pool bc |}.

Definition back_coins (bc : Blockchain) : Z :=
  match list.last (m_blocks bc) with None => 0 | Some b => already_generated_coins b end.
Definition back_difficulty (bc : Blockchain) : Z :=
  match list.last (m_blocks bc) with None => 0 | Some b => cumulative_difficulty b end.

(** The entry of a block in construction; the other fields are set later. *)
Definition partial_entry (blockData : Block) (height : Z) (txs : list TransactionEntry) : BlockEntry := {|
  be_bl := blockData; be_height := height; block_cumulative_size := 0; cumulative_difficulty := 0;
  already_generated_coins := 0; be_transactions := txs |}.

(** [pushBlock(blockData, transactions, id, bvc)]. *)
Definition pushBlock_checked (blockData : Block) (transactions : list Transaction) (id : Hash)
    (bvc : block_verification_context) (bc : Blockchain)
    : outcome (bool * block_verification_context * Blockchain) :=
  r ← check_block_to_push blockData id bc;
  match r with
  | inl reported => mret (false, if reported : bool then set_failed bvc else bvc, bc)
  | inr currentDifficulty =>
      minerTransactionHash ← getObjectHash cn_fast_hash serialize_Transaction (baseTransaction blockData);
      let height := u32 (blocks_size bc) in
      '(e, t) ← push_entry (baseTransaction blockData) minerTransactionHash
                  {| ti_block := height; ti_transaction := 0 |} (m_tables bc);
      coinbase_blob_size ← getObjectBinarySize serialize_Transaction (baseTransaction blockData);
      '(valid, ps) ← push_listed blockData height bc transactions (transactionHashes blockData) 0
                       {| ps_transactions := [e]; ps_tables := t; ps_size := coinbase_blob_size; ps_fee := 0;
                          ps_interest := 0 |};
      let pop := popTransactions (partial_entry blockData height (ps_transactions ps)) minerTransactionHash
                   (ps_tables ps) in
      if negb valid then t' ← pop; mret (false, set_failed bvc, with_tables t' bc)
      else
        fits ← checkCumulativeBlockSize c (ps_size ps) height;
        (* here the transactions are not taken back *)
        if negb fits then mret (false, set_failed bvc, with_tables (ps_tables ps) bc)
        else
          r ← validate_miner_transaction c blockData height (ps_size ps) (back_coins bc) (ps_fee ps) bc;
          match r with
          | None => t' ← pop; mret (false, set_failed bvc, with_tables t' bc)
          | Some (_, emissionChange) =>
              let block := {|
                be_bl := blockData; be_height := height; block_cumulative_size := ps_size ps;
                cumulative_difficulty := u64 (currentDifficulty + back_difficulty bc);
                already_generated_coins := u64 (back_coins bc + emissionChange + ps_interest ps);
                be_transactions := ps_transactions ps |} in
              bc ← pushBlock_entry block (with_tables (ps_tables ps) bc);
              bc ← pushToDepositIndex block (ps_interest ps) bc;
              bc ← block_pushed bc;
              mret (true, set_added bvc, bc)
          end
  end.

(** [pushBlock(blockData, id, bvc, height)]. *)
Definition pushBlock (blockData : Block) (id : Hash) (bvc : block_verification_context) (height : Z)
    (bc : Blockchain) : outcome (bool * block_verification_context * Blockchain) :=
  '(r, p) ← loadTransactions blockData height bc;
  let bc := with_pool p bc in
  match r with
  | None => mret (false, set_failed bvc, bc)
  | Some transactions =>
      '(ok, bvc, bc) ← pushBlock_checked blockData transactions id bvc bc;
      if ok : bool then mret (true, bvc, bc)
      else bc ← saveTransactions transactions height bc; mret (false, bvc, bc)
  end.

(** ** Removing a block *)

(** [popBlock]; a chain without blocks is reported and left. *)
Definition popBlock (blockHash : Hash) (bc : Blockchain) : outcome Blockchain :=
  match list.last (m_blocks bc) with
  | None => mret bc
  | Some back =>
      match be_transactions back with
      | [] => Throw "std::length_error"
      | _ :: entries =>
          bc ← saveTransactions (te_tx <$> entries) (u32 (blocks_size bc)) bc;
          minerHash ← getObjectHash cn_fast_hash serialize_Transaction (baseTransaction (be_bl back));
          t ← popTransactions back minerHash (m_tables bc);
          let '(_, times) := TimestampBlocksIndex_remove (timestamp (be_bl back)) blockHash (m_timestampIndex bc) in
          '(_, generated) ← GeneratedTransactionsIndex_remove (be_bl back) (m_generatedTransactionsIndex bc);
          d ← DepositIndex.popBlock (m_depositIndex bc);
          let blocks := take (length (m_blocks bc) - 1) (m_blocks bc) in
          let index := bi_pop (m_blockIndex bc) in
          _ ← assert_ (bi_size index =? Z.of_nat (length blocks));
          let versions := take (length (m_blocks bc) - 1) (block_versions bc) in
          v2 ← blockPopped c BLOCK_MAJOR_VERSION_2 (m_upgradeDetectorV2 bc) versions;
          v3 ← blockPopped c BLOCK_MAJOR_VERSION_3 (m_upgradeDetectorV3 bc) versions;
          mret {|
            m_blocks := blocks; m_blockIndex := index; m_tables := t; m_depositIndex := d;
            m_upgradeDetectorV2 := v2; m_upgradeDetectorV3 := v3;
            m_timestampIndex := times; m_generatedTransactionsIndex := generated;
            m_orthanBlocksIndex := m_orthanBlocksIndex bc; m_alternative_chains := m_alternative_chains bc;
            m_checkpoints := m_checkpoints bc; m_current_block_cumul_sz_limit := m_current_block_cumul_sz_limit bc;
            m_tx_pool := m_tx_pool bc |}
      end
  end.

(** [removeLastBlock]: like [popBlock], but the transactions do not go back to the
    pool and the deposits and the upgrade detectors are left. *)
Definition removeLastBlock (bc : Blockchain) : outcome (bool * Blockchain) :=
  match list.last (m_blocks bc) with
  | None => mret (false, bc)
  | Some back =>
      minerHash ← getObjectHash cn_fast_hash serialize_Transaction (baseTransaction (be_bl back));
      t ← popTransactions back minerHash (m_tables bc);
      blockHash ← getBlockIdByHeight (m_blockIndex bc) (be_height back);
      let '(_, times) := TimestampBlocksIndex_remove (timestamp (be_bl back)) blockHash (m_timestampIndex bc) in
      '(_, generated) ← GeneratedTransactionsIndex_remove (be_bl back) (m_generatedTransactionsIndex bc);
      let blocks := take (length (m_blocks bc) - 1) (m_blocks bc) in
      let index := bi_pop (m_blockIndex bc) in
      _ ← assert_ (bi_size index =? Z.of_nat (length blocks));
      mret (true, {|
        m_blocks := blocks; m_blockIndex := index; m_tables := t; m_depositIndex := m_depositIndex bc;
        m_upgradeDetectorV2 := m_upgradeDetectorV2 bc; m_upgradeDetectorV3 := m_upgradeDetectorV3 bc;
        m_timestampIndex := times; m_generatedTransactionsIndex := generated;
        m_orthanBlocksIndex := m_orthanBlocksIndex bc; m_alternative_chains := m_alternative_chains bc;
        m_checkpoints := m_checkpoints bc; m_current_block_cumul_sz_limit := m_current_block_cumul_sz_limit bc;
        m_tx_pool := m_tx_pool bc |})
  end.

(** The loop of [rollbackBlockchainTo]; it removes at most as many blocks as there
    are. *)
Fixpoint rollback_loop (fuel : nat) (height : Z) (bc : Blockchain) : outcome Blockchain :=
  if u32 (height + 1) <? blocks_size bc then
    match fuel with
    | O => Abort
    | S fuel => '(_, bc) ← removeLastBlock bc; rollback_loop fuel height bc
    end
  else mret bc.

Definition rollbackBlockchainTo (height : Z) (bc : Blockchain) : outcome Blockchain :=
  rollback_loop (length (m_blocks bc)) height bc.
(** ** Building the tables again *)

(** The transactions of a stored block, from the index [t] on: the tables and the
    interest. *)
Fixpoint rebuild_transactions (b t : Z) (txs : list TransactionEntry) (s : ChainState) (interest : Z)
    : outcome (ChainState * Z) :=
  match txs with
  | [] => mret (s, interest)
  | e :: txs' =>
      transactionHash ← getObjectHash cn_fast_hash serialize_Transaction (te_tx e);
      s' ← rebuild_transaction (te_tx e) transactionHash {| ti_block := b; ti_transaction := t |} s;
      i ← calculateTotalTransactionInterest c (te_tx e) b;
      rebuild_transactions b (t + 1) txs' s' (u64 (interest + i))
  end.

(** One block; with more than 65,535 transactions the loop, whose counter has 16
    bits, does not end. *)
Definition rebuild_block (b : Z) (block : BlockEntry) (st : BlockIndex * ChainState * DepositIndex)
    : outcome (BlockIndex * ChainState * DepositIndex) :=
  let '(index, s, d) := st in
  blockHash ← get_block_hash uninit (be_bl block);
  let '(_, index) := bi_push blockHash index in
  _ ← assert_ (Z.of_nat (length (be_transactions block)) <=? 65535);
  '(s, interest) ← rebuild_transactions b 0 (be_transactions block) s 0;
  d ← DepositIndex.pushBlock (deposit_change (be_transactions block)) interest d;
  mret (index, s, d).

Fixpoint rebuild_blocks (b : Z) (blocks : list BlockEntry) (st : BlockIndex * ChainState * DepositIndex)
    : outcome (BlockIndex * ChainState * DepositIndex) :=
  match blocks with
  | [] => mret st
  | block :: blocks' => st' ← rebuild_block b block st; rebuild_blocks (u32 (b + 1)) blocks' st'
  end.

(** [rebuildCache]: the payment ids and the deposits are not cleared. *)
Definition rebuildCache (bc : Blockchain) : outcome Blockchain :=
  '(index, s, d) ← rebuild_blocks 0 (m_blocks bc)
     ([], {| m_transactionMap := ∅; m_spent_keys := ∅; m_outputs := ∅; m_multisignatureOutputs := ∅;
             m_paymentIdIndex := m_paymentIdIndex (m_tables bc) |}, m_depositIndex bc);
  mret {|
    m_blocks := m_blocks bc; m_blockIndex := index; m_tables := s; m_depositIndex := d;
    m_upgradeDetectorV2 := m_upgradeDetectorV2 bc; m_upgradeDetectorV3 := m_upgradeDetectorV3 bc;
    m_timestampIndex := m_timestampIndex bc; m_generatedTransactionsIndex := m_generatedTransactionsIndex bc;
    m_orthanBlocksIndex := m_orthanBlocksIndex bc; m_alternative_chains := m_alternative_chains bc;
    m_checkpoints := m_checkpoints bc; m_current_block_cumul_sz_limit := m_current_block_cumul_sz_limit bc;
    m_tx_pool := m_tx_pool bc |}.

(** The indices that [loadBlockchainIndices] builds when they could not be loaded:
    payment ids, timestamps and numbers of transactions. *)
Fixpoint add_payment_ids (txs : list TransactionEntry) (pids : list (Hash * Hash)) : outcome (list (Hash * Hash)) :=
  match txs with
  | [] => mret pids
  | e :: txs' => '(_, pids) ← PaymentIdIndex_add (te_tx e) pids; add_payment_ids txs' pids
  end.

Fixpoint rebuild_indices (blocks : list BlockEntry) (pids : list (Hash * Hash)) (times : list (Z * Hash))
    (g : GeneratedTransactionsIndex)
    : outcome (list (Hash * Hash) * list (Z * Hash) * GeneratedTransactionsIndex) :=
  match blocks with
  | [] => mret (pids, times, g)
  | block :: blocks' =>
      blockHash ← get_block_hash uninit (be_bl block);
      let '(_, times) := TimestampBlocksIndex_add (timestamp (be_bl block)) blockHash times in
      '(_, g) ← GeneratedTransactionsIndex_add (be_bl block) g;
      _ ← assert_ (Z.of_nat (length (be_transactions block)) <=? 65535);
      pids ← add_payment_ids (be_transactions block) pids;
      rebuild_indices blocks' pids times g
  end.

Definition loadBlockchainIndices_rebuild (bc : Blockchain) : outcome Blockchain :=
  '(pids, times, g) ← rebuild_indices (m_blocks bc) [] []
     (GeneratedTransactionsIndex_clear (m_generatedTransactionsIndex bc));
  mret {|
    m_blocks := m_blocks bc; m_blockIndex := m_blockIndex bc;
    m_tables := {| m_transactionMap := m_transactionMap (m_tables bc); m_spent_keys := m_spent_keys (m_tables bc);
                   m_outputs := m_outputs (m_tables bc);
                   m_multisignatureOutputs := m_multisignatureOutputs (m_tables bc); m_paymentIdIndex := pids |};
    m_depositIndex := m_depositIndex bc;
    m_upgradeDetectorV2 := m_upgradeDetectorV2 bc; m_upgradeDetectorV3 := m_upgradeDetectorV3 bc;
    m_timestampIndex := times; m_generatedTransactionsIndex := g;
    m_orthanBlocksIndex := m_orthanBlocksIndex bc; m_alternative_chains := m_alternative_chains bc;
    m_checkpoints := m_checkpoints bc; m_current_block_cumul_sz_limit := m_current_block_cumul_sz_limit bc;
    m_tx_pool := m_tx_pool bc |}.

(** [checkCheckpoints]: whether the chain agrees with the checkpoints, and the last
    one it agrees with. *)
Fixpoint checkCheckpoints_loop (heights : list Z) (bc : Blockchain) (lastValid : Z) : outcome (bool * Z) :=
  match heights with
  | [] => mret (true, lastValid)
  | h :: heights' =>
      if blocks_size bc <=? h then mret (true, lastValid)
      else
        id ← getBlockIdByHeight (m_blockIndex bc) h;
        if fst (check_block h id (m_checkpoints bc)) then checkCheckpoints_loop heights' bc h
        else mret (false, lastValid)
  end.

Definition checkCheckpoints (bc : Blockchain) : outcome (bool * Z) :=
  checkCheckpoints_loop (getCheckpointHeights (m_checkpoints bc)) bc 0.
End Blockchain.
