(* ===== verification/NodeInvariant.v ===== *)
(** * The chain and the pool together

    [Blockchain::pushBlock] takes the transactions of a block out of the memory pool,
    and [popBlock] and a [pushBlock] that refuses the block hand them back. The
    invariant [node_inv] ties the tables of the chain to the stored blocks and the
    pool to the tables; it is what makes the checks of [pushBlock] sufficient, because
    [pushBlock] does not look at the result of [pushTransaction]. *)

From S2P Require Import Prelude Streams CryptoNoteTypes Serialization CryptoNoteSerialization Crypto Config Currency.
From S2P Require Import Amounts Difficulty TransactionExtra FormatUtils DepositIndex BlockIndex Checkpoints UpgradeDetector.
From S2P Require Import BlockchainIndices ChainState InputCheck TransactionPool BlockRules Blockchain ChainInvariant.

Local Open Scope Z_scope.

Section Node.
Context `{CryptoOps}.
Variable uninit : list Z.
Variable c : Currency.
Variable now : Z.
#[local] Instance node_validator : ITransactionValidator Blockchain := chain_validator uninit c now.

(** ** Transactions from and to the pool *)

Definition has_payment (tx : Transaction) : Prop := ∃ r, getPaymentId tx = Ret r.

(** Handing transactions back to the pool. *)
Lemma readd_spec what txs height bc : ∀ p p',
  pool_ok p → Forall has_payment txs → readd uninit c now what txs height bc p = Ret p' →
  pool_ok p' ∧ ∃ hs, hashes_match txs hs ∧ contents p' ≡ₚ zip hs txs ++ contents p.
Proof.
  induction txs as [|tx txs IH]; intros p p' Hok Hpay E; cbn [readd] in E.
  { injection E as <-. split; [done|]. exists []. split; [constructor|done]. }
  apply Forall_cons_iff in Hpay as [Hp Hpay]. apply outcome_bind_ret in E as ([[ok tvc] p1] & E1 & E).
  destruct ok; [|done]. unfold add_tx_hashed in E1. apply outcome_bind_ret in E1 as (h & Eh & E1).
  apply outcome_bind_ret in E1 as (size & _ & E1).
  destruct (add_tx_pool_ok _ _ _ _ _ _ _ _ _ _ _ Hok Eh Hp E1 (add_tx_kept _ _ _ _ _ _ _ _ _ _ E1))
    as (Hok1 & txd & <- & <- & _ & Hperm).
  destruct (IH _ _ Hok1 Hpay E) as (Hok' & hs & Hm & Hc). split; [done|]. exists (td_id txd :: hs).
  split; [by constructor|]. rewrite Hc. unfold contents at 1. rewrite Hperm. cbn. by rewrite <- Permutation_middle.
Qed.

Lemma hashes_match_unique txs hs hs' : hashes_match txs hs → hashes_match txs hs' → hs = hs'.
Proof.
  intros Hm. revert hs'. induction Hm as [|tx h txs hs Hh Hm IH]; intros hs' Hm'; inversion Hm' as [|? ? ? ? Hh' Hms]; subst;
    [done|]. f_equal; [congruence|by apply IH].
Qed.

(** Taking the transactions of a block out of the pool; when one is missing, those
    taken are handed back. *)
Lemma load_loop_spec hashes height bc : ∀ taken htaken p r p',
  pool_ok p → hashes_match taken htaken → Forall has_payment taken →
  load_loop uninit c now hashes taken height bc p = Ret (r, p') →
  pool_ok p' ∧
  match r with
  | None => contents p' ≡ₚ zip htaken taken ++ contents p
  | Some txs => ∃ loaded, txs = reverse taken ++ loaded ∧ hashes_match loaded hashes ∧ Forall has_payment loaded ∧
      Forall (λ tx : Transaction, NoDup (key_images (inputs tx))) loaded ∧
      contents p ≡ₚ zip hashes loaded ++ contents p'
  end.
Proof.
  induction hashes as [|h hashes IH]; intros taken htaken p r p' Hok Hm Hpay E; cbn [load_loop] in E.
  { injection E as <- <-. split; [done|]. exists []. rewrite app_nil_r. split_and!; [done|constructor..|done]. }
  apply outcome_bind_ret in E as ([r1 p1] & E1 & E).
  destruct (take_tx_contents _ _ _ _ Hok E1) as [Hok1 Hr1]. destruct r1 as [[[tx size] fee]|].
  - destruct Hr1 as (Hc & Hh & Hk & Hp).
    destruct (IH (tx :: taken) (h :: htaken) _ _ _ Hok1 ltac:(by constructor) ltac:(by constructor) E) as [Hok' Hr].
    split; [done|]. destruct r as [txs|].
    + destruct Hr as (loaded & -> & Hml & Hpl & Hkl & Hcl). exists (tx :: loaded). rewrite reverse_cons, <- app_assoc.
      split_and!; [done|by constructor..|]. rewrite Hc, Hcl. done.
    + rewrite Hr, Hc. cbn. by rewrite <- Permutation_middle.
  - subst p1. apply outcome_bind_ret in E as (p2 & E2 & E). injection E as <- <-.
    destruct (readd_spec _ _ _ _ _ _ Hok Hpay E2) as (Hok2 & hs & Hhs & Hc). split; [done|].
    by rewrite (hashes_match_unique _ _ _ Hm Hhs).
Qed.

Lemma saveTransactions_spec txs height bc bc' hs :
  pool_ok (m_tx_pool bc) → Forall has_payment txs → hashes_match txs hs →
  saveTransactions uninit c now txs height bc = Ret bc' →
  ∃ p, bc' = with_pool p bc ∧ pool_ok p ∧ contents p ≡ₚ zip hs txs ++ contents (m_tx_pool bc).
Proof.
  intros Hok Hpay Hm E. unfold saveTransactions in E. apply outcome_bind_ret in E as (p & Er & E). injection E as <-.
  exists p. split; [done|]. destruct (readd_spec _ _ _ _ _ _ Hok ltac:(by apply Forall_reverse) Er) as (Hok' & hs' & Hm' & Hc).
  split; [done|]. rewrite Hc. apply Permutation_app_tail.
  assert (hs' = reverse hs) as ->.
  { apply (hashes_match_unique (reverse txs)); [done|]. by apply Forall2_reverse. }
  assert (length txs = length hs) as Hl by (by eapply Forall2_length).
  clear -Hl. revert hs Hl. induction txs as [|tx txs IH]; intros [|h hs] Hl; try done.
  rewrite !reverse_cons, zip_with_app by (rewrite !length_reverse; cbn in Hl; lia). cbn in *.
  rewrite IH by lia. by rewrite Permutation_app_comm.
Qed.

(** ** The invariant *)

(** The chain is consistent, the pool is, and the transactions of the pool have
    distinct multisignature inputs, as [core::check_tx_semantic] demands, and are not
    in the chain. *)
Definition node_inv (bc : Blockchain) : Prop :=
  chain_inv uninit c bc ∧ pool_ok (m_tx_pool bc) ∧
  ∀ h (tx : Transaction), (h, tx) ∈ contents (m_tx_pool bc) →
    checkMultisignatureInputsDiff (tx_prefix tx) = true ∧ m_transactionMap (m_tables bc) !! h = None.

(** The transactions of the pool that a block lists. *)
Definition block_txs (b : Block) (bc : Blockchain) : list Transaction :=
  omap (λ h, td_tx <$> find_id h (m_transactions (m_tx_pool bc))) (transactionHashes b).

(** The miner's transaction is neither in the chain nor in the pool. *)
Definition new_miner (b : Block) (bc : Blockchain) : Prop :=
  ∃ h, getObjectHash cn_fast_hash serialize_Transaction (baseTransaction b) = Ret h ∧
    m_transactionMap (m_tables bc) !! h = None ∧ h ∉ td_id <$> m_transactions (m_tx_pool bc).

Lemma chain_inv_pool p bc : chain_inv uninit c (with_pool p bc) ↔ chain_inv uninit c bc.
Proof. unfold chain_inv. by rewrite !cache_exact_iff. Qed.

(** The pool may change as long as it holds the same. *)
Lemma node_inv_pool p bc :
  pool_ok p → contents p ⊆ contents (m_tx_pool bc) → node_inv bc → node_inv (with_pool p bc).
Proof.
  intros Hok Hsub (Hc & _ & Hp). split; [by apply chain_inv_pool|]. split; [done|]. intros h tx Hin. by apply Hp, Hsub.
Qed.

Lemma same_chain_pool p bc : same_chain (with_pool p bc) bc.
Proof. done. Qed.

(** The transactions that were taken for a block. *)
Record loaded (b : Block) (bc : Blockchain) (txs : list Transaction) (p : Pool) : Prop := {
  loaded_pool : pool_ok p;
  loaded_txs : txs = block_txs b bc;
  loaded_match : hashes_match txs (transactionHashes b);
  loaded_payment : Forall has_payment txs;
  loaded_contents : contents (m_tx_pool bc) ≡ₚ zip (transactionHashes b) txs ++ contents p;
  loaded_ids : NoDup (transactionHashes b ++ (fst <$> contents p));
  loaded_wf : node_inv bc → Forall wf_inputs txs
}.

Lemma loadTransactions_spec b height bc r p :
  pool_ok (m_tx_pool bc) → loadTransactions uninit c now b height bc = Ret (r, p) →
  match r with
  | None => pool_ok p ∧ contents p ≡ₚ contents (m_tx_pool bc)
  | Some txs => loaded b bc txs p
  end.
Proof.
  intros Hok E. unfold loadTransactions in E.
  apply (load_loop_spec _ _ _ [] []) in E as [Hok' Hr]; [|done|constructor..]. destruct r as [txs|]; [|done].
  destruct Hr as (l & -> & Hm & Hpay & Hk & Hc). cbn [reverse rev_append app] in *.
  assert (length l = length (transactionHashes b)) as Hl by (by eapply Forall2_length).
  assert (∀ h tx, (h, tx) ∈ zip (transactionHashes b) l → (h, tx) ∈ contents (m_tx_pool bc)) as Hin.
  { intros h tx Hz. rewrite Hc. by apply elem_of_app; left. }
  split; try done.
  - unfold block_txs. cbn. clear -Hin Hl Hok. revert l Hl Hin. induction (transactionHashes b) as [|h hs IH];
      intros [|tx l] Hl Hin; try done. cbn [omap list_omap].
    destruct (contents_find _ h tx Hok ltac:(apply Hin; by left)) as (t & -> & <-). cbn. f_equal.
    apply IH; [cbn in Hl; lia|]. intros h' tx' Hz. apply Hin. by right.
  - pose proof (ok_ids _ Hok) as Hnd. rewrite <- contents_ids, Hc, fmap_app, fst_zip in Hnd by lia. done.
  - intros (_ & _ & Hsem). apply Forall_forall. intros tx [i Hi]%list_elem_of_In%list_elem_of_lookup_1.
    split; [by apply (Forall_lookup_1 _ _ _ _ Hk Hi)|].
    destruct (lookup_lt_is_Some_2 (transactionHashes b) i) as [h Hh]; [rewrite <- Hl; by eapply lookup_lt_Some|].
    apply (Hsem h tx), Hin, (list_elem_of_lookup_2 _ i). by rewrite lookup_zip_with, Hh; cbn; rewrite Hi.
Qed.

(** ** The cases of [pushBlock] *)

Lemma loaded_wf_transactions b bc txs p :
  node_inv bc → new_miner b bc → loaded b bc txs p → wf_transactions b txs (with_pool p bc).
Proof.
  intros Hinv (h & Hh & Hmap & Hpool) Hl. split; [by apply (loaded_wf _ _ _ _ Hl)|]. exists h. split; [done|].
  assert (∀ h', h' ∈ transactionHashes b → h' ∈ fst <$> contents (m_tx_pool bc)) as Hin.
  { intros h' Hh'. rewrite (loaded_contents _ _ _ _ Hl), fmap_app, fst_zip; [by apply elem_of_app; left|].
    rewrite <- (Forall2_length (loaded_match _ _ _ _ Hl)). done. }
  split.
  - pose proof (loaded_ids _ _ _ _ Hl) as Hids. apply list.NoDup_cons. split; [|by apply list.NoDup_app in Hids as [? _]].
    intros Hc. apply Hpool. rewrite <- contents_ids. by apply Hin.
  - constructor; [done|]. apply Forall_forall. intros h' Hh'%list_elem_of_In%Hin.
    apply list_elem_of_fmap in Hh' as ([h1 tx] & -> & Hc). by apply (proj2 (proj2 Hinv) h1 tx).
Qed.

Lemma push_result_pool b txs id bc ok bc' :
  push_result uninit c now b txs id bc ok bc' → m_tx_pool bc' = m_tx_pool bc ∧ (ok = false → m_blocks bc' = m_blocks bc).
Proof.
  intros [| | |h ps ps' d reward emission bc1 bc2 bc3 _ _ _ _ _ _ E1 E2 E3]; [done..|]. split; [|done].
  by destruct (stored_fields _ _ _ _ _ _ _ _ _ E1 E2 E3) as (? & ? & _ & _ & _ & _ & _ & _ & _ & _ & _ & _ & _ & _ & _ & ->).
Qed.

Lemma pushBlock_cases b id bvc height bc ok bvc' bc' :
  node_inv bc → new_miner b bc → pushBlock uninit c now b id bvc height bc = Ret (ok, bvc', bc') →
  (ok = false ∧ ∃ p, bc' = with_pool p bc ∧ pool_ok p ∧ contents p ≡ₚ contents (m_tx_pool bc)) ∨
  ∃ p bc1, loaded b bc (block_txs b bc) p ∧
    push_result uninit c now b (block_txs b bc) id (with_pool p bc) ok bc1 ∧
    if ok then bc' = bc1
    else ∃ p', bc' = with_pool p' bc1 ∧ pool_ok p' ∧ contents p' ≡ₚ contents (m_tx_pool bc).
Proof.
  intros Hinv Hnew E. pose proof Hinv as ((_ & Hok & _) & Hpool & _). unfold pushBlock in E.
  apply outcome_bind_ret in E as ([r p] & El & E). cbv zeta in E. apply loadTransactions_spec in El; [|done].
  destruct r as [txs|]; [|injection E as <- _ <-; left; split; [done|]; by exists p].
  pose proof (loaded_txs _ _ _ _ El) as ->. right. apply outcome_bind_ret in E as ([[ok1 bvc1] bc1] & E1 & E).
  apply pushBlock_checked_cases in E1; [|by apply loaded_wf_transactions|done].
  exists p, bc1. destruct ok1; [by injection E as <- _ <-|].
  apply outcome_bind_ret in E as (bc2 & E2 & E). injection E as <- _ <-. split_and!; [done..|].
  destruct (push_result_pool _ _ _ _ _ _ E1) as [Ep _]. cbn [with_pool m_tx_pool] in Ep.
  eapply saveTransactions_spec in E2 as (p' & -> & Hok' & Hc); [|rewrite Ep; apply El|apply El|apply El].
  exists p'. split_and!; [done..|]. by rewrite Hc, Ep, (loaded_contents _ _ _ _ El).
Qed.

(** A transaction that was not stored is still not in the map. *)
Lemma pushed_map P height i txs hs ps ps' h :
  pushed c P height i txs hs ps ps' → h ∉ hs → m_transactionMap (ps_tables ps) !! h = None →
  m_transactionMap (ps_tables ps') !! h = None.
Proof.
  induction 1 as [|i tx txs h' hs ps gs t size interest fee ps' Hu Ep Es Ei Hp IH]; [done|].
  intros [Hne Hn]%not_elem_of_cons Hnone. apply IH; [done|]. cbn [ps_tables].
  destruct (pushTransaction_true _ _ _ _ _ _ Ep) as (_ & _ & _ & _ & -> & _). by rewrite lookup_insert_ne.
Qed.

Lemma stored_map b txs id bc bc' mh h :
  push_result uninit c now b txs id bc true bc' →
  getObjectHash cn_fast_hash serialize_Transaction (baseTransaction b) = Ret mh →
  h ≠ mh → h ∉ transactionHashes b → m_transactionMap (m_tables bc) !! h = None →
  m_transactionMap (m_tables bc') !! h = None.
Proof.
  intros Hr Hmh Hne Hn Hnone. inversion Hr as [| | |h0 ps ps' d reward emission bc1 bc2 bc3 _ Hh Hm Hp _ _ E1 E2 E3]; subst.
  destruct (stored_fields _ _ _ _ _ _ _ _ _ E1 E2 E3) as (? & ? & _ & _ & _ & -> & _).
  eapply pushed_map; [exact Hp|done|]. destruct Hm as (gs & Ep & _).
  destruct (pushTransaction_true _ _ _ _ _ _ Ep) as (_ & _ & _ & _ & -> & _).
  rewrite lookup_insert_ne; [done|]. congruence.
Qed.

Lemma stored_entries b txs id bc bc' :
  push_result uninit c now b txs id bc true bc' →
  ∃ entry, m_blocks bc' = m_blocks bc ++ [entry] ∧ be_bl entry = b ∧
    te_tx <$> be_transactions entry = baseTransaction b :: txs.
Proof.
  intros Hr. inversion Hr as [| | |h ps ps' d reward emission bc1 bc2 bc3 _ _ Hm Hp _ _ E1 E2 E3]; subst.
  destruct (stored_fields _ _ _ _ _ _ _ _ _ E1 E2 E3) as (bh & gok & _ & Eblocks & _).
  destruct (pushed_entries _ _ _ _ _ _ _ _ Hp) as (es & Ees & Htx). destruct Hm as (gs & _ & Etx & _).
  eexists. split; [exact Eblocks|]. cbn. split; [done|]. by rewrite Ees, Etx, <- Htx.
Qed.

(** A block that was refused for its size has no admissible one. *)
Lemma over_not_admissible b txs bc bc0 P h ps ps' :
  miner_pushed b h (u32 (blocks_size bc)) (m_tables bc) ps →
  pushed c P (u32 (blocks_size bc)) 0 txs (transactionHashes b) ps ps' →
  checkCumulativeBlockSize c (ps_size ps') (u32 (blocks_size bc0)) = Ret false → ¬ admissible c b txs bc0.
Proof.
  intros (gs & _ & _ & _ & Es) Hp Hover Hadm. rewrite (Hadm (ps_size ps')) in Hover; [done|].
  unfold block_blob_size. rewrite Es. by eapply pushed_size.
Qed.
End Node.

(** ** Theorems *)

(** C1: [pushBlock] keeps the node consistent: after a block was accepted, the block
    index, the tables and the deposits are again those that [rebuildCache] computes
    from the stored blocks, no key image is spent twice in the chain, the pool is in
    order and shares no transaction with the chain, and the block was appended with
    the transactions that were taken from the pool for it. After a block was refused,
    the blocks and what the pool holds are the same; the rest is, too, if the size of
    the block is admissible and, inside the checkpoint zone, no transaction of the
    block has a multisignature input. This is for calls that return, for blocks with
    fewer than 65535 transactions and a miner's transaction whose hash is new. *)
Theorem block_push_invariant `{CryptoOps} uninit c now b id bvc height bc ok bvc' bc' :
  node_inv uninit c bc → new_miner b bc → Z.of_nat (length (transactionHashes b)) < 65535 →
  pushBlock uninit c now b id bvc height bc = Ret (ok, bvc', bc') →
  if ok then
    node_inv uninit c bc' ∧
    contents (m_tx_pool bc) ≡ₚ zip (transactionHashes b) (block_txs b bc) ++ contents (m_tx_pool bc') ∧
    ∃ entry, m_blocks bc' = m_blocks bc ++ [entry] ∧ be_bl entry = b ∧
      te_tx <$> be_transactions entry = baseTransaction b :: block_txs b bc
  else
    m_blocks bc' = m_blocks bc ∧ contents (m_tx_pool bc') ≡ₚ contents (m_tx_pool bc) ∧
    (restorable (block_txs b bc) bc → admissible c b (block_txs b bc) bc →
     node_inv uninit c bc' ∧ same_chain bc' bc).
Proof.
  intros Hinv Hnew Hlen E. pose proof Hinv as (Hc & Hpool & Hsem).
  destruct (pushBlock_cases _ _ _ _ _ _ _ _ _ _ _ Hinv Hnew E) as [(-> & p & -> & Hp & Hcp)|(p & bc1 & Hl & Hr & Hend)].
  { split_and!; [done..|]. intros _ _. split; [|done]. apply node_inv_pool; [done| |done]. by rewrite Hcp. }
  pose proof (loaded_match _ _ _ _ _ _ Hl) as Hm.
  assert (Z.of_nat (length (block_txs b bc)) < 65535) as Hlt by (by rewrite (Forall2_length Hm)).
  assert (chain_inv uninit c (with_pool p bc)) as Hc' by (by apply chain_inv_pool).
  destruct (push_result_pool _ _ _ _ _ _ _ _ _ Hr) as [Ep Hkeep]. destruct ok.
  - subst bc1. cbn [with_pool m_tx_pool] in Ep. rewrite Ep. split_and!; [|apply Hl|exact (stored_entries _ _ _ _ _ _ _ _ Hr)].
    split; [by eapply push_result_inv|]. rewrite Ep. split; [apply Hl|]. intros h tx Hin.
    assert ((h, tx) ∈ contents (m_tx_pool bc)) as Hin0 by (rewrite (loaded_contents _ _ _ _ _ _ Hl); apply elem_of_app; by right).
    destruct (Hsem _ _ Hin0) as [Hd Hmap]. split; [done|]. destruct Hnew as (mh & Hmh & _ & Hnot).
    eapply stored_map; [exact Hr|exact Hmh|..|done].
    + intros ->. apply Hnot. rewrite <- contents_ids. by apply (list_elem_of_fmap_2 fst _ (mh, tx)).
    + intros Hh. pose proof (loaded_ids _ _ _ _ _ _ Hl) as (_ & Hd' & _)%list.NoDup_app. apply (Hd' h Hh).
      by apply (list_elem_of_fmap_2 fst _ (h, tx)).
  - destruct Hend as (p' & -> & Hp' & Hcp). split_and!; [by apply Hkeep|done|]. intros HP Hadm.
    pose proof (push_result_inv _ _ _ _ _ _ _ _ _ Hc' Hm Hlt Hr ltac:(intros _; by split)) as Hc1.
    assert (same_chain bc1 bc) as Hs.
    { inversion Hr as [|t Ht|h ps ps' Hmp Hpp Hover|]; subst; [done|specialize (Ht HP); by split_and!|].
      by destruct (over_not_admissible _ _ _ (with_pool p bc) bc _ _ _ _ Hmp Hpp Hover). }
    split; [|by split_and!; apply Hs]. split; [by apply chain_inv_pool|]. split; [done|]. intros h tx Hin.
    cbn [with_pool m_tx_pool m_tables] in *. rewrite Hcp in Hin. destruct Hs as (_ & _ & (-> & _) & _). by apply Hsem.
Qed.

(** The chain of one block, with a transaction in the pool that spends the key output
    of the block. *)
Definition toy_pool : Pool :=
  match add_tx_hashed (H := toy_crypto) (ITransactionValidator0 := chain_validator (H := toy_crypto) [] mainnet 100)
          mainnet toy_chain 100 toy_spend empty_tvc false 1 empty_Pool with
  | Ret (true, _, p) => p
  | _ => empty_Pool
  end.

Definition toy_node : Blockchain := with_pool toy_pool toy_chain.

(** A block with that transaction. *)
Definition toy_next : Block := toy_block [] [toy_hash toy_spend].

Lemma toy_node_inv c :
  rebuildCache (H := toy_crypto) [] c (forget_cache toy_chain) = Ret toy_chain → node_inv (H := toy_crypto) [] c toy_node.
Proof.
  intros Hc. split; [apply chain_inv_pool; split; [exact Hc|apply toy_chain_inv]|]. split.
  - destruct (add_tx_hashed (H := toy_crypto) (ITransactionValidator0 := chain_validator (H := toy_crypto) [] mainnet 100)
      mainnet toy_chain 100 toy_spend empty_tvc false 1 empty_Pool) as [[[[] tvc] p]| |] eqn:E; [|by vm_compute in E..].
    assert (m_tx_pool toy_node = p) as -> by (unfold toy_node, toy_pool; rewrite E; reflexivity).
    pose proof E as E'. unfold add_tx_hashed in E'. apply outcome_bind_ret in E' as (h & Eh & E').
    apply outcome_bind_ret in E' as (size & _ & E'). refine (proj1 (add_tx_pool_ok _ _ _ _ _ _ _ _ _ _ _
      (empty_pool_ok (H := toy_crypto)) Eh _ E' _)); [eexists; vm_compute; reflexivity|].
    vm_compute in E. by injection E as <- _.
  - intros h tx Hin. replace (contents (m_tx_pool toy_node)) with [(toy_hash toy_spend, toy_spend)] in Hin
      by (vm_compute; reflexivity).
    apply list_elem_of_singleton in Hin as [= -> ->]. split; vm_compute; reflexivity.
Qed.

Lemma toy_new_miner : new_miner (H := toy_crypto) toy_next toy_node.
Proof.
  exists (toy_hash (toy_coinbase 1 [])). split_and!; [vm_compute; reflexivity..|].
  intros Hin. apply (bool_decide_eq_true_2 _) in Hin. by vm_compute in Hin.
Qed.

Definition toy_push_node (c : Currency) : outcome (bool * block_verification_context * Blockchain) :=
  pushBlock (H := toy_crypto) [] c 100 toy_next (toy_block_hash toy_next) empty_bvc 2 toy_node.

Lemma block_push_invariant_witness :
  match toy_push_node mainnet with
  | Ret (true, _, bc') => node_inv (H := toy_crypto) [] mainnet bc' ∧ chain_keys bc' = [toy 27] ∧
      contents (m_tx_pool bc') = []
  | _ => False
  end.
Proof.
  destruct (toy_push_node mainnet) as [[[[] bvc'] bc']| |] eqn:E; [|by vm_compute in E..].
  pose proof (block_push_invariant (H := toy_crypto) [] mainnet 100 toy_next (toy_block_hash toy_next) empty_bvc 2 toy_node
    true bvc' bc' (toy_node_inv mainnet (proj1 toy_chain_inv)) toy_new_miner ltac:(vm_compute; reflexivity) E) as (Hinv & _).
  split; [exact Hinv|]. vm_compute in E. injection E as _ <-. split; vm_compute; reflexivity.
Defined.

(** C2: [popBlock] takes back [pushBlock]: when a block was stored and the pool takes
    its transactions, as [popBlock] demands first, [popBlock] succeeds, the blocks,
    the block index, the tables, the deposits, the upgrade detectors and the indices
    are what they were, and the pool holds what it held before the block was pushed,
    with the transactions of the block among it. The node must be consistent before, the
    indices must fit its blocks and the count of transactions 64 bits, the block and
    the hash of its miner's transaction must be new, and inside the checkpoint zone no
    transaction of the block may have a multisignature input. *)
Theorem block_push_pop `{CryptoOps} uninit c now b id bvc height bc bvc' bc1 bcs :
  get_block_hash uninit b = Ret id → node_inv uninit c bc → indices_ok c bc →
  is_u64 (sumZ ((λ b, tx_count (be_bl b)) <$> m_blocks bc) + tx_count b) →
  (timestamp b, id) ∉ m_timestampIndex bc → new_miner b bc → restorable (block_txs b bc) bc →
  pushBlock uninit c now b id bvc height bc = Ret (true, bvc', bc1) →
  saveTransactions uninit c now (block_txs b bc) (u32 (blocks_size bc1)) bc1 = Ret bcs →
  ∃ bc', popBlock uninit c now id bc1 = Ret bc' ∧ same_chain bc' bc ∧ pool_ok (m_tx_pool bc') ∧
    contents (m_tx_pool bc') ≡ₚ contents (m_tx_pool bc) ∧
    zip (transactionHashes b) (block_txs b bc) ⊆ contents (m_tx_pool bc').
Proof.
  intros Hid Hinv Hi Hu Ht Hnew HP E Hs.
  destruct (pushBlock_cases _ _ _ _ _ _ _ _ _ _ _ Hinv Hnew E) as [(? & _)|(p & bc' & Hl & Hr & <-)]; [done|].
  assert (undoes c b (block_txs b bc) id (with_pool p bc) bc1) as Hun
    by (apply (stored_undo uninit c now); [done|apply Hinv|done..]).
  destruct (popBlock_stored uninit c now _ _ _ (with_pool p bc) bc1 bcs Hi Hun Hs) as (bc' & Epop & Hsame & Epool).
  destruct (push_result_pool _ _ _ _ _ _ _ _ _ Hr) as [Ep _]. cbn [with_pool m_tx_pool] in Ep.
  eapply saveTransactions_spec in Hs as (p' & -> & Hok' & Hc); [|rewrite Ep; apply Hl|apply Hl|apply Hl].
  cbn [with_pool m_tx_pool] in Epool. rewrite Ep, <- (loaded_contents _ _ _ _ _ _ Hl) in Hc.
  exists bc'. rewrite Epool. split_and!; [done..|]. rewrite Hc, (loaded_contents _ _ _ _ _ _ Hl). set_solver.
Qed.

Lemma block_push_pop_witness :
  match toy_push_node mainnet with
  | Ret (true, _, bc1) =>
      ∃ bc', popBlock (H := toy_crypto) [] mainnet 100 (toy_block_hash toy_next) bc1 = Ret bc' ∧
        same_chain bc' toy_node ∧ (toy_hash toy_spend, toy_spend) ∈ contents (m_tx_pool bc')
  | _ => False
  end.
Proof.
  destruct (toy_push_node mainnet) as [[[[] bvc'] bc1]| |] eqn:E; [|by vm_compute in E..].
  destruct (saveTransactions (H := toy_crypto) [] mainnet 100 (block_txs toy_next toy_node) (u32 (blocks_size bc1)) bc1)
    as [bcs| |] eqn:Es; [|vm_compute in E; injection E as _ <-; by vm_compute in Es..].
  destruct (block_push_pop (H := toy_crypto) [] mainnet 100 toy_next (toy_block_hash toy_next) empty_bvc 2 toy_node bvc' bc1 bcs)
    as (bc' & Epop & Hs & _ & _ & Hin);
    [vm_compute; reflexivity|exact (toy_node_inv mainnet (proj1 toy_chain_inv))|exact toy_indices_ok|split; vm_compute; congruence|apply not_elem_of_nil|
     exact toy_new_miner|left; vm_compute; reflexivity|exact E|exact Es|].
  exists bc'. split_and!; [exact Epop|exact Hs|]. apply Hin. vm_compute. left.
Defined.

(** C40: a block that [pushBlock] refuses leaves the chain and what the pool holds as
    they were, except when its transactions are valid and only its size is too large:
    then the transactions are back in the pool but stay in the tables, and their key
    images count as spent although no block has them. This is for calls that return on
    a consistent node, for a miner's transaction whose hash is new, and inside the
    checkpoint zone for blocks without multisignature inputs. *)
Theorem refused_block_effect `{CryptoOps} uninit c now b id bvc height bc bvc' bc' :
  node_inv uninit c bc → new_miner b bc → restorable (block_txs b bc) bc →
  pushBlock uninit c now b id bvc height bc = Ret (false, bvc', bc') →
  m_blocks bc' = m_blocks bc ∧ contents (m_tx_pool bc') ≡ₚ contents (m_tx_pool bc) ∧
  (same_chain bc' bc ∨
   ∃ size, block_blob_size b (block_txs b bc) = Ret size ∧
     checkCumulativeBlockSize c size (u32 (blocks_size bc)) = Ret false ∧
     (∀ (tx : Transaction) k, tx ∈ block_txs b bc → k ∈ key_images (inputs tx) →
        (k ∉ m_spent_keys (m_tables bc)) ∧ k ∈ m_spent_keys (m_tables bc'))).
Proof.
  intros Hinv Hnew HP E.
  destruct (pushBlock_cases _ _ _ _ _ _ _ _ _ _ _ Hinv Hnew E) as [(_ & p & -> & Hp & Hcp)|(p & bc1 & Hl & Hr & Hend)].
  { split_and!; [done..|]. by left. }
  destruct Hend as (p' & -> & Hp' & Hcp).
  destruct (push_result_pool _ _ _ _ _ _ _ _ _ Hr) as [_ Hkeep]. split_and!; [by apply Hkeep|done|].
  inversion Hr as [|t Ht|h ps ps' Hm Hpp Hover|]; subst;
    [by left|left; specialize (Ht HP); by split_and!|right].
  destruct (pushed_keys _ _ _ _ _ _ _ _ Hpp) as (_ & Hknew & Hsp). cbv zeta in *.
  destruct Hm as (gs & Ep & _ & _ & Es). exists (ps_size ps'). split; [|split; [done|]].
  { unfold block_blob_size. rewrite Es. by eapply pushed_size. }
  intros tx k Htx Hk.
  assert (k ∈ concat ((λ tx : Transaction, key_images (inputs tx)) <$> block_txs b bc)) as Hin.
  { apply list_elem_of_In, in_concat. exists (key_images (inputs tx)).
    split; [|by apply list_elem_of_In]. apply list_elem_of_In, list_elem_of_fmap. by exists tx. }
  split.
  - intros Hs. apply (Hknew k Hin). destruct (pushTransaction_true _ _ _ _ _ _ Ep) as (_ & _ & _ & _ & _ & -> & _).
    by apply elem_of_union_l.
  - cbn. rewrite Hsp. by apply elem_of_union_r, elem_of_list_to_set.
Qed.

Lemma refused_block_effect_witness :
  match toy_push_node small_blocks with
  | Ret (false, _, bc') => m_blocks bc' = m_blocks toy_node ∧ toy 27 ∈ m_spent_keys (m_tables bc')
  | _ => False
  end.
Proof.
  destruct (toy_push_node small_blocks) as [[[[] bvc'] bc']| |] eqn:E; [by vm_compute in E| |by vm_compute in E..].
  destruct (refused_block_effect (H := toy_crypto) [] small_blocks 100 toy_next (toy_block_hash toy_next) empty_bvc 2 toy_node
    bvc' bc' (toy_node_inv small_blocks ltac:(vm_compute; reflexivity)) toy_new_miner
    ltac:(left; vm_compute; reflexivity) E) as (Eb & _ & [Hs|(size & _ & _ & Hk)]); (split; [exact Eb|]).
  - exfalso. destruct Hs as (_ & _ & (_ & Hs & _) & _). vm_compute in E. injection E as _ <-. by vm_compute in Hs.
  - apply (Hk toy_spend); [vm_compute; left|by apply list_elem_of_singleton].
Defined.
