(* ===== verification/AlternativeChains.v ===== *)
(** * Alternative chains

    [src/src/CryptoNoteCore/Blockchain.cpp]: blocks that do not continue the main
    chain ([handle_alternative_block]), the exchange of the main chain for a better
    one ([switch_to_alternative_blockchain], [rollback_blockchain_switching]), and the
    entry point for new blocks, [addNewBlock]. The list of iterators [alt_chain] is
    the list of the keys; following one whose element was erased is [Abort]. The
    answers of the name servers for checkpoints are the parameter [records]. *)

From S2P Require Import Prelude Streams CryptoNoteTypes Serialization CryptoNoteSerialization Crypto Config Currency.
From S2P Require Import Amounts Difficulty TransactionExtra FormatUtils DepositIndex BlockIndex Checkpoints UpgradeDetector.
From S2P Require Import BlockchainIndices ChainState InputCheck TransactionPool BlockRules Blockchain.

Local Open Scope Z_scope.

(** ** Parts of the state *)

Definition with_checkpoints (points : Checkpoints) (bc : Blockchain) : Blockchain := {|
  m_blocks := m_blocks bc; m_blockIndex := m_blockIndex bc; m_tables := m_tables bc;
  m_depositIndex := m_depositIndex bc;
  m_upgradeDetectorV2 := m_upgradeDetectorV2 bc; m_upgradeDetectorV3 := m_upgradeDetectorV3 bc;
  m_timestampIndex := m_timestampIndex bc; m_generatedTransactionsIndex := m_generatedTransactionsIndex bc;
  m_orthanBlocksIndex := m_orthanBlocksIndex bc; m_alternative_chains := m_alternative_chains bc;
  m_checkpoints := points; m_current_block_cumul_sz_limit := m_current_block_cumul_sz_limit bc;
  m_tx_pool := m_tx_pool bc |}.

Definition with_alternatives (orphans : list (Z * Hash)) (alts : gmap Hash BlockEntry) (bc : Blockchain)
    : Blockchain := {|
  m_blocks := m_blocks bc; m_blockIndex := m_blockIndex bc; m_tables := m_tables bc;
  m_depositIndex := m_depositIndex bc;
  m_upgradeDetectorV2 := m_upgradeDetectorV2 bc; m_upgradeDetectorV3 := m_upgradeDetectorV3 bc;
  m_timestampIndex := m_timestampIndex bc; m_generatedTransactionsIndex := m_generatedTransactionsIndex bc;
  m_orthanBlocksIndex := orphans; m_alternative_chains := alts;
  m_checkpoints := m_checkpoints bc; m_current_block_cumul_sz_limit := m_current_block_cumul_sz_limit bc;
  m_tx_pool := m_tx_pool bc |}.

Definition set_orphaned (bvc : block_verification_context) : block_verification_context := {|
  bvc_added_to_main_chain := bvc_added_to_main_chain bvc; bvc_verification_failed := bvc_verification_failed bvc;
  bvc_marked_as_orphaned := true; bvc_already_exists := bvc_already_exists bvc;
  bvc_switched_to_alt_chain := bvc_switched_to_alt_chain bvc |}.

Definition set_exists (bvc : block_verification_context) : block_verification_context := {|
  bvc_added_to_main_chain := bvc_added_to_main_chain bvc; bvc_verification_failed := bvc_verification_failed bvc;
  bvc_marked_as_orphaned := bvc_marked_as_orphaned bvc; bvc_already_exists := true;
  bvc_switched_to_alt_chain := bvc_switched_to_alt_chain bvc |}.

Definition set_switched (bvc : block_verification_context) : block_verification_context := {|
  bvc_added_to_main_chain := true; bvc_verification_failed := bvc_verification_failed bvc;
  bvc_marked_as_orphaned := bvc_marked_as_orphaned bvc; bvc_already_exists := bvc_already_exists bvc;
  bvc_switched_to_alt_chain := true |}.

Definition clear_added (bvc : block_verification_context) : block_verification_context := {|
  bvc_added_to_main_chain := false; bvc_verification_failed := bvc_verification_failed bvc;
  bvc_marked_as_orphaned := bvc_marked_as_orphaned bvc; bvc_already_exists := bvc_already_exists bvc;
  bvc_switched_to_alt_chain := bvc_switched_to_alt_chain bvc |}.

(** ** Looking up blocks and transactions *)

Definition haveBlock (id : Hash) (bc : Blockchain) : bool :=
  bi_hasBlock id (m_blockIndex bc) || bool_decide (is_Some (m_alternative_chains bc !! id)).

(** [m_blocks.back()]. *)
Definition blocks_back (bc : Blockchain) : outcome BlockEntry :=
  match list.last (m_blocks bc) with None => Throw "SwappedVector::operator[]" | Some b => mret b end.

(** The transactions found and the hashes of the others. *)
Fixpoint getBlockchainTransactions (txs_ids : list Hash) (bc : Blockchain)
    : outcome (list Transaction * list Hash) :=
  match txs_ids with
  | [] => mret ([], [])
  | tx_id :: txs_ids' =>
      match m_transactionMap (m_tables bc) !! tx_id with
      | None =>
          '(txs, missed_txs) ← getBlockchainTransactions txs_ids' bc;
          mret (txs, tx_id :: missed_txs)
      | Some index =>
          e ← transactionByIndex (m_blocks bc) index;
          '(txs, missed_txs) ← getBlockchainTransactions txs_ids' bc;
          mret (te_tx e :: txs, missed_txs)
      end
  end.

Definition getTransactions (txs_ids : list Hash) (checkTxPool : bool) (bc : Blockchain)
    : outcome (list Transaction * list Hash) :=
  '(txs, missed_txs) ← getBlockchainTransactions txs_ids bc;
  mret (if checkTxPool then
          let '(more, missed_txs) := pool_getTransactions missed_txs (m_tx_pool bc) in (txs ++ more, missed_txs)
        else (txs, missed_txs)).

Fixpoint add_sizes (txs : list Transaction) (cumulativeSize : Z) : outcome Z :=
  match txs with
  | [] => mret cumulativeSize
  | tx :: txs' => s ← getObjectBinarySize serialize_Transaction tx; add_sizes txs' (u64 (cumulativeSize + s))
  end.

(** [getBlockCumulativeSize]: whether it is exact, and the size. *)
Definition getBlockCumulativeSize (block : Block) (bc : Blockchain) : outcome (bool * Z) :=
  '(blockTxs, missedTxs) ← getTransactions (transactionHashes block) true bc;
  s ← getObjectBinarySize serialize_Transaction (baseTransaction block);
  cumulativeSize ← add_sizes blockTxs s;
  mret (bool_decide (missedTxs = []), cumulativeSize).

(** ** The chain behind an alternative block *)

(** The loop over [m_alternative_chains] from a block to the main chain: the keys and
    elements, the head of the chain first. *)
Fixpoint alt_walk (fuel : nat) (alts : gmap Hash BlockEntry) (h : Hash) : outcome (list (Hash * BlockEntry)) :=
  match alts !! h with
  | None => mret []
  | Some e =>
      match fuel with
      | O => Abort
      | S fuel =>
          rest ← alt_walk fuel alts (previousBlockHash (be_bl e));
          mret ((h, e) :: rest)
      end
  end.

(** The loop of [complete_timestamps_vector]. *)
Fixpoint complete_loop (start_top_height : nat) (stop_offset : Z) (bc : Blockchain) : outcome (list Z) :=
  b ← block_at (m_blocks bc) (Z.of_nat start_top_height);
  match start_top_height with
  | O => mret [timestamp (be_bl b)]
  | S start_top_height' =>
      if Z.of_nat start_top_height' =? stop_offset then mret [timestamp (be_bl b)]
      else
        rest ← complete_loop start_top_height' stop_offset bc;
        mret (timestamp (be_bl b) :: rest)
  end.

(** The elements from [start] on, [n] of them. *)
Fixpoint block_range (n : nat) (start : Z) (bc : Blockchain) : outcome (list BlockEntry) :=
  match n with
  | O => mret []
  | S n' =>
      b ← block_at (m_blocks bc) start;
      rest ← block_range n' (start + 1) bc;
      mret (b :: rest)
  end.

Section AlternativeChains.
Context `{CryptoOps}.
Variable uninit : list Z.
Variable c : Currency.
Variable now : Z.
Variable records : list (list Z).

(** [complete_timestamps_vector]: the vector; the result is not looked at. *)
Definition complete_timestamps_vector (start_top_height : Z) (timestamps : list Z) (bc : Blockchain)
    : outcome (list Z) :=
  if m_timestampCheckWindow c <=? Z.of_nat (length timestamps) then mret timestamps
  else
    let need_elements := m_timestampCheckWindow c - Z.of_nat (length timestamps) in
    if negb (start_top_height <? blocks_size bc) then mret timestamps
    else
      let stop_offset := if need_elements <? start_top_height then start_top_height - need_elements else 0 in
      more ← complete_loop (Z.to_nat start_top_height) stop_offset bc;
      mret (timestamps ++ more).

(** [get_next_difficulty_for_alternative_chain]; a failed check returns [false], that
    is, the difficulty 0. *)
Definition get_next_difficulty_for_alternative_chain (alt_chain : list BlockEntry) (bei_height : Z)
    (bc : Blockchain) : outcome Z :=
  let BlockMajorVersion := getBlockMajorVersionForHeight c (u32 (blocks_size bc)) bc in
  let count := difficultyBlocksCountByBlockVersion c BlockMajorVersion in
  let size := Z.of_nat (length alt_chain) in
  if size <? count then
    let main_chain_stop_offset := match alt_chain with e :: _ => be_height e | [] => bei_height end in
    let main_chain_count := Z.min (count - Z.min count size) main_chain_stop_offset in
    let main_chain_start_offset := main_chain_stop_offset - main_chain_count in
    let main_chain_start_offset := if main_chain_start_offset =? 0 then 1 else main_chain_start_offset in
    main ← block_range (Z.to_nat (main_chain_stop_offset - main_chain_start_offset)) main_chain_start_offset bc;
    if negb (size + Z.of_nat (length main) <=? count) then mret 0
    else
      let window := main ++ alt_chain in
      next_difficulty c ((λ b, timestamp (be_bl b)) <$> window) (cumulative_difficulty <$> window) bc
  else
    (* the loop writes before it compares its counter *)
    _ ← assert_ ((0 <? count) || (size =? 0));
    let window := drop (Z.to_nat (size - count)) alt_chain in
    next_difficulty c ((λ b, timestamp (be_bl b)) <$> window) (cumulative_difficulty <$> window) bc.

(** ** Checks of an alternative block *)

(** How the checks end: refused, [true] when it is reported in
    [bvc.m_verification_failed]; without a known block before it; or accepted, with
    the keys of the chain before it, its entry and [is_a_checkpoint]. *)
Inductive alt_check :=
| alt_refused (reported : bool)
| alt_orphaned
| alt_accepted (alt_chain : list Hash) (bei : BlockEntry) (is_a_checkpoint : bool).

(** The timestamps before the block; [None] where the connection to the main chain
    is wrong. [walk] has the head of the alternative chain first. *)
Definition alt_timestamps (walk : list (Hash * BlockEntry)) (mainPrev : option Z) (bc : Blockchain)
    : outcome (option (list Z)) :=
  let timestamps := (λ x : Hash * BlockEntry, timestamp (be_bl (snd x))) <$> walk in
  match list.last walk with
  | Some (_, front) =>
      if negb (be_height front <? blocks_size bc) then mret None
      else
        b ← block_at (m_blocks bc) (u32 (be_height front - 1));
        h ← get_block_hash uninit (be_bl b);
        if negb (bool_decide (h = previousBlockHash (be_bl front))) then mret None
        else
          timestamps ← complete_timestamps_vector (u32 (be_height front - 1)) timestamps bc;
          mret (Some timestamps)
  | None =>
      match mainPrev with
      | None => mret None
      | Some mainPrevHeight =>
          timestamps ← complete_timestamps_vector mainPrevHeight timestamps bc;
          mret (Some timestamps)
      end
  end.

(** The cumulative difficulty of the block before. *)
Definition prev_difficulty (walk : list (Hash * BlockEntry)) (mainPrev : option Z) (bc : Blockchain) : outcome Z :=
  match walk with
  | (_, prev) :: _ => mret (cumulative_difficulty prev)
  | [] => b ← block_at (m_blocks bc) (default 0 mainPrev); mret (cumulative_difficulty b)
  end.

(** The checks from the timestamp on. *)
Definition check_connected_block (b : Block) (id : Hash) (walk : list (Hash * BlockEntry)) (mainPrev : option Z)
    (bc : Blockchain) : outcome alt_check :=
  r ← alt_timestamps walk mainPrev bc;
  match r with
  | None => mret (alt_refused false)
  | Some timestamps =>
      if negb (check_block_timestamp c timestamps b) then mret (alt_refused true)
      else
        let height := u32 (match walk with (_, prev) :: _ => be_height prev + 1 | [] => default 0 mainPrev + 1 end) in
        let '(ok, is_a_checkpoint) := check_block height id (m_checkpoints bc) in
        if negb ok then mret (alt_refused true)
        else
          tag ← getMergeMiningTagFromExtra (extra (baseTransaction b));
          if bool_decide (is_Some tag) && (UPGRADE_HEIGHT_V3 <=? height) then mret (alt_refused false)
          else
            current_diff ← get_next_difficulty_for_alternative_chain (reverse (snd <$> walk)) height bc;
            if current_diff =? 0 then mret (alt_refused false)
            else
              '(_, proven) ← checkProofOfWork uninit b current_diff;
              if negb proven then mret (alt_refused true)
              else
                valid ← prevalidate_miner_transaction c b height;
                if negb valid then mret (alt_refused true)
                else
                  d ← prev_difficulty walk mainPrev bc;
                  mret (alt_accepted (reverse (fst <$> walk))
                    {| be_bl := b; be_height := height; block_cumulative_size := 0;
                       cumulative_difficulty := u64 (d + current_diff); already_generated_coins := 0;
                       be_transactions := [] |} is_a_checkpoint)
  end.

Definition check_alternative_block (b : Block) (id : Hash) (bc : Blockchain) : outcome alt_check :=
  if negb (is_alternative_block_allowed (getCurrentBlockchainHeight (m_blocks bc)) (get_block_height b)
             (m_checkpoints bc)) then mret (alt_refused true)
  else if negb (checkBlockVersion c b bc) then mret (alt_refused true)
  else
    '(_, cumulativeSize) ← getBlockCumulativeSize b bc;
    fits ← checkCumulativeBlockSize c cumulativeSize (get_block_height b);
    if negb fits then mret (alt_refused true)
    else
      let mainPrev := bi_getBlockHeight (previousBlockHash b) (m_blockIndex bc) in
      walk ← alt_walk (size (m_alternative_chains bc)) (m_alternative_chains bc) (previousBlockHash b);
      if bool_decide (walk = []) && bool_decide (mainPrev = None) then mret alt_orphaned
      else check_connected_block b id walk mainPrev bc.

(** ** Exchanging the main chain *)

(** [iter->second]. *)
Definition alt_entry (h : Hash) (bc : Blockchain) : outcome BlockEntry :=
  match m_alternative_chains bc !! h with Some e => mret e | None => Abort end.

Fixpoint alt_entries (hs : list Hash) (bc : Blockchain) : outcome (list BlockEntry) :=
  match hs with
  | [] => mret []
  | h :: hs' => e ← alt_entry h bc; es ← alt_entries hs' bc; mret (e :: es)
  end.

(** The loops that remove [n] blocks; the blocks, the lowest first. *)
Fixpoint disconnect (n : nat) (disconnected_chain : list Block) (bc : Blockchain)
    : outcome (list Block * Blockchain) :=
  match n with
  | O => mret (disconnected_chain, bc)
  | S n' =>
      back ← blocks_back bc;
      h ← get_block_hash uninit (be_bl back);
      bc ← popBlock uninit c now h bc;
      disconnect n' (be_bl back :: disconnected_chain) bc
  end.

(** The loop that returns the original chain; [false] after the first block that is
    refused. *)
Fixpoint reconnect (original_chain : list Block) (height : Z) (bc : Blockchain) : outcome (bool * Blockchain) :=
  match original_chain with
  | [] => mret (true, bc)
  | bl :: original_chain' =>
      id ← get_block_hash uninit bl;
      let height := u32 (height + 1) in
      '(r, bvc, bc) ← pushBlock uninit c now bl id empty_bvc height bc;
      if negb (r && bvc_added_to_main_chain bvc) then mret (false, bc) else reconnect original_chain' height bc
  end.

Definition rollback_blockchain_switching (original_chain : list Block) (rollback_height : Z) (bc : Blockchain)
    : outcome (bool * Blockchain) :=
  '(_, bc) ← disconnect (Z.to_nat (blocks_size bc - rollback_height)) [] bc;
  reconnect original_chain (u32 (rollback_height - 1)) bc.

(** The loop that connects the alternative chain; the keys from the block on that is
    refused. *)
Fixpoint connect (alt_chain : list Hash) (height : Z) (bc : Blockchain) : outcome (list Hash * Blockchain) :=
  match alt_chain with
  | [] => mret ([], bc)
  | ch_ent :: alt_chain' =>
      e ← alt_entry ch_ent bc;
      id ← get_block_hash uninit (be_bl e);
      let height := u32 (height + 1) in
      '(r, bvc, bc) ← pushBlock uninit c now (be_bl e) id empty_bvc height bc;
      if negb r || negb (bvc_added_to_main_chain bvc) then mret (alt_chain, bc) else connect alt_chain' height bc
  end.

(** The loops that erase elements of the alternative chain. *)
Fixpoint erase_alternatives (hs : list Hash) (bc : Blockchain) : outcome Blockchain :=
  match hs with
  | [] => mret bc
  | h :: hs' =>
      e ← alt_entry h bc;
      '(_, orphans) ← OrphanBlocksIndex_remove uninit (be_bl e) (m_orthanBlocksIndex bc);
      erase_alternatives hs' (with_alternatives orphans (delete h (m_alternative_chains bc)) bc)
  end.

(** Whether the alternative chain has the transactions of the blocks of the main
    chain that it replaces. *)
Definition has_main_transactions (entries : list BlockEntry) (split_height : Z) (bc : Blockchain) : bool :=
  let mainChainTxHashes := concat ((λ b, transactionHashes (be_bl b)) <$>
                                   reverse (drop (Z.to_nat split_height) (m_blocks bc))) in
  let altChainTxHashes := concat ((λ b, transactionHashes (be_bl b)) <$> entries) in
  forallb (λ h, bool_decide (h ∈ altChainTxHashes)) mainChainTxHashes.

Section Switch.
(** [handle_alternative_block] without a message. *)
Variable handle : Block → Hash → block_verification_context → Blockchain
  → outcome (bool * block_verification_context * Blockchain).

(** The loop that keeps the old chain as an alternative. *)
Fixpoint push_old (disconnected_chain : list Block) (bc : Blockchain) : outcome (bool * Blockchain) :=
  match disconnected_chain with
  | [] => mret (true, bc)
  | old_ch_ent :: disconnected_chain' =>
      id ← get_block_hash uninit old_ch_ent;
      '(r, _, bc) ← handle old_ch_ent id empty_bvc bc;
      if r : bool then push_old disconnected_chain' bc else mret (false, bc)
  end.

Definition switch_to_alternative_blockchain (alt_chain : list Hash) (discard_disconnected_chain : bool)
    (bc : Blockchain) : outcome (bool * Blockchain) :=
  match alt_chain with
  | [] => mret (false, bc)
  | front :: _ =>
      e ← alt_entry front bc;
      let split_height := be_height e in
      if negb (split_height <? blocks_size bc) then mret (false, bc)
      else if split_height =? 0 then Throw "SwappedVector::operator[]"
      else
        entries ← alt_entries alt_chain bc;
        if negb (has_main_transactions entries split_height bc) then mret (false, bc)
        else
          '(disconnected_chain, bc) ← disconnect (Z.to_nat (blocks_size bc - split_height)) [] bc;
          '(refused, bc) ← connect alt_chain (u32 (split_height - 1)) bc;
          if negb (bool_decide (refused = [])) then
            '(_, bc) ← rollback_blockchain_switching disconnected_chain split_height bc;
            bc ← erase_alternatives refused bc;
            mret (false, bc)
          else
            '(r, bc) ← (if discard_disconnected_chain then mret (true, bc) else push_old disconnected_chain bc);
            if negb r then
              '(_, bc) ← rollback_blockchain_switching disconnected_chain split_height bc;
              mret (false, bc)
            else
              bc ← erase_alternatives alt_chain bc;
              mret (true, bc)
  end.
End Switch.

(** [handle_alternative_block]; [fuel] bounds how deep reorganisations are nested. *)
Fixpoint handle_alternative_block (fuel : nat) (b : Block) (id : Hash) (bvc : block_verification_context)
    (bc : Blockchain) : outcome (bool * block_verification_context * Blockchain) :=
  match fuel with
  | O => Abort
  | S fuel =>
      if get_block_height b =? 0 then mret (false, set_failed bvc, bc)
      else
        points ← load_checkpoints_from_dns records (m_checkpoints bc);
        let bc := with_checkpoints points bc in
        r ← check_alternative_block b id bc;
        match r with
        | alt_refused reported => mret (false, if reported : bool then set_failed bvc else bvc, bc)
        | alt_orphaned => mret (true, set_orphaned bvc, bc)
        | alt_accepted alt_chain bei is_a_checkpoint =>
            if bool_decide (is_Some (m_alternative_chains bc !! id)) then mret (false, bvc, bc)
            else
              orphans ← OrphanBlocksIndex_add uninit b (m_orthanBlocksIndex bc);
              let bc := with_alternatives orphans (<[id := bei]> (m_alternative_chains bc)) bc in
              let reorganize discard :=
                '(r, bc) ← switch_to_alternative_blockchain (handle_alternative_block fuel) (alt_chain ++ [id])
                             discard bc;
                mret (r, if r : bool then set_switched bvc else set_failed bvc, bc) in
              if is_a_checkpoint : bool then reorganize true
              else
                back ← blocks_back bc;
                if cumulative_difficulty back <? cumulative_difficulty bei then reorganize false
                else mret (true, bvc, bc)
        end
  end.

(** ** New blocks *)

(** [get_block_hash(b, id)]: [None] where it returns false. *)
Definition block_id (b : Block) : outcome (option Hash) :=
  r ← get_block_hashing_blob uninit b;
  match r with
  | None => mret None
  | Some ba => h ← getObjectHash cn_fast_hash serialize_BinaryArray ba; mret (Some h)
  end.

Definition addNewBlock (fuel : nat) (bl : Block) (bvc : block_verification_context) (bc : Blockchain)
    : outcome (bool * block_verification_context * Blockchain) :=
  r ← block_id bl;
  match r with
  | None => mret (false, set_failed bvc, bc)
  | Some id =>
      if haveBlock id bc then mret (false, set_exists bvc, bc)
      else
        let height := u32 (blocks_size bc) in
        tail ← getTailId (m_blocks bc) (m_blockIndex bc);
        if negb (bool_decide (previousBlockHash bl = tail))
        then handle_alternative_block fuel bl id (clear_added bvc) bc
        else pushBlock uninit c now bl id bvc (u32 (height + 1)) bc
  end.

(** [resetAndSetGenesisBlock]: the multisignature outputs and the deposits are not
    cleared. *)
Definition resetAndSetGenesisBlock (fuel : nat) (b : Block) (bc : Blockchain) : outcome (bool * Blockchain) :=
  let bc := {|
    m_blocks := []; m_blockIndex := [];
    m_tables := {| m_transactionMap := ∅; m_spent_keys := ∅; m_outputs := ∅;
                   m_multisignatureOutputs := m_multisignatureOutputs (m_tables bc); m_paymentIdIndex := [] |};
    m_depositIndex := m_depositIndex bc;
    m_upgradeDetectorV2 := m_upgradeDetectorV2 bc; m_upgradeDetectorV3 := m_upgradeDetectorV3 bc;
    m_timestampIndex := [];
    m_generatedTransactionsIndex := GeneratedTransactionsIndex_clear (m_generatedTransactionsIndex bc);
    m_orthanBlocksIndex := []; m_alternative_chains := ∅; m_checkpoints := m_checkpoints bc;
    m_current_block_cumul_sz_limit := m_current_block_cumul_sz_limit bc; m_tx_pool := m_tx_pool bc |} in
  '(_, bvc, bc) ← addNewBlock fuel b empty_bvc bc;
  mret (bvc_added_to_main_chain bvc && negb (bvc_verification_failed bvc), bc).
End AlternativeChains.

(** ** Sparse chains *)

(** The elements at 1, 2, 4, ... *)
Fixpoint alt_sparse_loop (fuel : nat) (i : Z) (alternativeChain : list Hash) : outcome (list Hash) :=
  match fuel with
  | O => Abort
  | S fuel =>
      if i <=? Z.of_nat (length alternativeChain) then
        h ← at_ alternativeChain (i - 1);
        rest ← alt_sparse_loop fuel (u64 (i * 2)) alternativeChain;
        mret (h :: rest)
      else mret []
  end.

Definition doBuildSparseChain (startBlockId : Hash) (bc : Blockchain) : outcome (list Hash) :=
  _ ← assert_ (negb (bi_size (m_blockIndex bc) =? 0));
  if bi_hasBlock startBlockId (m_blockIndex bc) then bi_buildSparseChain startBlockId (m_blockIndex bc)
  else
    walk ← alt_walk (size (m_alternative_chains bc)) (m_alternative_chains bc) startBlockId;
    match list.last walk with
    | None => Abort
    | Some (_, e) =>
        let blockchainAncestor := previousBlockHash (be_bl e) in
        sparseChain ← alt_sparse_loop 65 1 (fst <$> walk);
        _ ← assert_ (bi_hasBlock blockchainAncestor (m_blockIndex bc));
        sparseMainChain ← bi_buildSparseChain blockchainAncestor (m_blockIndex bc);
        mret (sparseChain ++ sparseMainChain)
    end.
