(* ===== verification/ChainLinks.v ===== *)
(** * The chain of blocks

    Theorems about [AlternativeChains]: the stored blocks form a chain in which each
    block has the hash of the one before it, the block index has their hashes, and
    the alternative blocks fit; all operations that take new blocks keep this
    ([chain_links_invariant]). What an alternative block and a reorganisation do to
    the main chain ([alternative_block_effect], [switch_effect]). *)

From S2P Require Import Prelude Streams CryptoNoteTypes Serialization CryptoNoteSerialization Crypto Config Currency.
From S2P Require Import Amounts Difficulty TransactionExtra FormatUtils DepositIndex BlockIndex Checkpoints UpgradeDetector.
From S2P Require Import BlockchainIndices ChainState InputCheck TransactionPool BlockRules Blockchain ChainInvariant.
From S2P Require Import AlternativeChains.

Local Open Scope Z_scope.

Section Links.
Context `{CryptoOps}.
Variable uninit : list Z.
Variable c : Currency.
Variable now : Z.
Variable records : list (list Z).

(** ** The operations on the main chain *)

(** What belongs to alternative chains is the same. *)
Definition same_alternatives (bc bc' : Blockchain) : Prop :=
  m_alternative_chains bc' = m_alternative_chains bc ∧ m_orthanBlocksIndex bc' = m_orthanBlocksIndex bc ∧
  m_checkpoints bc' = m_checkpoints bc.

#[local] Instance same_alternatives_preorder : PreOrder same_alternatives.
Proof.
  split; [done|]. intros bc1 bc2 bc3 (E1 & E2 & E3) (F1 & F2 & F3). unfold same_alternatives.
  by rewrite F1, F2, F3.
Qed.

(** A block was appended. *)
Definition appended (b : Block) (id : Hash) (bc bc' : Blockchain) : Prop :=
  ∃ entry d,
    m_blocks bc' = m_blocks bc ++ [entry] ∧ m_blockIndex bc' = m_blockIndex bc ++ [id] ∧ be_bl entry = b ∧
    be_height entry = blocks_size bc ∧ blocks_size bc + 1 < 2 ^ 32 ∧ (id ∉ m_blockIndex bc) ∧
    getTailId (m_blocks bc) (m_blockIndex bc) = Ret (previousBlockHash b) ∧
    inputs (baseTransaction b) = [InBase {| bi_blockIndex := blocks_size bc |}] ∧
    d ≠ 0 ∧ cumulative_difficulty entry = u64 (d + back_difficulty bc).

Definition same_main (bc bc' : Blockchain) : Prop :=
  m_blocks bc' = m_blocks bc ∧ m_blockIndex bc' = m_blockIndex bc.

Lemma pushBlock_checked_main b txs id bvc bc ok bvc' bc' :
  get_block_hash uninit b = Ret id →
  pushBlock_checked uninit c now b txs id bvc bc = Ret (ok, bvc', bc') →
  same_alternatives bc bc' ∧ if ok : bool then appended b id bc bc' else same_main bc bc'.
Proof.
  intros Hid E. unfold pushBlock_checked in E. apply outcome_bind_ret in E as (r & Er & E).
  destruct r as [reported|d]; [by injection E as <- _ <-|].
  apply outcome_bind_ret in E as (mh & _ & E). cbv zeta in E. apply outcome_bind_ret in E as ([e t] & _ & E).
  apply outcome_bind_ret in E as (size & _ & E). apply outcome_bind_ret in E as ([valid ps] & _ & E).
  destruct valid; cbn [negb] in E; [|apply outcome_bind_ret in E as (t' & _ & E); by injection E as <- _ <-].
  apply outcome_bind_ret in E as (fits & _ & E). destruct fits; cbn [negb] in E; [|by injection E as <- _ <-].
  apply outcome_bind_ret in E as (r & _ & E).
  destruct r as [[reward emission]|]; [|apply outcome_bind_ret in E as (t' & _ & E); by injection E as <- _ <-].
  apply outcome_bind_ret in E as (bc1 & E1 & E). apply outcome_bind_ret in E as (bc2 & E2 & E).
  apply outcome_bind_ret in E as (bc3 & E3 & E). injection E as <- _ <-.
  destruct (stored_fields _ _ _ _ _ _ _ _ _ E1 E2 E3) as (bh & gok & Ebh & Eblocks & Eindex & Etables & Edep & Etime &
    Egen & Esz & _ & _ & Eorph & Ealt & Ecp & _). split; [done|].
  cbn [be_bl] in *. rewrite Hid in Ebh. injection Ebh as <-.
  destruct (check_block_to_push_inr _ _ _ _ _ _ _ Er) as (Hhas & Htail & Hd & _ & Hpre).
  apply prevalidated_base in Hpre. unfold bi_hasBlock in Hhas. apply bool_decide_eq_false in Hhas.
  assert (blocks_size bc + 1 < 2 ^ 32) as Hs.
  { unfold blocks_size in *. rewrite Eblocks, length_app in Esz. cbn in Esz. unfold bi_size, u32, wrap in Esz.
    pose proof (Z.mod_pos_bound (Z.of_nat (length (m_blockIndex bc3))) (2 ^ 32) ltac:(lia)). lia. }
  rewrite u32_small in * by (unfold in_range, blocks_size in *; lia).
  eexists _, d. rewrite Eblocks, Eindex. unfold bi_push. rewrite bool_decide_eq_false_2 by done. by split_and!.
Qed.

Lemma saveTransactions_main txs height bc bc' :
  saveTransactions uninit c now txs height bc = Ret bc' → ∃ p, bc' = with_pool p bc.
Proof. unfold saveTransactions. intros E. apply outcome_bind_ret in E as (p & _ & E). injection E as <-. by exists p. Qed.

Lemma pushBlock_main b id bvc height bc ok bvc' bc' :
  get_block_hash uninit b = Ret id →
  pushBlock uninit c now b id bvc height bc = Ret (ok, bvc', bc') →
  same_alternatives bc bc' ∧ if ok : bool then appended b id bc bc' else same_main bc bc'.
Proof.
  intros Hid E. unfold pushBlock in E. apply outcome_bind_ret in E as ([r p] & _ & E). cbv zeta in E.
  destruct r as [txs|]; [|by injection E as <- _ <-].
  apply outcome_bind_ret in E as ([[ok1 bvc1] bc1] & E1 & E).
  apply pushBlock_checked_main in E1 as [Ha Hm]; [|done]. destruct ok1; [by injection E as <- _ <-|].
  apply outcome_bind_ret in E as (bc2 & E2 & E). injection E as <- _ <-.
  apply saveTransactions_main in E2 as (p' & ->). by split.
Qed.

Lemma popBlock_main id bc bc' :
  m_blocks bc ≠ [] → popBlock uninit c now id bc = Ret bc' →
  same_alternatives bc bc' ∧ m_blocks bc' = take (length (m_blocks bc) - 1) (m_blocks bc) ∧
  m_blockIndex bc' = bi_pop (m_blockIndex bc).
Proof.
  intros Hne E. unfold popBlock in E. destruct (list.last (m_blocks bc)) as [back|] eqn:El; [|by apply last_None in El].
  destruct (be_transactions back); [done|]. apply outcome_bind_ret in E as (bc1 & E1 & E).
  apply saveTransactions_main in E1 as (p & ->). do 2 (apply outcome_bind_ret in E as (? & _ & E)).
  destruct (TimestampBlocksIndex_remove _ _ _). apply outcome_bind_ret in E as ([? ?] & _ & E).
  do 4 (apply outcome_bind_ret in E as (? & _ & E)). injection E as <-. by split_and!.
Qed.

(** ** The invariant *)

(** The block before the one at height [i]. *)
Definition hash_before (i : nat) (index : BlockIndex) : Hash :=
  match i with O => NULL_HASH | S j => default NULL_HASH (index !! j) end.

(** The block index has the hashes of the stored blocks, all different; each block
    stands at its height, names it in the miner's transaction and has the hash of the
    block before. *)
Definition linked (bc : Blockchain) : Prop :=
  Forall2 (λ e h, get_block_hash uninit (be_bl e) = Ret h) (m_blocks bc) (m_blockIndex bc) ∧
  NoDup (m_blockIndex bc) ∧
  ∀ i e, m_blocks bc !! i = Some e →
    be_height e = Z.of_nat i ∧ inputs (baseTransaction (be_bl e)) = [InBase {| bi_blockIndex := Z.of_nat i |}] ∧
    previousBlockHash (be_bl e) = hash_before i (m_blockIndex bc).

(** Alternative blocks are stored under their hashes and at the heights they name. *)
Definition alternatives_ok (bc : Blockchain) : Prop :=
  ∀ h e, m_alternative_chains bc !! h = Some e →
    get_block_hash uninit (be_bl e) = Ret h ∧ be_height e = get_block_height (be_bl e) ∧ 1 <= be_height e.

Definition links (bc : Blockchain) : Prop := linked bc ∧ alternatives_ok bc.

Lemma linked_same bc bc' : same_main bc bc' → linked bc → linked bc'.
Proof. intros [E1 E2]. unfold linked. by rewrite E1, E2. Qed.

Lemma alternatives_same bc bc' : same_alternatives bc bc' → alternatives_ok bc → alternatives_ok bc'.
Proof. intros (E & _ & _). unfold alternatives_ok. by rewrite E. Qed.

Lemma linked_length bc : linked bc → length (m_blockIndex bc) = length (m_blocks bc).
Proof. intros (Hf & _). symmetry. by eapply Forall2_length. Qed.

Lemma linked_pop bc bc' :
  linked bc → m_blocks bc' = take (length (m_blocks bc) - 1) (m_blocks bc) →
  m_blockIndex bc' = bi_pop (m_blockIndex bc) → linked bc'.
Proof.
  intros Hlk Eb Ei. pose proof (linked_length _ Hlk) as Hl. destruct Hlk as (Hf & Hnd & Hp).
  unfold bi_pop in Ei. rewrite Hl in Ei. unfold linked. rewrite Eb, Ei. split_and!.
  - by apply Forall2_take.
  - eapply sublist_NoDup; [exact Hnd|apply sublist_take].
  - intros i e Hi. apply lookup_take_Some in Hi as [Hi Hlt]. destruct (Hp i e Hi) as (H1 & H2 & H3).
    split_and!; [done..|]. rewrite H3. destruct i as [|j]; [done|]. cbn. by rewrite lookup_take_lt by lia.
Qed.

Lemma linked_append b id bc bc' :
  get_block_hash uninit b = Ret id → appended b id bc bc' → linked bc → linked bc'.
Proof.
  intros Hid (entry & d & Eb & Ei & Hbl & Hh & Hs & Hnew & Htail & Hin & _) Hlk.
  pose proof (linked_length _ Hlk) as Hl. destruct Hlk as (Hf & Hnd & Hp). unfold linked. rewrite Eb, Ei. split_and!.
  - apply Forall2_app; [done|]. constructor; [by rewrite Hbl|constructor].
  - apply list.NoDup_app. split_and!; [done| |apply list.NoDup_singleton].
    intros h Hh1 Hh2%list_elem_of_singleton. by subst.
  - intros i e Hi. apply lookup_snoc_Some in Hi as [[Hi He]|[-> <-]].
    + destruct (Hp i e He) as (H1 & H2 & H3). split_and!; [done..|]. rewrite H3. destruct i as [|j]; [done|].
      cbn. by rewrite lookup_app_l by lia.
    + rewrite Hbl. split_and!; [done..|]. unfold getTailId in Htail. unfold hash_before.
      destruct (length (m_blocks bc)) as [|j] eqn:El; [by injection Htail|].
      rewrite bool_decide_eq_false_2 in Htail by done. unfold bi_getTailId in Htail.
      rewrite last_lookup, Hl in Htail. cbn in Htail. rewrite lookup_app_l by lia.
      destruct (m_blockIndex bc !! j); [by injection Htail as ->|done].
Qed.

Lemma pushBlock_links b id bvc height bc ok bvc' bc' :
  get_block_hash uninit b = Ret id → links bc →
  pushBlock uninit c now b id bvc height bc = Ret (ok, bvc', bc') → links bc'.
Proof.
  intros Hid [Hl Ha] E. apply pushBlock_main in E as [Hs Hm]; [|done]. split; [|by eapply alternatives_same].
  destruct ok; [by eapply linked_append|by eapply linked_same].
Qed.

(** A block that is stored is reported as added. *)
Lemma pushBlock_added b id bvc height bc bvc' bc' :
  pushBlock uninit c now b id bvc height bc = Ret (true, bvc', bc') → bvc_added_to_main_chain bvc' = true.
Proof.
  intros E. unfold pushBlock in E. apply outcome_bind_ret in E as ([[txs|] p] & _ & E); cbv zeta in E; [|done].
  apply outcome_bind_ret in E as ([[[] bvc1] bc1] & E1 & E).
  2: { apply outcome_bind_ret in E as (? & _ & E). done. }
  injection E as <- _. unfold pushBlock_checked in E1. apply outcome_bind_ret in E1 as ([r|d] & _ & E1); [done|].
  do 4 (apply outcome_bind_ret in E1 as (? & _ & E1); repeat match goal with x : _ * _ |- _ => destruct x end; cbv zeta in E1).
  case_bool_in E1; [apply outcome_bind_ret in E1 as (? & _ & E1); done|].
  apply outcome_bind_ret in E1 as (fits & _ & E1). case_bool_in E1; [done|].
  apply outcome_bind_ret in E1 as ([[? ?]|] & _ & E1); [|apply outcome_bind_ret in E1 as (? & _ & E1); done].
  do 3 (apply outcome_bind_ret in E1 as (? & _ & E1)). by injection E1 as <- _.
Qed.

(** ** Loops of a reorganisation *)

Lemma disconnect_spec n : ∀ acc bc l bc',
  links bc → disconnect uninit c now n acc bc = Ret (l, bc') →
  links bc' ∧ same_alternatives bc bc' ∧ (n <= length (m_blocks bc))%nat ∧
  m_blocks bc' = take (length (m_blocks bc) - n) (m_blocks bc) ∧
  l = (be_bl <$> drop (length (m_blocks bc) - n) (m_blocks bc)) ++ acc.
Proof.
  induction n as [|n IH]; intros acc bc l bc' Hl E; cbn [disconnect] in E.
  { injection E as <- <-. rewrite Nat.sub_0_r, take_ge, drop_ge by lia. split_and!; [apply Hl..|done|lia|done|done]. }
  apply outcome_bind_ret in E as (back & Eb & E). apply outcome_bind_ret in E as (h & Eh & E).
  apply outcome_bind_ret in E as (bc1 & E1 & E). unfold blocks_back in Eb.
  destruct (list.last (m_blocks bc)) as [b0|] eqn:El; [injection Eb as <-|done].
  apply list.last_Some in El as (bs & El).
  destruct (popBlock_main _ _ _ ltac:(rewrite El; by destruct bs) E1) as (Ha & Eb & Ei).
  destruct Hl as [Hl Hal]. assert (links bc1) as Hl1 by (split; [by eapply linked_pop|by eapply alternatives_same]).
  destruct (IH _ _ _ _ Hl1 E) as (Hl' & Ha' & Hn & Eb' & El'). split; [done|]. split; [by etrans|].
  rewrite El, length_app in Eb |- *. cbn [length] in *. rewrite Nat.add_sub, take_app_length in Eb. rewrite Eb in *.
  split; [lia|]. replace (length bs + 1 - S n)%nat with (length bs - n)%nat by lia.
  rewrite take_app_le, drop_app_le by lia. split; [done|]. rewrite El', fmap_app. cbn. by rewrite <- app_assoc.
Qed.

Lemma alt_entries_same hs bc bc' : same_alternatives bc bc' → alt_entries hs bc' = alt_entries hs bc.
Proof.
  intros (E & _). induction hs as [|h hs IH]; [done|]. cbn [alt_entries]. unfold alt_entry. by rewrite E, IH.
Qed.

Lemma connect_spec alt : ∀ height bc rest bc',
  links bc → connect uninit c now alt height bc = Ret (rest, bc') →
  links bc' ∧ same_alternatives bc bc' ∧ ∃ connected es new,
    alt = connected ++ rest ∧ alt_entries connected bc = Ret es ∧ m_blocks bc' = m_blocks bc ++ new ∧
    be_bl <$> new = be_bl <$> es.
Proof.
  induction alt as [|h alt IH]; intros height bc rest bc' Hl E; cbn [connect] in E.
  { injection E as <- <-. split_and!; [apply Hl..|done|]. exists [], [], []. split_and!; rewrite ?app_nil_r; done. }
  apply outcome_bind_ret in E as (e & Ee & E). apply outcome_bind_ret in E as (id & Eid & E).
  apply outcome_bind_ret in E as ([[r bvc] bc1] & E1 & E). cbv zeta in E.
  pose proof (pushBlock_links _ _ _ _ _ _ _ _ Eid Hl E1) as Hl1.
  destruct (pushBlock_main _ _ _ _ _ _ _ _ Eid E1) as [Ha Hm]. destruct r; cbn [negb orb] in E.
  - rewrite (pushBlock_added _ _ _ _ _ _ _ E1) in E. cbn [negb] in E.
    destruct (IH _ _ _ _ Hl1 E) as (Hl' & Ha' & connected & es & new & -> & Ees & Eb & Enew).
    split; [done|]. split; [by etrans|]. destruct Hm as (entry & d & Eb1 & _ & Hbl & _).
    exists (h :: connected), (e :: es), (entry :: new). split; [done|]. cbn [alt_entries]. rewrite Ee. cbn [mbind outcome_bind].
    rewrite (alt_entries_same _ _ _ Ha) in Ees. rewrite Ees. split; [done|]. rewrite Eb, Eb1, <- app_assoc. split; [done|]. cbn. by rewrite Hbl, Enew.
  - injection E as <- <-. split; [done|]. split; [done|]. exists [], [], []. destruct Hm as [-> _].
    split_and!; rewrite ?app_nil_r; done.
Qed.

Lemma reconnect_spec l : ∀ height bc ok bc',
  links bc → reconnect uninit c now l height bc = Ret (ok, bc') →
  links bc' ∧ same_alternatives bc bc' ∧ ∃ back new rest,
    l = back ++ rest ∧ m_blocks bc' = m_blocks bc ++ new ∧ be_bl <$> new = back ∧ (ok = true → rest = []).
Proof.
  induction l as [|b l IH]; intros height bc ok bc' Hl E; cbn [reconnect] in E.
  { injection E as <- <-. split_and!; [apply Hl..|done|]. exists [], [], []. split_and!; rewrite ?app_nil_r; done. }
  apply outcome_bind_ret in E as (id & Eid & E). apply outcome_bind_ret in E as ([[r bvc] bc1] & E1 & E). cbv zeta in E.
  pose proof (pushBlock_links _ _ _ _ _ _ _ _ Eid Hl E1) as Hl1.
  destruct (pushBlock_main _ _ _ _ _ _ _ _ Eid E1) as [Ha Hm]. destruct r; cbn [negb andb] in E.
  - rewrite (pushBlock_added _ _ _ _ _ _ _ E1) in E. cbn [negb] in E.
    destruct (IH _ _ _ _ Hl1 E) as (Hl' & Ha' & back & new & rest & -> & Eb & Enew & Hok).
    split; [done|]. split; [by etrans|]. destruct Hm as (entry & d & Eb1 & _ & Hbl & _).
    exists (b :: back), (entry :: new), rest. rewrite Eb, Eb1, <- app_assoc. split_and!; [done..| |done].
    cbn. by rewrite Hbl, Enew.
  - injection E as <- <-. split; [done|]. split; [done|]. exists [], [], (b :: l). destruct Hm as [-> _].
    split_and!; rewrite ?app_nil_r; done.
Qed.

Lemma erase_spec hs : ∀ bc bc',
  erase_alternatives uninit hs bc = Ret bc' →
  ∃ orphans alts, bc' = with_alternatives orphans alts bc ∧ alts ⊆ m_alternative_chains bc ∧
    ∀ h, h ∈ hs → alts !! h = None.
Proof.
  induction hs as [|h hs IH]; intros bc bc' E; cbn [erase_alternatives] in E.
  { injection E as <-. exists (m_orthanBlocksIndex bc), (m_alternative_chains bc). split; [by destruct bc|].
    split; [done|]. by intros h ?%not_elem_of_nil. }
  apply outcome_bind_ret in E as (e & _ & E). apply outcome_bind_ret in E as ([? o] & _ & E).
  apply IH in E as (orphans & alts & -> & Hsub & Hnone). exists orphans, alts. split; [done|]. cbn in Hsub. split.
  - etrans; [exact Hsub|]. apply delete_subseteq.
  - intros h' [->|Hin]%elem_of_cons; [|by apply Hnone]. eapply lookup_weaken_None; [|exact Hsub].
    apply lookup_delete_eq.
Qed.

Lemma rollback_spec original height bc ok bc' :
  links bc → 0 <= height → rollback_blockchain_switching uninit c now original height bc = Ret (ok, bc') →
  links bc' ∧ ∃ back new rest,
    original = back ++ rest ∧ m_blocks bc' = take (Z.to_nat height) (m_blocks bc) ++ new ∧ be_bl <$> new = back ∧
    (ok = true → rest = []).
Proof.
  intros Hl Hh E. unfold rollback_blockchain_switching in E. apply outcome_bind_ret in E as ([l bc1] & E1 & E).
  apply disconnect_spec in E1 as (Hl1 & _ & _ & Eb1 & _); [|done].
  apply reconnect_spec in E as (Hl' & _ & back & new & rest & -> & Eb & Enew & Hok); [|done].
  split; [done|]. exists back, new, rest. split_and!; [done| |done..]. rewrite Eb, Eb1. f_equal. unfold blocks_size.
  destruct (decide (Z.to_nat height <= length (m_blocks bc))%nat); [f_equal; lia|by rewrite !take_ge by lia].
Qed.

Lemma erase_links hs bc bc' : links bc → erase_alternatives uninit hs bc = Ret bc' → links bc'.
Proof.
  intros [Hl Ha] E. apply erase_spec in E as (o & alts & -> & Hsub & _). split; [by eapply linked_same; [|exact Hl]|].
  intros h e Hh. apply Ha. by eapply lookup_weaken.
Qed.

(** ** Reorganisations *)

Section Switch.
Variable handle : Block → Hash → block_verification_context → Blockchain
  → outcome (bool * block_verification_context * Blockchain).
Hypothesis handle_links : ∀ b id bvc bc ok bvc' bc',
  get_block_hash uninit b = Ret id → links bc → handle b id bvc bc = Ret (ok, bvc', bc') → links bc'.
(** A block for which the main chain may change. *)
Variable better : Block → Hash → Blockchain → Prop.
Hypothesis handle_keeps : ∀ b id bvc bc ok bvc' bc',
  handle b id bvc bc = Ret (ok, bvc', bc') → m_blocks bc' = m_blocks bc ∨ better b id bc.

Lemma push_old_links l : ∀ bc ok bc', links bc → push_old uninit handle l bc = Ret (ok, bc') → links bc'.
Proof.
  induction l as [|b l IH]; intros bc ok bc' Hl E; cbn [push_old] in E; [by injection E as <- <-|].
  apply outcome_bind_ret in E as (id & Eid & E). apply outcome_bind_ret in E as ([[r bvc] bc1] & E1 & E).
  pose proof (handle_links _ _ _ _ _ _ _ Eid Hl E1) as Hl1. destruct r; [by eapply IH|by injection E as <- <-].
Qed.

(** The alternative blocks have every transaction of the main chain from a height on. *)
Definition carries_over (entries : list BlockEntry) (height : Z) (bc : Blockchain) : Prop :=
  ∀ i b h, height <= Z.of_nat i → m_blocks bc !! i = Some b → h ∈ transactionHashes (be_bl b) →
  ∃ e, e ∈ entries ∧ h ∈ transactionHashes (be_bl e).

Lemma elem_of_concat_map {A} (f : A → list Hash) (l : list A) h : h ∈ concat (f <$> l) ↔ ∃ x, x ∈ l ∧ h ∈ f x.
Proof. rewrite list_elem_of_In, <- List.flat_map_concat_map, List.in_flat_map. by setoid_rewrite <- list_elem_of_In. Qed.

Lemma has_main_transactions_spec entries height bc :
  has_main_transactions entries height bc = true → carries_over entries height bc.
Proof.
  unfold has_main_transactions. rewrite List.forallb_forall. intros Hall i b h Hi Hb Hh. specialize (Hall h).
  rewrite bool_decide_eq_true, <- list_elem_of_In, !elem_of_concat_map in Hall. apply Hall. exists b. split; [|done].
  apply elem_of_reverse, (list_elem_of_lookup_2 _ (i - Z.to_nat height)). rewrite lookup_drop, <- Hb. f_equal. lia.
Qed.

(** The blocks up to the split and those of the alternative chain. *)
Definition switched (alt_chain : list Hash) (bc bc' : Blockchain) : Prop :=
  ∃ e es, alt_entries alt_chain bc = Ret (e :: es) ∧ 1 <= be_height e < blocks_size bc ∧
    carries_over (e :: es) (be_height e) bc ∧
    be_bl <$> m_blocks bc' =
      (be_bl <$> take (Z.to_nat (be_height e)) (m_blocks bc)) ++ (be_bl <$> e :: es) ∧
    ∀ h, h ∈ alt_chain → m_alternative_chains bc' !! h = None.

(** The main chain, possibly without its last blocks. *)
Definition shortened (bc bc' : Blockchain) : Prop :=
  ∃ rest, be_bl <$> m_blocks bc = (be_bl <$> m_blocks bc') ++ rest.

(** After a failed reorganisation the blocks of the main chain are connected again. *)
Lemma rolled_back h new bc bc2 ok bc3 :
  links bc2 → 0 <= h <= blocks_size bc → m_blocks bc2 = take (Z.to_nat h) (m_blocks bc) ++ new →
  rollback_blockchain_switching uninit c now (be_bl <$> drop (Z.to_nat h) (m_blocks bc)) h bc2 = Ret (ok, bc3) →
  links bc3 ∧ shortened bc bc3.
Proof.
  intros Hl Hh Eb E. apply rollback_spec in E as (Hl3 & back & new' & rest & Eold & Eb3 & Enew & _); [|done|lia].
  split; [done|]. exists rest. unfold blocks_size in Hh. rewrite Eb3, Eb, take_app_le, take_take, Nat.min_id, fmap_app, Enew.
  - rewrite <- app_assoc, <- Eold, <- fmap_app. by rewrite take_drop.
  - rewrite length_take. lia.
Qed.

(** The main chain stays, unless one of the blocks is better than it. *)
Lemma push_old_keeps l : ∀ bc ok bc',
  push_old uninit handle l bc = Ret (ok, bc') →
  m_blocks bc' = m_blocks bc ∨
  ∃ b id bc1, b ∈ l ∧ get_block_hash uninit b = Ret id ∧ m_blocks bc1 = m_blocks bc ∧ better b id bc1.
Proof.
  induction l as [|b l IH]; intros bc ok bc' E; cbn [push_old] in E; [injection E as <- <-; by left|].
  apply outcome_bind_ret in E as (id & Eid & E). apply outcome_bind_ret in E as ([[r bvc] bc1] & E1 & E).
  apply handle_keeps in E1 as [E1|Hb]; [|right; exists b, id, bc; split_and!; [by left|done..]].
  destruct r; [|injection E as <- <-; by left].
  destruct (IH _ _ _ E) as [Eb|(b' & id' & bc2 & Hin & Eid' & Eb & Hb)]; [left; congruence|].
  right. exists b', id', bc2. split_and!; [by right|done|congruence|done].
Qed.

Lemma alt_entries_cons front alt bc es e :
  alt_entry front bc = Ret e → alt_entries (front :: alt) bc = Ret es → ∃ es', es = e :: es'.
Proof.
  intros Ee E. cbn [alt_entries] in E. rewrite Ee in E. cbn [mbind outcome_bind] in E.
  apply outcome_bind_ret in E as (es' & _ & E). injection E as <-. by exists es'.
Qed.

(** A block of the old chain, which is kept as an alternative, is itself better than
    the new main chain. *)
Definition nested (alt : list Hash) (discard : bool) (bc : Blockchain) : Prop :=
  discard = false ∧ ∃ e es b id bc1,
    alt_entries alt bc = Ret (e :: es) ∧
    be_bl <$> m_blocks bc1 =
      (be_bl <$> take (Z.to_nat (be_height e)) (m_blocks bc)) ++ (be_bl <$> e :: es) ∧
    b ∈ be_bl <$> drop (Z.to_nat (be_height e)) (m_blocks bc) ∧ get_block_hash uninit b = Ret id ∧ better b id bc1.

(** The end of a reorganisation, after the alternative chain was connected. *)
Lemma switch_finish alt discard e es new bc bc2 ok bc' :
  links bc2 → alt_entries alt bc = Ret (e :: es) → 1 <= be_height e < blocks_size bc →
  has_main_transactions (e :: es) (be_height e) bc = true →
  m_blocks bc2 = take (Z.to_nat (be_height e)) (m_blocks bc) ++ new → be_bl <$> new = be_bl <$> e :: es →
  let old := be_bl <$> drop (Z.to_nat (be_height e)) (m_blocks bc) in
  ('(r, bc) ← (if discard : bool then (mret (true, bc2) : outcome (bool * Blockchain))
               else push_old uninit handle old bc2);
   if negb r then
     '(_, bc) ← rollback_blockchain_switching uninit c now old (be_height e) bc;
     mret (false, bc)
   else
     bc ← erase_alternatives uninit alt bc;
     mret (true, bc)) = Ret (ok, bc') →
  links bc' ∧ ((if ok : bool then switched alt bc bc' else shortened bc bc') ∨ nested alt discard bc).
Proof.
  intros Hl2 Ees Hh Hm Eb2 Enew old E. apply outcome_bind_ret in E as ([r bc3] & E3 & E).
  assert (links bc3) as Hl3 by (destruct discard; [by injection E3 as _ <-|by eapply push_old_links]).
  assert (m_blocks bc3 = take (Z.to_nat (be_height e)) (m_blocks bc) ++ new ∨ nested alt discard bc) as Hkeep.
  { rewrite <- Eb2. destruct discard; [injection E3 as _ <-; by left|].
    destruct (push_old_keeps _ _ _ _ E3) as [|(b & id & bc1 & Hin & Eid & Eb1 & Hb)]; [by left|right].
    split; [done|]. exists e, es, b, id, bc1. split_and!; [done| |done..]. by rewrite Eb1, Eb2, fmap_app, Enew. }
  destruct r; cbn [negb] in E.
  - apply outcome_bind_ret in E as (bc4 & E4 & E). injection E as <- <-. split; [by eapply erase_links|].
    destruct Hkeep as [Eb3|]; [left|by right]. apply erase_spec in E4 as (o & alts & -> & _ & Herase). exists e, es.
    split_and!; [done|lia..|by apply has_main_transactions_spec| |exact Herase]. cbn [with_alternatives m_blocks]. by rewrite Eb3, fmap_app, Enew.
  - apply outcome_bind_ret in E as ([r bc4] & E4 & E). injection E as <- <-.
    split; [by eapply rollback_spec in E4; [apply E4|..]; [done|lia]|]. destruct Hkeep as [Eb3|]; [left|by right].
    by destruct (rolled_back (be_height e) _ bc _ _ _ Hl3 ltac:(lia) Eb3 E4).
Qed.

Lemma shortened_refl bc : shortened bc bc.
Proof. exists []. by rewrite app_nil_r. Qed.

Lemma switch_cases alt discard bc ok bc' :
  links bc → switch_to_alternative_blockchain uninit c now handle alt discard bc = Ret (ok, bc') →
  links bc' ∧ ((if ok : bool then switched alt bc bc' else shortened bc bc') ∨ nested alt discard bc).
Proof.
  intros Hl E. unfold switch_to_alternative_blockchain in E. pose proof (shortened_refl bc) as Hs0.
  destruct alt as [|front alt]; [injection E as <- <-; by split; [|left]|].
  apply outcome_bind_ret in E as (e & Ee & E). cbv zeta in E. case_bool_in E; [injection E as <- <-; by split; [|left]|].
  case_bool_in E; [done|]. apply outcome_bind_ret in E as (es & Ees & E).
  destruct (has_main_transactions es (be_height e) bc) eqn:Hm; cbn [negb] in E; [|injection E as <- <-; by split; [|left]].
  apply outcome_bind_ret in E as ([old bc1] & E1 & E). apply outcome_bind_ret in E as ([refused bc2] & E2 & E).
  assert (1 <= be_height e) as Hh.
  { destruct Hl as [_ Ha]. unfold alt_entry in Ee. destruct (m_alternative_chains bc !! front) as [e0|] eqn:E0; [|done].
    injection Ee as ->. apply (Ha _ _ E0). }
  bool_to_prop. apply disconnect_spec in E1 as (Hl1 & Ha1 & Hn & Eb1 & Eold); [|done].
  rewrite app_nil_r in Eold. unfold blocks_size in Eb1, Eold, Hn.
  replace (length (m_blocks bc) - Z.to_nat (Z.of_nat (length (m_blocks bc)) - be_height e))%nat
    with (Z.to_nat (be_height e)) in Eb1, Eold by (unfold blocks_size in *; lia).
  apply connect_spec in E2 as (Hl2 & Ha2 & connected & es1 & new & Ealt & Ees1 & Eb2 & Enew); [|done].
  rewrite Eold in E. rewrite Eb1 in Eb2. destruct (bool_decide (refused = [])) eqn:Er; cbn [negb] in E.
  - apply bool_decide_eq_true in Er as ->. rewrite app_nil_r in Ealt. subst connected.
    rewrite (alt_entries_same _ _ _ Ha1), Ees in Ees1. injection Ees1 as <-.
    destruct (alt_entries_cons _ _ _ _ _ Ee Ees) as (es' & ->). eapply switch_finish; try done.
  - apply outcome_bind_ret in E as ([r bc3] & E3 & E). apply outcome_bind_ret in E as (bc4 & E4 & E).
    injection E as <- <-. destruct (rolled_back (be_height e) _ bc _ _ _ Hl2 ltac:(lia) Eb2 E3) as [Hl3 Hs].
    split; [by eapply erase_links|]. left. by apply erase_spec in E4 as (o & alts & -> & _).
Qed.
End Switch.

(** ** Alternative blocks *)

(** The cumulative difficulty of a block behind a block of an alternative chain or of
    the main chain. *)
Definition alternative_difficulty (b : Block) (bc : Blockchain) (total : Z) : Prop :=
  ∃ walk d current,
    alt_walk (size (m_alternative_chains bc)) (m_alternative_chains bc) (previousBlockHash b) = Ret walk ∧
    prev_difficulty walk (bi_getBlockHeight (previousBlockHash b) (m_blockIndex bc)) bc = Ret d ∧
    get_next_difficulty_for_alternative_chain c (reverse (snd <$> walk)) (get_block_height b) bc = Ret current ∧
    current ≠ 0 ∧ total = u64 (d + current).

(** A block that stands at a checkpoint with its hash, or whose chain has a greater
    cumulative difficulty than the main chain. *)
Definition better (b : Block) (id : Hash) (bc : Blockchain) : Prop :=
  ∃ points total,
    load_checkpoints_from_dns records (m_checkpoints bc) = Ret points ∧
    alternative_difficulty b (with_checkpoints points bc) total ∧
    (map_find (get_block_height b) points = Some id ∨
     ∃ back, list.last (m_blocks bc) = Some back ∧ cumulative_difficulty back < total).

Lemma accepted_entry b id bc alt bei cp :
  check_alternative_block uninit c b id bc = Ret (alt_accepted alt bei cp) →
  be_bl bei = b ∧ be_height bei = get_block_height b ∧ 0 <= be_height bei ∧
  map_find (get_block_height b) (m_checkpoints bc) = (if cp then Some id else None) ∧
  alternative_difficulty b bc (cumulative_difficulty bei).
Proof.
  intros E. unfold check_alternative_block in E. case_bool_in E; [done|]. case_bool_in E; [done|].
  apply outcome_bind_ret in E as ([? size] & _ & E). apply outcome_bind_ret in E as (fits & _ & E).
  case_bool_in E; [done|]. cbv zeta in E. apply outcome_bind_ret in E as (walk & Ew & E). case_bool_in E; [done|].
  unfold check_connected_block in E. apply outcome_bind_ret in E as ([ts|] & _ & E); [|done].
  case_bool_in E; [done|]. cbv zeta in E. destruct (check_block _ _ _) as [good cp'] eqn:Ec.
  destruct good; cbn [negb] in E; [|done].
  apply outcome_bind_ret in E as (tag & _ & E). case_bool_in E; [done|].
  apply outcome_bind_ret in E as (d & Ed & E). case_bool_in E; [done|].
  apply outcome_bind_ret in E as ([? proven] & _ & E). case_bool_in E; [done|].
  apply outcome_bind_ret in E as (valid & Ev & E). case_bool_in E; [done|].
  apply outcome_bind_ret in E as (d' & Ed' & E). injection E as <- <- <-. cbn [be_bl be_height cumulative_difficulty].
  split; [done|]. destruct valid; [|done]. apply prevalidated_base in Ev.
  assert (get_block_height b = u32 (match walk with (_, prev) :: _ => be_height prev + 1
    | [] => default 0 (bi_getBlockHeight (previousBlockHash b) (m_blockIndex bc)) + 1 end)) as Hh
    by (unfold get_block_height; by rewrite Ev).
  split; [done|]. split; [apply Z.mod_pos_bound; lia|]. rewrite <- Hh in *. split.
  - unfold check_block in Ec. destruct (map_find _ _) as [h|]; [|by injection Ec as <-].
    injection Ec as Ec <-. apply bool_decide_eq_true in Ec. by subst.
  - bool_to_prop. exists walk, d', d. by split_and!.
Qed.

(** Only checkpoints and alternative blocks differ. *)
Definition only_alternatives (bc bc' : Blockchain) : Prop :=
  ∃ points orphans alts, bc' = with_alternatives orphans alts (with_checkpoints points bc).

(** The block is stored among the alternative ones, because it is no better than the
    main chain, or it is not stored. *)
Definition filed (b : Block) (id : Hash) (bc bc' : Blockchain) : Prop :=
  m_alternative_chains bc' = m_alternative_chains bc ∨
  ∃ bei back, m_alternative_chains bc' = <[id := bei]> (m_alternative_chains bc) ∧ be_bl bei = b ∧
    be_height bei = get_block_height b ∧ 1 <= be_height bei ∧
    map_find (get_block_height b) (m_checkpoints bc') = None ∧
    alternative_difficulty b (with_checkpoints (m_checkpoints bc') bc) (cumulative_difficulty bei) ∧
    list.last (m_blocks bc) = Some back ∧ cumulative_difficulty bei <= cumulative_difficulty back.

(** A reorganisation to the chain of the block was tried. *)
Definition reorganized (fuel : nat) (b : Block) (id : Hash) (bvc : block_verification_context) (bc : Blockchain)
    (ok : bool) (bvc' : block_verification_context) (bc' : Blockchain) : Prop :=
  better b id bc ∧ ∃ alt discard bei bc1,
    only_alternatives bc bc1 ∧ m_alternative_chains bc1 = <[id := bei]> (m_alternative_chains bc) ∧ be_bl bei = b ∧
    be_height bei = get_block_height b ∧ 1 <= be_height bei ∧
    switch_to_alternative_blockchain uninit c now (handle_alternative_block uninit c now records fuel) (alt ++ [id])
      discard bc1 = Ret (ok, bc') ∧
    bvc' = if ok then set_switched bvc else set_failed bvc.

(** How [handle_alternative_block] ends. *)
Lemma handle_cases fuel b id bvc bc ok bvc' bc' :
  handle_alternative_block uninit c now records (S fuel) b id bvc bc = Ret (ok, bvc', bc') →
  (only_alternatives bc bc' ∧ bvc_switched_to_alt_chain bvc' = bvc_switched_to_alt_chain bvc ∧ filed b id bc bc') ∨
  reorganized fuel b id bvc bc ok bvc' bc'.
Proof.
  intros E. cbn [handle_alternative_block] in E. case_bool_in E.
  { injection E as <- <- <-. left. split; [|split; [done|by left]].
    exists (m_checkpoints bc), (m_orthanBlocksIndex bc), (m_alternative_chains bc). by destruct bc. }
  apply outcome_bind_ret in E as (points & Epts & E). cbv zeta in E. set (bc0 := with_checkpoints points bc) in *.
  assert (only_alternatives bc bc0) as Hq.
  { exists points, (m_orthanBlocksIndex bc), (m_alternative_chains bc). done. }
  apply outcome_bind_ret in E as (r & Er & E). destruct r as [reported| |alt bei cp].
  { injection E as <- <- <-. left. by destruct reported; (split; [done|split; [done|by left]]). }
  { injection E as <- <- <-. left. split; [done|split; [done|by left]]. }
  case_bool_in E; [injection E as <- <- <-; left; split; [done|split; [done|by left]]|].
  apply outcome_bind_ret in E as (orphans & _ & E).
  destruct (accepted_entry _ _ _ _ _ _ Er) as (Hb & Hh & Hh0 & Hcp & Hdiff). cbn [with_checkpoints m_checkpoints] in Hcp.
  assert (1 <= be_height bei) as Hh1 by (bool_to_prop; lia). set (bc1 := with_alternatives orphans _ bc0) in *.
  assert (only_alternatives bc bc1) as Hq1 by (by exists points, orphans, (<[id := bei]> (m_alternative_chains bc))).
  destruct cp.
  { right. apply outcome_bind_ret in E as ([r bc2] & Es & E). injection E as <- <- <-. split; [|by eexists _, _, _, _].
    exists points, (cumulative_difficulty bei). split_and!; [done|done|]. by left. }
  apply outcome_bind_ret in E as (back & Eb & E). unfold blocks_back in Eb.
  change (m_blocks bc1) with (m_blocks bc) in Eb. destruct (list.last (m_blocks bc)) as [b0|] eqn:El; [|done].
  injection Eb as ->. case_bool_in E.
  { right. apply outcome_bind_ret in E as ([r bc2] & Es & E). injection E as <- <- <-. split; [|by eexists _, _, _, _].
    exists points, (cumulative_difficulty bei). split_and!; [done|done|]. right. exists back. split; [done|]. by bool_to_prop. }
  injection E as <- <- <-. left. split_and!; [done..|]. right. exists bei, back. bool_to_prop. split_and!; try done; lia.
Qed.

Lemma handle_keeps fuel b id bvc bc ok bvc' bc' :
  handle_alternative_block uninit c now records fuel b id bvc bc = Ret (ok, bvc', bc') →
  m_blocks bc' = m_blocks bc ∨ better b id bc.
Proof.
  destruct fuel as [|fuel]; [done|]. intros E.
  apply handle_cases in E as [((points & orphans & alts & ->) & _)|[Hb _]]; [by left|by right].
Qed.

(** The block that is stored fits the others. *)
Lemma stored_links b id bei bc bc' :
  get_block_hash uninit b = Ret id → links bc → only_alternatives bc bc' →
  m_alternative_chains bc' = <[id := bei]> (m_alternative_chains bc) → be_bl bei = b →
  be_height bei = get_block_height b → 1 <= be_height bei → links bc'.
Proof.
  intros Hid [Hl Ha] (points & orphans & alts & ->) Ealt Hb Hh H1. split; [by eapply linked_same; [|exact Hl]|].
  intros h e He. rewrite Ealt in He. apply lookup_insert_Some in He as [[<- <-]|[_ He]]; [|by apply Ha]. by rewrite Hb.
Qed.

Lemma handle_links fuel : ∀ b id bvc bc ok bvc' bc',
  get_block_hash uninit b = Ret id → links bc →
  handle_alternative_block uninit c now records fuel b id bvc bc = Ret (ok, bvc', bc') → links bc'.
Proof.
  induction fuel as [|fuel IH]; intros b id bvc bc ok bvc' bc' Hid Hl E; [done|].
  apply handle_cases in E as [(Hq & _ & [Eal|(bei & back & Eal & Hb & Hh & H1 & _)])|
    (_ & alt & discard & bei & bc1 & Hq & Eal & Hb & Hh & H1 & Es & _)].
  - destruct Hl as [Hl Ha]. destruct Hq as (points & orphans & alts & ->). split; [by eapply linked_same; [|exact Hl]|].
    intros h e He. apply Ha. by rewrite <- Eal.
  - by eapply stored_links.
  - eapply (switch_cases _ IH (λ b id bc, better b id bc)) in Es; [apply Es|apply handle_keeps|]. by eapply stored_links.
Qed.

(** ** New blocks *)

Lemma block_id_hash b id : block_id uninit b = Ret (Some id) → get_block_hash uninit b = Ret id.
Proof.
  unfold block_id, get_block_hash. intros E. apply outcome_bind_ret in E as (r & -> & E). destruct r as [ba|]; [|done].
  apply outcome_bind_ret in E as (h & Eh & E). by injection E as <-.
Qed.

Lemma addNewBlock_links fuel b bvc bc ok bvc' bc' :
  links bc → addNewBlock uninit c now records fuel b bvc bc = Ret (ok, bvc', bc') → links bc'.
Proof.
  intros Hl E. unfold addNewBlock in E. apply outcome_bind_ret in E as ([id|] & Eid & E); [|by injection E as _ _ <-].
  apply block_id_hash in Eid. case_bool_in E; [by injection E as _ _ <-|]. cbv zeta in E.
  apply outcome_bind_ret in E as (tail & _ & E). case_bool_in E; [by eapply handle_links|by eapply pushBlock_links].
Qed.

Lemma removeLastBlock_links bc ok bc' : links bc → removeLastBlock bc = Ret (ok, bc') → links bc'.
Proof.
  intros [Hl Ha] E. unfold removeLastBlock in E. destruct (list.last (m_blocks bc)) as [back|]; [|by injection E as _ <-].
  do 3 (apply outcome_bind_ret in E as (? & _ & E)). destruct (TimestampBlocksIndex_remove _ _ _).
  apply outcome_bind_ret in E as ([? ?] & _ & E). apply outcome_bind_ret in E as (? & _ & E). injection E as _ <-.
  split; [by eapply linked_pop|done].
Qed.

Lemma rollback_links fuel : ∀ height bc bc', links bc → rollback_loop fuel height bc = Ret bc' → links bc'.
Proof.
  induction fuel as [|fuel IH]; intros height bc bc' Hl E; cbn [rollback_loop] in E; case_bool_in E;
    [done|by injection E as <-| |by injection E as <-].
  apply outcome_bind_ret in E as ([ok bc1] & E1 & E). eapply IH; [|exact E]. by eapply removeLastBlock_links.
Qed.

Lemma reset_links fuel b bc ok bc' :
  resetAndSetGenesisBlock uninit c now records fuel b bc = Ret (ok, bc') → links bc'.
Proof.
  intros E. unfold resetAndSetGenesisBlock in E. cbv zeta in E. apply outcome_bind_ret in E as ([[? bvc] bc1] & E1 & E).
  injection E as _ <-. eapply addNewBlock_links; [|exact E1]. split; [|by intros h e]. split_and!; [constructor..|].
  by intros i e.
Qed.
End Links.

(** ** Fuel *)

(** More fuel gives more answers, and the same. *)
Definition outcome_le {A} (o o' : outcome A) : Prop := o = Abort ∨ o = o'.

Lemma outcome_le_refl {A} (o : outcome A) : outcome_le o o.
Proof. by right. Qed.

Lemma bind_le {A B} (m m' : outcome A) (f g : A → outcome B) :
  outcome_le m m' → (∀ a, outcome_le (f a) (g a)) → outcome_le (m ≫= f) (m' ≫= g).
Proof. intros [->| ->] Hf; [by left|]. destruct m'; cbn; [apply Hf|by right..]. Qed.

Section Fuel.
Context `{CryptoOps}.
Variables (uninit : list Z) (c : Currency) (now : Z) (records : list (list Z)).
Variables handle handle' : Block → Hash → block_verification_context → Blockchain
  → outcome (bool * block_verification_context * Blockchain).
Hypothesis handle_le : ∀ b id bvc bc, outcome_le (handle b id bvc bc) (handle' b id bvc bc).

Lemma push_old_le l : ∀ bc, outcome_le (push_old uninit handle l bc) (push_old uninit handle' l bc).
Proof.
  induction l as [|b l IH]; intros bc; cbn [push_old]; [by right|].
  apply bind_le; [by right|]. intros id. apply bind_le; [apply handle_le|]. intros [[[] bvc] bc1]; [apply IH|by right].
Qed.

Lemma switch_le alt discard bc :
  outcome_le (switch_to_alternative_blockchain uninit c now handle alt discard bc)
             (switch_to_alternative_blockchain uninit c now handle' alt discard bc).
Proof.
  unfold switch_to_alternative_blockchain. destruct alt as [|front alt]; [by right|].
  apply bind_le; [by right|]. intros e. cbv zeta. case_bool; [by right|]. case_bool; [by right|].
  apply bind_le; [by right|]. intros es. case_bool; [by right|]. apply bind_le; [by right|]. intros [old bc1].
  apply bind_le; [by right|]. intros [refused bc2]. case_bool; [by right|].
  apply bind_le; [destruct discard; [by right|apply push_old_le]|]. intros [r bc3]. by right.
Qed.
End Fuel.

Lemma handle_fuel `{CryptoOps} uninit c now records fuel : ∀ b id bvc bc,
  outcome_le (handle_alternative_block uninit c now records fuel b id bvc bc)
             (handle_alternative_block uninit c now records (S fuel) b id bvc bc).
Proof.
  induction fuel as [|fuel IH]; intros b id bvc bc; [by left|].
  remember (S fuel) as n eqn:En. rewrite En at 1. cbn [handle_alternative_block].
  case_bool; [by right|]. apply bind_le; [by right|]. intros points. cbv zeta. apply bind_le; [by right|].
  intros [reported| |alt bei cp]; [by right..|]. case_bool; [by right|]. apply bind_le; [by right|]. intros orphans.
  assert (∀ discard bc', outcome_le
    ('(r, bc) ← switch_to_alternative_blockchain uninit c now (handle_alternative_block uninit c now records fuel)
                  (alt ++ [id]) discard bc';
     mret (r, if r : bool then set_switched bvc else set_failed bvc, bc))
    ('(r, bc) ← switch_to_alternative_blockchain uninit c now (handle_alternative_block uninit c now records n)
                  (alt ++ [id]) discard bc';
     mret (r, if r : bool then set_switched bvc else set_failed bvc, bc))) as Hs.
  { intros discard bc'. apply bind_le; [|intros [? ?]; by right]. apply switch_le. exact IH. }
  destruct cp; [apply Hs|]. apply bind_le; [by right|]. intros back. case_bool; [apply Hs|by right].
Qed.

(** ** The walk along an alternative chain *)

(** A block is higher than the one before it. *)
Definition heights_grow (alts : gmap Hash BlockEntry) : Prop :=
  ∀ h e p, alts !! h = Some e → alts !! previousBlockHash (be_bl e) = Some p → be_height p < be_height e.

(** The blocks that are not above a block. *)
Definition not_above (e : BlockEntry) (alts : gmap Hash BlockEntry) : gmap Hash BlockEntry :=
  filter (λ x : Hash * BlockEntry, be_height x.2 <= be_height e) alts.

Lemma alt_walk_total alts : heights_grow alts → ∀ fuel h,
  match alts !! h with
  | None => True
  | Some e => (size (not_above e alts) <= fuel)%nat
  end → ∃ walk, alt_walk fuel alts h = Ret walk.
Proof.
  intros Hg fuel. induction fuel as [|fuel IH]; intros h Hf; cbn [alt_walk].
  all: destruct (alts !! h) as [e|] eqn:Eh; [|by eexists].
  all: assert (not_above e alts !! h = Some e) as Hin
    by (unfold not_above; apply map_lookup_filter_Some; split; [done|cbn; lia]).
  { assert (not_above e alts = ∅) as He by (apply map_size_empty_inv; lia).
    rewrite He in Hin. by rewrite lookup_empty in Hin. }
  destruct (IH (previousBlockHash (be_bl e))) as (rest & ->); [|by eexists].
  destruct (alts !! previousBlockHash (be_bl e)) as [p|] eqn:Ep; [|done]. specialize (Hg _ _ _ Eh Ep).
  assert (size (not_above p alts) <
          size (not_above e alts))%nat; [|lia].
  apply map_subset_size. apply map_subset_alt. split.
  - apply map_filter_subseteq_ext. intros k x _. cbn. lia.
  - exists h. split; [|by exists e]. apply map_lookup_filter_None. right. intros x Hx. cbn. rewrite Eh in Hx.
    injection Hx as <-. lia.
Qed.

(** ** Reachable states *)

(** The states a node goes through, with any clock and any answers of the name
    servers at each step. *)
Inductive reachable `{CryptoOps} (uninit : list Z) (c : Currency) : Blockchain → Prop :=
| reach_new pool : reachable uninit c (new_Blockchain pool)
| reach_add now records fuel b bvc ok bvc' bc bc' :
    reachable uninit c bc → addNewBlock uninit c now records fuel b bvc bc = Ret (ok, bvc', bc') →
    reachable uninit c bc'
| reach_reset now records fuel b ok bc bc' :
    reachable uninit c bc → resetAndSetGenesisBlock uninit c now records fuel b bc = Ret (ok, bc') →
    reachable uninit c bc'
| reach_rollback height bc bc' :
    reachable uninit c bc → rollbackBlockchainTo height bc = Ret bc' → reachable uninit c bc'
| reach_pool pool bc : reachable uninit c bc → reachable uninit c (with_pool pool bc)
| reach_checkpoints points bc : reachable uninit c bc → reachable uninit c (with_checkpoints points bc).

Lemma reachable_links `{CryptoOps} uninit c bc : reachable uninit c bc → links uninit bc.
Proof.
  induction 1 as [pool|now records fuel b bvc ok bvc' bc bc' _ IH E|now records fuel b ok bc bc' _ _ E|height bc bc' _ IH E| |].
  - split; [|by intros h e]. split_and!; [constructor..|]. by intros i e.
  - by eapply addNewBlock_links.
  - by eapply reset_links.
  - by eapply rollback_links.
  - done.
  - done.
Qed.

(** ** Examples *)

(** The blocks of a chain and of one that leaves it after the third block. *)
Definition link_block (height : Z) (previous : Hash) (ex : list Z) : Block := {|
  block_header := {| majorVersion := if height <=? 1 then 1 else if height =? 2 then 2 else 3; minorVersion := 0;
                     nonce := 0; timestamp := 10; previousBlockHash := previous |};
  baseTransaction := toy_coinbase height ex; transactionHashes := [] |}.

Definition block0 : Block := link_block 0 NULL_HASH [].
Definition block1 : Block := link_block 1 (toy_block_hash block0) [].
Definition block2 : Block := link_block 2 (toy_block_hash block1) [].
Definition block3 : Block := link_block 3 (toy_block_hash block2) [].
Definition other3 : Block := link_block 3 (toy_block_hash block2) [0].
Definition other4 : Block := link_block 4 (toy_block_hash other3) [].

(** The name servers have a checkpoint far above, so that reorganisations are allowed
    near the genesis block. *)
Definition toy_records : list (list Z) := [to_string 100 ++ 58 :: replicate 64 48].

Definition toy_add (b : Block) (bc : Blockchain) : outcome (bool * block_verification_context * Blockchain) :=
  addNewBlock (H := toy_crypto) [] mainnet 100 toy_records 2 b empty_bvc bc.

(** Adding blocks one after the other; [None] when one is not accepted. *)
Fixpoint toy_add_all (bs : list Block) (bc : Blockchain) : option Blockchain :=
  match bs with
  | [] => Some bc
  | b :: bs' => match toy_add b bc with Ret (true, _, bc') => toy_add_all bs' bc' | _ => None end
  end.

Lemma toy_add_all_reachable bs : ∀ bc bc',
  reachable (H := toy_crypto) [] mainnet bc → toy_add_all bs bc = Some bc' →
  reachable (H := toy_crypto) [] mainnet bc'.
Proof.
  induction bs as [|b bs IH]; intros bc bc' Hr E; cbn [toy_add_all] in E; [by injection E as <-|].
  destruct (toy_add b bc) as [[[[] bvc] bc1]| |] eqn:E1; [|done..]. eapply IH; [|exact E].
  by eapply reach_add.
Qed.

(** ** Theorems *)

(** C3: in every state a node can reach, the stored blocks are a chain: the block index
    has their hashes, no two of which are equal, each block stands at the height its
    miner's transaction names and refers to the hash of the block before, the first to
    none; and alternative blocks are stored under their own hashes and heights. New
    blocks, reorganisations that succeed or fail, and rollbacks keep this. *)
Theorem chain_links_invariant `{CryptoOps} uninit c bc : reachable uninit c bc → links uninit bc.
Proof. apply reachable_links. Qed.

(** The node takes the other chain when it becomes the longer one. *)
Lemma chain_links_invariant_witness :
  match toy_add_all [block0; block1; block2; block3; other3; other4] (new_Blockchain empty_Pool) with
  | Some bc => links (H := toy_crypto) [] bc ∧
      be_bl <$> m_blocks bc = [block0; block1; block2; other3; other4]
  | None => False
  end.
Proof.
  destruct (toy_add_all _ _) as [bc|] eqn:E; [|by vm_compute in E]. split.
  - apply (chain_links_invariant (H := toy_crypto) [] mainnet).
    eapply toy_add_all_reachable; [apply reach_new|exact E].
  - vm_compute in E. injection E as <-. vm_compute. reflexivity.
Defined.




