(* ===== verification/BlockQueries.v ===== *)
(** * Queries

    [src/src/CryptoNoteCore/Blockchain.cpp] and [Blockchain.h]: the functions that
    answer other nodes, wallets and the RPC server from the state of the chain, and
    [src/src/Common/ShuffleGenerator.h], with which outputs for mixing are chosen.
    None of them changes the state. *)

From S2P Require Import Prelude Streams CryptoNoteTypes Serialization CryptoNoteSerialization Crypto Config Currency.
From S2P Require Import Amounts Difficulty TransactionExtra FormatUtils DepositIndex BlockIndex Checkpoints UpgradeDetector.
From S2P Require Import BlockchainIndices ChainState InputCheck TransactionPool BlockRules Blockchain ChainInvariant.
From S2P Require Import AlternativeChains ChainLinks.

Local Open Scope Z_scope.

(** ** Shuffled sequences *)

(** [ShuffleGenerator]; the size [N] is used only by [reset]. *)
Record ShuffleGenerator := {
  sg_selected : gmap Z Z;
  sg_count : Z
}.

Definition new_ShuffleGenerator (n : Z) : ShuffleGenerator := {| sg_selected := ∅; sg_count := n |}.

(** [operator()]; [draw] is the distribution, whose argument is the greatest value it
    may return. *)
Definition shuffle_next (draw : Z → Z) (g : ShuffleGenerator) : outcome (Z * ShuffleGenerator) :=
  if sg_count g =? 0 then Throw "shuffle sequence ended"
  else
    let count := u64 (sg_count g - 1) in
    let value := draw count in
    let rval := default count (sg_selected g !! count) in
    match sg_selected g !! value with
    | Some lval => mret (lval, {| sg_selected := <[value := rval]> (sg_selected g); sg_count := count |})
    | None => mret (value, {| sg_selected := <[value := rval]> (sg_selected g); sg_count := count |})
    end.

(** ** Blocks *)

Definition getBlockByHash (blockHash : Hash) (bc : Blockchain) : outcome (option Block) :=
  match bi_getBlockHeight blockHash (m_blockIndex bc) with
  | Some height => b ← block_at (m_blocks bc) height; mret (Some (be_bl b))
  | None => mret (be_bl <$> m_alternative_chains bc !! blockHash)
  end.

Definition getBlockTimestamp (height : Z) (bc : Blockchain) : outcome Z :=
  _ ← assert_ (height <? blocks_size bc);
  b ← block_at (m_blocks bc) height;
  mret (timestamp (be_bl b)).

Definition getCoinsInCirculation (bc : Blockchain) : Z :=
  match list.last (m_blocks bc) with None => 0 | Some b => already_generated_coins b end.

Definition coinsEmittedAtHeight (height : Z) (bc : Blockchain) : outcome Z :=
  b ← block_at (m_blocks bc) height; mret (already_generated_coins b).

Definition difficultyAtHeight (height : Z) (bc : Blockchain) : outcome Z :=
  current ← block_at (m_blocks bc) height;
  if height <? 1 then mret (cumulative_difficulty current)
  else
    previous ← block_at (m_blocks bc) (height - 1);
    mret (u64 (cumulative_difficulty current - cumulative_difficulty previous)).

(** An index out of range returns [false], that is, 0. *)
Definition blockDifficulty (i : Z) (bc : Blockchain) : outcome Z :=
  if negb (i <? blocks_size bc) then mret 0
  else if i =? 0 then b ← block_at (m_blocks bc) i; mret (cumulative_difficulty b)
  else
    b ← block_at (m_blocks bc) i;
    p ← block_at (m_blocks bc) (i - 1);
    mret (u64 (cumulative_difficulty b - cumulative_difficulty p)).

(** The heights [start_offset + count] in 32 bits. *)
Definition blocks_slice (start_offset count : Z) (bc : Blockchain) : list BlockEntry :=
  take (Z.to_nat (u32 (start_offset + count) - start_offset)) (drop (Z.to_nat start_offset) (m_blocks bc)).

(** [getBlocks(start_offset, count, blocks)]. *)
Definition getBlocks (start_offset count : Z) (bc : Blockchain) : option (list Block) :=
  if blocks_size bc <=? start_offset then None else Some (be_bl <$> blocks_slice start_offset count bc).

(** [getBlocks(start_offset, count, blocks, txs)]: the result, the blocks and the
    transactions; it stops at a block of which a transaction is missing. *)
Fixpoint getBlocks_loop (entries : list BlockEntry) (bc : Blockchain)
    : outcome (bool * list Block * list Transaction) :=
  match entries with
  | [] => mret (true, [], [])
  | e :: entries' =>
      '(txs, missed_ids) ← getTransactions (transactionHashes (be_bl e)) false bc;
      if negb (bool_decide (missed_ids = [])) then mret (false, [be_bl e], txs)
      else
        '(ok, blocks, more) ← getBlocks_loop entries' bc;
        mret (ok, be_bl e :: blocks, txs ++ more)
  end.

Definition getBlocks_txs (start_offset count : Z) (bc : Blockchain)
    : outcome (bool * list Block * list Transaction) :=
  if blocks_size bc <=? start_offset then mret (false, [], [])
  else getBlocks_loop (blocks_slice start_offset count bc) bc.

(** [getBlocks(block_ids, blocks, missed_bs)]: the result, the blocks and the hashes
    that are not of the main chain. *)
Fixpoint getBlocks_ids (block_ids : list Hash) (bc : Blockchain) : outcome (bool * list Block * list Hash) :=
  match block_ids with
  | [] => mret (true, [], [])
  | bl_id :: block_ids' =>
      match bi_getBlockHeight bl_id (m_blockIndex bc) with
      | None => '(ok, blocks, missed_bs) ← getBlocks_ids block_ids' bc; mret (ok, blocks, bl_id :: missed_bs)
      | Some height =>
          if negb (height <? blocks_size bc) then mret (false, [], [])
          else
            b ← block_at (m_blocks bc) height;
            '(ok, blocks, missed_bs) ← getBlocks_ids block_ids' bc;
            mret (ok, be_bl b :: blocks, missed_bs)
      end
  end.

(** [block_complete_entry]. *)
Record block_complete_entry := {
  bce_block : BinaryArray;
  bce_txs : list BinaryArray
}.

(** [NOTIFY_RESPONSE_GET_OBJECTS]. *)
Record GetObjectsResponse := {
  rsp_txs : list BinaryArray;
  rsp_blocks : list block_complete_entry;
  rsp_missed_ids : list Hash;
  rsp_current_blockchain_height : Z
}.

(** [toBinaryArray(object)]; an object whose serialization fails is outside the
    model. *)
Definition pack {T} serialize (object : T) : outcome BinaryArray :=
  r ← toBinaryArray serialize object [];
  match r with Some ba => mret ba | None => Abort end.

Fixpoint pack_transactions (txs : list Transaction) : outcome (list BinaryArray) :=
  match txs with
  | [] => mret []
  | tx :: txs' => ba ← pack serialize_Transaction tx; bas ← pack_transactions txs'; mret (ba :: bas)
  end.

(** The loop over the blocks: the entries and the hashes that were missed; these go
    to the answer and not into the list that is tested. *)
Fixpoint pack_blocks (blocks : list Block) (bc : Blockchain) : outcome (list block_complete_entry * list Hash) :=
  match blocks with
  | [] => mret ([], [])
  | bl :: blocks' =>
      '(txs, missed_ids) ← getTransactions (transactionHashes bl) false bc;
      block ← pack serialize_Block bl;
      packed ← pack_transactions txs;
      '(entries, more) ← pack_blocks blocks' bc;
      mret ({| bce_block := block; bce_txs := packed |} :: entries, missed_ids ++ more)
  end.

Definition handleGetObjects (arg_blocks arg_txs : list Hash) (bc : Blockchain) : outcome GetObjectsResponse :=
  '(_, blocks, missed1) ← getBlocks_ids arg_blocks bc;
  '(entries, missed2) ← pack_blocks blocks bc;
  '(txs, missed3) ← getTransactions arg_txs false bc;
  packed ← pack_transactions txs;
  mret {| rsp_txs := packed; rsp_blocks := entries; rsp_missed_ids := missed1 ++ missed2 ++ missed3;
          rsp_current_blockchain_height := getCurrentBlockchainHeight (m_blocks bc) |}.

(** ** Synchronisation *)

Definition buildSparseChain (bc : Blockchain) : outcome (list Hash) :=
  _ ← assert_ (negb (bi_size (m_blockIndex bc) =? 0));
  tail ← bi_getTailId (m_blockIndex bc);
  doBuildSparseChain tail bc.

Definition buildSparseChain_from (startBlockId : Hash) (bc : Blockchain) : outcome (list Hash) :=
  _ ← assert_ (haveBlock startBlockId bc); doBuildSparseChain startBlockId bc.

(** The two assertions. *)
Definition remote_ids_ok (ids : list Hash) (bc : Blockchain) : outcome unit :=
  match list.last ids with
  | None => Abort
  | Some back => genesis ← bi_getBlockId 0 (m_blockIndex bc); assert_ (bool_decide (back = genesis))
  end.

(** [findBlockchainSupplement(qblock_ids)]; the height stays uninitialised when no hash
    is known, which the assertions exclude. *)
Definition findBlockchainSupplement (qblock_ids : list Hash) (bc : Blockchain) : outcome Z :=
  _ ← remote_ids_ok qblock_ids bc;
  match bi_findSupplement qblock_ids (m_blockIndex bc) with Some blockIndex => mret blockIndex | None => Abort end.

(** [findBlockchainSupplement(remoteBlockIds, maxCount, ...)]: the hashes,
    [totalBlockCount] and [startBlockIndex]. *)
Definition findBlockchainSupplement_ids (remoteBlockIds : list Hash) (maxCount : Z) (bc : Blockchain)
    : outcome (list Hash * Z * Z) :=
  _ ← remote_ids_ok remoteBlockIds bc;
  startBlockIndex ← findBlockchainSupplement remoteBlockIds bc;
  mret (bi_getBlockIds startBlockIndex (u32 maxCount) (m_blockIndex bc),
        getCurrentBlockchainHeight (m_blocks bc), startBlockIndex).

(** [std::lower_bound] over the timestamps [v], in the steps of the binary search. *)
Fixpoint lower_bound (fuel : nat) (v : list Z) (first len value : Z) : outcome Z :=
  if len <=? 0 then mret first
  else
    match fuel with
    | O => Abort
    | S fuel =>
        let half := Z.shiftr len 1 in
        x ← at_ v (first + half);
        if x <? value then lower_bound fuel v (first + half + 1) (len - half - 1) value
        else lower_bound fuel v first half value
    end.

(** ** Transactions *)

Definition getTransactionOutputGlobalIndexes (tx_id : Hash) (bc : Blockchain) : outcome (option (list Z)) :=
  match m_transactionMap (m_tables bc) !! tx_id with
  | None => mret None
  | Some index =>
      tx ← transactionByIndex (m_blocks bc) index;
      mret (if bool_decide (m_global_output_indexes tx = []) then None else Some (m_global_output_indexes tx))
  end.

Definition get_out_by_msig_gindex (amount gindex : Z) (bc : Blockchain) : outcome (option MultisignatureOutput) :=
  match m_multisignatureOutputs (m_tables bc) !! amount with
  | None => mret None
  | Some usages =>
      if Z.of_nat (length usages) <=? gindex then mret None
      else
        msigUsage ← at_ usages gindex;
        tx ← transactionByIndex (m_blocks bc) (mu_transactionIndex msigUsage);
        out ← at_ (outputs (te_tx tx)) (mu_outputIndex msigUsage);
        mret (match out_target out with OutMultisignature m => Some m | OutKey _ => None end)
  end.

Section Queries.
Context `{CryptoOps}.
Variable c : Currency.
Variable now : Z.

Definition getLowerBound (timestamp_ startOffset : Z) (bc : Blockchain) : outcome (option Z) :=
  _ ← assert_ (startOffset <? blocks_size bc);
  let len := blocks_size bc - startOffset in
  bound ← lower_bound (length (m_blocks bc)) ((λ b, timestamp (be_bl b)) <$> m_blocks bc) startOffset len
            (u64 (timestamp_ - m_blockFutureTimeLimit c));
  mret (if bound =? blocks_size bc then None else Some (u32 bound)).

Definition getBlockContainingTransaction (txId : Hash) (bc : Blockchain) : outcome (option (Hash * Z)) :=
  match m_transactionMap (m_tables bc) !! txId with
  | None => mret None
  | Some index =>
      b ← block_at (m_blocks bc) (ti_block index);
      blockId ← getBlockIdByHeight (m_blockIndex bc) (be_height b);
      mret (Some (blockId, be_height b))
  end.

(** A field of a block of the main chain or of an alternative one. *)
Definition block_field (field : BlockEntry → Z) (hash : Hash) (bc : Blockchain) : outcome (option Z) :=
  match bi_getBlockHeight hash (m_blockIndex bc) with
  | Some height => b ← block_at (m_blocks bc) height; mret (Some (field b))
  | None => mret (field <$> m_alternative_chains bc !! hash)
  end.

Definition getAlreadyGeneratedCoins : Hash → Blockchain → outcome (option Z) := block_field already_generated_coins.
Definition getBlockSize : Hash → Blockchain → outcome (option Z) := block_field block_cumulative_size.

Definition getMultisigOutputReference (txInMultisig : MultisignatureInput) (bc : Blockchain)
    : outcome (option (Hash * Z)) :=
  match m_multisignatureOutputs (m_tables bc) !! mi_amount txInMultisig with
  | None => mret None
  | Some usages =>
      if Z.of_nat (length usages) <=? mi_outputIndex txInMultisig then mret None
      else
        outputIndex ← at_ usages (mi_outputIndex txInMultisig);
        tx ← transactionByIndex (m_blocks bc) (mu_transactionIndex outputIndex);
        h ← getObjectHash cn_fast_hash serialize_Transaction (te_tx tx);
        mret (Some (h, mu_outputIndex outputIndex))
  end.

(** ** Outputs for mixing *)

(** [out_entry]: the global index and the key. *)
Record out_entry := { global_amount_index : Z; out_entry_key : PublicKey }.

(** [add_out_to_get_random_outs]: the entry it appends. *)
Definition add_out_to_get_random_outs (amount_outs : list (TransactionIndex * Z)) (i : Z) (bc : Blockchain)
    : outcome (option out_entry) :=
  o ← at_ amount_outs i;
  e ← transactionByIndex (m_blocks bc) (fst o);
  match outputs (te_tx e) !! Z.to_nat (snd o) with
  | None => mret None
  | Some out =>
      match out_target out with
      | OutMultisignature _ => mret None
      | OutKey k =>
          mret (if is_tx_spendtime_unlocked c now (m_blocks bc) (unlockTime (te_tx e))
                then Some {| global_amount_index := u32 i; out_entry_key := ko_key k |} else None)
      end
  end.

(** The loop of [find_end_of_allowed_index] from the end of the list on: [rev_outs] has
    the last output first. *)
Fixpoint end_of_allowed (rev_outs : list (TransactionIndex * Z)) (bc : Blockchain) : Z :=
  match rev_outs with
  | [] => 0
  | (ti, _) :: rev_outs' =>
      if u64 (ti_block ti + m_minedMoneyUnlockWindow c) <=? getCurrentBlockchainHeight (m_blocks bc)
      then Z.of_nat (length rev_outs' + 1)
      else end_of_allowed rev_outs' bc
  end.

Definition find_end_of_allowed_index (amount_outs : list (TransactionIndex * Z)) (bc : Blockchain) : Z :=
  end_of_allowed (reverse amount_outs) bc.

(** The loop over [j], with [n] rounds left; [draws j] is the distribution in the round
    [j]. *)
Fixpoint random_outs_loop (n j : nat) (draws : nat → Z → Z) (g : ShuffleGenerator)
    (amount_outs : list (TransactionIndex * Z)) (outs_count : Z) (outs : list out_entry) (bc : Blockchain)
    : outcome (list out_entry) :=
  match n with
  | O => mret outs
  | S n' =>
      if Z.of_nat (length outs) <? outs_count then
        '(i, g') ← shuffle_next (draws j) g;
        r ← add_out_to_get_random_outs amount_outs i bc;
        random_outs_loop n' (S j) draws g' amount_outs outs_count
          (match r with Some o => outs ++ [o] | None => outs end) bc
      else mret outs
  end.

(** One amount of the request. *)
Definition random_outs_for_amount (draws : nat → Z → Z) (amount outs_count : Z) (bc : Blockchain)
    : outcome (list out_entry) :=
  match m_outputs (m_tables bc) !! amount with
  | None => mret []
  | Some amount_outs =>
      let up_index_limit := find_end_of_allowed_index amount_outs bc in
      if 0 <? up_index_limit
      then random_outs_loop (Z.to_nat up_index_limit) 0 draws (new_ShuffleGenerator up_index_limit) amount_outs
             outs_count [] bc
      else mret []
  end.

(** [getRandomOutsByAmount]; [draws k] are the distributions for the amount [k]. *)
Fixpoint getRandomOutsByAmount (k : nat) (draws : nat → nat → Z → Z) (amounts : list Z) (outs_count : Z)
    (bc : Blockchain) : outcome (list (Z * list out_entry)) :=
  match amounts with
  | [] => mret []
  | amount :: amounts' =>
      outs ← random_outs_for_amount (draws k) amount outs_count bc;
      rest ← getRandomOutsByAmount (S k) draws amounts' outs_count bc;
      mret ((amount, outs) :: rest)
  end.
End Queries.

(** ** Shuffled sequences: proofs *)

(** The sequence of [n] values. *)
Fixpoint shuffle (n j : nat) (draws : nat → Z → Z) (g : ShuffleGenerator) : outcome (list Z) :=
  match n with
  | O => mret []
  | S n' =>
      '(v, g') ← shuffle_next (draws j) g;
      vs ← shuffle n' (S j) draws g';
      mret (v :: vs)
  end.

(** A distribution stays in its range. *)
Definition draws_ok (draws : nat → Z → Z) : Prop := ∀ j m, 0 <= m → 0 <= draws j m <= m.

(** What is left, as the array that the table [selected] stands for. *)
Definition remaining (g : ShuffleGenerator) : list Z :=
  (λ i, default i (sg_selected g !! i)) <$> seqZ 0 (sg_count g).

Lemma insert_swap {A} (l : list A) k x y : l !! k = Some x → x :: <[k := y]> l ≡ₚ y :: l.
Proof.
  revert k. induction l as [|z l IH]; intros k E; [done|]. destruct k as [|k]; cbn in *.
  - injection E as ->. apply Permutation_swap.
  - rewrite Permutation_swap, (IH k E). apply Permutation_swap.
Qed.

Lemma shuffle_next_perm draw g :
  0 < sg_count g < 2 ^ 64 → (∀ m, 0 <= m → 0 <= draw m <= m) →
  ∃ v g', shuffle_next draw g = Ret (v, g') ∧ sg_count g' = sg_count g - 1 ∧ remaining g ≡ₚ v :: remaining g'.
Proof.
  intros Hc Hd. unfold shuffle_next. rewrite (proj2 (Z.eqb_neq _ _)), u64_small by (unfold in_range; lia). cbv zeta.
  set (n := sg_count g - 1). specialize (Hd n ltac:(lia)). set (value := draw n) in *.
  set (view := λ i, default i (sg_selected g !! i)). set (rval := default n (sg_selected g !! n)).
  exists (view value), {| sg_selected := <[value := rval]> (sg_selected g); sg_count := n |}.
  split; [unfold view; by destruct (sg_selected g !! value)|]. split; [done|].
  unfold remaining. cbn [sg_selected sg_count]. replace (sg_count g) with (n + 1) by lia.
  rewrite seqZ_app by lia. change (seqZ (0 + n) 1) with [0 + n]. rewrite Z.add_0_l, fmap_app. cbn [fmap list_fmap].
  fold view. change (default n (sg_selected g !! n)) with rval. rewrite <- Permutation_cons_append.
  destruct (decide (value = n)) as [->|Hne].
  - assert (view n = rval) as -> by done. apply Permutation_skip.
    rewrite (list_fmap_ext view (λ i, default i (<[n:=rval]> (sg_selected g) !! i)) (seqZ 0 n)); [done|].
    intros i x Hx. apply list_elem_of_lookup_2, elem_of_seqZ in Hx. by rewrite lookup_insert_ne by lia.
  - assert ((λ i, default i (<[value:=rval]> (sg_selected g) !! i)) <$> seqZ 0 n =
      <[Z.to_nat value := rval]> (view <$> seqZ 0 n)) as ->.
    { apply list_eq. intros i. rewrite list_lookup_fmap. destruct (decide (i = Z.to_nat value)) as [->|Hi].
      - rewrite list_lookup_insert_eq by (rewrite length_fmap, length_seqZ; lia).
        rewrite lookup_seqZ_lt by lia. cbn. rewrite Z.add_0_l, Z2Nat.id by lia. by rewrite lookup_insert_eq.
      - rewrite list_lookup_insert_ne, list_lookup_fmap by done. destruct (seqZ 0 n !! i) as [x|] eqn:Ex; [|done].
        apply lookup_seqZ in Ex as [-> Hlt]. cbn. by rewrite lookup_insert_ne by lia. }
    symmetry. apply insert_swap. rewrite list_lookup_fmap, lookup_seqZ_lt by lia. cbn. f_equal.
    by rewrite Z.add_0_l, Z2Nat.id by lia.
Qed.

Lemma shuffle_perm n : ∀ j draws g,
  draws_ok draws → sg_count g = Z.of_nat n → sg_count g < 2 ^ 64 →
  ∃ vs, shuffle n j draws g = Ret vs ∧ vs ≡ₚ remaining g.
Proof.
  induction n as [|n IH]; intros j draws g Hd Hc Hlt; cbn [shuffle].
  { exists []. split; [done|]. unfold remaining. by rewrite Hc. }
  destruct (shuffle_next_perm (draws j) g) as (v & g' & -> & Hc' & Hp); [lia|apply Hd|]. cbn [mbind outcome_bind].
  destruct (IH (S j) draws g' Hd ltac:(lia) ltac:(lia)) as (vs & -> & Hvs). cbn [mbind outcome_bind].
  exists (v :: vs). split; [done|]. by rewrite Hp, Hvs.
Qed.

(** ** Transactions of the chain *)

Section Lookup.
Context `{CryptoOps}.
Variable uninit : list Z.
Variable c : Currency.

Definition hash_of (e : TransactionEntry) (h : Hash) : Prop :=
  getObjectHash cn_fast_hash serialize_Transaction (te_tx e) = Ret h.

(** The table of transactions after some were added. *)
Lemma rebuild_transactions_map b txs : ∀ t s interest s' interest',
  rebuild_transactions c b t txs s interest = Ret (s', interest') →
  m_transactionMap s ⊆ m_transactionMap s' ∧
  (∀ h ti, m_transactionMap s' !! h = Some ti → m_transactionMap s !! h = Some ti ∨
     ti_block ti = b ∧ ∃ k e, ti_transaction ti = t + Z.of_nat k ∧ txs !! k = Some e ∧ hash_of e h) ∧
  (∀ e h, e ∈ txs → hash_of e h → is_Some (m_transactionMap s' !! h)).
Proof.
  induction txs as [|e txs IH]; intros t s interest s' interest' E; cbn [rebuild_transactions] in E.
  { injection E as <- <-. split; [done|]. split; [by left|]. by intros e h ?%not_elem_of_nil. }
  apply outcome_bind_ret in E as (h0 & Eh0 & E). apply outcome_bind_ret in E as (s1 & E1 & E).
  apply outcome_bind_ret in E as (i & _ & E). apply IH in E as (Hsub & Hback & Hall).
  unfold rebuild_transaction in E1. apply outcome_bind_ret in E1 as ([spent msigs] & _ & E1).
  apply outcome_bind_ret in E1 as (? & _ & E1). destruct (push_outputs _ _ _ _) as [? [outs msigs']].
  injection E1 as <-. cbn [m_transactionMap] in *.
  assert (m_transactionMap s ⊆ m_transactionMap s' ∧ is_Some (m_transactionMap s' !! h0)) as [Hsub' Hh0].
  { destruct (m_transactionMap s !! h0) as [ti|] eqn:Em.
    - split; [done|]. exists ti. by eapply lookup_weaken.
    - split; [etrans; [by apply insert_subseteq|exact Hsub]|]. eexists. eapply lookup_weaken; [|exact Hsub].
      apply lookup_insert_eq. }
  split; [done|]. split.
  - intros h ti Hti. apply Hback in Hti as [Hti|(Hb & k & e' & Hk & He' & Hh')].
    + destruct (m_transactionMap s !! h0) eqn:Em; [by left|].
      apply lookup_insert_Some in Hti as [[-> <-]|[_ Hti]]; [|by left].
      right. split; [done|]. exists 0%nat, e. cbn. split_and!; [lia|done|done].
    + right. split; [done|]. exists (S k), e'. split_and!; [lia|done|done].
  - intros e' h [->|Hin]%elem_of_cons Hh; [|by eapply Hall]. unfold hash_of in Hh. rewrite Eh0 in Hh. by injection Hh as <-.
Qed.

Lemma rebuild_blocks_map blocks : ∀ b index s d index' s' d',
  0 <= b → b + Z.of_nat (length blocks) < 2 ^ 32 →
  rebuild_blocks uninit c b blocks (index, s, d) = Ret (index', s', d') →
  m_transactionMap s ⊆ m_transactionMap s' ∧
  (∀ h ti, m_transactionMap s' !! h = Some ti → m_transactionMap s !! h = Some ti ∨
     ∃ i k blk e, ti = {| ti_block := b + Z.of_nat i; ti_transaction := Z.of_nat k |} ∧ blocks !! i = Some blk ∧
       be_transactions blk !! k = Some e ∧ hash_of e h) ∧
  (∀ blk e h, blk ∈ blocks → e ∈ be_transactions blk → hash_of e h → is_Some (m_transactionMap s' !! h)).
Proof.
  induction blocks as [|blk blocks IH]; intros b index s d index' s' d' Hb Hl E; cbn [rebuild_blocks] in E.
  { injection E as <- <- <-. split; [done|]. split; [by left|]. by intros ? ? ? ?%not_elem_of_nil. }
  apply outcome_bind_ret in E as ([[index1 s1] d1] & E1 & E). cbn [length] in Hl.
  rewrite u32_small in E by (unfold in_range; lia). apply IH in E as (Hsub & Hback & Hall); [|lia..].
  unfold rebuild_block in E1. apply outcome_bind_ret in E1 as (bh & _ & E1). destruct (bi_push bh index) as [? index2].
  apply outcome_bind_ret in E1 as (? & _ & E1). apply outcome_bind_ret in E1 as ([s2 interest] & E2 & E1).
  apply outcome_bind_ret in E1 as (d2 & _ & E1). injection E1 as <- <- <-.
  apply rebuild_transactions_map in E2 as (Hsub2 & Hback2 & Hall2). split; [by etrans|]. split.
  - intros h ti Hti. apply Hback in Hti as [Hti|(i & k & blk' & e & -> & Hi & Hk & Hh)].
    + apply Hback2 in Hti as [Hti|(Hbk & k & e & Hk & He & Hh)]; [by left|]. right. exists 0%nat, k, blk, e.
      split_and!; [|done..]. destruct ti as [ti1 ti2]. cbn in *. subst. f_equal; lia.
    + right. exists (S i), k, blk', e. split_and!; [f_equal; lia|done..].
  - intros blk' e h [->|Hin]%elem_of_cons He Hh; [|by eapply Hall].
    destruct (Hall2 e h He Hh) as (ti & Hti). exists ti. by eapply lookup_weaken.
Qed.

(** A transaction with this hash is stored. *)
Definition stored (bc : Blockchain) (h : Hash) : Prop :=
  ∃ blk e, blk ∈ m_blocks bc ∧ e ∈ be_transactions blk ∧ hash_of e h.

Lemma transaction_map_exact bc h :
  cache_exact uninit c bc → blocks_size bc < 2 ^ 32 →
  match m_transactionMap (m_tables bc) !! h with
  | Some ti => ∃ i blk e, ti_block ti = Z.of_nat i ∧ m_blocks bc !! i = Some blk ∧
      transactionByIndex (m_blocks bc) ti = Ret e ∧ e ∈ be_transactions blk ∧ hash_of e h
  | None => ¬ stored bc h
  end.
Proof.
  intros Hc Hs. apply cache_exact_iff in Hc. unfold blocks_size in Hs.
  apply rebuild_blocks_map in Hc as (_ & Hback & Hall); [|lia..].
  destruct (m_transactionMap (m_tables bc) !! h) as [ti|] eqn:Em.
  - destruct (Hback _ _ Em) as [Hno|(i & k & blk & e & -> & Hi & Hk & Hh)]; [destruct (lookup_empty_Some h ti Hno)|].
    exists i, blk, e. cbn [ti_block]. split_and!; [lia|done| |by eapply list_elem_of_lookup_2|done].
    unfold transactionByIndex, block_at. cbn [ti_block ti_transaction]. case_bool; [lia|].
    rewrite Z.add_0_l, Nat2Z.id, Hi. cbn [mbind outcome_bind]. apply at_Some; [lia|]. by rewrite Nat2Z.id.
  - intros (blk & e & Hb & He & Hh). destruct (Hall _ _ _ Hb He Hh) as (ti & Hti). by rewrite Em in Hti.
Qed.
End Lookup.

(** ** Outputs for mixing: proofs *)

Section RandomOuts.
Context `{CryptoOps}.
Variables (c : Currency) (now : Z) (amount_outs : list (TransactionIndex * Z)) (bc : Blockchain).

(** An entry describes an unlocked key output of the list. *)
Definition entry_ok (limit : Z) (o : out_entry) : Prop :=
  0 <= global_amount_index o < limit ∧ ∃ ti n e out,
    amount_outs !! Z.to_nat (global_amount_index o) = Some (ti, n) ∧ transactionByIndex (m_blocks bc) ti = Ret e ∧
    outputs (te_tx e) !! Z.to_nat n = Some out ∧ out_target out = OutKey {| ko_key := out_entry_key o |} ∧
    is_tx_spendtime_unlocked c now (m_blocks bc) (unlockTime (te_tx e)) = true.

Hypothesis resolved : Forall (λ o, ∃ e, transactionByIndex (m_blocks bc) (fst o) = Ret e) amount_outs.

Lemma add_out_spec limit i :
  0 <= i < limit → limit <= Z.of_nat (length amount_outs) → limit < 2 ^ 32 →
  ∃ r, add_out_to_get_random_outs c now amount_outs i bc = Ret r ∧
    match r with None => True | Some o => global_amount_index o = i ∧ entry_ok limit o end.
Proof.
  intros Hi Hl Hl2. unfold add_out_to_get_random_outs.
  destruct (lookup_lt_is_Some_2 amount_outs (Z.to_nat i) ltac:(lia)) as ([ti n] & Ho).
  rewrite (at_Some _ i (ti, n)) by (done || lia). cbn [mbind outcome_bind fst snd].
  destruct (proj1 (List.Forall_forall _ _) resolved (ti, n)) as (e & Ee); [by eapply list_elem_of_In, list_elem_of_lookup_2|].
  cbn in Ee. rewrite Ee. cbn [mbind outcome_bind].
  destruct (outputs (te_tx e) !! Z.to_nat n) as [out|] eqn:Eo; [|by exists None].
  destruct (out_target out) as [[k]|m] eqn:Et; [|by exists None].
  destruct (is_tx_spendtime_unlocked _ _ _ _) eqn:Eu; [|by exists None]. eexists. split; [done|]. cbn.
  rewrite u32_small by (unfold in_range; lia). split; [done|]. split; [done|]. by exists ti, n, e, out.
Qed.

Lemma random_outs_loop_spec limit draws outs_count n : ∀ j g outs,
  draws_ok draws → limit <= Z.of_nat (length amount_outs) → limit < 2 ^ 32 →
  sg_count g = Z.of_nat n → sg_count g < 2 ^ 64 → Forall (λ i, 0 <= i < limit) (remaining g) →
  NoDup ((global_amount_index <$> outs) ++ remaining g) → Forall (entry_ok limit) outs →
  Z.of_nat (length outs) <= outs_count →
  ∃ outs', random_outs_loop c now n j draws g amount_outs outs_count outs bc = Ret outs' ∧
    NoDup (global_amount_index <$> outs') ∧ Forall (entry_ok limit) outs' ∧ Z.of_nat (length outs') <= outs_count.
Proof.
  induction n as [|n IH]; intros j g outs Hd Hl Hl2 Hc Hc2 Hr Hnd Hok Hlen; cbn [random_outs_loop].
  all: assert (NoDup (global_amount_index <$> outs)) as Hnd' by (by apply list.NoDup_app in Hnd as [? _]).
  { by exists outs. }
  destruct (Z.ltb_spec (Z.of_nat (length outs)) outs_count) as [Hlt|Hge]; [|by exists outs].
  destruct (shuffle_next_perm (draws j) g ltac:(lia) (Hd j)) as (v & g' & -> & Hc' & Hp). cbn [mbind outcome_bind].
  rewrite Hp in Hnd, Hr. apply Forall_cons_iff in Hr as [Hv Hr].
  destruct (add_out_spec limit v Hv Hl Hl2) as (r & -> & Hres). cbn [mbind outcome_bind].
  apply IH; [done..|lia|lia|done| | |].
  - destruct r as [o|]; [|apply list.NoDup_app in Hnd as (? & Hx & Hn%list.NoDup_cons); apply list.NoDup_app;
      split_and!; [done| |apply Hn]; intros x Hx1 Hx2; eapply Hx; [exact Hx1|by right]].
    destruct Hres as [Hi _]. rewrite fmap_app, <- app_assoc. cbn. by rewrite Hi.
  - destruct r as [o|]; [|done]. apply Forall_app. split; [done|]. constructor; [apply Hres|constructor].
  - destruct r as [o|]; [|lia]. rewrite length_app. cbn. lia.
Qed.

Lemma end_of_allowed_le rev_outs : 0 <= end_of_allowed c rev_outs bc <= Z.of_nat (length rev_outs).
Proof.
  induction rev_outs as [|[ti o] rev_outs IH]; cbn [end_of_allowed length]; [lia|]. case_bool; lia.
Qed.
End RandomOuts.

(** ** Synchronisation: proofs *)

Lemma alt_sparse_total fuel : ∀ k l,
  0 <= k <= 63 → Z.of_nat (length l) < 2 ^ 63 → 64 <= k + Z.of_nat fuel →
  ∃ r, alt_sparse_loop fuel (2 ^ k) l = Ret r ∧ (∀ h, h ∈ r → h ∈ l) ∧ (k = 0 → head r = head l).
Proof.
  induction fuel as [|fuel IH]; intros k l Hk Hl Hf; [lia|]. cbn [alt_sparse_loop].
  assert (1 <= 2 ^ k) by (pose proof (Z.pow_pos_nonneg 2 k); lia).
  destruct (Z.leb_spec (2 ^ k) (Z.of_nat (length l))) as [Hle|Hgt].
  - assert (k < 63) by (apply (Z.pow_lt_mono_r_iff 2); lia).
    destruct (lookup_lt_is_Some_2 l (Z.to_nat (2 ^ k - 1))) as [h Hh]; [lia|].
    rewrite (at_Some l (2 ^ k - 1) h) by (done || lia). cbn [mbind outcome_bind].
    assert (2 ^ k * 2 = 2 ^ (k + 1)) as E2 by (rewrite Z.pow_add_r; lia).
    assert (2 ^ (k + 1) <= 2 ^ 63) by (apply Z.pow_le_mono_r; lia).
    rewrite E2, u64_small by (unfold in_range; lia). destruct (IH (k + 1) l) as (r & -> & Hr & _); [lia..|].
    cbn [mbind outcome_bind]. exists (h :: r). split; [done|]. split.
    + intros h' [->|Hin]%elem_of_cons; [by eapply list_elem_of_lookup_2|by apply Hr].
    + intros ->. change (Z.to_nat (2 ^ 0 - 1)) with 0%nat in Hh. by destruct l.
  - exists []. split; [done|]. split; [by intros h ?%not_elem_of_nil|]. intros ->. destruct l; [done|]. cbn [length] in Hgt. lia.
Qed.

(** The block is of the main chain, or of an alternative chain that leaves the main
    chain after the block at height [s]. *)
Definition known_at (start : Hash) (s : Z) (bc : Blockchain) : Prop :=
  bi_getBlockHeight start (m_blockIndex bc) = Some s ∨
  (start ∉ m_blockIndex bc) ∧ ∃ walk h e,
    alt_walk (size (m_alternative_chains bc)) (m_alternative_chains bc) start = Ret walk ∧
    list.last walk = Some (h, e) ∧ Z.of_nat (length walk) < 2 ^ 63 ∧
    bi_getBlockHeight (previousBlockHash (be_bl e)) (m_blockIndex bc) = Some s.

Lemma alt_walk_head fuel alts h walk x : alt_walk fuel alts h = Ret walk → head (fst <$> walk) = Some x → x = h.
Proof.
  destruct fuel; cbn [alt_walk]; destruct (alts !! h) as [e|]; [done|by intros [= <-]| |by intros [= <-]].
  intros E. apply outcome_bind_ret in E as (rest & _ & E). injection E as <-. by intros [= <-].
Qed.

Lemma last_app_ne {A} (l1 l2 : list A) : l2 ≠ [] → list.last (l1 ++ l2) = list.last l2.
Proof. intros Hne. destruct l2 as [|x l2 _] using rev_ind; [done|]. by rewrite app_assoc, !last_snoc. Qed.

Lemma doBuildSparseChain_ret start s bc :
  bi_ok (m_blockIndex bc) → known_at start s bc →
  ∃ chain, doBuildSparseChain start bc = Ret chain ∧ head chain = Some start ∧
    list.last chain = m_blockIndex bc !! 0%nat ∧ chain ≠ [].
Proof.
  intros Hok Hk. unfold doBuildSparseChain.
  assert (∀ h z, bi_getBlockHeight h (m_blockIndex bc) = Some z → bi_hasBlock h (m_blockIndex bc) = true ∧
    0 < Z.of_nat (length (m_blockIndex bc))) as Hhas.
  { intros h z Hz. apply getBlockHeight_spec in Hz as [_ Hz]; [|done]. pose proof (lookup_lt_Some _ _ _ Hz).
    split; [|lia]. apply bool_decide_eq_true. by eapply list_elem_of_lookup_2. }
  assert (∀ n, 0 < n < 2 ^ 32 → negb (u32 n =? 0) = true) as Hn.
  { intros n ?. rewrite u32_small by (unfold in_range; lia). by rewrite (proj2 (Z.eqb_neq _ _)) by lia. }
  pose proof Hok as [_ Hlen]. unfold bi_size. destruct Hk as [Hk|(Hno & walk & h & e & Ew & El & Hw & Hk)].
  all: destruct (Hhas _ _ Hk) as [Hb Hpos]; rewrite Hn by lia; cbn [assert_ mbind outcome_bind].
  all: destruct (buildSparseChain_ret _ _ _ Hok Hk) as (l & E & Hhd & Hlast & _).
  - rewrite Hb, E. exists l. split_and!; [done..|]. by intros ->.
  - assert (bi_hasBlock start (m_blockIndex bc) = false) as -> by (by apply bool_decide_eq_false).
    rewrite Ew. cbn [mbind outcome_bind]. rewrite El.
    destruct (alt_sparse_total 65 0 (fst <$> walk)) as (r & Er & _ & Hr); [lia|by rewrite length_fmap|lia|].
    change (2 ^ 0) with 1 in Er. rewrite Er. cbn [mbind outcome_bind]. rewrite Hb. cbn [assert_ mbind outcome_bind].
    rewrite E. cbn [mbind outcome_bind]. exists (r ++ l). specialize (Hr eq_refl).
    assert (l ≠ []) as Hl by (by intros ->). split_and!; [done| |by rewrite last_app_ne|by destruct r].
    destruct r as [|x r]; [by destruct walk|]. cbn in Hr |- *. symmetry in Hr. by rewrite (alt_walk_head _ _ _ _ _ Ew Hr).
Qed.

(** ** Theorems *)

(** the values of a [ShuffleGenerator] of size [n] are the numbers below [n], each
    once, whatever the random numbers are; the call after them throws. *)
Theorem shuffle_permutation draws n j :
  draws_ok draws → Z.of_nat n < 2 ^ 64 →
  (∃ vs, shuffle n j draws (new_ShuffleGenerator (Z.of_nat n)) = Ret vs ∧ vs ≡ₚ seqZ 0 (Z.of_nat n)) ∧
  shuffle (S n) j draws (new_ShuffleGenerator (Z.of_nat n)) = Throw "shuffle sequence ended".
Proof.
  intros Hd Hn. split.
  - destruct (shuffle_perm n j draws (new_ShuffleGenerator (Z.of_nat n)) Hd eq_refl Hn) as (vs & E & Hp).
    exists vs. split; [done|]. rewrite Hp. unfold remaining. cbn [new_ShuffleGenerator sg_selected sg_count].
    rewrite (list_fmap_ext _ id); [by rewrite list_fmap_id|]. intros i x _. by rewrite lookup_empty.
  - assert (∀ m j g, sg_count g = Z.of_nat m → sg_count g < 2 ^ 64 →
      shuffle (S m) j draws g = Throw "shuffle sequence ended") as Hend; [|by apply Hend].
    clear n j Hn. induction m as [|m IH]; intros j g Hc Hlt; cbn [shuffle].
    + unfold shuffle_next. by rewrite Hc.
    + destruct (shuffle_next_perm (draws j) g ltac:(lia) (Hd j)) as (v & g' & -> & Hc' & _). cbn [mbind outcome_bind].
      cbn [shuffle] in IH. by rewrite (IH (S j) g') by lia.
Qed.

Lemma shuffle_permutation_witness :
  ∃ vs, shuffle 5 0 (λ j m, m / 2) (new_ShuffleGenerator 5) = Ret vs ∧ vs ≡ₚ seqZ 0 5.
Proof.
  apply (shuffle_permutation (λ j m, m / 2) 5 0); [|done]. intros j m Hm. zlia.
Defined.

(** queries for transactions find what the stored blocks have: [getTransactions] does
    not fail, it returns for the hashes of stored transactions transactions with these
    hashes, in the order of the request, and reports the others as missed. *)
Theorem transaction_queries_exact `{CryptoOps} uninit c bc ids :
  cache_exact uninit c bc → blocks_size bc < 2 ^ 32 →
  (∀ h, is_Some (m_transactionMap (m_tables bc) !! h) ↔ stored bc h) ∧
  ∃ txs, getTransactions ids false bc = Ret (txs, filter (λ h, m_transactionMap (m_tables bc) !! h = None) ids) ∧
    hashes_match txs (filter (λ h, is_Some (m_transactionMap (m_tables bc) !! h)) ids).
Proof.
  intros Hc Hs. split.
  - intros h. pose proof (transaction_map_exact uninit c bc h Hc Hs) as Hx.
    destruct (m_transactionMap (m_tables bc) !! h) as [ti|]; [|split; [by intros []|done]].
    split; [|by eexists]. intros _. destruct Hx as (i & blk & e & _ & Hi & _ & He & Hh). exists blk, e.
    split_and!; [by eapply list_elem_of_lookup_2|done..].
  - unfold getTransactions.
    assert (∃ txs, getBlockchainTransactions ids bc =
      Ret (txs, filter (λ h, m_transactionMap (m_tables bc) !! h = None) ids) ∧
      hashes_match txs (filter (λ h, is_Some (m_transactionMap (m_tables bc) !! h)) ids)) as (txs & -> & Hm);
      [|by exists txs].
    induction ids as [|h ids (txs & IH & Hm)]; cbn [getBlockchainTransactions]; [exists []; split; [done|constructor]|].
    pose proof (transaction_map_exact uninit c bc h Hc Hs) as Hx. rewrite !filter_cons.
    destruct (m_transactionMap (m_tables bc) !! h) as [ti|]; rewrite IH.
    + destruct Hx as (i & blk & e & _ & _ & Ee & _ & Hh). rewrite Ee. cbn [mbind outcome_bind].
      rewrite (decide_False (P := Some ti = None)), (decide_True (P := is_Some (Some ti))) by done.
      exists (te_tx e :: txs). split; [done|]. by constructor.
    + cbn [mbind outcome_bind]. rewrite (decide_True (P := None = None)), (decide_False (P := is_Some None)) by (done || by intros []).
      by exists txs.
Qed.

Lemma transaction_queries_exact_witness :
  ∃ txs, getTransactions [toy_hash (toy_coinbase 0 []); toy_hash toy_spend] false toy_chain =
      Ret (txs, filter (λ h, m_transactionMap (m_tables toy_chain) !! h = None)
                  [toy_hash (toy_coinbase 0 []); toy_hash toy_spend]).
Proof.
  destruct (transaction_queries_exact (H := toy_crypto) [] mainnet toy_chain
    [toy_hash (toy_coinbase 0 []); toy_hash toy_spend]) as (_ & txs & E & _);
    [exact (proj1 toy_chain_inv)|vm_compute; reflexivity|]. by exists txs.
Defined.

(** outputs for mixing: when the outputs of an amount can be found in the blocks, a
    request for the amount is answered, whatever the random numbers are, with at most
    as many entries as asked for, of different outputs below the limit of fresh ones,
    each an unlocked key output with its key. *)
Theorem random_outs_sound `{CryptoOps} c now draws amount outs_count amount_outs bc :
  draws_ok draws → m_outputs (m_tables bc) !! amount = Some amount_outs → Z.of_nat (length amount_outs) < 2 ^ 32 →
  Forall (λ o, ∃ e, transactionByIndex (m_blocks bc) (fst o) = Ret e) amount_outs → 0 <= outs_count →
  ∃ outs, random_outs_for_amount c now draws amount outs_count bc = Ret outs ∧
    Z.of_nat (length outs) <= outs_count ∧ NoDup (global_amount_index <$> outs) ∧
    Forall (entry_ok c now amount_outs bc (find_end_of_allowed_index c amount_outs bc)) outs.
Proof.
  intros Hd Ho Hl Hr Hn. unfold random_outs_for_amount. rewrite Ho.
  pose proof (end_of_allowed_le c bc (reverse amount_outs)) as Hlim. rewrite length_reverse in Hlim.
  fold (find_end_of_allowed_index c amount_outs bc) in Hlim. set (limit := find_end_of_allowed_index c amount_outs bc) in *.
  destruct (Z.ltb_spec 0 limit) as [Hpos|]; [|exists []; split_and!; [done|cbn; lia|constructor..]].
  assert (remaining (new_ShuffleGenerator limit) = seqZ 0 limit) as Hrem.
  { unfold remaining. cbn [new_ShuffleGenerator sg_selected sg_count].
    rewrite (list_fmap_ext _ id); [by rewrite list_fmap_id|]. intros i x _. by rewrite lookup_empty. }
  destruct (random_outs_loop_spec c now amount_outs bc Hr limit draws outs_count (Z.to_nat limit) 0
    (new_ShuffleGenerator limit) []) as (outs & E & H1 & H2 & H3); try (done || cbn; lia).
  - rewrite Hrem. apply List.Forall_forall. intros i Hi. apply list_elem_of_In, elem_of_seqZ in Hi. lia.
  - rewrite Hrem. apply NoDup_seqZ.
  - by exists outs.
Qed.

(** C30: synchronisation: the hashes a node sends for a block of its main chain or of an
    alternative chain begin with that block and end with the genesis block. A node with
    the same genesis block answers them, without a failed assertion, with a part of its
    main chain that begins with one of these hashes. *)
Theorem sync_request_answered start s maxCount bc bc' :
  bi_ok (m_blockIndex bc) → bi_ok (m_blockIndex bc') → known_at start s bc →
  m_blockIndex bc !! 0%nat = m_blockIndex bc' !! 0%nat → 0 < maxCount < 2 ^ 32 →
  ∃ chain hashes total offset h, doBuildSparseChain start bc = Ret chain ∧ head chain = Some start ∧
    findBlockchainSupplement_ids chain maxCount bc' = Ret (hashes, total, offset) ∧
    0 <= offset ∧ hashes `prefix_of` drop (Z.to_nat offset) (m_blockIndex bc') ∧ head hashes = Some h ∧ h ∈ chain.
Proof.
  intros Hok Hok' Hk Hg Hm. destruct (doBuildSparseChain_ret start s bc Hok Hk) as (chain & E & Hhd & Hlast & Hne).
  assert (∃ g, m_blockIndex bc' !! 0%nat = Some g ∧ list.last chain = Some g) as (g & Hg0 & Hgl).
  { rewrite <- Hg, <- Hlast. destruct chain as [|x l _] using rev_ind; [done|]. rewrite last_snoc. by exists x. }
  assert (remote_ids_ok chain bc' = Ret ()) as Hr.
  { unfold remote_ids_ok. rewrite Hgl. rewrite (proj2 (getBlockId_ret 0 _ g ltac:(lia))) by done.
    cbn [mbind outcome_bind]. by rewrite bool_decide_eq_true_2. }
  pose proof (findSupplement_spec chain (m_blockIndex bc')) as Hf.
  destruct (bi_findSupplement chain (m_blockIndex bc')) as [o|] eqn:Eo.
  2: { exfalso. apply (Hf g); [|by eapply list_elem_of_lookup_2]. apply list.last_Some in Hgl as (l & ->).
       apply elem_of_app. right. by left. }
  destruct Hf as (h & Hh & Ho). apply getBlockHeight_spec in Ho as [Ho0 Ho]; [|done].
  pose proof (lookup_lt_Some _ _ _ Ho) as Hlt. exists chain, (bi_getBlockIds o maxCount (m_blockIndex bc')).
  exists (getCurrentBlockchainHeight (m_blocks bc')), o, h. split; [done|]. split; [done|]. split.
  { unfold findBlockchainSupplement_ids, findBlockchainSupplement. rewrite Hr. cbn [mbind outcome_bind]. rewrite Eo.
    cbn [mbind mret outcome_bind outcome_ret]. by rewrite u32_small by (unfold in_range; lia). }
  split; [done|]. unfold bi_getBlockIds. case_bool; [lia|]. split; [apply prefix_take|]. split; [|done].
  apply drop_S in Ho. rewrite Ho. destruct (Z.to_nat (Z.min _ _)) eqn:En; [lia|done].
Qed.

Lemma sync_request_answered_witness :
  match toy_add_all [block0; block1; block2; block3; other3] (new_Blockchain empty_Pool),
        toy_add_all [block0; block1] (new_Blockchain empty_Pool) with
  | Some bc, Some bc' =>
      ∃ chain hashes total offset h, doBuildSparseChain (toy_block_hash other3) bc = Ret chain ∧
        head chain = Some (toy_block_hash other3) ∧
        findBlockchainSupplement_ids chain 10 bc' = Ret (hashes, total, offset) ∧
        0 <= offset ∧ hashes `prefix_of` drop (Z.to_nat offset) (m_blockIndex bc') ∧ head hashes = Some h ∧ h ∈ chain
  | _, _ => False
  end.
Proof.
  destruct (toy_add_all [block0; block1; block2; block3; other3] _) as [bc|] eqn:E; [|by vm_compute in E].
  destruct (toy_add_all [block0; block1] _) as [bc'|] eqn:E'; [|by vm_compute in E'].
  vm_compute in E. injection E as <-. vm_compute in E'. injection E' as <-.
  apply (sync_request_answered (toy_block_hash other3) 2).
  - split; [apply (bool_decide_unpack _); by vm_compute|done].
  - split; [apply (bool_decide_unpack _); by vm_compute|done].
  - right. split; [apply (bool_decide_unpack _); by vm_compute|].
    match goal with |- context [alt_walk ?n ?a ?h] => destruct (alt_walk n a h) as [walk| |] eqn:Ew; [|by vm_compute in Ew..] end.
    vm_compute in Ew. injection Ew as <-. do 3 eexists. split; [reflexivity|]. split; [reflexivity|]. split; [reflexivity|].
    vm_compute. reflexivity.
  - vm_compute. reflexivity.
  - lia.
Defined.

(** A chain of twenty blocks whose outputs of the amount 5 are those of the first. *)
Definition old_chain : Blockchain := {|
  m_blocks := mjoin (replicate 20 sample_blocks); m_blockIndex := m_blockIndex toy_chain; m_tables := m_tables toy_chain;
  m_depositIndex := m_depositIndex toy_chain; m_upgradeDetectorV2 := UNDEF_HEIGHT; m_upgradeDetectorV3 := UNDEF_HEIGHT;
  m_timestampIndex := []; m_generatedTransactionsIndex := new_GeneratedTransactionsIndex;
  m_orthanBlocksIndex := []; m_alternative_chains := ∅; m_checkpoints := [];
  m_current_block_cumul_sz_limit := 0; m_tx_pool := empty_Pool |}.

Lemma random_outs_sound_witness :
  ∃ outs, random_outs_for_amount mainnet 100 (λ j m, 0) 5 3 old_chain = Ret outs ∧ length outs = 1%nat ∧
    NoDup (global_amount_index <$> outs).
Proof.
  destruct (m_outputs (m_tables old_chain) !! 5) as [ao|] eqn:Eo; [|by vm_compute in Eo].
  destruct (random_outs_sound (H := toy_crypto) mainnet 100 (λ j m, 0) 5 3 ao old_chain) as (outs & E & _ & Hnd & _).
  - intros j m Hm. lia.
  - exact Eo.
  - vm_compute in Eo. injection Eo as <-. done.
  - vm_compute in Eo. injection Eo as <-. constructor; [|constructor]. eexists. vm_compute. reflexivity.
  - lia.
  - exists outs. split; [exact E|]. split; [|exact Hnd]. vm_compute in E. by injection E as <-.
Defined.

(** the binary search of [getLowerBound] ends within the blocks from the offset on,
    and when their times do not decrease, it finds the first block that is not before
    the time. *)
Theorem lower_bound_exact v first n value :
  0 <= first → first + Z.of_nat n <= Z.of_nat (length v) →
  ∃ r, lower_bound n v first (Z.of_nat n) value = Ret r ∧ first <= r <= first + Z.of_nat n ∧
    ((∀ i j x y, (i <= j)%nat → v !! i = Some x → v !! j = Some y → x <= y) →
     ∀ i x, first <= Z.of_nat i < first + Z.of_nat n → v !! i = Some x → x < value ↔ Z.of_nat i < r).
Proof.
  assert (∀ fuel first len, 0 <= first → 0 <= len <= Z.of_nat fuel → first + len <= Z.of_nat (length v) →
    ∃ r, lower_bound fuel v first len value = Ret r ∧ first <= r <= first + len ∧
      ((∀ i j x y, (i <= j)%nat → v !! i = Some x → v !! j = Some y → x <= y) →
       ∀ i x, first <= Z.of_nat i < first + len → v !! i = Some x → x < value ↔ Z.of_nat i < r)) as Hgen;
    [|intros; apply Hgen; lia].
  clear first n. induction fuel as [|fuel IH]; intros first len Hf Hlen Hv; cbn [lower_bound].
  { rewrite (proj2 (Z.leb_le _ _)) by lia. exists first. split; [done|]. split; [lia|]. intros _ i x Hi. lia. }
  destruct (Z.leb_spec len 0); [exists first; split; [done|]; split; [lia|]; intros _ i x Hi; lia|].
  rewrite Z.shiftr_div_pow2 by lia. change (2 ^ 1) with 2. assert (0 <= len / 2 < len) as Hh by zlia.
  set (half := len / 2) in *.
  destruct (lookup_lt_is_Some_2 v (Z.to_nat (first + half))) as [x Hx]; [lia|].
  rewrite (at_Some v (first + half) x) by (done || lia). cbn [mbind outcome_bind].
  destruct (Z.ltb_spec x value) as [Hlt|Hge].
  - destruct (IH (first + half + 1) (len - half - 1)) as (r & E & Hr & Hs); [lia..|]. exists r. split; [done|].
    split; [lia|]. intros Hsort i y Hi Hy. destruct (Z.le_gt_cases (first + half + 1) (Z.of_nat i)).
    + apply Hs; [done|lia|done].
    + pose proof (Hsort i (Z.to_nat (first + half)) y x ltac:(lia) Hy Hx). lia.
  - destruct (IH first half) as (r & E & Hr & Hs); [lia..|]. exists r. split; [done|]. split; [lia|].
    intros Hsort i y Hi Hy. destruct (Z.lt_ge_cases (Z.of_nat i) (first + half)).
    + apply Hs; [done|lia|done].
    + pose proof (Hsort (Z.to_nat (first + half)) i x y ltac:(lia) Hx Hy). lia.
Qed.

Lemma lower_bound_exact_witness :
  ∃ r, lower_bound 3 [10; 20; 30; 40] 1 3 25 = Ret r ∧ 1 <= r <= 4.
Proof.
  destruct (lower_bound_exact [10; 20; 30; 40] 1 3 25) as (r & E & Hr & _); [lia|cbn; lia|].
  exists r. split; [exact E|lia].
Defined.
