(* ===== verification/Core.v ===== *)
(** * Transactions from the network

    [src/src/CryptoNoteCore/Core.cpp]: how a transaction that arrives as bytes gets
    into the memory pool ([handle_incoming_tx], [handleIncomingTransaction],
    [add_new_tx]) and the checks it passes on its way that do not depend on the chain
    ([check_tx_semantic]). Messages to observers and the log are left out. *)

From S2P Require Import Prelude Streams CryptoNoteTypes Serialization CryptoNoteSerialization Crypto Config Currency.
From S2P Require Import Amounts Difficulty TransactionExtra FormatUtils DepositIndex BlockIndex Checkpoints UpgradeDetector.
From S2P Require Import BlockchainIndices ChainState InputCheck TransactionPool BlockRules Blockchain ChainInvariant.
From S2P Require Import NodeInvariant AlternativeChains ChainLinks BlockQueries.

Local Open Scope Z_scope.

(** ** Checks of a transaction by itself *)

Fixpoint images_differ (ins : list TransactionInput) (ki : gset KeyImage) : bool :=
  match ins with
  | [] => true
  | InKey k :: ins' =>
      if bool_decide (ki_keyImage k ∈ ki) then false else images_differ ins' ({[ki_keyImage k]} ∪ ki)
  | _ :: ins' => images_differ ins' ki
  end.
Definition check_tx_inputs_keyimages_diff (tx : Transaction) : bool := images_differ (inputs tx) ∅.

Definition check_tx_syntax (tx : Transaction) : bool := true.

Section Core.
Context `{CryptoOps}.
Variable uninit : list Z.
Variable c : Currency.
Variable now : Z.
#[local] Instance core_validator : ITransactionValidator Blockchain := chain_validator uninit c now.

(** The amounts are compared a second time when they do not fit, at the same height. *)
Definition check_tx_semantic (tx : Transaction) (height : Z) : outcome bool :=
  if bool_decide (inputs tx = []) then mret false
  else if negb (check_inputs_types_supported tx) then mret false
  else
    errmsg ← check_outs_valid tx true;
    match errmsg with
    | Some _ => mret false
    | None =>
        fits ← check_money_overflow tx;
        if negb fits then mret false
        else
          amount_in ← getTransactionAllInputsAmount c tx height;
          let amount_out := get_outs_money_amount tx in
          wrong ← (if amount_in <? amount_out then
                     let testHeight := height in
                     amount_in ← getTransactionAllInputsAmount c tx testHeight;
                     mret (amount_in <? amount_out)
                   else mret false);
          if wrong : bool then mret false
          else if negb (check_tx_inputs_keyimages_diff tx) then mret false
          else if negb (checkMultisignatureInputsDiff tx) then mret false
          else mret true
    end.

(** ** The way into the pool *)

Definition add_new_tx (tx : Transaction) (tx_hash : Hash) (blob_size : Z) (tvc : tx_verification_context)
    (keeped_by_block : bool) (height : Z) (bc : Blockchain) : outcome (bool * tx_verification_context * Blockchain) :=
  if haveTransaction (m_tables bc) tx_hash then mret (true, tvc, bc)
  else if have_tx tx_hash (m_tx_pool bc) then mret (true, tvc, bc)
  else
    '(r, tvc, p) ← add_tx c bc now tx tx_hash blob_size tvc keeped_by_block height (m_tx_pool bc);
    mret (r, tvc, with_pool p bc).

Definition handleIncomingTransaction (tx : Transaction) (txHash : Hash) (blobSize : Z) (tvc : tx_verification_context)
    (keptByBlock : bool) (height : Z) (bc : Blockchain) : outcome (bool * tx_verification_context * Blockchain) :=
  if negb (check_tx_syntax tx) then mret (false, tvc_failed tvc, bc)
  else
    ok ← check_tx_semantic tx height;
    if negb ok then mret (false, tvc_failed tvc, bc)
    else add_new_tx tx txHash blobSize tvc keptByBlock height bc.

Definition parse_tx_from_blob (blob : BinaryArray) : outcome (option (Transaction * Hash * Hash)) :=
  parseAndValidateTransactionFromBinaryArray blob.

Definition handle_incoming_tx (tx_blob : BinaryArray) (keeped_by_block : bool) (bc : Blockchain)
    : outcome (bool * tx_verification_context * Blockchain) :=
  let tvc := empty_tvc in
  let size := u64 (Z.of_nat (length tx_blob)) in
  if m_maxTxSize c <? size then mret (false, tvc_failed tvc, bc)
  else
    r ← parse_tx_from_blob tx_blob;
    match r with
    | None => mret (false, tvc_failed tvc, bc)
    | Some (tx, tx_hash, _) =>
        found ← getBlockContainingTransaction tx_hash bc;
        let blockHeight := match found with
                           | Some (_, blockHeight) => blockHeight
                           | None => getCurrentBlockchainHeight (m_blocks bc)
                           end in
        handleIncomingTransaction tx tx_hash size tvc keeped_by_block blockHeight bc
    end.

(** ** What the checks give *)

Lemma images_differ_NoDup ins : ∀ ki,
  images_differ ins ki = true → NoDup (key_images ins) ∧ ∀ k, k ∈ key_images ins → k ∉ ki.
Proof.
  induction ins as [|[i|k|m] ins IH]; intros ki E; cbn [images_differ] in E;
    [|by apply IH| |by apply IH].
  { split; [constructor|]. intros k Hk. by apply not_elem_of_nil in Hk. }
  destruct (bool_decide_reflect (ki_keyImage k ∈ ki)) as [|Hk]; [done|]. apply IH in E as [Hnd Hnot].
  rewrite key_images_cons. split.
  - apply list.NoDup_cons. split; [|done]. intros Hin. apply (Hnot _ Hin). by apply elem_of_union_l, elem_of_singleton.
  - intros k' [->|Hk']%elem_of_cons; [done|]. intros Hin. apply (Hnot _ Hk'). by apply elem_of_union_r.
Qed.

Lemma check_tx_semantic_wf (tx : Transaction) height : check_tx_semantic tx height = Ret true → wf_inputs tx.
Proof.
  unfold check_tx_semantic. intros E. case_bool_in E; [done|]. case_bool_in E; [done|].
  apply outcome_bind_ret in E as ([e|] & _ & E); [done|]. apply outcome_bind_ret in E as (fits & _ & E).
  case_bool_in E; [done|]. apply outcome_bind_ret in E as (amount & _ & E). cbv zeta in E.
  apply outcome_bind_ret in E as ([] & _ & E); [done|].
  destruct (check_tx_inputs_keyimages_diff tx) eqn:Hk; [|done]. cbn [negb] in E.
  destruct (checkMultisignatureInputsDiff tx) eqn:Hm; [|done]. split; [|done].
  by apply images_differ_NoDup in Hk as [? _].
Qed.

(** A new transaction with distinct key images, none of them in use unless it comes
    from a block, is entered. *)
Lemma addTransactionInputs_fresh id kept ins : ∀ images spent ok images' spent',
  NoDup (key_images ins) →
  (∀ k, k ∈ key_images ins → (id ∉ at_key images k) ∧ (kept = false → at_key images k = ∅)) →
  addTransactionInputs id ins kept images spent = Ret (ok, images', spent') → ok = true.
Proof.
  induction ins as [|[i|k|m] ins IH]; intros images spent ok images' spent' Hnd Hk E; cbn [addTransactionInputs] in E.
  - by injection E as <- _ _.
  - by eapply IH.
  - rewrite key_images_cons in Hnd, Hk. apply list.NoDup_cons in Hnd as [Hn Hnd].
    destruct (Hk (ki_keyImage k) ltac:(by left)) as [Hid Hfree]. unfold at_key in Hid, Hfree. cbv zeta in E.
    assert (kept || (size (default ∅ (images !! ki_keyImage k)) =? 0)%nat = true) as Hc.
    { destruct kept; [done|]. rewrite Hfree, size_empty by done. done. }
    rewrite Hc in E. cbn [negb] in E. rewrite bool_decide_false in E by done. eapply IH; [done| |exact E].
    intros k' Hk'. rewrite at_key_insert. rewrite decide_False by (intros Ek; apply Hn; by rewrite Ek). by apply Hk; right.
  - destruct kept; cbn [negb] in E; [by eapply IH|]. apply outcome_bind_ret in E as ([] & _ & E). by eapply IH.
Qed.

(** A transaction that the pool does not have is added without an error. *)
Lemma add_tx_complete (tx : Transaction) id size kept height bc p ok tvc p' :
  pool_ok p → wf_inputs tx → have_tx id p = false →
  add_tx c bc now tx id size empty_tvc kept height p = Ret (ok, tvc, p') → m_added_to_pool tvc = true → ok = true.
Proof.
  intros Hok [Hnd _] Hnew E Hadded. destruct (add_tx_added _ _ _ _ _ _ _ _ _ _ _ _ E Hadded) as (_ & txd & ttl & l &
    images & spent & _ & _ & _ & _ & _ & Hfree & _ & _ & Hin & _).
  eapply addTransactionInputs_fresh; [exact Hnd| |exact Hin]. intros k Hk. split.
  - intros (t & Ht & Hid & _)%(ok_key_images p Hok). apply bool_decide_eq_false in Hnew. apply Hnew.
    exists t. by apply find_id_Some; [apply (ok_ids p Hok)|].
  - intros Hkept. destruct (haveSpentInputs_false _ _ (Hfree Hkept)) as [Himg _]. unfold at_key. by rewrite Himg.
Qed.

(** A call that does not put the transaction into the pool leaves the pool. *)
Lemma add_tx_not_added (tx : Transaction) id size kept height bc p ok tvc p' :
  add_tx c bc now tx id size empty_tvc kept height p = Ret (ok, tvc, p') → m_added_to_pool tvc = false → p' = p.
Proof.
  unfold add_tx. intros E Ha. case_bool_in E; [by injection E as _ _ <-|].
  apply outcome_bind_ret in E as (amount & _ & E). cbv zeta in E. case_bool_in E; [by injection E as _ _ <-|].
  apply outcome_bind_ret in E as (ttl & _ & E). apply outcome_bind_ret in E as (fusion & _ & E).
  case_bool_in E; [by injection E as _ _ <-|]. case_bool_in E; [by injection E as _ _ <-|].
  apply outcome_bind_ret in E as ([valid used] & _ & E). case_bool_in E; [by injection E as _ _ <-|].
  case_bool_in E; [by injection E as _ _ <-|]. case_bool_in E; [by injection E as _ _ <-|].
  destruct (find_id id (m_transactions p)); [by injection E as _ _ <-|].
  apply outcome_bind_ret in E as (l & _ & E). apply outcome_bind_ret in E as ([b pids] & _ & E).
  unfold TimestampTransactionsIndex_add, TimestampBlocksIndex_add in E. cbv zeta in E.
  apply outcome_bind_ret in E as ([[ok' images] spent] & _ & E). injection E as _ <- _. done.
Qed.

(** What a transaction does to a node. *)
Lemma add_new_tx_effect (tx : Transaction) id size kept height bc ok tvc bc' :
  node_inv uninit c bc → wf_inputs tx → getObjectHash cn_fast_hash serialize_Transaction tx = Ret id → has_payment tx →
  add_new_tx tx id size empty_tvc kept height bc = Ret (ok, tvc, bc') →
  node_inv uninit c bc' ∧ ∃ p, bc' = with_pool p bc ∧
    if m_added_to_pool tvc then ok = true ∧ contents p ≡ₚ (id, tx) :: contents (m_tx_pool bc)
    else p = m_tx_pool bc.
Proof.
  intros Hinv Hwf Hh Hpay E. assert (bc = with_pool (m_tx_pool bc) bc) as Hself by (by destruct bc). unfold add_new_tx in E.
  destruct (haveTransaction (m_tables bc) id) eqn:Hc; [injection E as _ <- <-; split; [done|]; by eexists|].
  destruct (have_tx id (m_tx_pool bc)) eqn:Hp; [injection E as _ <- <-; split; [done|]; by eexists|].
  apply outcome_bind_ret in E as ([[r tvc'] p] & E & Er). injection Er as <- <- <-.
  pose proof Hinv as (Hch & Hok & Hsem). destruct (m_added_to_pool tvc') eqn:Ha.
  - pose proof (add_tx_complete _ _ _ _ _ _ _ _ _ _ Hok Hwf Hp E Ha) as ->.
    destruct (add_tx_pool_ok _ _ _ _ _ _ _ _ _ _ _ Hok Hh Hpay E Ha) as (Hok' & txd & Hid & Htx & _ & Hperm).
    assert (contents p ≡ₚ (id, tx) :: contents (m_tx_pool bc)) as Hcon
      by (unfold contents; rewrite Hperm; cbn; by rewrite Hid, Htx).
    split; [|by exists p]. split; [by apply chain_inv_pool|]. split; [done|]. intros h tx' Hin. cbn in *.
    rewrite Hcon in Hin. apply elem_of_cons in Hin as [[= -> ->]|Hin]; [|by apply Hsem]. split; [apply Hwf|].
    apply bool_decide_eq_false in Hc. by apply eq_None_not_Some.
  - apply add_tx_not_added in E as ->; [|done]. rewrite <- Hself. split; [done|]. by eexists.
Qed.
End Core.

(** ** Theorem *)

(** C36: bytes that arrive from the network leave the node consistent: either nothing
    changes, or the pool holds one transaction more, the one the bytes encode under
    the hash of the bytes, and the call reports success. No transaction with two equal
    key images or two equal multisignature inputs gets into the pool, and none that
    the chain or the pool has. This is for calls that return, on fewer than [2 ^ 64]
    bytes and a node that is consistent before. *)
Theorem incoming_transaction_invariant `{CryptoOps} uninit c now blob kept bc ok tvc bc' :
  node_inv uninit c bc → is_bytes blob → Z.of_nat (length blob) < 2 ^ 64 →
  handle_incoming_tx uninit c now blob kept bc = Ret (ok, tvc, bc') →
  node_inv uninit c bc' ∧ ∃ p, bc' = with_pool p bc ∧
    if m_added_to_pool tvc then
      ok = true ∧ ∃ tx, toBinaryArray serialize_Transaction tx [] = Ret (Some blob) ∧ wf_inputs tx ∧
        contents p ≡ₚ (cn_fast_hash blob, tx) :: contents (m_tx_pool bc)
    else p = m_tx_pool bc.
Proof.
  intros Hinv Hb Hl E. assert (bc = with_pool (m_tx_pool bc) bc) as Hself by (by destruct bc).
  unfold handle_incoming_tx in E. cbv zeta in E. case_bool_in E; [injection E as _ <- <-; split; [done|]; by eexists|].
  apply outcome_bind_ret in E as (r & Er & E). unfold parse_tx_from_blob, parseAndValidateTransactionFromBinaryArray in Er.
  destruct (from_to_array _ _ _ Transaction_codec empty_transaction blob Hb Hl) as (res & Eres & Hres).
  rewrite Eres in Er. cbn [mbind outcome_bind] in Er. destruct res as [tx|].
  2: { injection Er as <-. injection E as _ <- <-. split; [done|]. by eexists. }
  destruct (Hres tx eq_refl) as [Henc Hba]. apply outcome_bind_ret in Er as (ph & _ & Er). injection Er as <-.
  apply outcome_bind_ret in E as (found & _ & E). cbv zeta in E. unfold handleIncomingTransaction in E. cbn [negb check_tx_syntax] in E.
  apply outcome_bind_ret in E as (sem & Esem & E). destruct sem; cbn [negb] in E;
    [|injection E as _ <- <-; split; [done|]; by eexists].
  apply check_tx_semantic_wf in Esem. assert (getObjectHash cn_fast_hash serialize_Transaction tx = Ret (cn_fast_hash blob)) as Hh
    by (unfold getObjectHash; rewrite Hba; done).
  assert (has_payment tx) as Hpay.
  { destruct Henc as [(_ & _ & _ & _ & Hex & Hsmall) _]. unfold has_payment, getPaymentId.
    destruct (parseTransactionExtra_ret (extra tx) Hex) as (fields & b & ->); [|by eexists].
    unfold small_list, max_read_size in Hsmall. lia. }
  destruct (add_new_tx_effect _ _ _ _ _ _ _ _ _ _ _ _ Hinv Esem Hh Hpay E) as (Hinv' & p & -> & Hp).
  split; [done|]. exists p. split; [done|]. destruct (m_added_to_pool tvc); [|done]. destruct Hp as [-> Hp]. eauto.
Qed.

(** The bytes of a transaction that spends the output of the first block of the toy
    chain. *)
Definition toy_blob : BinaryArray :=
  match toBinaryArray serialize_Transaction toy_spend [] with Ret (Some ba) => ba | _ => [] end.

Lemma toy_chain_node_inv : node_inv (H := toy_crypto) [] mainnet toy_chain.
Proof.
  split; [exact toy_chain_inv|]. split; [exact (empty_pool_ok (H := toy_crypto))|].
  intros h tx Hin. by apply not_elem_of_nil in Hin.
Qed.

Lemma incoming_transaction_invariant_witness :
  match handle_incoming_tx (H := toy_crypto) [] mainnet 100 toy_blob false toy_chain with
  | Ret (ok, tvc, bc') => ok = true ∧ m_added_to_pool tvc = true ∧ node_inv (H := toy_crypto) [] mainnet bc' ∧
      contents (m_tx_pool bc') = [(toy_hash toy_spend, toy_spend)]
  | _ => False
  end.
Proof.
  destruct (handle_incoming_tx (H := toy_crypto) [] mainnet 100 toy_blob false toy_chain) as [[[ok tvc] bc']| |] eqn:E;
    [|by vm_compute in E..].
  destruct (incoming_transaction_invariant (H := toy_crypto) [] mainnet 100 toy_blob false toy_chain ok tvc bc'
    toy_chain_node_inv ltac:(apply (bool_decide_unpack _); by vm_compute) ltac:(by vm_compute) E) as (Hinv & _).
  split_and!; [..|exact Hinv|]; vm_compute in E; injection E as <- <- <-; vm_compute; reflexivity.
Defined.
