(* ===== verification/SignedArithmetic.v ===== *)
(** * Signed machine integers ([crypto/crypto-ops.c])

    What the arithmetic of [crypto/crypto-ops.c] shares: signed integers of 32 and 64
    bits, carries between limbs, and the packing of limbs into bytes. A signed sum,
    difference or product that leaves its type is undefined and is [Abort]; a shift to
    the left drops the bits that leave the type, and a conversion keeps the low bits.

    The lemmas say when an operation is defined and what it gives, in terms of bounds
    on absolute values, so that a program is followed line by line with its bounds
    ([step]). *)

From S2P Require Import Prelude Streams IntUtil.

Local Open Scope Z_scope.

(** ** Signed integers *)

Definition int32 (z : Z) : outcome Z := if (- 2 ^ 31 <=? z) && (z <? 2 ^ 31) then mret z else Abort.
Definition int64 (z : Z) : outcome Z := if (- 2 ^ 63 <=? z) && (z <? 2 ^ 63) then mret z else Abort.

(** Conversions to the signed types. *)
Definition cast32 (z : Z) : Z := (z + 2 ^ 31) mod 2 ^ 32 - 2 ^ 31.
Definition cast64 (z : Z) : Z := (z + 2 ^ 63) mod 2 ^ 64 - 2 ^ 63.

(** A sum of several terms, from the left. *)
Fixpoint sum_from (acc : Z) (l : list Z) : outcome Z :=
  match l with
  | [] => mret acc
  | x :: l' => acc ← int64 (acc + x); sum_from acc l'
  end.
Definition sum_i64 (l : list Z) : outcome Z :=
  match l with [] => mret 0 | x :: l' => sum_from x l' end.

Definition load_3 (s : list Z) (i : nat) : outcome Z :=
  b0 ← at_ s (Z.of_nat i); b1 ← at_ s (Z.of_nat (i + 1)); b2 ← at_ s (Z.of_nat (i + 2));
  mret (Z.lor (Z.lor b0 (Z.shiftl b1 8)) (Z.shiftl b2 16)).
Definition load_4 (s : list Z) (i : nat) : outcome Z :=
  b0 ← at_ s (Z.of_nat i); b1 ← at_ s (Z.of_nat (i + 1)); b2 ← at_ s (Z.of_nat (i + 2)); b3 ← at_ s (Z.of_nat (i + 3));
  mret (Z.lor (Z.lor (Z.lor b0 (Z.shiftl b1 8)) (Z.shiftl b2 16)) (Z.shiftl b3 24)).

(** A carry of [w] bits to the next limb, rounded to the nearest. *)
Definition carry (w h next : Z) : outcome (Z * Z) :=
  t ← int64 (h + 2 ^ (w - 1));
  let c := Z.shiftr t w in
  next ← int64 (next + c);
  h ← int64 (h - cast64 (Z.shiftl c w));
  mret (h, next).

(** The carry rounded down. *)
Definition carry_floor (w h next : Z) : outcome (Z * Z) :=
  let c := Z.shiftr h w in
  next ← int64 (next + c);
  h ← int64 (h - cast64 (Z.shiftl c w));
  mret (h, next).

(** A byte with the top bits [a] of one limb and, above them, low bits of the next one;
    the conversion to a byte drops all others. *)
Definition straddle (a b n : Z) : Z := u8 (Z.lor a (Z.shiftl b n)).

(** ** What a computation yields *)

(** [m] returns a value with the property [P]. *)
Definition yields {A} (m : outcome A) (P : A → Prop) : Prop := ∃ a, m = Ret a ∧ P a.

Lemma yields_ret {A} (a : A) P : P a → yields (mret a) P.
Proof. intros H. by exists a. Qed.

Lemma yields_bind {A B} (m : outcome A) (k : A → outcome B) P Q :
  yields m Q → (∀ a, Q a → yields (k a) P) → yields (a ← m; k a) P.
Proof. intros (a & -> & Ha) Hk. exact (Hk a Ha). Qed.

Lemma yields_impl {A} (m : outcome A) (P Q : A → Prop) :
  yields m P → (∀ a, P a → Q a) → yields m Q.
Proof. intros (a & -> & Ha) H. exists a. split; [done|by apply H]. Qed.

(** ** Checked operations under bounds *)

Lemma int32_yields z b : Z.abs z ≤ b → b < 2 ^ 31 → yields (int32 z) (λ x, x = z ∧ Z.abs x ≤ b).
Proof.
  intros Hz Hb. exists z. split; [|done]. unfold int32. case_bool; [done|].
  bool_to_prop. lia.
Qed.

Lemma int64_yields z b : Z.abs z ≤ b → b < 2 ^ 63 → yields (int64 z) (λ x, x = z ∧ Z.abs x ≤ b).
Proof.
  intros Hz Hb. exists z. split; [|done]. unfold int64. case_bool; [done|].
  bool_to_prop. lia.
Qed.

Lemma abs_mul_le x y a b : Z.abs x ≤ a → Z.abs y ≤ b → Z.abs (x * y) ≤ a * b.
Proof. intros. rewrite Z.abs_mul. apply Z.mul_le_mono_nonneg; lia. Qed.

Lemma abs_add_le x y a b : Z.abs x ≤ a → Z.abs y ≤ b → Z.abs (x + y) ≤ a + b.
Proof. lia. Qed.

Lemma abs_sub_le x y a b : Z.abs x ≤ a → Z.abs y ≤ b → Z.abs (x - y) ≤ a + b.
Proof. lia. Qed.

Lemma abs_opp_le x a : Z.abs x ≤ a → Z.abs (- x) ≤ a.
Proof. lia. Qed.

Lemma abs_self x : Z.abs x ≤ Z.abs x.
Proof. lia. Qed.

Lemma abs_le_weaken x a b : Z.abs x ≤ a → (a <=? b) = true → Z.abs x ≤ b.
Proof. intros ? ?%Z.leb_le. lia. Qed.

(** A sum from the left stays within the sum of the bounds. *)
Definition total (l : list Z) : Z := foldr Z.add 0 l.

Lemma total_bounds l bs : Forall2 (λ x b, Z.abs x ≤ b) l bs → 0 ≤ total bs.
Proof. induction 1; simpl; lia. Qed.

Lemma sum_from_yields l bs acc b :
  Forall2 (λ x b, Z.abs x ≤ b) l bs → Z.abs acc ≤ b → b + total bs < 2 ^ 63 →
  yields (sum_from acc l) (λ x, x = acc + total l ∧ Z.abs x ≤ b + total bs).
Proof.
  intros H. revert acc b. induction H as [|x b' l bs Hx Hl IH]; intros acc b Ha Hb; simpl in *.
  - apply yields_ret. lia.
  - apply total_bounds in Hl.
    eapply yields_bind; [apply (int64_yields _ (b + b')); lia|]. intros y [-> Hy].
    eapply yields_impl; [apply (IH _ _ Hy); lia|]. cbv beta. lia.
Qed.

Lemma sum_i64_yields l bs :
  Forall2 (λ x b, Z.abs x ≤ b) l bs → total bs < 2 ^ 63 →
  yields (sum_i64 l) (λ x, x = total l ∧ Z.abs x ≤ total bs).
Proof.
  intros [|x b l' bs' Hx Hl] Hb; simpl in *; [apply yields_ret; lia|].
  eapply yields_impl; [apply (sum_from_yields _ _ _ _ Hl Hx Hb)|]. cbv beta. lia.
Qed.

Lemma cast32_small z : - 2 ^ 31 ≤ z < 2 ^ 31 → cast32 z = z.
Proof. intros. unfold cast32. rewrite Z.mod_small; lia. Qed.

Lemma cast32_bound z b : Z.abs z ≤ b → (b <? 2 ^ 31) = true → cast32 z = z.
Proof. intros ? ?%Z.ltb_lt. apply cast32_small. lia. Qed.

Lemma cast64_small z : - 2 ^ 63 ≤ z < 2 ^ 63 → cast64 z = z.
Proof. intros. unfold cast64. rewrite Z.mod_small; lia. Qed.

(** ** Carries *)

Lemma quotient_bound h B w : 0 < w → Z.abs h ≤ B → Z.abs (h / 2 ^ w) ≤ B / 2 ^ w + 1.
Proof.
  intros Hw Hh. assert (0 < 2 ^ w) as Hp by (apply Z.pow_pos_nonneg; lia). set (W := 2 ^ w) in *.
  pose proof (Z.div_le_mono h B W Hp ltac:(lia)). pose proof (Z.div_pos B W ltac:(lia) Hp).
  assert (- (B / W) - 1 ≤ h / W); [|lia]. apply Z.div_le_lower_bound; [done|].
  pose proof (Z.div_mod B W ltac:(lia)). pose proof (Z.mod_pos_bound B W Hp). lia.
Qed.

(** A shift to the right, as the quotient. *)
Lemma shiftr_quotient t w B : 0 < w → Z.abs t ≤ B →
  ∃ q, Z.shiftr t w = q ∧ 2 ^ w * q ≤ t < 2 ^ w * q + 2 ^ w ∧ Z.abs q ≤ B / 2 ^ w + 1.
Proof.
  intros Hw Ht. exists (t / 2 ^ w). rewrite Z.shiftr_div_pow2 by lia.
  split; [done|]. split; [|by apply quotient_bound].
  assert (0 < 2 ^ w) as Hp by (apply Z.pow_pos_nonneg; lia).
  pose proof (Z.div_mod t (2 ^ w) ltac:(lia)). pose proof (Z.mod_pos_bound t (2 ^ w) Hp). lia.
Qed.

(** The carry rounded down takes away the quotient and leaves the remainder. *)
Lemma carry_floor_yields w h n B N :
  0 < w → Z.abs h ≤ B → Z.abs n ≤ N → B + 2 ^ w < 2 ^ 63 → N + (B / 2 ^ w + 1) < 2 ^ 63 →
  yields (carry_floor w h n) (λ '(h', n'), h' = h mod 2 ^ w ∧ n' = n + h / 2 ^ w ∧ Z.abs n' ≤ N + (B / 2 ^ w + 1)).
Proof.
  intros Hw Hh Hn Hb Hc. pose proof (quotient_bound h B w Hw Hh) as Hq.
  assert (0 < 2 ^ w) as Hp by (apply Z.pow_pos_nonneg; lia).
  pose proof (Z.div_mod h (2 ^ w) ltac:(lia)) as Hd. pose proof (Z.mod_pos_bound h (2 ^ w) Hp) as Hm.
  unfold carry_floor. rewrite Z.shiftr_div_pow2, Z.shiftl_mul_pow2, cast64_small by lia.
  eapply yields_bind; [apply (int64_yields _ _ (abs_add_le _ _ _ _ Hn Hq) Hc)|]. intros n' [-> Hn'].
  eapply yields_bind; [apply (int64_yields _ (2 ^ w)); lia|]. intros h' [-> _].
  apply yields_ret. split; [lia|done].
Qed.

(** The rounded carry leaves a remainder of least absolute value. *)
Lemma carry_yields w h n B N :
  0 < w → Z.abs h ≤ B → Z.abs n ≤ N → B + 2 ^ w < 2 ^ 62 → N + (B / 2 ^ w + 2) < 2 ^ 63 →
  yields (carry w h n) (λ '(h', n'), ∃ c, h' = h - c * 2 ^ w ∧ n' = n + c ∧
    Z.abs h' ≤ 2 ^ (w - 1) ∧ Z.abs n' ≤ N + (B / 2 ^ w + 2)).
Proof.
  intros Hw Hh Hn Hb Hc. assert (0 < 2 ^ (w - 1)) as Hp by (apply Z.pow_pos_nonneg; lia).
  assert (2 ^ w = 2 * 2 ^ (w - 1)) as Ew. { rewrite <- Z.pow_succ_r by lia. f_equal. lia. }
  set (H := 2 ^ (w - 1)) in *. set (W := 2 ^ w) in *.
  pose proof (quotient_bound (h + H) (B + H) w Hw ltac:(lia)) as Hq. fold W in Hq.
  assert ((B + H) / W ≤ B / W + 1) as Hq'.
  { rewrite <- Z.div_add by lia. apply Z.div_le_mono; lia. }
  pose proof (Z.div_mod (h + H) W ltac:(lia)) as Hd. pose proof (Z.mod_pos_bound (h + H) W ltac:(lia)) as Hm.
  unfold carry. fold H.
  eapply yields_bind; [apply (int64_yields _ (B + H)); lia|]. intros t [-> _].
  rewrite Z.shiftr_div_pow2, Z.shiftl_mul_pow2 by lia. fold W. rewrite cast64_small by lia.
  eapply yields_bind; [apply (int64_yields _ (N + (B / W + 2))); lia|]. intros n' [-> Hn'].
  eapply yields_bind; [apply (int64_yields _ H); lia|]. intros h' [-> Hh'].
  apply yields_ret. exists ((h + H) / W). repeat split; lia.
Qed.

(** ** Packing limbs into bytes *)

Lemma byte_split h k : 0 ≤ k → u8 (Z.shiftr h k) = Z.shiftr h k - 256 * Z.shiftr h (k + 8).
Proof.
  intros Hk. rewrite <- Z.shiftr_shiftr by lia. rewrite (Z.shiftr_div_pow2 _ 8) by done.
  unfold u8, wrap. zlia.
Qed.

(** Bytes joined with disjoint bits. *)
Lemma lor_byte x b n : 0 ≤ n → 0 ≤ x < 2 ^ n → Z.lor x (Z.shiftl b n) = x + 2 ^ n * b.
Proof.
  intros Hn Hx. rewrite Z.shiftl_mul_pow2, (Z.mul_comm b) by lia. symmetry. apply Z.add_nocarry_lor.
  apply Z.bits_inj'. intros i Hi. rewrite Z.land_spec, Z.bits_0, Z.mul_comm.
  destruct (Z.lt_ge_cases i n) as [Hl|Hg].
  - rewrite Z.mul_pow2_bits_low by lia. apply andb_false_r.
  - destruct (Z.eq_dec x 0) as [->|]; [by rewrite Z.bits_0|].
    rewrite (Z.bits_above_log2 x i); [done|lia|]. apply Z.lt_le_trans with n; [apply Z.log2_lt_pow2; lia|lia].
Qed.

Lemma straddle_split a b n : 0 < n < 8 → 0 ≤ a < 2 ^ n →
  straddle a b n = a + 2 ^ n * b - 256 * Z.shiftr b (8 - n).
Proof.
  intros Hn Ha. unfold straddle.
  rewrite lor_byte by lia.
  unfold u8, wrap. rewrite Z.shiftr_div_pow2 by lia.
  assert (0 < 2 ^ n ∧ 0 < 2 ^ (8 - n)) as [Hp Hq] by (split; apply Z.pow_pos_nonneg; lia).
  assert (2 ^ n * 2 ^ (8 - n) = 256) as E by (rewrite <- Z.pow_add_r by lia; by replace (n + (8 - n)) with 8 by lia).
  symmetry. apply (Z.mod_unique _ _ (b / 2 ^ (8 - n))); [left|change (2 ^ 8) with 256; lia].
  change (2 ^ 8) with 256. set (N := 2 ^ n) in *. set (M := 2 ^ (8 - n)) in *.
  pose proof (Z.div_mod b M ltac:(lia)) as Hd. pose proof (Z.mod_pos_bound b M Hq) as Hm.
  rewrite <- E. replace (N * b) with (N * (M * (b / M) + b mod M)) by lia. nia.
Qed.

Lemma shiftr_digit h w k : 0 ≤ k ≤ w → 0 ≤ h < 2 ^ w → 0 ≤ Z.shiftr h k < 2 ^ (w - k).
Proof.
  intros Hk Hh. rewrite Z.shiftr_div_pow2 by lia. assert (0 < 2 ^ k) by (apply Z.pow_pos_nonneg; lia).
  split; [apply Z.div_pos; lia|]. apply Z.div_lt_upper_bound; [done|].
  rewrite <- Z.pow_add_r by lia. replace (k + (w - k)) with w by lia. lia.
Qed.

(** ** Loading limbs from bytes *)

(** A slice of the bytes, in terms of the whole number. *)
Lemma le_value_slice s i n : is_bytes s → (i + n ≤ length s)%nat →
  le_value (take n (drop i s)) = (le_value s / 2 ^ (8 * Z.of_nat i)) mod 2 ^ (8 * Z.of_nat n).
Proof.
  intros Hs Hl. assert (s = take i s ++ take n (drop i s) ++ drop n (drop i s)) as E by (by rewrite !take_drop).
  assert (length (take i s) = i ∧ length (take n (drop i s)) = n) as [L1 L2].
  { rewrite !length_take, length_drop. lia. }
  assert (is_bytes (take i s) ∧ is_bytes (take n (drop i s))) as [H1%le_value_range H2%le_value_range].
  { split; unfold is_bytes; auto using Forall_take, Forall_drop. }
  rewrite L1 in H1. rewrite L2 in H2.
  assert (le_value s = le_value (take i s) + 2 ^ (8 * Z.of_nat i) *
    (le_value (take n (drop i s)) + 2 ^ (8 * Z.of_nat n) * le_value (drop n (drop i s)))) as ->.
  { rewrite E at 1. by rewrite !le_value_app, L1, L2. }
  set (I := 2 ^ (8 * Z.of_nat i)) in *. set (N := 2 ^ (8 * Z.of_nat n)) in *.
  rewrite (Z.mul_comm I), Z.div_add, (Z.div_small _ I), Z.add_0_l, (Z.mul_comm N), Z.mod_add by lia.
  by rewrite Z.mod_small.
Qed.

(** Four bytes of the list, as [at_] reads them. *)
Lemma at_drop (s : list Z) i k b l : drop i s = l → l !! k = Some b → at_ s (Z.of_nat (i + k)) = Ret b.
Proof. intros <- H. apply at_Some; [lia|]. by rewrite Nat2Z.id, <- lookup_drop. Qed.

Lemma load_3_value s i : is_bytes s → (i + 3 ≤ length s)%nat →
  load_3 s i = Ret ((le_value s / 2 ^ (8 * Z.of_nat i)) mod 2 ^ 24).
Proof.
  intros Hs Hl. change 24 with (8 * Z.of_nat 3). rewrite <- le_value_slice by done. unfold load_3.
  assert (is_bytes (drop i s)) as Hd by (unfold is_bytes in *; auto using Forall_drop).
  assert (length (drop i s) = (length s - i)%nat) as Ld by apply length_drop.
  remember (drop i s) as l eqn:El. symmetry in El.
  destruct l as [|b0 [|b1 [|b2 l]]]; try (simpl in Ld; lia).
  replace (Z.of_nat i) with (Z.of_nat (i + 0)) by (f_equal; lia).
  erewrite !(at_drop s i) by first [exact El|reflexivity]. simpl.
  inversion_clear Hd as [|? ? H0 Hd']. inversion_clear Hd' as [|? ? H1 Hd]. inversion_clear Hd as [|? ? H2 _].
  unfold in_range in *. rewrite (lor_byte b0) by lia. rewrite lor_byte by lia. f_equal. lia.
Qed.

Lemma load_4_value s i : is_bytes s → (i + 4 ≤ length s)%nat →
  load_4 s i = Ret ((le_value s / 2 ^ (8 * Z.of_nat i)) mod 2 ^ 32).
Proof.
  intros Hs Hl. change 32 with (8 * Z.of_nat 4). rewrite <- le_value_slice by done. unfold load_4.
  assert (is_bytes (drop i s)) as Hd by (unfold is_bytes in *; auto using Forall_drop).
  assert (length (drop i s) = (length s - i)%nat) as Ld by apply length_drop.
  remember (drop i s) as l eqn:El. symmetry in El.
  destruct l as [|b0 [|b1 [|b2 [|b3 l]]]]; try (simpl in Ld; lia).
  replace (Z.of_nat i) with (Z.of_nat (i + 0)) by (f_equal; lia).
  erewrite !(at_drop s i) by first [exact El|reflexivity]. simpl.
  inversion_clear Hd as [|? ? H0 Hd']. inversion_clear Hd' as [|? ? H1 Hd]. inversion_clear Hd as [|? ? H2 Hd'].
  inversion_clear Hd' as [|? ? H3 _].
  unfold in_range in *. rewrite (lor_byte b0) by lia. rewrite (lor_byte (b0 + _)) by lia. rewrite lor_byte by lia.
  f_equal. lia.
Qed.

(** The offsets of the loads, as numbers. *)
Ltac offsets :=
  repeat match goal with
  | |- context [8 * Z.of_nat ?n] => let c := eval vm_compute in (8 * Z.of_nat n) in change (8 * Z.of_nat n) with c
  end.

(** Splits every byte of the goal into shifts of the limbs, which then cancel out. *)
Ltac split_bytes :=
  rewrite !byte_split by done;
  rewrite !straddle_split by
    first [done | eapply (shiftr_digit _ 21); [|eassumption]; done | eapply (shiftr_digit _ 25); [|eassumption]; done
          | eapply (shiftr_digit _ 26); [|eassumption]; done];
  repeat match goal with
  | |- context [Z.shiftr ?h (?a + ?b)] => let c := eval vm_compute in (a + b) in change (a + b) with c
  | |- context [Z.shiftr ?h (?a - ?b)] => let c := eval vm_compute in (a - b) in change (a - b) with c
  end.

(** ** Following a program with its bounds *)

(** The bound that the context and the shape of a term give. *)
Ltac bound_of x :=
  match x with
  | _ => match goal with H : Z.abs x ≤ ?B |- _ => B end
  | ?a * ?b => let A := bound_of a in let B := bound_of b in eval vm_compute in (A * B)
  | ?a + ?b => let A := bound_of a in let B := bound_of b in eval vm_compute in (A + B)
  | ?a - ?b => let A := bound_of a in let B := bound_of b in eval vm_compute in (A + B)
  | - ?a => bound_of a
  | _ => eval vm_compute in (Z.abs x)
  end.

Ltac prove_bound :=
  match goal with
  | H : Z.abs ?x ≤ ?B |- Z.abs ?x ≤ _ => exact H
  | |- Z.abs (?a * ?b) ≤ _ => eapply abs_le_weaken; [apply abs_mul_le; prove_bound|reflexivity]
  | |- Z.abs (?a + ?b) ≤ _ => eapply abs_le_weaken; [apply abs_add_le; prove_bound|reflexivity]
  | |- Z.abs (?a - ?b) ≤ _ => eapply abs_le_weaken; [apply abs_sub_le; prove_bound|reflexivity]
  | |- Z.abs (- ?a) ≤ _ => apply abs_opp_le; prove_bound
  | |- _ => apply abs_self
  end.

Ltac weaken := eapply abs_le_weaken; [eassumption|reflexivity].

(** One checked operation: the context receives its value and its bound. *)
Ltac step :=
  match goal with
  | |- yields (mbind _ (int64 ?e)) _ =>
      let b := bound_of e in
      eapply yields_bind; [apply (int64_yields e b); [prove_bound|reflexivity]|]
  | |- yields (mbind _ (int32 ?e)) _ =>
      let b := bound_of e in
      eapply yields_bind; [apply (int32_yields e b); [prove_bound|reflexivity]|]
  | |- yields (mbind _ (sum_i64 _)) _ =>
      eapply yields_bind; [eapply sum_i64_yields; [repeat (constructor; [eassumption|]); constructor|reflexivity]|]
  end;
  let H := fresh "B" in
  cbv beta; intros ? [-> H];
  match type of H with _ ≤ ?b => let b' := eval vm_compute in b in change b with b' in H end.

Ltac carry_step :=
  match goal with
  | |- yields (mbind _ (carry ?w ?h ?n)) _ =>
      let B := bound_of h in let N := bound_of n in
      eapply yields_bind; [apply (carry_yields w h n B N); [reflexivity|prove_bound|prove_bound|reflexivity|reflexivity]|]
  end;
  let h := fresh "h" in let n := fresh "n" in let c := fresh "c" in
  let Eh := fresh "E" in let En := fresh "E" in let Bh := fresh "B" in let Bn := fresh "B" in
  intros [h n] (c & Eh & En & Bh & Bn); cbv beta iota;
  match type of Bh with _ ≤ ?b => let b' := eval vm_compute in b in change b with b' in Bh end;
  match type of Bn with _ ≤ ?b => let b' := eval vm_compute in b in change b with b' in Bn end.

(** A shift in the goal, with the bounds of its quotient. *)
Ltac shift_step :=
  match goal with
  | |- context [Z.shiftr ?t ?w] =>
      let B := bound_of t in
      let q := fresh "q" in let E := fresh "E" in let R := fresh "R" in let H := fresh "B" in
      destruct (shiftr_quotient t w B) as (q & E & R & H); [reflexivity|prove_bound|rewrite E; clear E];
      match type of H with _ ≤ ?b => let b' := eval vm_compute in b in change b with b' in H end
  end.
