(* ===== verification/Primality.v ===== *)
(** * The prime of the field ([crypto/crypto-ops.c])

    [2^255 - 19] is a prime number: what makes the limbs of [crypto/crypto-ops.c]
    represent a field. The certificate is a chain of primes, each of which divides the
    next one less one; the criterion of Pocklington climbs the chain, and trial division
    starts it. *)

From S2P Require Import Prelude.
From Stdlib Require Import Znumtheory Zpow_facts Zmod.

Local Open Scope Z_scope.

(** ** Prime divisors *)

Lemma divisor_or_prime m : 1 < m → Z.prime m ∨ ∃ n, 1 < n < m ∧ (n | m).
Proof.
  intros Hm. destruct (decide (Exists (λ n, m mod n = 0) (seqZ 2 (m - 2)))) as [H|H].
  - right. apply list.Exists_exists in H as (n & Hn & E). apply elem_of_seqZ in Hn.
    exists n. split; [lia|]. by apply Z.mod_divide; [lia|].
  - left. split; [done|]. intros n Hn Hd. apply H, list.Exists_exists. exists n.
    split; [apply elem_of_seqZ; lia|]. by apply Z.mod_divide; [lia|].
Qed.

Lemma prime_divisor m : 1 < m → ∃ r, Z.prime r ∧ (r | m).
Proof.
  induction m as [m IH] using (well_founded_induction (Z.lt_wf 0)). intros Hm. destruct (divisor_or_prime m Hm) as [Hp|(n & Hn & Hd)]; [by exists m|].
  destruct (IH n ltac:(lia) ltac:(lia)) as (r & Hr & Hrn). exists r. split; [done|]. by transitivity n.
Qed.

(** A number without prime divisors up to its square root is prime. *)
Lemma prime_by_divisors N : 1 < N → (∀ r, Z.prime r → (r | N) → r * r ≤ N → False) → Z.prime N.
Proof.
  intros HN H. split; [done|]. intros n Hn [k Hk].
  assert (1 < k) by nia.
  assert (∀ m, 1 < m → (m | N) → m * m ≤ N → False) as small.
  { intros m Hm Hd Hs. destruct (prime_divisor m Hm) as (r & Hr & Hrm).
    apply (H r Hr); [by transitivity m|]. apply Z.divide_pos_le in Hrm; [|lia].
    destruct Hr as [Hr _]. nia. }
  destruct (Z.le_gt_cases (n * n) N).
  - apply (small n); [lia|by exists k|done].
  - apply (small k); [done|exists n; lia|nia].
Qed.

(** Trial division by all numbers up to [k]. *)
Definition trial (N : Z) (k : nat) : bool := forallb (λ d, negb (N mod d =? 0)) (seqZ 2 (Z.of_nat k)).

Lemma trial_prime N k : 1 < N → trial N k = true → N < (Z.of_nat k + 2) ^ 2 → Z.prime N.
Proof.
  intros HN H Hk. apply prime_by_divisors; [done|]. intros r [Hr _] Hd Hs.
  unfold trial in H. rewrite forallb_forall in H. specialize (H r).
  rewrite <- list_elem_of_In, elem_of_seqZ in H. specialize (H ltac:(nia)).
  bool_to_prop. apply H, Z.mod_divide; [lia|done].
Qed.

(** ** The criterion of Pocklington *)

Lemma pow_mod_1 r b n : 1 < r → 0 ≤ n → b mod r = 1 → b ^ n mod r = 1.
Proof. intros Hr Hn E. rewrite Zpower_mod, E, Z.pow_1_l by lia. apply Z.mod_small. lia. Qed.

(** Coprime exponents for which a power is 1 leave only 1. *)
Lemma coprime_powers r b m n : 1 < r → 0 < m → 0 < n → Z.coprime m n →
  b ^ m mod r = 1 → b ^ n mod r = 1 → b mod r = 1.
Proof.
  intros Hr Hm Hn Hc Em En. apply Z.Bezout_coprime in Hc as (u & v & E).
  pose proof (Z.div_mod u n ltac:(lia)) as Hu. pose proof (Z.mod_pos_bound u n ltac:(lia)) as Hb.
  set (k := u mod n + n). set (j := m - v - m * (u / n)).
  assert (k * m = 1 + j * n) as Ek by (unfold k, j; nia).
  assert (0 < k) by (unfold k; lia). assert (0 ≤ j) by nia.
  assert (b ^ (k * m) mod r = 1) as E1.
  { rewrite Z.mul_comm, Z.pow_mul_r by lia. apply pow_mod_1; lia. }
  rewrite Ek, Z.pow_add_r, Z.pow_1_r, (Z.mul_comm j), Z.pow_mul_r in E1 by lia.
  rewrite Z.mul_mod, (pow_mod_1 r (b ^ n) j), Z.mul_1_r, Z.mod_mod in E1 by lia. done.
Qed.

(** The test of one prime divisor [q] of [N - 1], with the base [a]. *)
Definition pock_test (N a q : Z) : bool :=
  ((N - 1) mod q =? 0) && (Zpow_mod a (N - 1) N =? 1) && (Z.gcd (Zpow_mod a ((N - 1) / q) N - 1) N =? 1).

Lemma pock_divides N a q r : 1 < N → Z.prime q → pock_test N a q = true →
  Z.prime r → (r | N) → (q | r - 1).
Proof.
  intros HN Hq H Hr Hd. unfold pock_test in H. bool_to_prop. rewrite !Zpow_mod_correct in * by lia.
  pose proof (Z.prime_ge_2 _ Hq). pose proof (Z.prime_ge_2 _ Hr).
  set (m := (N - 1) / q) in *. assert (N - 1 = m * q) as Em by (unfold m; zlia).
  assert (0 ≤ m) by nia.
  destruct (decide ((r - 1) mod q = 0)) as [D|D]; [by apply Z.mod_divide; [lia|]|exfalso].
  assert (Z.coprime q (r - 1)) as Hc.
  { apply Z.coprime_prime_l; [done|]. rewrite <- Z.mod_divide by lia. done. }
  assert ((a ^ m) ^ q mod r = 1) as E1.
  { rewrite <- Z.pow_mul_r, <- Em by lia. rewrite (Zmod_div_mod r N) by (lia || done).
    replace (a ^ (N - 1) mod N) with 1 by done. apply Z.mod_small. lia. }
  assert ((a ^ m) mod r ≠ 0) as Hz.
  { intros E0. rewrite Zpower_mod, E0, Z.pow_0_l in E1 by lia. by rewrite Z.mod_0_l in E1 by lia. }
  assert (a ^ m mod r = 1) as E.
  { apply (coprime_powers r (a ^ m) q (r - 1)); try done; try lia. by apply Z.fermat_nz. }
  assert ((r | a ^ m mod N - 1)) as Hr1.
  { apply Z.mod_divide; [lia|]. rewrite Zminus_mod, <- Zmod_div_mod, E by (lia || done).
    rewrite (Z.mod_small 1), Z.sub_diag by lia. apply Z.mod_0_l. lia. }
  assert ((r | 1)) as H11; [|apply Z.divide_1_r in H11; lia].
  replace 1 with (Z.gcd (a ^ m mod N - 1) N) by done. by apply Z.gcd_greatest.
Qed.

(** Two distinct primes [q] and [q'] that pass the test, with [q * q'] above the square
    root of [N]. *)
Lemma pocklington N a q q' : 1 < N → Z.prime q → Z.prime q' → q ≠ q' →
  pock_test N a q && pock_test N a q' && (N <? (q * q') ^ 2) = true → Z.prime N.
Proof.
  intros HN Hq Hq' Hne H. bool_to_prop. apply prime_by_divisors; [done|]. intros r Hr Hd Hs.
  assert ((q * q' | r - 1)) as Hqq.
  { destruct (pock_divides N a q r) as [k Hk]; try done. destruct (pock_divides N a q' r) as [k' Hk']; try done.
    assert ((q' | k)) as [j ->]; [|exists j; lia].
    apply (Z.gauss q' q); [exists k'; lia|]. apply Z.coprime_prime_l; [done|].
    intros Hdiv%Z.divide_prime_prime; [lia|done|done]. }
  apply Z.divide_pos_le in Hqq; [|destruct Hr; lia]. rewrite Z.pow_2_r in *.
  pose proof (Z.prime_ge_2 _ Hq). pose proof (Z.prime_ge_2 _ Hq').
  assert (0 < q * q') by nia. revert Hqq. generalize dependent (q * q'). intros. nia.
Qed.

(** With one prime [q] above the square root. *)
Lemma pocklington_1 N a q : 1 < N → Z.prime q → pock_test N a q && (N <? q ^ 2) = true → Z.prime N.
Proof.
  intros HN Hq H. bool_to_prop. apply prime_by_divisors; [done|]. intros r Hr Hd Hs.
  assert ((q | r - 1)) as Hqr by (by apply (pock_divides N a)).
  apply Z.divide_pos_le in Hqr; [|destruct Hr; lia]. rewrite Z.pow_2_r in *.
  pose proof (Z.prime_ge_2 _ Hq). nia.
Qed.

(** ** The chain *)

Lemma prime_127 : Z.prime 127.
Proof. apply (trial_prime _ 10); [done|by vm_compute|done]. Qed.
Lemma prime_75707 : Z.prime 75707.
Proof. apply (trial_prime _ 300); [done|by vm_compute|done]. Qed.
Lemma prime_1923133 : Z.prime 1923133.
Proof. apply (trial_prime _ 1400); [done|by vm_compute|done]. Qed.
Lemma prime_8574133 : Z.prime 8574133.
Proof. apply (trial_prime _ 3000); [done|by vm_compute|done]. Qed.

Lemma prime_51 : Z.prime 1919519569386763.
Proof.
  apply (pocklington _ 2 8574133 127); [done|apply prime_8574133|apply prime_127|done|by vm_compute].
Qed.

Lemma prime_116 : Z.prime 75445702479781427272750846543864801.
Proof.
  apply (pocklington _ 2 1919519569386763 75707); [done|apply prime_51|apply prime_75707|done|by vm_compute].
Qed.

Lemma prime_236 : Z.prime 74058212732561358302231226437062788676166966415465897661863160754340907.
Proof.
  apply (pocklington _ 2 75445702479781427272750846543864801 1923133);
    [done|apply prime_116|apply prime_1923133|done|by vm_compute].
Qed.

(** The prime of the field. *)
Lemma prime_25519 : Z.prime (2 ^ 255 - 19).
Proof.
  apply (pocklington_1 _ 2 74058212732561358302231226437062788676166966415465897661863160754340907);
    [done|apply prime_236|by vm_compute].
Qed.

(** ** The chain of the order of the base point *)

Lemma prime_531581 : Z.prime 531581.
Proof. apply (trial_prime _ 800); [done|by vm_compute|done]. Qed.
Lemma prime_1224481 : Z.prime 1224481.
Proof. apply (trial_prime _ 1200); [done|by vm_compute|done]. Qed.

Lemma prime_order_51 : Z.prime 1257559732178653.
Proof. apply (pocklington _ 2 1224481 531581); [done|apply prime_1224481|apply prime_531581|done|by vm_compute]. Qed.

Lemma prime_order_62 : Z.prime 4434155615661930479.
Proof. apply (pocklington_1 _ 2 1257559732178653); [done|apply prime_order_51|by vm_compute]. Qed.

Lemma prime_order_88 : Z.prime 172054593956031949258510691.
Proof. apply (pocklington_1 _ 2 4434155615661930479); [done|apply prime_order_62|by vm_compute]. Qed.

Lemma prime_order_134 : Z.prime 19757330305831588566944191468367130476339.
Proof. apply (pocklington_1 _ 2 172054593956031949258510691); [done|apply prime_order_88|by vm_compute]. Qed.

Lemma prime_order_138 : Z.prime 276602624281642239937218680557139826668747.
Proof. apply (pocklington_1 _ 2 19757330305831588566944191468367130476339); [done|apply prime_order_134|by vm_compute]. Qed.

(** The order of the base point. *)
Lemma prime_order : Z.prime (2 ^ 252 + 27742317777372353535851937790883648493).
Proof. apply (pocklington_1 _ 2 276602624281642239937218680557139826668747); [done|apply prime_order_138|by vm_compute]. Qed.
