(* ===== verification/FieldTheorems.v ===== *)
(** * Correctness of the field arithmetic

    The operations of [FieldElement] refine the ones of the field of [2^255 - 19]
    elements: on limbs within the bounds that the source requires nothing overflows,
    the limbs of the result are within the bounds that the source promises, and the
    value is the one of the field. *)

From S2P Require Import Prelude Streams SignedArithmetic FieldElement.
Local Open Scope Z_scope.
(** ** The field *)

Definition p : Z := 2 ^ 255 - 19.

(** Equality in the field. *)
Definition eqp (a b : Z) : Prop := a mod p = b mod p.
Notation "a ≡ₚ b" := (eqp a b) (at level 70) : Z_scope.

#[export] Instance eqp_equiv : Equivalence eqp.
Proof. split; unfold eqp; intros ?; [done|congruence|congruence]. Qed.

#[export] Instance eqp_dec a b : Decision (eqp a b) := Z.eq_dec _ _.

#[export] Instance eqp_add : Proper (eqp ==> eqp ==> eqp) Z.add.
Proof. intros a a' Ha b b' Hb. unfold eqp. by rewrite Z.add_mod, Ha, Hb, <- Z.add_mod by done. Qed.
#[export] Instance eqp_mul : Proper (eqp ==> eqp ==> eqp) Z.mul.
Proof. intros a a' Ha b b' Hb. unfold eqp. by rewrite Z.mul_mod, Ha, Hb, <- Z.mul_mod by done. Qed.
#[export] Instance eqp_opp : Proper (eqp ==> eqp) Z.opp.
Proof.
  intros a a' Ha. unfold eqp. rewrite <- !(Z.mul_opp_l 1), !Z.mul_1_l || idtac.
  change (- a) with (0 - a). change (- a') with (0 - a').
  by rewrite Zminus_mod, Ha, <- Zminus_mod.
Qed.
#[export] Instance eqp_sub : Proper (eqp ==> eqp ==> eqp) Z.sub.
Proof. intros a a' Ha b b' Hb. unfold eqp. by rewrite Zminus_mod, Ha, Hb, <- Zminus_mod. Qed.

Lemma eqp_by k a b : a = b + k * p → a ≡ₚ b.
Proof. intros ->. unfold eqp. apply Z.mod_add. done. Qed.

Definition fe_value (f : fe) : Z :=
  let 'Fe f0 f1 f2 f3 f4 f5 f6 f7 f8 f9 := f in
  f0 + f1 * 2 ^ 26 + f2 * 2 ^ 51 + f3 * 2 ^ 77 + f4 * 2 ^ 102 + f5 * 2 ^ 128 + f6 * 2 ^ 153 + f7 * 2 ^ 179 +
  f8 * 2 ^ 204 + f9 * 2 ^ 230.

Definition within (b : Z) (f : fe) : Prop :=
  let 'Fe f0 f1 f2 f3 f4 f5 f6 f7 f8 f9 := f in
  (Z.abs f0 ≤ 2 * b ∧ Z.abs f1 ≤ b ∧ Z.abs f2 ≤ 2 * b ∧ Z.abs f3 ≤ b ∧ Z.abs f4 ≤ 2 * b) ∧
  (Z.abs f5 ≤ b ∧ Z.abs f6 ≤ 2 * b ∧ Z.abs f7 ≤ b ∧ Z.abs f8 ≤ 2 * b ∧ Z.abs f9 ≤ b).
Definition loose : Z := 55364812.
Definition tight : Z := 16944988.

Definition limbs_within (b : Z) (f : fe) : Prop :=
  let 'Fe f0 f1 f2 f3 f4 f5 f6 f7 f8 f9 := f in
  (Z.abs f0 ≤ b ∧ Z.abs f1 ≤ b ∧ Z.abs f2 ≤ b ∧ Z.abs f3 ≤ b ∧ Z.abs f4 ≤ b) ∧
  (Z.abs f5 ≤ b ∧ Z.abs f6 ≤ b ∧ Z.abs f7 ≤ b ∧ Z.abs f8 ≤ b ∧ Z.abs f9 ≤ b).

Lemma carry_around_yields h9 h0 B : Z.abs h9 ≤ 2 ^ 62 - 2 ^ 26 → Z.abs h0 ≤ B → B ≤ 2 ^ 61 →
  yields (carry_around h9 h0) (λ '(h9', h0'), ∃ c, h9' = h9 - c * 2 ^ 25 ∧ h0' = h0 + 19 * c ∧
    Z.abs h9' ≤ 2 ^ 24 ∧ Z.abs h0' ≤ B + 19 * 2 ^ 37).
Proof.
  intros H9 H0 HB. unfold carry_around.
  eapply yields_bind; [apply (int64_yields _ (2 ^ 62)); lia|]. intros t [-> _].
  rewrite Z.shiftr_div_pow2, Z.shiftl_mul_pow2 by done. set (c := (h9 + 2 ^ 24) / 2 ^ 25).
  assert (2 ^ 25 * c ≤ h9 + 2 ^ 24 < 2 ^ 25 * c + 2 ^ 25) as Hc by (unfold c; zlia).
  rewrite cast64_small by lia.
  eapply yields_bind; [apply (int64_yields _ (19 * 2 ^ 37)); lia|]. intros m [-> Hm].
  eapply yields_bind; [apply (int64_yields _ (B + 19 * 2 ^ 37)); lia|]. intros h0' [-> Hh0].
  eapply yields_bind; [apply (int64_yields _ (2 ^ 24)); lia|]. intros h9' [-> Hh9].
  apply yields_ret. exists c. repeat split; lia.
Qed.

Lemma carry_limbs_yields h : limbs_within (2 ^ 62 - 2 ^ 38) h →
  yields (carry_limbs h) (λ r, within tight r ∧ fe_value r ≡ₚ fe_value h).
Proof.
  destruct h as [f0 f1 f2 f3 f4 f5 f6 f7 f8 f9]. unfold limbs_within.
  intros [(?&?&?&?&?) (?&?&?&?&?)].
  unfold carry_limbs.
  do 10 carry_step.
  eapply yields_bind.
  { apply carry_around_yields; [weaken|prove_bound|done]. }
  intros [h9' h0'] (c' & E9' & E0' & B9' & B0'). cbv beta iota.
  match type of B0' with _ ≤ ?b => let b' := eval vm_compute in b in change b with b' in B0' end.
  carry_step.

  apply yields_ret.
  erewrite !cast32_bound by first [eassumption|reflexivity]. split.
  - unfold within. repeat split; weaken.
  - apply (eqp_by (- c')). unfold fe_value, p. subst. ring.
Qed.

(** The value in terms of [b = 2^25], of which the weights of the limbs are small
    multiples of powers. *)
Definition value_in (b : Z) (f : fe) : Z :=
  let 'Fe f0 f1 f2 f3 f4 f5 f6 f7 f8 f9 := f in
  f0 + f1 * (2 * b) + f2 * (2 * b ^ 2) + f3 * (4 * b ^ 3) + f4 * (4 * b ^ 4) + f5 * (8 * b ^ 5) + f6 * (8 * b ^ 6) +
  f7 * (16 * b ^ 7) + f8 * (16 * b ^ 8) + f9 * (32 * b ^ 9).

Lemma fe_value_in f : fe_value f = value_in (2 ^ 25) f.
Proof. by destruct f. Qed.

Lemma product_by k h f g :
  (∀ b, value_in b h = value_in b f * value_in b g + k b * (32 * b ^ 10 - 19)) →
  fe_value h ≡ₚ fe_value f * fe_value g.
Proof.
  intros H. rewrite (fe_value_in h), (fe_value_in f), (fe_value_in g).
  apply (eqp_by (k (2 ^ 25))). exact (H (2 ^ 25)).
Qed.

(** What of the product of two elements is above [2^255], which comes back times 19. *)
Definition wrapped (b : Z) (f g : fe) : Z :=
  let 'Fe f0 f1 f2 f3 f4 f5 f6 f7 f8 f9 := f in
  let 'Fe g0 g1 g2 g3 g4 g5 g6 g7 g8 g9 := g in
  2 * f1 * g9 + f2 * g8 + 2 * f2 * g9 * b + 2 * f3 * g7 + 2 * f3 * g8 * b + 4 * f3 * g9 * b ^ 2 + f4 * g6 +
  2 * f4 * g7 * b + 2 * f4 * g8 * b ^ 2 + 4 * f4 * g9 * b ^ 3 + 2 * f5 * g5 + 2 * f5 * g6 * b +
  4 * f5 * g7 * b ^ 2 + 4 * f5 * g8 * b ^ 3 + 8 * f5 * g9 * b ^ 4 + f6 * g4 + 2 * f6 * g5 * b +
  2 * f6 * g6 * b ^ 2 + 4 * f6 * g7 * b ^ 3 + 4 * f6 * g8 * b ^ 4 + 8 * f6 * g9 * b ^ 5 + 2 * f7 * g3 +
  2 * f7 * g4 * b + 4 * f7 * g5 * b ^ 2 + 4 * f7 * g6 * b ^ 3 + 8 * f7 * g7 * b ^ 4 + 8 * f7 * g8 * b ^ 5 +
  16 * f7 * g9 * b ^ 6 + f8 * g2 + 2 * f8 * g3 * b + 2 * f8 * g4 * b ^ 2 + 4 * f8 * g5 * b ^ 3 +
  4 * f8 * g6 * b ^ 4 + 8 * f8 * g7 * b ^ 5 + 8 * f8 * g8 * b ^ 6 + 16 * f8 * g9 * b ^ 7 + 2 * f9 * g1 +
  2 * f9 * g2 * b + 4 * f9 * g3 * b ^ 2 + 4 * f9 * g4 * b ^ 3 + 8 * f9 * g5 * b ^ 4 + 8 * f9 * g6 * b ^ 5 +
  16 * f9 * g7 * b ^ 6 + 16 * f9 * g8 * b ^ 7 + 32 * f9 * g9 * b ^ 8.

Ltac open_limbs :=
  repeat match goal with
  | H : within _ (Fe _ _ _ _ _ _ _ _ _ _) |- _ => destruct H as [(?&?&?&?&?) (?&?&?&?&?)]
  end; unfold loose in *.

Ltac unfold_limbs := cbn [fe0 fe1 fe2 fe3 fe4 fe5 fe6 fe7 fe8 fe9].

Lemma fe_mul_yields f g : within loose f → within loose g →
  yields (fe_mul f g) (λ r, within tight r ∧ fe_value r ≡ₚ fe_value f * fe_value g).
Proof.
  intros Hf Hg. assert (∃ k, k = λ b, - wrapped b f g) as [k Ek] by eauto. destruct f, g. open_limbs.
  unfold fe_mul. cbv beta iota. do 124 step.
  eapply yields_impl; [apply carry_limbs_yields; split; repeat split; weaken|].
  intros r [Hr ->]. split; [done|]. apply (product_by k). intros b.
  rewrite Ek. cbn [value_in wrapped total foldr]. ring.
Qed.

Lemma square_limbs_yields f : within loose f →
  yields (square_limbs f) (λ h, limbs_within (2 ^ 61 - 2 ^ 37) h ∧ fe_value h ≡ₚ fe_value f * fe_value f).
Proof.
  intros Hf. assert (∃ k, k = λ b, - wrapped b f f) as [k Ek] by eauto. destruct f. open_limbs.
  unfold square_limbs. cbv beta iota. do 78 step.
  apply yields_ret. split; [unfold limbs_within; split; repeat split; weaken|]. apply (product_by k). intros b.
  rewrite Ek. cbn [value_in wrapped total foldr]. ring.
Qed.

Lemma fe_sq_yields f : within loose f →
  yields (fe_sq f) (λ r, within tight r ∧ fe_value r ≡ₚ fe_value f * fe_value f).
Proof.
  intros Hf. eapply yields_bind; [by apply square_limbs_yields|]. intros h [Hh Eh].
  eapply yields_impl; [apply carry_limbs_yields|intros r [Hr ->]; by split].
  destruct h, Hh as [(?&?&?&?&?) (?&?&?&?&?)]. split; repeat split; weaken.
Qed.

Lemma fe_sq2_yields f : within loose f →
  yields (fe_sq2 f) (λ r, within tight r ∧ fe_value r ≡ₚ 2 * (fe_value f * fe_value f)).
Proof.
  intros Hf. eapply yields_bind; [by apply square_limbs_yields|]. intros h [Hh Eh].
  destruct h as [h0 h1 h2 h3 h4 h5 h6 h7 h8 h9], Hh as [(?&?&?&?&?) (?&?&?&?&?)]. unfold_limbs.
  do 10 step.
  eapply yields_impl; [apply carry_limbs_yields; split; repeat split; weaken|].
  intros r [Hr ->]. split; [done|]. rewrite <- Eh. cbn [fe_value].
  apply (eqp_by 0). ring.
Qed.

Lemma within_nonneg a f : within a f → 0 ≤ a.
Proof. destruct f as [f0 f1 f2 f3 f4 f5 f6 f7 f8 f9]. intros [(_&H&_) _]. lia. Qed.

Lemma within_weaken a b f : within a f → a ≤ b → within b f.
Proof.
  intros H Hab. assert (∀ x, Z.abs x ≤ 2 * a → Z.abs x ≤ 2 * b) by (intros; lia).
  assert (∀ x, Z.abs x ≤ a → Z.abs x ≤ b) by (intros; lia).
  destruct f as [f0 f1 f2 f3 f4 f5 f6 f7 f8 f9]. destruct H as [(?&?&?&?&?) (?&?&?&?&?)].
  unfold within. repeat split; auto.
Qed.

(** Sums, differences and negatives of elements: the bounds add up. *)
Lemma fe_add_yields a b f g : within a f → within b g → 2 * (a + b) < 2 ^ 31 →
  yields (fe_add f g) (λ r, within (a + b) r ∧ fe_value r = fe_value f + fe_value g).
Proof.
  intros Hf Hg Hab. assert (2 * a + 2 * b < 2 ^ 31 ∧ a + b < 2 ^ 31) as [? ?].
  { apply within_nonneg in Hf, Hg. lia. }
  destruct f as [f0 f1 f2 f3 f4 f5 f6 f7 f8 f9], g as [g0 g1 g2 g3 g4 g5 g6 g7 g8 g9].
  destruct Hf as [(?&?&?&?&?) (?&?&?&?&?)], Hg as [(?&?&?&?&?) (?&?&?&?&?)]. unfold fe_add. unfold_limbs.
  do 10 (eapply yields_bind; [eapply int32_yields; [eapply abs_add_le; eassumption|assumption]|intros ? [-> ?]]).
  apply yields_ret. split; [unfold within; rewrite Z.mul_add_distr_l; by repeat split|unfold fe_value; ring].
Qed.

Lemma fe_sub_yields a b f g : within a f → within b g → 2 * (a + b) < 2 ^ 31 →
  yields (fe_sub f g) (λ r, within (a + b) r ∧ fe_value r = fe_value f - fe_value g).
Proof.
  intros Hf Hg Hab. assert (2 * a + 2 * b < 2 ^ 31 ∧ a + b < 2 ^ 31) as [? ?].
  { apply within_nonneg in Hf, Hg. lia. }
  destruct f as [f0 f1 f2 f3 f4 f5 f6 f7 f8 f9], g as [g0 g1 g2 g3 g4 g5 g6 g7 g8 g9].
  destruct Hf as [(?&?&?&?&?) (?&?&?&?&?)], Hg as [(?&?&?&?&?) (?&?&?&?&?)]. unfold fe_sub. unfold_limbs.
  do 10 (eapply yields_bind; [eapply int32_yields; [eapply abs_sub_le; eassumption|assumption]|intros ? [-> ?]]).
  apply yields_ret. split; [unfold within; rewrite Z.mul_add_distr_l; by repeat split|unfold fe_value; ring].
Qed.

Lemma fe_neg_yields a f : within a f → 2 * a < 2 ^ 31 →
  yields (fe_neg f) (λ r, within a r ∧ fe_value r = - fe_value f).
Proof.
  intros Hf Ha. assert (a < 2 ^ 31) by (apply within_nonneg in Hf; lia).
  destruct f as [f0 f1 f2 f3 f4 f5 f6 f7 f8 f9], Hf as [(?&?&?&?&?) (?&?&?&?&?)]. unfold fe_neg. unfold_limbs.
  do 10 (eapply yields_bind; [eapply int32_yields; [eapply abs_opp_le; eassumption|assumption]|intros ? [-> ?]]).
  apply yields_ret. split; [unfold within; by repeat split|unfold fe_value; ring].
Qed.

Lemma lxor_int32 f g : - 2 ^ 31 ≤ f < 2 ^ 31 → - 2 ^ 31 ≤ g < 2 ^ 31 → - 2 ^ 31 ≤ Z.lxor f g < 2 ^ 31.
Proof.
  assert (∀ x, - 2 ^ 31 ≤ x < 2 ^ 31 ↔ Z.shiftr x 31 = 0 ∨ Z.shiftr x 31 = - 1) as R.
  { intros x. rewrite Z.shiftr_div_pow2 by done. zlia. }
  rewrite !R, Z.shiftr_lxor. intros [-> | ->] [-> | ->]; vm_compute; auto.
Qed.

Lemma cmov_select (b : bool) f g : - 2 ^ 31 ≤ f < 2 ^ 31 → - 2 ^ 31 ≤ g < 2 ^ 31 →
  cmov (Z.b2z b) f g = if b then g else f.
Proof.
  intros Hf Hg. unfold cmov. destruct b; cbn [Z.b2z].
  - change (u32 (- (1))) with (Z.ones 32). rewrite Z.land_ones by done.
    assert (cast32 (u32 (Z.lxor f g) mod 2 ^ 32) = Z.lxor f g) as ->.
    { pose proof (lxor_int32 f g Hf Hg). unfold cast32, u32, wrap. zlia. }
    by rewrite <- Z.lxor_assoc, Z.lxor_nilpotent, Z.lxor_0_l.
  - change (u32 (- (0))) with 0. rewrite Z.land_0_r. change (cast32 0) with 0. apply Z.lxor_0_r.
Qed.

(** The conditional copy takes one of its operands, for a flag of 0 or 1. *)
Lemma fe_cmov_select a (b : bool) f g : within a f → within a g → 2 * a < 2 ^ 31 →
  fe_cmov f g (Z.b2z b) = Ret (if b then g else f).
Proof.
  destruct f as [f0 f1 f2 f3 f4 f5 f6 f7 f8 f9], g as [g0 g1 g2 g3 g4 g5 g6 g7 g8 g9].
  intros [(?&?&?&?&?) (?&?&?&?&?)] [(?&?&?&?&?) (?&?&?&?&?)] Ha. unfold fe_cmov. unfold_limbs.
  assert (∀ x, Z.abs x ≤ 2 * a → - 2 ^ 31 ≤ x < 2 ^ 31) as R2 by (clear -Ha; lia).
  assert (∀ x, Z.abs x ≤ a → - 2 ^ 31 ≤ x < 2 ^ 31) as R1 by (clear -Ha; lia).
  rewrite !cmov_select by auto. by destruct b.
Qed.

(** ** Bytes *)

(** The bound that the conversion to bytes requires. *)
Definition summed : Z := 50834965.

Lemma within_low f : within summed f → Z.abs (fe_value f - fe9 f * 2 ^ 230) ≤ 2 ^ 232 ∧ Z.abs (fe9 f) ≤ summed.
Proof.
  destruct f as [f0 f1 f2 f3 f4 f5 f6 f7 f8 f9]. unfold within. rewrite !Z.abs_le.
  unfold summed. unfold fe_value. cbn [fe9]. lia.
Qed.

Lemma quotient_arith h0 h1 h2 h3 h4 h5 h6 h7 h8 h9 q0 q1 q2 q3 q4 q5 q6 q7 q8 q9 q :
  within summed (Fe h0 h1 h2 h3 h4 h5 h6 h7 h8 h9) →
  2 ^ 25 * q0 ≤ 19 * h9 + 2 ^ 24 < 2 ^ 25 * q0 + 2 ^ 25 →
  2 ^ 26 * q1 ≤ h0 + q0 < 2 ^ 26 * q1 + 2 ^ 26 →
  2 ^ 25 * q2 ≤ h1 + q1 < 2 ^ 25 * q2 + 2 ^ 25 →
  2 ^ 26 * q3 ≤ h2 + q2 < 2 ^ 26 * q3 + 2 ^ 26 →
  2 ^ 25 * q4 ≤ h3 + q3 < 2 ^ 25 * q4 + 2 ^ 25 →
  2 ^ 26 * q5 ≤ h4 + q4 < 2 ^ 26 * q5 + 2 ^ 26 →
  2 ^ 25 * q6 ≤ h5 + q5 < 2 ^ 25 * q6 + 2 ^ 25 →
  2 ^ 26 * q7 ≤ h6 + q6 < 2 ^ 26 * q7 + 2 ^ 26 →
  2 ^ 25 * q8 ≤ h7 + q7 < 2 ^ 25 * q8 + 2 ^ 25 →
  2 ^ 26 * q9 ≤ h8 + q8 < 2 ^ 26 * q9 + 2 ^ 26 →
  2 ^ 25 * q ≤ h9 + q9 < 2 ^ 25 * q + 2 ^ 25 →
  0 ≤ fe_value (Fe h0 h1 h2 h3 h4 h5 h6 h7 h8 h9) - q * p < p.
Proof.
  intros Hh ? ? ? ? ? ? ? ? ? ? ?.
  set (V := fe_value (Fe h0 h1 h2 h3 h4 h5 h6 h7 h8 h9)).
  assert (2 ^ 255 * q ≤ V + q0 < 2 ^ 255 * q + 2 ^ 255) as HV by (clear Hh; unfold V, fe_value; lia).
  destruct (within_low _ Hh) as [HW HT]. fold V in HW. cbn [fe9] in HW, HT. unfold summed in HT.
  clearbody V. assert (Z.abs q0 ≤ 64) by lia. clear Hh. unfold p. lia.
Qed.

Lemma quotient_yields h : within summed h →
  yields (quotient h) (λ q, Z.abs q ≤ 4 ∧ 0 ≤ fe_value h - q * p < p).
Proof.
  destruct h as [h0 h1 h2 h3 h4 h5 h6 h7 h8 h9]. intros Hh.
  assert (within summed (Fe h0 h1 h2 h3 h4 h5 h6 h7 h8 h9)) as [(?&?&?&?&?) (?&?&?&?&?)] by done.
  unfold quotient. unfold summed in *.
  do 2 step. do 11 (shift_step; try step). apply yields_ret. split; [weaken|].
  eapply quotient_arith; eassumption.
Qed.

Lemma carry_down_yields w h n B N :
  0 < w → Z.abs h ≤ B → Z.abs n ≤ N → B + 2 ^ w < 2 ^ 31 → N + (B / 2 ^ w + 1) < 2 ^ 31 →
  yields (carry_down w h n) (λ '(h', n'), ∃ c, h' = h - 2 ^ w * c ∧ n' = n + c ∧
    0 ≤ h' < 2 ^ w ∧ Z.abs n' ≤ N + (B / 2 ^ w + 1)).
Proof.
  intros Hw Hh Hn Hb Hc. unfold carry_down.
  destruct (shiftr_quotient h w B Hw Hh) as (c & -> & Hq & Hcb).
  assert (0 < 2 ^ w) as Hp by (apply Z.pow_pos_nonneg; lia).
  rewrite Z.shiftl_mul_pow2, cast32_small by lia.
  eapply yields_bind; [apply (int32_yields _ _ (abs_add_le _ _ _ _ Hn Hcb) Hc)|]. intros n' [-> Hn'].
  eapply yields_bind; [apply (int32_yields _ (2 ^ w)); lia|]. intros h' [-> _].
  apply yields_ret. exists c. repeat split; lia.
Qed.

Ltac carry_down_step :=
  match goal with
  | |- yields (mbind _ (carry_down ?w ?h ?n)) _ =>
      let B := bound_of h in let N := bound_of n in
      eapply yields_bind; [apply (carry_down_yields w h n B N); [reflexivity|prove_bound|prove_bound|reflexivity|reflexivity]|]
  end;
  let h := fresh "h" in let n := fresh "n" in let c := fresh "c" in
  let Eh := fresh "E" in let En := fresh "E" in let Rh := fresh "R" in let Bn := fresh "B" in
  intros [h n] (c & Eh & En & Rh & Bn); cbv beta iota;
  match type of Bn with _ ≤ ?b => let b' := eval vm_compute in b in change b with b' in Bn end.

(** Limbs within their width and nonnegative. *)
Definition is_digits (f : fe) : Prop :=
  let 'Fe f0 f1 f2 f3 f4 f5 f6 f7 f8 f9 := f in
  (0 ≤ f0 < 2 ^ 26 ∧ 0 ≤ f1 < 2 ^ 25 ∧ 0 ≤ f2 < 2 ^ 26 ∧ 0 ≤ f3 < 2 ^ 25 ∧ 0 ≤ f4 < 2 ^ 26) ∧
  (0 ≤ f5 < 2 ^ 25 ∧ 0 ≤ f6 < 2 ^ 26 ∧ 0 ≤ f7 < 2 ^ 25 ∧ 0 ≤ f8 < 2 ^ 26 ∧ 0 ≤ f9 < 2 ^ 25).

Lemma digits_yields h q : within summed h → Z.abs q ≤ 4 → 0 ≤ fe_value h - q * p < p →
  yields (digits h q) (λ d, is_digits d ∧ fe_value d = fe_value h - q * p).
Proof.
  destruct h as [h0 h1 h2 h3 h4 h5 h6 h7 h8 h9]. intros [(?&?&?&?&?) (?&?&?&?&?)] Hq HV.
  unfold digits. unfold summed in *. do 2 step. do 9 carry_down_step.
  shift_step. rewrite Z.shiftl_mul_pow2, cast32_small by (done || clear -R8 B10; lia).
  eapply yields_bind; [apply (int32_yields _ (2 ^ 25)); [clear -R8; lia|done]|]. intros d9 [E9' _].
  assert (0 ≤ d9 < 2 ^ 25) as R9 by (clear -R8 E9'; lia).
  repeat match goal with H : Z.abs _ ≤ _ |- _ => clear H end.
  apply yields_ret. split; [unfold is_digits; repeat first [assumption|split]|].
  unfold fe_value, p in *. assert (q0 = q); [|subst q0]; lia.
Qed.

(** The bytes are those of the number that the digits make. *)
Lemma bytes_of_digits_value d : is_digits d → le_value (bytes_of_digits d) = fe_value d.
Proof.
  destruct d as [h0 h1 h2 h3 h4 h5 h6 h7 h8 h9]. unfold is_digits. intros H.
  assert (Z.shiftr h4 26 = 0 ∧ Z.shiftr h9 26 = 0) as [E4 E9].
  { rewrite !Z.shiftr_div_pow2 by done. rewrite !Z.div_small by lia. done. }
  destruct H as [(?&?&?&?&?) (?&?&?&?&?)]. unfold bytes_of_digits. split_bytes.
  cbn [le_value fe_value]. rewrite !Z.shiftr_0_r, E4, E9. clear. lia.
Qed.

Lemma bytes_of_digits_bytes d : is_bytes (bytes_of_digits d) ∧ length (bytes_of_digits d) = 32%nat.
Proof.
  destruct d as [h0 h1 h2 h3 h4 h5 h6 h7 h8 h9]. split; [|done].
  unfold bytes_of_digits, straddle. repeat constructor; apply Z.mod_pos_bound; done.
Qed.

(** The bytes of an element: the canonical representative, in little-endian order. *)
Lemma fe_tobytes_yields h : within summed h →
  yields (fe_tobytes h) (λ s, is_bytes s ∧ length s = 32%nat ∧ le_value s = fe_value h mod p).
Proof.
  intros Hh. eapply yields_bind; [by apply quotient_yields|]. intros q [Hq HV].
  eapply yields_bind; [by apply digits_yields|]. intros d [Hd E]. apply yields_ret.
  destruct (bytes_of_digits_bytes d) as [Hb Hl]. split; [done|]. split; [done|].
  rewrite bytes_of_digits_value, E by done. apply (Z.mod_unique _ _ q); lia.
Qed.

(** The parity of the canonical representative. *)
Lemma fe_isnegative_spec f : within summed f → fe_isnegative f = Ret ((fe_value f mod p) mod 2).
Proof.
  intros Hf. destruct (fe_tobytes_yields f Hf) as (s & E & _ & Hl & Ev). unfold fe_isnegative. rewrite E.
  destruct s as [|b s]; [done|]. change (Ret (Z.land b (Z.ones 1)) = Ret ((fe_value f mod p) mod 2)).
  rewrite <- Ev, Z.land_ones by done. cbn [le_value]. f_equal. change (2 ^ 1) with 2. zlia.
Qed.

Lemma foldl_lor_zero s a : is_bytes s → 0 ≤ a < 256 →
  (0 ≤ foldl Z.lor a s < 256) ∧ (foldl Z.lor a s = 0 ↔ a = 0 ∧ le_value s = 0).
Proof.
  intros Hs. revert a. induction Hs as [|b s Hb Hs IH]; intros a Ha; simpl; [lia|].
  unfold in_range in Hb. apply le_value_range in Hs.
  assert (0 ≤ Z.lor a b < 256) as Hl.
  { assert (0 ≤ Z.lor a b) as Hn by (apply Z.lor_nonneg; lia). split; [done|].
    assert (∀ x, 0 ≤ x < 2 ^ 8 → Z.log2 x < 8) as L.
    { intros x Hx. destruct (Z.eq_dec x 0) as [->|]; [done|apply Z.log2_lt_pow2; lia]. }
    destruct (Z.eq_dec (Z.lor a b) 0) as [->|]; [done|]. apply (Z.log2_lt_pow2 _ 8); [lia|].
    rewrite Z.log2_lor by lia. apply Z.max_lub_lt; apply L; lia. }
  destruct (IH _ Hl) as [R E]. split; [done|]. rewrite E, Z.lor_eq_0_iff. lia.
Qed.

(** Whether an element is other than zero. *)
Lemma fe_isnonzero_spec f : within summed f →
  fe_isnonzero f = Ret (if decide (fe_value f ≡ₚ 0) then 0 else 1).
Proof.
  intros Hf. destruct (fe_tobytes_yields f Hf) as (s & E & Hb & Hl & Ev). unfold fe_isnonzero. rewrite E.
  destruct (foldl_lor_zero s 0 Hb ltac:(done)) as [R Z0].
  change (Ret (Z.shiftr (foldl Z.lor 0 s - 1) 8 + 1) = Ret (if decide (fe_value f ≡ₚ 0) then 0 else 1)). f_equal.
  rewrite Z.shiftr_div_pow2 by done. case_decide as H; unfold eqp in H; rewrite <- Ev in H; change (0 mod p) with 0 in H.
  - replace (foldl Z.lor 0 s) with 0; [done|]. symmetry. by apply Z0.
  - assert (foldl Z.lor 0 s ≠ 0) by (intros E0; by apply H, Z0). rewrite Z.div_small by lia. done.
Qed.

(** ** Powers *)

(** [t] is the power [x ^ n], within the bounds of an operand. *)
Definition is_power (x n : Z) (t : fe) : Prop := (within loose t ∧ fe_value t ≡ₚ x ^ n) ∧ (0 <=? n) = true.

Lemma tight_loose f : within tight f → within loose f.
Proof. intros H. by eapply within_weaken. Qed.

Lemma power_mul x a b t u : is_power x a t → is_power x b u → yields (fe_mul t u) (is_power x (a + b)).
Proof.
  intros [[Ht Et] Ha%Z.leb_le] [[Hu Eu] Hb%Z.leb_le].
  eapply yields_impl; [by apply fe_mul_yields|]. intros r [Hr Er].
  split; [split; [by apply tight_loose|]|apply Z.leb_le; lia]. by rewrite Er, Et, Eu, Z.pow_add_r.
Qed.

Lemma power_sq x a t : is_power x a t → yields (fe_sq t) (is_power x (2 * a)).
Proof.
  intros [[Ht Et] Ha%Z.leb_le]. eapply yields_impl; [by apply fe_sq_yields|]. intros r [Hr Er].
  split; [split; [by apply tight_loose|]|apply Z.leb_le; lia].
  rewrite Er, Et. replace (2 * a) with (a + a) by lia. by rewrite Z.pow_add_r.
Qed.

Lemma power_squarings x a n t : is_power x a t → yields (squarings n t) (is_power x (2 ^ Z.of_nat n * a)).
Proof.
  revert a t. induction n as [|n IH]; intros a t Ht.
  - apply yields_ret. by rewrite Z.mul_1_l.
  - cbn [squarings]. eapply yields_bind; [by apply power_sq|]. intros r Hr.
    replace (2 ^ Z.of_nat (S n) * a) with (2 ^ Z.of_nat n * (2 * a)); [by apply IH|].
    rewrite Nat2Z.inj_succ, Z.pow_succ_r by lia. lia.
Qed.

Ltac power_step :=
  first [eapply yields_bind | eapply yields_impl];
  [first [eapply power_mul; eassumption | eapply power_sq; eassumption | eapply power_squarings; eassumption]|];
  let H := fresh "P" in
  intros ? H; match type of H with is_power _ ?n _ => let n' := eval vm_compute in n in change n with n' in H end.

Lemma is_power_1 f : within loose f → is_power (fe_value f) 1 f.
Proof. intros H. split; [|done]. split; [done|]. by rewrite Z.pow_1_r. Qed.

(** The inversion raises to the power [p - 2]. *)
Lemma fe_invert_yields z : within loose z →
  yields (fe_invert z) (is_power (fe_value z) (p - 2)).
Proof. intros Hz%is_power_1. unfold fe_invert. repeat power_step. done. Qed.

Lemma pow22523_yields z : within loose z →
  yields (pow22523 z) (is_power (fe_value z) ((p - 5) / 8)).
Proof. intros Hz%is_power_1. unfold pow22523. repeat power_step. done. Qed.

(** ** Elements from bytes *)

Lemma mod_join V a b : 0 ≤ a → 0 ≤ b → V mod 2 ^ a + 2 ^ a * ((V / 2 ^ a) mod 2 ^ b) = V mod 2 ^ (a + b).
Proof. intros Ha Hb. rewrite Z.pow_add_r, Z.rem_mul_r by lia. done. Qed.

(** Limbs that are shifted pieces of 24 and 32 bits, below the last one. *)
Definition loaded (h9 : Z) (h : fe) : Prop :=
  ∃ k0 k1 k2 k3 k4 k5 k6 k7 k8,
    h = Fe k0 (k1 * 2 ^ 6) (k2 * 2 ^ 5) (k3 * 2 ^ 3) (k4 * 2 ^ 2) k5 (k6 * 2 ^ 7) (k7 * 2 ^ 5) (k8 * 2 ^ 4) h9 ∧
    (0 ≤ k0 < 2 ^ 32 ∧ 0 ≤ k1 < 2 ^ 24 ∧ 0 ≤ k2 < 2 ^ 24 ∧ 0 ≤ k3 < 2 ^ 24 ∧ 0 ≤ k4 < 2 ^ 24) ∧
    (0 ≤ k5 < 2 ^ 32 ∧ 0 ≤ k6 < 2 ^ 24 ∧ 0 ≤ k7 < 2 ^ 24 ∧ 0 ≤ k8 < 2 ^ 24).

Lemma load_limbs_value s h9 : is_bytes s → length s = 32%nat →
  yields (load_limbs s h9) (λ h, loaded h9 h ∧ fe_value h = le_value s mod 2 ^ 232 + h9 * 2 ^ 230).
Proof.
  intros Hs Hl. unfold load_limbs. rewrite !load_3_value, !load_4_value by (done || lia).
  offsets. set (V := le_value s). change (2 ^ 0) with 1. rewrite Z.div_1_r.
  apply yields_ret. rewrite !Z.shiftl_mul_pow2 by done.
  split.
  - do 9 eexists. split; [reflexivity|]. repeat split; apply Z.mod_pos_bound; done.
  - assert (∀ a b c, (0 <=? a) && (0 <=? b) && (a + b =? c) = true →
      V mod 2 ^ a + 2 ^ a * ((V / 2 ^ a) mod 2 ^ b) = V mod 2 ^ c) as M.
    { intros a b c H. bool_to_prop. subst c. apply mod_join; lia. }
    cbn [fe_value]. rewrite <- (M 208 24 232), <- (M 184 24 208), <- (M 160 24 184), <- (M 128 32 160),
      <- (M 104 24 128), <- (M 80 24 104), <- (M 56 24 80), <- (M 32 24 56) by done. lia.
Qed.

Lemma loaded_within h9 h : loaded h9 h → Z.abs h9 ≤ 2 ^ 26 → limbs_within (2 ^ 32) h.
Proof.
  intros (k0 & k1 & k2 & k3 & k4 & k5 & k6 & k7 & k8 & -> & (?&?&?&?&?) & (?&?&?&?)) H9.
  unfold limbs_within. repeat split; apply Z.abs_le; lia.
Qed.

Lemma carry_loaded_yields h : limbs_within (2 ^ 32) h →
  yields (carry_loaded h) (λ r, within tight r ∧ fe_value r ≡ₚ fe_value h).
Proof.
  destruct h as [f0 f1 f2 f3 f4 f5 f6 f7 f8 f9]. unfold limbs_within.
  intros [(?&?&?&?&?) (?&?&?&?&?)]. unfold carry_loaded.
  eapply yields_bind.
  { apply carry_around_yields; [weaken|prove_bound|done]. }
  intros [h9' h0'] (c' & E9' & E0' & B9' & B0'). cbv beta iota.
  match type of B0' with _ ≤ ?b => let b' := eval vm_compute in b in change b with b' in B0' end.
  do 9 carry_step. apply yields_ret.
  erewrite !cast32_bound by first [eassumption|reflexivity]. split.
  - unfold within. repeat split; weaken.
  - apply (eqp_by (- c')). unfold fe_value, p. subst. ring.
Qed.

(** ** Theorems *)

(** C21: Field multiplication: for limbs within the documented bounds no signed number
    overflows in the product, the square and its double, the results have the right value
    modulo [p] with limbs that can be added three times before the next product, and
    [fe_tobytes] writes the bytes of the remainder below [p]. *)
Theorem field_arithmetic_exact f g : within loose f → within loose g →
  yields (fe_mul f g) (λ r, within tight r ∧ fe_value r ≡ₚ fe_value f * fe_value g) ∧
  yields (fe_sq f) (λ r, within tight r ∧ fe_value r ≡ₚ fe_value f * fe_value f) ∧
  yields (fe_sq2 f) (λ r, within tight r ∧ fe_value r ≡ₚ 2 * (fe_value f * fe_value f)) ∧
  (h ← fe_mul f g; fe_tobytes h) = Ret (le_bytes 32 ((fe_value f * fe_value g) mod p)).
Proof.
  intros Hf Hg. split; [by apply fe_mul_yields|]. split; [by apply fe_sq_yields|]. split; [by apply fe_sq2_yields|].
  destruct (fe_mul_yields f g Hf Hg) as (h & -> & Hh & E). change (fe_tobytes h = Ret (le_bytes 32 ((fe_value f * fe_value g) mod p))).
  destruct (fe_tobytes_yields h) as (s & -> & Hb & Hl & Ev); [by apply (within_weaken tight)|].
  f_equal. rewrite <- E, <- Ev, <- Hl. symmetry. by apply le_bytes_value.
Qed.

Lemma field_arithmetic_exact_witness :
  let f := Fe 110729624 (-55364812) 7 0 (-3) 55364812 0 1 110729624 (-55364812) in
  (h ← fe_mul f f; fe_tobytes h) = Ret (le_bytes 32 ((fe_value f * fe_value f) mod p)).
Proof. apply field_arithmetic_exact; by repeat split. Defined.
