(* ===== verification/EdwardsCurve.v ===== *)
(** * The group of a twisted Edwards curve

    The specification that the group elements of [crypto/crypto-ops.c] implement: the
    points [(x, y)] over a prime field with [- x^2 + y^2 = 1 + d x^2 y^2], where [-1] is
    a square and [d] is not. The addition law is then defined for all pairs of points,
    and the points are an abelian group. *)

From S2P Require Import Prelude.
From Stdlib Require Import Zmod Field.

(** ** Abelian groups *)

Class AbelianGroup (G : Type) := {
  op : G → G → G;
  neutral : G;
  inverse : G → G;
  op_assoc a b c : op (op a b) c = op a (op b c);
  op_comm a b : op a b = op b a;
  op_neutral a : op neutral a = a;
  op_inverse a : op (inverse a) a = neutral;
}.

Infix "⊕" := op (at level 50, left associativity).
Notation "⊖ a" := (inverse a) (at level 35, right associativity).

Section Multiples.
Context {G : Type} `{!AbelianGroup G}.
Implicit Types a b c : G.

Fixpoint nmul (n : nat) (a : G) : G := match n with O => neutral | S n' => a ⊕ nmul n' a end.

(** The multiple of an element by an integer. *)
Definition zmul (z : Z) (a : G) : G :=
  if (0 <=? z)%Z then nmul (Z.to_nat z) a else inverse (nmul (Z.to_nat (- z)) a).

Lemma op_neutral_r a : a ⊕ neutral = a.
Proof. rewrite op_comm. apply op_neutral. Qed.

Lemma op_inverse_r a : a ⊕ inverse a = neutral.
Proof. rewrite op_comm. apply op_inverse. Qed.

Lemma op_cancel a b c : a ⊕ b = a ⊕ c → b = c.
Proof.
  intros H. rewrite <- (op_neutral b), <- (op_neutral c), <- (op_inverse a), !op_assoc. by rewrite H.
Qed.

Lemma inverse_unique a b : a ⊕ b = neutral → b = inverse a.
Proof. intros H. apply (op_cancel a). by rewrite H, op_inverse_r. Qed.

Lemma inverse_op a b : inverse (a ⊕ b) = inverse a ⊕ inverse b.
Proof.
  symmetry. apply inverse_unique. rewrite (op_comm (inverse a)), op_assoc, <- (op_assoc b).
  by rewrite op_inverse_r, op_neutral, op_inverse_r.
Qed.

Lemma inverse_inverse a : inverse (inverse a) = a.
Proof. symmetry. apply inverse_unique, op_inverse. Qed.

Lemma inverse_neutral : inverse neutral = neutral.
Proof. symmetry. apply inverse_unique, op_neutral. Qed.

Lemma nmul_add m n a : nmul (m + n) a = nmul m a ⊕ nmul n a.
Proof. induction m as [|m IH]; cbn; [by rewrite op_neutral|]. by rewrite IH, op_assoc. Qed.

Lemma op_swap a b c (d : G) : (a ⊕ b) ⊕ (c ⊕ d) = (a ⊕ c) ⊕ (b ⊕ d).
Proof. rewrite !op_assoc. f_equal. rewrite <- !op_assoc. f_equal. apply op_comm. Qed.

Lemma nmul_op n a b : nmul n (a ⊕ b) = nmul n a ⊕ nmul n b.
Proof. induction n as [|n IH]; cbn; [by rewrite op_neutral|]. rewrite IH. apply op_swap. Qed.

Lemma nmul_mul m n a : nmul (m * n) a = nmul m (nmul n a).
Proof. induction m as [|m IH]; cbn; [done|]. by rewrite nmul_add, IH. Qed.

Lemma nmul_inverse n a : nmul n (inverse a) = inverse (nmul n a).
Proof. induction n as [|n IH]; cbn; [by rewrite inverse_neutral|]. by rewrite IH, inverse_op. Qed.

(** A multiple as a difference of multiples by natural numbers. *)
Lemma zmul_diff (m n : nat) a : zmul (Z.of_nat m - Z.of_nat n) a = nmul m a ⊕ inverse (nmul n a).
Proof.
  unfold zmul. case_bool.
  - replace m with (Z.to_nat (Z.of_nat m - Z.of_nat n) + n)%nat at 2 by lia.
    by rewrite nmul_add, op_assoc, op_inverse_r, op_neutral_r.
  - replace n with (m + Z.to_nat (- (Z.of_nat m - Z.of_nat n)))%nat at 2 by lia.
    by rewrite nmul_add, inverse_op, <- op_assoc, op_inverse_r, op_neutral.
Qed.

Lemma diff_of (z : Z) : ∃ m n : nat, z = (Z.of_nat m - Z.of_nat n)%Z.
Proof. exists (Z.to_nat z), (Z.to_nat (- z)). lia. Qed.

Lemma zmul_add y z a : zmul (y + z) a = zmul y a ⊕ zmul z a.
Proof.
  destruct (diff_of y) as (m & n & ->), (diff_of z) as (m' & n' & ->).
  replace (Z.of_nat m - Z.of_nat n + (Z.of_nat m' - Z.of_nat n'))%Z
    with (Z.of_nat (m + m') - Z.of_nat (n + n'))%Z by lia.
  rewrite !zmul_diff, !nmul_add, inverse_op. apply op_swap.
Qed.

Lemma zmul_0 a : zmul 0 a = neutral.
Proof. done. Qed.

Lemma zmul_1 a : zmul 1 a = a.
Proof. apply op_neutral_r. Qed.

Lemma zmul_opp z a : zmul (- z) a = inverse (zmul z a).
Proof. apply inverse_unique. rewrite <- zmul_add, Z.add_opp_diag_r. apply zmul_0. Qed.

Lemma zmul_sub y z a : zmul (y - z) a = zmul y a ⊕ inverse (zmul z a).
Proof. by rewrite <- Z.add_opp_r, zmul_add, zmul_opp. Qed.

Lemma zmul_op z a b : zmul z (a ⊕ b) = zmul z a ⊕ zmul z b.
Proof. destruct (diff_of z) as (m & n & ->). rewrite !zmul_diff, !nmul_op, inverse_op. apply op_swap. Qed.

Lemma nmul_neutral n : nmul n neutral = neutral.
Proof. induction n as [|n IH]; cbn; [done|]. by rewrite IH, op_neutral. Qed.

Lemma zmul_neutral z : zmul z neutral = neutral.
Proof. unfold zmul. by rewrite !nmul_neutral, inverse_neutral; case_match. Qed.

Lemma zmul_nmul z n a : zmul z (nmul n a) = zmul (z * Z.of_nat n) a.
Proof.
  destruct (diff_of z) as (m & k & ->). rewrite Z.mul_sub_distr_r, <- !Nat2Z.inj_mul, !zmul_diff, !nmul_mul. done.
Qed.

Lemma zmul_inverse z a : zmul z (⊖ a) = ⊖ (zmul z a).
Proof. apply inverse_unique. by rewrite <- zmul_op, op_inverse_r, zmul_neutral. Qed.

Lemma zmul_mul y z a : zmul y (zmul z a) = zmul (y * z) a.
Proof.
  destruct (diff_of z) as (m & n & ->).
  by rewrite zmul_diff, zmul_op, zmul_inverse, !zmul_nmul, Z.mul_sub_distr_l, zmul_sub.
Qed.
End Multiples.

(** ** The curve *)

#[export] Instance Zmod_eq_dec m : EqDecision (Zmod m).
Proof.
  intros a b. destruct (Zmod.eqb a b) eqn:E; [left|right].
  - by apply Zmod.eqb_eq.
  - intros ->. by rewrite Zmod.eqb_refl in E.
Defined.

Section Curve.
Context (m : Z) (m_prime : Z.prime m).
Local Notation F := (Zmod m).
Local Open Scope Zmod_scope.
Local Infix "/" := Zmod.mdiv : Zmod_scope.

Add Field F_field : (Zmod.field_theory m m_prime).

Context (d i : F) (i_square : i * i = - (1)) (d_nonsquare : ∀ s : F, s * s ≠ d) (two_nonzero : (1 + 1 : F) ≠ 0).

Lemma F_cancel (c a b : F) : c ≠ 0 → a * c = b * c → a = b.
Proof.
  intros Hc H. assert (a * c / c = b * c / c) as E by (by rewrite H).
  replace a with (a * c / c) by (by field). rewrite E. by field.
Qed.

Lemma one_nonzero : (1 : F) ≠ 0.
Proof. intros H. apply two_nonzero. rewrite H. ring. Qed.

Lemma F_nonzero_mul (a b : F) : a ≠ 0 → b ≠ 0 → a * b ≠ 0.
Proof. intros Ha Hb H. apply Ha, (F_cancel b); [done|]. rewrite H. ring. Qed.

Lemma F_fraction_eq (a b a' b' : F) : b ≠ 0 → b' ≠ 0 → a * b' = a' * b → a / b = a' / b'.
Proof.
  intros Hb Hb' H. apply (F_cancel (b * b')); [by apply F_nonzero_mul|].
  transitivity (a * b'); [by field|]. rewrite H. by field.
Qed.

Lemma F_div_mul (a b : F) : b ≠ 0 → a / b * b = a.
Proof. intros. by field. Qed.

Definition on_curve (x y : F) : Prop := d * (x * x) * (y * y) = y * y - x * x - 1.

#[export] Instance on_curve_dec x y : Decision (on_curve x y).
Proof. unfold on_curve. apply _. Defined.

(** The denominators of the addition law are never zero. *)
Lemma product_not_unit x1 y1 x2 y2 : on_curve x1 y1 → on_curve x2 y2 →
  d * x1 * x2 * y1 * y2 * (d * x1 * x2 * y1 * y2) ≠ 1.
Proof.
  intros H1 H2 Hu. unfold on_curve in *. remember (d * x1 * x2 * y1 * y2) as u eqn:Eu.
  assert (u ≠ 0) as Hz.
  { intros ->. apply one_nonzero. rewrite <- Hu. ring. }
  assert (x1 * y1 ≠ 0 ∧ y2 ≠ 0) as [Hxy Hy].
  { split; intros E; apply Hz; rewrite Eu; [|rewrite E; ring].
    replace (d * x1 * x2 * y1 * y2) with (d * x2 * y2 * (x1 * y1)) by ring. rewrite E. ring. }
  assert (∀ s, s * s = 1 → i * x2 + s * y2 = 0) as Z0.
  { intros s Hs. destruct (decide (i * x2 + s * y2 = 0)) as [|Hn]; [done|exfalso].
    set (w := (i * x2 + s * y2) * (x1 * y1)). assert (w ≠ 0) as Hw by (by apply F_nonzero_mul).
    apply (d_nonsquare ((i * x1 + s * u * y1) / w)).
    apply (F_cancel (w * w)); [by apply F_nonzero_mul|].
    replace ((i * x1 + s * u * y1) / w * ((i * x1 + s * u * y1) / w) * (w * w))
      with ((i * x1 + s * u * y1) * (i * x1 + s * u * y1)) by (by field).
    transitivity (1 + d * (x1 * x1) * (y1 * y1) + (1 + 1) * i * s * u * x1 * y1).
    - transitivity (i * i * (x1 * x1) + s * s * (u * u) * (y1 * y1) + (1 + 1) * i * s * u * x1 * y1); [ring|].
      rewrite i_square, Hs, Hu, H1. ring.
    - transitivity (d * (x1 * x1) * (y1 * y1) * (i * i * (x2 * x2) + s * s * (y2 * y2)) +
        (1 + 1) * i * s * (d * x1 * x2 * y1 * y2) * x1 * y1); [|unfold w; ring].
      rewrite i_square, Hs, <- Eu. replace (- (1) * (x2 * x2) + 1 * (y2 * y2))
        with (1 + d * (x2 * x2) * (y2 * y2)) by (rewrite H2; ring).
      replace (d * (x1 * x1) * (y1 * y1) * (1 + d * (x2 * x2) * (y2 * y2)))
        with (d * (x1 * x1) * (y1 * y1) + (d * x1 * x2 * y1 * y2) * (d * x1 * x2 * y1 * y2)) by ring.
      rewrite <- Eu, Hu. ring. }
  apply (F_nonzero_mul (1 + 1) y2 two_nonzero Hy).
  pose proof (Z0 1 ltac:(ring)) as E1. pose proof (Z0 (- (1)) ltac:(ring)) as E2.
  transitivity (i * x2 + 1 * y2 - (i * x2 + - (1) * y2)); [ring|]. rewrite E1, E2. ring.
Qed.

Lemma denominators x1 y1 x2 y2 : on_curve x1 y1 → on_curve x2 y2 →
  1 + d * x1 * x2 * y1 * y2 ≠ 0 ∧ 1 - d * x1 * x2 * y1 * y2 ≠ 0.
Proof.
  intros H1 H2. pose proof (product_not_unit x1 y1 x2 y2 H1 H2) as H.
  revert H. generalize (d * x1 * x2 * y1 * y2) as u. intros u Hu. split; intros E; apply Hu.
  - transitivity ((1 + u) * (u - 1) + 1); [ring|]. rewrite E. ring.
  - transitivity (1 - (1 - u) * (1 + u)); [ring|]. rewrite E. ring.
Qed.

(** ** Points *)

Record point := Point { px : F; py : F; point_on : bool_decide (on_curve px py) = true }.

Lemma point_eq P Q : px P = px Q → py P = py Q → P = Q.
Proof.
  destruct P as [x y H], Q as [x' y' H']. cbn. intros -> ->. f_equal. apply (proof_irrel _ _).
Qed.

Lemma point_curve P : on_curve (px P) (py P).
Proof. eapply bool_decide_eq_true_1, point_on. Qed.

Definition mk_point x y (H : on_curve x y) : point := Point x y (bool_decide_eq_true_2 _ H).

Definition sum_x x1 y1 x2 y2 : F := (x1 * y2 + y1 * x2) / (1 + d * x1 * x2 * y1 * y2).
Definition sum_y x1 y1 x2 y2 : F := (y1 * y2 + x1 * x2) / (1 - d * x1 * x2 * y1 * y2).

Lemma sum_on_curve x1 y1 x2 y2 : on_curve x1 y1 → on_curve x2 y2 →
  on_curve (sum_x x1 y1 x2 y2) (sum_y x1 y1 x2 y2).
Proof.
  intros H1 H2. destruct (denominators _ _ _ _ H1 H2) as [D1 D2]. unfold on_curve in *.
  unfold sum_x, sum_y. set (w1 := 1 + d * x1 * x2 * y1 * y2) in *. set (w2 := 1 - d * x1 * x2 * y1 * y2) in *.
  set (n1 := x1 * y2 + y1 * x2). set (n2 := y1 * y2 + x1 * x2).
  apply (F_cancel (w1 * w1 * (w2 * w2))); [by repeat apply F_nonzero_mul|].
  transitivity (d * (n1 * n1) * (n2 * n2)); [by field|].
  transitivity (n2 * n2 * (w1 * w1) - n1 * n1 * (w2 * w2) - w1 * w1 * (w2 * w2)); [|by field].
  unfold n1, n2, w1, w2. ring [H1 H2].
Qed.

Definition point_add (P Q : point) : point :=
  mk_point _ _ (sum_on_curve _ _ _ _ (point_curve P) (point_curve Q)).

Lemma zero_on_curve : on_curve 0 1.
Proof. unfold on_curve. ring. Qed.
Definition point_zero : point := mk_point 0 1 zero_on_curve.

Lemma opp_on_curve x y : on_curve x y → on_curve (- x) y.
Proof. unfold on_curve. intros H. transitivity (d * (x * x) * (y * y)); [ring|]. rewrite H. ring. Qed.
Definition point_opp (P : point) : point := mk_point _ _ (opp_on_curve _ _ (point_curve P)).

(** A sum with a sum, without the inner fractions. The sign [s] tells the coordinates
    apart. *)
Lemma nested_fraction (s a b c e x y n1 n2 : F) : b ≠ 0 → e ≠ 0 →
  1 + s * (d * (a / b) * x * (c / e) * y) ≠ 0 →
  (b * e + s * (d * a * c * x * y) ≠ 0) ∧
  ((a / b) * n1 + (c / e) * n2) / (1 + s * (d * (a / b) * x * (c / e) * y)) =
  (a * e * n1 + c * b * n2) / (b * e + s * (d * a * c * x * y)).
Proof.
  intros Hb He Hw. set (w := 1 + s * (d * (a / b) * x * (c / e) * y)) in *.
  assert (b * e * w = b * e + s * (d * a * c * x * y)) as Ew by (unfold w; by field).
  assert (b * e + s * (d * a * c * x * y) ≠ 0) as Hd by (rewrite <- Ew; by repeat apply F_nonzero_mul).
  split; [done|]. apply F_fraction_eq; [done|done|]. rewrite <- Ew. by field.
Qed.

(** Both ways to add three points have the same coordinates. *)
Lemma sum_assoc x1 y1 x2 y2 x3 y3 : on_curve x1 y1 → on_curve x2 y2 → on_curve x3 y3 →
  let x12 := sum_x x1 y1 x2 y2 in let y12 := sum_y x1 y1 x2 y2 in
  let x23 := sum_x x2 y2 x3 y3 in let y23 := sum_y x2 y2 x3 y3 in
  sum_x x12 y12 x3 y3 = sum_x x1 y1 x23 y23 ∧ sum_y x12 y12 x3 y3 = sum_y x1 y1 x23 y23.
Proof.
  intros H1 H2 H3. cbv zeta.
  destruct (denominators _ _ _ _ H1 H2) as [B E]. destruct (denominators _ _ _ _ H2 H3) as [B' E'].
  destruct (denominators _ _ _ _ (sum_on_curve _ _ _ _ H1 H2) H3) as [L M].
  destruct (denominators _ _ _ _ H1 (sum_on_curve _ _ _ _ H2 H3)) as [R S].
  unfold on_curve in *. unfold sum_x, sum_y in *.
  set (a := x1 * y2 + y1 * x2) in *. set (c := y1 * y2 + x1 * x2) in *.
  set (a' := x2 * y3 + y2 * x3) in *. set (c' := y2 * y3 + x2 * x3) in *.
  set (b := 1 + d * x1 * x2 * y1 * y2) in *. set (e := 1 - d * x1 * x2 * y1 * y2) in *.
  set (b' := 1 + d * x2 * x3 * y2 * y3) in *. set (e' := 1 - d * x2 * x3 * y2 * y3) in *.
  assert (∀ s, 1 + s * (d * (a / b) * x3 * (c / e) * y3) ≠ 0 → 1 + s * (d * x1 * (a' / b') * y1 * (c' / e')) ≠ 0 →
    ∀ n1 n2 n1' n2', (a * e * n1 + c * b * n2) * (b' * e' + s * (d * a' * c' * x1 * y1)) =
      (a' * e' * n1' + c' * b' * n2') * (b * e + s * (d * a * c * x3 * y3)) →
    ((a / b) * n1 + (c / e) * n2) / (1 + s * (d * (a / b) * x3 * (c / e) * y3)) =
    ((a' / b') * n1' + (c' / e') * n2') / (1 + s * (d * x1 * (a' / b') * y1 * (c' / e')))) as C.
  { intros s Ls Rs n1 n2 n1' n2' H. destruct (nested_fraction s a b c e x3 y3 n1 n2 B E Ls) as [DL ->].
    replace (d * x1 * (a' / b') * y1 * (c' / e')) with (d * (a' / b') * x1 * (c' / e') * y1) in * by ring.
    destruct (nested_fraction s a' b' c' e' x1 y1 n1' n2' B' E' Rs) as [DR ->].
    by apply F_fraction_eq. }
  split.
  - specialize (C 1). rewrite !(Zmod.mul_1_l (d * _ * _ * _ * _)) in C.
    rewrite (C L R y3 x3 y1 x1); [f_equal; ring|]. unfold a, b, c, e, a', b', c', e'. ring [H1 H2 H3].
  - specialize (C (- (1))).
    assert (∀ t : F, 1 + - (1) * t = 1 - t) as Em by (intros; ring). rewrite !Em in C.
    transitivity ((a / b * x3 + c / e * y3) / (1 - d * (a / b) * x3 * (c / e) * y3)); [f_equal; ring|].
    rewrite (C M S x3 y3 x1 y1); [f_equal; ring|]. unfold a, b, c, e, a', b', c', e'. ring [H1 H2 H3].
Qed.

#[export] Instance point_group : AbelianGroup point.
Proof.
  refine {| op := point_add; neutral := point_zero; inverse := point_opp |}.
  - intros P Q R. destruct (sum_assoc _ _ _ _ _ _ (point_curve P) (point_curve Q) (point_curve R)).
    by apply point_eq.
  - intros P Q. apply point_eq; cbn; unfold sum_x, sum_y; f_equal; ring.
  - intros P. destruct (denominators _ _ _ _ zero_on_curve (point_curve P)) as [D1 D2].
    apply point_eq; cbn; unfold sum_x, sum_y.
    + apply (F_cancel _ _ _ D1). rewrite F_div_mul by done. ring.
    + apply (F_cancel _ _ _ D2). rewrite F_div_mul by done. ring.
  - intros P. pose proof (point_curve P) as H. destruct (denominators _ _ _ _ (opp_on_curve _ _ H) H) as [D1 D2].
    apply point_eq; cbn; unfold sum_x, sum_y.
    + apply (F_cancel _ _ _ D1). rewrite F_div_mul by done. ring.
    + apply (F_cancel _ _ _ D2). rewrite F_div_mul by done. unfold on_curve in H. ring [H].
Defined.
End Curve.

Arguments px {m d} _.
Arguments py {m d} _.
Arguments point_eq {m d} _ _ _ _.
Arguments point_curve {m d} _.
