(* ===== verification/Keccak.v ===== *)
(** * Keccak and the source of random bytes ([crypto/keccak.c], [crypto/hash.c], [crypto/random.c])

    The permutation over 25 words of 64 bits, the sponge with its padding, the hash
    [cn_fast_hash], and the generator whose state is permuted before each output. The
    32 bytes of the operating system that the state starts with are a parameter. The
    sponge is shown to be the one of the padded message ([keccak_sponge]). *)

From S2P Require Import Prelude Streams SignedArithmetic.

Local Open Scope Z_scope.

(** ** The permutation *)

Definition keccakf_rndc : list Z :=
  [0x0000000000000001; 0x0000000000008082; 0x800000000000808a; 0x8000000080008000; 0x000000000000808b; 0x0000000080000001;
   0x8000000080008081; 0x8000000000008009; 0x000000000000008a; 0x0000000000000088; 0x0000000080008009; 0x000000008000000a;
   0x000000008000808b; 0x800000000000008b; 0x8000000000008089; 0x8000000000008003; 0x8000000000008002; 0x8000000000000080;
   0x000000000000800a; 0x800000008000000a; 0x8000000080008081; 0x8000000000008080; 0x0000000080000001; 0x8000000080008008].

Definition keccakf_rotc : list Z :=
  [1; 3; 6; 10; 15; 21; 28; 36; 45; 55; 2; 14; 27; 41; 56; 8; 25; 43; 62; 18; 39; 61; 20; 44].

Definition keccakf_piln : list nat :=
  [10; 7; 11; 17; 18; 3; 5; 16; 8; 21; 24; 4; 15; 23; 19; 13; 12; 2; 20; 14; 22; 9; 6; 1]%nat.

Definition ROTL64 (x y : Z) : Z := Z.lor (u64 (Z.shiftl x y)) (Z.shiftr x (64 - y)).

Definition theta_parity (st : list Z) : list Z :=
  (λ i, Z.lxor (Z.lxor (Z.lxor (Z.lxor (st !!! i) (st !!! (i + 5)%nat)) (st !!! (i + 10)%nat)) (st !!! (i + 15)%nat))
          (st !!! (i + 20)%nat)) <$> seq 0 5.

Definition theta (st : list Z) : list Z :=
  let bc := theta_parity st in
  imap (λ k x, Z.lxor x (Z.lxor (bc !!! ((k mod 5 + 4) mod 5)%nat) (ROTL64 (bc !!! ((k mod 5 + 1) mod 5)%nat) 1))) st.

(** The walk along the positions: [t] is the word to move. *)
Fixpoint rho_pi (places : list (nat * Z)) (t : Z) (st : list Z) : list Z :=
  match places with
  | [] => st
  | (j, r) :: places' => let t' := st !!! j in rho_pi places' t' (<[j := ROTL64 t r]> st)
  end.

Definition chi_row (st : list Z) (j : nat) : list Z :=
  let bc := (λ i, st !!! (j + i)%nat) <$> seq 0 5 in
  foldl (λ st i, <[(j + i)%nat := Z.lxor (st !!! (j + i)%nat) (Z.land (Z.lnot (bc !!! ((i + 1) mod 5)%nat)) (bc !!! ((i + 2) mod 5)%nat))]> st)
    st (seq 0 5).

Definition chi (st : list Z) : list Z := foldl chi_row st [0; 5; 10; 15; 20]%nat.

Definition keccak_round (st : list Z) (rndc : Z) : list Z :=
  let st := theta st in
  let st := rho_pi (zip keccakf_piln keccakf_rotc) (st !!! 1%nat) st in
  let st := chi st in
  <[0%nat := Z.lxor (st !!! 0%nat) rndc]> st.

(** [keccakf(st, 24)] *)
Definition keccakf (st : list Z) : list Z := foldl keccak_round st keccakf_rndc.

(** ** The sponge *)

(** Bytes as words, in the order of a little-endian machine. *)
Fixpoint words (n : nat) (bs : list Z) : list Z :=
  match n with O => [] | S n' => le_value (take 8 bs) :: words n' (drop 8 bs) end.

Definition state_bytes (st : list Z) : list Z := st ≫= le_bytes 8.

(** [st[i] ^= in[i]] for the first words. *)
Definition xor_words (st ws : list Z) : list Z := zip_with Z.lxor (take (length ws) st) ws ++ drop (length ws) st.

Definition absorb (rsiz : nat) (st block : list Z) : list Z := keccakf (xor_words st (words (rsiz / 8) block)).

Fixpoint absorb_loop (fuel : nat) (rsiz : nat) (st inp : list Z) : list Z * list Z :=
  match fuel with
  | O => (st, inp)
  | S fuel' =>
      if (rsiz <=? length inp)%nat then absorb_loop fuel' rsiz (absorb rsiz st inp) (drop rsiz inp)
      else (st, inp)
  end.

Definition KECCAK_STATE_SIZE : Z := 200.

(** [keccak(in, inlen, md, mdlen)]: the bytes of [in] are its first [inlen] ones. A
    negative length makes [memcpy] read outside of them; [temp] has 144 bytes. *)
Definition keccak (inp : list Z) (inlen mdlen : Z) : outcome (list Z) :=
  let rsiz := if KECCAK_STATE_SIZE =? mdlen then 136 else 200 - 2 * mdlen in
  if (inlen <? 0) || (Z.of_nat (length inp) <? inlen) || (rsiz <? 1) || (144 <? rsiz) then Abort
  else
    let rsiz := Z.to_nat rsiz in
    let inp := take (Z.to_nat inlen) inp in
    let '(st, rest) := absorb_loop (S (length inp)) rsiz (replicate 25 0) inp in
    let temp := rest ++ [1] ++ replicate (rsiz - S (length rest)) 0 in
    let temp := <[(rsiz - 1)%nat := Z.lor (temp !!! (rsiz - 1)%nat) 0x80]> temp in
    let st := absorb rsiz st temp in
    mret (take (Z.to_nat mdlen) (state_bytes st)).

Definition keccak1600 (inp : list Z) (inlen : Z) : outcome (list Z) := keccak inp inlen KECCAK_STATE_SIZE.

Definition hash_process (buf : list Z) (count : Z) : outcome (list Z) := keccak1600 buf (cast32 count).

Definition HASH_SIZE : nat := 32.
Definition HASH_DATA_AREA : nat := 136.

Definition cn_fast_hash (data : list Z) : outcome (list Z) :=
  state ← hash_process data (Z.of_nat (length data));
  mret (take HASH_SIZE state).

(** ** Random bytes *)

Definition hash_permutation (state : list Z) : list Z := keccakf state.

(** [init_random], with the bytes of the operating system. *)
Definition init_random (system : list Z) : list Z := words 4 system ++ replicate 21 0.

Fixpoint random_loop (fuel : nat) (n : nat) (state : list Z) : list Z * list Z :=
  match fuel with
  | O => ([], state)
  | S fuel' =>
      let state := hash_permutation state in
      if (n <=? HASH_DATA_AREA)%nat then (take n (state_bytes state), state)
      else
        let '(rest, state') := random_loop fuel' (n - HASH_DATA_AREA) state in
        (take HASH_DATA_AREA (state_bytes state) ++ rest, state')
  end.

(** The bytes and the state after them. *)
Definition generate_random_bytes (n : nat) (state : list Z) : list Z * list Z :=
  if (n =? 0)%nat then ([], state) else random_loop n n state.

(** ** Well-formed states *)

(** 25 words of 64 bits. *)
Definition is_state (st : list Z) : Prop := length st = 25%nat ∧ Forall is_u64 st.

Lemma u64_bits z : is_u64 z ↔ ∀ i, 64 ≤ i → Z.testbit z i = false.
Proof.
  split.
  - intros H i Hi. rewrite <- (Z.mod_small _ _ H). by rewrite Z.mod_pow2_bits_high by lia.
  - intros H. assert (z mod 2 ^ 64 = z) as <-; [|by apply Z.mod_pos_bound].
    apply Z.bits_inj'. intros i Hi. destruct (Z.lt_ge_cases i 64); [by rewrite Z.mod_pow2_bits_low|].
    by rewrite Z.mod_pow2_bits_high, H by lia.
Qed.

Lemma lxor_u64 a b : is_u64 a → is_u64 b → is_u64 (Z.lxor a b).
Proof. rewrite !u64_bits. intros Ha Hb i Hi. by rewrite Z.lxor_spec, Ha, Hb. Qed.

Lemma land_u64 a b : is_u64 b → is_u64 (Z.land a b).
Proof. rewrite !u64_bits. intros Hb i Hi. by rewrite Z.land_spec, Hb, andb_false_r. Qed.

Lemma ROTL64_u64 x y : is_u64 x → 0 ≤ y ≤ 64 → is_u64 (ROTL64 x y).
Proof.
  intros Hx Hy. pose proof (u64_range (Z.shiftl x y)) as Hl. revert Hx Hl. unfold ROTL64. rewrite !u64_bits. intros Hx Hl i Hi.
  rewrite Z.lor_spec, Hl, Z.shiftr_spec, Hx by lia. done.
Qed.

Lemma lookup_u64 st i : Forall is_u64 st → is_u64 (st !!! i).
Proof.
  intros H. rewrite list_lookup_total_alt. destruct (st !! i) as [x|] eqn:E; [|done]. exact (proj1 (Forall_lookup _ _) H _ _ E).
Qed.

Lemma insert_state st i x : is_state st → is_u64 x → is_state (<[i := x]> st).
Proof. intros [Hl H] Hx. split; [by rewrite length_insert|by apply Forall_insert]. Qed.

Lemma fmap_u64 {B} (f : B → Z) l : (∀ x, is_u64 (f x)) → Forall is_u64 (f <$> l).
Proof. intros H. apply Forall_fmap, Forall_true. intros x. apply H. Qed.

Lemma theta_state st : is_state st → is_state (theta st).
Proof.
  intros [Hl H]. unfold theta. assert (Forall is_u64 (theta_parity st)) as Hb.
  { apply fmap_u64. intros i. repeat (apply lxor_u64; [|by apply lookup_u64]). by apply lookup_u64. }
  split; [by rewrite length_imap|]. apply Forall_lookup. intros i x Hi. rewrite list_lookup_imap in Hi.
  destruct (st !! i) as [y|] eqn:E; [|done]. injection Hi as <-.
  apply lxor_u64; [exact (proj1 (Forall_lookup _ _) H _ _ E)|]. apply lxor_u64; [by apply lookup_u64|].
  apply ROTL64_u64; [by apply lookup_u64|lia].
Qed.

Lemma rho_pi_state places t st : Forall (λ '(_, r), 0 ≤ r ≤ 64) places → is_u64 t → is_state st → is_state (rho_pi places t st).
Proof.
  intros Hp. revert t st. induction Hp as [|[j r] places Hr _ IH]; intros t st Ht Hst; [done|]. cbn [rho_pi].
  apply IH; [apply lookup_u64, Hst|]. apply insert_state; [done|]. by apply ROTL64_u64.
Qed.

Lemma chi_row_state st j : is_state st → is_state (chi_row st j).
Proof.
  intros Hst. unfold chi_row. set (bc := _ <$> seq 0 5). assert (Forall is_u64 bc) as Hb.
  { unfold bc. apply fmap_u64. intros i. apply lookup_u64, Hst. }
  clearbody bc. revert st Hst. induction (seq 0 5) as [|i l IH]; intros st Hst; [done|]. cbn [foldl]. apply IH.
  apply insert_state; [done|]. apply lxor_u64; [apply lookup_u64, Hst|]. apply land_u64. by apply lookup_u64.
Qed.

Lemma keccak_round_state st c : is_state st → is_u64 c → is_state (keccak_round st c).
Proof.
  intros Hst Hc. unfold keccak_round. apply theta_state in Hst. set (s1 := theta st) in *.
  assert (is_state (rho_pi (zip keccakf_piln keccakf_rotc) (s1 !!! 1%nat) s1)) as H2.
  { apply rho_pi_state; [by repeat constructor|apply lookup_u64, Hst|done]. }
  set (s2 := rho_pi _ _ _) in *. clearbody s2. assert (is_state (chi s2)) as H3.
  { unfold chi. revert s2 H2. induction [0; 5; 10; 15; 20]%nat as [|j l IH]; intros s2 H2; [done|]. apply IH. by apply chi_row_state. }
  apply insert_state; [done|]. apply lxor_u64; [apply lookup_u64, H3|done].
Qed.

(** The permutation keeps 25 words of 64 bits. *)
Lemma keccakf_state st : is_state st → is_state (keccakf st).
Proof.
  unfold keccakf. assert (Forall is_u64 keccakf_rndc) as H by (by repeat constructor). revert st.
  induction H as [|c l Hc _ IH]; intros st Hst; [done|]. cbn [foldl]. apply IH. by apply keccak_round_state.
Qed.

Lemma state_bytes_spec st : length (state_bytes st) = (8 * length st)%nat ∧ is_bytes (state_bytes st).
Proof.
  induction st as [|x st [IHl IHb]]; [by split; [|constructor]|].
  change (state_bytes (x :: st)) with (le_bytes 8 x ++ state_bytes st). rewrite length_app, IHl, le_bytes_length. split; [cbn [length]; lia|].
  apply Forall_app. split; [apply le_bytes_bytes|done].
Qed.

(** ** The hash returns *)

Lemma absorb_state rsiz st block : is_bytes block → is_state st → is_state (absorb rsiz st block).
Proof.
  intros Hb [Hl H]. apply keccakf_state.
  assert (Forall is_u64 (words (rsiz / 8) block)) as Hw.
  { revert block Hb. induction (rsiz / 8)%nat as [|n IH]; intros block Hb; cbn [words]; constructor.
    - assert (is_bytes (take 8 block)) as R%le_value_range by (by apply Forall_take). unfold in_range. split; [lia|].
      apply Z.lt_le_trans with (1 := proj2 R), Z.pow_le_mono_r; [lia|]. rewrite length_take. lia.
    - apply IH. by apply Forall_drop. }
  unfold xor_words. set (ws := words _ _) in *. clearbody ws. split.
  - rewrite length_app, length_zip_with, length_take, length_drop. lia.
  - apply Forall_app. split; [|by apply Forall_drop].
    assert (Forall is_u64 (take (length ws) st)) as Ht by (by apply Forall_take). revert Ht. generalize (take (length ws) st). clear st Hl H.
    induction Hw as [|w ws Hw _ IH]; intros [|x st] Ht; try (by constructor). inversion_clear Ht. cbn [zip_with]. constructor; [by apply lxor_u64|by apply IH].
Qed.

Lemma absorb_loop_spec fuel rsiz st inp : (0 < rsiz)%nat → (length inp < fuel)%nat → is_bytes inp → is_state st →
  ∃ st' rest, absorb_loop fuel rsiz st inp = (st', rest) ∧ is_state st' ∧ (length rest < rsiz)%nat ∧ is_bytes rest.
Proof.
  intros Hr. revert st inp. induction fuel as [|fuel IH]; intros st inp Hf Hb Hst; [lia|]. cbn [absorb_loop].
  destruct (Nat.leb_spec rsiz (length inp)); [|eauto 10]. apply IH; [rewrite length_drop; lia|by apply Forall_drop|by apply absorb_state].
Qed.

Lemma keccak_round_length st c : length (keccak_round st c) = length st.
Proof.
  assert (∀ places t s, length (rho_pi places t s) = length s) as R.
  { induction places as [|[j r] places IH]; intros t s; [done|]. cbn [rho_pi]. by rewrite IH, length_insert. }
  assert (∀ s j, length (chi_row s j) = length s) as C.
  { intros s j. unfold chi_row. generalize ((λ i, s !!! (j + i)%nat) <$> seq 0 5). intros bc. revert s.
    induction (seq 0 5) as [|i l IH]; intros s; [done|]. cbn [foldl]. by rewrite IH, length_insert. }
  unfold keccak_round, chi. cbv zeta. cbn [foldl]. rewrite length_insert, !C, R. apply length_imap.
Qed.

Lemma absorb_length rsiz st block : length (absorb rsiz st block) = length st.
Proof.
  unfold absorb, xor_words. generalize (words (rsiz / 8) block). intros ws.
  assert (length (zip_with Z.lxor (take (length ws) st) ws ++ drop (length ws) st) = length st) as <-.
  { rewrite length_app, length_zip_with, length_take, length_drop. lia. }
  generalize (zip_with Z.lxor (take (length ws) st) ws ++ drop (length ws) st). unfold keccakf.
  induction keccakf_rndc as [|c l IH]; intros s; [done|]. cbn [foldl]. by rewrite IH, keccak_round_length.
Qed.

Lemma absorb_loop_length fuel rsiz st inp : length (absorb_loop fuel rsiz st inp).1 = length st.
Proof. revert st inp. induction fuel as [|fuel IH]; intros st inp; [done|]. cbn [absorb_loop]. case_match; [|done]. by rewrite IH, absorb_length. Qed.

Lemma Ret_inj {A} (a b : A) : Ret a = Ret b → a = b.
Proof. by injection 1. Qed.

(** Whatever the input is, a hash has 32 bytes. *)
Lemma cn_fast_hash_pod data h : cn_fast_hash data = Ret h → is_bytes h ∧ length h = 32%nat.
Proof.
  unfold cn_fast_hash, hash_process, keccak1600, keccak. intros E. apply outcome_bind_ret in E as (s & E & [= <-]).
  case_match; [done|]. destruct (absorb_loop _ _ _ _) as [st rest] eqn:El. apply Ret_inj in E. subst s.
  assert (length st = 25%nat) as L by (change st with (st, rest).1; rewrite <- El, absorb_loop_length; apply length_replicate).
  match goal with |- context [absorb ?r st ?b] => destruct (state_bytes_spec (absorb r st b)) as [Ln Hs] end.
  split; [by do 2 apply Forall_take|]. rewrite !length_take, Ln, absorb_length, L. done.
Qed.

(** ** The sponge of the padded message *)

(** The padding that completes [n] bytes to a block: a one bit, zeros and a one bit. *)
Definition pad_tail (n : nat) : list Z := match n with O => [] | S O => [0x81] | S (S n') => 1 :: replicate n' 0 ++ [0x80] end.

Definition pad (rsiz : nat) (m : list Z) : list Z := m ++ pad_tail (rsiz - length m mod rsiz).

Fixpoint blocks (n rsiz : nat) (l : list Z) : list (list Z) :=
  match n with O => [] | S n' => take rsiz l :: blocks n' rsiz (drop rsiz l) end.

Definition sponge (rsiz : nat) (st m : list Z) : list Z :=
  foldl (absorb rsiz) st (blocks (length (pad rsiz m) / rsiz) rsiz (pad rsiz m)).

Lemma words_take n k l : (8 * n ≤ k)%nat → words n (take k l) = words n l.
Proof.
  revert k l. induction n as [|n IH]; intros k l H; [done|]. cbn [words]. rewrite take_take, Nat.min_l by lia. f_equal.
  replace k with (8 + (k - 8))%nat by lia. rewrite <- take_drop_commute. apply IH. lia.
Qed.

Lemma absorb_take rsiz st block : absorb rsiz st (take rsiz block) = absorb rsiz st block.
Proof. unfold absorb. rewrite words_take; [done|]. pose proof (Nat.Div0.mul_div_le rsiz 8). lia. Qed.

Lemma pad_tail_length n : length (pad_tail n) = n.
Proof. destruct n as [|[|n]]; [done|done|]. cbn [pad_tail length]. rewrite length_app, length_replicate. cbn [length]. lia. Qed.

(** The number of blocks. *)
Lemma pad_length rsiz m : (0 < rsiz)%nat → length (pad rsiz m) = (rsiz * S (length m / rsiz))%nat.
Proof.
  intros Hr. unfold pad. rewrite length_app, pad_tail_length. pose proof (Nat.div_mod_eq (length m) rsiz).
  pose proof (Nat.mod_upper_bound (length m) rsiz). lia.
Qed.

(** The bytes of [temp] are the last block. *)
Lemma last_block rsiz rest : (length rest < rsiz)%nat →
  let temp := rest ++ [1] ++ replicate (rsiz - S (length rest)) 0 in
  <[(rsiz - 1)%nat := Z.lor (temp !!! (rsiz - 1)%nat) 0x80]> temp = rest ++ pad_tail (rsiz - length rest).
Proof.
  intros Hl temp. unfold temp. replace (rsiz - 1)%nat with (length rest + (rsiz - 1 - length rest))%nat by lia.
  rewrite lookup_total_app_r by lia. rewrite insert_app_r, Nat.add_sub_swap, Nat.sub_diag, Nat.add_0_l by lia. f_equal.
  replace (rsiz - length rest)%nat with (S (rsiz - 1 - length rest)) by lia.
  replace (rsiz - S (length rest))%nat with (rsiz - 1 - length rest)%nat by lia.
  destruct (rsiz - 1 - length rest)%nat as [|k]; [done|]. cbn [pad_tail app]. change (S k) with (1 + k)%nat at 1.
  assert (replicate (S k) 0 = replicate k 0 ++ [0]) as -> by (by rewrite <- replicate_cons_app).
  change ((1 :: replicate k 0 ++ [0]) !!! (S k)) with ((replicate k 0 ++ [0]) !!! k).
  rewrite (list_lookup_total_middle (replicate k 0) [] 0 k) by (by rewrite length_replicate).
  change (<[(1 + k)%nat := ?y]> (1 :: ?l)) with (1 :: <[k := y]> l). f_equal.
  pose proof (insert_app_r (replicate k 0) [0] 0 128) as E. rewrite length_replicate, Nat.add_0_r in E. exact E.
Qed.

Lemma sponge_step rsiz st inp : (0 < rsiz ≤ length inp)%nat → sponge rsiz st inp = sponge rsiz (absorb rsiz st inp) (drop rsiz inp).
Proof.
  intros Hr. assert (pad rsiz inp = take rsiz inp ++ pad rsiz (drop rsiz inp)) as E.
  { unfold pad. rewrite app_assoc, take_drop, length_drop. do 3 f_equal.
    replace (length inp) with (length inp - rsiz + 1 * rsiz)%nat at 1 by lia. by rewrite Nat.Div0.mod_add. }
  unfold sponge. rewrite (pad_length rsiz inp), (pad_length rsiz (drop rsiz inp)), !(Nat.mul_comm rsiz), !Nat.div_mul by lia.
  rewrite E, length_drop. assert (length inp / rsiz = S ((length inp - rsiz) / rsiz))%nat as ->.
  { replace (length inp) with (length inp - rsiz + 1 * rsiz)%nat at 1 by lia. rewrite Nat.div_add by lia. lia. }
  assert (length (take rsiz inp) = rsiz) as L by (rewrite length_take; lia).
  change (blocks (S ?n) rsiz ?l) with (take rsiz l :: blocks n rsiz (drop rsiz l)) at 1. cbn [foldl].
  rewrite take_app_length', drop_app_length' by done. by rewrite absorb_take.
Qed.

Lemma absorb_loop_sponge fuel rsiz st inp st' rest : (0 < rsiz)%nat → (length inp < fuel)%nat →
  absorb_loop fuel rsiz st inp = (st', rest) →
  (length rest < rsiz)%nat ∧ absorb rsiz st' (rest ++ pad_tail (rsiz - length rest)) = sponge rsiz st inp.
Proof.
  intros Hr. revert st inp. induction fuel as [|fuel IH]; intros st inp Hf E; [lia|]. cbn [absorb_loop] in E.
  destruct (Nat.leb_spec rsiz (length inp)) as [L|L].
  - rewrite sponge_step by lia. apply IH; [rewrite length_drop; lia|done].
  - injection E as <- <-. split; [done|]. unfold sponge. rewrite pad_length, Nat.mul_comm, Nat.div_mul, Nat.div_small by lia. cbn [blocks foldl].
    unfold pad. rewrite Nat.mod_small by lia. by rewrite absorb_take.
Qed.

(** The hash of a message is the sponge of the padded one. *)
Lemma keccak_ret inp mdlen : let rsiz := if KECCAK_STATE_SIZE =? mdlen then 136 else 200 - 2 * mdlen in
  1 ≤ rsiz ≤ 144 →
  keccak inp (Z.of_nat (length inp)) mdlen = Ret (take (Z.to_nat mdlen) (state_bytes (sponge (Z.to_nat rsiz) (replicate 25 0) inp))).
Proof.
  intros rsiz Hr. unfold keccak. fold rsiz. destruct (_ || _) eqn:G.
  { rewrite !orb_true_iff, !Z.ltb_lt in G. lia. }
  rewrite Nat2Z.id, firstn_all. destruct (absorb_loop _ _ _ _) as [st rest] eqn:E.
  apply absorb_loop_sponge in E as [L E]; [|lia|lia]. by rewrite last_block, E.
Qed.

Lemma sponge_state rsiz st m : (0 < rsiz)%nat → is_bytes m → is_state st → is_state (sponge rsiz st m).
Proof.
  intros Hr Hm Hst. destruct (absorb_loop_spec (S (length m)) rsiz st m Hr ltac:(lia) Hm Hst) as (st' & rest & E & Hst' & Hl & Hb).
  apply absorb_loop_sponge in E as [_ <-]; [|done|lia]. apply absorb_state; [|done]. apply Forall_app. split; [done|].
  destruct (rsiz - length rest)%nat as [|[|n]]; cbn [pad_tail]; [constructor|by repeat constructor|].
  constructor; [done|]. apply Forall_app. split; [by apply Forall_replicate|by repeat constructor].
Qed.

(** The hash of a message of less than [2^31] bytes: the first 32 bytes of the sponge. *)
Lemma cn_fast_hash_ret data : Z.of_nat (length data) < 2 ^ 31 →
  cn_fast_hash data = Ret (take 32 (state_bytes (sponge 136 (replicate 25 0) data))).
Proof.
  intros H. unfold cn_fast_hash, hash_process. rewrite cast32_small by lia. unfold keccak1600.
  rewrite keccak_ret by done. cbn [mbind outcome_bind]. change (Z.to_nat _) with 200%nat at 1.
  apply (f_equal Ret). by rewrite take_take.
Qed.

Lemma cn_fast_hash_yields data : is_bytes data → Z.of_nat (length data) < 2 ^ 31 →
  yields (cn_fast_hash data) (λ h, is_bytes h ∧ length h = 32%nat).
Proof.
  intros Hb H. rewrite cn_fast_hash_ret by done. apply yields_ret. set (st := sponge _ _ _).
  assert (is_state st) as [Hl _] by (apply sponge_state; [lia|done|]; split; [done|by apply Forall_replicate]).
  destruct (state_bytes_spec st) as [Ln Hs]. split; [by apply Forall_take|]. rewrite length_take, Ln, Hl. done.
Qed.

(** A padding is not the end of a longer one. *)
Lemma pad_tail_suffix n k m m' : (0 < n)%nat → (0 < k)%nat → m ++ pad_tail n = m' ++ pad_tail (n + k) → False.
Proof.
  intros Hn Hk E. assert (length m = length m' + k)%nat as Hl.
  { apply (f_equal length) in E. rewrite !length_app, !pad_tail_length in E. lia. }
  apply (f_equal (λ l, l !! length m)) in E. rewrite lookup_app_r, Nat.sub_diag in E by lia.
  rewrite lookup_app_r in E by lia. replace (length m - length m')%nat with k in E by lia.
  destruct k as [|k]; [lia|]. destruct n as [|[|n]]; [lia| |].
  - assert (pad_tail (1 + S k) !! S k = Some 128) as E'; [|by rewrite E' in E].
    change ((replicate k 0 ++ [128]) !! k = Some 128). apply list_lookup_middle. by rewrite length_replicate.
  - assert (pad_tail (S (S n) + S k) !! S k = Some 0) as E'; [|by rewrite E' in E].
    change ((replicate (n + S k) 0 ++ [128]) !! k = Some 0).
    rewrite lookup_app_l by (rewrite length_replicate; lia). apply lookup_replicate_2. lia.
Qed.

(** Different messages have different padded ones. *)
Lemma pad_inj rsiz m m' : (0 < rsiz)%nat → pad rsiz m = pad rsiz m' → m = m'.
Proof.
  intros Hr E. unfold pad in E. pose proof (Nat.mod_upper_bound (length m) rsiz). pose proof (Nat.mod_upper_bound (length m') rsiz).
  set (n := (rsiz - length m mod rsiz)%nat) in *. set (n' := (rsiz - length m' mod rsiz)%nat) in *.
  destruct (Nat.lt_trichotomy n n') as [L|[Eq|L]].
  - replace n' with (n + (n' - n))%nat in E by lia. apply pad_tail_suffix in E; [done|lia|lia].
  - rewrite Eq in E. by apply app_inv_tail in E.
  - replace n with (n' + (n - n'))%nat in E by lia. symmetry in E. apply pad_tail_suffix in E; [done|lia|lia].
Qed.

(** ** Random bytes are as many as asked for *)

Lemma random_loop_spec fuel n state : (n ≤ fuel)%nat → (0 < n)%nat → is_state state →
  ∃ bs state', random_loop fuel n state = (bs, state') ∧ length bs = n ∧ is_bytes bs ∧ is_state state'.
Proof.
  revert n state. induction fuel as [|fuel IH]; intros n state Hf Hn Hs; [lia|]. cbn [random_loop].
  assert (is_state (hash_permutation state)) as Hs' by exact (keccakf_state _ Hs). destruct (state_bytes_spec (hash_permutation state)) as [Ln Hb].
  rewrite (proj1 Hs') in Ln. set (next := hash_permutation state) in *. clearbody next. destruct (Nat.leb_spec n HASH_DATA_AREA); unfold HASH_DATA_AREA in *.
  - eexists _, _. split; [reflexivity|]. rewrite length_take. split; [lia|]. split; [by apply Forall_take|done].
  - destruct (IH (n - 136)%nat _ ltac:(lia) ltac:(lia) Hs') as (bs & st' & -> & L & B & S). eexists _, _. split; [reflexivity|].
    rewrite length_app, length_take, L. split; [lia|]. split; [|done]. apply Forall_app. split; [by apply Forall_take|done].
Qed.

Lemma generate_random_bytes_spec n state : is_state state →
  ∃ bs state', generate_random_bytes n state = (bs, state') ∧ length bs = n ∧ is_bytes bs ∧ is_state state'.
Proof.
  intros Hs. unfold generate_random_bytes. destruct (Nat.eqb_spec n 0) as [->|N].
  - exists [], state. split; [done|]. split; [done|]. split; [constructor|done].
  - apply random_loop_spec; [lia|lia|done].
Qed.

(** ** Theorems *)

(** C35: The hash is the sponge: for inputs below 2^31 bytes the buffer handling of [keccak]
    computes the first 32 bytes of the state that has absorbed the blocks of the padded
    message, and different messages have different padded forms. *)
Theorem fast_hash_is_sponge data : is_bytes data → Z.of_nat (length data) < 2 ^ 31 →
  let st := sponge 136 (replicate 25 0) data in
  is_state st ∧ cn_fast_hash data = Ret (take 32 (state_bytes st)) ∧ ∀ other, pad 136 data = pad 136 other → data = other.
Proof.
  intros Hb H st. split; [apply sponge_state; [lia|done|]; split; [done|by apply Forall_replicate]|].
  split; [by apply cn_fast_hash_ret|]. intros other. apply pad_inj. lia.
Qed.

Lemma fast_hash_is_sponge_witness : cn_fast_hash (replicate 200 7) = Ret (take 32 (state_bytes (sponge 136 (replicate 25 0) (replicate 200 7)))).
Proof. apply (fast_hash_is_sponge (replicate 200 7)); [by apply Forall_replicate|by vm_compute]. Defined.
