(* ===== verification/GroupElement.v ===== *)
(** * Elements of the group ([crypto/crypto-ops.c])

    Points of the curve in the coordinates of the source, the operations on them and the
    conversions from and to bytes. *)

From S2P Require Import Prelude Streams SignedArithmetic FieldElement.

Local Open Scope Z_scope.

(** ** Coordinates *)

Record ge_p2 := P2 { p2X : fe; p2Y : fe; p2Z : fe }.
Record ge_p3 := P3 { p3X : fe; p3Y : fe; p3Z : fe; p3T : fe }.
Record ge_p1p1 := P1P1 { p11X : fe; p11Y : fe; p11Z : fe; p11T : fe }.
Record ge_precomp := Precomp { yplusx : fe; yminusx : fe; xy2d : fe }.
Record ge_cached := Cached { YplusX : fe; YminusX : fe; cZ : fe; T2d : fe }.

(** The constants of [crypto-ops-data.c]. *)
Definition fe_d : fe := Fe (-10913610) 13857413 (-15372611) 6949391 114729 (-8787816) (-6275908) (-3247719) (-18696448) (-12055116).
Definition fe_sqrtm1 : fe := Fe (-32595792) (-7943725) 9377950 3500415 12389472 (-272473) (-25146209) (-2005654) 326686 11406482.
Definition fe_d2 : fe := Fe (-21827239) (-5839606) (-30745221) 13898782 229458 15978800 (-12551817) (-6495438) 29715968 9444199.

(** ** Sums and doubles *)

Definition ge_add (p : ge_p3) (q : ge_cached) : outcome ge_p1p1 :=
  rX ← fe_add (p3Y p) (p3X p);
  rY ← fe_sub (p3Y p) (p3X p);
  rZ ← fe_mul rX (YplusX q);
  rY ← fe_mul rY (YminusX q);
  rT ← fe_mul (T2d q) (p3T p);
  rX ← fe_mul (p3Z p) (cZ q);
  t0 ← fe_add rX rX;
  rX ← fe_sub rZ rY;
  rY ← fe_add rZ rY;
  rZ ← fe_add t0 rT;
  rT ← fe_sub t0 rT;
  mret (P1P1 rX rY rZ rT).

Definition ge_sub (p : ge_p3) (q : ge_cached) : outcome ge_p1p1 :=
  rX ← fe_add (p3Y p) (p3X p);
  rY ← fe_sub (p3Y p) (p3X p);
  rZ ← fe_mul rX (YminusX q);
  rY ← fe_mul rY (YplusX q);
  rT ← fe_mul (T2d q) (p3T p);
  rX ← fe_mul (p3Z p) (cZ q);
  t0 ← fe_add rX rX;
  rX ← fe_sub rZ rY;
  rY ← fe_add rZ rY;
  rZ ← fe_sub t0 rT;
  rT ← fe_add t0 rT;
  mret (P1P1 rX rY rZ rT).

Definition ge_madd (p : ge_p3) (q : ge_precomp) : outcome ge_p1p1 :=
  rX ← fe_add (p3Y p) (p3X p);
  rY ← fe_sub (p3Y p) (p3X p);
  rZ ← fe_mul rX (yplusx q);
  rY ← fe_mul rY (yminusx q);
  rT ← fe_mul (xy2d q) (p3T p);
  t0 ← fe_add (p3Z p) (p3Z p);
  rX ← fe_sub rZ rY;
  rY ← fe_add rZ rY;
  rZ ← fe_add t0 rT;
  rT ← fe_sub t0 rT;
  mret (P1P1 rX rY rZ rT).

Definition ge_msub (p : ge_p3) (q : ge_precomp) : outcome ge_p1p1 :=
  rX ← fe_add (p3Y p) (p3X p);
  rY ← fe_sub (p3Y p) (p3X p);
  rZ ← fe_mul rX (yminusx q);
  rY ← fe_mul rY (yplusx q);
  rT ← fe_mul (xy2d q) (p3T p);
  t0 ← fe_add (p3Z p) (p3Z p);
  rX ← fe_sub rZ rY;
  rY ← fe_add rZ rY;
  rZ ← fe_sub t0 rT;
  rT ← fe_add t0 rT;
  mret (P1P1 rX rY rZ rT).

Definition ge_p1p1_to_p2 (p : ge_p1p1) : outcome ge_p2 :=
  rX ← fe_mul (p11X p) (p11T p);
  rY ← fe_mul (p11Y p) (p11Z p);
  rZ ← fe_mul (p11Z p) (p11T p);
  mret (P2 rX rY rZ).

Definition ge_p1p1_to_p3 (p : ge_p1p1) : outcome ge_p3 :=
  rX ← fe_mul (p11X p) (p11T p);
  rY ← fe_mul (p11Y p) (p11Z p);
  rZ ← fe_mul (p11Z p) (p11T p);
  rT ← fe_mul (p11X p) (p11Y p);
  mret (P3 rX rY rZ rT).

Definition ge_p2_0 : ge_p2 := P2 fe_0 fe_1 fe_1.
Definition ge_p3_0 : ge_p3 := P3 fe_0 fe_1 fe_1 fe_0.
Definition ge_precomp_0 : ge_precomp := Precomp fe_1 fe_1 fe_0.
Definition ge_cached_0 : ge_cached := Cached fe_1 fe_1 fe_1 fe_0.

Definition ge_p2_dbl (p : ge_p2) : outcome ge_p1p1 :=
  rX ← fe_sq (p2X p);
  rZ ← fe_sq (p2Y p);
  rT ← fe_sq2 (p2Z p);
  rY ← fe_add (p2X p) (p2Y p);
  t0 ← fe_sq rY;
  rY ← fe_add rZ rX;
  rZ ← fe_sub rZ rX;
  rX ← fe_sub t0 rY;
  rT ← fe_sub rT rZ;
  mret (P1P1 rX rY rZ rT).

Definition ge_p3_to_p2 (p : ge_p3) : ge_p2 := P2 (fe_copy (p3X p)) (fe_copy (p3Y p)) (fe_copy (p3Z p)).

Definition ge_p3_dbl (p : ge_p3) : outcome ge_p1p1 := ge_p2_dbl (ge_p3_to_p2 p).

Definition ge_p3_to_cached (p : ge_p3) : outcome ge_cached :=
  yp ← fe_add (p3Y p) (p3X p);
  ym ← fe_sub (p3Y p) (p3X p);
  t ← fe_mul (p3T p) fe_d2;
  mret (Cached yp ym (fe_copy (p3Z p)) t).

Definition ge_mul8 (t : ge_p2) : outcome ge_p1p1 :=
  r ← ge_p2_dbl t; u ← ge_p1p1_to_p2 r;
  r ← ge_p2_dbl u; u ← ge_p1p1_to_p2 r;
  ge_p2_dbl u.

(** ** Bytes *)

(** The bytes of [Y/Z], with the sign of [X/Z] in the last bit. *)
Definition tobytes (X Y Z_ : fe) : outcome (list Z) :=
  recip ← fe_invert Z_;
  x ← fe_mul X recip;
  y ← fe_mul Y recip;
  s ← fe_tobytes y;
  n ← fe_isnegative x;
  b ← at_ s 31;
  set_at s 31 (u8 (Z.lxor b (Z.shiftl n 7))).

Definition ge_tobytes (h : ge_p2) : outcome (list Z) := tobytes (p2X h) (p2Y h) (p2Z h).
Definition ge_p3_tobytes (h : ge_p3) : outcome (list Z) := tobytes (p3X h) (p3Y h) (p3Z h).

(** The limbs are those of a number that is not below the prime. *)
Definition not_canonical (h : fe) : bool :=
  let 'Fe h0 h1 h2 h3 h4 h5 h6 h7 h8 h9 := h in
  (h9 =? 33554428) && (h8 =? 268435440) && (h7 =? 536870880) && (h6 =? 2147483520) &&
  (h5 =? 4294967295) && (h4 =? 67108860) && (h3 =? 134217720) && (h2 =? 536870880) &&
  (h1 =? 1073741760) && (4294967277 <=? h0).

(** The square root of [u / v], or [None] when there is none. *)
Definition root_of_ratio (u v : fe) : outcome (option fe) :=
  X ← fe_divpowm1 u v;
  vxx ← fe_sq X;
  vxx ← fe_mul vxx v;
  check ← fe_sub vxx u;
  c ← fe_isnonzero check;
  if c =? 0 then mret (Some X)
  else
    check ← fe_add vxx u;
    c ← fe_isnonzero check;
    if negb (c =? 0) then mret None
    else X ← fe_mul X fe_sqrtm1; mret (Some X).

(** The root with the sign given; zero has the sign 0 only. *)
Definition with_sign (X : fe) (sign : Z) : outcome (option fe) :=
  n ← fe_isnegative X;
  if negb (n =? sign) then
    c ← fe_isnonzero X;
    if c =? 0 then mret None else X ← fe_neg X; mret (Some X)
  else mret (Some X).

(** The point with the second coordinate [Y] and the sign given. *)
Definition lift_x (Y : fe) (sign : Z) : outcome (option ge_p3) :=
  u ← fe_sq Y;
  v ← fe_mul u fe_d;
  u ← fe_sub u fe_1;
  v ← fe_add v fe_1;
  X ← root_of_ratio u v;
  match X with
  | None => mret None
  | Some X =>
      X ← with_sign X sign;
      match X with
      | None => mret None
      | Some X => T ← fe_mul X Y; mret (Some (P3 X Y fe_1 T))
      end
  end.

(** [None] is the return of -1. *)
Definition ge_frombytes_vartime (s : list Z) : outcome (option ge_p3) :=
  h ← (t ← load_3 s 29; load_limbs s (Z.shiftl (Z.land t 8388607) 2));
  if not_canonical h then mret None
  else
    Y ← carry_loaded h;
    b ← at_ s 31;
    lift_x Y (Z.shiftr b 7).

(** ** From a field element *)

Definition fe_ma2 : fe := Fe (-12721188) (-3529) 0 0 0 0 0 0 0 0.
Definition fe_ma : fe := Fe (-486662) 0 0 0 0 0 0 0 0 0.
Definition fe_fffb1 : fe :=
  Fe (-31702527) (-2466483) (-26106795) (-12203692) (-12169197) (-321052) 14850977 (-10296299) (-16929438) (-407568).
Definition fe_fffb2 : fe :=
  Fe 8166131 (-6741800) (-17040804) 3154616 21461005 1466302 (-30876704) (-6368709) 10503587 (-13363080).
Definition fe_fffb3 : fe :=
  Fe (-13620103) 14639558 4532995 7679154 16815101 (-15883539) (-22863840) (-14813421) 13716513 (-6477756).
Definition fe_fffb4 : fe :=
  Fe (-21786234) (-12173074) 21573800 4524538 (-4645904) 16204591 8012863 (-8444712) 3212926 6885324.

(** The part after [negative:]. *)
Definition negative_root (w x X : fe) : outcome fe :=
  x ← fe_mul x fe_sqrtm1;
  y ← fe_sub w x;
  c ← fe_isnonzero y;
  if negb (c =? 0) then
    y ← fe_add w x;
    c ← fe_isnonzero y;
    if negb (c =? 0) then Abort else fe_mul X fe_fffb3
  else fe_mul X fe_fffb4.

(** The first coordinate up to its sign, the number [z] and the sign. *)
Definition choose_root (u v w x X : fe) : outcome (fe * fe * Z) :=
  y ← fe_sub w x;
  c ← fe_isnonzero y;
  let z := fe_copy fe_ma in
  let square X := (X ← fe_mul X u; z ← fe_mul z v; mret (X, z, 0)) in
  if negb (c =? 0) then
    y ← fe_add w x;
    c ← fe_isnonzero y;
    if negb (c =? 0) then X ← negative_root w x X; mret (X, z, 1)
    else X ← fe_mul X fe_fffb1; square X
  else X ← fe_mul X fe_fffb2; square X.

(** The assertion that the point is on the curve. *)
Definition check_on_curve (X Y Z_ : fe) : outcome unit :=
  iz ← fe_invert Z_;
  x ← fe_mul X iz;
  y ← fe_mul Y iz;
  x ← fe_sq x;
  y ← fe_sq y;
  v ← fe_mul x y;
  v ← fe_mul fe_d v;
  v ← fe_add v x;
  v ← fe_sub v y;
  v ← fe_add v fe_1;
  c ← fe_isnonzero v;
  if negb (c =? 0) then Abort else mret tt.

(** The first coordinate with the sign given; zero is not negated. *)
Definition set_sign (X : fe) (sign : Z) : outcome fe :=
  n ← fe_isnegative X;
  if negb (n =? sign) then
    c ← fe_isnonzero X;
    if c =? 0 then Abort else fe_neg X
  else mret X.

Definition ge_fromfe_frombytes_vartime (s : list Z) : outcome ge_p2 :=
  h ← (t ← load_3 s 29; load_limbs s (Z.shiftl t 2));
  u ← carry_loaded h;
  v ← fe_sq2 u;
  w ← fe_add v fe_1;
  x ← fe_sq w;
  y ← fe_mul fe_ma2 v;
  x ← fe_add x y;
  X ← fe_divpowm1 w x;
  y ← fe_sq X;
  x ← fe_mul y x;
  '(X, z, sign) ← choose_root u v w x X;
  X ← set_sign X sign;
  Z_ ← fe_add z w;
  Y ← fe_sub z w;
  X ← fe_mul X Z_;
  _ ← check_on_curve X Y Z_;
  mret (P2 X Y Z_).
