(* ===== verification/ScalarMult.v ===== *)
(** * Multiples of points ([crypto/crypto-ops.c])

    The recodings of scalars into signed digits, the choice of a table entry without a
    branch, and the loops that multiply points by scalars. A scalar is 32 bytes; reading
    outside of them is [Abort]. *)

From S2P Require Import Prelude Streams SignedArithmetic FieldElement GroupElement BaseTable.

Local Open Scope Z_scope.

(** Conversion to [signed char]. *)
Definition cast8 (z : Z) : Z := (z + 128) mod 256 - 128.

(** The 32 bytes of a scalar. *)
Definition scalar_bytes (a : list Z) : outcome (list Z) := mapM (at_ a) (seqZ 0 32).

(** ** Choosing an entry *)

Definition equal (b c : Z) : Z := Z.shiftr (u32 (Z.lxor (u8 b) (u8 c) - 1)) 31.
Definition negative (b : Z) : Z := Z.shiftr (u64 b) 63.

(** The absolute value of a digit, from its sign bit. *)
Definition digit_abs (b : Z) : Z := u8 (b - Z.shiftl (Z.land (- negative b) b) 1).

Definition ge_precomp_cmov (t u : ge_precomp) (b : Z) : outcome ge_precomp :=
  yp ← fe_cmov (yplusx t) (yplusx u) b;
  ym ← fe_cmov (yminusx t) (yminusx u) b;
  xy ← fe_cmov (xy2d t) (xy2d u) b;
  mret (Precomp yp ym xy).

Definition ge_cached_cmov (t u : ge_cached) (b : Z) : outcome ge_cached :=
  yp ← fe_cmov (YplusX t) (YplusX u) b;
  ym ← fe_cmov (YminusX t) (YminusX u) b;
  z ← fe_cmov (cZ t) (cZ u) b;
  t2 ← fe_cmov (T2d t) (T2d u) b;
  mret (Cached yp ym z t2).

(** The conditional moves over the entries of a table, the [j]-th of them when [babs] is
    [j]. *)
Fixpoint cmov_table {A} (mv : A → A → Z → outcome A) (table : list A) (babs j : Z) (t : A) : outcome A :=
  match table with
  | [] => mret t
  | u :: table' => t ← mv t u (equal (cast8 babs) j); cmov_table mv table' babs (j + 1) t
  end.

Definition select (pos b : Z) : outcome ge_precomp :=
  let bnegative := negative b in
  row ← at_ ge_base pos;
  t ← cmov_table ge_precomp_cmov row (digit_abs b) 1 ge_precomp_0;
  n ← fe_neg (xy2d t);
  ge_precomp_cmov t (Precomp (fe_copy (yminusx t)) (fe_copy (yplusx t)) n) bnegative.

(** ** [ge_scalarmult_base] *)

Definition nibbles (a : list Z) : list Z :=
  a ≫= λ b, [Z.land (Z.shiftr b 0) 15; Z.land (Z.shiftr b 4) 15].

(** The digits between -8 and 8; the last one takes the carry as it is. *)
Fixpoint recode (e : list Z) (carry : Z) : list Z :=
  match e with
  | [] => []
  | [x] => [cast8 (x + carry)]
  | x :: e' =>
      let x := cast8 (x + carry) in
      let carry := Z.shiftr (cast8 (x + 8)) 4 in
      cast8 (x - Z.shiftl carry 4) :: recode e' carry
  end.

(** The digits at the even or the odd positions, with the row of each. *)
Fixpoint madd_digits (digits : list (Z * Z)) (h : ge_p3) : outcome ge_p3 :=
  match digits with
  | [] => mret h
  | (pos, b) :: digits' =>
      t ← select pos b;
      r ← ge_madd h t;
      h ← ge_p1p1_to_p3 r;
      madd_digits digits' h
  end.

Definition odd_digits (e : list Z) : outcome (list (Z * Z)) :=
  mapM (λ k, b ← at_ e (2 * k + 1); mret (k, b)) (seqZ 0 32).
Definition even_digits (e : list Z) : outcome (list (Z * Z)) :=
  mapM (λ k, b ← at_ e (2 * k); mret (k, b)) (seqZ 0 32).

Definition ge_scalarmult_base (a : list Z) : outcome ge_p3 :=
  a ← scalar_bytes a;
  let e := recode (nibbles a) 0 in
  ds ← odd_digits e;
  h ← madd_digits ds ge_p3_0;
  r ← ge_p3_dbl h; s ← ge_p1p1_to_p2 r;
  r ← ge_p2_dbl s; s ← ge_p1p1_to_p2 r;
  r ← ge_p2_dbl s; s ← ge_p1p1_to_p2 r;
  r ← ge_p2_dbl s; h ← ge_p1p1_to_p3 r;
  ds ← even_digits e;
  madd_digits ds h.

(** ** [ge_scalarmult] *)

(** The digits between -8 and 7, of which the last one is between 0 and 8. *)
Fixpoint recode_bytes (a : list Z) (carry : Z) : list Z :=
  match a with
  | [] => []
  | [b] =>
      let carry := carry + b in
      let carry2 := Z.shiftr (carry + 8) 4 in
      [cast8 (carry - Z.shiftl carry2 4); cast8 carry2]
  | b :: a' =>
      let carry := carry + b in
      let carry2 := Z.shiftr (carry + 8) 4 in
      let carry' := Z.shiftr (carry2 + 8) 4 in
      cast8 (carry - Z.shiftl carry2 4) :: cast8 (carry2 - Z.shiftl carry' 4) :: recode_bytes a' carry'
  end.

(** The entries that follow one in a table, each one [A] more than the one before. *)
Fixpoint multiples (n : nat) (A : ge_p3) (last : ge_cached) : outcome (list ge_cached) :=
  match n with
  | O => mret []
  | S n' =>
      t ← ge_add A last;
      u ← ge_p1p1_to_p3 t;
      c ← ge_p3_to_cached u;
      rest ← multiples n' A c;
      mret (c :: rest)
  end.

Definition scalarmult_step (Ai : list ge_cached) (r : ge_p2) (b : Z) : outcome ge_p2 :=
  let bnegative := negative b in
  t ← ge_p2_dbl r; r ← ge_p1p1_to_p2 t;
  t ← ge_p2_dbl r; r ← ge_p1p1_to_p2 t;
  t ← ge_p2_dbl r; r ← ge_p1p1_to_p2 t;
  t ← ge_p2_dbl r; u ← ge_p1p1_to_p3 t;
  cur ← cmov_table ge_cached_cmov Ai (digit_abs b) 1 ge_cached_0;
  n ← fe_neg (T2d cur);
  cur ← ge_cached_cmov cur (Cached (fe_copy (YminusX cur)) (fe_copy (YplusX cur)) (fe_copy (cZ cur)) n) bnegative;
  t ← ge_add u cur;
  ge_p1p1_to_p2 t.

Fixpoint scalarmult_loop (Ai : list ge_cached) (e : list Z) (r : ge_p2) : outcome ge_p2 :=
  match e with
  | [] => mret r
  | b :: e' => r ← scalarmult_step Ai r b; scalarmult_loop Ai e' r
  end.

Definition ge_scalarmult (a : list Z) (A : ge_p3) : outcome ge_p2 :=
  a ← scalar_bytes a;
  let e := recode_bytes a 0 in
  c ← ge_p3_to_cached A;
  rest ← multiples 7 A c;
  scalarmult_loop (c :: rest) (rev e) ge_p2_0.

(** ** Sliding windows *)

(** The bits of a scalar. *)
Definition bits_of (a : list Z) : list Z := a ≫= λ b, (λ k, Z.land 1 (Z.shiftr b k)) <$> seqZ 0 8.

(** Adding one at the position [k] and above. *)
Fixpoint add_one (fuel k : nat) (r : list Z) : list Z :=
  match fuel with
  | O => r
  | S fuel' =>
      if (k <? 256)%nat then
        if r !!! k =? 0 then <[k := 1]> r else add_one fuel' (S k) (<[k := 0]> r)
      else r
  end.

(** The window of the position [i]: [b] goes from 1 to 6. *)
Fixpoint window (fuel i b : nat) (r : list Z) : list Z :=
  match fuel with
  | O => r
  | S fuel' =>
      if (b <=? 6)%nat && (i + b <? 256)%nat then
        if r !!! (i + b)%nat =? 0 then window fuel' i (S b) r
        else
          let term := Z.shiftl (r !!! (i + b)%nat) (Z.of_nat b) in
          if r !!! i + term <=? 15 then
            window fuel' i (S b) (<[(i + b)%nat := 0]> (<[i := cast8 (r !!! i + term)]> r))
          else if -15 <=? r !!! i - term then
            window fuel' i (S b) (add_one 256 (i + b) (<[i := cast8 (r !!! i - term)]> r))
          else r
      else r
  end.

Fixpoint slide_loop (n i : nat) (r : list Z) : list Z :=
  match n with
  | O => r
  | S n' => slide_loop n' (S i) (if r !!! i =? 0 then r else window 6 i 1 r)
  end.

Definition slide (a : list Z) : outcome (list Z) :=
  a ← scalar_bytes a; mret (slide_loop 256 0 (bits_of a)).

(** The odd multiples of [s]: [s2] is the double. *)
Definition ge_dsm_precomp (s : ge_p3) : outcome (list ge_cached) :=
  c ← ge_p3_to_cached s;
  t ← ge_p3_dbl s;
  s2 ← ge_p1p1_to_p3 t;
  rest ← multiples 7 s2 c;
  mret (c :: rest).

(** Adding the entry of a digit to the point, or subtracting it. *)
Definition apply_digit {A} (add sub : ge_p3 → A → outcome ge_p1p1) (table : list A) (t : ge_p1p1) (digit : Z) : outcome ge_p1p1 :=
  if 0 <? digit then u ← ge_p1p1_to_p3 t; q ← at_ table (digit / 2); add u q
  else if digit <? 0 then u ← ge_p1p1_to_p3 t; q ← at_ table (- digit / 2); sub u q
  else mret t.

Section DoubleScalarmult.
Context {B : Type} (add_b sub_b : ge_p3 → B → outcome ge_p1p1) (Ai : list ge_cached) (Bi : list B).

Fixpoint dsm_loop (digits : list (Z * Z)) (r : ge_p2) : outcome ge_p2 :=
  match digits with
  | [] => mret r
  | (a, b) :: digits' =>
      t ← ge_p2_dbl r;
      t ← apply_digit ge_add ge_sub Ai t a;
      t ← apply_digit add_b sub_b Bi t b;
      r ← ge_p1p1_to_p2 t;
      dsm_loop digits' r
  end.

(** The loop that looks for the first digits other than zero. *)
Fixpoint skip_zeros (digits : list (Z * Z)) : list (Z * Z) :=
  match digits with
  | (a, b) :: digits' => if negb (a =? 0) || negb (b =? 0) then digits else skip_zeros digits'
  | [] => []
  end.

Definition double_scalarmult (aslide bslide : list Z) : outcome ge_p2 :=
  dsm_loop (skip_zeros (rev (zip aslide bslide))) ge_p2_0.
End DoubleScalarmult.

Definition ge_double_scalarmult_base_vartime (a : list Z) (A : ge_p3) (b : list Z) : outcome ge_p2 :=
  aslide ← slide a; bslide ← slide b;
  Ai ← ge_dsm_precomp A;
  double_scalarmult ge_madd ge_msub Ai ge_Bi aslide bslide.

Definition ge_double_scalarmult_precomp_vartime (a : list Z) (A : ge_p3) (b : list Z) (Bi : list ge_cached) : outcome ge_p2 :=
  aslide ← slide a; bslide ← slide b;
  Ai ← ge_dsm_precomp A;
  double_scalarmult ge_add ge_sub Ai Bi aslide bslide.
