(* ===== verification/Curve25519.v ===== *)
(** * The field and the curve of [crypto/crypto-ops.c]

    The field elements of [FieldElement] as elements of the field of [p] elements, the
    constants of the curve, and the group of its points. *)

From S2P Require Import Prelude Streams SignedArithmetic Primality FieldElement FieldTheorems EdwardsCurve GroupElement.
From Stdlib Require Import Zmod Field.

Local Open Scope Z_scope.

Lemma p_prime : Z.prime p.
Proof. exact prime_25519. Qed.

Notation F := (Zmod p).
Add Field F_field : (Zmod.field_theory p p_prime).

(** ** Elements as limbs *)

(** The element that limbs stand for. *)
Definition fval (f : fe) : F := Zmod.of_Z p (fe_value f).

Lemma fval_eq a b : a ≡ₚ b ↔ Zmod.of_Z p a = Zmod.of_Z p b.
Proof. symmetry. apply Zmod.of_Z_inj. Qed.

Lemma fval_zero f : fe_value f ≡ₚ 0 ↔ fval f = Zmod.zero.
Proof. rewrite fval_eq. unfold fval. by rewrite Zmod.of_Z_0. Qed.

Local Open Scope Zmod_scope.

Lemma fe_mul_F a b f g : within a f → within b g → (a <=? loose)%Z = true → (b <=? loose)%Z = true →
  yields (fe_mul f g) (λ r, within tight r ∧ fval r = fval f * fval g).
Proof.
  intros Hf Hg Ha%Z.leb_le Hb%Z.leb_le. eapply yields_impl.
  - apply fe_mul_yields; eapply within_weaken; eassumption.
  - intros r [Hr E%fval_eq]. split; [done|]. unfold fval. by rewrite E, Zmod.of_Z_mul.
Qed.

Lemma fe_sq_F a f : within a f → (a <=? loose)%Z = true →
  yields (fe_sq f) (λ r, within tight r ∧ fval r = fval f * fval f).
Proof.
  intros Hf Ha%Z.leb_le. eapply yields_impl.
  - apply fe_sq_yields. eapply within_weaken; eassumption.
  - intros r [Hr E%fval_eq]. split; [done|]. unfold fval. by rewrite E, Zmod.of_Z_mul.
Qed.

Lemma fe_sq2_F a f : within a f → (a <=? loose)%Z = true →
  yields (fe_sq2 f) (λ r, within tight r ∧ fval r = (1 + 1) * (fval f * fval f)).
Proof.
  intros Hf Ha%Z.leb_le. eapply yields_impl.
  - apply fe_sq2_yields. eapply within_weaken; eassumption.
  - intros r [Hr E%fval_eq]. split; [done|]. unfold fval. rewrite E, !Zmod.of_Z_mul. f_equal.
Qed.

Lemma fe_add_F a b f g : within a f → within b g → (a + b <? 2 ^ 30)%Z = true →
  yields (fe_add f g) (λ r, within (a + b) r ∧ fval r = fval f + fval g).
Proof.
  intros Hf Hg H%Z.ltb_lt. eapply yields_impl; [apply (fe_add_yields a b); [done|done|lia]|].
  intros r [Hr E]. split; [done|]. unfold fval. by rewrite E, Zmod.of_Z_add.
Qed.

Lemma fe_sub_F a b f g : within a f → within b g → (a + b <? 2 ^ 30)%Z = true →
  yields (fe_sub f g) (λ r, within (a + b) r ∧ fval r = fval f - fval g).
Proof.
  intros Hf Hg H%Z.ltb_lt. eapply yields_impl; [apply (fe_sub_yields a b); [done|done|lia]|].
  intros r [Hr E]. split; [done|]. unfold fval. by rewrite E, Zmod.of_Z_sub.
Qed.

Lemma fe_neg_F a f : within a f → (a <? 2 ^ 30)%Z = true →
  yields (fe_neg f) (λ r, within a r ∧ fval r = - fval f).
Proof.
  intros Hf H%Z.ltb_lt. eapply yields_impl; [apply (fe_neg_yields a); [done|lia]|].
  intros r [Hr E]. split; [done|]. unfold fval. by rewrite E, Zmod.of_Z_opp.
Qed.

Lemma fe_isnonzero_F a f : within a f → (a <=? summed)%Z = true →
  fe_isnonzero f = Ret (if decide (fval f = 0) then 0%Z else 1%Z).
Proof.
  intros Hf Ha%Z.leb_le. rewrite fe_isnonzero_spec by (eapply within_weaken; eassumption).
  f_equal. apply decide_ext, fval_zero.
Qed.

(** Inversion is the one of the field. *)
Lemma fe_invert_F a z : within a z → (a <=? loose)%Z = true → fval z ≠ 0 →
  yields (fe_invert z) (λ r, within loose r ∧ fval r = Zmod.inv (fval z)).
Proof.
  intros Hz Ha%Z.leb_le Hn. eapply yields_impl; [apply fe_invert_yields; eapply within_weaken; eassumption|].
  intros r [[Hr E%fval_eq] _]. split; [done|]. unfold fval at 1. rewrite E, Zmod.of_Z_pow by done.
  fold (fval z). by apply Zmod.fermat_inv; [|apply p_prime].
Qed.

(** The sign of an element: the parity of its canonical representative. *)
Definition parity (x : F) : Z := Zmod.unsigned x mod 2.

Lemma fe_isnegative_F a f : within a f → (a <=? summed)%Z = true → fe_isnegative f = Ret (parity (fval f)).
Proof.
  intros Hf Ha%Z.leb_le. rewrite fe_isnegative_spec by (eapply within_weaken; eassumption).
  unfold parity, fval. by rewrite Zmod.unsigned_of_Z.
Qed.

Lemma fe_tobytes_F a f : within a f → (a <=? summed)%Z = true →
  fe_tobytes f = Ret (le_bytes 32 (Zmod.unsigned (fval f))).
Proof.
  intros Hf Ha%Z.leb_le. destruct (fe_tobytes_yields f) as (s & E & Hb & Hl & Ev); [eapply within_weaken; eassumption|].
  rewrite E. f_equal. unfold fval. rewrite Zmod.unsigned_of_Z, <- Ev, <- Hl. symmetry. by apply le_bytes_value.
Qed.

(** ** The constants *)

Definition d : F := fval fe_d.
Definition sqrtm1 : F := fval fe_sqrtm1.

Lemma F_by a b : (a mod p =? b mod p)%Z = true → Zmod.of_Z p a = Zmod.of_Z p b.
Proof. intros H%Z.eqb_eq. by apply Zmod.of_Z_inj. Qed.

(** The parameter of the curve is [-121665/121666]. *)
Lemma d_value : d * Zmod.of_Z p 121666 = - Zmod.of_Z p 121665.
Proof.
  unfold d, fval. rewrite <- Zmod.of_Z_mul, <- Zmod.of_Z_opp. apply F_by. by vm_compute.
Qed.

Lemma fe_d2_F : fval fe_d2 = (1 + 1) * d.
Proof.
  unfold d, fval. rewrite <- Zmod.of_Z_1, <- Zmod.of_Z_add, <- Zmod.of_Z_mul. apply F_by. by vm_compute.
Qed.

Lemma sqrtm1_square : sqrtm1 * sqrtm1 = - (1).
Proof.
  unfold sqrtm1, fval. rewrite <- Zmod.of_Z_mul, <- Zmod.of_Z_1, <- Zmod.of_Z_opp. apply F_by. by vm_compute.
Qed.

Lemma two_nonzero : (1 + 1 : F) ≠ 0.
Proof. rewrite <- Zmod.of_Z_1, <- Zmod.of_Z_add. by apply Zmod.of_Z_nz. Qed.

Local Open Scope Z_scope.

(** ** Numbers modulo [p] *)

(** A number with the same remainder and about 255 bits, without a division. *)
Definition fold_once (x : Z) : Z := Z.land x (Z.ones 255) + 19 * Z.shiftr x 255.
Definition red (x : Z) : Z := fold_once (fold_once x).
Definition mulp (x y : Z) : Z := red (x * y).

Notation "[ x ]p" := (Zmod.of_Z p x) (format "[ x ]p").

Lemma fold_once_F x : [fold_once x]p = [x]p.
Proof.
  unfold fold_once. rewrite Z.land_ones, Z.shiftr_div_pow2 by done. apply Zmod.of_Z_inj.
  pose proof (Z.div_mod x (2 ^ 255) ltac:(done)) as E. rewrite E at 3.
  replace (x mod 2 ^ 255 + 19 * (x / 2 ^ 255)) with (2 ^ 255 * (x / 2 ^ 255) + x mod 2 ^ 255 + - (x / 2 ^ 255) * p)
    by (unfold p; lia).
  by rewrite Z.mod_add.
Qed.

Lemma mulp_F x y : [mulp x y]p = ([x]p * [y]p)%Zmod.
Proof. unfold mulp, red. by rewrite !fold_once_F, Zmod.of_Z_mul. Qed.

Lemma of_Z_2 : [2]p = (1 + 1)%Zmod.
Proof. change 2 with (1 + 1). by rewrite Zmod.of_Z_add, Zmod.of_Z_1. Qed.

(** Numbers as elements of the field, down to the leaves. *)
Create HintDb to_F.
#[export] Hint Rewrite mulp_F of_Z_2 @Zmod.of_Z_mul @Zmod.of_Z_add @Zmod.of_Z_sub @Zmod.of_Z_opp : to_F.

Definition eqb_p (x y : Z) : bool := let t := red (x - y) in (t =? 0) || (t =? p).

Lemma eqb_p_F x y : eqb_p x y = true → [x]p = [y]p.
Proof.
  intros H. assert ([red (x - y)]p = Zmod.zero) as E.
  { unfold eqb_p in H. apply orb_true_iff in H as [->%Z.eqb_eq | ->%Z.eqb_eq]; [apply Zmod.of_Z_0|].
    rewrite <- Zmod.of_Z_0. by apply F_by. }
  unfold red in E. rewrite !fold_once_F, Zmod.of_Z_sub in E. transitivity ([x]p - [y]p + [y]p)%Zmod; [ring|]. rewrite E. ring.
Qed.

(** Powers. *)
Fixpoint pow_red (x : Z) (e : positive) : Z :=
  match e with
  | xH => x
  | xO e' => let y := pow_red x e' in mulp y y
  | xI e' => let y := pow_red x e' in mulp x (mulp y y)
  end.

Lemma pow_red_F x e : [pow_red x e]p = (Zmod.pow [x]p (Zpos e)).
Proof.
  induction e as [e IH|e IH|]; cbn [pow_red].
  - rewrite !mulp_F, IH, Pos2Z.inj_xI, Zmod.pow_add_r_nonneg, Z.mul_comm, Zmod.pow_mul_r_nonneg by lia.
    rewrite Zmod.pow_2_r, Zmod.pow_1_r. ring.
  - by rewrite mulp_F, IH, Pos2Z.inj_xO, Z.mul_comm, Zmod.pow_mul_r_nonneg, Zmod.pow_2_r by lia.
  - by rewrite Zmod.pow_1_r.
Qed.

Local Open Scope Zmod_scope.

(** Squares have the power [(p - 1) / 2] of 0 or 1. *)
Definition half : Z := (p - 1) / 2.

Lemma square_power (x : F) : x ≠ 0 → (x * x) ^ half = 1.
Proof.
  intros Hx. rewrite <- Zmod.pow_2_r, <- Zmod.pow_mul_r_nonneg by done.
  change (2 * half)%Z with (p - 1)%Z. apply Zmod.fermat_nz; [done|apply p_prime].
Qed.

Lemma nonsquare_by (a : Z) : eqb_p (pow_red a (Z.to_pos half)) (-1) = true → ∀ s : F, s * s ≠ Zmod.of_Z p a.
Proof.
  intros H%eqb_p_F s Hs. rewrite pow_red_F, <- Hs in H. change (Z.pos (Z.to_pos half)) with half in H.
  assert ((s * s) ^ half = - (1)) as E by (rewrite H; change (-1)%Z with (- (1))%Z; by rewrite Zmod.of_Z_opp, Zmod.of_Z_1).
  destruct (decide (s = 0)) as [->|Hn].
  - assert ((0 * 0 : F) ^ half = 0) as E0.
    { replace (0 * 0 : F) with (0 : F) by ring. apply Zmod.pow_0_l. done. }
    rewrite E0 in E. apply two_nonzero. assert ((1 : F) = 0) as ->; [|ring].
    transitivity (- - (1 : F)); [ring|]. rewrite <- E. ring.
  - rewrite square_power in E by done. apply two_nonzero. rewrite E at 1. ring.
Qed.

Lemma d_nonsquare (s : F) : s * s ≠ d.
Proof. unfold d, fval. apply nonsquare_by. vm_cast_no_check (eq_refl true). Qed.

(** ** The group *)

Notation point := (point p d).
#[export] Instance E_group : AbelianGroup point :=
  point_group p p_prime d sqrtm1 sqrtm1_square d_nonsquare two_nonzero.

Lemma F_nz_mul (a b : F) : a ≠ 0 → b ≠ 0 → a * b ≠ 0.
Proof. apply (F_nonzero_mul p p_prime). Qed.

(** The coordinates of a sum, without fractions. *)
Definition product (P Q : point) : F := d * px P * px Q * py P * py Q.

Lemma sum_coordinates (P Q : point) :
  (1 + product P Q ≠ 0 ∧ 1 - product P Q ≠ 0) ∧
  px (P ⊕ Q) * (1 + product P Q) = px P * py Q + py P * px Q ∧
  py (P ⊕ Q) * (1 - product P Q) = py P * py Q + px P * px Q.
Proof.
  destruct (denominators p p_prime d sqrtm1 sqrtm1_square d_nonsquare two_nonzero _ _ _ _
    (point_curve P) (point_curve Q)) as [D1 D2].
  split; [done|]. split; apply (F_div_mul p p_prime); [exact D1|exact D2].
Qed.

Lemma px_inverse (P : point) : px (⊖ P) = - px P.
Proof. done. Qed.
Lemma py_inverse (P : point) : py (⊖ P) = py P.
Proof. done. Qed.
