(* ===== verification/GroupTheorems.v ===== *)
(** * Correctness of the group operations

    What a record of coordinates stands for is a point of the curve; the operations of
    [GroupElement] refine the ones of the group, and nothing in them overflows. The
    bytes of a point determine it, and the conversion from bytes accepts exactly the
    bytes of points. *)

From S2P Require Import Prelude Streams SignedArithmetic FieldElement FieldTheorems EdwardsCurve GroupElement Curve25519.
From Stdlib Require Import Zmod Field.

Local Open Scope Zmod_scope.

(** ** What coordinates represent *)

Definition projective (P : point) (X Y Z : F) : Prop := Z ≠ 0 ∧ X = px P * Z ∧ Y = py P * Z.

Definition rep2 (h : ge_p2) (P : point) : Prop :=
  (within tight (p2X h) ∧ within tight (p2Y h) ∧ within tight (p2Z h)) ∧
  projective P (fval (p2X h)) (fval (p2Y h)) (fval (p2Z h)).

(** The second and third coordinates may be sums. *)
Definition rep2_wide (h : ge_p2) (P : point) : Prop :=
  (within tight (p2X h) ∧ within (2 * tight + 1) (p2Y h) ∧ within (2 * tight + 1) (p2Z h)) ∧
  projective P (fval (p2X h)) (fval (p2Y h)) (fval (p2Z h)).

Definition rep3 (h : ge_p3) (P : point) : Prop :=
  (within tight (p3X h) ∧ within tight (p3Y h) ∧ within tight (p3Z h) ∧ within tight (p3T h)) ∧
  projective P (fval (p3X h)) (fval (p3Y h)) (fval (p3Z h)) ∧
  fval (p3T h) = px P * py P * fval (p3Z h).

(** The coordinates [(X/Z, Y/T)]. *)
Definition rep11 (h : ge_p1p1) (P : point) : Prop :=
  (within loose (p11X h) ∧ within loose (p11Y h) ∧ within loose (p11Z h) ∧ within loose (p11T h)) ∧
  (fval (p11Z h) ≠ 0 ∧ fval (p11T h) ≠ 0) ∧
  fval (p11X h) = px P * fval (p11Z h) ∧ fval (p11Y h) = py P * fval (p11T h).

Definition rep_cached (c : ge_cached) (P : point) : Prop :=
  (within summed (YplusX c) ∧ within summed (YminusX c) ∧ within tight (cZ c) ∧ within tight (T2d c)) ∧
  fval (cZ c) ≠ 0 ∧
  (fval (YplusX c) = (py P + px P) * fval (cZ c) ∧ fval (YminusX c) = (py P - px P) * fval (cZ c) ∧
   fval (T2d c) = (1 + 1) * d * px P * py P * fval (cZ c)).

Definition rep_precomp (c : ge_precomp) (P : point) : Prop :=
  (within tight (yplusx c) ∧ within tight (yminusx c) ∧ within tight (xy2d c)) ∧
  (fval (yplusx c) = py P + px P ∧ fval (yminusx c) = py P - px P ∧
   fval (xy2d c) = (1 + 1) * d * px P * py P).

(** ** Following a program of field operations *)

Ltac bound_numeral H :=
  match type of H with within ?b _ => let b' := eval vm_compute in b in change b with b' in H end.

Ltac fstep :=
  first [eapply yields_bind | eapply yields_impl];
  [first [ eapply fe_mul_F; [eassumption|eassumption|reflexivity|reflexivity]
         | eapply fe_sq_F; [eassumption|reflexivity]
         | eapply fe_sq2_F; [eassumption|reflexivity]
         | eapply fe_add_F; [eassumption|eassumption|reflexivity]
         | eapply fe_sub_F; [eassumption|eassumption|reflexivity]
         | eapply fe_neg_F; [eassumption|reflexivity] ]|];
  let H := fresh "W" in let E := fresh "V" in
  cbv beta; intros ? [H E]; bound_numeral H.

Ltac weaken_within := eapply within_weaken; [eassumption|by vm_compute].

(** Replaces the limbs by what they were computed from, back to the coordinates of the
    operands. *)
Ltac values := repeat match goal with E : fval ?a = _ |- context [fval ?a] => rewrite E end.

(** The coordinates of a sum, up to a common factor. *)
Lemma rep11_sum (P Q : point) (k : F) r :
  within loose (p11X r) ∧ within loose (p11Y r) ∧ within loose (p11Z r) ∧ within loose (p11T r) →
  k ≠ 0 →
  fval (p11X r) = k * (px P * py Q + py P * px Q) → fval (p11Y r) = k * (py P * py Q + px P * px Q) →
  fval (p11Z r) = k * (1 + product P Q) → fval (p11T r) = k * (1 - product P Q) →
  rep11 r (P ⊕ Q).
Proof.
  intros Hw Hk EX EY EZ ET. destruct (sum_coordinates P Q) as [[D1 D2] [Ex Ey]].
  split; [done|]. rewrite EX, EY, EZ, ET. split; [split; by apply F_nz_mul|].
  split; [rewrite <- Ex; ring|rewrite <- Ey; ring].
Qed.

Lemma ge_add_rep p q P Q : rep3 p P → rep_cached q Q → yields (ge_add p q) (λ r, rep11 r (P ⊕ Q)).
Proof.
  intros [(? & ? & ? & ?) [(Z1 & X1 & Y1) T1]] [(? & ? & ? & ?) (Z2 & Yp & Ym & T2)].
  unfold ge_add. do 11 fstep. apply yields_ret.
  apply (rep11_sum P Q ((1 + 1) * (fval (p3Z p) * fval (cZ q)))); cbn [p11X p11Y p11Z p11T].
  1: repeat split; weaken_within.
  1: apply F_nz_mul; [apply two_nonzero|by apply F_nz_mul].
  all: unfold product; values; ring.
Qed.

Lemma ge_sub_rep p q P Q : rep3 p P → rep_cached q Q → yields (ge_sub p q) (λ r, rep11 r (P ⊕ ⊖ Q)).
Proof.
  intros [(? & ? & ? & ?) [(Z1 & X1 & Y1) T1]] [(? & ? & ? & ?) (Z2 & Yp & Ym & T2)].
  unfold ge_sub. do 11 fstep. apply yields_ret.
  apply (rep11_sum P (⊖ Q) ((1 + 1) * (fval (p3Z p) * fval (cZ q)))); cbn [p11X p11Y p11Z p11T].
  1: repeat split; weaken_within.
  1: apply F_nz_mul; [apply two_nonzero|by apply F_nz_mul].
  all: unfold product; rewrite ?px_inverse, ?py_inverse; values; ring.
Qed.

Lemma ge_madd_rep p q P Q : rep3 p P → rep_precomp q Q → yields (ge_madd p q) (λ r, rep11 r (P ⊕ Q)).
Proof.
  intros [(? & ? & ? & ?) [(Z1 & X1 & Y1) T1]] [(? & ? & ?) (Yp & Ym & T2)].
  unfold ge_madd. do 10 fstep. apply yields_ret.
  apply (rep11_sum P Q ((1 + 1) * fval (p3Z p))); cbn [p11X p11Y p11Z p11T].
  1: repeat split; weaken_within.
  1: apply F_nz_mul; [apply two_nonzero|done].
  all: unfold product; values; ring.
Qed.

Lemma ge_msub_rep p q P Q : rep3 p P → rep_precomp q Q → yields (ge_msub p q) (λ r, rep11 r (P ⊕ ⊖ Q)).
Proof.
  intros [(? & ? & ? & ?) [(Z1 & X1 & Y1) T1]] [(? & ? & ?) (Yp & Ym & T2)].
  unfold ge_msub. do 10 fstep. apply yields_ret.
  apply (rep11_sum P (⊖ Q) ((1 + 1) * fval (p3Z p))); cbn [p11X p11Y p11Z p11T].
  1: repeat split; weaken_within.
  1: apply F_nz_mul; [apply two_nonzero|done].
  all: unfold product; rewrite ?px_inverse, ?py_inverse; values; ring.
Qed.

Lemma ge_p2_dbl_wide p P : rep2_wide p P → yields (ge_p2_dbl p) (λ r, rep11 r (P ⊕ P)).
Proof.
  intros [(? & ? & ?) (Z1 & X1 & Y1)]. pose proof (point_curve P) as C. unfold on_curve in C.
  unfold ge_p2_dbl. do 9 fstep. apply yields_ret.
  apply (rep11_sum P P (fval (p2Z p) * fval (p2Z p))); cbn [p11X p11Y p11Z p11T].
  1: repeat split; weaken_within.
  1: by apply F_nz_mul.
  all: unfold product; values; ring [C].
Qed.

Lemma rep2_is_wide p P : rep2 p P → rep2_wide p P.
Proof. intros [(? & ? & ?) HP]. split; [|exact HP]. repeat split; weaken_within. Qed.

Lemma ge_p2_dbl_rep p P : rep2 p P → yields (ge_p2_dbl p) (λ r, rep11 r (P ⊕ P)).
Proof. intros H. by apply ge_p2_dbl_wide, rep2_is_wide. Qed.

Lemma ge_p1p1_to_p2_rep p P : rep11 p P → yields (ge_p1p1_to_p2 p) (λ r, rep2 r P).
Proof.
  intros [(? & ? & ? & ?) [[HZ HT] [EX EY]]]. unfold ge_p1p1_to_p2. do 3 fstep. apply yields_ret.
  split; [done|]. cbn [p2X p2Y p2Z]. unfold projective. values. split; [by apply F_nz_mul|]. split; ring.
Qed.

Lemma ge_p1p1_to_p3_rep p P : rep11 p P → yields (ge_p1p1_to_p3 p) (λ r, rep3 r P).
Proof.
  intros [(? & ? & ? & ?) [[HZ HT] [EX EY]]]. unfold ge_p1p1_to_p3. do 4 fstep. apply yields_ret.
  split; [done|]. cbn [p3X p3Y p3Z p3T]. unfold projective. values.
  split; [split; [by apply F_nz_mul|]; split; ring|ring].
Qed.

Lemma ge_p3_to_p2_rep p P : rep3 p P → rep2 (ge_p3_to_p2 p) P.
Proof. intros [(? & ? & ? & ?) [? _]]. by split. Qed.

Lemma ge_p3_dbl_rep p P : rep3 p P → yields (ge_p3_dbl p) (λ r, rep11 r (P ⊕ P)).
Proof. intros H. by apply ge_p2_dbl_rep, ge_p3_to_p2_rep. Qed.

Lemma fe_d2_tight : within tight fe_d2.
Proof. vm_compute. repeat split; done. Qed.

Lemma ge_p3_to_cached_rep p P : rep3 p P → yields (ge_p3_to_cached p) (λ r, rep_cached r P).
Proof.
  intros [(? & ? & ? & ?) [(Z1 & X1 & Y1) T1]]. pose proof fe_d2_tight. pose proof fe_d2_F.
  unfold ge_p3_to_cached. do 3 fstep. apply yields_ret. unfold rep_cached, fe_copy. cbn [YplusX YminusX cZ T2d].
  split; [repeat split; weaken_within|]. split; [done|]. values. repeat split; ring.
Qed.

(** ** Encodings *)

Local Open Scope Z_scope.

(** The encoding of a point: its second coordinate, and the sign of the first one in the
    last bit. *)
Definition encode (P : point) : list Z := le_bytes 32 (Zmod.unsigned (py P) + 2 ^ 255 * parity (px P)).

Lemma unsigned_range (x : F) : 0 ≤ Zmod.unsigned x < p.
Proof. apply (Zmod.unsigned_pos_bound x). done. Qed.

Lemma p_small : p < 2 ^ 255.
Proof. done. Qed.

Lemma parity_range x : parity x = 0 ∨ parity x = 1.
Proof. unfold parity. pose proof (Z.mod_pos_bound (Zmod.unsigned x) 2 ltac:(done)). lia. Qed.

Lemma le_bytes_app n k z : le_bytes (n + k) z = le_bytes n z ++ le_bytes k (Z.shiftr z (8 * Z.of_nat n)).
Proof.
  revert z. induction n as [|n IH]; intros z; [by rewrite Z.shiftr_0_r|].
  cbn [Nat.add le_bytes app]. f_equal. rewrite IH. do 2 f_equal. rewrite Z.shiftr_shiftr by lia. f_equal. lia.
Qed.

Lemma le_bytes_mod n z z' : z mod 2 ^ (8 * Z.of_nat n) = z' mod 2 ^ (8 * Z.of_nat n) → le_bytes n z = le_bytes n z'.
Proof.
  intros H. assert (∀ y, le_bytes n y = le_bytes n (y mod 2 ^ (8 * Z.of_nat n))) as N.
  { intros y. rewrite <- le_value_bytes, <- (le_bytes_value (le_bytes n y)) at 1 by apply le_bytes_bytes.
    by rewrite le_bytes_length. }
  by rewrite N, H, <- N.
Qed.

(** Setting the last bit. *)
Lemma set_sign_bit v n : 0 ≤ v < 2 ^ 255 → n = 0 ∨ n = 1 →
  (b ← at_ (le_bytes 32 v) 31; set_at (le_bytes 32 v) 31 (u8 (Z.lxor b (Z.shiftl n 7)))) =
  Ret (le_bytes 32 (v + 2 ^ 255 * n)).
Proof.
  intros Hv Hn. change 32%nat with (31 + 1)%nat. rewrite !(le_bytes_app 31 1).
  rewrite (le_bytes_mod 31 (v + 2 ^ 255 * n) v).
  2: { replace (2 ^ 255 * n) with (2 ^ 7 * n * 2 ^ (8 * Z.of_nat 31)) by (change (8 * Z.of_nat 31) with 248; lia).
       by rewrite Z.mod_add. }
  change (8 * Z.of_nat 31) with 248. assert (∀ x, le_bytes 1 x = [u8 x]) as L1 by done. rewrite !L1.
  set (top := Z.shiftr v 248). assert (0 ≤ top < 128) as Ht.
  { unfold top. rewrite Z.shiftr_div_pow2 by done. split; [apply Z.div_pos; lia|apply Z.div_lt_upper_bound; lia]. }
  assert (Z.shiftr (v + 2 ^ 255 * n) 248 = top + 128 * n) as ->.
  { unfold top. rewrite !Z.shiftr_div_pow2 by done. replace (2 ^ 255 * n) with (128 * n * 2 ^ 248) by lia.
    by rewrite Z.div_add. }
  assert (u8 top = top) as Eu by (apply Z.mod_small; lia). rewrite Eu.
  assert (Z.lxor top (Z.shiftl n 7) = top + 128 * n) as Ex.
  { destruct Hn as [-> | ->]; [by rewrite Z.lxor_0_r, Z.mul_0_r, Z.add_0_r|].
    assert (forallb (λ t, Z.lxor t 128 =? t + 128) (seqZ 0 128) = true) as A by done.
    rewrite forallb_forall in A. apply Z.eqb_eq, A, list_elem_of_In, elem_of_seqZ. lia. }
  generalize (le_bytes_length 31 v). generalize (le_bytes 31 v) as l. intros l Hl.
  rewrite (at_Some _ _ top); [|done|by rewrite lookup_app_r; rewrite Hl].
  cbn [mbind outcome_bind]. rewrite set_at_ret by (rewrite length_app, Hl; done). f_equal. change (Z.to_nat 31) with 31%nat.
  rewrite insert_app_r_alt, Hl by (by rewrite Hl). cbn. f_equal. rewrite Ex. done.
Qed.

Lemma inv_mul (x z : F) : z ≠ Zmod.zero → Zmod.mul (Zmod.mul x z) (Zmod.inv z) = x.
Proof. intros. by field. Qed.

Lemma tobytes_rep X Y Z_ P : within tight X → within tight Y → within tight Z_ →
  projective P (fval X) (fval Y) (fval Z_) → tobytes X Y Z_ = Ret (encode P).
Proof.
  intros HX HY HZ (Hz & EX & EY). unfold tobytes.
  destruct (fe_invert_F tight Z_ HZ eq_refl Hz) as (recip & -> & Hr & Er). cbn [mbind outcome_bind].
  destruct (fe_mul_F _ _ X recip HX Hr eq_refl eq_refl) as (x & -> & Hx & Ex). cbn [mbind outcome_bind].
  destruct (fe_mul_F _ _ Y recip HY Hr eq_refl eq_refl) as (y & -> & Hy & Ey). cbn [mbind outcome_bind].
  rewrite (fe_tobytes_F _ y Hy eq_refl). cbn [mbind outcome_bind].
  rewrite (fe_isnegative_F _ x Hx eq_refl). cbn [mbind outcome_bind].
  rewrite Ex, Ey, Er, EX, EY, !inv_mul by done.
  apply set_sign_bit; [|apply parity_range]. pose proof (unsigned_range (py P)). pose proof p_small. lia.
Qed.

Lemma ge_tobytes_rep h P : rep2 h P → ge_tobytes h = Ret (encode P).
Proof. intros [(? & ? & ?) ?]. by apply tobytes_rep. Qed.

Lemma ge_p3_tobytes_rep h P : rep3 h P → ge_p3_tobytes h = Ret (encode P).
Proof. intros [(? & ? & ? & ?) [? _]]. by apply tobytes_rep. Qed.

(** ** Square roots and signs *)

Lemma parity_opp (x : F) : x ≠ Zmod.zero → parity (Zmod.opp x) = 1 - parity x.
Proof.
  intros Hx. unfold parity. pose proof (unsigned_range x) as R.
  assert (Zmod.unsigned x ≠ 0) as Hn by (intros E; apply Hx; rewrite <- (Zmod.of_Z_unsigned x), E; apply Zmod.of_Z_0).
  rewrite <- (Zmod.of_Z_unsigned x) at 1. rewrite <- Zmod.of_Z_opp, Zmod.unsigned_of_Z.
  replace ((- Zmod.unsigned x) mod p) with (p - Zmod.unsigned x) by (apply (Z.mod_unique _ _ (- 1)); lia).
  unfold p. zlia.
Qed.

Lemma parity_0 : parity Zmod.zero = 0.
Proof. done. Qed.

Local Open Scope Zmod_scope.

(** The denominator of the square of the first coordinate is never zero. *)
Lemma denominator_nonzero (y : F) : d * (y * y) + 1 ≠ 0.
Proof.
  intros H. destruct (decide (y = 0)) as [->|Hy].
  - apply two_nonzero. transitivity ((d * (0 * 0) + 1) + (d * (0 * 0) + 1)); [ring|]. rewrite H. ring.
  - apply (d_nonsquare (Zmod.mdiv sqrtm1 y)), (F_cancel p p_prime (y * y)); [by apply F_nz_mul|].
    transitivity (sqrtm1 * sqrtm1); [by field|]. rewrite sqrtm1_square.
    transitivity (d * (y * y) - (d * (y * y) + 1)); [ring|]. rewrite H. ring.
Qed.

Lemma curve_square (x y : F) : on_curve p d x y ↔ x * x * (d * (y * y) + 1) = y * y - 1.
Proof.
  unfold on_curve. split; intros H.
  - transitivity (d * (x * x) * (y * y) + x * x); [ring|]. rewrite H. ring.
  - transitivity (x * x * (d * (y * y) + 1) - x * x); [ring|]. rewrite H. ring.
Qed.

Lemma same_square (x z : F) : x * x = z * z → x = z ∨ x = - z.
Proof.
  intros H. destruct (decide (x - z = 0)) as [E|N].
  - left. transitivity (x - z + z); [ring|]. rewrite E. ring.
  - right. assert (x + z = 0) as E.
    { apply (F_cancel p p_prime (x - z)); [done|]. transitivity (x * x - z * z); [ring|]. rewrite H. ring. }
    transitivity (x + z - z); [ring|]. rewrite E. ring.
Qed.

(** The second coordinate and the sign determine a point. *)
Lemma point_by_sign (P Q : point) : py P = py Q → parity (px P) = parity (px Q) → P = Q.
Proof.
  intros Ey Hs. apply point_eq; [|done].
  pose proof (proj1 (curve_square _ _) (point_curve P)) as CP. pose proof (proj1 (curve_square _ _) (point_curve Q)) as CQ.
  rewrite Ey, <- CQ in CP. apply (F_cancel p p_prime) in CP; [|apply denominator_nonzero].
  apply same_square in CP as [E|E]; [done|]. rewrite E in Hs |- *.
  destruct (decide (px Q = 0)) as [E0|N]; [rewrite E0; ring|].
  rewrite parity_opp in Hs by done. destruct (parity_range (px Q)); lia.
Qed.

Lemma encode_value P : le_value (encode P) = (Zmod.unsigned (py P) + 2 ^ 255 * parity (px P))%Z.
Proof.
  unfold encode. rewrite le_value_bytes. apply Z.mod_small. pose proof (unsigned_range (py P)) as R.
  change (2 ^ (8 * Z.of_nat 32))%Z with (2 * 2 ^ 255)%Z. pose proof p_small. destruct (parity_range (px P)) as [-> | ->]; lia.
Qed.

(** What the bytes of a point say of it. *)
Lemma encode_parts P : (le_value (encode P) mod 2 ^ 255 = Zmod.unsigned (py P) ∧ le_value (encode P) / 2 ^ 255 = parity (px P))%Z.
Proof.
  rewrite encode_value. pose proof (unsigned_range (py P)) as R. pose proof p_small.
  rewrite Z.mul_comm, Z.mod_add, Z.div_add, Z.mod_small, Z.div_small by lia. done.
Qed.

(** Different points have different bytes. *)
Lemma encode_inj P Q : encode P = encode Q → P = Q.
Proof.
  intros E. destruct (encode_parts P) as [A B], (encode_parts Q) as [A' B']. rewrite E in A, B.
  apply point_by_sign; [|congruence]. apply Zmod.unsigned_inj. congruence.
Qed.

(** ** From bytes *)

(** The candidate of [fe_divpowm1]: its square is [u / v] up to a fourth root of 1. *)
Definition uv7 (u v : F) : F := v * v * v * (v * v * v) * v * u.

Lemma fe_divpowm1_F a b u v : within a u → within b v → (a <=? loose)%Z = true → (b <=? loose)%Z = true →
  yields (fe_divpowm1 u v) (λ r, within tight r ∧
    fval v * (fval r * fval r) = fval u * uv7 (fval u) (fval v) ^ ((p - 1) / 4)).
Proof.
  intros Hu Hv Ha%Z.leb_le Hb%Z.leb_le. apply (within_weaken _ loose) in Hu, Hv; try done.
  unfold fe_divpowm1. do 5 fstep.
  eapply yields_bind; [apply pow22523_yields; weaken_within|]. intros t [[Ht Et%fval_eq] _].
  rewrite Zmod.of_Z_pow in Et by done. fold (fval t) (fval a4) in Et.
  assert (fval a4 = uv7 (fval u) (fval v)) as E4 by (unfold uv7; values; ring).
  do 2 fstep. split; [done|].
  change ((p - 1) / 4)%Z with (1 + 2 * ((p - 5) / 8))%Z.
  rewrite Zmod.pow_add_r_nonneg, Zmod.pow_1_r, (Z.mul_comm 2), Zmod.pow_mul_r_nonneg, Zmod.pow_2_r by done.
  rewrite <- E4 at 2 3. rewrite <- Et. unfold uv7. values. ring.
Qed.

Lemma fourth_root (x : F) : x ≠ 0 → let z := x ^ ((p - 1) / 4) in z * z = x ^ half.
Proof.
  intros Hx. cbv zeta. change half with ((p - 1) / 4 * 2)%Z. rewrite Zmod.pow_mul_r_nonneg by done.
  by rewrite Zmod.pow_2_r.
Qed.

(** The first coordinate, from its square: what [ge_frombytes_vartime] finds. *)
Lemma root_cases (u v r : F) : v ≠ 0 → v * (r * r) = u * uv7 u v ^ ((p - 1) / 4) →
  v * (r * r) = u ∨ v * (r * r) = - u ∨ (v * (r * r) ≠ u ∧ v * (r * r) ≠ - u ∧ ∀ x, v * (x * x) ≠ u).
Proof.
  intros Hv H. destruct (decide (v * (r * r) = u)) as [|N1]; [by left|].
  destruct (decide (v * (r * r) = - u)) as [|N2]; [by right; left|]. right. right.
  split; [done|]. split; [done|]. intros x Hx.
  assert (u ≠ 0) as Hu by (intros ->; apply N1; rewrite H; ring).
  set (z := uv7 u v ^ ((p - 1) / 4)) in *.
  assert (z * z = 1) as Hz.
  { unfold z. rewrite fourth_root by (unfold uv7; by repeat apply F_nz_mul).
    replace (uv7 u v) with (x * v * v * v * v * (x * v * v * v * v)) by (unfold uv7; rewrite <- Hx; ring).
    apply square_power. assert (x ≠ 0) by (intros ->; apply Hu; rewrite <- Hx; ring). by repeat apply F_nz_mul. }
  destruct (same_square z 1) as [E|E]; [rewrite Hz; ring|..].
  - apply N1. rewrite H, E. ring.
  - apply N2. rewrite H, E. ring.
Qed.

Local Open Scope Z_scope.

(** The test on the limbs is the one on the number. *)
Lemma not_canonical_spec k9 h : loaded (k9 * 2 ^ 2) h → 0 ≤ k9 < 2 ^ 23 →
  not_canonical h = true ↔ p ≤ fe_value h.
Proof.
  intros (k0 & k1 & k2 & k3 & k4 & k5 & k6 & k7 & k8 & -> & (?&?&?&?&?) & (?&?&?&?)) H9.
  unfold not_canonical, p. rewrite !andb_true_iff, !Z.eqb_eq, Z.leb_le. cbn [fe_value]. lia.
Qed.

(** The number of the bytes without the sign, in limbs. *)
Lemma load_point s : is_bytes s → length s = 32%nat →
  yields (t ← load_3 s 29; load_limbs s (Z.shiftl (Z.land t 8388607) 2))
    (λ h, (∃ k9, loaded (k9 * 2 ^ 2) h ∧ 0 ≤ k9 < 2 ^ 23) ∧ fe_value h = le_value s mod 2 ^ 255).
Proof.
  intros Hs Hl. rewrite load_3_value by (done || lia). offsets. cbn [mbind outcome_bind].
  change 8388607 with (Z.ones 23). rewrite Z.land_ones, Z.shiftl_mul_pow2 by done.
  set (V := le_value s). set (k9 := ((V / 2 ^ 232) mod 2 ^ 24) mod 2 ^ 23).
  assert (k9 = (V / 2 ^ 232) mod 2 ^ 23) as E9.
  { unfold k9. symmetry. apply Znumtheory.Zmod_div_mod; [done|done|]. exists 2. done. }
  eapply yields_impl; [by apply load_limbs_value|]. intros h [Hh Ev].
  assert (0 ≤ k9 < 2 ^ 23) by (apply Z.mod_pos_bound; done).
  split; [by exists k9|]. rewrite Ev. fold V. change 255 with (232 + 23). rewrite <- mod_join, <- E9 by done. lia.
Qed.

Local Open Scope Zmod_scope.

Ltac known_tight := vm_compute; repeat split; done.

Lemma fe_1_tight : within tight fe_1.
Proof. known_tight. Qed.
Lemma fe_0_tight : within tight fe_0.
Proof. known_tight. Qed.
Lemma fe_d_tight : within tight fe_d.
Proof. known_tight. Qed.
Lemma fe_sqrtm1_tight : within tight fe_sqrtm1.
Proof. known_tight. Qed.

Lemma fval_1 : fval fe_1 = 1.
Proof. apply Zmod.of_Z_1. Qed.
Lemma fval_0 : fval fe_0 = 0.
Proof. apply Zmod.of_Z_0. Qed.

Lemma sub_zero (a b : F) : a - b = 0 ↔ a = b.
Proof. split; intros H; [transitivity (a - b + b); [ring|]; rewrite H; ring|rewrite H; ring]. Qed.
Lemma add_zero (a b : F) : a + b = 0 ↔ a = - b.
Proof. split; intros H; [transitivity (a + b - b); [ring|]; rewrite H; ring|rewrite H; ring]. Qed.

Lemma fe_1_one : within 1 fe_1.
Proof. known_tight. Qed.

(** A test for zero in a program. *)
Ltac zero_test D :=
  match goal with
  | H : within ?b ?f |- yields (mbind _ (fe_isnonzero ?f)) _ =>
      rewrite (fe_isnonzero_F b f H eq_refl); cbn [mbind outcome_bind]; case_decide as D
  end.

Lemma root_of_ratio_F u v : within (tight + 1) u → within (tight + 1) v → fval v ≠ 0 →
  yields (root_of_ratio u v) (λ o,
    match o with
    | Some X => within tight X ∧ fval v * (fval X * fval X) = fval u
    | None => ∀ x, fval v * (x * x) ≠ fval u
    end).
Proof.
  intros Hu Hv Hz. unfold root_of_ratio. pose proof fe_sqrtm1_tight as Hi.
  eapply yields_bind; [by eapply (fe_divpowm1_F _ _ u v Hu Hv)|]. intros X [HX EX].
  do 3 fstep. assert (fval a0 = fval v * (fval X * fval X)) as E0 by (values; ring).
  pose proof (root_cases (fval u) (fval v) (fval X) Hz EX) as R. rewrite <- E0 in R, EX.
  zero_test D1; cbn [Z.eqb negb].
  { apply yields_ret. split; [done|]. rewrite V1, sub_zero in D1. by rewrite <- D1. }
  fstep. zero_test D2; cbn [Z.eqb negb].
  - fstep. apply yields_ret. split; [done|]. rewrite V2, add_zero in D2.
    transitivity (sqrtm1 * sqrtm1 * fval a0); [rewrite V3, E0; unfold sqrtm1; ring|]. rewrite sqrtm1_square, D2. ring.
  - apply yields_ret. rewrite V1, sub_zero in D1. rewrite V2, add_zero in D2. by destruct R as [|[|(_ & _ & R)]].
Qed.

Lemma with_sign_F X sign : within tight X → sign = 0%Z ∨ sign = 1%Z →
  yields (with_sign X sign) (λ o,
    match o with
    | Some X' => within tight X' ∧ fval X' * fval X' = fval X * fval X ∧ parity (fval X') = sign
    | None => fval X = 0 ∧ sign = 1%Z
    end).
Proof.
  intros HX Hs. unfold with_sign. rewrite (fe_isnegative_F _ X HX eq_refl). cbn [mbind outcome_bind].
  destruct (Z.eqb_spec (parity (fval X)) sign) as [E|N]; cbn [negb].
  - apply yields_ret. done.
  - zero_test D; cbn [Z.eqb].
    + apply yields_ret. split; [done|]. rewrite D, parity_0 in N. destruct Hs; congruence.
    + fstep. apply yields_ret. split; [done|]. values. split; [ring|]. rewrite parity_opp by done.
      destruct (parity_range (fval X)); lia.
Qed.

Local Open Scope Z_scope.

Lemma sign_bit s : is_bytes s → length s = 32%nat →
  ∃ b, at_ s 31 = Ret b ∧ Z.shiftr b 7 = le_value s / 2 ^ 255 ∧ (Z.shiftr b 7 = 0 ∨ Z.shiftr b 7 = 1).
Proof.
  intros Hs Hl. pose proof (le_value_range s Hs) as R. rewrite Hl in R. change (8 * Z.of_nat 32) with 256 in R.
  pose proof (le_value_slice s 31 1 Hs ltac:(lia)) as S.
  destruct (drop 31 s) as [|b t] eqn:E; [apply (f_equal length) in E; rewrite length_drop in E; simpl in E; lia|].
  exists b. split; [exact (at_drop s 31 0 b _ E eq_refl)|].
  revert S. offsets. cbn [take le_value]. rewrite Z.mul_0_r, Z.add_0_r. intros S.
  rewrite Z.mod_small in S by (split; [apply Z.div_pos; lia|apply Z.div_lt_upper_bound; lia]).
  rewrite Z.shiftr_div_pow2, S, Z.div_div by done. change (2 ^ 248 * 2 ^ 7) with (2 ^ 255). split; [done|].
  assert (0 ≤ le_value s / 2 ^ 255 < 2) by (split; [apply Z.div_pos; lia|apply Z.div_lt_upper_bound; lia]). lia.
Qed.

(** Bytes are the ones of a point when they have its parts. *)
Lemma encode_of_parts s P : is_bytes s → length s = 32%nat →
  Zmod.unsigned (py P) = le_value s mod 2 ^ 255 → parity (px P) = le_value s / 2 ^ 255 → encode P = s.
Proof.
  intros Hs Hl Ey Ex. unfold encode. rewrite Ey, Ex, Z.add_comm, <- Z.div_mod, <- Hl by done. by apply le_bytes_value.
Qed.

(** The point with a second coordinate and a sign, if there is one. *)
Lemma lift_x_F Y sign : within tight Y → sign = 0 ∨ sign = 1 →
  yields (lift_x Y sign) (λ o,
    match o with
    | Some h => ∃ P, rep3 h P ∧ py P = fval Y ∧ parity (px P) = sign
    | None => ∀ P : point, py P = fval Y → parity (px P) ≠ sign
    end).
Proof.
  intros HY Hs. pose proof fe_1_one as H1. pose proof fe_d_tight as Hd. pose proof fval_1 as E1.
  unfold lift_x. do 4 fstep. set (y := fval Y) in *.
  assert (fval a1 = y * y - 1)%Zmod as Eu by (values; ring).
  assert (fval a2 = d * (y * y) + 1)%Zmod as Ez by (values; unfold d; ring).
  assert (∀ x, (fval a2 * (x * x) = fval a1)%Zmod ↔ on_curve p d x y) as C.
  { intros x. rewrite curve_square, Eu, Ez. by rewrite (Zmod.mul_comm (x * x)%Zmod). }
  eapply yields_bind; [apply root_of_ratio_F; [done|done|rewrite Ez; apply denominator_nonzero]|].
  intros [X|] HX; [|apply yields_ret; intros P <-; exfalso; apply (HX (px P)), C, point_curve].
  destruct HX as [HX EX]. eapply yields_bind; [by apply with_sign_F|].
  intros [X'|] HX'.
  - destruct HX' as (HX' & Esq & Ep). fstep. apply yields_ret. rewrite <- Esq in EX.
    exists (mk_point p d _ _ (proj1 (C (fval X')) EX)). split; [|split; [reflexivity|exact Ep]].
    split; [by repeat split; try apply fe_1_tight|]. cbn [p3X p3Y p3Z p3T px py mk_point].
    unfold projective. cbn [px py mk_point]. rewrite E1.
    split; [split; [apply (one_nonzero p p_prime two_nonzero)|split; symmetry; apply Zmod.mul_1_r]|].
    rewrite V3. symmetry. apply Zmod.mul_1_r.
  - destruct HX' as [Z0 ->]. apply yields_ret. intros P EP Ep.
    pose proof (point_curve P) as CP. rewrite EP in CP. apply (proj2 (C (px P))) in CP.
    rewrite <- EX, Z0 in CP.
    assert (px P = Zmod.zero) as E0; [|by rewrite E0, parity_0 in Ep].
    assert (px P * px P = 0 * 0)%Zmod as Esq.
    { apply (F_cancel p p_prime (fval a2)); [rewrite Ez; apply denominator_nonzero|].
      by rewrite Zmod.mul_comm, CP, Zmod.mul_comm. }
    destruct (same_square _ _ Esq) as [->| ->]; ring.
Qed.

(** The conversion from bytes returns for all bytes; it accepts the encodings of points
    and no others, and gives the point. *)
Lemma ge_frombytes_yields s : is_bytes s → length s = 32%nat →
  yields (ge_frombytes_vartime s) (λ o,
    match o with Some h => ∃ P, rep3 h P ∧ encode P = s | None => ∀ P, encode P ≠ s end).
Proof.
  intros Hs Hl. unfold ge_frombytes_vartime.
  eapply yields_bind; [by apply load_point|]. intros h [(k9 & Hh & H9) Ev].
  assert (∀ P, encode P = s → Zmod.unsigned (py P) = fe_value h ∧ parity (px P) = le_value s / 2 ^ 255) as parts.
  { intros P <-. rewrite Ev. destruct (encode_parts P) as [-> ->]. done. }
  pose proof (not_canonical_spec k9 h Hh H9) as N. destruct (not_canonical h).
  { apply yields_ret. intros P EP. apply parts in EP as [EP _].
    pose proof (unsigned_range (py P)). assert (p ≤ fe_value h) by (by apply N). lia. }
  assert (0 ≤ fe_value h < p) as Hc.
  { split; [rewrite Ev; by apply Z.mod_pos_bound|]. destruct (Z.le_gt_cases p (fe_value h)) as [H%N|]; [done|lia]. }
  eapply yields_bind; [apply carry_loaded_yields, (loaded_within _ _ Hh); lia|]. intros Y [HY EY].
  assert (Zmod.unsigned (fval Y) = fe_value h) as UY.
  { unfold fval. rewrite Zmod.unsigned_of_Z, EY. by apply Z.mod_small. }
  destruct (sign_bit s Hs Hl) as (b & -> & Eb & Hb). cbn [mbind outcome_bind].
  eapply yields_impl; [by apply lift_x_F|]. intros [r|] Hr.
  - destruct Hr as (P & HP & EP & Ep). exists P. split; [done|]. apply encode_of_parts; congruence.
  - intros P EP. apply parts in EP as [EP Ep]. apply (Hr P); [|congruence]. apply Zmod.unsigned_inj. congruence.
Qed.

(** ** Theorems *)

(** C20: Points and bytes: [ge_frombytes_vartime] returns on all 32 bytes, accepts exactly the
    encodings of points of the curve, with the representation of that point, and
    [ge_p3_tobytes] writes the same bytes again. *)
Theorem point_bytes_roundtrip s : is_bytes s → length s = 32%nat → yields (ge_frombytes_vartime s) (λ o,
  match o with
  | Some h => ge_p3_tobytes h = Ret s ∧ ∃ P, rep3 h P ∧ encode P = s
  | None => ∀ P, encode P ≠ s
  end).
Proof.
  intros Hb Hl. eapply yields_impl; [by apply ge_frombytes_yields|]. intros [h|] H; [|exact H].
  destruct H as (P & HP & E). split; [rewrite <- E; by apply ge_p3_tobytes_rep|]. by exists P.
Qed.

Lemma point_bytes_roundtrip_witness : yields (ge_frombytes_vartime (2 :: replicate 31 0)) (λ o,
  match o with
  | Some h => ge_p3_tobytes h = Ret (2 :: replicate 31 0) ∧ ∃ P, rep3 h P ∧ encode P = 2 :: replicate 31 0
  | None => ∀ P, encode P ≠ 2 :: replicate 31 0
  end).
Proof. apply point_bytes_roundtrip; [by repeat constructor|reflexivity]. Defined.
