(* ===== verification/MapToCurve.v ===== *)
(** * From bytes to a point of the curve

    [ge_fromfe_frombytes_vartime] gives a point for all bytes: the roots that it takes
    exist, the coordinates are on the curve, the denominator is not zero, and none of its
    assertions fails. *)

From S2P Require Import Prelude Streams SignedArithmetic FieldElement FieldTheorems EdwardsCurve GroupElement Curve25519 GroupTheorems.
From Stdlib Require Import Zmod Field.

Local Open Scope Zmod_scope.

(** ** The constants *)

(** The parameter [A] of the comments. *)
Definition A : F := Zmod.of_Z p 486662.

Lemma fe_ma_F : fval fe_ma = - A.
Proof. unfold A, fval. rewrite <- Zmod.of_Z_opp. apply F_by. by vm_compute. Qed.

Lemma fe_ma2_F : fval fe_ma2 = - (A * A).
Proof. unfold A, fval. rewrite <- Zmod.of_Z_mul, <- Zmod.of_Z_opp. apply F_by. by vm_compute. Qed.

Ltac constant_square :=
  unfold A, sqrtm1, fval; rewrite <- ?Zmod.of_Z_1, <- ?Zmod.of_Z_add, <- ?Zmod.of_Z_mul, <- ?Zmod.of_Z_add, <- ?Zmod.of_Z_mul, <- ?Zmod.of_Z_opp;
  apply F_by; by vm_compute.

Lemma fffb1_square : fval fe_fffb1 * fval fe_fffb1 = - ((1 + 1) * A * (A + (1 + 1))).
Proof. constant_square. Qed.
Lemma fffb2_square : fval fe_fffb2 * fval fe_fffb2 = (1 + 1) * A * (A + (1 + 1)).
Proof. constant_square. Qed.
Lemma fffb3_square : fval fe_fffb3 * fval fe_fffb3 = - (sqrtm1 * A * (A + (1 + 1))).
Proof. constant_square. Qed.
Lemma fffb4_square : fval fe_fffb4 * fval fe_fffb4 = sqrtm1 * A * (A + (1 + 1)).
Proof. constant_square. Qed.

Lemma d_A : d * (A + (1 + 1)) = (1 + 1) - A.
Proof.
  unfold d, A, fval. rewrite <- Zmod.of_Z_1, <- !Zmod.of_Z_add, <- Zmod.of_Z_mul, <- Zmod.of_Z_sub.
  apply F_by. by vm_compute.
Qed.

Lemma A_nonzero : A ≠ 0 ∧ A + (1 + 1) ≠ 0.
Proof.
  unfold A. rewrite <- Zmod.of_Z_1, <- !Zmod.of_Z_add. split; by apply Zmod.of_Z_nz.
Qed.

(** Numbers that are not squares: the denominators never vanish. *)
Lemma two_nonsquare (s : F) : s * s ≠ 1 + 1.
Proof. rewrite <- Zmod.of_Z_1, <- Zmod.of_Z_add. apply nonsquare_by. vm_cast_no_check (eq_refl true). Qed.

Lemma A_nonsquare (s : F) : s * s ≠ (1 + 1) * (A - 1).
Proof.
  unfold A. rewrite <- Zmod.of_Z_1, <- Zmod.of_Z_add, <- Zmod.of_Z_sub, <- Zmod.of_Z_mul. apply nonsquare_by.
  vm_cast_no_check (eq_refl true).
Qed.

(** ** The map *)

Section Map.
Variable u : F.
Definition v_of : F := (1 + 1) * (u * u).
Definition w_of : F := v_of + 1.
Definition x_of : F := w_of * w_of - A * A * v_of.

Lemma w_nonzero : w_of ≠ 0.
Proof.
  intros H. apply (two_nonsquare (sqrtm1 * ((1 + 1) * u))).
  transitivity (sqrtm1 * sqrtm1 * ((1 + 1) * (w_of - 1))); [unfold w_of, v_of; ring|]. rewrite sqrtm1_square, H. ring.
Qed.

Lemma x_nonzero : x_of ≠ 0.
Proof.
  intros H. destruct (decide (u = 0)) as [E|N].
  - apply (one_nonzero p p_prime two_nonzero). rewrite <- H. unfold x_of, w_of, v_of. rewrite E. ring.
  - assert (A * u ≠ 0) as NA by exact (F_nz_mul _ _ (proj1 A_nonzero) N).
    apply (two_nonsquare (Zmod.mdiv w_of (A * u))), (F_cancel p p_prime (A * u * (A * u))); [exact (F_nz_mul _ _ NA NA)|].
    transitivity (w_of * w_of); [field; exact (conj N (proj1 A_nonzero))|]. transitivity (x_of + A * A * v_of); [unfold x_of; ring|].
    rewrite H. unfold v_of. ring.
Qed.

Lemma square_denominator : - A * v_of + w_of ≠ 0.
Proof.
  intros H. apply (A_nonsquare ((1 + 1) * u * (A - 1))).
  transitivity ((1 + 1) * (A - 1) * (1 - (- A * v_of + w_of))); [unfold w_of, v_of; ring|]. rewrite H. ring.
Qed.

Lemma nonsquare_denominator : - A + w_of ≠ 0.
Proof.
  intros H. apply (A_nonsquare ((1 + 1) * u)).
  transitivity ((1 + 1) * (A - 1 + (- A + w_of))); [unfold w_of, v_of; ring|]. rewrite H. ring.
Qed.

(** The coordinates [(r, (z - w) / (z + w))] are on the curve. *)
Lemma map_on_curve (z r : F) : z + w_of ≠ 0 →
  r * r * (z * z + w_of * w_of + A * z * w_of) = - ((A + (1 + 1)) * z * w_of) →
  on_curve p d r (Zmod.mdiv (z - w_of) (z + w_of)).
Proof.
  intros HZ H. apply (proj2 (curve_square _ _)). set (w := w_of) in *. set (y := Zmod.mdiv (z - w) (z + w)).
  assert (y * (z + w) = z - w) as Ey by (by apply F_div_mul; [apply p_prime|]).
  destruct A_nonzero as [_ HA].
  apply (F_cancel p p_prime ((A + (1 + 1)) * ((z + w) * (z + w)))); [exact (F_nz_mul _ _ HA (F_nz_mul _ _ HZ HZ))|].
  transitivity (r * r * (d * (A + (1 + 1)) * (y * (z + w) * (y * (z + w))) + (A + (1 + 1)) * ((z + w) * (z + w)))); [ring|].
  transitivity ((A + (1 + 1)) * (y * (z + w) * (y * (z + w)) - (z + w) * (z + w))); [|ring]. rewrite d_A, Ey.
  transitivity ((1 + 1) * (1 + 1) * (r * r * (z * z + w * w + A * z * w))); [ring|]. rewrite H. ring.
Qed.

(** With a root of [2 A (A + 2) w / x], and with one of [A (A + 2) w / x]. *)
Lemma square_case r : r * r * x_of = (1 + 1) * A * (A + (1 + 1)) * w_of →
  (r * u) * (r * u) * (- A * v_of * (- A * v_of) + w_of * w_of + A * (- A * v_of) * w_of) = - ((A + (1 + 1)) * (- A * v_of) * w_of).
Proof.
  intros H. transitivity (u * u * (r * r * x_of)); [unfold x_of, w_of, v_of; ring|]. rewrite H. unfold w_of, v_of. ring.
Qed.

Lemma nonsquare_case r : r * r * x_of = A * (A + (1 + 1)) * w_of →
  r * r * (- A * - A + w_of * w_of + A * (- A) * w_of) = - ((A + (1 + 1)) * - A * w_of).
Proof.
  intros H. transitivity (r * r * x_of); [unfold x_of, w_of, v_of; ring|]. rewrite H. ring.
Qed.
End Map.

(** ** The roots *)

(** A power [(p - 1) / 4] is one of the four roots of one. *)
Lemma fourth_roots (a : F) : a ≠ 0 → let z := a ^ ((p - 1) / 4) in z * z = 1 ∨ z * z = - (1).
Proof.
  intros Ha z. unfold z. rewrite fourth_root by done.
  assert (a ^ half * a ^ half = 1 * 1) as E.
  { transitivity ((a * a) ^ half); [by rewrite Zmod.pow_mul_l_nonneg|]. rewrite square_power by done. ring. }
  apply same_square in E as [->| ->]; [by left|by right].
Qed.

Lemma root_four (w x r : F) : w ≠ 0 → x ≠ 0 → x * (r * r) = w * uv7 w x ^ ((p - 1) / 4) →
  let e := r * r * x in e = w ∨ e = - w ∨ e * sqrtm1 = w ∨ e * sqrtm1 = - w.
Proof.
  intros Hw Hx H e. assert (uv7 w x ≠ 0) as Hu.
  { unfold uv7. repeat apply F_nz_mul; done. }
  set (z := uv7 w x ^ ((p - 1) / 4)) in *. assert (e = w * z) as E by (unfold e; rewrite <- H; ring).
  destruct (fourth_roots _ Hu) as [Z2|Z2]; fold z in Z2; rewrite E.
  - assert (z * z = 1 * 1) as Z1 by (rewrite Z2; ring). destruct (same_square _ _ Z1) as [->| ->]; [left; ring|right; left; ring].
  - rewrite <- sqrtm1_square in Z2. destruct (same_square _ _ Z2) as [->| ->].
    + right. right. right. transitivity (w * (sqrtm1 * sqrtm1)); [ring|]. rewrite sqrtm1_square. ring.
    + right. right. left. transitivity (- w * (sqrtm1 * sqrtm1)); [ring|]. rewrite sqrtm1_square. ring.
Qed.

(** ** The program *)

Lemma fe_fffb_tight : within tight fe_fffb1 ∧ within tight fe_fffb2 ∧ within tight fe_fffb3 ∧ within tight fe_fffb4.
Proof. repeat split; known_tight. Qed.

Lemma fe_ma_tight : within tight fe_ma ∧ within tight fe_ma2.
Proof. split; known_tight. Qed.

(** What the choice of the root gives. *)
Definition root_chosen (w : F) (t : fe * fe * Z) : Prop :=
  let '(X, z, sign) := t in
  within tight X ∧ within tight z ∧ fval z + w ≠ 0 ∧
  fval X * fval X * (fval z * fval z + w * w + A * fval z * w) = - ((A + (1 + 1)) * fval z * w) ∧
  (sign = 0%Z ∨ (sign = 1%Z ∧ fval X ≠ 0)).

Lemma negative_root_F w x X x0 : within (tight + 1) w → within tight x → within tight X →
  fval x = fval X * fval X * x0 → (fval x * sqrtm1 = fval w ∨ fval x * sqrtm1 = - fval w) →
  yields (negative_root w x X) (λ X', within tight X' ∧ fval X' * fval X' * x0 = A * (A + (1 + 1)) * fval w).
Proof.
  intros Hw Hx HX Ex Hr. pose proof fe_sqrtm1_tight as Hi. destruct fe_fffb_tight as (_ & _ & H3 & H4).
  unfold negative_root. do 2 fstep. fold sqrtm1 in V. zero_test D1; cbn [Z.eqb negb].
  - rewrite V0, sub_zero in D1. fstep. split; [done|]. rewrite V1.
    transitivity (fval x * (fval fe_fffb4 * fval fe_fffb4)); [rewrite Ex; ring|].
    rewrite fffb4_square, D1, V. ring.
  - rewrite V0, sub_zero, V in D1. fstep. zero_test D2; cbn [Z.eqb negb].
    + rewrite V1, add_zero, V in D2. fstep. split; [done|]. rewrite V2.
      transitivity (fval x * (fval fe_fffb3 * fval fe_fffb3)); [rewrite Ex; ring|]. rewrite fffb3_square, D2. ring.
    + exfalso. rewrite V1, add_zero, V in D2. destruct Hr as [Hr|Hr]; [by apply D1|]. apply D2. rewrite Hr. ring.
Qed.

Lemma choose_root_F u v w x X : within tight u → within tight v → within (tight + 1) w → within tight x → within tight X →
  fval v = v_of (fval u) → fval w = w_of (fval u) → fval x = fval X * fval X * x_of (fval u) →
  (fval x = fval w ∨ fval x = - fval w ∨ fval x * sqrtm1 = fval w ∨ fval x * sqrtm1 = - fval w) →
  yields (choose_root u v w x X) (root_chosen (fval w)).
Proof.
  intros Hu Hv Hw Hx HX Ev Ew Ex Hr. destruct fe_fffb_tight as (H1 & H2 & _ & _). destruct fe_ma_tight as [Hma _].
  assert (∀ X', within tight X' → fval X' * fval X' * x_of (fval u) = (1 + 1) * A * (A + (1 + 1)) * fval w →
    yields (X ← fe_mul X' u; z ← fe_mul (fe_copy fe_ma) v; mret (X, z, 0%Z)) (root_chosen (fval w))) as square.
  { intros X' HX' E. unfold fe_copy. do 2 fstep. apply yields_ret. unfold root_chosen.
    assert (fval a0 = - A * v_of (fval u)) as E0 by (rewrite V0, fe_ma_F, Ev; ring). rewrite E0, V, Ew in *.
    split; [done|]. split; [done|]. split; [apply square_denominator|]. split; [by apply square_case|by left]. }
  unfold choose_root. fstep. zero_test D1; cbn [Z.eqb negb].
  - rewrite V, sub_zero in D1. fstep. apply square; [done|]. rewrite V0.
    transitivity (fval x * (fval fe_fffb2 * fval fe_fffb2)); [rewrite Ex; ring|]. rewrite fffb2_square, D1. ring.
  - rewrite V, sub_zero in D1. fstep. zero_test D2; cbn [Z.eqb negb].
    + rewrite V0, add_zero in D2. fstep. apply square; [done|]. rewrite V1.
      transitivity (fval x * (fval fe_fffb1 * fval fe_fffb1)); [rewrite Ex; ring|]. rewrite fffb1_square, D2. ring.
    + rewrite V0, add_zero in D2. eapply yields_bind.
      { apply (negative_root_F w x X (x_of (fval u))); try assumption.
        destruct Hr as [Hr|[Hr|Hr]]; [by destruct D1|destruct D2; rewrite Hr; ring|done]. }
      intros X' [HX' EX']. apply yields_ret. unfold root_chosen, fe_copy. rewrite fe_ma_F, Ew in *.
      split; [done|]. split; [done|]. split; [apply nonsquare_denominator|]. split; [by apply nonsquare_case|]. right. split; [done|].
      intros E0. rewrite E0 in EX'. destruct A_nonzero as [HA HA2].
      apply (F_nz_mul _ _ (F_nz_mul _ _ HA HA2) (w_nonzero (fval u))). rewrite <- EX'. ring.
Qed.

Lemma set_sign_F X sign : within tight X → (sign = 0%Z ∨ (sign = 1%Z ∧ fval X ≠ 0)) →
  yields (set_sign X sign) (λ X', within tight X' ∧ fval X' * fval X' = fval X * fval X).
Proof.
  intros HX Hs. unfold set_sign. rewrite (fe_isnegative_F _ X HX eq_refl). cbn [mbind outcome_bind].
  destruct (Z.eqb_spec (parity (fval X)) sign) as [E|N]; cbn [negb]; [by apply yields_ret|].
  zero_test D; cbn [Z.eqb].
  - exfalso. rewrite D, parity_0 in N. destruct Hs as [->|[-> Hs]]; [done|by apply Hs].
  - eapply yields_impl; [eapply fe_neg_F; [exact HX|reflexivity]|]. intros X' [HX' E]. split; [exact HX'|]. rewrite E. ring.
Qed.

Lemma check_on_curve_F X Y Z_ (P : point) : within tight X → within (2 * tight + 1) Y → within (2 * tight + 1) Z_ →
  projective P (fval X) (fval Y) (fval Z_) → check_on_curve X Y Z_ = Ret tt.
Proof.
  intros HX HY HZ (Hz & EX & EY). pose proof fe_1_one as H1. pose proof fe_d_tight as Hd. pose proof fval_1 as E1.
  pose proof (point_curve P) as C. unfold on_curve in C.
  assert (yields (check_on_curve X Y Z_) (λ _, True)) as ([] & E & _); [|exact E].
  unfold check_on_curve. eapply yields_bind; [eapply (fe_invert_F _ Z_ HZ eq_refl Hz)|]. intros iz [Hiz Eiz].
  do 9 fstep. zero_test D; cbn [Z.eqb negb]; [by apply yields_ret|]. exfalso. apply D. values.
  rewrite !inv_mul by exact Hz. fold d.
  transitivity (d * (px P * px P) * (py P * py P) + px P * px P - py P * py P + 1); [ring|]. rewrite C. ring.
Qed.

(** The bytes, as an element of the field. *)
Lemma load_element s : is_bytes s → length s = 32%nat →
  yields (t ← load_3 s 29; load_limbs s (Z.shiftl t 2)) (limbs_within (2 ^ 32)).
Proof.
  intros Hs Hl. rewrite load_3_value by (done || lia). cbn [mbind outcome_bind]. rewrite Z.shiftl_mul_pow2 by done.
  eapply yields_impl; [by apply load_limbs_value|]. intros h [Hh _]. apply (loaded_within _ _ Hh).
  pose proof (Z.mod_pos_bound (le_value s / 2 ^ (8 * Z.of_nat 29)) (2 ^ 24) ltac:(done)). lia.
Qed.

(** For all bytes, [ge_fromfe_frombytes_vartime] returns a point of the curve. *)
Lemma ge_fromfe_yields s : is_bytes s → length s = 32%nat →
  yields (ge_fromfe_frombytes_vartime s) (λ h, ∃ P, rep2_wide h P).
Proof.
  intros Hs Hl. pose proof fe_1_one as H1. pose proof fval_1 as E1. destruct fe_ma_tight as [_ Hma2]. pose proof fe_ma2_F as Ema2.
  unfold ge_fromfe_frombytes_vartime. eapply yields_bind; [by apply load_element|]. intros h Hh.
  eapply yields_bind; [by apply carry_loaded_yields|]. intros u [Hu _]. do 5 fstep.
  assert (fval a = v_of (fval u)) as Ev by (rewrite V; reflexivity).
  assert (fval a0 = w_of (fval u)) as Ew by (rewrite V0, Ev, E1; reflexivity).
  assert (fval a3 = x_of (fval u)) as Ex by (rewrite V3, V1, V2, Ew, Ev, Ema2; unfold x_of; ring).
  eapply yields_bind; [by eapply (fe_divpowm1_F _ _ a0 a3)|]. intros X [HX EX]. do 2 fstep.
  rewrite Ex, Ew in EX. pose proof (root_four _ _ _ (w_nonzero _) (x_nonzero _) EX) as R. cbv zeta in R.
  eapply yields_bind.
  { apply (choose_root_F u a a0 a5 X); try assumption; rewrite V5, V4, Ex; [reflexivity|]. rewrite Ew. exact R. }
  intros [[X' z] sign] (HX' & Hz & Nz & Hc & Hsign).
  eapply yields_bind; [by apply (set_sign_F X' sign)|]. intros X2 [HX2 ESq]. do 3 fstep.
  rewrite Ew in *. rewrite <- ESq in Hc. pose proof (map_on_curve (fval u) (fval z) (fval X2) Nz Hc) as C.
  assert (projective (mk_point p d _ _ C) (fval a8) (fval a7) (fval a6)) as Hp.
  { unfold projective. cbn [px py mk_point]. rewrite V8, V7, V6. split; [exact Nz|]. split; [reflexivity|].
    symmetry. apply F_div_mul; [apply p_prime|exact Nz]. }
  rewrite (check_on_curve_F _ _ _ (mk_point p d _ _ C)); [|done|weaken_within|weaken_within|exact Hp].
  cbn [mbind outcome_bind]. apply yields_ret. exists (mk_point p d _ _ C).
  split; [|exact Hp]. cbn [p2X p2Y p2Z]. repeat split; weaken_within.
Qed.
