(* ===== verification/BaseTheorems.v ===== *)
(** * The tables hold the multiples of the base point

    Every entry of [ge_base] and [ge_Bi] is checked, by computing with numbers modulo
    [p]: an entry is the sum of two others, and the first one of a position is 256 times
    that of the position before. The order of the base point is checked in the same way. *)

From S2P Require Import Prelude Streams SignedArithmetic FieldElement FieldTheorems EdwardsCurve GroupElement BaseTable Curve25519 GroupTheorems.
From Stdlib Require Import Zmod Field.

Local Open Scope Z_scope.

(** ** The base point *)

Definition base_x : F := Zmod.of_Z p 15112221349535400772501151409588531511454012693041857206046113283949847762202.
Definition base_y : F := Zmod.of_Z p 46316835694926478169428394003475163141307993866256225615783033603165251855960.

Lemma base_on_curve : on_curve p d base_x base_y.
Proof.
  unfold on_curve, base_x, base_y, d, fval. rewrite <- !Zmod.of_Z_mul, <- Zmod.of_Z_1, <- !Zmod.of_Z_sub.
  apply F_by. by vm_compute.
Qed.

(** The base point of the comments: the second coordinate is [4/5], the first one is
    positive. *)
Definition base : point := mk_point p d base_x base_y base_on_curve.

Lemma base_is_four_fifths : (py base * [5]p = [4]p)%Zmod ∧ parity (px base) = 0.
Proof.
  split; [|by vm_compute]. cbn [py base mk_point]. unfold base_y. rewrite <- Zmod.of_Z_mul. apply F_by. by vm_compute.
Qed.

(** ** Entries *)

Definition within_b (b : Z) (f : fe) : bool :=
  let 'Fe f0 f1 f2 f3 f4 f5 f6 f7 f8 f9 := f in
  forallb (λ x, Z.abs x <=? 2 * b) [f0; f2; f4; f6; f8] && forallb (λ x, Z.abs x <=? b) [f1; f3; f5; f7; f9].

Lemma within_b_true b f : within_b b f = true → within b f.
Proof.
  destruct f as [f0 f1 f2 f3 f4 f5 f6 f7 f8 f9]. unfold within_b, within. cbn [forallb].
  rewrite !andb_true_iff, !Z.leb_le. tauto.
Qed.

(** Twice the coordinates of an entry. *)
Definition twice_x (c : ge_precomp) : Z := fe_value (yplusx c) - fe_value (yminusx c).
Definition twice_y (c : ge_precomp) : Z := fe_value (yplusx c) + fe_value (yminusx c).

Definition has_coordinates (c : ge_precomp) (P : point) : Prop :=
  [twice_x c]p = ((1 + 1) * px P)%Zmod ∧ [twice_y c]p = ((1 + 1) * py P)%Zmod.

Definition check_entry (c : ge_precomp) : bool :=
  within_b tight (yplusx c) && within_b tight (yminusx c) && within_b tight (xy2d c) &&
  eqb_p (2 * fe_value (xy2d c)) (mulp (fe_value fe_d) (mulp (twice_x c) (twice_y c))).

Lemma check_entry_rep c P : has_coordinates c P → check_entry c = true → rep_precomp c P.
Proof.
  intros [EX EY] H. unfold check_entry in H. rewrite !andb_true_iff in H. destruct H as [[[H1 H2] H3] H4].
  apply eqb_p_F in H4. autorewrite with to_F in H4. rewrite EX, EY in H4. fold (fval fe_d) d in H4.
  unfold twice_x, twice_y in *. rewrite Zmod.of_Z_sub in EX. rewrite Zmod.of_Z_add in EY.
  fold (fval (yplusx c)) (fval (yminusx c)) in EX, EY. fold (fval (xy2d c)) in H4.
  split; [by repeat split; apply within_b_true|].
  repeat split; apply (F_cancel p p_prime (1 + 1)%Zmod _ _ two_nonzero).
  - transitivity ((fval (yplusx c) - fval (yminusx c)) + (fval (yplusx c) + fval (yminusx c)))%Zmod; [ring|].
    rewrite EX, EY. ring.
  - transitivity ((fval (yplusx c) + fval (yminusx c)) - (fval (yplusx c) - fval (yminusx c)))%Zmod; [ring|].
    rewrite EX, EY. ring.
  - rewrite Zmod.mul_comm, H4. ring.
Qed.

(** The entry [c] is the sum of [c1] and [c2]. *)
Definition check_sum (c1 c2 c : ge_precomp) : bool :=
  let x1 := twice_x c1 in let y1 := twice_y c1 in
  let x2 := twice_x c2 in let y2 := twice_y c2 in
  let u := mulp (fe_value fe_d) (mulp (mulp x1 x2) (mulp y1 y2)) in
  eqb_p (twice_x c * (16 + u)) (8 * (x1 * y2 + y1 * x2)) && eqb_p (twice_y c * (16 - u)) (8 * (y1 * y2 + x1 * x2)).

Lemma of_Z_16 : [16]p = ((1 + 1) * (1 + 1) * ((1 + 1) * (1 + 1)))%Zmod.
Proof. change 16 with (2 * 2 * (2 * 2)). by rewrite !Zmod.of_Z_mul, of_Z_2. Qed.
Lemma of_Z_8 : [8]p = ((1 + 1) * (1 + 1) * (1 + 1))%Zmod.
Proof. change 8 with (2 * 2 * 2). by rewrite !Zmod.of_Z_mul, of_Z_2. Qed.

Lemma check_sum_coordinates c1 c2 c P Q : has_coordinates c1 P → has_coordinates c2 Q → check_sum c1 c2 c = true →
  has_coordinates c (P ⊕ Q).
Proof.
  intros [X1 Y1] [X2 Y2] H. unfold check_sum in H. apply andb_true_iff in H as [Hx%eqb_p_F Hy%eqb_p_F].
  revert Hx Hy. autorewrite with to_F. rewrite X1, Y1, X2, Y2, of_Z_16, of_Z_8.
  fold (fval fe_d) d. intros Hx Hy. destruct (sum_coordinates P Q) as [[D1 D2] [Ex Ey]].
  unfold has_coordinates. set (t := (1 + 1)%Zmod) in *. assert (t ≠ Zmod.zero) as Ht by apply two_nonzero.
  assert (t * t * (t * t) ≠ Zmod.zero)%Zmod as H16 by exact (F_nz_mul _ _ (F_nz_mul _ _ Ht Ht) (F_nz_mul _ _ Ht Ht)).
  split.
  - apply (F_cancel p p_prime (t * t * (t * t) * (1 + product P Q))%Zmod); [by apply F_nz_mul|].
    transitivity (t * t * (t * t) * t * (px (P ⊕ Q) * (1 + product P Q)))%Zmod; [|ring]. rewrite Ex.
    transitivity ([twice_x c]p * (t * t * (t * t) + d * (t * px P * (t * px Q) * (t * py P * (t * py Q)))))%Zmod;
      [unfold product; ring|]. rewrite Hx. ring.
  - apply (F_cancel p p_prime (t * t * (t * t) * (1 - product P Q))%Zmod); [by apply F_nz_mul|].
    transitivity (t * t * (t * t) * t * (py (P ⊕ Q) * (1 - product P Q)))%Zmod; [|ring]. rewrite Ey.
    transitivity ([twice_y c]p * (t * t * (t * t) - d * (t * px P * (t * px Q) * (t * py P * (t * py Q)))))%Zmod;
      [unfold product; ring|]. rewrite Hy. ring.
Qed.

(** ** Doubles *)

Definition is_projective (t : Z * Z * Z) (P : point) : Prop := let '(X, Y, Z_) := t in projective P [X]p [Y]p [Z_]p.

Definition dbl (t : Z * Z * Z) : Z * Z * Z :=
  let '(X, Y, Z_) := t in
  let xx := mulp X X in let yy := mulp Y Y in
  let g := yy - xx in let f := 2 * mulp Z_ Z_ - g in
  (mulp (2 * mulp X Y) f, mulp (yy + xx) g, mulp g f).

Lemma dbl_projective t P : is_projective t P → is_projective (dbl t) (P ⊕ P).
Proof.
  destruct t as [[X Y] Z_]. intros (HZ & EX & EY). unfold dbl, is_projective, projective.
  autorewrite with to_F. rewrite EX, EY. set (z := [Z_]p) in *.
  pose proof (point_curve P) as C. unfold on_curve in C.
  destruct (sum_coordinates P P) as [[D1 D2] [Ex Ey]]. unfold product in *.
  set (w := (1 + d * px P * px P * py P * py P)%Zmod) in *. set (w' := (1 - d * px P * px P * py P * py P)%Zmod) in *.
  assert (py P * z * (py P * z) - px P * z * (px P * z) = z * z * w)%Zmod as -> by (unfold w; ring [C]).
  assert ((1 + 1) * (z * z) - z * z * w = z * z * w')%Zmod as -> by (unfold w, w'; ring).
  assert (z * z ≠ Zmod.zero)%Zmod as Hzz by exact (F_nz_mul _ _ HZ HZ).
  split; [exact (F_nz_mul _ _ (F_nz_mul _ _ Hzz D1) (F_nz_mul _ _ Hzz D2))|]. split.
  - transitivity (z * z * (z * z) * w' * (px (P ⊕ P) * w))%Zmod; [rewrite Ex; ring|ring].
  - transitivity (z * z * (z * z) * w * (py (P ⊕ P) * w'))%Zmod; [rewrite Ey; ring|ring].
Qed.

Definition times (k : nat) (t : Z * Z * Z) : Z * Z * Z := Nat.iter k dbl t.

Lemma times_projective k t P : is_projective t P → is_projective (times k t) (zmul (2 ^ Z.of_nat k) P).
Proof.
  intros H. induction k as [|k IH]; [by rewrite zmul_1|].
  rewrite Nat2Z.inj_succ, Z.pow_succ_r by lia. replace (2 * 2 ^ Z.of_nat k) with (2 ^ Z.of_nat k + 2 ^ Z.of_nat k) by lia.
  rewrite zmul_add. by apply dbl_projective.
Qed.

(** The entry [c] is [2^k] times the entry [c0]. *)
Definition check_times (k : nat) (c0 c : ge_precomp) : bool :=
  let '(X, Y, Z_) := times k (twice_x c0, twice_y c0, 2) in
  eqb_p (mulp (twice_x c) Z_) (2 * X) && eqb_p (mulp (twice_y c) Z_) (2 * Y).

Lemma check_times_coordinates k c0 c P : has_coordinates c0 P → check_times k c0 c = true →
  has_coordinates c (zmul (2 ^ Z.of_nat k) P).
Proof.
  intros [EX EY] H. unfold check_times in H.
  assert (is_projective (times k (twice_x c0, twice_y c0, 2)) (zmul (2 ^ Z.of_nat k) P)) as T.
  { apply times_projective. unfold is_projective, projective. rewrite EX, EY, of_Z_2.
    split; [apply two_nonzero|]. split; ring. }
  destruct (times k _) as [[X Y] Z_]. destruct T as (HZ & TX & TY).
  apply andb_true_iff in H as [Hx%eqb_p_F Hy%eqb_p_F]. autorewrite with to_F in Hx, Hy. rewrite TX in Hx. rewrite TY in Hy.
  split; apply (F_cancel p p_prime [Z_]p _ _ HZ); [rewrite Hx|rewrite Hy]; ring.
Qed.

#[local] Opaque red check_times.

(** ** Rows *)

(** Entries of which each one is [step] more than the one before. *)
Fixpoint check_chain (step prev : ge_precomp) (rest : list ge_precomp) : bool :=
  match rest with
  | [] => true
  | c :: rest' => check_sum prev step c && check_entry c && check_chain step c rest'
  end.

Lemma check_chain_rep step prev rest Q P : has_coordinates step Q → has_coordinates prev P →
  check_chain step prev rest = true →
  ∀ j c, rest !! j = Some c → rep_precomp c (P ⊕ zmul (Z.of_nat j + 1) Q) ∧ has_coordinates c (P ⊕ zmul (Z.of_nat j + 1) Q).
Proof.
  intros HS. revert prev P. induction rest as [|c' rest IH]; intros prev P HP H j c Hj; [done|].
  cbn [check_chain] in H. rewrite !andb_true_iff in H. destruct H as [[H1 H2] H3].
  pose proof (check_sum_coordinates _ _ _ _ _ HP HS H1) as HC. destruct j as [|j].
  - injection Hj as <-. rewrite zmul_1. split; [by apply check_entry_rep|done].
  - destruct (IH _ _ HC H3 j c Hj) as [R C]. replace (Z.of_nat (S j) + 1) with (1 + (Z.of_nat j + 1)) by lia.
    by rewrite zmul_add, zmul_1, <- op_assoc.
Qed.

(** The multiples [P], [2 P], ..., [8 P]. *)
Definition is_row (row : list ge_precomp) (P : point) : Prop :=
  length row = 8%nat ∧
  ∀ j c, row !! j = Some c → rep_precomp c (zmul (Z.of_nat j + 1) P) ∧ has_coordinates c (zmul (Z.of_nat j + 1) P).

Definition check_row (c0 : ge_precomp) (rest : list ge_precomp) : bool :=
  check_entry c0 && check_chain c0 c0 rest && (length rest =? 7)%nat.

Lemma check_row_rep c0 rest P : has_coordinates c0 P → check_row c0 rest = true → is_row (c0 :: rest) P.
Proof.
  intros HP H. unfold check_row in H. rewrite !andb_true_iff, Nat.eqb_eq in H. destruct H as [[H1 H2] H3].
  split; [by cbn; rewrite H3|]. intros [|j] c Hj.
  - injection Hj as <-. rewrite zmul_1. split; [by apply check_entry_rep|done].
  - pose proof (check_chain_rep _ _ _ _ _ HP HP H2 j c Hj) as R.
    replace (Z.of_nat (S j) + 1) with (1 + (Z.of_nat j + 1)) by lia. by rewrite zmul_add, zmul_1.
Qed.

(** The rows after one that ends with [last]. *)
Fixpoint check_rows (last : ge_precomp) (rows : list (list ge_precomp)) : bool :=
  match rows with
  | [] => true
  | [] :: _ => false
  | (c0 :: rest) :: rows' => check_times 5 last c0 && check_row c0 rest && check_rows (List.last rest c0) rows'
  end.

Lemma is_row_last c0 rest P : is_row (c0 :: rest) P → has_coordinates (List.last rest c0) (zmul 8 P).
Proof.
  intros [Hl H]. apply (H 7%nat).
  destruct rest as [|c1 [|c2 [|c3 [|c4 [|c5 [|c6 [|c7 [|c8 rest]]]]]]]]; try done.
Qed.

Lemma check_rows_rep last rows P : has_coordinates last (zmul 8 P) → check_rows last rows = true →
  ∀ i row, rows !! i = Some row → is_row row (zmul (256 ^ (Z.of_nat i + 1)) P).
Proof.
  revert last P. induction rows as [|[|c0 rest] rows IH]; intros last P HP H i row Hi; [done|done|].
  cbn [check_rows] in H. rewrite !andb_true_iff in H. destruct H as [[H1 H2] H3].
  apply (check_times_coordinates 5 _ _ _ HP) in H1. rewrite zmul_mul in H1.
  assert (2 ^ Z.of_nat 5 * 8 = 256) as E256 by done. rewrite E256 in H1.
  pose proof (check_row_rep _ _ _ H1 H2) as R. destruct i as [|i].
  - injection Hi as <-. exact R.
  - replace (256 ^ (Z.of_nat (S i) + 1)) with (256 ^ (Z.of_nat i + 1) * 256)
      by (rewrite Nat2Z.inj_succ, <- Z.add_1_l, <- Z.add_assoc, (Z.pow_add_r 256 1); lia).
    rewrite <- zmul_mul. apply (IH _ _ (is_row_last _ _ _ R) H3 i row Hi).
Qed.

(** ** The tables *)

Definition check_first (c : ge_precomp) : bool :=
  eqb_p (twice_x c) (2 * 15112221349535400772501151409588531511454012693041857206046113283949847762202) &&
  eqb_p (twice_y c) (2 * 46316835694926478169428394003475163141307993866256225615783033603165251855960).

Lemma check_first_coordinates c : check_first c = true → has_coordinates c base.
Proof.
  intros H. unfold check_first in H. apply andb_true_iff in H as [Hx%eqb_p_F Hy%eqb_p_F].
  rewrite Zmod.of_Z_mul, of_Z_2 in Hx, Hy. by split.
Qed.

Definition check_base (rows : list (list ge_precomp)) : bool :=
  match rows with
  | (c0 :: rest) :: rows' => check_first c0 && check_row c0 rest && check_rows (List.last rest c0) rows'
  | _ => false
  end.

Lemma ge_base_checked : check_base ge_base = true.
Proof. vm_cast_no_check (eq_refl true). Qed.

(** [ge_base[i][j]] is [(j + 1) * 256^i] times the base point. *)
Lemma ge_base_rep i row : ge_base !! i = Some row → is_row row (zmul (256 ^ Z.of_nat i) base).
Proof.
  pose proof ge_base_checked as H. destruct ge_base as [|[|c0 rest] rows]; [done|done|].
  cbn [check_base] in H. rewrite !andb_true_iff in H. destruct H as [[H1 H2] H3].
  pose proof (check_row_rep _ _ _ (check_first_coordinates _ H1) H2) as R. destruct i as [|i].
  - intros [= <-]. rewrite Z.pow_0_r, zmul_1. exact R.
  - intros Hi. rewrite Nat2Z.inj_succ, <- Z.add_1_r. by apply (check_rows_rep _ _ _ (is_row_last _ _ _ R) H3 i).
Qed.

(** The entries of [ge_Bi], each of which is twice the base point more than the one
    before. *)
Definition check_Bi (rows : list (list ge_precomp)) (Bi : list ge_precomp) : bool :=
  match rows, Bi with
  | (_ :: c2 :: _) :: _, c0 :: rest => check_first c0 && check_entry c0 && check_chain c2 c0 rest && (length rest =? 7)%nat
  | _, _ => false
  end.

Lemma ge_Bi_checked : check_Bi ge_base ge_Bi = true.
Proof. vm_cast_no_check (eq_refl true). Qed.

Lemma check_Bi_rep rows Bi P : (∀ row, rows !! 0%nat = Some row → is_row row base) → P = base → check_Bi rows Bi = true →
  length Bi = 8%nat ∧ ∀ j c, Bi !! j = Some c → rep_precomp c (zmul (2 * Z.of_nat j + 1) P).
Proof.
  intros Hrow -> H. destruct rows as [|[|c1 [|c2 row]] rows], Bi as [|c0 rest]; try done.
  destruct (Hrow _ eq_refl) as [_ R]. destruct (R 1%nat c2 eq_refl) as [_ C2]. clear Hrow R.
  unfold check_Bi in H. rewrite !andb_true_iff, Nat.eqb_eq in H. destruct H as [[[H1%check_first_coordinates H2] H3] H4].
  split; [by cbn [length]; rewrite H4|]. intros [|j] c Hj.
  - injection Hj as <-. rewrite zmul_1. by apply check_entry_rep.
  - destruct (check_chain_rep _ _ _ _ _ C2 H1 H3 j c Hj) as [R _]. rewrite zmul_mul in R.
    replace (2 * Z.of_nat (S j) + 1) with (1 + (Z.of_nat j + 1) * (Z.of_nat 1 + 1)) by lia. by rewrite zmul_add, zmul_1.
Qed.

(** [ge_Bi[j]] is [2 j + 1] times the base point. *)
Lemma ge_Bi_rep : length ge_Bi = 8%nat ∧ ∀ j c, ge_Bi !! j = Some c → rep_precomp c (zmul (2 * Z.of_nat j + 1) base).
Proof.
  apply (check_Bi_rep ge_base); [|done|exact ge_Bi_checked]. intros row Hr. apply ge_base_rep in Hr. by rewrite zmul_1 in Hr.
Qed.

(** ** Theorems *)

(** The tables of constants: entry [j] of row [i] of [ge_base] is [(j + 1) * 256^i] times
    the base point, and entry [j] of [ge_Bi] is [2 j + 1] times the base point, whose
    second coordinate is 4/5. *)
Theorem base_tables_exact :
  (py base * [5]p = [4]p)%Zmod ∧
  (∀ i row j c, ge_base !! i = Some row → row !! j = Some c →
     rep_precomp c (zmul ((Z.of_nat j + 1) * 256 ^ Z.of_nat i) base)) ∧
  (∀ j c, ge_Bi !! j = Some c → rep_precomp c (zmul (2 * Z.of_nat j + 1) base)).
Proof.
  split; [apply base_is_four_fifths|]. split; [|exact (proj2 ge_Bi_rep)]. intros i row j c Hi Hj.
  destruct (ge_base_rep i row Hi) as [_ R]. destruct (R j c Hj) as [R' _]. by rewrite zmul_mul in R'.
Qed.
