(* ===== verification/Scalars.v ===== *)
(** * Scalars ([crypto/crypto-ops.c])

    The arithmetic of numbers modulo the order of the base point: [sc_reduce],
    [sc_reduce32], [sc_add], [sc_sub], [sc_mulsub], [sc_check] and [sc_isnonzero]. The
    functions load limbs of 21 bits, run a fixed sequence of carries and reductions over
    them, and pack the last twelve into bytes. The sequence is a list of [step]s over the
    list of the limbs, in the order of the code; a sum or a product outside of 64 bits
    is [Abort]. *)

From S2P Require Import Prelude Streams SignedArithmetic.

Local Open Scope Z_scope.

(** The order of the base point. *)
Definition order : Z := 2 ^ 252 + 27742317777372353535851937790883648493.

(** ** Loading limbs *)

(** Where each limb is: whether four bytes are loaded, from which one, and by how many
    bits they are shifted. *)
Definition limb_places : list (bool * nat * Z) :=
  [(false, 0%nat, 0); (true, 2%nat, 5); (false, 5%nat, 2); (true, 7%nat, 7); (true, 10%nat, 4); (false, 13%nat, 1);
   (true, 15%nat, 6); (false, 18%nat, 3); (false, 21%nat, 0); (true, 23%nat, 5); (false, 26%nat, 2); (true, 28%nat, 7);
   (true, 31%nat, 4); (false, 34%nat, 1); (true, 36%nat, 6); (false, 39%nat, 3); (false, 42%nat, 0); (true, 44%nat, 5);
   (false, 47%nat, 2); (true, 49%nat, 7); (true, 52%nat, 4); (false, 55%nat, 1); (true, 57%nat, 6); (true, 60%nat, 3)].

Definition load_shifted (s : list Z) (place : bool * nat * Z) : outcome Z :=
  let '(four, offset, shift) := place in
  t ← (if four then load_4 s offset else load_3 s offset);
  mret (Z.shiftr t shift).

(** The limbs, of which the last one keeps all its bits. *)
Fixpoint load_places (s : list Z) (places : list (bool * nat * Z)) : outcome (list Z) :=
  match places with
  | [] => mret []
  | [place] => t ← load_shifted s place; mret [t]
  | place :: places' =>
      t ← load_shifted s place;
      rest ← load_places s places';
      mret (Z.land 2097151 t :: rest)
  end.

(** ** Carries and reductions *)

Inductive step :=
  | Round (i : nat)    (* [carry = (s + (1<<20)) >> 21] to the next limb *)
  | Down (i : nat)     (* [carry = s >> 21] to the next limb *)
  | Fold (j : nat)     (* the limb [j] into the limbs [j - 12] to [j - 7] *)
  | Clear (i : nat).   (* [s = 0] *)

Definition carry_limb (f : Z → Z → Z → outcome (Z * Z)) (i : nat) (s : list Z) : outcome (list Z) :=
  h ← at_ s (Z.of_nat i);
  n ← at_ s (Z.of_nat (S i));
  '(h, n) ← f 21 h n;
  mret (<[i := h]> (<[S i := n]> s)).

Definition add_mul (i j : nat) (c : Z) (s : list Z) : outcome (list Z) :=
  a ← at_ s (Z.of_nat j); t ← int64 (a * c);
  x ← at_ s (Z.of_nat i); x ← int64 (x + t);
  mret (<[i := x]> s).

Definition sub_mul (i j : nat) (c : Z) (s : list Z) : outcome (list Z) :=
  a ← at_ s (Z.of_nat j); t ← int64 (a * c);
  x ← at_ s (Z.of_nat i); x ← int64 (x - t);
  mret (<[i := x]> s).

Definition fold_limb (j : nat) (s : list Z) : outcome (list Z) :=
  s ← add_mul (j - 12) j 666643 s;
  s ← add_mul (j - 11) j 470296 s;
  s ← add_mul (j - 10) j 654183 s;
  s ← sub_mul (j - 9) j 997805 s;
  s ← add_mul (j - 8) j 136657 s;
  sub_mul (j - 7) j 683901 s.

Definition run_step (st : step) (s : list Z) : outcome (list Z) :=
  match st with
  | Round i => carry_limb carry i s
  | Down i => carry_limb carry_floor i s
  | Fold j => fold_limb j s
  | Clear i => _ ← at_ s (Z.of_nat i); mret (<[i := 0]> s)
  end.

Fixpoint run (steps : list step) (s : list Z) : outcome (list Z) :=
  match steps with
  | [] => mret s
  | st :: steps' => s ← run_step st s; run steps' s
  end.

(** ** Packing *)

Definition pack (s : list Z) : outcome (list Z) :=
  match s with
  | s0 :: s1 :: s2 :: s3 :: s4 :: s5 :: s6 :: s7 :: s8 :: s9 :: s10 :: s11 :: _ =>
      mret [u8 (Z.shiftr s0 0); u8 (Z.shiftr s0 8); straddle (Z.shiftr s0 16) s1 5;
            u8 (Z.shiftr s1 3); u8 (Z.shiftr s1 11); straddle (Z.shiftr s1 19) s2 2;
            u8 (Z.shiftr s2 6); straddle (Z.shiftr s2 14) s3 7;
            u8 (Z.shiftr s3 1); u8 (Z.shiftr s3 9); straddle (Z.shiftr s3 17) s4 4;
            u8 (Z.shiftr s4 4); u8 (Z.shiftr s4 12); straddle (Z.shiftr s4 20) s5 1;
            u8 (Z.shiftr s5 7); straddle (Z.shiftr s5 15) s6 6;
            u8 (Z.shiftr s6 2); u8 (Z.shiftr s6 10); straddle (Z.shiftr s6 18) s7 3;
            u8 (Z.shiftr s7 5); u8 (Z.shiftr s7 13);
            u8 (Z.shiftr s8 0); u8 (Z.shiftr s8 8); straddle (Z.shiftr s8 16) s9 5;
            u8 (Z.shiftr s9 3); u8 (Z.shiftr s9 11); straddle (Z.shiftr s9 19) s10 2;
            u8 (Z.shiftr s10 6); straddle (Z.shiftr s10 14) s11 7;
            u8 (Z.shiftr s11 1); u8 (Z.shiftr s11 9); u8 (Z.shiftr s11 17)]
  | _ => Abort
  end.

(** ** The functions *)

(** The carries of the last rounds, the same in all functions. *)
Definition last_rounds : list step :=
  [Round 0; Round 2; Round 4; Round 6; Round 8; Round 10;
   Round 1; Round 3; Round 5; Round 7; Round 9; Round 11; Fold 12; Clear 12].
Definition last_downs : list step :=
  [Down 0; Down 1; Down 2; Down 3; Down 4; Down 5; Down 6; Down 7; Down 8; Down 9; Down 10; Down 11].
Definition final_downs : list step :=
  [Down 0; Down 1; Down 2; Down 3; Down 4; Down 5; Down 6; Down 7; Down 8; Down 9; Down 10].

(** From 24 limbs to 13. *)
Definition high_folds : list step :=
  [Fold 23; Fold 22; Fold 21; Fold 20; Fold 19; Fold 18;
   Round 6; Round 8; Round 10; Round 12; Round 14; Round 16; Round 7; Round 9; Round 11; Round 13; Round 15;
   Fold 17; Fold 16; Fold 15; Fold 14; Fold 13; Fold 12; Clear 12].

Definition finish (s : list Z) : outcome (list Z) :=
  s ← run (last_rounds ++ last_downs ++ [Fold 12] ++ final_downs) s; pack s.

Definition sc_reduce (s : list Z) : outcome (list Z) :=
  s ← load_places s limb_places;
  s ← run high_folds s;
  finish s.

Definition sc_0 : list Z := replicate 32 0.

Definition load_32 (s : list Z) : outcome (list Z) := load_places s (take 12 limb_places).

Definition sc_reduce32 (s : list Z) : outcome (list Z) :=
  s ← load_32 s; finish (s ++ [0]).

(** Limb by limb. *)
Fixpoint map2 (f : Z → Z → outcome Z) (a b : list Z) : outcome (list Z) :=
  match a, b with
  | x :: a', y :: b' => t ← f x y; rest ← map2 f a' b'; mret (t :: rest)
  | _, _ => mret []
  end.

Definition sc_add (a b : list Z) : outcome (list Z) :=
  a ← load_32 a; b ← load_32 b;
  s ← map2 (λ x y, int64 (x + y)) a b;
  finish (s ++ [0]).

Definition sc_sub (a b : list Z) : outcome (list Z) :=
  a ← load_32 a; b ← load_32 b;
  s ← map2 (λ x y, int64 (x - y)) a b;
  finish (s ++ [0]).

(** The products [a[i] * b[k - i]], by increasing [i]. *)
Definition products (a b : list Z) (k : Z) : outcome (list Z) :=
  mapM (λ i, x ← at_ a i; y ← at_ b (k - i); int64 (x * y)) (seqZ (Z.max 0 (k - 11)) (Z.min k 11 - Z.max 0 (k - 11) + 1)).

Definition mulsub_limb (a b c : list Z) (k : Z) : outcome Z :=
  if k =? 23 then mret 0
  else if k =? 22 then x ← at_ a 11; y ← at_ b 11; n ← int64 (- x); int64 (n * y)
  else
    ps ← products a b k;
    t ← sum_i64 ps;
    if k <=? 11 then z ← at_ c k; int64 (z - t) else int64 (- t).

Definition mulsub_rounds : list step :=
  [Round 0; Round 2; Round 4; Round 6; Round 8; Round 10; Round 12; Round 14; Round 16; Round 18; Round 20; Round 22;
   Round 1; Round 3; Round 5; Round 7; Round 9; Round 11; Round 13; Round 15; Round 17; Round 19; Round 21].

Definition sc_mulsub (a b c : list Z) : outcome (list Z) :=
  a ← load_32 a; b ← load_32 b; c ← load_32 c;
  s ← mapM (mulsub_limb a b c) (seqZ 0 24);
  s ← run mulsub_rounds s;
  s ← run high_folds s;
  finish s.

Definition signum (a : Z) : outcome Z := n ← int64 (- a); int64 (Z.shiftr a 63 - Z.shiftr n 63).

(** The sum of the signs of the differences, each at its bit. *)
Fixpoint signs (s : list Z) (i : nat) (shift : Z) (bounds : list Z) (acc : Z) : outcome Z :=
  match bounds with
  | [] => mret acc
  | b :: bounds' =>
      x ← load_4 s i; t ← int64 (b - x); t ← signum t;
      acc ← int64 (acc + cast64 (Z.shiftl t shift));
      signs s (i + 4) (shift + 1) bounds' acc
  end.

Definition sc_check (s : list Z) : outcome Z :=
  t ← signs s 0 0 [1559614444; 1477600026; 2734136534; 350157278; 0; 0; 0; 268435456] 0;
  mret (cast32 (Z.shiftr t 8)).

Definition sc_isnonzero (s : list Z) : outcome Z :=
  bs ← mapM (at_ s) (seqZ 0 32);
  t ← int32 (foldl Z.lor 0 bs - 1);
  mret (Z.shiftr t 8 + 1).
