(* ===== verification/ScalarTheorems.v ===== *)
(** * Correctness of the arithmetic of scalars

    The sequences of carries and reductions of [Scalars] do not overflow and keep the
    number modulo the order: an analysis of the ranges of the limbs, which runs over the
    list of steps, is sound ([step_sound]), and accepts the sequences of the code. The
    results are the canonical representatives. *)

From S2P Require Import Prelude Streams SignedArithmetic FieldElement FieldTheorems Scalars.

Local Open Scope Z_scope.

(** ** Ranges of limbs *)

(** The least and the greatest value of a limb; [None] for one that is not used any
    more. *)
Definition in_bounds (b : option (Z * Z)) (x : Z) : Prop :=
  match b with Some (lo, hi) => lo ≤ x ≤ hi | None => True end.

Definition live (b : option (Z * Z)) (x : Z) : Z := match b with Some _ => x | None => 0 end.

(** The number that the limbs in use stand for. *)
Fixpoint live_value (bs : list (option (Z * Z))) (s : list Z) : Z :=
  match bs, s with
  | b :: bs', x :: s' => live b x + 2 ^ 21 * live_value bs' s'
  | _, _ => 0
  end.

(** The limbs are in their ranges and stand for [V]. *)
Definition models (bs : list (option (Z * Z))) (s : list Z) (V : Z) : Prop := Forall2 in_bounds bs s ∧ live_value bs s = V.

Definition weight21 (i : nat) : Z := 2 ^ (21 * Z.of_nat i).

Lemma weight21_S i : weight21 (S i) = 2 ^ 21 * weight21 i.
Proof. unfold weight21. rewrite <- Z.pow_add_r by lia. f_equal. lia. Qed.

Lemma live_value_set bs s i b x b' x' : bs !! i = Some b → s !! i = Some x →
  live_value (<[i := b']> bs) (<[i := x']> s) = live_value bs s + (live b' x' - live b x) * weight21 i.
Proof.
  revert s i. induction bs as [|b0 bs IH]; intros [|x0 s] [|i] Hb Hx; try done.
  - change (live b' x' + 2 ^ 21 * live_value bs s = live b0 x0 + 2 ^ 21 * live_value bs s + (live b' x' - live b x) * weight21 0).
    injection Hb as ->. injection Hx as ->. unfold weight21. rewrite Z.mul_0_r, Z.pow_0_r. lia.
  - change (live b0 x0 + 2 ^ 21 * live_value (<[i := b']> bs) (<[i := x']> s) =
      live b0 x0 + 2 ^ 21 * live_value bs s + (live b' x' - live b x) * weight21 (S i)).
    rewrite (IH _ _ Hb Hx), weight21_S. lia.
Qed.

Lemma models_set bs s V i b x b' x' : models bs s V → bs !! i = Some b → s !! i = Some x → in_bounds b' x' →
  models (<[i := b']> bs) (<[i := x']> s) (V + (live b' x' - live b x) * weight21 i).
Proof.
  intros [Hok <-] Hb Hx Hb'. split; [by apply Forall2_insert|by apply live_value_set].
Qed.

Lemma models_lookup bs s V i b : models bs s V → bs !! i = Some b → ∃ x, s !! i = Some x ∧ in_bounds b x.
Proof. intros [Hok _] Hb. by apply (Forall2_lookup_l _ _ _ _ _ Hok). Qed.

(** ** The analysis *)

Definition fits (lo hi : Z) : bool := (- 2 ^ 63 <=? lo) && (hi <? 2 ^ 63).

Lemma fits_int64 lo hi x : fits lo hi = true → lo ≤ x ≤ hi → int64 x = Ret x.
Proof.
  unfold fits, int64. intros H Hx. apply andb_true_iff in H as [?%Z.leb_le ?%Z.ltb_lt]. case_bool; [done|].
  bool_to_prop. lia.
Qed.

Definition carry_bounds (half : Z) (i : nat) (bs : list (option (Z * Z))) : option (list (option (Z * Z))) :=
  match bs !! i, bs !! S i with
  | Some (Some (lo, hi)), Some (Some (nlo, nhi)) =>
      let qlo := (lo + half) / 2 ^ 21 in
      let qhi := (hi + half) / 2 ^ 21 in
      if fits (lo - 2 ^ 21) (hi + 2 ^ 21) && fits (nlo + qlo) (nhi + qhi) then
        Some (<[i := Some (- half, 2 ^ 21 - 1 - half)]> (<[S i := Some (nlo + qlo, nhi + qhi)]> bs))
      else None
  | _, _ => None
  end.

(** The range of [x + a * c] for [sub = false], of [x - a * c] for [sub = true]. *)
Definition mul_bounds (sub : bool) (i j : nat) (c : Z) (bs : list (option (Z * Z))) : option (list (option (Z * Z))) :=
  match bs !! i, bs !! j with
  | Some (Some (lo, hi)), Some (Some (alo, ahi)) =>
      let lo' := if sub then lo - ahi * c else lo + alo * c in
      let hi' := if sub then hi - alo * c else hi + ahi * c in
      if negb (i =? j)%nat && fits (alo * c) (ahi * c) && fits lo' hi' then Some (<[i := Some (lo', hi')]> bs) else None
  | _, _ => None
  end.

Definition fold_bounds (j : nat) (bs : list (option (Z * Z))) : option (list (option (Z * Z))) :=
  if (12 <=? j)%nat then
    bs ← mul_bounds false (j - 12) j 666643 bs;
    bs ← mul_bounds false (j - 11) j 470296 bs;
    bs ← mul_bounds false (j - 10) j 654183 bs;
    bs ← mul_bounds true (j - 9) j 997805 bs;
    bs ← mul_bounds false (j - 8) j 136657 bs;
    bs ← mul_bounds true (j - 7) j 683901 bs;
    Some (<[j := None]> bs)
  else None.

Definition step_bounds (st : step) (bs : list (option (Z * Z))) : option (list (option (Z * Z))) :=
  match st with
  | Round i => carry_bounds (2 ^ 20) i bs
  | Down i => carry_bounds 0 i bs
  | Fold j => fold_bounds j bs
  | Clear i => match bs !! i with Some None => Some (<[i := Some (0, 0)]> bs) | _ => None end
  end.

Fixpoint run_bounds (steps : list step) (bs : list (option (Z * Z))) : option (list (option (Z * Z))) :=
  match steps with
  | [] => Some bs
  | st :: steps' => bs ← step_bounds st bs; run_bounds steps' bs
  end.

(** ** The analysis is sound *)

(** What a carry does: [half] is what is added before the shift. *)
Definition is_carry (half : Z) (f : Z → Z → Z → outcome (Z * Z)) : Prop :=
  ∀ lo hi h n nlo nhi, lo ≤ h ≤ hi → fits (lo - 2 ^ 21) (hi + 2 ^ 21) = true →
  nlo ≤ n + (h + half) / 2 ^ 21 ≤ nhi → fits nlo nhi = true →
  f 21 h n = Ret ((h + half) mod 2 ^ 21 - half, n + (h + half) / 2 ^ 21).

Lemma cast_shift c : - 2 ^ 63 ≤ c * 2 ^ 21 < 2 ^ 63 → cast64 (Z.shiftl c 21) = c * 2 ^ 21.
Proof. intros H. by rewrite Z.shiftl_mul_pow2, cast64_small. Qed.

Lemma carry_is : is_carry (2 ^ 20) carry.
Proof.
  intros lo hi h n nlo nhi Hh Hf Hn Hfn. unfold carry. change (2 ^ (21 - 1)) with (2 ^ 20).
  pose proof (Z.div_mod (h + 2 ^ 20) (2 ^ 21) ltac:(done)) as D. pose proof (Z.mod_pos_bound (h + 2 ^ 20) (2 ^ 21) ltac:(done)) as M.
  pose proof Hf as [?%Z.leb_le ?%Z.ltb_lt]%andb_true_iff.
  rewrite (fits_int64 _ _ (h + 2 ^ 20) Hf) by lia. cbn [mbind outcome_bind]. rewrite Z.shiftr_div_pow2 by done.
  set (q := (h + 2 ^ 20) / 2 ^ 21) in *. rewrite (fits_int64 _ _ _ Hfn Hn). cbn [mbind outcome_bind].
  rewrite cast_shift by lia. rewrite (fits_int64 _ _ (h - q * 2 ^ 21) (eq_refl : fits (- 2 ^ 62) (2 ^ 62) = true)) by lia.
  cbn. do 2 f_equal. lia.
Qed.

Lemma carry_floor_is : is_carry 0 carry_floor.
Proof.
  intros lo hi h n nlo nhi Hh Hf Hn Hfn. rewrite Z.add_0_r in *. unfold carry_floor.
  pose proof (Z.div_mod h (2 ^ 21) ltac:(done)) as D. pose proof (Z.mod_pos_bound h (2 ^ 21) ltac:(done)) as M.
  pose proof Hf as [?%Z.leb_le ?%Z.ltb_lt]%andb_true_iff.
  rewrite Z.shiftr_div_pow2 by done. set (q := h / 2 ^ 21) in *. rewrite (fits_int64 _ _ _ Hfn Hn). cbn [mbind outcome_bind].
  rewrite cast_shift by lia. rewrite (fits_int64 _ _ (h - q * 2 ^ 21) (eq_refl : fits (- 2 ^ 62) (2 ^ 62) = true)) by lia.
  cbn. do 2 f_equal. lia.
Qed.

Lemma at_nat {A} (l : list A) i x : l !! i = Some x → at_ l (Z.of_nat i) = Ret x.
Proof. intros H. apply at_Some; [lia|]. by rewrite Nat2Z.id. Qed.

Lemma carry_limb_sound half f i bs bs' s V : is_carry half f → 0 ≤ half → carry_bounds half i bs = Some bs' → models bs s V →
  yields (carry_limb f i s) (λ s', models bs' s' V).
Proof.
  intros Hf Hh Hb Hm. unfold carry_bounds in Hb. destruct (bs !! i) as [[[lo hi]|]|] eqn:Ei; try done.
  destruct (bs !! S i) as [[[nlo nhi]|]|] eqn:En; try done. cbv zeta in Hb. case_match eqn:F; [|done]. injection Hb as <-.
  apply andb_true_iff in F as [F1 F2].
  destruct (models_lookup _ _ _ _ _ Hm Ei) as (h & Eh & Rh). destruct (models_lookup _ _ _ _ _ Hm En) as (n & Enn & Rn).
  cbn in Rh, Rn. unfold carry_limb. rewrite (at_nat _ _ _ Eh), (at_nat _ _ _ Enn). cbn [mbind outcome_bind].
  pose proof (Z.div_le_mono (lo + half) (h + half) (2 ^ 21) ltac:(done) ltac:(lia)).
  pose proof (Z.div_le_mono (h + half) (hi + half) (2 ^ 21) ltac:(done) ltac:(lia)).
  pose proof (Z.div_mod (h + half) (2 ^ 21) ltac:(done)) as D. pose proof (Z.mod_pos_bound (h + half) (2 ^ 21) ltac:(done)) as M.
  rewrite (Hf lo hi h n _ _ Rh F1 ltac:(split; apply Z.add_le_mono; [apply Rn|eassumption|apply Rn|eassumption]) F2).
  apply yields_ret. set (q := (h + half) / 2 ^ 21) in *. set (r := (h + half) mod 2 ^ 21) in *.
  set (B := Some (nlo + _, nhi + _)).
  assert (in_bounds B (n + q)) as HB by (unfold B, in_bounds; lia).
  pose proof (models_set _ _ _ _ _ _ _ _ Hm En Enn HB) as Hm1.
  assert (in_bounds (Some (- half, 2 ^ 21 - 1 - half)) (r - half)) as HR by (unfold in_bounds; lia).
  pose proof (models_set _ _ _ i (Some (lo, hi)) h _ _ Hm1 ltac:(by rewrite list_lookup_insert_ne by lia)
    ltac:(by rewrite list_lookup_insert_ne by lia) HR) as Hm2.
  cbn [live] in Hm2. rewrite weight21_S in Hm2. replace V with (V + (n + q - n) * (2 ^ 21 * weight21 i) + (r - half - h) * weight21 i); [done|].
  replace (r - half - h) with (- (2 ^ 21 * q)) by lia. lia.
Qed.

(** A limb [x] becomes [x + a * c] or [x - a * c]. *)
Lemma mul_limb_sound (sub : bool) i j c bs bs' s V a : 0 ≤ c → mul_bounds sub i j c bs = Some bs' → models bs s V → s !! j = Some a →
  yields (if sub then sub_mul i j c s else add_mul i j c s)
    (λ s', models bs' s' (V + (if sub then - c else c) * a * weight21 i) ∧ s' !! j = Some a ∧ bs' !! j = bs !! j).
Proof.
  intros Hc Hb Hm Ea. unfold mul_bounds in Hb. destruct (bs !! i) as [[[lo hi]|]|] eqn:Ei; try done.
  destruct (bs !! j) as [[[alo ahi]|]|] eqn:Ej; try done. cbv zeta in Hb. case_match eqn:F; [|done]. injection Hb as <-.
  rewrite !andb_true_iff in F. destruct F as [[N%negb_true_iff%Nat.eqb_neq F1] F2].
  destruct (models_lookup _ _ _ _ _ Hm Ei) as (x & Ex & Rx). destruct (models_lookup _ _ _ _ _ Hm Ej) as (a' & Ea' & Ra).
  rewrite Ea in Ea'. injection Ea' as <-. cbn in Rx, Ra.
  assert (alo * c ≤ a * c ≤ ahi * c) as Rp by (split; apply Z.mul_le_mono_nonneg_r; lia).
  set (x' := if sub then x - a * c else x + a * c).
  assert ((if sub then sub_mul i j c s else add_mul i j c s) = Ret (<[i := x']> s)) as ->.
  { unfold sub_mul, add_mul. rewrite !(at_nat _ _ _ Ea), !(at_nat _ _ _ Ex). cbn [mbind outcome_bind].
    rewrite !(fits_int64 _ _ _ F1 Rp). cbn [mbind outcome_bind]. unfold x'.
    destruct sub; rewrite (fits_int64 _ _ _ F2) by lia; done. }
  exists (<[i := x']> s). split; [done|]. split; [|by rewrite !list_lookup_insert_ne].
  set (B := Some _). assert (in_bounds B x') as HB by (unfold B, x', in_bounds; destruct sub; lia).
  pose proof (models_set _ _ _ _ _ _ _ _ Hm Ei Ex HB) as Hm'. cbn [live B] in Hm'.
  replace ((if sub then - c else c) * a) with (x' - x) by (unfold x'; destruct sub; lia). exact Hm'.
Qed.

(** The coefficients of a reduction stand for [2^252] modulo the order. *)
Lemma fold_coefficients : 666643 + 470296 * 2 ^ 21 + 654183 * 2 ^ 42 - 997805 * 2 ^ 63 + 136657 * 2 ^ 84 - 683901 * 2 ^ 105 =
  2 ^ 252 - order.
Proof. reflexivity. Qed.

Lemma weight21_add i k : weight21 (i + k) = weight21 i * weight21 k.
Proof. unfold weight21. rewrite <- Z.pow_add_r by lia. f_equal. lia. Qed.

Lemma fold_limb_sound j bs bs' s V a : fold_bounds j bs = Some bs' → models bs s V → s !! j = Some a →
  yields (fold_limb j s) (λ s', models bs' s' (V - a * weight21 (j - 12) * order)).
Proof.
  intros Hb Hm Ea. unfold fold_bounds in Hb. destruct (Nat.leb_spec 12 j) as [Hj|]; [|done].
  repeat lazymatch type of Hb with
  | mbind _ (mul_bounds ?sub ?i ?j ?c ?bs) = _ =>
      let E := fresh "E" in destruct (mul_bounds sub i j c bs) as [?|] eqn:E; [|done]; cbn [mbind option_bind] in Hb
  end. injection Hb as <-. unfold fold_limb.
  eapply yields_bind; [apply (mul_limb_sound false _ _ 666643 _ _ _ _ _ ltac:(done) E Hm Ea)|]. clear Hm Ea. intros s1 (Hm & Ea & J1).
  eapply yields_bind; [apply (mul_limb_sound false _ _ 470296 _ _ _ _ _ ltac:(done) E0 Hm Ea)|]. clear Hm Ea. intros s2 (Hm & Ea & J2).
  eapply yields_bind; [apply (mul_limb_sound false _ _ 654183 _ _ _ _ _ ltac:(done) E1 Hm Ea)|]. clear Hm Ea. intros s3 (Hm & Ea & J3).
  eapply yields_bind; [apply (mul_limb_sound true _ _ 997805 _ _ _ _ _ ltac:(done) E2 Hm Ea)|]. clear Hm Ea. intros s4 (Hm & Ea & J4).
  eapply yields_bind; [apply (mul_limb_sound false _ _ 136657 _ _ _ _ _ ltac:(done) E3 Hm Ea)|]. clear Hm Ea. intros s5 (Hm & Ea & J5).
  eapply yields_impl; [apply (mul_limb_sound true _ _ 683901 _ _ _ _ _ ltac:(done) E4 Hm Ea)|]. clear Hm Ea. intros s6 (Hm & Ea & J6).
  assert (∃ b, l4 !! j = Some (Some b)) as [b Eb].
  { rewrite J6, J5, J4, J3, J2, J1. unfold mul_bounds in E. destruct (bs !! (j - 12)%nat) as [[[? ?]|]|]; try done.
    destruct (bs !! j) as [[[? ?]|]|]; try done. eauto. }
  pose proof (models_set _ _ _ j _ a None a Hm Eb Ea I) as Hm'. rewrite (list_insert_id s6 j a Ea) in Hm'. cbn [live] in Hm'.
  replace (j - 11)%nat with (j - 12 + 1)%nat in Hm' by lia. replace (j - 10)%nat with (j - 12 + 2)%nat in Hm' by lia.
  replace (j - 9)%nat with (j - 12 + 3)%nat in Hm' by lia. replace (j - 8)%nat with (j - 12 + 4)%nat in Hm' by lia.
  replace (j - 7)%nat with (j - 12 + 5)%nat in Hm' by lia. replace (weight21 j) with (weight21 (j - 12 + 12)) in Hm' by (f_equal; lia).
  rewrite !weight21_add in Hm'. set (w := weight21 (j - 12)) in *.
  replace (V - a * w * order) with (V + a * w * ((2 ^ 252 - order) - 2 ^ 252)) by lia. rewrite <- fold_coefficients.
  change (weight21 1) with (2 ^ 21) in Hm'. change (weight21 2) with (2 ^ 42) in Hm'. change (weight21 3) with (2 ^ 63) in Hm'.
  change (weight21 4) with (2 ^ 84) in Hm'. change (weight21 5) with (2 ^ 105) in Hm'. change (weight21 12) with (2 ^ 252) in Hm'.
  match type of Hm' with models _ _ ?v => replace (V + _) with v by ring end. exact Hm'.
Qed.

Definition only_carries (st : step) : bool := match st with Round _ | Down _ => true | _ => false end.

Lemma step_sound st bs bs' s V : step_bounds st bs = Some bs' → models bs s V →
  yields (run_step st s) (λ s', ∃ k, models bs' s' (V + k * order) ∧ (only_carries st = true → k = 0)).
Proof.
  intros Hb Hm. destruct st as [i|i|j|i]; cbn [run_step step_bounds] in *.
  - eapply yields_impl; [by apply (carry_limb_sound (2 ^ 20) carry i bs bs' s V carry_is)|]. intros s' H. exists 0. by rewrite Z.add_0_r.
  - eapply yields_impl; [by apply (carry_limb_sound 0 carry_floor i bs bs' s V carry_floor_is)|]. intros s' H. exists 0. by rewrite Z.add_0_r.
  - destruct (s !! j) as [a|] eqn:Ea.
    + eapply yields_impl; [by apply (fold_limb_sound j bs bs' s V a)|]. intros s' H. exists (- (a * weight21 (j - 12))).
      split; [|done]. by replace (V + - (a * weight21 (j - 12)) * order) with (V - a * weight21 (j - 12) * order) by lia.
    + exfalso. unfold fold_bounds, mul_bounds in Hb. destruct (Nat.leb_spec 12 j); [|done].
      destruct (bs !! (j - 12)%nat) as [[[? ?]|]|]; try done. destruct (bs !! j) as [[[? ?]|]|] eqn:Ej; try done.
      destruct (models_lookup _ _ _ _ _ Hm Ej) as (x & Ex & _). congruence.
  - destruct (bs !! i) as [[?|]|] eqn:Ei; try done. injection Hb as <-. destruct (models_lookup _ _ _ _ _ Hm Ei) as (x & Ex & _).
    rewrite (at_nat _ _ _ Ex). apply yields_ret. exists 0. split; [|done].
    pose proof (models_set _ _ _ i _ x (Some (0, 0)) 0 Hm Ei Ex ltac:(done)) as H. cbn [live] in H.
    by replace (V + 0 * order) with (V + (0 - 0) * weight21 i) by lia.
Qed.

Lemma run_sound steps bs bs' s V : run_bounds steps bs = Some bs' → models bs s V →
  yields (run steps s) (λ s', ∃ k, models bs' s' (V + k * order) ∧ (forallb only_carries steps = true → k = 0)).
Proof.
  revert bs s V. induction steps as [|st steps IH]; intros bs s V Hb Hm; cbn [run run_bounds] in *.
  - injection Hb as <-. apply yields_ret. exists 0. by rewrite Z.add_0_r.
  - destruct (step_bounds st bs) as [bs1|] eqn:Es; [|done]. eapply yields_bind; [by apply (step_sound st bs bs1)|].
    intros s1 (k1 & Hm1 & Z1). eapply yields_impl; [by apply (IH bs1)|]. intros s' (k & Hm' & Zk). exists (k1 + k).
    split; [by replace (V + (k1 + k) * order) with (V + k1 * order + k * order) by lia|].
    intros [H1 H2]%andb_true_iff. rewrite Z1, Zk by done. done.
Qed.

(** ** From the limbs to the bytes *)

Lemma live_value_app bs1 bs2 s1 s2 : length bs1 = length s1 →
  live_value (bs1 ++ bs2) (s1 ++ s2) = live_value bs1 s1 + weight21 (length s1) * live_value bs2 s2.
Proof.
  revert s1. induction bs1 as [|b bs1 IH]; intros [|x s1] Hl; try done; cbn [app live_value length].
  - unfold weight21. rewrite Z.mul_0_r, Z.pow_0_r. lia.
  - rewrite IH by (by injection Hl). rewrite weight21_S. lia.
Qed.

Lemma live_value_dead bs s : forallb (λ b, bool_decide (b = None)) bs = true → live_value bs s = 0.
Proof.
  revert s. induction bs as [|b bs IH]; intros [|x s] H; try done. cbn [forallb live_value] in *.
  apply andb_true_iff in H as [->%bool_decide_eq_true H]. rewrite IH by done. cbn [live]. lia.
Qed.

(** The least and the greatest number that the limbs can stand for. *)
Definition lowest (b : option (Z * Z)) : Z := match b with Some (lo, _) => lo | None => 0 end.
Definition highest (b : option (Z * Z)) : Z := match b with Some (_, hi) => hi | None => 0 end.

Lemma live_value_range bs s : Forall2 in_bounds bs s →
  live_value bs (lowest <$> bs) ≤ live_value bs s ≤ live_value bs (highest <$> bs).
Proof.
  induction 1 as [|b x bs s Hb _ IH]; [done|]. cbn [fmap list_fmap live_value].
  assert (live b (lowest b) ≤ live b x ≤ live b (highest b)) by (destruct b as [[lo hi]|]; cbn in *; lia). lia.
Qed.

(** A limb of 21 bits. *)
Definition digit21 : option (Z * Z) := Some (0, 2 ^ 21 - 1).

Lemma digits_range n s : Forall2 in_bounds (replicate n digit21) s → 0 ≤ live_value (replicate n digit21) s < weight21 n.
Proof.
  revert s. induction n as [|n IH]; intros s H; [done|].
  destruct s as [|x s]; [by inversion H|]. cbn [replicate] in H. inversion_clear H as [|? ? ? ? Hx H'].
  cbn [replicate live_value]. rewrite weight21_S. specialize (IH _ H'). unfold digit21 in Hx. cbn in Hx. cbn [live digit21]. lia.
Qed.

(** The limbs from the [n]-th one are the quotient. *)
Lemma split_digits n bs s V : models bs s V → take n bs = replicate n digit21 → (n ≤ length bs)%nat →
  ∃ low, V = low + weight21 n * live_value (drop n bs) (drop n s) ∧ 0 ≤ low < weight21 n ∧
    live_value (take n bs) (take n s) = low ∧ Forall2 in_bounds (take n bs) (take n s) ∧ Forall2 in_bounds (drop n bs) (drop n s).
Proof.
  intros [Hok HV] Hd Hn. pose proof (Forall2_length Hok) as Hl.
  assert (Forall2 in_bounds (take n bs) (take n s)) as Ht by (by apply Forall2_take).
  exists (live_value (take n bs) (take n s)). split; [|split; [rewrite Hd; apply digits_range; by rewrite <- Hd|
    split; [done|split; [done|by apply Forall2_drop]]]].
  rewrite <- HV, <- (take_drop n bs), <- (take_drop n s) at 1. rewrite live_value_app by (rewrite !length_take; lia).
  rewrite length_take_le by lia. done.
Qed.

Lemma pack_value s t rest V : length s = 11%nat → Forall2 in_bounds (replicate 11 digit21) s → 0 ≤ t < 2 ^ 25 →
  V = live_value (replicate 11 digit21) s + weight21 11 * t → pack (s ++ t :: rest) = Ret (le_bytes 32 V).
Proof.
  intros Hl Hs Ht ->. destruct s as [|s0 [|s1 [|s2 [|s3 [|s4 [|s5 [|s6 [|s7 [|s8 [|s9 [|s10 [|? ?]]]]]]]]]]]]; try done.
  do 11 (inversion_clear Hs as [|? ? ? ? ? Hs']; rename Hs' into Hs). clear Hs Hl.
  repeat match goal with H : in_bounds digit21 ?x |- _ => assert (0 ≤ x < 2 ^ 21) by (unfold digit21 in H; cbn in H; lia); clear H end.
  cbn [app pack]. match goal with |- mret ?l = _ => set (bytes := l) end.
  assert (is_bytes bytes) as Hb.
  { unfold bytes, straddle. repeat constructor; apply Z.mod_pos_bound; done. }
  assert (length bytes = 32%nat) as Hlen by done.
  cut (le_value bytes = live_value (replicate 11 digit21) [s0; s1; s2; s3; s4; s5; s6; s7; s8; s9; s10] + weight21 11 * t).
  { intros <-. rewrite <- Hlen, le_bytes_value by done. done. }
  assert (Z.shiftr s7 21 = 0 ∧ Z.shiftr t 25 = 0) as [E7 Et] by (rewrite !Z.shiftr_div_pow2, !Z.div_small by lia; done).
  unfold bytes. split_bytes. cbn [le_value live_value replicate live digit21]. change (weight21 11) with (2 ^ 231).
  rewrite !Z.shiftr_0_r, E7, Et. clear. lia.
Qed.

(** ** The last part of the functions *)

Lemma run_app l k s : run (l ++ k) s = (s ← run l s; run k s).
Proof.
  revert s. induction l as [|st l IH]; intros s; [done|]. cbn [app run]. destruct (run_step st s) as [s'| |]; [apply IH|done|done].
Qed.

(** The limbs up to the [n]-th one have 21 bits, the [n]-th one is in use, the others are
    not. *)
Definition digits_then (n : nat) (bs : list (option (Z * Z))) : bool :=
  match drop n bs with
  | Some _ :: rest => bool_decide (take n bs = replicate n digit21) && forallb (λ b, bool_decide (b = None)) rest
  | _ => false
  end.

Lemma digits_then_value n bs s V : digits_then n bs = true → models bs s V →
  ∃ low top rest, s = low ++ top :: rest ∧ length low = n ∧ Forall2 in_bounds (replicate n digit21) low ∧
    0 ≤ live_value (replicate n digit21) low < weight21 n ∧ V = live_value (replicate n digit21) low + weight21 n * top.
Proof.
  intros Hd Hm. unfold digits_then in Hd. destruct (drop n bs) as [|[b|] dead] eqn:E; try done.
  apply andb_true_iff in Hd as [Ht%bool_decide_eq_true Hn].
  assert (n ≤ length bs)%nat as Hl.
  { assert (length (drop n bs) = S (length dead)) as L by (by rewrite E). rewrite length_drop in L. lia. }
  destruct (split_digits n bs s V Hm Ht Hl) as (low & HV & Hlow & Elow & Flow & Fdrop). rewrite E in HV, Fdrop.
  destruct (drop n s) as [|top rest] eqn:Es; [by inversion Fdrop|]. rewrite Ht in Elow, Flow.
  exists (take n s), top, rest. rewrite <- Es, take_drop. rewrite Elow.
  split; [done|]. split; [apply Forall2_length in Flow; by rewrite length_replicate in Flow|]. split; [done|]. split; [done|].
  rewrite HV. cbn [live_value live]. rewrite live_value_dead by done. lia.
Qed.

Definition check_finish (bs : list (option (Z * Z))) : bool :=
  match run_bounds last_rounds bs with
  | Some bs1 =>
      (- 2 ^ 252 <=? live_value bs1 (lowest <$> bs1)) && (live_value bs1 (highest <$> bs1) <? 2 ^ 252) &&
      match run_bounds last_downs bs1 with
      | Some bs2 =>
          digits_then 12 bs2 &&
          match fold_bounds 12 bs2 with
          | Some bs3 => match run_bounds final_downs bs3 with Some bs4 => digits_then 11 bs4 | None => false end
          | None => false
          end
      | None => false
      end
  | None => false
  end.

(** The bytes of the canonical representative. *)
Lemma finish_spec bs s V : check_finish bs = true → models bs s V → finish s = Ret (le_bytes 32 (V mod order)).
Proof.
  intros Hc Hm. unfold check_finish in Hc. destruct (run_bounds last_rounds bs) as [bs1|] eqn:E1; [|done].
  rewrite !andb_true_iff in Hc. destruct Hc as [[Lo%Z.leb_le Hi%Z.ltb_lt] Hc].
  destruct (run_bounds last_downs bs1) as [bs2|] eqn:E2; [|done]. apply andb_true_iff in Hc as [D2 Hc].
  destruct (fold_bounds 12 bs2) as [bs3|] eqn:E3; [|done]. destruct (run_bounds final_downs bs3) as [bs4|] eqn:E4; [|done].
  unfold finish. rewrite run_app.
  destruct (run_sound _ _ _ _ _ E1 Hm) as (s1 & -> & k & Hm1 & _). cbn [mbind outcome_bind]. rewrite run_app.
  set (X := V + k * order) in *. pose proof (live_value_range _ _ (proj1 Hm1)) as RX. rewrite (proj2 Hm1) in RX.
  destruct (run_sound _ _ _ _ _ E2 Hm1) as (s2 & -> & k2 & Hm2 & K2). rewrite (K2 eq_refl), Z.mul_0_l, Z.add_0_r in Hm2.
  cbn [mbind outcome_bind].
  destruct (digits_then_value _ _ _ _ D2 Hm2) as (low & q & rest & Es2 & Llow & _ & Rlow & EX). change (weight21 12) with (2 ^ 252) in *.
  assert (s2 !! 12%nat = Some q) as Hq by (rewrite Es2; by apply list_lookup_middle).
  destruct (fold_limb_sound 12 _ _ _ _ q E3 Hm2 Hq) as (s3 & E & Hm3). cbn [app run run_step]. rewrite E. cbn [mbind outcome_bind].
  destruct (run_sound _ _ _ _ _ E4 Hm3) as (s4 & -> & k4 & Hm4 & K4). rewrite (K4 eq_refl), Z.mul_0_l, Z.add_0_r in Hm4.
  cbn [mbind outcome_bind]. change (weight21 (12 - 12)) with 1 in Hm4. rewrite Z.mul_1_r in Hm4.
  destruct (digits_then_value _ _ _ _ Hc Hm4) as (low' & t & rest' & -> & Llow' & Flow' & Rlow' & EX').
  change (weight21 11) with (2 ^ 231) in *.
  assert (q = 0 ∨ q = -1) as Q by (clear -Lo Hi RX Rlow EX; clearbody X; lia).
  assert (0 ≤ X - q * order < order) as RX'.
  { clear -Lo Hi RX Rlow EX Q. clearbody X. unfold order. destruct Q as [-> | ->]; lia. }
  rewrite (pack_value low' t rest' (X - q * order) Llow' Flow' ltac:(clear -RX' Rlow' EX'; clearbody X; unfold order in *; lia) EX'). do 2 f_equal.
  apply (Z.mod_unique _ _ (q - k)); [by left|]. unfold X. lia.
Qed.

(** ** Loading *)

(** The places are those of limbs of 21 bits, from the [i]-th one on, of [n] bytes. *)
Fixpoint places_ok (n i : nat) (places : list (bool * nat * Z)) : bool :=
  match places with
  | [] => false
  | [(four, offset, shift)] => four && (8 * Z.of_nat offset + shift =? 21 * Z.of_nat i) && (0 <=? shift) && (shift <=? 32) && (offset + 4 =? n)%nat
  | (four, offset, shift) :: places' =>
      (8 * Z.of_nat offset + shift =? 21 * Z.of_nat i) && (0 <=? shift) && (shift + 21 <=? (if four then 32 else 24)) &&
      (offset + 4 <=? n)%nat && places_ok n (S i) places'
  end.

Fixpoint places_bounds (places : list (bool * nat * Z)) : list (option (Z * Z)) :=
  match places with
  | [] => []
  | [(_, _, shift)] => [Some (0, 2 ^ (32 - shift) - 1)]
  | _ :: places' => digit21 :: places_bounds places'
  end.

Lemma load_shifted_value s four offset shift : is_bytes s → (offset + 4 ≤ length s)%nat → 0 ≤ shift →
  load_shifted s (four, offset, shift) =
  Ret ((le_value s / 2 ^ (8 * Z.of_nat offset)) mod 2 ^ (if four then 32 else 24) / 2 ^ shift).
Proof.
  intros Hs Hl Hsh. unfold load_shifted. destruct four; [rewrite load_4_value|rewrite load_3_value]; try (done || lia);
    cbn [mbind outcome_bind]; by rewrite Z.shiftr_div_pow2.
Qed.

Lemma div_mod_pow v w k n : 0 ≤ k → 0 ≤ n → k + n ≤ w → ((v mod 2 ^ w) / 2 ^ k) mod 2 ^ n = (v / 2 ^ k) mod 2 ^ n.
Proof.
  intros Hk Hn Hw. apply Z.bits_inj'. intros i Hi. destruct (Z.lt_ge_cases i n).
  - rewrite !Z.mod_pow2_bits_low, !Z.div_pow2_bits, Z.mod_pow2_bits_low by lia. done.
  - by rewrite !Z.mod_pow2_bits_high by lia.
Qed.

Lemma load_places_sound s places i : is_bytes s → places_ok (length s) i places = true →
  yields (load_places s places) (λ l, models (places_bounds places) l (le_value s / weight21 i)).
Proof.
  intros Hs. revert i. induction places as [|[[four offset] shift] places IH]; intros i H; [done|]. destruct places as [|place places].
  - cbn [places_ok load_places places_bounds] in *. rewrite !andb_true_iff, Z.eqb_eq, Nat.eqb_eq, !Z.leb_le in H.
    destruct H as [[[[-> Hi] Hsh] Hsh'] Hn]. rewrite load_shifted_value by (done || lia). apply yields_ret.
    pose proof (le_value_range _ Hs) as R. rewrite <- Hn in R.
    replace (8 * Z.of_nat (offset + 4)) with (8 * Z.of_nat offset + 32) in R by lia. rewrite Z.pow_add_r in R by lia.
    rewrite (Z.mod_small (le_value s / _)).
    2: { split; [apply Z.div_pos; lia|]. apply Z.div_lt_upper_bound; lia. }
    rewrite Z.div_div, <- Z.pow_add_r by lia. unfold weight21. rewrite <- Hi.
    split; [|cbn [live_value live]; lia]. constructor; [|constructor]. cbn. split; [apply Z.div_pos; lia|].
    assert (le_value s / 2 ^ (8 * Z.of_nat offset + shift) < 2 ^ (32 - shift)); [|lia].
    apply Z.div_lt_upper_bound; [lia|]. rewrite <- Z.pow_add_r by lia.
    replace (8 * Z.of_nat offset + shift + (32 - shift)) with (8 * Z.of_nat offset + 32) by lia. rewrite Z.pow_add_r by lia. lia.
  - change (places_ok (length s) i ((four, offset, shift) :: place :: places)) with
      ((8 * Z.of_nat offset + shift =? 21 * Z.of_nat i) && (0 <=? shift) && (shift + 21 <=? (if four then 32 else 24)) &&
       (offset + 4 <=? length s)%nat && places_ok (length s) (S i) (place :: places)) in H.
    rewrite !andb_true_iff, Z.eqb_eq, Nat.leb_le, !Z.leb_le in H. destruct H as [[[[Hi Hsh] Hsh'] Hn] H].
    change (load_places s ((four, offset, shift) :: place :: places)) with
      (t ← load_shifted s (four, offset, shift); rest ← load_places s (place :: places); mret (Z.land 2097151 t :: rest)).
    rewrite load_shifted_value by done. cbn [mbind outcome_bind].
    eapply yields_bind; [by apply IH|]. intros rest [Hok HV]. apply yields_ret.
    change (places_bounds ((four, offset, shift) :: place :: places)) with (digit21 :: places_bounds (place :: places)).
    rewrite Z.land_comm. change 2097151 with (Z.ones 21). rewrite Z.land_ones, div_mod_pow by (done || lia).
    rewrite Z.div_div, <- Z.pow_add_r, Hi by lia. fold (weight21 i).
    split.
    + constructor; [|done]. cbn. pose proof (Z.mod_pos_bound (le_value s / weight21 i) (2 ^ 21) ltac:(done)). lia.
    + cbn [live_value]. rewrite HV, weight21_S. cbn [live digit21]. rewrite (Z.mul_comm (2 ^ 21) (weight21 i)), <- Z.div_div by (done || unfold weight21; lia).
      pose proof (Z.div_mod (le_value s / weight21 i) (2 ^ 21) ltac:(done)). lia.
Qed.

(** ** The functions *)

(** Ranges of the limbs of 32 bytes. *)
Definition bounds_32 : list (option (Z * Z)) := places_bounds (take 12 limb_places).

Lemma load_32_sound s : is_bytes s → length s = 32%nat → yields (load_32 s) (λ l, models bounds_32 l (le_value s)).
Proof.
  intros Hs Hl. eapply yields_impl; [apply (load_places_sound s (take 12 limb_places) 0 Hs); rewrite Hl; reflexivity|].
  intros l H. unfold weight21 in H. by rewrite Z.mul_0_r, Z.pow_0_r, Z.div_1_r in H.
Qed.

Lemma models_snoc bs s V : models bs s V → models (bs ++ [Some (0, 0)]) (s ++ [0]) V.
Proof.
  intros [Hok HV]. split; [apply Forall2_app; [done|by repeat constructor]|].
  rewrite live_value_app by (by apply Forall2_length in Hok). cbn [live_value live]. lia.
Qed.

(** [s = s mod l], from 64 bytes. *)
Lemma sc_reduce_ret s : is_bytes s → length s = 64%nat → sc_reduce s = Ret (le_bytes 32 (le_value s mod order)).
Proof.
  intros Hs Hl. unfold sc_reduce.
  destruct (load_places_sound s limb_places 0 Hs) as (l & -> & Hm); [rewrite Hl; reflexivity|]. cbn [mbind outcome_bind].
  unfold weight21 in Hm. rewrite Z.mul_0_r, Z.pow_0_r, Z.div_1_r in Hm.
  destruct (run_bounds high_folds (places_bounds limb_places)) as [bs|] eqn:E; [|by vm_compute in E].
  destruct (run_sound _ _ _ _ _ E Hm) as (s1 & -> & k & Hm1 & _). cbn [mbind outcome_bind].
  rewrite (finish_spec bs _ _) with (2 := Hm1); [by rewrite Z.mod_add by done|].
  vm_compute in E. injection E as <-. by vm_compute.
Qed.

Lemma sc_reduce32_ret s : is_bytes s → length s = 32%nat → sc_reduce32 s = Ret (le_bytes 32 (le_value s mod order)).
Proof.
  intros Hs Hl. unfold sc_reduce32. destruct (load_32_sound s Hs Hl) as (l & -> & Hm). cbn [mbind outcome_bind].
  apply (finish_spec (bounds_32 ++ [Some (0, 0)])); [by vm_compute|by apply models_snoc].
Qed.

(** Sums and differences, limb by limb. *)
Fixpoint combine_bounds (sub : bool) (bs1 bs2 : list (option (Z * Z))) : option (list (option (Z * Z))) :=
  match bs1, bs2 with
  | [], [] => Some []
  | Some (lo, hi) :: bs1', Some (lo', hi') :: bs2' =>
      let l := if sub then lo - hi' else lo + lo' in
      let h := if sub then hi - lo' else hi + hi' in
      if fits l h then bs ← combine_bounds sub bs1' bs2'; Some (Some (l, h) :: bs) else None
  | _, _ => None
  end.

Lemma map2_sound (sub : bool) bs1 bs2 bs a b A B : combine_bounds sub bs1 bs2 = Some bs → models bs1 a A → models bs2 b B →
  yields (map2 (λ x y, int64 (if sub then x - y else x + y)) a b) (λ s, models bs s (if sub then A - B else A + B)).
Proof.
  intros H [Ha <-] [Hb <-]. revert bs2 bs b H Hb. induction Ha as [|b1 x bs1 a Hx _ IH]; intros bs2 bs b H Hb.
  - destruct bs2; [|done]. injection H as <-. inversion_clear Hb. apply yields_ret. by destruct sub.
  - destruct Hb as [|b2 y bs2 b Hy Hb]; [by destruct b1 as [[? ?]|]|].
    cbn [combine_bounds] in H. destruct b1 as [[lo hi]|]; [|done]. destruct b2 as [[lo' hi']|]; [|done].
    case_match eqn:F; [|done]. destruct (combine_bounds sub bs1 bs2) as [bs'|] eqn:E; [|done]. injection H as <-.
    cbn in Hx, Hy. cbn [map2].
    rewrite (fits_int64 _ _ (if sub then x - y else x + y) F) by (destruct sub; lia). cbn [mbind outcome_bind].
    eapply yields_bind; [by apply (IH bs2 bs')|]. intros rest [Hok HV]. apply yields_ret. split.
    + constructor; [cbn; destruct sub; lia|done].
    + cbn [live_value live]. rewrite HV. destruct sub; lia.
Qed.

Lemma sc_add_ret a b : is_bytes a → length a = 32%nat → is_bytes b → length b = 32%nat →
  sc_add a b = Ret (le_bytes 32 ((le_value a + le_value b) mod order)).
Proof.
  intros Ha La Hb Lb. unfold sc_add. destruct (load_32_sound a Ha La) as (la & -> & Ma). cbn [mbind outcome_bind].
  destruct (load_32_sound b Hb Lb) as (lb & -> & Mb). cbn [mbind outcome_bind].
  destruct (map2_sound false bounds_32 bounds_32 _ _ _ _ _ eq_refl Ma Mb) as (s & -> & Hm). cbn [mbind outcome_bind].
  eapply finish_spec; [|by apply models_snoc]. by vm_compute.
Qed.

Lemma sc_sub_ret a b : is_bytes a → length a = 32%nat → is_bytes b → length b = 32%nat →
  sc_sub a b = Ret (le_bytes 32 ((le_value a - le_value b) mod order)).
Proof.
  intros Ha La Hb Lb. unfold sc_sub. destruct (load_32_sound a Ha La) as (la & -> & Ma). cbn [mbind outcome_bind].
  destruct (load_32_sound b Hb Lb) as (lb & -> & Mb). cbn [mbind outcome_bind].
  destruct (map2_sound true bounds_32 bounds_32 _ _ _ _ _ eq_refl Ma Mb) as (s & -> & Hm). cbn [mbind outcome_bind].
  eapply finish_spec; [|by apply models_snoc]. by vm_compute.
Qed.

(** ** [sc_mulsub] *)

Lemma mapM_Ret {A B} (f : A → outcome B) (g : A → B) l : (∀ x, x ∈ l → f x = Ret (g x)) → mapM f l = Ret (g <$> l).
Proof.
  induction l as [|x l IH]; intros H; [done|]. cbn [mapM fmap list_fmap]. rewrite H by left. cbn [mbind outcome_bind].
  rewrite IH by (intros y Hy; apply H; by right). done.
Qed.

(** The positions of the products of a limb. *)
Definition positions (k : Z) : list Z := seqZ (Z.max 0 (k - 11)) (Z.min k 11 - Z.max 0 (k - 11) + 1).
Definition product_at (a b : list Z) (k i : Z) : Z := a !!! Z.to_nat i * b !!! Z.to_nat (k - i).

Definition coefficient (a b c : list Z) (k : Z) : Z :=
  if k =? 23 then 0
  else if k =? 22 then - (a !!! 11%nat) * b !!! 11%nat
  else if k <=? 11 then c !!! Z.to_nat k - total (product_at a b k <$> positions k)
  else - total (product_at a b k <$> positions k).

(** Limbs that the products do not take out of 64 bits. *)
Definition small_limbs (l : list Z) : Prop := length l = 12%nat ∧ Forall (λ x, 0 ≤ x < 2 ^ 25) l.

Lemma small_limb l i : small_limbs l → 0 ≤ i < 12 → at_ l i = Ret (l !!! Z.to_nat i) ∧ 0 ≤ l !!! Z.to_nat i < 2 ^ 25.
Proof.
  intros [Hl Hf] Hi. assert (l !! Z.to_nat i = Some (l !!! Z.to_nat i)) as E by (apply list_lookup_lookup_total_lt; lia).
  split; [by apply at_Some; [lia|]|]. exact (proj1 (Forall_lookup _ _) Hf _ _ E).
Qed.

Lemma product_at_bound a b k i : small_limbs a → small_limbs b → 0 ≤ k ≤ 22 → i ∈ positions k → 0 ≤ product_at a b k i ≤ 2 ^ 50.
Proof.
  unfold positions. intros Ha Hb Hk Hi%elem_of_seqZ. unfold product_at.
  destruct (small_limb a i Ha) as [_ ?]; [lia|]. destruct (small_limb b (k - i) Hb) as [_ ?]; [lia|].
  change (2 ^ 50) with (2 ^ 25 * 2 ^ 25). split; [lia|]. apply Z.mul_le_mono_nonneg; lia.
Qed.

Lemma products_ret a b k : small_limbs a → small_limbs b → 0 ≤ k ≤ 22 → products a b k = Ret (product_at a b k <$> positions k).
Proof.
  intros Ha Hb Hk. apply mapM_Ret. intros i Hi. pose proof (product_at_bound a b k i Ha Hb Hk Hi) as R.
  apply elem_of_seqZ in Hi. destruct (small_limb a i Ha) as [-> _]; [lia|]. cbn [mbind outcome_bind].
  destruct (small_limb b (k - i) Hb) as [-> _]; [lia|]. cbn [mbind outcome_bind].
  apply (fits_int64 0 (2 ^ 50) _ eq_refl R).
Qed.

(** The sum of the products of a limb. *)
Lemma products_sum a b k : small_limbs a → small_limbs b → 0 ≤ k ≤ 22 →
  let t := total (product_at a b k <$> positions k) in
  sum_i64 (product_at a b k <$> positions k) = Ret t ∧ Z.abs t ≤ 2 ^ 54.
Proof.
  intros Ha Hb Hk t. assert (Forall2 (λ x y, Z.abs x ≤ y) (product_at a b k <$> positions k) (replicate (length (positions k)) (2 ^ 50))) as H.
  { apply Forall2_fmap_l, Forall2_replicate_r; [done|]. rewrite list.Forall_forall. intros i Hi.
    pose proof (product_at_bound a b k i Ha Hb Hk Hi). unfold flip, compose. lia. }
  assert (∀ n, total (replicate n (2 ^ 50)) = Z.of_nat n * 2 ^ 50) as T.
  { intros n. unfold total. induction n as [|n IH]; [done|]. cbn [replicate foldr]. rewrite IH. lia. }
  assert (Z.of_nat (length (positions k)) ≤ 12) as L by (unfold positions; rewrite length_seqZ; lia).
  destruct (sum_i64_yields _ _ H) as (x & E & -> & Hx); rewrite T in *; [lia|]. split; [done|]. unfold t. lia.
Qed.

Lemma mulsub_limb_ret a b c k : small_limbs a → small_limbs b → small_limbs c → 0 ≤ k < 24 →
  mulsub_limb a b c k = Ret (coefficient a b c k) ∧ - 2 ^ 55 ≤ coefficient a b c k ≤ 2 ^ 55.
Proof.
  intros Ha Hb Hc Hk. unfold mulsub_limb, coefficient. case_bool; [done|]. case_bool.
  - destruct (small_limb a 11 Ha) as [-> Ra]; [lia|]. destruct (small_limb b 11 Hb) as [-> Rb]; [lia|]. cbn [mbind outcome_bind].
    change (Z.to_nat 11) with 11%nat in *. rewrite (fits_int64 (- 2 ^ 25) 0 _ eq_refl) by lia. cbn [mbind outcome_bind].
    assert (0 ≤ a !!! 11%nat * b !!! 11%nat ≤ 2 ^ 25 * 2 ^ 25) by (split; [lia|]; apply Z.mul_le_mono_nonneg; lia).
    rewrite (fits_int64 (- 2 ^ 50) 0 _ eq_refl) by lia. split; [done|]. lia.
  - rewrite products_ret by (done || lia). cbn [mbind outcome_bind]. destruct (products_sum a b k Ha Hb) as [-> R]; [lia|].
    cbn [mbind outcome_bind]. case_bool.
    + destruct (small_limb c k Hc) as [-> Rc]; [lia|]. cbn [mbind outcome_bind].
      rewrite (fits_int64 (- 2 ^ 55) (2 ^ 55) _ eq_refl) by lia. split; [done|]. lia.
    + rewrite (fits_int64 (- 2 ^ 55) (2 ^ 55) _ eq_refl) by lia. split; [done|]. lia.
Qed.

Definition wide : option (Z * Z) := Some (- 2 ^ 55, 2 ^ 55).

(** Ranges of the limbs of [c - a b]. *)
Definition mulsub_bounds : list (option (Z * Z)) := replicate 23 wide ++ [Some (0, 0)].
Lemma mulsub_value a b c : length a = 12%nat → length b = 12%nat → length c = 12%nat →
  live_value mulsub_bounds (coefficient a b c <$> seqZ 0 24) =
  live_value bounds_32 c - live_value bounds_32 a * live_value bounds_32 b.
Proof.
  intros La Lb Lc.
  destruct a as [|a0 [|a1 [|a2 [|a3 [|a4 [|a5 [|a6 [|a7 [|a8 [|a9 [|a10 [|a11 [|? ?]]]]]]]]]]]]]; try done.
  destruct b as [|b0 [|b1 [|b2 [|b3 [|b4 [|b5 [|b6 [|b7 [|b8 [|b9 [|b10 [|b11 [|? ?]]]]]]]]]]]]]; try done.
  destruct c as [|c0 [|c1 [|c2 [|c3 [|c4 [|c5 [|c6 [|c7 [|c8 [|c9 [|c10 [|c11 [|? ?]]]]]]]]]]]]]; try done.
  change (seqZ 0 24) with [0; 1; 2; 3; 4; 5; 6; 7; 8; 9; 10; 11; 12; 13; 14; 15; 16; 17; 18; 19; 20; 21; 22; 23].
  cbn [fmap list_fmap]. unfold coefficient. cbn [Z.eqb Z.leb Z.compare Pos.eqb Pos.compare Pos.compare_cont].
  repeat match goal with |- context [positions ?k] => let p := eval vm_compute in (positions k) in change (positions k) with p end.
  unfold product_at, total. cbn [fmap list_fmap foldr].
  repeat match goal with |- context [Z.to_nat ?k] => let p := eval vm_compute in (Z.to_nat k) in change (Z.to_nat k) with p end.
  cbn [lookup_total list_lookup_total]. 
  change bounds_32 with (replicate 11 digit21 ++ [Some (0, 33554431)]). unfold mulsub_bounds. cbn [replicate app live_value live wide digit21].
  ring.
Qed.

Lemma bounds_32_small l V : models bounds_32 l V → small_limbs l.
Proof.
  intros [H _]. split; [by apply Forall2_length in H|].
  assert (Forall (λ b, ∀ x, in_bounds b x → 0 ≤ x < 2 ^ 25) bounds_32) as B.
  { change bounds_32 with (replicate 11 digit21 ++ [Some (0, 33554431)]). cbn [replicate app].
    do 12 (constructor; [intros x Hx; cbn in Hx; lia|]). constructor. }
  clear V. induction H as [|b x bs l Hx _ IH]; [done|]. inversion_clear B as [|? ? Hb B']. constructor; [by apply Hb|by apply IH].
Qed.

(** [(c - a b) mod l]. *)
Lemma sc_mulsub_ret a b c : is_bytes a → length a = 32%nat → is_bytes b → length b = 32%nat → is_bytes c → length c = 32%nat →
  sc_mulsub a b c = Ret (le_bytes 32 ((le_value c - le_value a * le_value b) mod order)).
Proof.
  intros Ha La Hb Lb Hc Lc. unfold sc_mulsub.
  destruct (load_32_sound a Ha La) as (la & -> & Ma). cbn [mbind outcome_bind].
  destruct (load_32_sound b Hb Lb) as (lb & -> & Mb). cbn [mbind outcome_bind].
  destruct (load_32_sound c Hc Lc) as (lc & -> & Mc). cbn [mbind outcome_bind].
  pose proof (bounds_32_small _ _ Ma) as Sa. pose proof (bounds_32_small _ _ Mb) as Sb. pose proof (bounds_32_small _ _ Mc) as Sc.
  assert (∀ k, k ∈ seqZ 0 24 → 0 ≤ k < 24) as K by (intros k Hk%elem_of_seqZ; lia).
  rewrite (mapM_Ret _ (coefficient la lb lc)) by (intros k Hk%K; by apply mulsub_limb_ret). cbn [mbind outcome_bind].
  assert (models mulsub_bounds (coefficient la lb lc <$> seqZ 0 24) (le_value c - le_value a * le_value b)) as Hm.
  { split; [|rewrite mulsub_value, (proj2 Ma), (proj2 Mb), (proj2 Mc); [done|apply Sa|apply Sb|apply Sc]].
    change (seqZ 0 24) with (seqZ 0 23 ++ [23]). rewrite fmap_app. apply Forall2_app; [|by repeat constructor].
    apply Forall2_fmap_r, Forall2_replicate_l; [done|]. rewrite list.Forall_forall. intros k Hk%elem_of_seqZ.
    apply mulsub_limb_ret; [done|done|done|lia]. }
  destruct (run_bounds mulsub_rounds mulsub_bounds) as [bs|] eqn:E; [|by vm_compute in E].
  destruct (run_sound _ _ _ _ _ E Hm) as (s1 & -> & k & Hm1 & _). cbn [mbind outcome_bind].
  destruct (run_bounds high_folds bs) as [bs'|] eqn:E'; [|vm_compute in E; injection E as <-; by vm_compute in E'].
  destruct (run_sound _ _ _ _ _ E' Hm1) as (s2 & -> & k' & Hm2 & _). cbn [mbind outcome_bind].
  rewrite (finish_spec bs' _ _) with (2 := Hm2); [by rewrite !Z.mod_add by done|].
  vm_compute in E. injection E as <-. vm_compute in E'. injection E' as <-. by vm_compute.
Qed.

(** ** [sc_check] and [sc_isnonzero] *)

Lemma signum_ret a : - 2 ^ 63 < a < 2 ^ 63 → signum a = Ret (Z.sgn a).
Proof.
  intros Ha. unfold signum. rewrite (fits_int64 (- (2 ^ 63 - 1)) (2 ^ 63 - 1) _ eq_refl) by lia. cbn [mbind outcome_bind].
  rewrite !Z.shiftr_div_pow2 by done. set (q := a / 2 ^ 63). set (q' := - a / 2 ^ 63).
  assert (q - q' = Z.sgn a) as E by (unfold q, q'; zlia). rewrite E. apply (fits_int64 (-1) 1 _ eq_refl). lia.
Qed.

Fixpoint words_value (l : list Z) : Z := match l with [] => 0 | x :: l' => x + 2 ^ 32 * words_value l' end.

Lemma signs_ret s bounds i shift acc : is_bytes s → (i + 4 * length bounds = length s)%nat → Forall (λ b, 0 ≤ b < 2 ^ 32) bounds →
  0 ≤ shift → shift + Z.of_nat (length bounds) ≤ 8 → Z.abs acc < 2 ^ shift →
  ∃ S, signs s i shift bounds acc = Ret (acc + 2 ^ shift * S) ∧ Z.abs S < 2 ^ Z.of_nat (length bounds) ∧
    Z.sgn S = Z.sgn (words_value bounds - le_value s / 2 ^ (8 * Z.of_nat i)).
Proof.
  intros Hs Hl Hb. revert i shift acc Hl. induction Hb as [|b bounds Hb _ IH]; intros i shift acc Hl Hsh Hn Hacc; cbn [signs length words_value] in *.
  - exists 0. split; [f_equal; lia|]. split; [done|]. pose proof (le_value_range _ Hs) as R. rewrite Z.div_small; [done|].
    by replace i with (length s) by lia.
  - rewrite load_4_value by (done || lia). cbn [mbind outcome_bind].
    set (v := le_value s / 2 ^ (8 * Z.of_nat i)) in *. pose proof (Z.mod_pos_bound v (2 ^ 32) ltac:(done)) as Rx.
    pose proof (Z.div_mod v (2 ^ 32) ltac:(done)) as Dv. set (x := v mod 2 ^ 32) in *.
    rewrite (fits_int64 (- 2 ^ 32) (2 ^ 32) _ eq_refl) by lia. cbn [mbind outcome_bind]. rewrite signum_ret by lia. cbn [mbind outcome_bind].
    set (g := Z.sgn (b - x)). assert (0 < 2 ^ shift ≤ 2 ^ 8) as Rs by (split; [lia|apply Z.pow_le_mono_r; lia]).
    rewrite Z.shiftl_mul_pow2, cast64_small by nia. rewrite (fits_int64 (- 2 ^ 9) (2 ^ 9) _ eq_refl) by nia. cbn [mbind outcome_bind].
    destruct (IH (i + 4)%nat (shift + 1) (acc + g * 2 ^ shift)) as (S & E & RS & GS); [lia|lia|lia|rewrite Z.pow_add_r by lia; nia|].
    exists (g + 2 * S). rewrite E. split; [f_equal; rewrite Z.pow_add_r by lia; lia|].
    rewrite Nat2Z.inj_succ, Z.pow_succ_r by lia. split; [lia|].
    replace (8 * Z.of_nat (i + 4)) with (8 * Z.of_nat i + 32) in GS by lia.
    rewrite Z.pow_add_r, <- Z.div_div in GS by lia. fold v in GS. lia.
Qed.

(** Zero exactly for the canonical representatives. *)
Lemma sc_check_ret s : is_bytes s → length s = 32%nat → sc_check s = Ret (if le_value s <? order then 0 else -1).
Proof.
  intros Hs Hl. unfold sc_check.
  destruct (signs_ret s [1559614444; 1477600026; 2734136534; 350157278; 0; 0; 0; 268435456] 0 0 0 Hs) as (S & -> & RS & GS);
    [by rewrite Hl|by repeat constructor|done|done|done|]. cbn [mbind outcome_bind].
  rewrite Z.mul_0_r, Z.div_1_r in GS. change (words_value _) with (order - 1) in GS. cbn [length] in RS.
  rewrite Z.add_0_l, Z.mul_1_l, Z.shiftr_div_pow2 by done. change (2 ^ Z.of_nat 8) with 256 in RS. change (2 ^ 8) with 256.
  apply (f_equal Ret). destruct (Z.ltb_spec (le_value s) order).
  - rewrite Z.div_small by lia. done.
  - replace (S / 256) with (-1); [done|]. apply (Z.div_unique _ _ _ (S + 256)); lia.
Qed.

Lemma sc_isnonzero_ret s : is_bytes s → length s = 32%nat → sc_isnonzero s = Ret (if le_value s =? 0 then 0 else 1).
Proof.
  intros Hs Hl. unfold sc_isnonzero. assert (mapM (at_ s) (seqZ 0 32) = Ret s) as ->.
  { do 32 (destruct s as [|? s]; [done|]). by destruct s. }
  cbn [mbind outcome_bind]. destruct (foldl_lor_zero s 0 Hs ltac:(done)) as [R Z0]. set (t := foldl Z.lor 0 s) in *.
  destruct (int32_yields (t - 1) 256) as (x & -> & -> & _); [lia|done|]. cbn [mbind outcome_bind]. apply (f_equal Ret).
  rewrite Z.shiftr_div_pow2 by done. change (2 ^ 8) with 256. destruct (Z.eqb_spec (le_value s) 0) as [E|N].
  - rewrite (proj2 Z0) by done. done.
  - assert (t ≠ 0) by tauto. rewrite Z.div_small by lia. done.
Qed.

(** ** Theorems *)

(** The 32 bytes of a number modulo the order of the base point. *)
Definition reduced (x : Z) : list Z := le_bytes 32 (x mod order).

(** C22: The arithmetic of scalars: for all bytes no signed number overflows, and the results are
    the bytes of the remainder modulo the order of the base point; [sc_check] accepts
    exactly the remainders. *)
Theorem scalar_arithmetic_exact s a b c : is_bytes s → length s = 64%nat →
  is_bytes a → length a = 32%nat → is_bytes b → length b = 32%nat → is_bytes c → length c = 32%nat →
  sc_reduce s = Ret (reduced (le_value s)) ∧
  sc_reduce32 a = Ret (reduced (le_value a)) ∧
  sc_add a b = Ret (reduced (le_value a + le_value b)) ∧
  sc_sub a b = Ret (reduced (le_value a - le_value b)) ∧
  sc_mulsub a b c = Ret (reduced (le_value c - le_value a * le_value b)) ∧
  sc_check a = Ret (if le_value a <? order then 0 else -1) ∧
  sc_isnonzero a = Ret (if le_value a =? 0 then 0 else 1).
Proof.
  intros Hs Ls Ha La Hb Lb Hc Lc. split; [by apply sc_reduce_ret|]. split; [by apply sc_reduce32_ret|]. split; [by apply sc_add_ret|].
  split; [by apply sc_sub_ret|]. split; [by apply sc_mulsub_ret|]. split; [by apply sc_check_ret|by apply sc_isnonzero_ret].
Qed.

Lemma scalar_arithmetic_exact_witness : sc_reduce (replicate 64 255) = Ret (reduced (le_value (replicate 64 255))).
Proof.
  apply (scalar_arithmetic_exact (replicate 64 255) (replicate 32 1) (replicate 32 2) (replicate 32 3)); by repeat constructor.
Defined.
