(* ===== verification/ScalarDigits.v ===== *)
(** * The recodings of scalars

    The signed digits of [ge_scalarmult_base], [ge_scalarmult] and [slide] have the value
    of the scalar when it is less than [2^255], and index the tables of multiples; the
    conditional moves over a table find the entry of a digit. *)

From S2P Require Import Prelude Streams SignedArithmetic ScalarMult.

Local Open Scope Z_scope.

(** ** The value of digits *)

Fixpoint digits_value (w : Z) (l : list Z) : Z :=
  match l with [] => 0 | x :: l' => x + w * digits_value w l' end.

Lemma digits_value_cons w x l : digits_value w (x :: l) = x + w * digits_value w l.
Proof. done. Qed.

Lemma digits_value_bytes l : digits_value 256 l = le_value l.
Proof. induction l as [|x l IH]; [done|]. cbn [digits_value le_value]. by rewrite IH. Qed.

Lemma digits_value_app w l k : digits_value w (l ++ k) = digits_value w l + w ^ Z.of_nat (length l) * digits_value w k.
Proof.
  induction l as [|x l IH]; [cbn; lia|]. cbn [app digits_value length] in *.
  rewrite Nat2Z.inj_succ, Z.pow_succ_r by lia. rewrite IH. lia.
Qed.

Lemma digits_value_zeros w n l : digits_value w (replicate n 0 ++ l) = w ^ Z.of_nat n * digits_value w l.
Proof.
  rewrite digits_value_app, length_replicate.
  assert (digits_value w (replicate n 0) = 0) as -> by (induction n as [|n IH]; cbn in *; [done|rewrite IH; lia]). lia.
Qed.

Lemma digits_value_range w l : 1 < w → Forall (λ x, 0 ≤ x < w) l → 0 ≤ digits_value w l < w ^ Z.of_nat (length l).
Proof.
  intros Hw. induction 1 as [|x l Hx _ IH]; cbn [digits_value length] in *; [lia|].
  rewrite Nat2Z.inj_succ, Z.pow_succ_r by lia. nia.
Qed.

Lemma cast8_small z : -128 ≤ z < 128 → cast8 z = z.
Proof. intros H. unfold cast8. rewrite Z.mod_small; lia. Qed.

Lemma scalar_bytes_ret a : length a = 32%nat → scalar_bytes a = Ret a.
Proof.
  intros H. do 32 (destruct a as [|? a]; [done|]). by destruct a.
Qed.

(** ** Digits between -8 and 8 *)

Definition digit8 (b : Z) : Prop := -8 ≤ b ≤ 8.

Lemma digit8_cases b : digit8 b → b ∈ seqZ (-8) 17.
Proof. unfold digit8. rewrite elem_of_seqZ. lia. Qed.

Lemma digit8_all (f : Z → bool) b : forallb f (seqZ (-8) 17) = true → digit8 b → f b = true.
Proof. intros H Hb%digit8_cases%list_elem_of_In. by apply (proj1 (forallb_forall _ _) H). Qed.

Lemma negative_digit b : digit8 b → negative b = Z.b2z (b <? 0).
Proof. intros H. apply Z.eqb_eq. by apply (digit8_all (λ b, negative b =? Z.b2z (b <? 0))). Qed.

Lemma digit_abs_digit b : digit8 b → digit_abs b = Z.abs b.
Proof. intros H. apply Z.eqb_eq. by apply (digit8_all (λ b, digit_abs b =? Z.abs b)). Qed.

Lemma equal_digit x j : digit8 x → digit8 j → equal (cast8 x) j = Z.b2z (x =? j).
Proof.
  intros Hx Hj. apply Z.eqb_eq. revert Hj. apply (digit8_all (λ j, equal (cast8 x) j =? Z.b2z (x =? j))). revert Hx.
  by apply (digit8_all (λ x, forallb (λ j, equal (cast8 x) j =? Z.b2z (x =? j)) (seqZ (-8) 17))).
Qed.

(** The conditional moves over a table give the entry of the digit, or what was there
    before when the digit is zero. *)
Section CmovTable.
Context {A : Type} (mv : A → A → Z → outcome A) (ok : A → Prop).
Hypothesis mv_select : ∀ t u (b : bool), ok t → ok u → mv t u (Z.b2z b) = Ret (if b then u else t).

Lemma cmov_table_from table x j t : ok t → Forall ok table → 0 ≤ x ≤ 8 → 1 ≤ j → j + Z.of_nat (length table) ≤ 9 →
  cmov_table mv table x j t = Ret (if x <? j then t else default t (table !! Z.to_nat (x - j))).
Proof.
  intros Ht Hok Hx. revert j t Ht. induction Hok as [|u table Hu _ IH]; intros j t Ht Hj Hl.
  { cbn. by case_bool. }
  cbn [cmov_table length] in *. rewrite equal_digit, mv_select by (done || unfold digit8; lia). cbn [mbind outcome_bind].
  rewrite IH by first [lia | by case_bool]. destruct (Z.lt_trichotomy x j) as [L|[->|G]].
  - rewrite (proj2 (Z.eqb_neq x j)), (proj2 (Z.ltb_lt x (j + 1))), (proj2 (Z.ltb_lt x j)) by lia. done.
  - rewrite Z.eqb_refl, (proj2 (Z.ltb_lt j (j + 1))), Z.ltb_irrefl, Z.sub_diag by lia. done.
  - rewrite (proj2 (Z.eqb_neq x j)), (proj2 (Z.ltb_ge x (j + 1))), (proj2 (Z.ltb_ge x j)) by lia.
    by replace (Z.to_nat (x - j)) with (S (Z.to_nat (x - (j + 1)))) by lia.
Qed.

Lemma cmov_table_select table x t : ok t → Forall ok table → length table = 8%nat → 0 ≤ x ≤ 8 →
  cmov_table mv table x 1 t = Ret (if x =? 0 then t else default t (table !! Z.to_nat (x - 1))).
Proof.
  intros Ht Hok Hl Hx. rewrite cmov_table_from by (done || lia). do 2 f_equal.
  destruct (Z.eqb_spec x 0), (Z.ltb_spec x 1); done || lia.
Qed.
End CmovTable.

(** ** The digits of [ge_scalarmult_base] *)

Lemma nibbles_spec a : is_bytes a →
  digits_value 16 (nibbles a) = le_value a ∧ Forall (λ x, 0 ≤ x < 16) (nibbles a) ∧ length (nibbles a) = (2 * length a)%nat.
Proof.
  induction 1 as [|b a Hb _ (IHv & IHr & IHl)]; [done|]. unfold in_range in Hb.
  change (nibbles (b :: a)) with ([Z.land (Z.shiftr b 0) 15; Z.land (Z.shiftr b 4) 15] ++ nibbles a).
  change 15 with (Z.ones 4). rewrite !Z.land_ones, Z.shiftr_0_r, Z.shiftr_div_pow2 by done.
  rewrite digits_value_app, IHv, length_app, IHl. cbn [digits_value length le_value]. split; [|split].
  - change (16 ^ Z.of_nat 2) with 256. zlia.
  - do 2 (constructor; [apply Z.mod_pos_bound; done|]). done.
  - lia.
Qed.

Lemma recode_cons x y e c : recode (x :: y :: e) c =
  let x := cast8 (x + c) in let c := Z.shiftr (cast8 (x + 8)) 4 in cast8 (x - Z.shiftl c 4) :: recode (y :: e) c.
Proof. done. Qed.

Lemma recode_spec e c : e ≠ [] → Forall (λ x, 0 ≤ x < 16) e → 0 ≤ c ≤ 1 → 2 * digits_value 16 e < 16 ^ Z.of_nat (length e) →
  digits_value 16 (recode e c) = digits_value 16 e + c ∧ Forall digit8 (recode e c) ∧ length (recode e c) = length e.
Proof.
  intros Hne He. revert c Hne. induction He as [|x e Hx He IH]; intros c Hne Hc Hb; [done|]. clear Hne.
  destruct e as [|y e].
  - cbn in Hb. cbn [recode digits_value length]. rewrite cast8_small by lia.
    split; [lia|]. split; [|done]. constructor; [unfold digit8; lia|done].
  - rewrite recode_cons. cbv zeta. rewrite (cast8_small (x + c)), (cast8_small (x + c + 8)) by lia.
    rewrite Z.shiftr_div_pow2, Z.shiftl_mul_pow2 by done. change (2 ^ 4) with 16.
    set (q := (x + c + 8) / 16). assert (0 ≤ q ≤ 1 ∧ -8 ≤ x + c - q * 16 < 8) as [Hq Hd] by (unfold q; zlia).
    rewrite cast8_small by lia.
    destruct (IH q) as (Ev & Ed & El); [done|done|..].
    { pose proof (digits_value_range 16 (y :: e) ltac:(done) He). revert Hb.
      cbn [digits_value length]. rewrite (Nat2Z.inj_succ (S _)), Z.pow_succ_r by lia. lia. }
    split; [|split].
    + rewrite digits_value_cons, Ev, (digits_value_cons _ x). lia.
    + constructor; [unfold digit8; lia|done].
    + cbn [length] in *. by rewrite El.
Qed.

(** ** The digits of [ge_scalarmult] *)

Lemma recode_bytes_cons b b' a c : recode_bytes (b :: b' :: a) c =
  let c := c + b in let c2 := Z.shiftr (c + 8) 4 in let c' := Z.shiftr (c2 + 8) 4 in
  cast8 (c - Z.shiftl c2 4) :: cast8 (c2 - Z.shiftl c' 4) :: recode_bytes (b' :: a) c'.
Proof. done. Qed.

Lemma recode_bytes_spec a c : a ≠ [] → is_bytes a → 0 ≤ c ≤ 1 → 2 * le_value a < 256 ^ Z.of_nat (length a) →
  digits_value 16 (recode_bytes a c) = le_value a + c ∧ Forall digit8 (recode_bytes a c).
Proof.
  intros Hne Ha. revert c Hne. induction Ha as [|b a Hb Ha IH]; intros c Hne Hc Hv; [done|]. clear Hne. unfold in_range in Hb.
  destruct a as [|b' a].
  - cbn in Hv. cbn [recode_bytes]. rewrite Z.shiftr_div_pow2, Z.shiftl_mul_pow2 by done. change (2 ^ 4) with 16.
    set (q := (c + b + 8) / 16). assert (0 ≤ q ≤ 8 ∧ -8 ≤ c + b - q * 16 < 8) as [Hq Hd] by (unfold q; zlia).
    rewrite !cast8_small by lia. cbn [digits_value le_value]. split; [lia|]. unfold digit8. repeat constructor; lia.
  - rewrite recode_bytes_cons. cbv zeta. rewrite !Z.shiftr_div_pow2, !Z.shiftl_mul_pow2 by done. change (2 ^ 4) with 16.
    set (q := (c + b + 8) / 16). assert (0 ≤ q ≤ 16 ∧ -8 ≤ c + b - q * 16 < 8) as [Hq Hd] by (unfold q; zlia).
    set (q' := (q + 8) / 16). assert (0 ≤ q' ≤ 1 ∧ -8 ≤ q - q' * 16 < 8) as [Hq' Hd'] by (unfold q'; zlia).
    rewrite !cast8_small by lia.
    destruct (IH q') as (Ev & Ed); [done|done|..].
    { pose proof (le_value_range (b' :: a) Ha). revert Hv. cbn [le_value length].
      rewrite (Nat2Z.inj_succ (S _)), Z.pow_succ_r by lia. lia. }
    split.
    + rewrite !digits_value_cons, Ev. change (le_value (b :: ?l)) with (b + 256 * le_value l). lia.
    + do 2 (constructor; [unfold digit8; lia|]). done.
Qed.

(** ** Sliding windows *)

Definition bit (x : Z) : Prop := x = 0 ∨ x = 1.

Lemma byte_bits b : 0 ≤ b < 256 →
  let bits := (λ k, Z.land 1 (Z.shiftr b k)) <$> seqZ 0 8 in digits_value 2 bits = b ∧ Forall bit bits.
Proof.
  intros Hb bits. split.
  - assert (b ∈ seqZ 0 256) as E%list_elem_of_In by (rewrite elem_of_seqZ; lia).
    apply Z.eqb_eq. unfold bits. revert b Hb bits E. cut (forallb (λ b, digits_value 2 ((λ k, Z.land 1 (Z.shiftr b k)) <$> seqZ 0 8) =? b) (seqZ 0 256) = true).
    + intros H b _ _ E. by apply (proj1 (forallb_forall _ _) H).
    + by vm_compute.
  - apply Forall_fmap, Forall_true. intros k. change (bit (Z.land 1 (Z.shiftr b k))). unfold bit. rewrite Z.land_comm.
    change (Z.land ?x 1) with (Z.land x (Z.ones 1)). rewrite Z.land_ones by done. zlia.
Qed.

Lemma bits_of_spec a : is_bytes a →
  digits_value 2 (bits_of a) = le_value a ∧ Forall bit (bits_of a) ∧ length (bits_of a) = (8 * length a)%nat.
Proof.
  induction 1 as [|b a Hb _ (IHv & IHb & IHl)]; [done|].
  change (bits_of (b :: a)) with (((λ k, Z.land 1 (Z.shiftr b k)) <$> seqZ 0 8) ++ bits_of a).
  destruct (byte_bits b Hb) as [Ev Eb]. rewrite digits_value_app, Ev, IHv, length_app, IHl.
  split; [cbn [le_value]; by change (2 ^ Z.of_nat _) with 256|]. split; [by apply Forall_app|]. cbn [length]. by rewrite length_fmap, length_seqZ; lia.
Qed.

Lemma insert_middle (pre l : list Z) x y : <[length pre := y]> (pre ++ x :: l) = pre ++ y :: l.
Proof. rewrite <- (Nat.add_0_r (length pre)). exact (insert_app_r pre (x :: l) 0 y). Qed.

(** Adding one, as an operation on the bits from a position on. *)
Fixpoint increment (l : list Z) : list Z :=
  match l with [] => [] | x :: l' => if x =? 0 then 1 :: l' else 0 :: increment l' end.

Lemma add_one_increment fuel pre l : (length l ≤ fuel)%nat → (length pre + length l = 256)%nat →
  add_one fuel (length pre) (pre ++ l) = pre ++ increment l.
Proof.
  revert pre fuel. induction l as [|x l IH]; intros pre fuel Hf Hl; (destruct fuel as [|fuel]; [cbn in *; try lia; done|]).
  - cbn [add_one length] in *. destruct (Nat.ltb_spec (length pre) 256); [lia|done].
  - cbn [add_one length increment] in *. destruct (Nat.ltb_spec (length pre) 256); [|lia].
    rewrite list_lookup_total_middle by done. case_bool; [by rewrite insert_middle|].
    rewrite insert_middle. specialize (IH (pre ++ [0]) fuel). rewrite length_app, <- !app_assoc in IH. cbn [length app] in IH.
    rewrite Nat.add_1_r in IH. apply IH; lia.
Qed.

Lemma increment_spec l : Forall bit l → digits_value 2 l + 1 < 2 ^ Z.of_nat (length l) →
  digits_value 2 (increment l) = digits_value 2 l + 1 ∧ Forall bit (increment l) ∧ length (increment l) = length l.
Proof.
  induction 1 as [|x l Hx Hl IH]; intros Hb; [cbn in Hb; lia|]. cbn [increment].
  revert Hb. cbn [length]. rewrite Nat2Z.inj_succ, Z.pow_succ_r, digits_value_cons by lia. intros Hb.
  destruct Hx as [-> | ->]; cbn [Z.eqb].
  - rewrite digits_value_cons. split; [lia|]. split; [|done]. constructor; [by right|done].
  - destruct IH as (Ev & Eb & El); [lia|]. rewrite digits_value_cons, Ev. cbn [length]. rewrite El.
    split; [lia|]. split; [|done]. constructor; [by left|done].
Qed.

(** A digit that [slide] leaves: zero, or odd and at most 15. *)
Definition odd_digit (x : Z) : Prop := Z.odd x = true ∧ -15 ≤ x ≤ 15.
Definition slide_digit (x : Z) : Prop := x = 0 ∨ odd_digit x.

(** The number that the digits from a position on stand for leaves room for a carry. *)
Definition has_room (l : list Z) : Prop := 2 * digits_value 2 l ≤ 2 ^ Z.of_nat (length l).

(** What a window does with the digits from its position on, of which [x] is the first. *)
Definition window_result (pre : list Z) (total : Z) (len : nat) (r : list Z) : Prop :=
  ∃ x l, r = pre ++ x :: l ∧ odd_digit x ∧ Forall bit l ∧ length l = len ∧ x + 2 * digits_value 2 l = total ∧ has_room l.

(** The digits of a window whose next [b - 1] digits are zero. *)
Definition window_digits (pre : list Z) (x : Z) (b : nat) (l : list Z) : list Z := pre ++ x :: replicate (b - 1) 0 ++ l.

Lemma window_digits_next pre x b l : (1 ≤ b)%nat → window_digits pre x b (0 :: l) = window_digits pre x (S b) l.
Proof.
  intros Hb. unfold window_digits. do 2 f_equal. change (0 :: l) with (replicate 1 0 ++ l).
  rewrite app_assoc, <- replicate_add. by replace (b - 1 + 1)%nat with (S b - 1)%nat by lia.
Qed.

Lemma window_digits_split pre x b l : (1 ≤ b)%nat → 
  ∃ front, window_digits pre x b l = front ++ l ∧ length front = (length pre + b)%nat.
Proof.
  intros Hb. exists (pre ++ x :: replicate (b - 1) 0). unfold window_digits. rewrite <- app_assoc. split; [done|].
  rewrite length_app. cbn [length]. rewrite length_replicate. lia.
Qed.

Lemma window_stop pre x b l : (1 ≤ b)%nat → odd_digit x → Forall bit l → has_room (replicate (b - 1) 0 ++ l) →
  window_result pre (x + 2 ^ Z.of_nat b * digits_value 2 l) (b - 1 + length l) (window_digits pre x b l).
Proof.
  intros Hb Hx Hl Hr. exists x, (replicate (b - 1) 0 ++ l). split; [done|]. split; [done|].
  rewrite length_app, length_replicate, digits_value_zeros. split; [|split; [done|split; [|done]]].
  - apply Forall_app. split; [|done]. apply Forall_replicate. by left.
  - rewrite Z.mul_assoc, <- Z.pow_succ_r by lia. do 3 f_equal. lia.
Qed.

(** The sums of the code, and where they go. *)
Lemma window_one pre x b l : (1 ≤ b)%nat → (length pre + b + S (length l) = 256)%nat →
  let r := window_digits pre x b (1 :: l) in
  r !!! length pre = x ∧ r !!! (length pre + b)%nat = 1 ∧
  (∀ y, <[(length pre + b)%nat := 0]> (<[length pre := y]> r) = window_digits pre y (S b) l) ∧
  (∀ y, add_one 256 (length pre + b) (<[length pre := y]> r) = window_digits pre y (S b) (increment l)).
Proof.
  intros Hb Hl r. destruct (window_digits_split pre x b (1 :: l) Hb) as (front & E & Ef).
  assert (∀ y, <[length pre := y]> r = window_digits pre y b (1 :: l)) as Ey by (intros; apply insert_middle).
  split; [by apply list_lookup_total_middle|]. split; [|split].
  - unfold r. rewrite E. by apply list_lookup_total_middle.
  - intros y. rewrite Ey. destruct (window_digits_split pre y b (1 :: l) Hb) as (front' & E' & <-).
    rewrite E', insert_middle, <- window_digits_next by done. unfold window_digits in *.
    rewrite app_comm_cons, app_assoc in E'. apply app_inv_tail in E' as <-. by rewrite <- app_assoc.
  - intros y. rewrite Ey. destruct (window_digits_split pre y b (1 :: l) Hb) as (front' & E' & Ef').
    rewrite E', <- Ef', add_one_increment by (cbn [length]; lia). rewrite <- window_digits_next by done.
    unfold window_digits in *. rewrite app_comm_cons, app_assoc in E'. apply app_inv_tail in E' as <-.
    by rewrite <- app_assoc.
Qed.

Lemma has_room_zeros n l : has_room (replicate n 0 ++ l) ↔ 2 * digits_value 2 l ≤ 2 ^ Z.of_nat (length l).
Proof.
  unfold has_room. rewrite digits_value_zeros, length_app, length_replicate, Nat2Z.inj_add, Z.pow_add_r by lia.
  assert (0 < 2 ^ Z.of_nat n) by (apply Z.pow_pos_nonneg; lia). nia.
Qed.

Lemma odd_digit_shift x b y : (1 ≤ b)%nat → odd_digit x → -15 ≤ x + 2 ^ Z.of_nat b * y ≤ 15 →
  odd_digit (x + 2 ^ Z.of_nat b * y).
Proof.
  intros Hb [Ho _] Hy. split; [|done]. rewrite Z.odd_add, Ho, Z.odd_mul, Z.odd_pow by lia. done.
Qed.

(** Before the fourth digit the window takes every one; the fourth is taken from what
    follows; the ones after it are out of reach. *)
Definition window_ready (x : Z) (b : nat) (l : list Z) : Prop :=
  (b ≤ 4)%nat → 1 ≤ x < 2 ^ Z.of_nat b ∧ x + 2 ^ Z.of_nat b * digits_value 2 l ≤ 2 ^ (Z.of_nat (b - 1) + Z.of_nat (length l)).

Lemma window_carry x l : Forall bit l → window_ready x 4 (1 :: l) →
  digits_value 2 (increment l) = digits_value 2 l + 1 ∧ Forall bit (increment l) ∧ length (increment l) = length l ∧
  2 * (digits_value 2 l + 1) ≤ 2 ^ Z.of_nat (length l).
Proof.
  intros Hl Hw. destruct (Hw ltac:(done)) as [Hx Hv]. revert Hv. change (4 - 1)%nat with 3%nat.
  rewrite digits_value_cons. cbn [length]. rewrite (Nat2Z.inj_succ (length l)), <- Z.add_1_l, !Z.pow_add_r by lia.
  change (2 ^ Z.of_nat 4) with 16. change (2 ^ Z.of_nat 3) with 8. change (2 ^ 1) with 2. intros Hv.
  assert (2 * (digits_value 2 l + 1) ≤ 2 ^ Z.of_nat (length l)) as Hb by lia.
  assert (0 ≤ digits_value 2 l).
  { apply (digits_value_range 2 l); [done|]. eapply Forall_impl; [|exact Hl]. unfold bit. lia. }
  destruct (increment_spec l Hl) as (Ev & Eb & El); [lia|]. done.
Qed.

Lemma slide_window_spec pre f b x l : (f + b = 7)%nat → (1 ≤ b)%nat → (length pre + b + length l = 256)%nat →
  odd_digit x → Forall bit l → has_room (replicate (b - 1) 0 ++ l) → window_ready x b l →
  window_result pre (x + 2 ^ Z.of_nat b * digits_value 2 l) (b - 1 + length l)
    (window f (length pre) b (window_digits pre x b l)).
Proof.
  revert b x l. induction f as [|f IH]; intros b x l Hf Hb Hlen Hx Hl Hr Hw; [by apply window_stop|].
  cbn [window]. destruct (Nat.leb_spec b 6); [|lia]. cbn [andb].
  destruct (Nat.ltb_spec (length pre + b) 256); [|by apply window_stop].
  destruct Hl as [|y l Hy Hl]; [cbn in Hlen; lia|]. cbn [length] in Hlen.
  assert (2 ^ Z.of_nat (S b) = 2 * 2 ^ Z.of_nat b) as E2 by (rewrite Nat2Z.inj_succ, Z.pow_succ_r; lia).
  assert (∀ x' l', length l' = length l → odd_digit x' → Forall bit l' → 2 * digits_value 2 l' ≤ 2 ^ Z.of_nat (length l) →
    x' + 2 ^ Z.of_nat (S b) * digits_value 2 l' = x + 2 ^ Z.of_nat b * digits_value 2 (y :: l) → ((S b ≤ 4)%nat → 1 ≤ x' < 2 ^ Z.of_nat (S b)) →
    window_result pre (x + 2 ^ Z.of_nat b * digits_value 2 (y :: l)) (b - 1 + length (y :: l))
      (window f (length pre) (S b) (window_digits pre x' (S b) l'))) as next.
  { intros x' l' El Hx' Hl' Hr' Ev Hw'. rewrite <- Ev. cbn [length]. replace (b - 1 + S (length l))%nat with (S b - 1 + length l')%nat by lia.
    apply IH; [lia|lia|lia|done|done|by apply has_room_zeros; rewrite El|]. intros H4. split; [by apply Hw'|].
    rewrite Ev, El. etransitivity; [by apply Hw; lia|]. cbn [length]. apply Z.pow_le_mono_r; lia. }
  assert (2 * digits_value 2 l ≤ 2 ^ Z.of_nat (length l)) as Hrl.
  { apply has_room_zeros in Hr. revert Hr. cbn [length]. rewrite Nat2Z.inj_succ, Z.pow_succ_r, digits_value_cons by lia.
    destruct Hy as [-> | ->]; lia. }
  destruct Hy as [-> | ->].
  - destruct (window_digits_split pre x b (0 :: l) Hb) as (front & E & Ef). rewrite E at 1. rewrite <- Ef at 1.
    rewrite list_lookup_total_middle, window_digits_next by done. cbn [Z.eqb].
    apply next; [done|done|done|done| |]; rewrite ?digits_value_cons; rewrite E2; [lia|]. intros. destruct Hw; lia.
  - destruct (window_one pre x b l Hb ltac:(lia)) as (-> & -> & Et & Ea). cbn [Z.eqb]. cbv zeta. rewrite Et, Ea. clear Et Ea.
    rewrite Z.shiftl_mul_pow2, Z.mul_1_l by lia.
    destruct (decide (b = 4%nat)) as [->|N4].
    + destruct (window_carry x l Hl Hw) as (Ev & Eb & El & Hv). destruct (Hw ltac:(lia)) as [Hx' _].
      change (2 ^ Z.of_nat 4) with 16 in *. case_bool; [lia|]. case_bool; [|lia]. rewrite cast8_small by lia.
      apply next; [done| |done|by rewrite Ev| |lia].
      * apply (odd_digit_shift x 4 (-1)); [lia|done|lia].
      * rewrite Ev, digits_value_cons, E2. lia.
    + destruct (decide (b ≤ 3)%nat) as [L|G].
      * destruct (Hw ltac:(lia)) as [Hx' _]. assert (2 ^ Z.of_nat b ≤ 8) by (apply (Z.pow_le_mono_r 2 _ 3); lia).
        case_bool; [|lia]. rewrite cast8_small by lia. apply next; [done| |done|done| |lia].
        -- replace (x + 2 ^ Z.of_nat b) with (x + 2 ^ Z.of_nat b * 1) by lia. apply odd_digit_shift; [done|done|lia].
        -- rewrite digits_value_cons, E2. lia.
      * destruct Hx as [Ho Hx]. assert (32 ≤ 2 ^ Z.of_nat b) by (apply (Z.pow_le_mono_r 2 5); lia).
        case_bool; [lia|]. case_bool; [lia|]. apply window_stop; [done|done| |done]. constructor; [by right|done].
Qed.

Lemma slide_loop_spec n pre l : length l = n → (length pre + n = 256)%nat → Forall bit l → has_room l →
  ∃ l', slide_loop n (length pre) (pre ++ l) = pre ++ l' ∧ Forall slide_digit l' ∧ length l' = n ∧
    digits_value 2 l' = digits_value 2 l.
Proof.
  revert pre l. induction n as [|n IH]; intros pre l Hn Hlen Hl Hr.
  { destruct l; [|done]. by exists []. }
  destruct Hl as [|x l Hx Hl]; [done|]. injection Hn as Hn. cbn [slide_loop].
  assert (∀ y l', slide_digit y → length l' = n → Forall bit l' → has_room l' → y + 2 * digits_value 2 l' = digits_value 2 (x :: l) →
    ∃ l'', slide_loop n (S (length pre)) (pre ++ y :: l') = pre ++ l'' ∧ Forall slide_digit l'' ∧ length l'' = S n ∧
      digits_value 2 l'' = digits_value 2 (x :: l)) as next.
  { intros y l' Hy Hl'n Hl' Hr' Ev. destruct (IH (pre ++ [y]) l') as (l'' & E & Hd & El & Ev'); [done| |done|done|].
    { rewrite length_app. cbn [length]. lia. }
    rewrite length_app, Nat.add_1_r, <- !app_assoc in E. exists (y :: l''). split; [exact E|].
    split; [by constructor|]. split; [by cbn [length]; rewrite El|]. by rewrite digits_value_cons, Ev'. }
  unfold has_room in Hr. revert Hr. cbn [length]. rewrite Nat2Z.inj_succ, Z.pow_succ_r, digits_value_cons by lia. intros Hr.
  rewrite list_lookup_total_middle by done. destruct Hx as [-> | ->]; cbn [Z.eqb].
  - apply next; [by left|done|done|unfold has_room; lia|by rewrite digits_value_cons].
  - destruct (slide_window_spec pre 6 1 1 l) as (y & l' & E & Hy & Hl' & El & Ev & Hr'); [done|done|lia|done|done| | |].
    + unfold has_room. cbn [Nat.sub replicate app]. lia.
    + intros _. split; [done|]. cbn [Nat.sub]. change (Z.of_nat 0 + ?z) with z. change (2 ^ Z.of_nat 1) with 2. lia.
    + change (window_digits pre 1 1 l) with (pre ++ 1 :: l) in E. rewrite E. apply next; [by right|lia|done|done|].
      rewrite Ev, digits_value_cons. done.
Qed.

Lemma slide_loop_all n l : length l = n → n = 256%nat → Forall bit l → has_room l →
  Forall slide_digit (slide_loop n 0 l) ∧ length (slide_loop n 0 l) = n ∧ digits_value 2 (slide_loop n 0 l) = digits_value 2 l.
Proof.
  intros Hl Hn Hb Hr. destruct (slide_loop_spec n [] l Hl Hn Hb Hr) as (l' & E & H).
  change (slide_loop n 0 l = l') in E. by rewrite E.
Qed.

(** The digits of [slide], for a scalar that has its last bit free. *)
Lemma slide_spec a : is_bytes a → length a = 32%nat → le_value a < 2 ^ 255 →
  yields (slide a) (λ e, Forall slide_digit e ∧ length e = 256%nat ∧ digits_value 2 e = le_value a).
Proof.
  intros Ha Hl Hv. unfold slide. rewrite scalar_bytes_ret by done. cbn [mbind outcome_bind].
  destruct (bits_of_spec a Ha) as (Ev & Eb & El). rewrite Hl in El.
  apply yields_ret. rewrite <- Ev. apply slide_loop_all; [done|done|done|].
  unfold has_room. rewrite Ev, El. change (Z.of_nat (8 * 32)) with 256. lia.
Qed.
