(* ===== verification/ScalarMultTheorems.v ===== *)
(** * Correctness of the multiplications of points

    The choice of a table entry gives the multiple by the digit, and the four
    multiplications of [ScalarMult] compute the multiples of the group by the number that
    the 32 bytes stand for, when it is less than [2^255]. *)

From S2P Require Import Prelude Streams SignedArithmetic FieldElement FieldTheorems EdwardsCurve GroupElement BaseTable ScalarMult Scalars.
From S2P Require Import Curve25519 GroupTheorems BaseTheorems ScalarDigits.
From Stdlib Require Import Zmod Field.

Local Open Scope Z_scope.

(** ** Neutral elements *)

Lemma neutral_x : px (neutral : point) = Zmod.zero.
Proof. reflexivity. Qed.
Lemma neutral_y : py (neutral : point) = Zmod.one.
Proof. reflexivity. Qed.

Lemma neutral_projective : projective neutral (fval fe_0) (fval fe_1) (fval fe_1).
Proof.
  unfold projective. rewrite neutral_x, neutral_y, fval_0, fval_1. split; [exact (one_nonzero p p_prime two_nonzero)|].
  split; ring.
Qed.

Lemma ge_p2_0_rep : rep2 ge_p2_0 neutral.
Proof. split; [repeat split; apply fe_0_tight || apply fe_1_tight|exact neutral_projective]. Qed.

Lemma ge_p3_0_rep : rep3 ge_p3_0 neutral.
Proof.
  split; [repeat split; apply fe_0_tight || apply fe_1_tight|]. split; [exact neutral_projective|].
  cbn [p3T p3Z ge_p3_0]. rewrite neutral_x, neutral_y, fval_0. ring.
Qed.

Lemma ge_precomp_0_rep : rep_precomp ge_precomp_0 neutral.
Proof.
  split; [repeat split; apply fe_0_tight || apply fe_1_tight|]. cbn [yplusx yminusx xy2d ge_precomp_0].
  rewrite neutral_x, neutral_y, fval_0, fval_1. repeat split; ring.
Qed.

Lemma tight_summed f : within tight f → within summed f.
Proof. intros H. eapply within_weaken; [exact H|by vm_compute]. Qed.

Lemma ge_cached_0_rep : rep_cached ge_cached_0 neutral.
Proof.
  pose proof fe_1_tight as H1. pose proof (tight_summed _ H1). split; [by repeat split; try apply fe_0_tight|].
  cbn [YplusX YminusX cZ T2d ge_cached_0]. rewrite neutral_x, neutral_y, fval_0, fval_1.
  split; [exact (one_nonzero p p_prime two_nonzero)|]. repeat split; ring.
Qed.

(** ** The entry of a digit *)

Definition precomp_ok (c : ge_precomp) : Prop := within tight (yplusx c) ∧ within tight (yminusx c) ∧ within tight (xy2d c).
Definition cached_ok (c : ge_cached) : Prop :=
  within summed (YplusX c) ∧ within summed (YminusX c) ∧ within tight (cZ c) ∧ within tight (T2d c).

Lemma ge_precomp_cmov_select t u (b : bool) : precomp_ok t → precomp_ok u →
  ge_precomp_cmov t u (Z.b2z b) = Ret (if b then u else t).
Proof.
  destruct t as [t1 t2 t3], u as [u1 u2 u3]. intros (?&?&?) (?&?&?). unfold ge_precomp_cmov. cbn [yplusx yminusx xy2d] in *.
  rewrite !(fe_cmov_select tight) by done. cbn. by destruct b.
Qed.

Lemma ge_cached_cmov_select t u (b : bool) : cached_ok t → cached_ok u →
  ge_cached_cmov t u (Z.b2z b) = Ret (if b then u else t).
Proof.
  destruct t as [t1 t2 t3 t4], u as [u1 u2 u3 u4]. intros (?&?&?&?) (?&?&?&?). unfold ge_cached_cmov.
  cbn [YplusX YminusX cZ T2d] in *. rewrite !(fe_cmov_select summed) by first [done | by apply tight_summed].
  cbn. by destruct b.
Qed.

(** An entry of a table of the first eight multiples of [P]. *)
Lemma entry_rep {A} (R : A → point → Prop) (zero : A) table P x :
  R zero neutral → length table = 8%nat → (∀ j c, table !! j = Some c → R c (zmul (Z.of_nat j + 1) P)) → 0 ≤ x ≤ 8 →
  R (if x =? 0 then zero else default zero (table !! Z.to_nat (x - 1))) (zmul x P).
Proof.
  intros H0 Hl H Hx. case_bool; [by subst x|].
  destruct (lookup_lt_is_Some_2 table (Z.to_nat (x - 1))) as [c Hc]; [lia|]. rewrite Hc. cbn [default].
  apply H in Hc. by replace (Z.of_nat (Z.to_nat (x - 1)) + 1) with x in Hc by lia.
Qed.

Lemma zmul_sign b (P : point) : zmul b P = if b <? 0 then ⊖ (zmul (Z.abs b) P) else zmul (Z.abs b) P.
Proof. case_bool; [rewrite <- zmul_opp|]; f_equal; lia. Qed.

Lemma ge_base_length : length ge_base = 32%nat.
Proof. reflexivity. Qed.

Lemma select_rep pos b : 0 ≤ pos < 32 → digit8 b →
  yields (select pos b) (λ c, rep_precomp c (zmul (b * 256 ^ pos) base)).
Proof.
  intros Hp Hb. unfold select.
  destruct (lookup_lt_is_Some_2 ge_base (Z.to_nat pos)) as [row Hrow]; [rewrite ge_base_length; lia|].
  rewrite (at_Some _ _ _ (proj1 Hp) Hrow). cbn [mbind outcome_bind].
  apply ge_base_rep in Hrow as [Hl Hrow]. rewrite Z2Nat.id in Hrow by lia.
  rewrite digit_abs_digit, negative_digit by done.
  rewrite (cmov_table_select _ _ ge_precomp_cmov_select).
  - cbn [mbind outcome_bind]. set (t := if _ =? 0 then _ else _).
    assert (rep_precomp t (zmul (Z.abs b) (zmul (256 ^ pos) base))) as Ht.
    { apply entry_rep; [exact ge_precomp_0_rep|done|apply Hrow|unfold digit8 in Hb; lia]. }
    clearbody t. destruct Ht as [(H1 & H2 & H3) (E1 & E2 & E3)].
    eapply yields_bind; [eapply fe_neg_F; [exact H3|reflexivity]|]. intros n [Hn En].
    rewrite (ge_precomp_cmov_select t (Precomp (fe_copy (yminusx t)) (fe_copy (yplusx t)) n) _ (conj H1 (conj H2 H3)) (conj H2 (conj H1 Hn))).
    apply yields_ret. rewrite <- zmul_mul, (zmul_sign b). destruct (b <? 0); [|by repeat split].
    split; [exact (conj H2 (conj H1 Hn))|]. unfold fe_copy. cbn [yplusx yminusx xy2d]. rewrite px_inverse, py_inverse.
    rewrite E1, E2, En, E3. repeat split; ring.
  - apply ge_precomp_0_rep.
  - apply Forall_lookup. intros j c Hj. by apply Hrow in Hj as [[? _] _].
  - done.
  - unfold digit8 in Hb. lia.
Qed.

(** ** [ge_scalarmult_base] *)

(** The number that digits with their positions stand for. *)
Fixpoint weight (ds : list (Z * Z)) : Z :=
  match ds with [] => 0 | (pos, b) :: ds' => b * 256 ^ pos + weight ds' end.

Lemma weight_app ds es : weight (ds ++ es) = weight ds + weight es.
Proof. induction ds as [|[pos b] ds IH]; [done|]. cbn [weight app]. rewrite IH. lia. Qed.

Lemma madd_digits_rep ds h H : Forall (λ '(pos, b), 0 ≤ pos < 32 ∧ digit8 b) ds → rep3 h H →
  yields (madd_digits ds h) (λ r, rep3 r (H ⊕ zmul (weight ds) base)).
Proof.
  intros Hds. revert h H. induction Hds as [|[pos b] ds [Hp Hb] _ IH]; intros h H Hh; cbn [madd_digits weight].
  - apply yields_ret. by rewrite zmul_0, op_neutral_r.
  - eapply yields_bind; [by apply select_rep|]. intros t Ht.
    eapply yields_bind; [exact (ge_madd_rep _ _ _ _ Hh Ht)|]. intros r Hr.
    eapply yields_bind; [exact (ge_p1p1_to_p3_rep _ _ Hr)|]. intros h' Hh'.
    rewrite zmul_add, <- op_assoc. by apply IH.
Qed.

Section Positions.
Variables (f : Z → Z) (e : list Z).

Definition digits_at (l : list Z) : list (Z * Z) := (λ k, (k, e !!! Z.to_nat (f k))) <$> l.

Lemma mapM_digits l : Forall (λ k, 0 ≤ f k < Z.of_nat (length e)) l →
  mapM (λ k, b ← at_ e (f k); mret (k, b)) l = Ret (digits_at l).
Proof.
  induction 1 as [|k l Hk _ IH]; [done|]. cbn [mapM digits_at fmap list_fmap].
  rewrite (at_Some e (f k) (e !!! Z.to_nat (f k))); [|lia|apply list_lookup_lookup_total_lt; lia].
  cbn [mbind outcome_bind]. rewrite IH. done.
Qed.

Lemma digits_at_bounds l : Forall digit8 e → Forall (λ k, 0 ≤ f k < Z.of_nat (length e) ∧ 0 ≤ k < 32) l →
  Forall (λ '(pos, b), 0 ≤ pos < 32 ∧ digit8 b) (digits_at l).
Proof.
  intros He Hl. apply Forall_fmap. eapply Forall_impl; [|exact Hl]. intros k [Hf Hk]. split; [done|].
  rewrite Forall_lookup in He. apply (He (Z.to_nat (f k))), list_lookup_lookup_total_lt. lia.
Qed.
End Positions.

Lemma digits_at_pairs e n : (2 * n ≤ length e)%nat →
  16 * weight (digits_at (λ k, 2 * k + 1) e (seqZ 0 (Z.of_nat n))) + weight (digits_at (λ k, 2 * k) e (seqZ 0 (Z.of_nat n))) =
  digits_value 16 (take (2 * n) e).
Proof.
  induction n as [|n IH]; intros Hn; [done|]. unfold digits_at in *. rewrite seqZ_S, !fmap_app, !weight_app.
  replace (2 * S n)%nat with (S (S (2 * n))) by lia.
  rewrite (take_S_r _ _ (e !!! S (2 * n))), (take_S_r _ _ (e !!! (2 * n)%nat)) by (apply list_lookup_lookup_total_lt; lia).
  rewrite !digits_value_app, <- IH, length_app, !length_take_le by lia. cbn [fmap list_fmap weight digits_value length].
  replace (Z.to_nat (2 * (0 + Z.of_nat n) + 1)) with (S (2 * n)) by lia. replace (Z.to_nat (2 * (0 + Z.of_nat n))) with (2 * n)%nat by lia.
  replace (16 ^ Z.of_nat (2 * n)) with (256 ^ Z.of_nat n) by (rewrite Nat2Z.inj_mul, Z.pow_mul_r by lia; done).
  replace (16 ^ Z.of_nat (2 * n + 1)) with (16 * 256 ^ Z.of_nat n).
  - rewrite Z.add_0_l. lia.
  - rewrite Nat2Z.inj_add, Nat2Z.inj_mul, Z.pow_add_r, Z.pow_mul_r by lia. change (16 ^ Z.of_nat 1) with 16. change (16 ^ Z.of_nat 2) with 256. lia.
Qed.

(** One operation on points. *)
Ltac operation :=
  first [ eapply ge_p2_dbl_rep; eassumption | eapply ge_p3_dbl_rep; eassumption
        | eapply ge_p1p1_to_p2_rep; eassumption | eapply ge_p1p1_to_p3_rep; eassumption
        | eapply ge_p3_to_cached_rep; eassumption | eapply ge_add_rep; eassumption | eapply ge_sub_rep; eassumption].
Ltac gstep := first [eapply yields_bind; [operation|] | eapply yields_impl; [operation|]]; cbv beta; intros ? ?.

Lemma twice (P : point) : P ⊕ P = zmul 2 P.
Proof. change 2 with (1 + 1). by rewrite zmul_add, zmul_1. Qed.

Lemma ge_mul8_rep t P : rep2 t P → yields (ge_mul8 t) (λ r, rep11 r (zmul 8 P)).
Proof. intros Ht. unfold ge_mul8. do 5 gstep. by rewrite !twice, !zmul_mul in *. Qed.

Lemma sixteen_times (P : point) (x y z : Z) : z = 16 * x + y →
  let R := neutral ⊕ zmul x P in
  (((R ⊕ R) ⊕ (R ⊕ R)) ⊕ ((R ⊕ R) ⊕ (R ⊕ R))) ⊕ (((R ⊕ R) ⊕ (R ⊕ R)) ⊕ ((R ⊕ R) ⊕ (R ⊕ R))) ⊕ zmul y P = zmul z P.
Proof. intros -> R. unfold R. rewrite !twice, op_neutral, !zmul_mul, <- zmul_add. f_equal; lia. Qed.

Lemma odd_even_digits e : length e = 64%nat → Forall digit8 e →
  ∃ odds evens, odd_digits e = Ret odds ∧ even_digits e = Ret evens ∧
    Forall (λ '(pos, b), 0 ≤ pos < 32 ∧ digit8 b) odds ∧ Forall (λ '(pos, b), 0 ≤ pos < 32 ∧ digit8 b) evens ∧
    digits_value 16 e = 16 * weight odds + weight evens.
Proof.
  intros El Ed.
  assert (∀ k, k ∈ seqZ 0 32 → 0 ≤ 2 * k < Z.of_nat (length e) ∧ 0 ≤ 2 * k + 1 < Z.of_nat (length e) ∧ 0 ≤ k < 32) as Hk.
  { intros k Hk%elem_of_seqZ. rewrite El. lia. }
  exists (digits_at (λ k, 2 * k + 1) e (seqZ 0 32)), (digits_at (λ k, 2 * k) e (seqZ 0 32)).
  split; [apply mapM_digits; rewrite list.Forall_forall; intros k ?%Hk; tauto|].
  split; [apply mapM_digits; rewrite list.Forall_forall; intros k ?%Hk; tauto|].
  split; [apply digits_at_bounds; [done|]; rewrite list.Forall_forall; intros k ?%Hk; tauto|].
  split; [apply digits_at_bounds; [done|]; rewrite list.Forall_forall; intros k ?%Hk; tauto|].
  rewrite <- (take_ge e 64) at 1 by lia. symmetry. apply (digits_at_pairs e 32). lia.
Qed.

Lemma ge_scalarmult_base_rep a : is_bytes a → length a = 32%nat → le_value a < 2 ^ 255 →
  yields (ge_scalarmult_base a) (λ h, rep3 h (zmul (le_value a) base)).
Proof.
  intros Ha Hl Hv. unfold ge_scalarmult_base. rewrite scalar_bytes_ret by done. cbn [mbind outcome_bind].
  destruct (nibbles_spec a Ha) as (Nv & Nr & Nl). rewrite Hl in Nl.
  destruct (recode_spec (nibbles a) 0) as (Ev & Ed & El); [by destruct (nibbles a)|done|done| |].
  { rewrite Nv, Nl. change (16 ^ Z.of_nat (2 * 32)) with (2 * 2 ^ 255). lia. }
  set (e := recode (nibbles a) 0) in *. clearbody e. rewrite Nl in El. rewrite Nv, Z.add_0_r in Ev.
  destruct (odd_even_digits e El Ed) as (odds & evens & -> & -> & Ho & He & E). cbn [mbind outcome_bind].
  eapply yields_bind; [apply (madd_digits_rep _ _ _ Ho ge_p3_0_rep)|].
  cbv beta. intros h Hh. do 8 gstep. eapply yields_impl; [eapply (madd_digits_rep _ _ _ He); eassumption|].
  cbv beta. intros r Hr. rewrite <- Ev, <- (sixteen_times base _ _ _ E). exact Hr.
Qed.

(** ** [ge_scalarmult] *)

Lemma multiples_rep n A last P Q : rep3 A P → rep_cached last Q →
  yields (multiples n A last) (λ l, length l = n ∧ ∀ j c, l !! j = Some c → rep_cached c (Q ⊕ zmul (Z.of_nat j + 1) P)).
Proof.
  intros HA. revert last Q. induction n as [|n IH]; intros last Q Hlast; cbn [multiples]; [by apply yields_ret|].
  do 3 gstep. eapply yields_bind; [apply IH; eassumption|]. intros rest [Hl Hrest]. apply yields_ret.
  split; [by cbn [length]; rewrite Hl|]. intros [|j] c Hj.
  - injection Hj as <-. change (Z.of_nat 0 + 1) with 1. rewrite zmul_1, op_comm. assumption.
  - apply Hrest in Hj. replace (Z.of_nat (S j) + 1) with (1 + (Z.of_nat j + 1)) by lia.
    by rewrite zmul_add, zmul_1, <- op_assoc, (op_comm Q).
Qed.

Lemma cached_negate t Q n : rep_cached t Q → within tight n → fval n = (- fval (T2d t))%Zmod →
  rep_cached (Cached (fe_copy (YminusX t)) (fe_copy (YplusX t)) (fe_copy (cZ t)) n) (⊖ Q).
Proof.
  intros [(H1 & H2 & H3 & H4) (Hz & E1 & E2 & E3)] Hn En. split; [exact (conj H2 (conj H1 (conj H3 Hn)))|].
  unfold fe_copy. cbn [YplusX YminusX cZ T2d]. rewrite px_inverse, py_inverse, E1, E2, En, E3.
  split; [exact Hz|]. repeat split; ring.
Qed.

(** A table of the first eight multiples. *)
Definition is_table (Ai : list ge_cached) (P : point) : Prop :=
  length Ai = 8%nat ∧ ∀ j c, Ai !! j = Some c → rep_cached c (zmul (Z.of_nat j + 1) P).

Lemma scalarmult_step_rep Ai P r R b : is_table Ai P → digit8 b → rep2 r R →
  yields (scalarmult_step Ai r b) (λ r', rep2 r' (zmul 16 R ⊕ zmul b P)).
Proof.
  intros [Hl Ht] Hb Hr. unfold scalarmult_step. do 8 gstep. rewrite digit_abs_digit, negative_digit by done.
  rewrite (cmov_table_select _ _ ge_cached_cmov_select).
  - cbn [mbind outcome_bind]. set (t := if _ =? 0 then _ else _).
    assert (rep_cached t (zmul (Z.abs b) P)) as Hc.
    { apply entry_rep; [exact ge_cached_0_rep|done|exact Ht|unfold digit8 in Hb; lia]. }
    clearbody t. eapply yields_bind; [eapply fe_neg_F; [exact (proj2 (proj2 (proj2 (proj1 Hc))))|reflexivity]|].
    intros n [Hn En]. pose proof (cached_negate _ _ _ Hc Hn En) as Hc'.
    rewrite (ge_cached_cmov_select _ _ _ (proj1 Hc) (proj1 Hc')). cbn [mbind outcome_bind].
    assert (rep_cached (if b <? 0 then Cached (fe_copy (YminusX t)) (fe_copy (YplusX t)) (fe_copy (cZ t)) n else t) (zmul b P)).
    { rewrite zmul_sign. by destruct (b <? 0). }
    do 2 gstep. by rewrite !twice, !zmul_mul in *.
  - apply ge_cached_0_rep.
  - apply Forall_lookup. intros j c Hj. by apply Ht in Hj as [? _].
  - done.
  - unfold digit8 in Hb. lia.
Qed.

Lemma scalarmult_loop_rep Ai P e : is_table Ai P → Forall digit8 e → ∀ r R, rep2 r R →
  yields (scalarmult_loop Ai e r) (λ r', rep2 r' (foldl (λ R b, zmul 16 R ⊕ zmul b P) R e)).
Proof.
  intros Ht. induction 1 as [|b e Hb _ IH]; intros r R Hr; cbn [scalarmult_loop foldl]; [by apply yields_ret|].
  eapply yields_bind; [by apply scalarmult_step_rep|]. cbv beta. intros r' Hr'. by apply IH.
Qed.

Lemma foldl_rev_digits e P : foldl (λ R b, zmul 16 R ⊕ zmul b P) (neutral : point) (rev e) = zmul (digits_value 16 e) P.
Proof.
  induction e as [|x e IH]; [done|]. cbn [rev digits_value]. rewrite foldl_app, IH. cbn [foldl].
  by rewrite zmul_mul, <- zmul_add, Z.add_comm.
Qed.

Lemma ge_scalarmult_rep a A P : is_bytes a → length a = 32%nat → le_value a < 2 ^ 255 → rep3 A P →
  yields (ge_scalarmult a A) (λ r, rep2 r (zmul (le_value a) P)).
Proof.
  intros Ha Hl Hv HA. unfold ge_scalarmult. rewrite scalar_bytes_ret by done. cbn [mbind outcome_bind].
  destruct (recode_bytes_spec a 0) as [Ev Ed]; [by destruct a|done|done| |].
  { rewrite Hl. change (256 ^ Z.of_nat 32) with (2 * 2 ^ 255). lia. }
  set (e := recode_bytes a 0) in *. clearbody e. rewrite Z.add_0_r in Ev.
  gstep. eapply yields_bind; [apply multiples_rep; eassumption|]. intros rest [Hr Hrest].
  rewrite <- Ev, <- foldl_rev_digits. apply scalarmult_loop_rep; [|by apply Forall_rev|exact ge_p2_0_rep].
  split; [by cbn [length]; rewrite Hr|]. intros [|j] c Hj.
  - injection Hj as <-. change (Z.of_nat 0 + 1) with 1. by rewrite zmul_1.
  - apply Hrest in Hj. replace (Z.of_nat (S j) + 1) with (1 + (Z.of_nat j + 1)) by lia. by rewrite zmul_add, zmul_1.
Qed.

(** ** Two multiplications at once *)

(** A table of the first eight odd multiples, of entries that [R] relates to points. *)
Definition is_odd_table {A} (R : A → point → Prop) (table : list A) (P : point) : Prop :=
  length table = 8%nat ∧ ∀ j c, table !! j = Some c → R c (zmul (2 * Z.of_nat j + 1) P).

Lemma ge_dsm_precomp_rep s P : rep3 s P → yields (ge_dsm_precomp s) (λ l, is_odd_table rep_cached l P).
Proof.
  intros Hs. unfold ge_dsm_precomp. do 3 gstep. eapply yields_bind; [apply multiples_rep; eassumption|].
  intros rest [Hl Hrest]. apply yields_ret. split; [by cbn [length]; rewrite Hl|]. intros [|j] c Hj.
  - injection Hj as <-. change (2 * Z.of_nat 0 + 1) with 1. by rewrite zmul_1.
  - apply Hrest in Hj. rewrite twice, zmul_mul in Hj.
    replace (2 * Z.of_nat (S j) + 1) with (1 + (Z.of_nat j + 1) * 2) by lia. by rewrite zmul_add, zmul_1.
Qed.

(** What adding and subtracting an entry of a table promise. *)
Class Addend {A} (R : A → point → Prop) (add sub : ge_p3 → A → outcome ge_p1p1) := {
  addend_add : ∀ u q U Q, rep3 u U → R q Q → yields (add u q) (λ r, rep11 r (U ⊕ Q));
  addend_sub : ∀ u q U Q, rep3 u U → R q Q → yields (sub u q) (λ r, rep11 r (U ⊕ ⊖ Q)) }.

#[export] Instance cached_addend : Addend rep_cached ge_add ge_sub := {| addend_add := ge_add_rep; addend_sub := ge_sub_rep |}.
#[export] Instance precomp_addend : Addend rep_precomp ge_madd ge_msub := {| addend_add := ge_madd_rep; addend_sub := ge_msub_rep |}.

Lemma odd_entry {A} (R : A → point → Prop) table P x : is_odd_table R table P → Z.odd x = true → 0 < x ≤ 15 →
  ∃ q, at_ table (x / 2) = Ret q ∧ R q (zmul x P).
Proof.
  intros [Hl H] Ho Hx. pose proof (Zdiv2_odd_eqn x) as E. rewrite Ho, Z.div2_div in E.
  destruct (lookup_lt_is_Some_2 table (Z.to_nat (x / 2))) as [q Hq]; [lia|].
  exists q. split; [by apply at_Some; [lia|]|]. apply H in Hq. rewrite Z2Nat.id in Hq by lia. by replace (2 * (x / 2) + 1) with x in Hq by lia.
Qed.

Lemma apply_digit_rep {A} (R : A → point → Prop) add sub `{!Addend R add sub} table P t T x :
  is_odd_table R table P → slide_digit x → rep11 t T →
  yields (apply_digit add sub table t x) (λ r, rep11 r (T ⊕ zmul x P)).
Proof.
  intros Ht Hx HT. unfold apply_digit. case_bool; [|case_bool].
  - destruct Hx as [->|[Ho Hx]]; [lia|]. gstep. destruct (odd_entry R table P x Ht Ho) as (q & -> & Hq); [lia|].
    cbn [mbind outcome_bind]. by apply addend_add.
  - destruct Hx as [->|[Ho Hx]]; [lia|]. gstep.
    destruct (odd_entry R table P (- x) Ht) as (q & -> & Hq); [by rewrite Z.odd_opp|lia|].
    cbn [mbind outcome_bind]. replace x with (- - x) by lia. rewrite (zmul_opp (- x)). by apply addend_sub.
  - assert (x = 0) as -> by lia. apply yields_ret. by rewrite zmul_0, op_neutral_r.
Qed.

Section DoubleScalarmultTheorems.
Context {B : Type} (RB : B → point → Prop) (add_b sub_b : ge_p3 → B → outcome ge_p1p1) `{!Addend RB add_b sub_b}.
Context (Ai : list ge_cached) (Bi : list B) (PA PB : point).
Hypothesis table_a : is_odd_table rep_cached Ai PA.
Hypothesis table_b : is_odd_table RB Bi PB.

Definition dsm_next (R : point) (ab : Z * Z) : point := zmul 2 R ⊕ zmul ab.1 PA ⊕ zmul ab.2 PB.

Lemma dsm_loop_rep digits : Forall (λ ab, slide_digit ab.1 ∧ slide_digit ab.2) digits → ∀ r R, rep2 r R →
  yields (dsm_loop add_b sub_b Ai Bi digits r) (λ r', rep2 r' (foldl dsm_next R digits)).
Proof.
  induction 1 as [|[a b] digits [Ha Hb] _ IH]; intros r R Hr; cbn [dsm_loop foldl]; [by apply yields_ret|].
  gstep. eapply yields_bind; [eapply apply_digit_rep; [apply _|exact table_a|exact Ha|eassumption]|]. cbv beta. intros ? ?.
  eapply yields_bind; [eapply apply_digit_rep; [apply _|exact table_b|exact Hb|eassumption]|]. cbv beta. intros ? ?.
  gstep. apply IH. unfold dsm_next. cbn [fst snd]. by rewrite <- twice.
Qed.

Lemma skip_zeros_foldl digits : foldl dsm_next neutral (skip_zeros digits) = foldl dsm_next neutral digits.
Proof.
  induction digits as [|[a b] digits IH]; [done|]. cbn [skip_zeros].
  destruct (negb (a =? 0) || negb (b =? 0)) eqn:E; [done|]. apply orb_false_iff in E as [->%negb_false_iff%Z.eqb_eq ->%negb_false_iff%Z.eqb_eq].
  rewrite IH. cbn [foldl]. unfold dsm_next at 3. cbn [fst snd]. by rewrite !zmul_0, zmul_neutral, !op_neutral_r.
Qed.

Lemma skip_zeros_Forall (Q : Z * Z → Prop) digits : Forall Q digits → Forall Q (skip_zeros digits).
Proof. induction 1 as [|[a b] digits H Hd IH]; [done|]. cbn [skip_zeros]. case_bool; [by constructor|done]. Qed.

Lemma dsm_value_step (x y v w : Z) :
  dsm_next (zmul v PA ⊕ zmul w PB) (x, y) = zmul (x + 2 * v) PA ⊕ zmul (y + 2 * w) PB.
Proof.
  unfold dsm_next. cbn [fst snd]. rewrite zmul_op, !zmul_mul, !zmul_add, (op_comm (zmul x PA)), (op_comm (zmul y PB)).
  rewrite !op_assoc. f_equal. rewrite <- !op_assoc. f_equal. apply op_comm.
Qed.

Lemma dsm_digits_value as_ bs : length as_ = length bs →
  foldl dsm_next neutral (rev (zip as_ bs)) = zmul (digits_value 2 as_) PA ⊕ zmul (digits_value 2 bs) PB.
Proof.
  revert bs. induction as_ as [|x as_ IH]; intros [|y bs] Hl; try done.
  - cbn [digits_value]. by rewrite !zmul_0, op_neutral.
  - cbn [zip zip_with rev digits_value]. rewrite foldl_app, IH by (by injection Hl). apply dsm_value_step.
Qed.

Lemma double_scalarmult_rep as_ bs : length as_ = length bs → Forall slide_digit as_ → Forall slide_digit bs →
  yields (double_scalarmult add_b sub_b Ai Bi as_ bs)
    (λ r, rep2 r (zmul (digits_value 2 as_) PA ⊕ zmul (digits_value 2 bs) PB)).
Proof.
  intros Hl Ha Hb. unfold double_scalarmult. rewrite <- dsm_digits_value, <- skip_zeros_foldl by done.
  apply dsm_loop_rep; [|exact ge_p2_0_rep]. apply skip_zeros_Forall, Forall_rev.
  revert bs Hl Hb. induction Ha as [|x as_ Hx _ IH]; intros [|y bs] Hl Hb; try done.
  inversion_clear Hb as [|? ? Hy Hb']. cbn [zip zip_with]. constructor; [done|]. apply IH; [by injection Hl|done].
Qed.
End DoubleScalarmultTheorems.

Lemma ge_double_scalarmult_base_rep a A PA b :
  is_bytes a → length a = 32%nat → le_value a < 2 ^ 255 → is_bytes b → length b = 32%nat → le_value b < 2 ^ 255 → rep3 A PA →
  yields (ge_double_scalarmult_base_vartime a A b) (λ r, rep2 r (zmul (le_value a) PA ⊕ zmul (le_value b) base)).
Proof.
  intros Ha La Va Hb Lb Vb HA. unfold ge_double_scalarmult_base_vartime.
  eapply yields_bind; [by apply slide_spec|]. intros as_ (Da & Na & Ea). rewrite <- Ea.
  eapply yields_bind; [by apply slide_spec|]. intros bs (Db & Nb & Eb). rewrite <- Eb.
  eapply yields_bind; [by apply ge_dsm_precomp_rep|]. intros Ai HAi.
  eapply (double_scalarmult_rep rep_precomp); [apply _|exact HAi|exact ge_Bi_rep|congruence|done|done].
Qed.

Lemma ge_double_scalarmult_precomp_rep a A PA b Bi PB :
  is_bytes a → length a = 32%nat → le_value a < 2 ^ 255 → is_bytes b → length b = 32%nat → le_value b < 2 ^ 255 → rep3 A PA →
  is_odd_table rep_cached Bi PB →
  yields (ge_double_scalarmult_precomp_vartime a A b Bi) (λ r, rep2 r (zmul (le_value a) PA ⊕ zmul (le_value b) PB)).
Proof.
  intros Ha La Va Hb Lb Vb HA HB. unfold ge_double_scalarmult_precomp_vartime.
  eapply yields_bind; [by apply slide_spec|]. intros as_ (Da & Na & Ea). rewrite <- Ea.
  eapply yields_bind; [by apply slide_spec|]. intros bs (Db & Nb & Eb). rewrite <- Eb.
  eapply yields_bind; [by apply ge_dsm_precomp_rep|]. intros Ai HAi.
  eapply (double_scalarmult_rep rep_cached); [apply _|exact HAi|exact HB|congruence|done|done].
Qed.

(** ** The order of the base point *)

Lemma l_times_base_bytes : (h ← ge_scalarmult_base (le_bytes 32 order); ge_p3_tobytes h) = ge_p3_tobytes ge_p3_0.
Proof. vm_cast_no_check (eq_refl (ge_p3_tobytes ge_p3_0)). Qed.

Lemma same_bytes (P Q : point) : Ret (encode P) = Ret (encode Q) → P = Q.
Proof. generalize (encode_inj P Q). generalize (encode P) (encode Q). intros x y H E. apply H. congruence. Qed.

Lemma neutral_by_bytes a n : le_value a = n → is_bytes a → length a = 32%nat → (n <? 2 ^ 255) = true →
  (h ← ge_scalarmult_base a; ge_p3_tobytes h) = ge_p3_tobytes ge_p3_0 → zmul n base = neutral.
Proof.
  intros <- Ha Hl Hv%Z.ltb_lt E. destruct (ge_scalarmult_base_rep a Ha Hl Hv) as (h & Eh & Hh).
  rewrite Eh in E. cbn [mbind outcome_bind] in E. rewrite (ge_p3_tobytes_rep _ _ Hh), (ge_p3_tobytes_rep _ _ ge_p3_0_rep) in E.
  exact (same_bytes _ _ E).
Qed.

(** [order] times the base point is neutral: the multiplication of the code gives the bytes
    of the neutral element. *)
Lemma base_order : zmul order base = neutral.
Proof.
  refine (neutral_by_bytes (le_bytes 32 order) order _ (le_bytes_bytes 32 order) (le_bytes_length 32 order) eq_refl l_times_base_bytes).
  rewrite le_value_bytes. reflexivity.
Qed.

(** ** Theorems *)

(** C18: The multiplications by scalars below 2^255: with the tables of the base point, with the
    multiples of a point, and the two of two scalars at once, they return, without an
    overflow or an access outside a table, representations of the multiples in the group
    of the curve. *)
Theorem scalar_multiplications_exact a b A P Bi Q :
  is_bytes a → length a = 32%nat → le_value a < 2 ^ 255 → is_bytes b → length b = 32%nat → le_value b < 2 ^ 255 →
  rep3 A P → is_odd_table rep_cached Bi Q →
  yields (ge_scalarmult_base a) (λ h, rep3 h (zmul (le_value a) base)) ∧
  yields (ge_scalarmult a A) (λ h, rep2 h (zmul (le_value a) P)) ∧
  yields (ge_double_scalarmult_base_vartime a A b) (λ h, rep2 h (zmul (le_value a) P ⊕ zmul (le_value b) base)) ∧
  yields (ge_double_scalarmult_precomp_vartime a A b Bi) (λ h, rep2 h (zmul (le_value a) P ⊕ zmul (le_value b) Q)) ∧
  yields (ge_dsm_precomp A) (λ l, is_odd_table rep_cached l P).
Proof.
  intros Ha La Va Hb Lb Vb HA HB. split; [by apply ge_scalarmult_base_rep|]. split; [by apply ge_scalarmult_rep|].
  split; [by apply ge_double_scalarmult_base_rep|]. split; [by apply ge_double_scalarmult_precomp_rep|by apply ge_dsm_precomp_rep].
Qed.

Lemma scalar_multiplications_exact_witness :
  yields (ge_scalarmult (le_bytes 32 (order - 1)) ge_p3_0) (λ h, rep2 h (zmul (le_value (le_bytes 32 (order - 1))) neutral)).
Proof.
  assert (∃ Bi, is_odd_table rep_cached Bi neutral) as [Bi HB].
  { destruct (ge_dsm_precomp_rep _ _ ge_p3_0_rep) as (Bi & _ & H). by exists Bi. }
  refine (proj1 (proj2 (scalar_multiplications_exact (le_bytes 32 (order - 1)) (replicate 32 1) ge_p3_0 neutral Bi neutral
    (le_bytes_bytes 32 _) (le_bytes_length 32 _) _ _ eq_refl _ ge_p3_0_rep HB))).
  - rewrite le_value_bytes. reflexivity.
  - by repeat constructor.
  - reflexivity.
Defined.
