(* ===== verification/GroupOrder.v ===== *)
(** * The order of the curve

    The curve has [8 * order] points, where [order] is the prime order of the base point:
    the number of points kills every point, is a multiple of [order] and of 8, and there
    are at most two points for each second coordinate. So eight times any point is in the
    group of the base point, which is what [ge_mul8] is for. *)

From S2P Require Import Prelude Streams SignedArithmetic Primality FieldElement FieldTheorems EdwardsCurve GroupElement BaseTable ScalarMult Scalars.
From S2P Require Import Curve25519 GroupTheorems BaseTheorems ScalarDigits ScalarMultTheorems.
From Stdlib Require Import Zmod Field Permutation.

Local Open Scope Z_scope.

(** ** The points, in a list *)

Lemma encode_range P : 0 ≤ le_value (encode P) < 2 ^ 256.
Proof. pose proof (le_value_range _ (le_bytes_bytes 32 _ : is_bytes (encode P))) as H. unfold encode in *. by rewrite le_bytes_length in H. Qed.

Lemma encoded_or_not n : 0 ≤ n < 2 ^ 256 → (∃ P, le_value (encode P) = n) ∨ (∀ P, le_value (encode P) ≠ n).
Proof.
  intros Hn. assert (le_value (le_bytes 32 n) = n) as E by (rewrite le_value_bytes; by apply Z.mod_small).
  destruct (ge_frombytes_yields _ (le_bytes_bytes 32 n) (le_bytes_length 32 n)) as ([h|] & _ & H).
  - destruct H as (P & _ & HP). left. exists P. by rewrite HP.
  - right. intros P HP. apply (H P). unfold encode. apply (f_equal (le_bytes 32)) in HP. rewrite <- HP.
    rewrite <- (le_bytes_length 32 (Zmod.unsigned (py P) + 2 ^ 255 * parity (px P))) at 2. symmetry. apply le_bytes_value, le_bytes_bytes.
Qed.

Lemma points_below k : Z.of_nat k ≤ 2 ^ 256 → ∃ l : list point, NoDup l ∧ ∀ P, P ∈ l ↔ le_value (encode P) < Z.of_nat k.
Proof.
  induction k as [|k IH]; intros Hk.
  - exists []. split; [constructor|]. intros P. pose proof (encode_range P). split; [by intros ?%not_elem_of_nil|lia].
  - destruct IH as (l & Hn & Hl); [lia|]. destruct (encoded_or_not (Z.of_nat k)) as [[Q HQ]|N]; [lia| |].
    + exists (Q :: l). split; [constructor; [rewrite Hl; lia|done]|]. intros P. rewrite elem_of_cons, Hl. split.
      * intros [->|H]; lia.
      * intros H. destruct (Z.eq_dec (le_value (encode P)) (Z.of_nat k)) as [E|]; [|right; lia]. left. apply encode_inj.
        rewrite <- (le_bytes_value (encode P)), <- (le_bytes_value (encode Q)) by apply le_bytes_bytes.
        rewrite E, HQ. unfold encode. by rewrite !le_bytes_length.
    + exists l. split; [done|]. intros P. rewrite Hl. specialize (N P). lia.
Qed.

Lemma all_points : ∃ l : list point, NoDup l ∧ ∀ P, P ∈ l.
Proof.
  assert (∃ k : nat, Z.of_nat k = 2 ^ 256) as [k Hk] by (exists (Z.to_nat (2 ^ 256)); apply Z2Nat.id; lia).
  destruct (points_below k) as (l & Hn & Hl); [lia|]. exists l. split; [done|]. intros P. apply Hl. rewrite Hk. apply encode_range.
Qed.

(** At most two points for each second coordinate. *)
Definition point_number (P : point) : Z := Zmod.unsigned (py P) + p * parity (px P).

Lemma point_number_inj P Q : point_number P = point_number Q → P = Q.
Proof.
  unfold point_number. intros E. pose proof (unsigned_range (py P)). pose proof (unsigned_range (py Q)).
  assert (parity (px P) = parity (px Q) ∧ Zmod.unsigned (py P) = Zmod.unsigned (py Q)) as [E1 E2].
  { destruct (parity_range (px P)) as [EP|EP], (parity_range (px Q)) as [EQ|EQ]; rewrite EP, EQ in *; lia. }
  apply point_by_sign; [by apply Zmod.unsigned_inj|done].
Qed.

Lemma points_bound (l : list point) : NoDup l → Z.of_nat (length l) ≤ 2 * p.
Proof.
  intros Hn. assert (NoDup (point_number <$> l)) as Hf.
  { apply NoDup_fmap_2; [|done]. intros P Q. apply point_number_inj. }
  assert (point_number <$> l ⊆+ seqZ 0 (2 * p)) as Hs.
  { apply NoDup_submseteq; [done|]. intros x Hx. apply list_elem_of_fmap in Hx as (P & -> & _). apply elem_of_seqZ.
    unfold point_number. pose proof (unsigned_range (py P)). destruct (parity_range (px P)) as [-> | ->]; lia. }
  apply submseteq_length in Hs. rewrite length_fmap, length_seqZ in Hs.
  pose proof (unsigned_range (py neutral)). lia.
Qed.

(** ** The number of points kills every point *)

Definition gsum (l : list point) : point := foldr op neutral l.

#[export] Instance gsum_perm : Proper (Permutation ==> eq) gsum.
Proof.
  intros l k. induction 1 as [|P l k _ IH|P Q l|l k m _ IH1 _ IH2]; cbn [gsum foldr] in *; [done| | |].
  - fold (gsum l) (gsum k). by rewrite IH.
  - by rewrite <- !op_assoc, (op_comm P).
  - by rewrite IH1.
Qed.

Lemma gsum_shift Q l : gsum (op Q <$> l) = zmul (Z.of_nat (length l)) Q ⊕ gsum l.
Proof.
  induction l as [|P l IH]; [symmetry; apply op_neutral|]. cbn [fmap list_fmap]. change (gsum (?x :: ?y)) with (x ⊕ gsum y). rewrite IH.
  cbn [length]. rewrite Nat2Z.inj_succ, <- Z.add_1_l, zmul_add, zmul_1. apply op_swap.
Qed.

Lemma number_kills (l : list point) Q : NoDup l → (∀ P, P ∈ l) → zmul (Z.of_nat (length l)) Q = neutral.
Proof.
  intros Hn Hl. assert (Permutation (op Q <$> l) l) as Hp.
  { apply submseteq_length_Permutation; [|by rewrite length_fmap]. apply NoDup_submseteq; [|intros x _; apply Hl].
    apply NoDup_fmap_2; [|done]. intros P P'. apply op_cancel. }
  apply (op_cancel (gsum l)). by rewrite op_comm, <- gsum_shift, Hp, op_neutral_r.
Qed.

(** ** Its divisors *)

Lemma zmul_kill a b (P : point) : zmul b P = neutral → zmul (a * b) P = neutral.
Proof. intros H. by rewrite <- zmul_mul, H, zmul_neutral. Qed.

(** Two numbers that kill a point: so does their greatest common divisor. *)
Lemma kill_gcd a b (P : point) : zmul a P = neutral → zmul b P = neutral → zmul (Z.gcd a b) P = neutral.
Proof.
  intros Ha Hb. destruct (Z.gcd_bezout a b (Z.gcd a b) eq_refl) as (u & v & <-).
  rewrite zmul_add, !zmul_kill, op_neutral by done. done.
Qed.

Lemma base_not_neutral : base ≠ neutral.
Proof.
  intros E. apply (f_equal (λ P, Zmod.unsigned (py P))) in E. revert E. by vm_compute.
Qed.

Lemma order_prime : Z.prime order.
Proof. exact prime_order. Qed.

Lemma order_divides n : zmul n base = neutral → (order | n).
Proof.
  intros H. destruct (Z.eq_dec (n mod order) 0) as [E|N]; [by apply Z.mod_divide in E|]. exfalso. apply base_not_neutral.
  assert (Z.gcd order n = 1) as G by (apply Z.coprime_prime_l; [exact order_prime|by intros ?%Z.mod_divide]).
  pose proof (kill_gcd order n base base_order H) as K. by rewrite G, zmul_1 in K.
Qed.

(** ** A point of order eight *)

Definition eighth_x : F := Zmod.of_Z p 14399317868200118260347934320527232580618823971194345261214217575416788799818.
Definition eighth_y : F := Zmod.of_Z p 55188659117513257062467267217118295137698188065244968500265048394206261417927.

Lemma eighth_on_curve : on_curve p d eighth_x eighth_y.
Proof.
  unfold on_curve, eighth_x, eighth_y, d, fval. rewrite <- !Zmod.of_Z_mul, <- Zmod.of_Z_1, <- !Zmod.of_Z_sub.
  apply F_by. by vm_compute.
Qed.

Definition eighth : point := mk_point p d eighth_x eighth_y eighth_on_curve.
Definition eighth_coordinates : Z * Z * Z :=
  (14399317868200118260347934320527232580618823971194345261214217575416788799818,
   55188659117513257062467267217118295137698188065244968500265048394206261417927, 1).

Lemma eighth_projective k : is_projective (times k eighth_coordinates) (zmul (2 ^ Z.of_nat k) eighth).
Proof.
  apply times_projective. split; [rewrite Zmod.of_Z_1; exact (one_nonzero p p_prime two_nonzero)|]. split; cbn [eighth px py mk_point]; unfold eighth_x, eighth_y;
    rewrite Zmod.of_Z_1; symmetry; apply Zmod.mul_1_r.
Qed.

(** Whether a triple is the neutral element. *)
Definition is_neutral (t : Z * Z * Z) : bool :=
  let '(X, Y, Z_) := t in (X mod p =? 0 mod p) && (Y mod p =? Z_ mod p).

Lemma is_neutral_spec t P : is_projective t P → (is_neutral t = true ↔ P = neutral).
Proof.
  destruct t as [[X Y] Z_]. intros (HZ & EX & EY). unfold is_neutral. rewrite andb_true_iff, !Z.eqb_eq, <- !Zmod.of_Z_inj, Zmod.of_Z_0. split.
  - intros [HX HY]. rewrite HX in EX. rewrite HY in EY.
    apply point_eq; apply (F_cancel p p_prime [Z_]p _ _ HZ); [rewrite <- EX|rewrite <- EY]; symmetry; [apply Zmod.mul_0_l|apply Zmod.mul_1_l].
  - intros ->. rewrite EX, EY. split; [apply Zmod.mul_0_l|apply Zmod.mul_1_l].
Qed.

Lemma eighth_kills : zmul 8 eighth = neutral.
Proof. apply (is_neutral_spec _ _ (eighth_projective 3)). by vm_compute. Qed.

Lemma eighth_survives : zmul 4 eighth ≠ neutral.
Proof. intros E. apply (is_neutral_spec _ _ (eighth_projective 2)) in E. revert E. by vm_compute. Qed.

Lemma eight_divides n : zmul n eighth = neutral → (8 | n).
Proof.
  intros H. pose proof (kill_gcd 8 n eighth eighth_kills H) as K.
  assert (∃ g, g = Z.gcd 8 n) as [g G] by eauto. rewrite <- G in K.
  assert ((g | 8) ∧ (g | n) ∧ 0 ≤ g) as (D8 & Dn & G0) by (rewrite G; auto using Z.gcd_divide_l, Z.gcd_divide_r, Z.gcd_nonneg).
  pose proof (Z.divide_pos_le g 8 ltac:(lia) D8).
  assert (g = 8 ∨ (g | 4)) as [->|D4]; [|done|].
  { destruct D8 as [q Hq]. assert (g = 1 ∨ g = 2 ∨ g = 3 ∨ g = 4 ∨ g = 5 ∨ g = 6 ∨ g = 7 ∨ g = 8 ∨ g = 0) as C by lia.
    destruct C as [->|[->|[->|[->|[->|[->|[->|[->| ->]]]]]]]]; try lia; auto; right; [by exists 4|by exists 2|by exists 1]. }
  destruct D4 as [q Hq]. destruct eighth_survives. rewrite Hq. by apply zmul_kill.
Qed.

(** ** The number of points *)

Definition curve_points : Z := 8 * order.

Lemma points_count (l : list point) : NoDup l → (∀ P, P ∈ l) → Z.of_nat (length l) = curve_points.
Proof.
  intros Hn Hl. unfold curve_points. pose proof (points_bound l Hn) as Hb.
  destruct (order_divides _ (number_kills l base Hn Hl)) as [q Hq].
  destruct (eight_divides _ (number_kills l eighth Hn Hl)) as [r Hr].
  assert (0 < Z.of_nat (length l)) by (specialize (Hl neutral); destruct l; [by apply not_elem_of_nil in Hl|cbn; lia]).
  rewrite Hq in Hb, Hr |- *. assert (0 < q * order) by lia. assert (2 * p < 16 * order) by reflexivity. assert (order mod 8 = 5) by reflexivity.
  assert (0 < order) by reflexivity. assert (0 < q < 16) by nia.
  pose proof (Z.div_mod order 8 ltac:(lia)). assert (q mod 8 = 0) by (Z.div_mod_to_equations; lia).
  assert (q = 8) by (Z.div_mod_to_equations; lia). by subst q.
Qed.

(** Eight times any point is in the group of order [order]. *)
Lemma order_eight (P : point) : zmul order (zmul 8 P) = neutral.
Proof.
  destruct all_points as (l & Hn & Hl). rewrite zmul_mul, Z.mul_comm. fold curve_points. rewrite <- (points_count l Hn Hl). by apply number_kills.
Qed.

(** ** Theorems *)

(** The order of the curve: it has exactly [8 * order] points, [order] is prime and kills
    the base point, and eight times any point is killed by [order]. *)
Theorem curve_order :
  Z.prime order ∧ zmul order base = neutral ∧ base ≠ neutral ∧
  (∃ l : list point, NoDup l ∧ (∀ P, P ∈ l) ∧ Z.of_nat (length l) = curve_points) ∧ curve_points = 8 * order ∧
  ∀ P : point, zmul order (zmul 8 P) = neutral.
Proof.
  split; [exact order_prime|]. split; [exact base_order|]. split; [exact base_not_neutral|]. split; [|split; [reflexivity|exact order_eight]].
  destruct all_points as (l & Hn & Hl). exists l. split; [done|]. split; [done|by apply points_count].
Qed.
