(* ===== verification/CryptoKeys.v ===== *)
(** * Keys and signatures ([crypto/crypto.cpp])

    Key pairs, key derivations, one-time keys, signatures, key images and ring
    signatures. Keys, hashes and scalars are their 32 bytes, a signature is its 64 bytes.
    The functions that draw random bytes thread the state of the generator; a failed
    assertion and a call of [abort] are [Abort]. A function that returns [false] without
    a result returns [None]. *)

From S2P Require Import Prelude Varint Streams SignedArithmetic Keccak GroupElement ScalarMult Scalars.

Local Open Scope Z_scope.

Definition rng : Type := list Z.

Definition random_scalar : M rng (list Z) := λ state,
  let '(tmp, state) := generate_random_bytes 64 state in
  match sc_reduce tmp with Ret s => Ret (s, state) | Throw e => Throw e | Abort => Abort end.

Definition hash_to_scalar (data : list Z) : outcome (list Z) := h ← cn_fast_hash data; sc_reduce32 h.

(** ** Keys *)

Definition base_multiple (scalar : list Z) : outcome (list Z) := point ← ge_scalarmult_base scalar; ge_p3_tobytes point.

(** The public key and the secret key. *)
Definition generate_keys : M rng (list Z * list Z) :=
  sec ← random_scalar;
  pub ← lift (base_multiple sec);
  mret (pub, sec).

Definition generate_keys_from_seed (seed : list Z) : outcome (list Z * list Z) :=
  sec ← sc_reduce32 seed;
  pub ← base_multiple sec;
  mret (pub, sec).

Definition check_key (key : list Z) : outcome bool :=
  o ← ge_frombytes_vartime key; mret (match o with Some _ => true | None => false end).

Definition secret_key_to_public_key (sec : list Z) : outcome (option (list Z)) :=
  c ← sc_check sec;
  if negb (c =? 0) then mret None else pub ← base_multiple sec; mret (Some pub).

(** [assert(sc_check(scalar) == 0)] *)
Definition assert_scalar (scalar : list Z) : outcome unit := c ← sc_check scalar; assert_ (c =? 0).

Definition generate_key_derivation (key1 key2 : list Z) : outcome (option (list Z)) :=
  _ ← assert_scalar key2;
  o ← ge_frombytes_vartime key1;
  match o with
  | None => mret None
  | Some point =>
      point2 ← ge_scalarmult key2 point;
      point3 ← ge_mul8 point2;
      point2 ← ge_p1p1_to_p2 point3;
      derivation ← ge_tobytes point2;
      mret (Some derivation)
  end.

(** ** One-time keys *)

(** The room for the index: [(sizeof(size_t) * 8 + 6) / 7] bytes. *)
Definition index_size : nat := 10.

Definition derivation_to_scalar (derivation : list Z) (output_index : Z) : outcome (list Z) :=
  let index := write_varint output_index in
  _ ← assert_ (length index <=? index_size)%nat;
  hash_to_scalar (derivation ++ index).

Definition derivation_to_scalar_suffix (derivation : list Z) (output_index : Z) (suffix : list Z) : outcome (list Z) :=
  _ ← assert_ (length suffix <=? 32)%nat;
  let index := write_varint output_index in
  _ ← assert_ (length index <=? index_size + 32)%nat;
  hash_to_scalar (derivation ++ index ++ suffix).

(** The point of a key with the multiple of the base point by a scalar added or
    subtracted, and the scalar. *)
Definition shift_key (op : ge_p3 → ge_cached → outcome ge_p1p1) (scalar : outcome (list Z)) (key : list Z) : outcome (option (list Z * list Z)) :=
  o ← ge_frombytes_vartime key;
  match o with
  | None => mret None
  | Some point1 =>
      scalar ← scalar;
      point2 ← ge_scalarmult_base scalar;
      point3 ← ge_p3_to_cached point2;
      point4 ← op point1 point3;
      point5 ← ge_p1p1_to_p2 point4;
      shifted ← ge_tobytes point5;
      mret (Some (shifted, scalar))
  end.

Definition derive_public_key (derivation : list Z) (output_index : Z) (base : list Z) : outcome (option (list Z)) :=
  o ← shift_key ge_add (derivation_to_scalar derivation output_index) base; mret (option_map fst o).
Definition derive_public_key_suffix (derivation : list Z) (output_index : Z) (base suffix : list Z) : outcome (option (list Z)) :=
  o ← shift_key ge_add (derivation_to_scalar_suffix derivation output_index suffix) base; mret (option_map fst o).

Definition underive_public_key_and_get_scalar (derivation : list Z) (output_index : Z) (derived_key : list Z) : outcome (option (list Z * list Z)) :=
  shift_key ge_sub (derivation_to_scalar derivation output_index) derived_key.
Definition underive_public_key (derivation : list Z) (output_index : Z) (derived_key : list Z) : outcome (option (list Z)) :=
  o ← shift_key ge_sub (derivation_to_scalar derivation output_index) derived_key; mret (option_map fst o).
Definition underive_public_key_suffix (derivation : list Z) (output_index : Z) (derived_key suffix : list Z) : outcome (option (list Z)) :=
  o ← shift_key ge_sub (derivation_to_scalar_suffix derivation output_index suffix) derived_key; mret (option_map fst o).

Definition derive_secret_key (derivation : list Z) (output_index : Z) (base : list Z) : outcome (list Z) :=
  _ ← assert_scalar base;
  scalar ← derivation_to_scalar derivation output_index;
  sc_add base scalar.
Definition derive_secret_key_suffix (derivation : list Z) (output_index : Z) (base suffix : list Z) : outcome (list Z) :=
  _ ← assert_scalar base;
  scalar ← derivation_to_scalar_suffix derivation output_index suffix;
  sc_add base scalar.

(** ** Signatures *)

(** The assertions that the public key is the one of the secret key. *)
Definition assert_key_pair (pub sec : list Z) : outcome unit :=
  _ ← assert_scalar sec;
  t2 ← base_multiple sec;
  assert_ (bool_decide (pub = t2)).

Definition generate_signature (prefix_hash pub sec : list Z) : M rng (list Z) :=
  _ ← lift (assert_key_pair pub sec);
  k ← random_scalar;
  comm ← lift (base_multiple k);
  c ← lift (hash_to_scalar (prefix_hash ++ pub ++ comm));
  r ← lift (sc_mulsub c sec k);
  mret (c ++ r).

Definition check_signature (prefix_hash pub sig : list Z) : outcome bool :=
  ok ← check_key pub;
  _ ← assert_ ok;
  o ← ge_frombytes_vartime pub;
  match o with
  | None => Abort
  | Some tmp3 =>
      let c := take 32 sig in
      let r := drop 32 sig in
      b ← sc_check c;
      if negb (b =? 0) then mret false
      else
        b ← sc_check r;
        if negb (b =? 0) then mret false
        else
          tmp2 ← ge_double_scalarmult_base_vartime c tmp3 r;
          comm ← ge_tobytes tmp2;
          h ← hash_to_scalar (prefix_hash ++ pub ++ comm);
          h ← sc_sub h c;
          n ← sc_isnonzero h;
          mret (n =? 0)
  end.

(** ** Key images *)

Definition hash_to_point (data : list Z) : outcome ge_p1p1 :=
  h ← cn_fast_hash data;
  point ← ge_fromfe_frombytes_vartime h;
  ge_mul8 point.

Definition hash_to_ec (key : list Z) : outcome ge_p3 := point2 ← hash_to_point key; ge_p1p1_to_p3 point2.

Definition hash_data_to_ec (data : list Z) : outcome (list Z) :=
  point2 ← hash_to_point data; point ← ge_p1p1_to_p2 point2; ge_tobytes point.

(** The result of the conversion is not checked: without a point the operand is not
    initialised. *)
Definition scalarmultKey (P a : list Z) : outcome (list Z) :=
  o ← ge_frombytes_vartime P;
  match o with None => Abort | Some A => R ← ge_scalarmult a A; ge_tobytes R end.

Definition generate_key_image (pub sec : list Z) : outcome (list Z) :=
  _ ← assert_scalar sec;
  point ← hash_to_ec pub;
  point2 ← ge_scalarmult sec point;
  ge_tobytes point2.

Definition generate_incomplete_key_image (pub : list Z) : outcome (list Z) := point ← hash_to_ec pub; ge_p3_tobytes point.

(** ** Ring signatures *)

Definition assert_keys (pubs : list (list Z)) : outcome unit :=
  foldr (λ pub rest, ok ← check_key pub; _ ← assert_ ok; rest) (mret tt) pubs.

(** The two points of a member of the ring: [c P + r B] and [r H(P) + c I]. *)
Definition ring_commitment (image_pre : list ge_cached) (pub c r : list Z) : outcome (list Z) :=
  o ← ge_frombytes_vartime pub;
  match o with
  | None => Abort
  | Some tmp3 =>
      tmp2 ← ge_double_scalarmult_base_vartime c tmp3 r;
      a ← ge_tobytes tmp2;
      tmp3 ← hash_to_ec pub;
      tmp2 ← ge_double_scalarmult_precomp_vartime r tmp3 c image_pre;
      b ← ge_tobytes tmp2;
      mret (a ++ b)
  end.

(** The two points of the member that signs: [k B] and [k H(P)]. *)
Definition ring_own_commitment (pub k : list Z) : outcome (list Z) :=
  a ← base_multiple k;
  tmp3 ← hash_to_ec pub;
  tmp2 ← ge_scalarmult k tmp3;
  b ← ge_tobytes tmp2;
  mret (a ++ b).

(** What the loop of the generation leaves: the bytes of the points, the sum, the number
    [k], and the signatures, of which the one of the signer is still to be computed. *)
Record ring_progress := Ring { ring_buf : list Z; ring_sum : list Z; ring_k : list Z; ring_sigs : list (list Z) }.

Fixpoint generate_ring_loop (image_pre : list ge_cached) (pubs : list (list Z)) (i sec_index : nat) (p : ring_progress) : M rng ring_progress :=
  match pubs with
  | [] => mret p
  | pub :: pubs' =>
      p ← (if (i =? sec_index)%nat then
             k ← random_scalar;
             ab ← lift (ring_own_commitment pub k);
             mret (Ring (ring_buf p ++ ab) (ring_sum p) k (ring_sigs p ++ [replicate 64 0]))
           else
             c ← random_scalar;
             r ← random_scalar;
             ab ← lift (ring_commitment image_pre pub c r);
             sum ← lift (sc_add (ring_sum p) c);
             mret (Ring (ring_buf p ++ ab) sum (ring_k p) (ring_sigs p ++ [c ++ r])));
      generate_ring_loop image_pre pubs' (S i) sec_index p
  end.

Definition generate_ring_signature (prefix_hash image : list Z) (pubs : list (list Z)) (sec : list Z) (sec_index : nat) : M rng (list (list Z)) :=
  match pubs !! sec_index with
  | None => abort
  | Some pub =>
      _ ← lift (assert_key_pair pub sec);
      t3 ← lift (generate_key_image pub sec);
      _ ← lift (assert_ (bool_decide (image = t3)));
      _ ← lift (assert_keys pubs);
      o ← lift (ge_frombytes_vartime image);
      match o with
      | None => abort
      | Some image_unp =>
          image_pre ← lift (ge_dsm_precomp image_unp);
          p ← generate_ring_loop image_pre pubs 0 sec_index (Ring prefix_hash sc_0 sc_0 []);
          h ← lift (hash_to_scalar (ring_buf p));
          c ← lift (sc_sub h (ring_sum p));
          r ← lift (sc_mulsub c sec (ring_k p));
          mret (<[sec_index := c ++ r]> (ring_sigs p))
      end
  end.

(** The loop of the check; [None] is the return of [false]. *)
Fixpoint check_ring_loop (image_pre : list ge_cached) (pubs sigs : list (list Z)) (buf sum : list Z) : outcome (option (list Z * list Z)) :=
  match pubs, sigs with
  | [], _ => mret (Some (buf, sum))
  | _ :: _, [] => Abort
  | pub :: pubs', sig :: sigs' =>
      let c := take 32 sig in
      let r := drop 32 sig in
      b ← sc_check c;
      if negb (b =? 0) then mret None
      else
        b ← sc_check r;
        if negb (b =? 0) then mret None
        else
          ab ← ring_commitment image_pre pub c r;
          sum ← sc_add sum c;
          check_ring_loop image_pre pubs' sigs' (buf ++ ab) sum
  end.

Definition check_ring_signature (prefix_hash image : list Z) (pubs sigs : list (list Z)) : outcome bool :=
  _ ← assert_keys pubs;
  o ← ge_frombytes_vartime image;
  match o with
  | None => mret false
  | Some image_unp =>
      image_pre ← ge_dsm_precomp image_unp;
      o ← check_ring_loop image_pre pubs sigs prefix_hash sc_0;
      match o with
      | None => mret false
      | Some (buf, sum) =>
          h ← hash_to_scalar buf;
          h ← sc_sub h sum;
          n ← sc_isnonzero h;
          mret (n =? 0)
      end
  end.
