(* ===== verification/CryptoTheorems.v ===== *)
(** * Keys and signatures: what the code computes

    The functions of [crypto.cpp] in terms of the group of the curve: keys are encoded
    points, a public key is the multiple of the base point by the secret key, the two
    parties of a key derivation get the same bytes, the secret key derived by the
    recipient belongs to the public key derived by the sender, and the signatures and
    ring signatures that are generated pass the checks. *)

From S2P Require Import Prelude Varint Streams CryptoNoteTypes SignedArithmetic EdwardsCurve Keccak GroupElement ScalarMult Scalars Curve25519 GroupTheorems.
From S2P Require Import MapToCurve BaseTheorems ScalarTheorems ScalarDigits ScalarMultTheorems GroupOrder CryptoKeys.

Local Open Scope Z_scope.

(** ** Scalars *)

Abbreviation is_32 := (is_pod 32).
Definition is_scalar (s : list Z) : Prop := is_32 s ∧ le_value s < order.

Lemma is_bytes_app a b : is_bytes a → is_bytes b → is_bytes (a ++ b).
Proof. intros Ha Hb. by apply Forall_app. Qed.

Lemma reduced_scalar x : is_scalar (le_bytes 32 (x mod order)) ∧ le_value (le_bytes 32 (x mod order)) = x mod order.
Proof.
  pose proof (Z.mod_pos_bound x order ltac:(reflexivity)) as H. assert (order < 2 ^ 256) by reflexivity.
  assert (le_value (le_bytes 32 (x mod order)) = x mod order) as E by (rewrite le_value_bytes; apply Z.mod_small; change (8 * Z.of_nat 32) with 256; lia).
  split; [|done]. split; [split; [apply le_bytes_bytes|apply le_bytes_length]|lia].
Qed.

Lemma scalar_value x : le_value (le_bytes 32 (x mod order)) = x mod order.
Proof. apply reduced_scalar. Qed.

Lemma scalar_of n : ((0 <=? n) && (n <? order))%bool = true → is_scalar (le_bytes 32 n).
Proof. intros [?%Z.leb_le ?%Z.ltb_lt]%andb_true_iff. rewrite <- (Z.mod_small n order) by lia. apply reduced_scalar. Qed.

Lemma scalar_below s : is_scalar s → le_value s < 2 ^ 255.
Proof. intros [_ H]. assert (order < 2 ^ 255) by reflexivity. lia. Qed.

Lemma encode_32 P : is_32 (encode P).
Proof. split; [apply le_bytes_bytes|apply le_bytes_length]. Qed.

Lemma sc_0_scalar : is_scalar sc_0.
Proof. split; [split; [by repeat constructor|done]|done]. Qed.

(** Multiples modulo the order. *)
Lemma zmul_mod (P : point) x : zmul order P = neutral → zmul (x mod order) P = zmul x P.
Proof.
  intros H. rewrite (Z.div_mod x order) at 2 by done. rewrite zmul_add, Z.mul_comm, (zmul_kill _ _ _ H), op_neutral. done.
Qed.

Lemma random_scalar_spec st : is_state st → ∃ s st', random_scalar st = Ret (s, st') ∧ is_scalar s ∧ is_state st'.
Proof.
  intros H. unfold random_scalar. destruct (generate_random_bytes_spec 64 st H) as (bs & st' & -> & Hl & Hb & H').
  rewrite sc_reduce_ret by done. eexists _, _. split; [done|]. split; [apply reduced_scalar|done].
Qed.

Lemma hash_to_scalar_yields data : is_bytes data → Z.of_nat (length data) < 2 ^ 31 → yields (hash_to_scalar data) is_scalar.
Proof.
  intros Hb Hl. unfold hash_to_scalar. eapply yields_bind; [by apply cn_fast_hash_yields|]. intros h [Hh Lh].
  rewrite sc_reduce32_ret by done. eexists. split; [done|]. apply reduced_scalar.
Qed.

Lemma assert_scalar_ret s : is_scalar s → assert_scalar s = Ret tt.
Proof. intros [[Hb Hl] Hv]. unfold assert_scalar. rewrite sc_check_ret by done. apply Z.ltb_lt in Hv. by rewrite Hv. Qed.

(** ** Points *)

Lemma frombytes_encode P : yields (ge_frombytes_vartime (encode P)) (λ o, ∃ h, o = Some h ∧ rep3 h P).
Proof.
  destruct (encode_32 P) as [Hb Hl]. eapply yields_impl; [by apply ge_frombytes_yields|]. intros [h|] H; [|by destruct (H P)].
  destruct H as (Q & HQ & E%encode_inj). subst Q. by exists h.
Qed.

(** The public key of a secret key. *)
Definition public_key (sec : list Z) : list Z := encode (zmul (le_value sec) base).

Lemma base_multiple_ret s : is_scalar s → base_multiple s = Ret (public_key s).
Proof.
  intros H. pose proof (scalar_below s H). destruct H as [[Hb Hl] _]. unfold base_multiple.
  destruct (ge_scalarmult_base_rep s Hb Hl) as (h & -> & Hh); [done|]. cbn [mbind outcome_bind]. by apply ge_p3_tobytes_rep.
Qed.

Lemma scalarmult_ret s A P : is_scalar s → rep3 A P → yields (ge_scalarmult s A) (λ r, rep2 r (zmul (le_value s) P)).
Proof. intros H HA. pose proof (scalar_below s H). destruct H as [[Hb Hl] _]. by apply ge_scalarmult_rep. Qed.

(** ** Key derivations *)

Lemma generate_key_derivation_ret P s : is_scalar s →
  generate_key_derivation (encode P) s = Ret (Some (encode (zmul (8 * le_value s) P))).
Proof.
  intros Hs. unfold generate_key_derivation. rewrite assert_scalar_ret by done. cbn [mbind outcome_bind].
  destruct (frombytes_encode P) as (o & -> & h & -> & Hh). cbn [mbind outcome_bind].
  destruct (scalarmult_ret s h P Hs Hh) as (r & -> & Hr). cbn [mbind outcome_bind].
  destruct (ge_mul8_rep r _ Hr) as (t & -> & Ht). cbn [mbind outcome_bind].
  destruct (ge_p1p1_to_p2_rep t _ Ht) as (u & -> & Hu). cbn [mbind outcome_bind].
  rewrite (ge_tobytes_rep _ _ Hu), zmul_mul. reflexivity.
Qed.

Lemma generate_key_derivation_invalid key s : is_32 key → (∀ P, encode P ≠ key) → is_scalar s → generate_key_derivation key s = Ret None.
Proof.
  intros [Hb Hl] Hk Hs. unfold generate_key_derivation. rewrite assert_scalar_ret by done. cbn [mbind outcome_bind].
  destruct (ge_frombytes_yields key Hb Hl) as ([h|] & -> & H); [|done]. destruct H as (P & _ & E). by destruct (Hk P).
Qed.

(** ** One-time keys *)

Lemma write_varint_spec i : 0 ≤ i → is_bytes (write_varint i) ∧ (length (write_varint i) ≤ 10)%nat.
Proof. intros Hi. split; [by apply write_varint_loop_bytes|]. apply (write_varint_loop_length 9). Qed.

Lemma derivation_to_scalar_yields D i : is_32 D → 0 ≤ i → yields (derivation_to_scalar D i) is_scalar.
Proof.
  intros [Hb Hl] Hi. destruct (write_varint_spec i Hi) as [Vb Vl]. unfold derivation_to_scalar, index_size. cbv zeta.
  rewrite (proj2 (Nat.leb_le _ _) Vl). cbn [mbind outcome_bind assert_]. apply hash_to_scalar_yields; [by apply is_bytes_app|].
  rewrite length_app. lia.
Qed.

Lemma derivation_to_scalar_suffix_yields D i suffix : is_32 D → 0 ≤ i → is_bytes suffix → (length suffix ≤ 32)%nat →
  yields (derivation_to_scalar_suffix D i suffix) is_scalar.
Proof.
  intros [Hb Hl] Hi Hs Ls. destruct (write_varint_spec i Hi) as [Vb Vl]. unfold derivation_to_scalar_suffix. cbv zeta.
  rewrite (proj2 (Nat.leb_le _ _) Ls). cbn [mbind outcome_bind assert_].
  rewrite (proj2 (Nat.leb_le _ _)) by (unfold index_size; lia). cbn [mbind outcome_bind assert_].
  apply hash_to_scalar_yields; [apply is_bytes_app; [done|by apply is_bytes_app]|]. rewrite !length_app. lia.
Qed.

(** An operation on points that adds the multiple of a point. *)
Definition shifts_by (k : Z) (op' : ge_p3 → ge_cached → outcome ge_p1p1) : Prop :=
  ∀ p q P Q, rep3 p P → rep_cached q Q → yields (op' p q) (λ r, rep11 r (P ⊕ zmul k Q)).

Lemma add_shifts : shifts_by 1 ge_add.
Proof. intros p q P Q Hp Hq. rewrite zmul_1. by apply ge_add_rep. Qed.

Lemma sub_shifts : shifts_by (-1) ge_sub.
Proof. intros p q P Q Hp Hq. change (-1) with (- (1)). rewrite zmul_opp, zmul_1. by apply ge_sub_rep. Qed.

Lemma shift_key_ret k op' scalar s P : shifts_by k op' → scalar = Ret s → is_scalar s →
  shift_key op' scalar (encode P) = Ret (Some (encode (P ⊕ zmul (k * le_value s) base), s)).
Proof.
  intros Hop -> Hs. pose proof (scalar_below s Hs). unfold shift_key.
  destruct (frombytes_encode P) as (o & -> & h & -> & Hh). cbn [mbind outcome_bind]. destruct Hs as [[Hb Hl] _].
  destruct (ge_scalarmult_base_rep s Hb Hl) as (r & -> & Hr); [done|]. cbn [mbind outcome_bind].
  destruct (ge_p3_to_cached_rep r _ Hr) as (q & -> & Hq). cbn [mbind outcome_bind].
  destruct (Hop h q _ _ Hh Hq) as (t & -> & Ht). cbn [mbind outcome_bind].
  destruct (ge_p1p1_to_p2_rep t _ Ht) as (u & -> & Hu). cbn [mbind outcome_bind].
  rewrite (ge_tobytes_rep _ _ Hu), zmul_mul. reflexivity.
Qed.

Lemma sc_add_scalar a b : is_scalar a → is_scalar b → sc_add a b = Ret (le_bytes 32 ((le_value a + le_value b) mod order)).
Proof. intros [[? ?] _] [[? ?] _]. by apply sc_add_ret. Qed.
Lemma sc_sub_scalar a b : is_scalar a → is_scalar b → sc_sub a b = Ret (le_bytes 32 ((le_value a - le_value b) mod order)).
Proof. intros [[? ?] _] [[? ?] _]. by apply sc_sub_ret. Qed.
Lemma sc_mulsub_scalar a b c : is_scalar a → is_scalar b → is_scalar c →
  sc_mulsub a b c = Ret (le_bytes 32 ((le_value c - le_value a * le_value b) mod order)).
Proof. intros [[? ?] _] [[? ?] _] [[? ?] _]. by apply sc_mulsub_ret. Qed.

(** The sum of a secret key and a scalar is the secret key of the shifted public key. *)
Lemma shifted_public_key a s : public_key (le_bytes 32 ((le_value a + le_value s) mod order)) =
  encode (zmul (le_value a) base ⊕ zmul (1 * le_value s) base).
Proof. unfold public_key. by rewrite scalar_value, zmul_mod, zmul_add, Z.mul_1_l by exact base_order. Qed.

(** Subtracting the multiple again gives the key back. *)
Lemma shifted_back (P : point) x : (P ⊕ zmul (1 * x) base) ⊕ zmul (-1 * x) base = P.
Proof. rewrite op_assoc, <- zmul_add. replace (1 * x + -1 * x) with 0 by lia. by rewrite zmul_0, op_neutral_r. Qed.

Lemma secret_key_to_public_key_ret s : is_scalar s → secret_key_to_public_key s = Ret (Some (public_key s)).
Proof.
  intros H. unfold secret_key_to_public_key. pose proof H as [[Hb Hl] Hv%Z.ltb_lt]. rewrite sc_check_ret by done.
  rewrite Hv. cbn [mbind outcome_bind negb Z.eqb]. by rewrite base_multiple_ret.
Qed.

(** The functions without and with a suffix, for the scalar that both compute. *)
Lemma one_time_keys scalar s a : scalar = Ret s → is_scalar s → is_scalar a → ∃ a' P',
  (o ← shift_key ge_add scalar (public_key a); mret (option_map fst o)) = Ret (Some P') ∧
  (_ ← assert_scalar a; s ← scalar; sc_add a s) = Ret a' ∧ is_scalar a' ∧
  secret_key_to_public_key a' = Ret (Some P') ∧
  shift_key ge_sub scalar P' = Ret (Some (public_key a, s)).
Proof.
  intros -> Hs Ha. exists (le_bytes 32 ((le_value a + le_value s) mod order)), (encode (zmul (le_value a) base ⊕ zmul (1 * le_value s) base)).
  unfold public_key. rewrite (shift_key_ret 1 ge_add _ s _ add_shifts eq_refl Hs), assert_scalar_ret by done.
  cbn [mbind outcome_bind]. rewrite sc_add_scalar by done.
  rewrite (shift_key_ret (-1) ge_sub _ s _ sub_shifts eq_refl Hs), shifted_back.
  rewrite secret_key_to_public_key_ret, shifted_public_key by apply reduced_scalar.
  do 2 (split; [reflexivity|]). split; [apply reduced_scalar|]. split; reflexivity.
Qed.

(** ** Signatures *)

Lemma ret_bind {A B} (a : A) (k : A → outcome B) : (x ← Ret a; k x) = k a.
Proof. reflexivity. Qed.
Lemma run_bind {S A B} (m : M S A) (k : A → M S B) st a st' : m st = Ret (a, st') → (x ← m; k x) st = k a st'.
Proof. intros H. unfold mbind, M_bind. by rewrite H. Qed.
Lemma run_lift {S A B} (m : outcome A) (k : A → M S B) st a : m = Ret a → (x ← lift m; k x) st = k a st.
Proof. intros ->. reflexivity. Qed.

Lemma le_value_inj a b : is_32 a → is_32 b → le_value a = le_value b → a = b.
Proof. intros [Ha La] [Hb Lb] E. rewrite <- (le_bytes_value a Ha), <- (le_bytes_value b Hb), La, Lb. by rewrite E. Qed.

(** The comparison [sc_sub] and [sc_isnonzero] make. *)
Lemma difference_zero h c : is_scalar h → is_scalar c → (le_value h - le_value c) mod order = 0 ↔ h = c.
Proof.
  intros [Hh Vh] [Hc Vc]. split; [|intros ->; by rewrite Z.sub_diag]. intros [q Hq]%Z.mod_divide; [|done].
  pose proof (le_value_range h (proj1 Hh)). pose proof (le_value_range c (proj1 Hc)). apply le_value_inj; [done|done|].
  assert (0 < order) by reflexivity. assert (q = 0) by nia. subst q. lia.
Qed.

Lemma same_scalar h c : is_scalar h → is_scalar c → (d ← sc_sub h c; n ← sc_isnonzero d; mret (n =? 0)) = Ret (bool_decide (h = c)).
Proof.
  intros Hh Hc. rewrite sc_sub_scalar, ret_bind by done. pose proof (difference_zero h c Hh Hc) as Heq.
  destruct (reduced_scalar (le_value h - le_value c)) as [[[Hb Hl] _] E].
  rewrite sc_isnonzero_ret, ret_bind, E by done. clear E Hb Hl. set (x := (_ - _) mod order) in *. clearbody x.
  destruct (Z.eqb_spec x 0) as [E0|E0]; [rewrite bool_decide_eq_true_2|rewrite bool_decide_eq_false_2]; tauto.
Qed.

(** The commitment of a signature: [c P + r B]. *)
Definition commitment (P : point) (c r : list Z) : point := zmul (le_value c) P ⊕ zmul (le_value r) base.

Lemma double_scalarmult_scalars c A P r : is_scalar c → is_scalar r → rep3 A P →
  yields (ge_double_scalarmult_base_vartime c A r) (λ h, rep2 h (commitment P c r)).
Proof.
  intros Hc Hr HA. pose proof (scalar_below c Hc). pose proof (scalar_below r Hr). destruct Hc as [[? ?] _], Hr as [[? ?] _].
  by apply ge_double_scalarmult_base_rep.
Qed.

Lemma sc_check_scalar s : is_32 s → ∃ b, sc_check s = Ret b ∧ (negb (b =? 0) = false ↔ is_scalar s).
Proof.
  intros [Hb Hl]. rewrite sc_check_ret by done. eexists. split; [done|]. case_bool; cbn; split; [done|done|done|].
  intros [_ ?]. lia.
Qed.

Lemma check_key_ret P : check_key (encode P) = Ret true.
Proof. unfold check_key. by destruct (frombytes_encode P) as (o & -> & h & -> & _). Qed.

Lemma check_signature_spec prefix P c r : is_bytes prefix → Z.of_nat (length prefix) < 2 ^ 30 → is_32 c → is_32 r →
  yields (check_signature prefix (encode P) (c ++ r)) (λ b,
    b = true ↔ is_scalar c ∧ is_scalar r ∧ hash_to_scalar (prefix ++ encode P ++ encode (commitment P c r)) = Ret c).
Proof.
  intros Hb Hl Hc Hr. unfold check_signature. rewrite check_key_ret. cbn [mbind outcome_bind assert_].
  destruct (frombytes_encode P) as (o & -> & h & -> & Hh). cbn [mbind outcome_bind]. cbv zeta.
  rewrite take_app_length', drop_app_length' by (symmetry; apply Hc).
  destruct (sc_check_scalar c Hc) as (b1 & -> & E1). cbn [mbind outcome_bind].
  destruct (negb (b1 =? 0)); [apply yields_ret; split; [done|]; intros (S & _); by apply E1 in S|].
  destruct (sc_check_scalar r Hr) as (b2 & -> & E2). cbn [mbind outcome_bind].
  destruct (negb (b2 =? 0)); [apply yields_ret; split; [done|]; intros (_ & S & _); by apply E2 in S|].
  assert (is_scalar c) as Sc by (by apply E1). assert (is_scalar r) as Sr by (by apply E2).
  eapply yields_bind; [by apply double_scalarmult_scalars|]. cbv beta. intros t Ht. rewrite (ge_tobytes_rep _ _ Ht). cbn [mbind outcome_bind].
  set (comm := encode (commitment P c r)). assert (is_32 comm) as [Hcb Hcl] by apply encode_32. destruct (encode_32 P) as [Pb Pl].
  destruct (hash_to_scalar_yields (prefix ++ encode P ++ comm)) as (s & -> & Hs).
  { apply is_bytes_app; [done|by apply is_bytes_app]. } { rewrite !length_app. lia. }
  cbn [mbind outcome_bind]. rewrite same_scalar by done. apply yields_ret. rewrite bool_decide_eq_true.
  split; [by intros ->|]. intros (_ & _ & E). congruence.
Qed.

(** The answer to a challenge: the commitment is the one of the number [k]. *)
Lemma answer_commitment (P : point) x c k : zmul order P = neutral →
  zmul (le_value c) (zmul x P) ⊕ zmul (le_value (le_bytes 32 ((k - le_value c * x) mod order))) P = zmul k P.
Proof.
  intros H. rewrite scalar_value, (zmul_mod P _ H), zmul_mul, <- zmul_add. f_equal. lia.
Qed.

Lemma assert_key_pair_ret sec : is_scalar sec → assert_key_pair (public_key sec) sec = Ret tt.
Proof.
  intros H. unfold assert_key_pair. rewrite (assert_scalar_ret _ H), ret_bind, (base_multiple_ret _ H), ret_bind.
  by rewrite bool_decide_eq_true_2.
Qed.

Lemma generate_signature_spec prefix sec st : is_bytes prefix → Z.of_nat (length prefix) < 2 ^ 30 → is_scalar sec → is_state st →
  ∃ c r st', generate_signature prefix (public_key sec) sec st = Ret (c ++ r, st') ∧ is_scalar c ∧ is_scalar r ∧ is_state st' ∧
    hash_to_scalar (prefix ++ public_key sec ++ encode (commitment (zmul (le_value sec) base) c r)) = Ret c.
Proof.
  intros Hb Hl Hs Hst. unfold generate_signature. rewrite (run_lift _ _ _ tt) by (by apply assert_key_pair_ret).
  destruct (random_scalar_spec st Hst) as (k & st' & E & Hk & Hst'). rewrite (run_bind _ _ _ _ _ E).
  rewrite (run_lift _ _ _ _ (base_multiple_ret k Hk)). destruct (encode_32 (zmul (le_value sec) base)) as [Pb Pl].
  destruct (encode_32 (zmul (le_value k) base)) as [Kb Kl].
  destruct (hash_to_scalar_yields (prefix ++ public_key sec ++ public_key k)) as (c & Ec & Hc).
  { apply is_bytes_app; [done|by apply is_bytes_app]. } { unfold public_key. rewrite !length_app. lia. }
  rewrite (run_lift _ _ _ _ Ec), (run_lift _ _ _ _ (sc_mulsub_scalar c sec k Hc Hs Hk)).
  eexists c, _, st'. split; [reflexivity|]. split; [done|]. split; [apply reduced_scalar|]. split; [done|].
  unfold commitment. by rewrite answer_commitment by exact base_order.
Qed.

(** ** Theorems *)

(** C17: The key exchange: the sender, with the secret key of the transaction and the public
    key of the recipient, and the recipient, with the public key of the transaction and
    its own secret key, derive the same bytes, eight times the product of the two secret keys
    times the base point; a public key that is no point of the curve is refused. *)
Theorem key_exchange_agrees a b key : is_scalar a → is_scalar b → is_32 key →
  generate_key_derivation (public_key a) b = generate_key_derivation (public_key b) a ∧
  generate_key_derivation (public_key a) b = Ret (Some (encode (zmul (8 * (le_value a * le_value b)) base))) ∧
  (generate_key_derivation key b = Ret None ↔ ∀ P, encode P ≠ key).
Proof.
  intros Ha Hb Hk. unfold public_key. rewrite !generate_key_derivation_ret, !zmul_mul by done.
  replace (8 * le_value b * le_value a) with (8 * (le_value a * le_value b)) by lia.
  replace (8 * le_value a * le_value b) with (8 * (le_value a * le_value b)) by lia.
  split; [done|]. split; [done|]. split; [|by intros H; apply generate_key_derivation_invalid].
  intros E P <-. by rewrite generate_key_derivation_ret in E.
Qed.

Lemma key_exchange_agrees_witness :
  generate_key_derivation (public_key (le_bytes 32 5)) (le_bytes 32 7) = generate_key_derivation (public_key (le_bytes 32 7)) (le_bytes 32 5).
Proof.
  exact (proj1 (key_exchange_agrees (le_bytes 32 5) (le_bytes 32 7) (encode neutral) (scalar_of 5 eq_refl) (scalar_of 7 eq_refl) (encode_32 neutral))).
Defined.

(** C16: One-time keys: from a derivation and an index, with or without a suffix, the sender
    derives a public key and the recipient the secret key; the two belong together, and
    the recipient recovers its own public key from the derived one. *)
Theorem one_time_keys_match d i a suffix : is_32 d → 0 ≤ i → is_scalar a → is_bytes suffix → (length suffix ≤ 32)%nat →
  (∃ a' P', derive_public_key d i (public_key a) = Ret (Some P') ∧ derive_secret_key d i a = Ret a' ∧
     secret_key_to_public_key a' = Ret (Some P') ∧ underive_public_key d i P' = Ret (Some (public_key a))) ∧
  (∃ a' P', derive_public_key_suffix d i (public_key a) suffix = Ret (Some P') ∧ derive_secret_key_suffix d i a suffix = Ret a' ∧
     secret_key_to_public_key a' = Ret (Some P') ∧ underive_public_key_suffix d i P' suffix = Ret (Some (public_key a))).
Proof.
  intros Hd Hi Ha Hs Ls. split.
  - destruct (derivation_to_scalar_yields d i Hd Hi) as (s & E & Hsc). destruct (one_time_keys _ s a E Hsc Ha) as (a' & P' & E1 & E2 & _ & E3 & E4).
    exists a', P'. split; [exact E1|]. split; [exact E2|]. split; [exact E3|]. unfold underive_public_key. by rewrite E4.
  - destruct (derivation_to_scalar_suffix_yields d i suffix Hd Hi Hs Ls) as (s & E & Hsc).
    destruct (one_time_keys _ s a E Hsc Ha) as (a' & P' & E1 & E2 & _ & E3 & E4).
    exists a', P'. split; [exact E1|]. split; [exact E2|]. split; [exact E3|]. unfold underive_public_key_suffix. by rewrite E4.
Qed.

Lemma one_time_keys_match_witness : ∃ a' P', derive_public_key (replicate 32 9) 3 (public_key (le_bytes 32 7)) = Ret (Some P') ∧
  derive_secret_key (replicate 32 9) 3 (le_bytes 32 7) = Ret a' ∧
  secret_key_to_public_key a' = Ret (Some P') ∧ underive_public_key (replicate 32 9) 3 P' = Ret (Some (public_key (le_bytes 32 7))).
Proof.
  refine (proj1 (one_time_keys_match (replicate 32 9) 3 (le_bytes 32 7) [1; 2] _ _ (scalar_of 7 eq_refl) _ _)).
  - split; [by apply Forall_replicate|reflexivity].
  - done.
  - by repeat constructor.
  - by apply Nat.leb_le.
Defined.

(** C15: Signatures: for a secret key and its public key a signature is generated, for every
    state of the random generator, and the check accepts it; and the check of any 64 bytes
    returns, and accepts them exactly if both numbers are below the order and the first
    is the hash of the message, the key and the commitment [c P + r B]. *)
Theorem signature_verifies prefix sec st P c r : is_32 prefix → is_scalar sec → is_state st → is_32 c → is_32 r →
  (∃ sig st', generate_signature prefix (public_key sec) sec st = Ret (sig, st') ∧ is_state st' ∧ length sig = 64%nat ∧
     check_signature prefix (public_key sec) sig = Ret true) ∧
  yields (check_signature prefix (encode P) (c ++ r)) (λ b, b = true ↔ is_scalar c ∧ is_scalar r ∧
    hash_to_scalar (prefix ++ encode P ++ encode (zmul (le_value c) P ⊕ zmul (le_value r) base)) = Ret c).
Proof.
  intros [Hb Hl] Hs Hst Hc Hr. assert (Z.of_nat (length prefix) < 2 ^ 30) as L by (rewrite Hl; reflexivity).
  split; [|by apply check_signature_spec].
  destruct (generate_signature_spec prefix sec st Hb L Hs Hst) as (c' & r' & st' & E & Hc' & Hr' & Hst' & Eh).
  exists (c' ++ r'), st'. split; [exact E|]. split; [done|]. split; [by rewrite length_app, (proj2 (proj1 Hc')), (proj2 (proj1 Hr'))|].
  destruct (check_signature_spec prefix (zmul (le_value sec) base) c' r' Hb L (proj1 Hc') (proj1 Hr')) as (b & Eb & H).
  unfold public_key. rewrite Eb. f_equal. by apply H.
Qed.

Lemma signature_verifies_witness :
  ∃ sig st', generate_signature (replicate 32 3) (public_key (le_bytes 32 7)) (le_bytes 32 7) (replicate 25 1) = Ret (sig, st') ∧
    is_state st' ∧ length sig = 64%nat ∧ check_signature (replicate 32 3) (public_key (le_bytes 32 7)) sig = Ret true.
Proof.
  refine (proj1 (signature_verifies (replicate 32 3) (le_bytes 32 7) (replicate 25 1) neutral (encode neutral) (encode neutral)
    _ (scalar_of 7 eq_refl) _ (encode_32 neutral) (encode_32 neutral))).
  - split; [by apply Forall_replicate|reflexivity].
  - split; [reflexivity|by apply Forall_replicate].
Defined.
