(* ===== verification/RingTheorems.v ===== *)
(** * Key images and ring signatures

    A key image is the multiple of the hash of the public key by the secret key. The
    hash of a key is eight times a point, so that it has the order of the base point:
    the check of the daemon accepts the image, and rejects it with a point of small order
    added. A ring signature that is generated passes the check. *)

From S2P Require Import Prelude Varint Streams CryptoNoteTypes SignedArithmetic EdwardsCurve Keccak GroupElement ScalarMult Scalars Curve25519 GroupTheorems.
From S2P Require Import InputCheck MapToCurve BaseTheorems ScalarTheorems ScalarDigits ScalarMultTheorems GroupOrder CryptoKeys CryptoTheorems.

Local Open Scope Z_scope.

(** ** The hash of a key *)

Lemma ge_mul8_wide t P : rep2_wide t P → yields (ge_mul8 t) (λ r, rep11 r (zmul 8 P)).
Proof.
  intros Ht. unfold ge_mul8. eapply yields_bind; [by apply ge_p2_dbl_wide|]. cbv beta. intros ? ?. do 4 gstep.
  by rewrite !twice, !zmul_mul in *.
Qed.

(** The point [H] that [hash_to_ec] computes for a key. *)
Definition hash_point (key : list Z) (H : point) : Prop :=
  ∃ h, hash_to_ec key = Ret h ∧ rep3 h H ∧ zmul order H = neutral.

Lemma hash_to_ec_yields key : is_bytes key → Z.of_nat (length key) < 2 ^ 31 → ∃ H, hash_point key H.
Proof.
  intros Hb Hl. unfold hash_point, hash_to_ec, hash_to_point. destruct (cn_fast_hash_yields key Hb Hl) as (h & -> & Hh & Lh). rewrite ret_bind.
  destruct (ge_fromfe_yields h Hh Lh) as (q & -> & Q & HQ). rewrite ret_bind.
  destruct (ge_mul8_wide q Q HQ) as (t & -> & Ht). rewrite ret_bind. destruct (ge_p1p1_to_p3_rep t _ Ht) as (u & Eu & Hu).
  exists (zmul 8 Q), u. split; [exact Eu|]. split; [exact Hu|apply order_eight].
Qed.

Lemma encoded_hash P : ∃ H, hash_point (encode P) H.
Proof. destruct (encode_32 P) as [Hb Hl]. apply hash_to_ec_yields; [done|]. by rewrite Hl. Qed.

Lemma hash_point_unique key H H' : hash_point key H → hash_point key H' → H = H'.
Proof.
  intros (h & E & R & _) (h' & E' & R' & _). rewrite E in E'. assert (h = h') as <- by congruence. apply encode_inj.
  pose proof (ge_p3_tobytes_rep h H R) as T. rewrite (ge_p3_tobytes_rep h H' R') in T. congruence.
Qed.

(** ** Key images *)

Lemma generate_key_image_ret pub H sec : hash_point pub H → is_scalar sec →
  generate_key_image pub sec = Ret (encode (zmul (le_value sec) H)).
Proof.
  intros (h & E & Hh & _) Hs. unfold generate_key_image. rewrite (assert_scalar_ret _ Hs), ret_bind, E, ret_bind.
  destruct (scalarmult_ret sec h H Hs Hh) as (r & -> & Hr). rewrite ret_bind. by apply ge_tobytes_rep.
Qed.

Lemma scalarmultKey_ret P a : is_32 a → le_value a < 2 ^ 255 → scalarmultKey (encode P) a = Ret (encode (zmul (le_value a) P)).
Proof.
  intros [Hb Hl] Hv. unfold scalarmultKey. destruct (frombytes_encode P) as (o & -> & h & -> & Hh). rewrite ret_bind.
  destruct (ge_scalarmult_rep a h P Hb Hl Hv Hh) as (r & -> & Hr). rewrite ret_bind. by apply ge_tobytes_rep.
Qed.

(** The constants of the check of the daemon: the encoded neutral element and the order. *)
Lemma key_image_constants : key_image_I = encode neutral ∧ is_32 key_image_L ∧ le_value key_image_L = order.
Proof. split; [by vm_compute|]. split; [|by vm_compute]. split; [by repeat constructor|done]. Qed.

Lemma key_image_check_ret P : scalarmultKey (encode P) key_image_L = Ret (encode (zmul order P)).
Proof. destruct key_image_constants as (_ & H & E). rewrite <- E. apply scalarmultKey_ret; [exact H|]. by rewrite E. Qed.

Lemma torsion_order (T : point) : zmul 8 T = neutral → zmul order T = neutral → T = neutral.
Proof. intros H8 Ho. pose proof (kill_gcd 8 order T H8 Ho) as K. change (Z.gcd 8 order) with 1 in K. by rewrite zmul_1 in K. Qed.

Lemma image_test P : scalarmultKey (encode P) key_image_L = Ret key_image_I ↔ zmul order P = neutral.
Proof.
  rewrite key_image_check_ret, (proj1 key_image_constants). split; [apply same_bytes|by intros ->].
Qed.

Lemma multiple_killed n (H : point) : zmul order H = neutral → zmul order (zmul n H) = neutral.
Proof. intros E. rewrite zmul_mul, Z.mul_comm. by apply zmul_kill. Qed.

Lemma made_image_passes sec image : is_scalar sec → generate_key_image (public_key sec) sec = Ret image →
  scalarmultKey image key_image_L = Ret key_image_I.
Proof.
  intros Hs E. destruct (encoded_hash (zmul (le_value sec) base)) as [H HH]. fold (public_key sec) in HH.
  rewrite (generate_key_image_ret _ H sec HH Hs) in E. apply Ret_inj in E. subst image. apply image_test, multiple_killed.
  by destruct HH as (_ & _ & _ & ?).
Qed.

(** ** The members of a ring *)

Lemma ring_own_commitment_ret pub H k : hash_point pub H → is_scalar k →
  ring_own_commitment pub k = Ret (encode (zmul (le_value k) base) ++ encode (zmul (le_value k) H)).
Proof.
  intros (h & E & Hh & _) Hk. unfold ring_own_commitment. rewrite (base_multiple_ret _ Hk), ret_bind, E, ret_bind.
  destruct (scalarmult_ret k h H Hk Hh) as (r & -> & Hr). rewrite ret_bind, (ge_tobytes_rep _ _ Hr). reflexivity.
Qed.

Section Ring.
Context (image_pre : list ge_cached) (I : point) (image_table : is_odd_table rep_cached image_pre I).

Lemma ring_commitment_ret P H c r : hash_point (encode P) H → is_scalar c → is_scalar r →
  ring_commitment image_pre (encode P) c r =
  Ret (encode (commitment P c r) ++ encode (zmul (le_value r) H ⊕ zmul (le_value c) I)).
Proof.
  intros (h & E & Hh & _) Hc Hr. unfold ring_commitment. destruct (frombytes_encode P) as (o & -> & q & -> & Hq). rewrite ret_bind.
  destruct (double_scalarmult_scalars c q P r Hc Hr Hq) as (t & -> & Ht). rewrite ret_bind, (ge_tobytes_rep _ _ Ht), ret_bind, E, ret_bind.
  pose proof (scalar_below c Hc). pose proof (scalar_below r Hr). destruct Hc as [[? ?] _], Hr as [[? ?] _].
  destruct (ge_double_scalarmult_precomp_rep r h H c image_pre I) as (u & -> & Hu); try assumption.
  rewrite ret_bind, (ge_tobytes_rep _ _ Hu). reflexivity.
Qed.

(** The commitments of a member have 64 bytes. *)
Lemma ring_commitment_bytes P c r : is_scalar c → is_scalar r →
  yields (ring_commitment image_pre (encode P) c r) (λ ab, is_bytes ab ∧ length ab = 64%nat).
Proof.
  intros Hc Hr. destruct (encoded_hash P) as [H HH]. rewrite (ring_commitment_ret P H c r HH Hc Hr).
  eexists. split; [reflexivity|]. destruct (encode_32 (commitment P c r)) as [? E1].
  destruct (encode_32 (zmul (le_value r) H ⊕ zmul (le_value c) I)) as [? E2].
  split; [by apply is_bytes_app|]. by rewrite length_app, E1, E2.
Qed.

(** The member that signs: with the answer, the commitments are those of [k]. *)
Lemma ring_answer H sec k c : I = zmul (le_value sec) H → hash_point (public_key sec) H → is_scalar c → is_scalar k →
  ring_commitment image_pre (public_key sec) c (le_bytes 32 ((le_value k - le_value c * le_value sec) mod order)) =
  ring_own_commitment (public_key sec) k.
Proof.
  intros HI HH Hc Hk. rewrite (ring_own_commitment_ret _ H k HH Hk). unfold public_key.
  rewrite (ring_commitment_ret _ H) by first [exact HH | exact Hc | apply reduced_scalar].
  unfold commitment. rewrite HI, (op_comm (zmul _ H)), !answer_commitment; [reflexivity| |exact base_order].
  by destruct HH as (_ & _ & _ & ?).
Qed.

Definition is_key (pub : list Z) : Prop := ∃ P, pub = encode P.

(** The check accepts the scalars of the signatures, appends the commitments [ab] and adds
    the challenges, whose sum is [S]. *)
Definition loop_accepts (pubs sigs : list (list Z)) (ab : list Z) (S : Z) : Prop :=
  ∀ buf sum, is_scalar sum → ∃ sum', check_ring_loop image_pre pubs sigs buf sum = Ret (Some (buf ++ ab, sum')) ∧
    is_scalar sum' ∧ le_value sum' = (le_value sum + S) mod order.

Lemma scalar_mod s : is_scalar s → (le_value s + 0) mod order = le_value s.
Proof. intros [[Hb _] Hv]. pose proof (le_value_range _ Hb). rewrite Z.add_0_r. apply Z.mod_small. lia. Qed.

Lemma loop_accepts_nil : loop_accepts [] [] [] 0.
Proof.
  intros buf sum Hs. exists sum. rewrite app_nil_r. split; [reflexivity|]. split; [done|]. symmetry. by apply scalar_mod.
Qed.

Lemma sc_check_accepts s : is_scalar s → sc_check s = Ret 0.
Proof. intros [[Hb Hl] Hv%Z.ltb_lt]. rewrite sc_check_ret by done. by rewrite Hv. Qed.

Lemma loop_accepts_cons pub pubs c r sigs ab1 ab S : is_scalar c → is_scalar r →
  ring_commitment image_pre pub c r = Ret ab1 → loop_accepts pubs sigs ab S →
  loop_accepts (pub :: pubs) ((c ++ r) :: sigs) (ab1 ++ ab) (le_value c + S).
Proof.
  intros Hc Hr E H buf sum Hs. cbn [check_ring_loop]. cbv zeta. pose proof Hc as [[_ Lc] _].
  rewrite take_app_length', drop_app_length' by done.
  rewrite (sc_check_accepts c Hc), ret_bind. change (negb (0 =? 0)) with false. cbv iota.
  rewrite (sc_check_accepts r Hr), ret_bind. change (negb (0 =? 0)) with false. cbv iota.
  rewrite E, ret_bind, (sc_add_scalar sum c Hs Hc), ret_bind.
  destruct (H (buf ++ ab1) (le_bytes 32 ((le_value sum + le_value c) mod order))) as (sum' & -> & Hs' & V); [apply reduced_scalar|].
  exists sum'. rewrite <- app_assoc. split; [reflexivity|]. split; [done|]. rewrite V, scalar_value, Z.add_mod_idemp_l by done. f_equal. lia.
Qed.

(** What the loop of the generation adds to its progress: signatures, the bytes of the
    commitments and the sum [S] of the challenges. *)
Definition progress (p p' : ring_progress) (n : nat) (sigs : list (list Z)) (ab : list Z) (S : Z) : Prop :=
  ring_sigs p' = ring_sigs p ++ sigs ∧ length sigs = n ∧ ring_buf p' = ring_buf p ++ ab ∧
  is_bytes ab ∧ length ab = (64 * n)%nat ∧ is_scalar (ring_sum p') ∧ le_value (ring_sum p') = (le_value (ring_sum p) + S) mod order.

(** The turn of another member. *)
Lemma other_turn P c r p : is_scalar c → is_scalar r → is_scalar (ring_sum p) →
  ∃ ab sum, ring_commitment image_pre (encode P) c r = Ret ab ∧ is_bytes ab ∧ length ab = 64%nat ∧
    sc_add (ring_sum p) c = Ret sum ∧ is_scalar sum ∧ le_value sum = (le_value (ring_sum p) + le_value c) mod order.
Proof.
  intros Hc Hr Hs. destruct (ring_commitment_bytes P c r Hc Hr) as (ab & E & Hb & Hl). eexists ab, _.
  split; [exact E|]. do 2 (split; [done|]). split; [by apply sc_add_scalar|]. apply reduced_scalar.
Qed.

Lemma progress_cons p q p' n c r sigs ab1 ab S : ring_sigs q = ring_sigs p ++ [c] → ring_buf q = ring_buf p ++ ab1 → is_bytes ab1 →
  length ab1 = 64%nat → le_value (ring_sum q) = (le_value (ring_sum p) + r) mod order → progress q p' n sigs ab S →
  progress p p' (Datatypes.S n) (c :: sigs) (ab1 ++ ab) (r + S).
Proof.
  intros E1 E2 Hb Hl E3 (F1 & F2 & F3 & F4 & F5 & F6 & F7). unfold progress. rewrite F1, F3, F7, E1, E2, E3, <- !app_assoc.
  split; [reflexivity|]. split; [by cbn [length]; rewrite F2|]. split; [reflexivity|]. split; [by apply is_bytes_app|].
  rewrite length_app, Hl, F5. split; [lia|]. split; [done|]. rewrite Z.add_mod_idemp_l by done. f_equal. lia.
Qed.

Lemma other_step P pubs i s p st : i ≠ s → is_scalar (ring_sum p) → is_state st → ∃ c r ab q st',
  generate_ring_loop image_pre (encode P :: pubs) i s p st = generate_ring_loop image_pre pubs (S i) s q st' ∧
  is_state st' ∧ is_scalar (ring_sum q) ∧ ring_k q = ring_k p ∧ is_scalar c ∧ is_scalar r ∧
  ring_commitment image_pre (encode P) c r = Ret ab ∧
  ∀ p' n sigs ab' S, progress q p' n sigs ab' S → progress p p' (Datatypes.S n) ((c ++ r) :: sigs) (ab ++ ab') (le_value c + S).
Proof.
  intros N Hs Hst. cbn [generate_ring_loop]. apply Nat.eqb_neq in N. rewrite N.
  destruct (random_scalar_spec st Hst) as (c & st1 & E1 & Hc & Hst1). destruct (random_scalar_spec st1 Hst1) as (r & st2 & E2 & Hr & Hst2).
  destruct (other_turn P c r p Hc Hr Hs) as (ab & sum & Eab & Hb & Hl & Esum & Hsum & V).
  eexists c, r, ab, (Ring (ring_buf p ++ ab) sum (ring_k p) (ring_sigs p ++ [c ++ r])), st2. split.
  { apply run_bind. rewrite (run_bind _ _ _ _ _ E1), (run_bind _ _ _ _ _ E2), (run_lift _ _ _ _ Eab), (run_lift _ _ _ _ Esum). reflexivity. }
  do 6 (split; [done|]). intros p' n sigs ab' S. by apply progress_cons.
Qed.

(** After the turn of the signer. *)
Lemma others_loop pubs : Forall is_key pubs → ∀ i s p st, (s < i)%nat → is_scalar (ring_sum p) → is_state st →
  ∃ p' st' sigs ab S, generate_ring_loop image_pre pubs i s p st = Ret (p', st') ∧ is_state st' ∧ ring_k p' = ring_k p ∧
    progress p p' (length pubs) sigs ab S ∧ loop_accepts pubs sigs ab S.
Proof.
  induction 1 as [|pub pubs [P ->] _ IH]; intros i s p st Hi Hs Hst.
  - eexists p, st, [], [], 0. split; [reflexivity|]. split; [done|]. split; [done|]. split; [|exact loop_accepts_nil].
    unfold progress. rewrite !app_nil_r. do 3 (split; [done|]). split; [constructor|]. split; [done|]. split; [done|].
    symmetry. by apply scalar_mod.
  - destruct (other_step P pubs i s p st ltac:(lia) Hs Hst) as (c & r & ab1 & q & st1 & E & Hst1 & Hq & Ek & Hc & Hr & Eab & HP).
    destruct (IH (S i) s q st1 ltac:(lia) Hq Hst1) as (p' & st' & sigs & ab & S & E' & Hst' & Ek' & Hp & Hl).
    eexists p', st', ((c ++ r) :: sigs), (ab1 ++ ab), (le_value c + S). rewrite E. split; [exact E'|]. split; [done|]. split; [congruence|].
    split; [by apply HP|by apply loop_accepts_cons].
Qed.

(** The whole loop: whatever the challenge and the answer of the signer are, if they have the commitments of
    the number [k] the check accepts the signatures. *)
Lemma ring_loop pubs : Forall is_key pubs → ∀ i n p st own, pubs !! n = Some own → is_scalar (ring_sum p) → is_state st →
  ∃ p' st' sigs ab S, generate_ring_loop image_pre pubs i (i + n) p st = Ret (p', st') ∧ is_state st' ∧ is_scalar (ring_k p') ∧
    progress p p' (length pubs) sigs ab S ∧
    ∀ c r, is_scalar c → is_scalar r → ring_commitment image_pre own c r = ring_own_commitment own (ring_k p') →
      loop_accepts pubs (<[n := c ++ r]> sigs) ab (le_value c + S).
Proof.
  induction 1 as [|pub pubs [P ->] Hpubs IH]; intros i n p st own Hn Hs Hst; [done|]. destruct n as [|n].
  - injection Hn as <-. rewrite Nat.add_0_r. destruct (random_scalar_spec st Hst) as (k & st1 & E1 & Hk & Hst1).
    destruct (encoded_hash P) as [H HH]. pose proof (ring_own_commitment_ret _ H k HH Hk) as Eab.
    set (ab1 := _ ++ _) in Eab. set (q := Ring (ring_buf p ++ ab1) (ring_sum p) k (ring_sigs p ++ [replicate 64 0])).
    destruct (others_loop pubs Hpubs (S i) i q st1 ltac:(lia) Hs Hst1) as (p' & st' & sigs & ab & S & E' & Hst' & Ek & Hp & Hl).
    eexists p', st', (replicate 64 0 :: sigs), (ab1 ++ ab), (0 + S). split.
    { cbn [generate_ring_loop]. rewrite Nat.eqb_refl. erewrite run_bind; [exact E'|].
      rewrite (run_bind _ _ _ _ _ E1), (run_lift _ _ _ _ Eab). reflexivity. }
    split; [done|]. split; [by rewrite Ek|]. destruct (encode_32 (zmul (le_value k) base)) as [B1 L1], (encode_32 (zmul (le_value k) H)) as [B2 L2].
    split; [|intros c r Hc Hr E; rewrite Ek in E; rewrite Z.add_0_l; apply loop_accepts_cons; try assumption; by rewrite E].
    eapply (progress_cons p q); [reflexivity|reflexivity|by apply is_bytes_app|unfold ab1; by rewrite length_app, L1, L2| |exact Hp].
    symmetry. by apply scalar_mod.
  - rewrite Nat.add_succ_r, <- Nat.add_succ_l.
    destruct (other_step P pubs i (S i + n) p st ltac:(lia) Hs Hst) as (c & r & ab1 & q & st1 & E & Hst1 & Hq & Ek & Hc & Hr & Eab & HP).
    destruct (IH (S i) n q st1 own Hn Hq Hst1) as (p' & st' & sigs & ab & S & E' & Hst' & Hk' & Hp & Hl).
    eexists p', st', ((c ++ r) :: sigs), (ab1 ++ ab), (le_value c + S). rewrite E. split; [exact E'|]. split; [done|]. split; [done|].
    split; [by apply HP|]. intros c' r' Hc' Hr' Eo. cbn [list_insert insert].
    replace (le_value c' + (le_value c + S)) with (le_value c + (le_value c' + S)) by lia. apply loop_accepts_cons; try assumption. by apply Hl.
Qed.
End Ring.

(** ** Ring signatures *)

Lemma assert_keys_ret pubs : Forall is_key pubs → assert_keys pubs = Ret tt.
Proof. induction 1 as [|pub pubs [P ->] _ IH]; [reflexivity|]. cbn [assert_keys foldr]. rewrite check_key_ret, ret_bind. exact IH. Qed.

(** The conversion of an image that is a key. *)
Lemma image_table P : ∃ h pre, ge_frombytes_vartime (encode P) = Ret (Some h) ∧ ge_dsm_precomp h = Ret pre ∧ is_odd_table rep_cached pre P.
Proof.
  destruct (frombytes_encode P) as (o & E & h & -> & Hh). destruct (ge_dsm_precomp_rep h P Hh) as (pre & Ep & Hpre). by exists h, pre.
Qed.

(** The sum of the challenges, the signer's included, is the hash. *)
Lemma challenge_sum h sum S : is_scalar h → le_value sum = S mod order →
  (le_value (le_bytes 32 ((le_value h - le_value sum) mod order)) + S) mod order = le_value h.
Proof.
  intros Hh E. rewrite scalar_value, E, Z.add_mod_idemp_l by done. rewrite <- (scalar_mod h Hh) at 2.
  replace (le_value h - S mod order + S) with (le_value h + 0 + (S / order) * order); [by rewrite Z.mod_add|].
  pose proof (Z.div_mod S order ltac:(done)). lia.
Qed.

Lemma ring_signature_complete prefix pubs sec n st :
  is_bytes prefix → Z.of_nat (length prefix) + 64 * Z.of_nat (length pubs) < 2 ^ 31 → Forall is_key pubs →
  is_scalar sec → pubs !! n = Some (public_key sec) → is_state st →
  ∃ image sigs st', generate_key_image (public_key sec) sec = Ret image ∧
    generate_ring_signature prefix image pubs sec n st = Ret (sigs, st') ∧ is_state st' ∧
    length sigs = length pubs ∧ check_ring_signature prefix image pubs sigs = Ret true.
Proof.
  intros Hb Hl Hpubs Hs Hn Hst. destruct (encoded_hash (zmul (le_value sec) base)) as [H HH]. fold (public_key sec) in HH.
  set (I := zmul (le_value sec) H). destruct (image_table I) as (h & pre & Eh & Epre & Hpre).
  destruct (ring_loop pre I Hpre pubs Hpubs 0 n (Ring prefix sc_0 sc_0 []) st _ Hn sc_0_scalar Hst)
    as (p' & st' & sigs & ab & S & Eloop & Hst' & Hk & (F1 & F2 & F3 & F4 & F5 & F6 & F7) & Hacc).
  cbn [ring_sigs ring_buf ring_sum app] in F1, F3, F7. change (le_value sc_0) with 0 in F7. rewrite Z.add_0_l in F7.
  destruct (hash_to_scalar_yields (ring_buf p')) as (c0 & Ec & Hc0); [rewrite F3; by apply is_bytes_app|rewrite F3, length_app; lia|].
  set (c := le_bytes 32 ((le_value c0 - le_value (ring_sum p')) mod order)).
  assert (is_scalar c) as Hc by apply reduced_scalar.
  set (r := le_bytes 32 ((le_value (ring_k p') - le_value c * le_value sec) mod order)).
  destruct (Hacc c r Hc (proj1 (reduced_scalar _)) (ring_answer pre I Hpre H sec (ring_k p') c eq_refl HH Hc Hk) prefix sc_0 sc_0_scalar)
    as (sum' & Echeck & Hsum' & V).
  exists (encode I), (<[n := c ++ r]> sigs), st'. pose proof (generate_key_image_ret _ H sec HH Hs) as Eimage. fold I in Eimage.
  split; [exact Eimage|]. split; [|split; [done|split; [by rewrite length_insert|]]].
  - unfold generate_ring_signature. rewrite Hn, (run_lift _ _ _ _ (assert_key_pair_ret sec Hs)), (run_lift _ _ _ _ Eimage).
    rewrite (run_lift _ _ _ tt) by (by rewrite bool_decide_eq_true_2). rewrite (run_lift _ _ _ _ (assert_keys_ret pubs Hpubs)).
    rewrite (run_lift _ _ _ _ Eh), (run_lift _ _ _ _ Epre), (run_bind _ _ _ _ _ Eloop), (run_lift _ _ _ _ Ec).
    rewrite (run_lift _ _ _ _ (sc_sub_scalar _ _ Hc0 F6)), (run_lift _ _ _ _ (sc_mulsub_scalar _ _ _ Hc Hs Hk)), F1. reflexivity.
  - unfold check_ring_signature. rewrite (assert_keys_ret pubs Hpubs), ret_bind, Eh, ret_bind, Epre, ret_bind, Echeck, ret_bind, <- F3.
    cbv beta iota. rewrite Ec, ret_bind, (same_scalar _ _ Hc0 Hsum'). f_equal. apply bool_decide_eq_true_2. symmetry.
    apply le_value_inj; [apply Hsum'|apply Hc0|]. rewrite V. change (le_value sc_0) with 0. rewrite Z.add_0_l. by apply challenge_sum.
Qed.

(** ** The check, exactly *)

(** A member of a ring with its signature: the key, its hash, and the two scalars. *)
Record member := Member { m_key : point; m_hash : point; m_c : list Z; m_r : list Z }.

Definition m_ok (m : member) : Prop := hash_point (encode (m_key m)) (m_hash m) ∧ is_32 (m_c m) ∧ is_32 (m_r m).
Definition m_scalars (m : member) : Prop := is_scalar (m_c m) ∧ is_scalar (m_r m).
Definition m_pub (m : member) : list Z := encode (m_key m).
Definition m_sig (m : member) : list Z := m_c m ++ m_r m.
Definition m_commitments (I : point) (m : member) : list Z :=
  encode (commitment (m_key m) (m_c m) (m_r m)) ++ encode (zmul (le_value (m_r m)) (m_hash m) ⊕ zmul (le_value (m_c m)) I).
Definition challenges (ms : list member) : Z := foldr (λ m S, le_value (m_c m) + S) 0 ms.

Section Check.
Context (image_pre : list ge_cached) (I : point) (Hpre : is_odd_table rep_cached image_pre I).

Lemma check_accepts ms : Forall m_ok ms → Forall m_scalars ms →
  loop_accepts image_pre (m_pub <$> ms) (m_sig <$> ms) (concat (m_commitments I <$> ms)) (challenges ms).
Proof.
  intros Hok. induction Hok as [|m ms [Hh _] _ IH]; intros Hs; [apply loop_accepts_nil|]. inversion_clear Hs as [|? ? [Hc Hr] Hs'].
  apply loop_accepts_cons; [done|done|by apply (ring_commitment_ret image_pre I Hpre)|by apply IH].
Qed.

Lemma check_rejects ms : Forall m_ok ms → ¬ Forall m_scalars ms → ∀ buf sum, is_scalar sum →
  check_ring_loop image_pre (m_pub <$> ms) (m_sig <$> ms) buf sum = Ret None.
Proof.
  intros Hok. induction Hok as [|m ms (Hh & Hc & Hr) _ IH]; intros N buf sum Hs; [by destruct N|].
  cbn [fmap list_fmap check_ring_loop]. cbv zeta. change (m_sig m) with (m_c m ++ m_r m). rewrite take_app_length', drop_app_length' by (symmetry; apply Hc).
  destruct (sc_check_scalar _ Hc) as (b1 & -> & E1). rewrite ret_bind. destruct (negb (b1 =? 0)); [reflexivity|].
  destruct (sc_check_scalar _ Hr) as (b2 & -> & E2). rewrite ret_bind. destruct (negb (b2 =? 0)); [reflexivity|].
  assert (is_scalar (m_c m)) as Sc by (by apply E1). assert (is_scalar (m_r m)) as Sr by (by apply E2).
  change (m_pub m) with (encode (m_key m)). rewrite (ring_commitment_ret image_pre I Hpre _ _ _ _ Hh Sc Sr), ret_bind, (sc_add_scalar _ _ Hs Sc), ret_bind.
  apply IH; [|apply reduced_scalar]. intros F. apply N. constructor; [done|exact F].
Qed.
End Check.

Lemma challenges_sum I ms prefix : is_bytes prefix → Z.of_nat (length prefix) + 64 * Z.of_nat (length ms) < 2 ^ 31 →
  yields (hash_to_scalar (prefix ++ concat (m_commitments I <$> ms))) is_scalar.
Proof.
  intros Hb Hl. assert (is_bytes (concat (m_commitments I <$> ms)) ∧ length (concat (m_commitments I <$> ms)) = (64 * length ms)%nat) as [Cb Cl].
  { clear. induction ms as [|m ms [IHb IHl]]; [by split; [constructor|]|]. cbn [fmap list_fmap concat]. unfold m_commitments at 1 3.
    destruct (encode_32 (commitment (m_key m) (m_c m) (m_r m))) as [? E1].
    destruct (encode_32 (zmul (le_value (m_r m)) (m_hash m) ⊕ zmul (le_value (m_c m)) I)) as [? E2].
    split; [apply is_bytes_app; [apply is_bytes_app; assumption|exact IHb]|]. rewrite !length_app, E1, E2, IHl. cbn [length]. lia. }
  apply hash_to_scalar_yields; [by apply is_bytes_app|]. rewrite length_app, Cl. lia.
Qed.

Lemma m_pubs_keys ms : Forall is_key (m_pub <$> ms).
Proof. apply Forall_fmap, Forall_true. intros m. by eexists. Qed.

Lemma check_ring_signature_exact prefix image ms : is_bytes prefix → Z.of_nat (length prefix) + 64 * Z.of_nat (length ms) < 2 ^ 31 →
  is_32 image → Forall m_ok ms →
  yields (check_ring_signature prefix image (m_pub <$> ms) (m_sig <$> ms)) (λ b, b = true ↔ ∃ I h, image = encode I ∧ Forall m_scalars ms ∧
    hash_to_scalar (prefix ++ concat (m_commitments I <$> ms)) = Ret h ∧ le_value h = challenges ms mod order).
Proof.
  intros Hb Hl [Ib Il] Hok. unfold check_ring_signature. rewrite (assert_keys_ret _ (m_pubs_keys ms)), ret_bind.
  destruct (ge_frombytes_yields image Ib Il) as ([q|] & -> & Hq); rewrite ret_bind.
  2: { apply yields_ret. split; [done|]. intros (I & _ & -> & _). by destruct (Hq I). }
  destruct Hq as (I & HI & <-). destruct (ge_dsm_precomp_rep q I HI) as (pre & -> & Hpre). rewrite ret_bind.
  assert (∀ J, encode I = encode J → J = I) as Inj by (intros J E; symmetry; by apply encode_inj).
  destruct (decide (Forall (λ m, le_value (m_c m) < order ∧ le_value (m_r m) < order) ms)) as [D|D].
  - assert (Forall m_scalars ms) as Hs.
    { apply list.Forall_forall. intros m Hm. rewrite list.Forall_forall in D, Hok. destruct (D m Hm), (Hok m Hm) as (_ & ? & ?). by split; split. }
    destruct (check_accepts pre I Hpre ms Hok Hs prefix sc_0 sc_0_scalar) as (sum & -> & Hsum & V). rewrite ret_bind. cbv beta iota.
    destruct (challenges_sum I ms prefix Hb Hl) as (h & E & Hh). rewrite E, ret_bind, same_scalar by done. apply yields_ret.
    rewrite bool_decide_eq_true. change (le_value sc_0) with 0 in V. rewrite Z.add_0_l in V. split.
    + intros ->. by exists I, sum.
    + intros (J & h' & ->%Inj & _ & E' & V'). apply le_value_inj; [apply Hh|apply Hsum|]. congruence.
  - assert (¬ Forall m_scalars ms) as Hs by (intros F; apply D; eapply Forall_impl; [|exact F]; by intros m [[_ ?] [_ ?]]).
    rewrite (check_rejects pre I Hpre ms Hok Hs prefix sc_0 sc_0_scalar), ret_bind. apply yields_ret. split; [done|]. by intros (_ & _ & _ & ? & _).
Qed.

(** ** Theorems *)

(** C6: Ring signatures: for a ring of public keys that has the one of the secret key at an
    index, the key image and a signature for each key are generated, for every state of
    the random generator; the check accepts them, and the daemon's test of the image,
    that its multiple by the order is neutral, succeeds. *)
Theorem ring_signature_verifies prefix pubs sec n st :
  is_32 prefix → Z.of_nat (length pubs) < 2 ^ 24 → Forall is_key pubs → is_scalar sec → pubs !! n = Some (public_key sec) → is_state st →
  ∃ image sigs st', generate_key_image (public_key sec) sec = Ret image ∧
    generate_ring_signature prefix image pubs sec n st = Ret (sigs, st') ∧ is_state st' ∧ length sigs = length pubs ∧
    check_ring_signature prefix image pubs sigs = Ret true ∧ scalarmultKey image key_image_L = Ret key_image_I.
Proof.
  intros [Hb Hl] Hn Hpubs Hs Hi Hst. destruct (ring_signature_complete prefix pubs sec n st) as (image & sigs & st' & E1 & E2 & E3 & E4 & E5);
    [done|rewrite Hl; lia|done..|]. exists image, sigs, st'. do 5 (split; [done|]). by apply (made_image_passes sec).
Qed.

Lemma ring_signature_verifies_witness :
  let pubs := [encode neutral; public_key (le_bytes 32 7)] in
  ∃ image sigs st', generate_key_image (public_key (le_bytes 32 7)) (le_bytes 32 7) = Ret image ∧
    generate_ring_signature (replicate 32 3) image pubs (le_bytes 32 7) 1 (replicate 25 1) = Ret (sigs, st') ∧
    is_state st' ∧ length sigs = length pubs ∧
    check_ring_signature (replicate 32 3) image pubs sigs = Ret true ∧ scalarmultKey image key_image_L = Ret key_image_I.
Proof.
  refine (ring_signature_verifies (replicate 32 3) [encode neutral; public_key (le_bytes 32 7)] (le_bytes 32 7) 1 (replicate 25 1) _ eq_refl _
    (scalar_of 7 eq_refl) eq_refl _).
  - split; [by apply Forall_replicate|reflexivity].
  - constructor; [by exists neutral|]. constructor; [exists (zmul (le_value (le_bytes 32 7)) base); reflexivity|constructor].
  - split; [reflexivity|by apply Forall_replicate].
Defined.

Definition is_64 (s : list Z) : Prop := is_bytes s ∧ length s = 64%nat.

(** Keys of 32 bytes that are all points, with 64 bytes for each, are the members of a
    ring; otherwise the assertion about the keys fails. *)
Lemma ring_members pubs : Forall is_32 pubs → ∀ sigs, Forall is_64 sigs → length sigs = length pubs →
  (¬ Forall is_key pubs ∧ assert_keys pubs = Abort) ∨
  ∃ ms, m_pub <$> ms = pubs ∧ m_sig <$> ms = sigs ∧ Forall m_ok ms.
Proof.
  induction 1 as [|pub pubs [Hb Hl] Hpubs IH]; intros [|sig sigs] Hs Hlen; try done; [right; by exists []|].
  apply Forall_cons_iff in Hs as [[Sb Sl] Hs]. destruct (ge_frombytes_yields pub Hb Hl) as (o & Eo & Ho). destruct o as [q|].
  - destruct Ho as (P & _ & <-). destruct (IH sigs Hs ltac:(by injection Hlen)) as [[Hn Ha]|(ms & <- & <- & Hok)].
    + left. split; [intros Hf; apply Hn; by apply Forall_cons_iff in Hf as [_ Hf]|].
      cbn [assert_keys foldr]. rewrite check_key_ret, ret_bind. exact Ha.
    + right. destruct (encoded_hash P) as [Q HQ]. exists (Member P Q (take 32 sig) (drop 32 sig) :: ms). rewrite !fmap_cons.
      split; [reflexivity|]. split; [unfold m_sig at 1; cbn [m_c m_r]; by rewrite take_drop|].
      constructor; [|exact Hok]. split; [exact HQ|]. cbn [m_c m_r].
      split; split; [by apply Forall_take|rewrite length_take, Sl; reflexivity|by apply Forall_drop|rewrite length_drop, Sl; reflexivity].
  - left. split; [intros Hf; apply Forall_cons_iff in Hf as [[P ->] _]; by destruct (Ho P)|].
    cbn [assert_keys foldr]. unfold check_key. rewrite Eo. reflexivity.
Qed.

(** C7: The check of a ring signature, on an image of 32 bytes, keys of 32 bytes and 64 bytes for
    each key: if a key is no point of the curve, an assertion fails. Otherwise the check
    returns, and it accepts exactly if the image is a point [I] of the curve, all numbers
    are below the order, and the challenges add up to the hash of the message and of the
    commitments [c P + r B] and [r H(P) + c I] of all members. *)
Theorem ring_check_exact prefix image pubs sigs : is_32 prefix → Z.of_nat (length pubs) < 2 ^ 24 → is_32 image →
  Forall is_32 pubs → Forall is_64 sigs → length sigs = length pubs →
  (¬ Forall is_key pubs ∧ check_ring_signature prefix image pubs sigs = Abort) ∨
  ∃ ms, m_pub <$> ms = pubs ∧ m_sig <$> ms = sigs ∧ Forall m_ok ms ∧
    yields (check_ring_signature prefix image pubs sigs) (λ b, b = true ↔ ∃ I h, image = encode I ∧ Forall m_scalars ms ∧
      hash_to_scalar (prefix ++ concat (m_commitments I <$> ms)) = Ret h ∧ le_value h = challenges ms mod order).
Proof.
  intros [Hb Hl] Hn Hi Hp Hs Hlen. destruct (ring_members pubs Hp sigs Hs Hlen) as [[Hk Ha]|(ms & <- & <- & Hok)].
  - left. split; [exact Hk|]. unfold check_ring_signature. by rewrite Ha.
  - right. exists ms. do 3 (split; [done|]). rewrite length_fmap in Hn.
    apply check_ring_signature_exact; [done|rewrite Hl; lia|done|done].
Qed.

Lemma ring_check_exact_witness : let sig := le_bytes 32 5 ++ le_bytes 32 6 in
  ∃ ms, m_pub <$> ms = [encode base] ∧ m_sig <$> ms = [sig] ∧ Forall m_ok ms ∧
    yields (check_ring_signature (replicate 32 3) (encode neutral) [encode base] [sig]) (λ b,
      b = true ↔ ∃ I h, encode neutral = encode I ∧ Forall m_scalars ms ∧
        hash_to_scalar (replicate 32 3 ++ concat (m_commitments I <$> ms)) = Ret h ∧ le_value h = challenges ms mod order).
Proof.
  destruct (ring_check_exact (replicate 32 3) (encode neutral) [encode base] [le_bytes 32 5 ++ le_bytes 32 6])
    as [[Hn _]|Hms]; [..|exact Hms].
  - split; [by apply Forall_replicate|reflexivity].
  - reflexivity.
  - exact (encode_32 neutral).
  - constructor; [exact (encode_32 base)|constructor].
  - constructor; [|constructor]. split; [|reflexivity].
    apply Forall_app. split; [exact (proj1 (proj1 (scalar_of 5 eq_refl)))|exact (proj1 (proj1 (scalar_of 6 eq_refl)))].
  - reflexivity.
  - exfalso. apply Hn. constructor; [by exists base|constructor].
Defined.

(** C8: Key images: the image of a key pair is determined by the secret key, it passes the test
    of the daemon, and with a point of small order added, which would be a second image
    of the same key, it does not. The test accepts exactly the points that [order] kills. *)
Theorem key_image_test sec T P : is_scalar sec → zmul 8 T = neutral → T ≠ neutral →
  (∃ H, hash_point (public_key sec) H ∧ generate_incomplete_key_image (public_key sec) = Ret (encode H) ∧
     generate_key_image (public_key sec) sec = Ret (encode (zmul (le_value sec) H)) ∧
     scalarmultKey (encode (zmul (le_value sec) H)) key_image_L = Ret key_image_I ∧
     scalarmultKey (encode (zmul (le_value sec) H ⊕ T)) key_image_L ≠ Ret key_image_I) ∧
  (scalarmultKey (encode P) key_image_L = Ret key_image_I ↔ zmul order P = neutral).
Proof.
  intros Hs H8 HT. split; [|by apply image_test]. destruct (encoded_hash (zmul (le_value sec) base)) as [H HH]. fold (public_key sec) in HH.
  exists H. pose proof HH as (h & Eh & Hh & Ho). split; [exact HH|].
  split; [unfold generate_incomplete_key_image; rewrite Eh, ret_bind; by apply ge_p3_tobytes_rep|].
  split; [by apply generate_key_image_ret|]. rewrite !image_test. pose proof (multiple_killed (le_value sec) H Ho) as K. split; [exact K|].
  rewrite zmul_op, K, op_neutral. intros E. by apply HT, torsion_order.
Qed.

Lemma key_image_test_witness : ∃ H, hash_point (public_key (le_bytes 32 7)) H ∧ generate_incomplete_key_image (public_key (le_bytes 32 7)) = Ret (encode H) ∧
  generate_key_image (public_key (le_bytes 32 7)) (le_bytes 32 7) = Ret (encode (zmul (le_value (le_bytes 32 7)) H)) ∧
  scalarmultKey (encode (zmul (le_value (le_bytes 32 7)) H)) key_image_L = Ret key_image_I ∧
  scalarmultKey (encode (zmul (le_value (le_bytes 32 7)) H ⊕ eighth)) key_image_L ≠ Ret key_image_I.
Proof.
  refine (proj1 (key_image_test (le_bytes 32 7) eighth neutral (scalar_of 7 eq_refl) eighth_kills _)).
  intros E. apply eighth_survives. rewrite E. apply zmul_neutral.
Defined.

(** C19: Derivations have no part of small order: for every key that [check_key] accepts,
    with or without such a part, and every secret key, the derivation passes the test
    that the daemon applies to key images, and it is the same for the key with a point
    of small order added. *)
Theorem derivation_clears_torsion key s T : is_32 key → is_scalar s → zmul 8 T = neutral → check_key key = Ret true →
  ∃ P D, key = encode P ∧ generate_key_derivation key s = Ret (Some D) ∧
    scalarmultKey D key_image_L = Ret key_image_I ∧ generate_key_derivation (encode (P ⊕ T)) s = Ret (Some D).
Proof.
  intros [Hb Hl] Hs HT Hk. unfold check_key in Hk. destruct (ge_frombytes_yields key Hb Hl) as ([q|] & E & Hq); rewrite E in Hk; [|done].
  destruct Hq as (P & _ & <-). exists P, (encode (zmul (8 * le_value s) P)). split; [done|].
  assert (∀ Q : point, zmul (8 * le_value s) Q = zmul (le_value s) (zmul 8 Q)) as Hm by (intros Q; rewrite zmul_mul, Z.mul_comm; reflexivity).
  rewrite !generate_key_derivation_ret by exact Hs. split; [done|]. rewrite !Hm. split.
  - apply image_test, multiple_killed, order_eight.
  - rewrite zmul_op, HT, op_neutral_r. reflexivity.
Qed.

(** The base point with a point of order eight added. *)
Lemma derivation_clears_torsion_witness :
  ∃ P D, encode (base ⊕ eighth) = encode P ∧ generate_key_derivation (encode (base ⊕ eighth)) (le_bytes 32 7) = Ret (Some D) ∧
    scalarmultKey D key_image_L = Ret key_image_I ∧ generate_key_derivation (encode (P ⊕ eighth)) (le_bytes 32 7) = Ret (Some D).
Proof.
  exact (derivation_clears_torsion (encode (base ⊕ eighth)) (le_bytes 32 7) eighth (encode_32 _) (scalar_of 7 eq_refl) eighth_kills
    (check_key_ret _)).
Defined.
