(* ===== verification/CryptoInstance.v ===== *)
(** * The modelled cryptography as an instance of the interface

    The chain code is modelled for any [CryptoOps] that satisfies [CryptoLaws]. Here the
    functions of [crypto.cpp] are such an instance, for any state of the random generator:
    what the theorems on transactions assume of keys and signatures is proved of the code
    that computes them. The proof-of-work hashes and the stream cipher are parameters. *)

From S2P Require Import Prelude Streams CryptoNoteTypes Crypto FormatUtils TransactionObjects InputCheck SignedArithmetic EdwardsCurve Keccak.
From S2P Require Import GroupElement ScalarMult Scalars Curve25519 GroupTheorems BaseTheorems ScalarTheorems ScalarMultTheorems GroupOrder.
From S2P Require Import CryptoKeys CryptoTheorems RingTheorems.

Local Open Scope Z_scope.

Section Instance.
Context (slow slow_v1 slow_v0 : list Z → Hash) (cipher : Z → list Z → list Z → list Z → list Z).
Context (st : rng) (Hst : is_state st).

(** The result of a call; a call that aborts the process has none, and [d] stands for it. *)
Definition result {A} (d : A) (m : outcome A) : A := match m with Ret a => a | _ => d end.
Definition drawn {A} (d : A) (m : M rng A) : A := result d (a ← m st; mret (fst a)).

Definition lithe_crypto : CryptoOps := {|
  Crypto.cn_fast_hash b := result (replicate 32 0) (Keccak.cn_fast_hash b);
  cn_slow_hash := slow;
  cn_fast_slow_hash_v1 := slow_v1;
  cn_conceal_slow_hash_v0 := slow_v0;
  Crypto.check_key k := result false (CryptoKeys.check_key k);
  Crypto.generate_key_derivation k s := result None (CryptoKeys.generate_key_derivation k s);
  Crypto.derive_public_key d i k := result None (CryptoKeys.derive_public_key d i k);
  Crypto.derive_secret_key d i s := result [] (CryptoKeys.derive_secret_key d i s);
  Crypto.generate_key_image k s := result [] (CryptoKeys.generate_key_image k s);
  Crypto.generate_ring_signature h i ks s n :=
    drawn (replicate (length ks) (replicate 64 0)) (CryptoKeys.generate_ring_signature h i ks s (Z.to_nat n));
  Crypto.check_ring_signature h i ks sigs := result false (CryptoKeys.check_ring_signature h i ks sigs);
  Crypto.generate_signature h k s := drawn (replicate 64 0) (CryptoKeys.generate_signature h k s);
  Crypto.check_signature h k sig := result false (CryptoKeys.check_signature h k sig);
  Crypto.scalarmultKey k a := result [] (CryptoKeys.scalarmultKey k a);
  chacha8 := cipher;
  Crypto.secret_key_to_public_key s := result None (CryptoKeys.secret_key_to_public_key s);
  key_of := public_key;
  is_secret := is_scalar;
  is_public := is_key
|}.

Lemma bind_run {S A B} (m : M S A) (k : A → M S B) s b s' : (x ← m; k x) s = Ret (b, s') → ∃ a s1, m s = Ret (a, s1) ∧ k a s1 = Ret (b, s').
Proof. unfold mbind, M_bind. destruct (m s) as [[a s1]| |] eqn:E; [|done|done]. intros H. by exists a, s1. Qed.

Lemma lift_run {S A B} (m : outcome A) (k : A → M S B) s b s' : (x ← lift m; k x) s = Ret (b, s') → ∃ a, m = Ret a ∧ k a s = Ret (b, s').
Proof. unfold mbind, M_bind, lift. destruct m as [a| |]; [|done|done]. intros H. by exists a. Qed.

Lemma ring_loop_length pre pubs i n p s p' s' : generate_ring_loop pre pubs i n p s = Ret (p', s') →
  length (ring_sigs p') = (length (ring_sigs p) + length pubs)%nat.
Proof.
  revert i p s. induction pubs as [|pub pubs IH]; intros i p s E; [injection E as <- <-; cbn; lia|]. cbn [generate_ring_loop] in E.
  apply bind_run in E as (q & s1 & Eq & E). apply IH in E. rewrite E.
  assert (length (ring_sigs q) = S (length (ring_sigs p))) as ->; [|cbn [length]; lia].
  destruct (i =? n)%nat.
  - apply bind_run in Eq as (k & s2 & _ & Eq). apply lift_run in Eq as (ab & _ & Eq). injection Eq as <- _. cbn. rewrite length_app. cbn. lia.
  - apply bind_run in Eq as (c & s2 & _ & Eq). apply bind_run in Eq as (r & s3 & _ & Eq). apply lift_run in Eq as (ab & _ & Eq).
    apply lift_run in Eq as (sum & _ & Eq). injection Eq as <- _. cbn. rewrite length_app. cbn. lia.
Qed.

Lemma ring_signature_length h i pubs sec n s sigs s' : CryptoKeys.generate_ring_signature h i pubs sec n s = Ret (sigs, s') → length sigs = length pubs.
Proof.
  unfold CryptoKeys.generate_ring_signature. destruct (pubs !! n); [|done]. intros E.
  do 4 apply lift_run in E as (? & _ & E). apply lift_run in E as ([h'|] & _ & E); [|done]. apply lift_run in E as (? & _ & E).
  apply bind_run in E as (p & s1 & Ep & E). do 3 apply lift_run in E as (? & _ & E). injection E as <- _.
  rewrite length_insert. by apply ring_loop_length in Ep.
Qed.

Lemma exchange_ret s1 s2 : is_scalar s2 →
  CryptoKeys.generate_key_derivation (public_key s1) s2 = Ret (Some (encode (zmul (8 * (le_value s1 * le_value s2)) base))).
Proof. intros H. unfold public_key. rewrite generate_key_derivation_ret, zmul_mul by done. do 4 f_equal. lia. Qed.

Lemma derivation_cases k s : is_32 k → is_scalar s →
  CryptoKeys.generate_key_derivation k s = Ret None ∨
  ∃ P, k = encode P ∧ CryptoKeys.generate_key_derivation k s = Ret (Some (encode (zmul (8 * le_value s) P))).
Proof.
  intros Hk Hs. destruct (ge_frombytes_yields k (proj1 Hk) (proj2 Hk)) as ([h|] & _ & H).
  - right. destruct H as (P & _ & <-). exists P. split; [done|by apply generate_key_derivation_ret].
  - left. by apply generate_key_derivation_invalid.
Qed.

Lemma derive_keys_ret d i s : is_32 d → 0 ≤ i → is_scalar s → ∃ s',
  CryptoKeys.derive_public_key d i (public_key s) = Ret (Some (public_key s')) ∧
  CryptoKeys.derive_secret_key d i s = Ret s' ∧ is_scalar s'.
Proof.
  intros Hd Hi Hs. destruct (derivation_to_scalar_yields d i Hd Hi) as (x & Ex & Hx).
  destruct (one_time_keys _ x s Ex Hx Hs) as (s' & P' & E1 & E2 & H' & E3 & _). exists s'.
  rewrite (secret_key_to_public_key_ret s' H') in E3. split; [|by split]. unfold CryptoKeys.derive_public_key. rewrite E1. congruence.
Qed.

Lemma check_made_signature h s : is_32 h → is_scalar s → ∃ sig st', CryptoKeys.generate_signature h (public_key s) s st = Ret (sig, st') ∧
  CryptoKeys.check_signature h (public_key s) sig = Ret true.
Proof.
  intros [Hb Hl] Hs. assert (Z.of_nat (length h) < 2 ^ 30) as L by (rewrite Hl; reflexivity).
  destruct (generate_signature_spec h s st Hb L Hs Hst) as (c & r & st' & E & Hc & Hr & _ & Eh).
  exists (c ++ r), st'. split; [exact E|].
  destruct (check_signature_spec h (zmul (le_value s) base) c r Hb L (proj1 Hc) (proj1 Hr)) as (b & Eb & H).
  unfold public_key. rewrite Eb. f_equal. by apply H.
Qed.

Lemma secret_key_to_public_key_some s k : is_32 s → CryptoKeys.secret_key_to_public_key s = Ret (Some k) → k = public_key s ∧ is_scalar s.
Proof.
  intros Hs E. destruct (sc_check_scalar s Hs) as (b & Eb & H). assert (is_scalar s) as Hsc.
  { apply H. unfold CryptoKeys.secret_key_to_public_key in E. rewrite Eb, ret_bind in E. by destruct (negb (b =? 0)). }
  rewrite (secret_key_to_public_key_ret s Hsc) in E. split; [congruence|done].
Qed.

Lemma laws : @CryptoLaws lithe_crypto.
Proof.
  split; cbn [Crypto.cn_fast_hash is_secret is_public key_of Crypto.generate_key_derivation Crypto.derive_public_key Crypto.derive_secret_key
    Crypto.generate_ring_signature Crypto.check_ring_signature Crypto.generate_key_image Crypto.generate_signature Crypto.check_signature
    Crypto.secret_key_to_public_key lithe_crypto].
  - intros b. destruct (Keccak.cn_fast_hash b) as [h| |] eqn:E; [by apply cn_fast_hash_pod in E|split; [by apply Forall_replicate|done]..].
  - intros s _. by eexists.
  - intros k [P ->]. apply encode_32.
  - intros s1 s2 H1 H2. rewrite !exchange_ret by done. by rewrite (Z.mul_comm (le_value s1)).
  - intros k s [P ->] Hs. by rewrite generate_key_derivation_ret.
  - intros k s d Hk Hs E. destruct (derivation_cases k s Hk Hs) as [E'|(P & _ & E')]; rewrite E' in E; [done|].
    cbn [result] in E. apply Some_inj in E. subst d. apply encode_32.
  - intros d i s Hd Hi Hs. destruct (derive_keys_ret d i s Hd Hi Hs) as (s' & -> & -> & H). by split.
  - intros h i ks s n. unfold drawn. destruct (CryptoKeys.generate_ring_signature _ _ _ _ _ _) as [[sigs s']| |] eqn:E;
      [by apply ring_signature_length in E|apply length_replicate..].
  - intros h ks s n [Hb Hh] Hks Hl Hs Hn Hk. assert (Z.of_nat (length h) + 64 * Z.of_nat (length ks) < 2 ^ 31) as L by (rewrite Hh; lia).
    destruct (ring_signature_complete h ks s (Z.to_nat n) st Hb L Hks Hs Hk Hst) as (image & sigs & st' & Ei & Es & _ & _ & Ec).
    unfold drawn. rewrite Ei. cbn [result]. rewrite Es. cbn [result mbind outcome_bind mret outcome_ret fst]. by rewrite Ec.
  - intros h s Hh Hs. destruct (check_made_signature h s Hh Hs) as (sig & st' & E1 & E2). unfold drawn. rewrite E1.
    cbn [result mbind outcome_bind mret outcome_ret fst]. by rewrite E2.
  - intros s k Hs E. destruct (CryptoKeys.secret_key_to_public_key s) as [[k'|]| |] eqn:E'; [|done..].
    cbn [result] in E. apply Some_inj in E. subst k'. by apply secret_key_to_public_key_some.
Qed.
End Instance.

(** ** Theorems *)

(** C9: The functions of [crypto.cpp] implement the interface the chain code is modelled for,
    for every state of the random generator and whatever the proof-of-work hashes and the
    cipher are; and what is signed with them passes the input check of the daemon: the
    test of the key image and the check of the ring signature. *)
Theorem interface_implemented slow slow_v1 slow_v0 cipher st : is_state st →
  let ops := lithe_crypto slow slow_v1 slow_v0 cipher st in
  @CryptoLaws ops ∧
  ∀ h ks s n, is_32 h → Forall is_key ks → Z.of_nat (length ks) < 2 ^ 24 → is_scalar s → 0 ≤ n → ks !! Z.to_nat n = Some (@key_of ops s) →
    let image := @Crypto.generate_key_image ops (@key_of ops s) s in
    @Crypto.scalarmultKey ops image key_image_L = key_image_I ∧
    @Crypto.check_ring_signature ops h image ks (@Crypto.generate_ring_signature ops h image ks s n) = true.
Proof.
  intros Hst ops. pose proof (laws slow slow_v1 slow_v0 cipher st Hst) as L. split; [exact L|]. intros h ks s n Hh Hks Hl Hs Hn Hk image.
  split; [|by apply (@ring_valid ops L)]. destruct (encoded_hash (zmul (le_value s) base)) as [H HH]. fold (public_key s) in HH.
  pose proof (generate_key_image_ret _ H s HH Hs) as E. unfold image, ops. cbn [Crypto.scalarmultKey Crypto.generate_key_image key_of lithe_crypto].
  rewrite E. cbn [result]. by rewrite (made_image_passes s _ Hs (generate_key_image_ret _ H s HH Hs)).
Qed.

Lemma interface_implemented_witness :
  @CryptoLaws (lithe_crypto (λ _, []) (λ _, []) (λ _, []) (λ _ d _ _, d) (init_random (replicate 32 9))).
Proof.
  refine (proj1 (interface_implemented (λ _, []) (λ _, []) (λ _, []) (λ _ d _ _, d) (init_random (replicate 32 9)) _)).
  split; [reflexivity|]. by repeat constructor.
Defined.
