(* ===== verification/Transfers.v ===== *)
(** * The transfers of an account ([Transfers/TransfersContainer.cpp])

    A wallet keeps, for each address, the outputs it received: unconfirmed, available
    and spent ones, the transactions they belong to, and for each available output the
    height at which it is unlocked. The indices of the containers of boost are finite
    maps with the key of an output ([TransactionOutputKey]); an iterator is such a key.
    The order in which a hash index enumerates its elements is the parameter [arrange].
    The index of transactions by height and that of unlock jobs are lists in this
    order. Saving and loading are in [TransfersStorage]. *)

From S2P Require Import Prelude Config CryptoNoteTypes Crypto Currency TransactionExtra TransactionObjects.
From stdpp Require Import gmap.

Local Open Scope Z_scope.

Definition WALLET_LEGACY_UNCONFIRMED_TRANSACTION_HEIGHT : Z := UINT32_MAX.
Definition UNCONFIRMED_TRANSACTION_GLOBAL_OUTPUT_INDEX : Z := UINT32_MAX.

(** ** Data *)

(** The union of [TransactionOutputInformation] with its type; the type [Invalid] is
    excluded by an assertion when outputs are added. *)
Inductive OutputTarget :=
| KeyTarget (outputKey : PublicKey)
| MultisignatureTarget (requiredSignatures term : Z).

Record TransactionOutputInformation := {
  oi_target : OutputTarget;
  oi_amount : Z;
  oi_globalOutputIndex : Z;
  oi_outputInTransaction : Z;
  oi_transactionHash : Hash;
  oi_transactionPublicKey : PublicKey
}.

Record TransactionOutputInformationIn := {
  oi_info :> TransactionOutputInformation;
  oi_keyImage : KeyImage
}.

Record TransactionOutputInformationEx := {
  ex_in :> TransactionOutputInformationIn;
  ex_unlockTime : Z;
  ex_blockHeight : Z;
  ex_transactionIndex : Z;
  ex_visible : bool
}.

Record TransactionBlockInfo := { tb_height : Z; tb_timestamp : Z; tb_transactionIndex : Z }.

Record SpentTransactionOutput := {
  st_output :> TransactionOutputInformationEx;
  st_spendingBlock : TransactionBlockInfo;
  st_spendingTransactionHash : Hash;
  st_inputInTransaction : Z
}.

Record TransactionInformation := {
  ti_transactionHash : Hash;
  ti_publicKey : PublicKey;
  ti_blockHeight : Z;
  ti_timestamp : Z;
  ti_unlockTime : Z;
  ti_totalAmountIn : Z;
  ti_totalAmountOut : Z;
  ti_extra : list Z;
  ti_paymentId : Hash;
  ti_messages : list (list Z)
}.

Record TransactionSpentOutputInformation := {
  so_info :> TransactionOutputInformation;
  so_spendingBlockHeight : Z;
  so_timestamp : Z;
  so_spendingTransactionHash : Hash;
  so_keyImage : KeyImage;
  so_inputInTransaction : Z
}.

#[export] Instance OutputTarget_eq_dec : EqDecision OutputTarget.
Proof. solve_decision. Defined.

(** The hash of a transaction and the index of the output in it. *)
Definition TransactionOutputKey : Type := Hash * Z.
Definition getTransactionOutputKey (o : TransactionOutputInformation) : TransactionOutputKey :=
  (oi_transactionHash o, oi_outputInTransaction o).

(** What an input names of the output it spends. *)
Inductive SpentOutputDescriptor :=
| KeyDescriptor (keyImage : KeyImage)
| MultisignatureDescriptor (amount globalOutputIndex : Z).

#[export] Instance SpentOutputDescriptor_eq_dec : EqDecision SpentOutputDescriptor.
Proof. solve_decision. Defined.

Definition getSpentOutputDescriptor (o : TransactionOutputInformationIn) : SpentOutputDescriptor :=
  match oi_target o with
  | KeyTarget _ => KeyDescriptor (oi_keyImage o)
  | MultisignatureTarget _ _ => MultisignatureDescriptor (oi_amount o) (oi_globalOutputIndex o)
  end.

Definition target_type (t : OutputTarget) : OutputType :=
  match t with KeyTarget _ => OutputType_Key | MultisignatureTarget _ _ => OutputType_Multisignature end.

(** A job is a height and the key of the output. *)
Definition TransferUnlockJob : Type := Z * TransactionOutputKey.

Definition makeTransferUnlockJob (output : TransactionOutputInformationEx) (transactionSpendableAge : Z) : TransferUnlockJob :=
  let unlockTime := u32 (if ex_unlockTime output =? 0 then ex_blockHeight output else ex_unlockTime output) in
  let aged := u32 (ex_blockHeight output + transactionSpendableAge + 1) in
  (match oi_target output with
   | MultisignatureTarget _ term =>
       if negb (term =? 0) then Z.max (Z.max unlockTime (u32 (ex_blockHeight output + term))) aged
       else Z.max unlockTime aged
   | KeyTarget _ => Z.max unlockTime aged
   end, getTransactionOutputKey output).

Record TransfersContainer := {
  m_transactions : list TransactionInformation;
  m_unconfirmedTransfers : gmap TransactionOutputKey TransactionOutputInformationEx;
  m_availableTransfers : gmap TransactionOutputKey TransactionOutputInformationEx;
  m_spentTransfers : gmap TransactionOutputKey SpentTransactionOutput;
  m_transfersUnlockJobs : list TransferUnlockJob;
  m_currentHeight : Z
}.

Definition new_TransfersContainer : TransfersContainer := {|
  m_transactions := []; m_unconfirmedTransfers := ∅; m_availableTransfers := ∅; m_spentTransfers := ∅;
  m_transfersUnlockJobs := []; m_currentHeight := 0
|}.

(** Containers with some parts replaced. *)
Definition with_transfers unconfirmed available spent jobs (c : TransfersContainer) : TransfersContainer := {|
  m_transactions := m_transactions c; m_unconfirmedTransfers := unconfirmed; m_availableTransfers := available;
  m_spentTransfers := spent; m_transfersUnlockJobs := jobs; m_currentHeight := m_currentHeight c
|}.
Definition with_transactions transactions (c : TransfersContainer) : TransfersContainer := {|
  m_transactions := transactions; m_unconfirmedTransfers := m_unconfirmedTransfers c;
  m_availableTransfers := m_availableTransfers c; m_spentTransfers := m_spentTransfers c;
  m_transfersUnlockJobs := m_transfersUnlockJobs c; m_currentHeight := m_currentHeight c
|}.
Definition with_height height (c : TransfersContainer) : TransfersContainer := {|
  m_transactions := m_transactions c; m_unconfirmedTransfers := m_unconfirmedTransfers c;
  m_availableTransfers := m_availableTransfers c; m_spentTransfers := m_spentTransfers c;
  m_transfersUnlockJobs := m_transfersUnlockJobs c; m_currentHeight := height
|}.

Definition with_visible (visible : bool) (t : TransactionOutputInformationEx) : TransactionOutputInformationEx := {|
  ex_in := ex_in t; ex_unlockTime := ex_unlockTime t; ex_blockHeight := ex_blockHeight t;
  ex_transactionIndex := ex_transactionIndex t; ex_visible := visible
|}.
Definition spent_with_visible (visible : bool) (t : SpentTransactionOutput) : SpentTransactionOutput := {|
  st_output := with_visible visible t; st_spendingBlock := st_spendingBlock t;
  st_spendingTransactionHash := st_spendingTransactionHash t; st_inputInTransaction := st_inputInTransaction t
|}.

(** Insertion into an index ordered by a key: behind the elements of the same key. *)
Fixpoint insert_by {A} (key : A → Z) (x : A) (l : list A) : list A :=
  match l with
  | [] => [x]
  | y :: l' => if key x <? key y then x :: l else y :: insert_by key x l'
  end.

(** [upper_bound]: the number of elements with a key up to [b]. *)
Fixpoint upper_bound {A} (key : A → Z) (b : Z) (l : list A) : nat :=
  match l with
  | [] => O
  | y :: l' => if b <? key y then O else S (upper_bound key b l')
  end.

(** [lessTIterator]. *)
Definition less_transfer (t1 t2 : TransactionOutputInformationEx) : bool :=
  (ex_blockHeight t1 <? ex_blockHeight t2) ||
  ((ex_blockHeight t1 =? ex_blockHeight t2) && (ex_transactionIndex t1 <? ex_transactionIndex t2)).

(** [std::min_element]: the first of the least elements. *)
Fixpoint min_element {K} (less : K → K → bool) (best : K) (l : list K) : K :=
  match l with
  | [] => best
  | x :: l' => min_element less (if less x best then x else best) l'
  end.

(** [std::sort]. *)
Fixpoint insert_sorted {K} (less : K → K → bool) (x : K) (l : list K) : list K :=
  match l with
  | [] => [x]
  | y :: l' => if less x y then x :: l else y :: insert_sorted less x l'
  end.
Fixpoint sort_list {K} (less : K → K → bool) (l : list K) : list K :=
  match l with
  | [] => []
  | x :: l' => insert_sorted less x (sort_list less l')
  end.

Section Container.
Context `{CryptoOps}.
(** The order of the elements of a hash index, given by their keys. *)
Variable arrange : list TransactionOutputKey → list TransactionOutputKey.
(** [m_currency], [m_transactionSpendableAge] and the time. *)
Variable currency : Currency.
Variable transactionSpendableAge : Z.
Variable now : Z.

Implicit Types (c : TransfersContainer) (k : TransactionOutputKey) (h : Hash).

(** The keys of the elements for which a test holds. *)
Definition keys_where {A} (P : A → bool) (m : gmap TransactionOutputKey A) : list TransactionOutputKey :=
  arrange (fst <$> filter (λ x, P (snd x)) (map_to_list m)).

(** The ranges of the indices by descriptor and by transaction. *)
Definition has_descriptor (d : SpentOutputDescriptor) (t : TransactionOutputInformationIn) : bool :=
  bool_decide (getSpentOutputDescriptor t = d).
Definition in_transaction h (t : TransactionOutputInformation) : bool := bool_decide (oi_transactionHash t = h).
Definition spent_by h (t : SpentTransactionOutput) : bool := bool_decide (st_spendingTransactionHash t = h).

Definition available_range d c := keys_where (λ t : TransactionOutputInformationEx, has_descriptor d t) (m_availableTransfers c).
Definition unconfirmed_range d c := keys_where (λ t : TransactionOutputInformationEx, has_descriptor d t) (m_unconfirmedTransfers c).
Definition spent_range d c := keys_where (λ t : SpentTransactionOutput, has_descriptor d t) (m_spentTransfers c).

(** Dereferencing an iterator. *)
Definition deref {A} (m : gmap TransactionOutputKey A) k : outcome A :=
  match m !! k with Some t => mret t | None => Abort end.

Definition less_at (m : gmap TransactionOutputKey TransactionOutputInformationEx) k1 k2 : bool :=
  match m !! k1, m !! k2 with Some t1, Some t2 => less_transfer t1 t2 | _, _ => false end.

Definition updateVisibility (d : SpentOutputDescriptor) (visible : bool)
    (m : gmap TransactionOutputKey TransactionOutputInformationEx) :=
  (λ t : TransactionOutputInformationEx, if has_descriptor d t then with_visible visible t else t) <$> m.
Definition updateVisibility_spent (d : SpentOutputDescriptor) (visible : bool)
    (m : gmap TransactionOutputKey SpentTransactionOutput) :=
  (λ t : SpentTransactionOutput, if has_descriptor d t then spent_with_visible visible t else t) <$> m.

Definition updateTransfersVisibility (keyImage : KeyImage) c : outcome TransfersContainer :=
  let d := KeyDescriptor keyImage in
  let unconfirmedCount := length (unconfirmed_range d c) in
  let available := available_range d c in
  let spentCount := length (spent_range d c) in
  _ ← assert_ ((spentCount =? 0)%nat || (spentCount =? 1)%nat);
  if (0 <? spentCount)%nat then
    mret (with_transfers (updateVisibility d false (m_unconfirmedTransfers c))
            (updateVisibility d false (m_availableTransfers c)) (updateVisibility_spent d true (m_spentTransfers c))
            (m_transfersUnlockJobs c) c)
  else
    match available with
    | first :: rest =>
        let hidden := updateVisibility d false (m_availableTransfers c) in
        let earliest := min_element (less_at (m_availableTransfers c)) first rest in
        earliestTransfer ← deref hidden earliest;
        mret (with_transfers (updateVisibility d false (m_unconfirmedTransfers c))
                (<[earliest := with_visible true earliestTransfer]> hidden) (m_spentTransfers c)
                (m_transfersUnlockJobs c) c)
    | [] =>
        mret (with_transfers (updateVisibility d (unconfirmedCount =? 1)%nat (m_unconfirmedTransfers c))
                (m_availableTransfers c) (m_spentTransfers c) (m_transfersUnlockJobs c) c)
    end.

(** The call after a change to an output, for key outputs. *)
Definition update_for (t : TransactionOutputInformationIn) c : outcome TransfersContainer :=
  match oi_target t with
  | KeyTarget _ => updateTransfersVisibility (oi_keyImage t) c
  | MultisignatureTarget _ _ => mret c
  end.

(** ** Unlock jobs *)

Definition addUnlockJob (output : TransactionOutputInformationEx) c : outcome TransfersContainer :=
  let job := makeTransferUnlockJob output (u32 transactionSpendableAge) in
  _ ← assert_ (negb (bool_decide (snd job ∈ snd <$> m_transfersUnlockJobs c)));
  mret (with_transfers (m_unconfirmedTransfers c) (m_availableTransfers c) (m_spentTransfers c)
          (insert_by fst job (m_transfersUnlockJobs c)) c).

Definition deleteUnlockJob (output : TransactionOutputInformationEx) c : TransfersContainer :=
  with_transfers (m_unconfirmedTransfers c) (m_availableTransfers c) (m_spentTransfers c)
    (filter (λ job, snd job ≠ getTransactionOutputKey output) (m_transfersUnlockJobs c)) c.

Definition getAvailableOutput k c : outcome TransactionOutputInformation :=
  t ← deref (m_availableTransfers c) k; mret (oi_info (ex_in t)).

(** The outputs of the jobs of a range of the index. *)
Fixpoint job_outputs (jobs : list TransferUnlockJob) c : outcome (list TransactionOutputInformation) :=
  match jobs with
  | [] => mret []
  | job :: jobs' => o ← getAvailableOutput (snd job) c; os ← job_outputs jobs' c; mret (o :: os)
  end.

(** The elements between two positions; a loop that starts behind its end runs out of
    the index. *)
Definition job_range (first last : nat) c : outcome (list TransferUnlockJob) :=
  if (last <? first)%nat then Abort else mret (take (last - first) (drop first (m_transfersUnlockJobs c))).

Definition getUnlockingTransfers (prevHeight currentHeight : Z) c : outcome (list TransactionOutputInformation) :=
  if currentHeight <? prevHeight then Abort
  else
    let start := if prevHeight =? 0 then O else upper_bound fst (u32 (prevHeight + 1)) (m_transfersUnlockJobs c) in
    jobs ← job_range start (upper_bound fst (u32 (currentHeight + 1)) (m_transfersUnlockJobs c)) c;
    job_outputs jobs c.

Definition getLockingTransfers (prevHeight currentHeight : Z) c : outcome (list TransactionOutputInformation) :=
  if prevHeight <? currentHeight then mret []
  else
    jobs ← job_range (upper_bound fst (u32 (currentHeight + 1)) (m_transfersUnlockJobs c))
             (upper_bound fst (u32 (prevHeight + 1)) (m_transfersUnlockJobs c)) c;
    job_outputs jobs c.

Definition doAdvanceHeight (height : Z) c : outcome (list TransactionOutputInformation * TransfersContainer) :=
  if height <? m_currentHeight c then Throw "New height is less then current while advancing height"
  else
    let c' := with_height height c in
    unlocking ← getUnlockingTransfers (m_currentHeight c) height c';
    mret (unlocking, c').

Definition advanceHeight := doAdvanceHeight.

(** The jobs of a container that was stored without them. *)
Fixpoint rebuild_jobs (outputs : list TransactionOutputInformationEx) (jobs : list TransferUnlockJob)
    : list TransferUnlockJob :=
  match outputs with
  | [] => jobs
  | o :: outputs' =>
      let job := makeTransferUnlockJob o (u32 transactionSpendableAge) in
      rebuild_jobs outputs' (if bool_decide (snd job ∈ snd <$> jobs) then jobs else insert_by fst job jobs)
  end.
(** The elements of a container in the order of its hash index. *)
Definition elements_of {A} (m : gmap TransactionOutputKey A) : list A := omap (λ k, m !! k) (arrange (fst <$> map_to_list m)).

Definition rebuildTransfersUnlockJobs (available : gmap TransactionOutputKey TransactionOutputInformationEx)
    (spent : gmap TransactionOutputKey SpentTransactionOutput) : list TransferUnlockJob :=
  rebuild_jobs (elements_of available ++ (st_output <$> elements_of spent)) [].

(** ** Adding a transaction *)

(** [m_spentTransfers.insert]: no other element has the key or the descriptor. *)
Definition spent_insertable (s : SpentTransactionOutput) c : bool :=
  bool_decide (m_spentTransfers c !! getTransactionOutputKey s = None) &&
  match spent_range (getSpentOutputDescriptor s) c with [] => true | _ => false end.

Definition copyToSpent (block : TransactionBlockInfo) (txHash : Hash) (inputIndex : Z)
    (output : TransactionOutputInformationEx) c : outcome TransfersContainer :=
  _ ← assert_ (negb (ex_blockHeight output =? WALLET_LEGACY_UNCONFIRMED_TRANSACTION_HEIGHT));
  _ ← assert_ (negb (oi_globalOutputIndex output =? UNCONFIRMED_TRANSACTION_GLOBAL_OUTPUT_INDEX));
  let spentOutput := {| st_output := output; st_spendingBlock := block; st_spendingTransactionHash := txHash;
                        st_inputInTransaction := u32 inputIndex |} in
  _ ← assert_ (spent_insertable spentOutput c);
  mret (with_transfers (m_unconfirmedTransfers c) (m_availableTransfers c)
          (<[getTransactionOutputKey output := spentOutput]> (m_spentTransfers c)) (m_transfersUnlockJobs c) c).

Definition insert_unconfirmed (t : TransactionOutputInformationEx) c : outcome TransfersContainer :=
  _ ← assert_ (bool_decide (m_unconfirmedTransfers c !! getTransactionOutputKey t = None));
  mret (with_transfers (<[getTransactionOutputKey t := t]> (m_unconfirmedTransfers c)) (m_availableTransfers c)
          (m_spentTransfers c) (m_transfersUnlockJobs c) c).
Definition insert_available (t : TransactionOutputInformationEx) c : outcome TransfersContainer :=
  _ ← assert_ (bool_decide (m_availableTransfers c !! getTransactionOutputKey t = None));
  mret (with_transfers (m_unconfirmedTransfers c) (<[getTransactionOutputKey t := t]> (m_availableTransfers c))
          (m_spentTransfers c) (m_transfersUnlockJobs c) c).
Definition erase_unconfirmed k c : TransfersContainer :=
  with_transfers (delete k (m_unconfirmedTransfers c)) (m_availableTransfers c) (m_spentTransfers c)
    (m_transfersUnlockJobs c) c.
Definition erase_available k c : TransfersContainer :=
  with_transfers (m_unconfirmedTransfers c) (delete k (m_availableTransfers c)) (m_spentTransfers c)
    (m_transfersUnlockJobs c) c.
Definition erase_spent k c : TransfersContainer :=
  with_transfers (m_unconfirmedTransfers c) (m_availableTransfers c) (delete k (m_spentTransfers c))
    (m_transfersUnlockJobs c) c.

(** A multisignature output that is known as available or spent already. *)
Definition check_new (t : TransactionOutputInformationIn) c : outcome () :=
  match oi_target t with
  | MultisignatureTarget _ _ =>
      match available_range (getSpentOutputDescriptor t) c, spent_range (getSpentOutputDescriptor t) c with
      | [], [] => mret ()
      | _, _ => Throw "Transfer already exists"
      end
  | KeyTarget _ => mret ()
  end.

(** A confirmed output becomes available. *)
Definition make_available (t : TransactionOutputInformationEx) c : outcome TransfersContainer :=
  _ ← check_new t c; c ← addUnlockJob t c; insert_available t c.

Section Adding.
Context {T : Type} `{ITransactionReader T}.
Variable block : TransactionBlockInfo.
Variable tx : T.
(** The hash that the reader gives. *)
Variable txHash : Hash.

Definition addTransactionOutput (transfer : TransactionOutputInformationIn) c : outcome TransfersContainer :=
  _ ← assert_ (oi_outputInTransaction transfer <? getOutputCount tx);
  type ← getOutputType tx (oi_outputInTransaction transfer);
  _ ← assert_ (bool_decide (target_type (oi_target transfer) = type));
  _ ← assert_ (0 <? oi_amount transfer);
  let transactionIsUnconfimed := tb_height block =? WALLET_LEGACY_UNCONFIRMED_TRANSACTION_HEIGHT in
  let transferIsUnconfirmed := oi_globalOutputIndex transfer =? UNCONFIRMED_TRANSACTION_GLOBAL_OUTPUT_INDEX in
  if negb (Bool.eqb transactionIsUnconfimed transferIsUnconfirmed) then Throw "Bad transfer's globalOutputIndex"
  else
    let info := {|
      ex_in := {| oi_info := {| oi_target := oi_target transfer; oi_amount := oi_amount transfer;
                                oi_globalOutputIndex := oi_globalOutputIndex transfer;
                                oi_outputInTransaction := oi_outputInTransaction transfer;
                                oi_transactionHash := txHash;
                                oi_transactionPublicKey := oi_transactionPublicKey transfer |};
                  oi_keyImage := oi_keyImage transfer |};
      ex_unlockTime := getUnlockTime tx; ex_blockHeight := tb_height block;
      ex_transactionIndex := tb_transactionIndex block; ex_visible := true |} in
    c ← (if transferIsUnconfirmed then insert_unconfirmed info c else make_available info c);
    update_for info c.

Fixpoint addTransactionOutputs (transfers : list TransactionOutputInformationIn) c : outcome TransfersContainer :=
  match transfers with
  | [] => mret c
  | transfer :: transfers' => c ← addTransactionOutput transfer c; addTransactionOutputs transfers' c
  end.

(** An available output is spent by an input. *)
Definition spend_output k (inputIndex : Z) c : outcome TransfersContainer :=
  t ← deref (m_availableTransfers c) k;
  let c := deleteUnlockJob t c in
  c ← copyToSpent block txHash inputIndex t c;
  mret (erase_available k c).

(** [findFirstByAmount] of the sorted range. *)
Definition spending_transfer (keyImage : KeyImage) (amount : Z) c : option TransactionOutputKey :=
  head (filter (λ k, oi_amount <$> ((λ t, oi_info (ex_in t)) <$> m_availableTransfers c !! k) = Some amount)
          (sort_list (less_at (m_availableTransfers c)) (available_range (KeyDescriptor keyImage) c))).

(** An input: whether it spends a transfer of the container. *)
Definition addTransactionInput (i : Z) c : outcome (bool * TransfersContainer) :=
  inputType ← getInputType tx i;
  match inputType with
  | InputType_Key =>
      input ← getKeyInput tx i;
      let d := KeyDescriptor (ki_keyImage input) in
      match spent_range d c, available_range d c, unconfirmed_range d c with
      | _ :: _, _, _ => Throw "Spending already spent transfer"
      | [], [], _ :: _ => Throw "Spending unconfirmed transfer"
      | [], [], [] => mret (false, c)
      | [], _ :: _, _ =>
          match spending_transfer (ki_keyImage input) (ki_amount input) c with
          | None => Throw "Input has invalid amount, corresponding output isn't found"
          | Some k =>
              c ← spend_output k i c;
              c ← updateTransfersVisibility (ki_keyImage input) c;
              mret (true, c)
          end
      end
  | InputType_Multisignature =>
      input ← getMultisignatureInput tx i;
      match available_range (MultisignatureDescriptor (mi_amount input) (mi_outputIndex input)) c with
      | [] => mret (false, c)
      | k :: _ => c ← spend_output k i c; mret (true, c)
      end
  | _ => _ ← assert_ (bool_decide (inputType = InputType_Generating)); mret (false, c)
  end.

(** The inputs from [i] on, [n] of them. *)
Fixpoint addTransactionInputs (n : nat) (i : Z) c : outcome (bool * TransfersContainer) :=
  match n with
  | O => mret (false, c)
  | S n' =>
      '(added, c) ← addTransactionInput i c;
      '(more, c) ← addTransactionInputs n' (i + 1) c;
      mret (added || more, c)
  end.

Definition transaction_info (messages : list (list Z)) : TransactionInformation := {|
  ti_transactionHash := txHash; ti_publicKey := getTransactionPublicKey tx; ti_blockHeight := tb_height block;
  ti_timestamp := tb_timestamp block; ti_unlockTime := getUnlockTime tx; ti_totalAmountIn := getInputTotalAmount tx;
  ti_totalAmountOut := getOutputTotalAmount tx; ti_extra := getExtra tx;
  ti_paymentId := default NULL_HASH (getPaymentId tx); ti_messages := messages
|}.
End Adding.

Definition find_transaction h c : option TransactionInformation :=
  head (filter (λ t, ti_transactionHash t = h) (m_transactions c)).

(** [m_transactions.insert]. *)
Definition insert_transaction (info : TransactionInformation) c : outcome TransfersContainer :=
  _ ← assert_ (bool_decide (find_transaction (ti_transactionHash info) c = None));
  mret (with_transactions (insert_by ti_blockHeight info (m_transactions c)) c).

Definition addTransaction {T} `{ITransactionReader T} (block : TransactionBlockInfo) (tx : T)
    (transfers : list TransactionOutputInformationIn) (messages : list (list Z)) c
    : outcome (bool * list TransactionOutputInformation * TransfersContainer) :=
  if tb_height block <? m_currentHeight c then Throw "Cannot add transaction from block < m_currentHeight"
  else
    txHash ← getTransactionHash tx;
    if bool_decide (is_Some (find_transaction txHash c)) then Throw "Transaction is already added"
    else
      c ← addTransactionOutputs block tx txHash transfers c;
      '(inputsAdded, c) ← addTransactionInputs block tx txHash (Z.to_nat (getInputCount tx)) 0 c;
      let added := negb (bool_decide (transfers = [])) || inputsAdded in
      c ← (if added : bool then insert_transaction (transaction_info block tx txHash messages) c else mret c);
      if negb (tb_height block =? WALLET_LEGACY_UNCONFIRMED_TRANSACTION_HEIGHT) then
        '(finishedJobs, c) ← doAdvanceHeight (tb_height block) c;
        mret (added, finishedJobs, c)
      else mret (added, [], c).

(** ** Deleting transactions *)

Fixpoint unspend_loop (ks : list TransactionOutputKey) c : outcome TransfersContainer :=
  match ks with
  | [] => mret c
  | k :: ks' =>
      s ← deref (m_spentTransfers c) k;
      let s := st_output s in
      _ ← assert_ (negb (ex_blockHeight s =? WALLET_LEGACY_UNCONFIRMED_TRANSACTION_HEIGHT));
      _ ← assert_ (negb (oi_globalOutputIndex s =? UNCONFIRMED_TRANSACTION_GLOBAL_OUTPUT_INDEX));
      c ← addUnlockJob s c;
      c ← insert_available s c;
      c ← update_for s (erase_spent k c);
      unspend_loop ks' c
  end.

Fixpoint erase_unconfirmed_loop (ks : list TransactionOutputKey) c : outcome TransfersContainer :=
  match ks with
  | [] => mret c
  | k :: ks' =>
      t ← deref (m_unconfirmedTransfers c) k;
      c ← update_for (ex_in t) (erase_unconfirmed k c);
      erase_unconfirmed_loop ks' c
  end.

Fixpoint erase_available_loop (ks : list TransactionOutputKey) c : outcome TransfersContainer :=
  match ks with
  | [] => mret c
  | k :: ks' =>
      t ← deref (m_availableTransfers c) k;
      c ← update_for (ex_in t) (erase_available k (deleteUnlockJob t c));
      erase_available_loop ks' c
  end.

Definition deleteTransactionTransfers h c : outcome TransfersContainer :=
  c ← unspend_loop (keys_where (spent_by h) (m_spentTransfers c)) c;
  c ← erase_unconfirmed_loop (keys_where (λ t : TransactionOutputInformationEx, in_transaction h t) (m_unconfirmedTransfers c)) c;
  erase_available_loop (keys_where (λ t : TransactionOutputInformationEx, in_transaction h t) (m_availableTransfers c)) c.

Definition erase_transaction h c : TransfersContainer :=
  with_transactions (filter (λ t, ti_transactionHash t ≠ h) (m_transactions c)) c.

Definition deleteUnconfirmedTransaction h c : outcome (bool * TransfersContainer) :=
  match find_transaction h c with
  | None => mret (false, c)
  | Some info =>
      if negb (ti_blockHeight info =? WALLET_LEGACY_UNCONFIRMED_TRANSACTION_HEIGHT) then mret (false, c)
      else c ← deleteTransactionTransfers h c; mret (true, erase_transaction h c)
  end.

(** ** Confirming a transaction *)

Definition confirmed (block : TransactionBlockInfo) (globalIndex : Z) (t : TransactionOutputInformationEx)
    : TransactionOutputInformationEx := {|
  ex_in := {| oi_info := {| oi_target := oi_target t; oi_amount := oi_amount t; oi_globalOutputIndex := globalIndex;
                            oi_outputInTransaction := oi_outputInTransaction t;
                            oi_transactionHash := oi_transactionHash t;
                            oi_transactionPublicKey := oi_transactionPublicKey t |};
              oi_keyImage := oi_keyImage t |};
  ex_unlockTime := ex_unlockTime t; ex_blockHeight := tb_height block;
  ex_transactionIndex := tb_transactionIndex block; ex_visible := ex_visible t
|}.

Fixpoint confirm_loop (block : TransactionBlockInfo) (globalIndices : list Z) (ks : list TransactionOutputKey) c
    : outcome TransfersContainer :=
  match ks with
  | [] => mret c
  | k :: ks' =>
      t ← deref (m_unconfirmedTransfers c) k;
      _ ← assert_ (ex_blockHeight t =? WALLET_LEGACY_UNCONFIRMED_TRANSACTION_HEIGHT);
      _ ← assert_ (oi_globalOutputIndex (ex_in t) =? UNCONFIRMED_TRANSACTION_GLOBAL_OUTPUT_INDEX);
      if Z.of_nat (length globalIndices) <=? oi_outputInTransaction (ex_in t) then Throw "Not enough elements in globalIndices"
      else
        globalIndex ← at_ globalIndices (oi_outputInTransaction (ex_in t));
        let transfer := confirmed block globalIndex t in
        c ← make_available transfer c;
        c ← update_for transfer (erase_unconfirmed k c);
        confirm_loop block globalIndices ks' c
  end.

(** The spent outputs get the block of the transaction that spends them. *)
Definition confirm_spent (block : TransactionBlockInfo) h (m : gmap TransactionOutputKey SpentTransactionOutput) :=
  (λ s, if spent_by h s
        then {| st_output := st_output s; st_spendingBlock := block;
                st_spendingTransactionHash := st_spendingTransactionHash s;
                st_inputInTransaction := st_inputInTransaction s |}
        else s) <$> m.

Definition markTransactionConfirmed (block : TransactionBlockInfo) h (globalIndices : list Z) c
    : outcome (bool * TransfersContainer) :=
  if tb_height block =? WALLET_LEGACY_UNCONFIRMED_TRANSACTION_HEIGHT
  then Throw "Block height equals WALLET_LEGACY_UNCONFIRMED_TRANSACTION_HEIGHT"
  else
    match find_transaction h c with
    | None => mret (false, c)
    | Some info =>
        if negb (ti_blockHeight info =? WALLET_LEGACY_UNCONFIRMED_TRANSACTION_HEIGHT) then mret (false, c)
        else
          let txInfo := {| ti_transactionHash := ti_transactionHash info; ti_publicKey := ti_publicKey info;
                           ti_blockHeight := tb_height block; ti_timestamp := tb_timestamp block;
                           ti_unlockTime := ti_unlockTime info; ti_totalAmountIn := ti_totalAmountIn info;
                           ti_totalAmountOut := ti_totalAmountOut info; ti_extra := ti_extra info;
                           ti_paymentId := ti_paymentId info; ti_messages := ti_messages info |} in
          let c := erase_transaction h c in
          let c := with_transactions (insert_by ti_blockHeight txInfo (m_transactions c)) c in
          c ← confirm_loop block globalIndices
                (keys_where (λ t : TransactionOutputInformationEx, in_transaction h t) (m_unconfirmedTransfers c)) c;
          _ ← assert_ (bool_decide (map_Forall (λ _ s, spent_by h s = true →
                tb_height (st_spendingBlock s) = WALLET_LEGACY_UNCONFIRMED_TRANSACTION_HEIGHT) (m_spentTransfers c)));
          mret (true, with_transfers (m_unconfirmedTransfers c) (m_availableTransfers c)
                        (confirm_spent block h (m_spentTransfers c)) (m_transfersUnlockJobs c) c)
    end.

(** ** [detach] *)

(** Whether a transaction goes when the chain above [height] is removed; [None] ends
    the loop. *)
Definition to_delete (height : Z) (t : TransactionInformation) c : option bool :=
  if ti_blockHeight t =? WALLET_LEGACY_UNCONFIRMED_TRANSACTION_HEIGHT then
    Some (negb (bool_decide (map_Forall (λ _ s, spent_by (ti_transactionHash t) s = true →
            ex_blockHeight (st_output s) < height) (m_spentTransfers c))))
  else if height <=? ti_blockHeight t then Some true
  else None.

(** The loop from the end of the index by height; [ts] are the transactions that are
    still to be looked at, the last one first. *)
Fixpoint detach_loop (height : Z) (ts : list TransactionInformation) c : outcome (list Hash * TransfersContainer) :=
  match ts with
  | [] => mret ([], c)
  | t :: ts' =>
      match to_delete height t c with
      | None => mret ([], c)
      | Some false => detach_loop height ts' c
      | Some true =>
          c ← deleteTransactionTransfers (ti_transactionHash t) c;
          '(deleted, c) ← detach_loop height ts' (erase_transaction (ti_transactionHash t) c);
          mret (ti_transactionHash t :: deleted, c)
      end
  end.

Definition detach (height : Z) c : outcome (list Hash * list TransactionOutputInformation * TransfersContainer) :=
  _ ← assert_ (height <? WALLET_LEGACY_UNCONFIRMED_TRANSACTION_HEIGHT);
  '(deletedTransactions, c) ← detach_loop height (reverse (m_transactions c)) c;
  let prevHeight := m_currentHeight c in
  let c := with_height (if height =? 0 then 0 else u32 (height - 1)) c in
  lockedTransfers ← getLockingTransfers prevHeight (m_currentHeight c) c;
  mret (deletedTransactions, lockedTransfers, c).

(** ** Queries *)

Definition IncludeStateUnlocked : Z := 0x01.
Definition IncludeStateLocked : Z := 0x02.
Definition IncludeStateSoftLocked : Z := 0x04.
Definition IncludeStateSpent : Z := 0x08.
Definition IncludeStateAll : Z := 0xff.
Definition IncludeTypeKey : Z := 0x100.
Definition IncludeTypeMultisignature : Z := 0x200.
Definition IncludeTypeDeposit : Z := 0x400.
Definition IncludeTypeAll : Z := 0xff00.

Definition has_flag (flags flag : Z) : bool := negb (Z.land flags flag =? 0).

Definition isSpendTimeUnlocked (info : TransactionOutputInformationEx) c : bool :=
  let isOuputUnlocked :=
    if ex_unlockTime info <? m_maxBlockHeight currency
    then ex_unlockTime info <=? u64 (m_currentHeight c + m_lockedTxAllowedDeltaBlocks currency)
    else ex_unlockTime info <=? u64 (now + m_lockedTxAllowedDeltaSeconds currency) in
  match oi_target info with
  | MultisignatureTarget _ term =>
      if isOuputUnlocked && negb (term =? 0) then u32 (ex_blockHeight info + term) <=? u32 (m_currentHeight c + 1)
      else isOuputUnlocked
  | KeyTarget _ => isOuputUnlocked
  end.

(** The static [isIncluded]. *)
Definition isIncluded_state (output : TransactionOutputInformation) (state flags : Z) : bool :=
  match oi_target output with
  | KeyTarget _ => has_flag flags IncludeTypeKey
  | MultisignatureTarget _ term =>
      (has_flag flags IncludeTypeMultisignature && (term =? 0)) || (has_flag flags IncludeTypeDeposit && (0 <? term))
  end && has_flag flags state.

Definition transfer_state (info : TransactionOutputInformationEx) c : Z :=
  if (ex_blockHeight info =? WALLET_LEGACY_UNCONFIRMED_TRANSACTION_HEIGHT) || negb (isSpendTimeUnlocked info c)
  then IncludeStateLocked
  else if m_currentHeight c <? u64 (ex_blockHeight info + transactionSpendableAge) then IncludeStateSoftLocked
  else IncludeStateUnlocked.

Definition isIncluded (info : TransactionOutputInformationEx) (flags : Z) c : bool :=
  isIncluded_state info (transfer_state info c) flags.

(** The elements that the loops of [balance] and [getOutputs] take. *)
Definition counted (flags : Z) c : list TransactionOutputInformationEx :=
  filter (λ t, ex_visible t && isIncluded t flags c) (snd <$> map_to_list (m_availableTransfers c)) ++
  (if has_flag flags IncludeStateLocked
   then filter (λ t : TransactionOutputInformationEx, ex_visible t && isIncluded_state t IncludeStateLocked flags)
          (snd <$> map_to_list (m_unconfirmedTransfers c))
   else []).

Definition balance (flags : Z) c : Z := sum64 ((λ t : TransactionOutputInformationEx, oi_amount t) <$> counted flags c).

Definition getOutputs (flags : Z) c : list TransactionOutputInformation :=
  (λ t : TransactionOutputInformationEx, oi_info (ex_in t)) <$> counted flags c.

Definition transfersCount c : Z :=
  Z.of_nat (size (m_unconfirmedTransfers c) + size (m_availableTransfers c) + size (m_spentTransfers c)).
Definition transactionsCount c : Z := Z.of_nat (length (m_transactions c)).

(** The elements of a container for which a test holds. *)
Definition elements_where {A} (P : A → bool) (m : gmap TransactionOutputKey A) : list A :=
  filter (λ t, P t) (snd <$> map_to_list m).
Definition amounts {A} (f : A → TransactionOutputInformation) (l : list A) : list Z := (λ t, oi_amount (f t)) <$> l.
Definition info_of (t : TransactionOutputInformationEx) : TransactionOutputInformation := oi_info (ex_in t).
Definition spent_info (s : SpentTransactionOutput) : TransactionOutputInformation := info_of (st_output s).

(** The information with the amounts of the inputs and of the outputs. *)
Definition getTransactionInformation h c : option (TransactionInformation * Z * Z) :=
  match find_transaction h c with
  | None => None
  | Some info =>
      let amountOut :=
        if ti_blockHeight info =? WALLET_LEGACY_UNCONFIRMED_TRANSACTION_HEIGHT
        then sum64 (amounts info_of (elements_where (λ t, in_transaction h (info_of t)) (m_unconfirmedTransfers c)))
        else sum64 (amounts info_of (elements_where (λ t, in_transaction h (info_of t)) (m_availableTransfers c)) ++
                    amounts spent_info (elements_where (λ t, in_transaction h (spent_info t)) (m_spentTransfers c))) in
      let amountIn := sum64 (amounts spent_info (elements_where (spent_by h) (m_spentTransfers c))) in
      Some (info, amountIn, amountOut)
  end.

Definition getTransactionOutputs h (flags : Z) c : list TransactionOutputInformation :=
  (info_of <$> elements_where (λ t, in_transaction h (info_of t) && isIncluded t flags c) (m_availableTransfers c)) ++
  (if has_flag flags IncludeStateLocked
   then info_of <$> elements_where (λ t, in_transaction h (info_of t) && isIncluded_state (info_of t) IncludeStateLocked flags)
                      (m_unconfirmedTransfers c)
   else []) ++
  (if has_flag flags IncludeStateSpent
   then spent_info <$> elements_where (λ t, in_transaction h (spent_info t) && isIncluded_state (spent_info t) IncludeStateAll flags)
                         (m_spentTransfers c)
   else []).

Definition getTransactionInputs h (flags : Z) c : outcome (list TransactionOutputInformation) :=
  _ ← assert_ (Z.land flags IncludeStateAll =? 0);
  let flags := Z.lor flags IncludeStateUnlocked in
  mret (spent_info <$> elements_where (λ t, spent_by h t && isIncluded_state (spent_info t) IncludeStateUnlocked flags)
                         (m_spentTransfers c)).

Definition getUnconfirmedTransactions c : list Hash :=
  ti_transactionHash <$> filter (λ t, ti_blockHeight t = WALLET_LEGACY_UNCONFIRMED_TRANSACTION_HEIGHT) (m_transactions c).

Definition getSpentOutputs c : list TransactionSpentOutputInformation :=
  (λ x : TransactionOutputKey * SpentTransactionOutput, let o := snd x in
   {| so_info := spent_info o; so_spendingBlockHeight := tb_height (st_spendingBlock o);
      so_timestamp := tb_timestamp (st_spendingBlock o); so_spendingTransactionHash := st_spendingTransactionHash o;
      so_keyImage := oi_keyImage (st_output o); so_inputInTransaction := st_inputInTransaction o |}) <$>
  map_to_list (m_spentTransfers c).

Inductive TransferState := TransferUnconfirmed | TransferLocked | TransferAvailable | TransferSpent.

(** For a spent output the iterator of the unconfirmed ones is read, which is at the
    end of its container. *)
Definition getTransfer h (outputInTransaction : Z) c : outcome (option (TransactionOutputInformation * TransferState)) :=
  let transferId := (h, outputInTransaction) in
  match m_availableTransfers c !! transferId, m_unconfirmedTransfers c !! transferId, m_spentTransfers c !! transferId with
  | Some t, _, _ =>
      mret (Some (info_of t,
        if negb (isSpendTimeUnlocked t c) || (m_currentHeight c <? u64 (ex_blockHeight t + transactionSpendableAge))
        then TransferLocked else TransferAvailable))
  | None, Some t, _ => mret (Some (info_of t, TransferUnconfirmed))
  | None, None, Some _ =>
      t ← deref (m_unconfirmedTransfers c) transferId; mret (Some (info_of t, TransferSpent))
  | None, None, None => mret None
  end.
End Container.
