(* ===== verification/TransfersInvariant.v ===== *)
(** * The transfers of an account: proofs

    The invariant of [Transfers.TransfersContainer] and that every operation keeps it:
    each output is in one of the three containers, the unlock jobs are exactly those of
    the available outputs, of the outputs with one key image at most one is visible,
    and every output belongs to a stored transaction. *)

From S2P Require Import Prelude Config CryptoNoteTypes Crypto Currency TransactionExtra TransactionObjects Transfers.
From stdpp Require Import gmap.

Local Open Scope Z_scope.

Abbreviation UNCONFIRMED := WALLET_LEGACY_UNCONFIRMED_TRANSACTION_HEIGHT.
Abbreviation Transfer := TransactionOutputInformationEx.
Abbreviation transfers := (gmap TransactionOutputKey TransactionOutputInformationEx).
Abbreviation spents := (gmap TransactionOutputKey SpentTransactionOutput).

(** ** Ordered indices *)

Section Ordered.
Context {A : Type} (key : A → Z).

Definition ordered (l : list A) : Prop := ∀ i j x y, (i < j)%nat → l !! i = Some x → l !! j = Some y → key x <= key y.

Lemma ordered_cons x l : ordered (x :: l) ↔ (∀ y, y ∈ l → key x <= key y) ∧ ordered l.
Proof.
  split.
  - intros Ho. split.
    + intros y (j & Hj)%list_elem_of_lookup. by apply (Ho O (S j)); [lia|..].
    + intros i j a b Hij Ha Hb. by apply (Ho (S i) (S j)); [lia|..].
  - intros [Hx Ho] [|i] [|j] a b Hij Ha Hb; try lia; cbn in Ha, Hb.
    + injection Ha as <-. by eapply Hx, list_elem_of_lookup_2.
    + by apply (Ho i j); [lia|..].
Qed.

Lemma insert_by_perm x l : insert_by key x l ≡ₚ x :: l.
Proof.
  induction l as [|y l IH]; cbn [insert_by]; [done|]. case_bool; [done|]. rewrite IH. apply Permutation_swap.
Qed.

Lemma elem_of_insert_by y x l : y ∈ insert_by key x l ↔ y = x ∨ y ∈ l.
Proof. rewrite insert_by_perm. apply elem_of_cons. Qed.

Lemma insert_by_ordered x l : ordered l → ordered (insert_by key x l).
Proof.
  induction l as [|y l IH]; intros Ho; cbn [insert_by].
  - apply ordered_cons. split; [|done]. by intros z Hz%elem_of_nil.
  - apply ordered_cons in Ho as [Hy Ho]. case_bool.
    + apply ordered_cons. split; [|by apply ordered_cons]. intros z [->|Hz]%elem_of_cons; [lia|].
      specialize (Hy z Hz). lia.
    + apply ordered_cons. split; [|by apply IH]. intros z [->|Hz]%elem_of_insert_by; [lia|by apply Hy].
Qed.

Lemma filter_ordered (P : A → Prop) `{!∀ x, Decision (P x)} l : ordered l → ordered (filter P l).
Proof.
  induction l as [|y l IH]; intros Ho; [done|]. apply ordered_cons in Ho as [Hy Ho]. rewrite filter_cons.
  destruct (decide (P y)); [|by apply IH]. apply ordered_cons. split; [|by apply IH].
  intros z [_ Hz]%list_elem_of_filter. by apply Hy.
Qed.

(** The elements up to a bound are those before it. *)
Lemma upper_bound_spec b l : ordered l →
  (upper_bound key b l <= length l)%nat ∧ ∀ i x, l !! i = Some x → (i < upper_bound key b l)%nat ↔ key x <= b.
Proof.
  induction l as [|y l IH]; intros Ho; cbn [upper_bound length]; [split; [done|]; by intros i x|].
  apply ordered_cons in Ho as [Hy Ho]. destruct (IH Ho) as [Hle Hspec]. case_bool.
  - split; [lia|]. intros [|i] x Hx; cbn in Hx.
    + injection Hx as <-. lia.
    + apply list_elem_of_lookup_2 in Hx. specialize (Hy x Hx). lia.
  - split; [lia|]. intros [|i] x Hx; cbn in Hx.
    + injection Hx as <-. lia.
    + rewrite <- (Hspec i x Hx). lia.
Qed.

Lemma sublist_insert_by x l : l `sublist_of` insert_by key x l.
Proof.
  induction l as [|y l IH]; cbn [insert_by]; [apply sublist_nil_l|]. case_bool; [by constructor|by constructor].
Qed.

(** An element with a key that is not greater stands before the new one. *)
Lemma insert_by_after x y l : ordered l → y ∈ l → key y <= key x → [y; x] `sublist_of` insert_by key x l.
Proof.
  induction l as [|z l IH]; intros Ho Hy Hk; [by apply elem_of_nil in Hy|].
  apply ordered_cons in Ho as [Hz Ho]. cbn [insert_by]. case_bool.
  - apply elem_of_cons in Hy as [->|Hy]; [lia|]. specialize (Hz y Hy). lia.
  - apply elem_of_cons in Hy as [->|Hy].
    + apply sublist_skip, list.singleton_sublist_l. apply elem_of_insert_by. by left.
    + apply sublist_cons. by apply IH.
Qed.
End Ordered.

(** ** The invariant *)

Definition is_key (ki : KeyImage) (t : TransactionOutputInformationIn) : Prop :=
  getSpentOutputDescriptor t = KeyDescriptor ki.
Definition is_multisignature (t : TransactionOutputInformationIn) : Prop :=
  match oi_target t with MultisignatureTarget _ _ => True | KeyTarget _ => False end.

(** The key of an output and whether it is confirmed. *)
Definition transfer_ok (unconfirmed : bool) (k : TransactionOutputKey) (t : Transfer) : Prop :=
  getTransactionOutputKey t = k ∧
  (if unconfirmed
   then ex_blockHeight t = UNCONFIRMED ∧ oi_globalOutputIndex t = UNCONFIRMED_TRANSACTION_GLOBAL_OUTPUT_INDEX
   else ex_blockHeight t ≠ UNCONFIRMED ∧ oi_globalOutputIndex t ≠ UNCONFIRMED_TRANSACTION_GLOBAL_OUTPUT_INDEX).

(** The jobs are those of the available outputs. *)
Record jobs_ok (age : Z) (available : transfers) (jobs : list TransferUnlockJob) : Prop := {
  jobs_nodup : NoDup (snd <$> jobs);
  jobs_ordered : ordered fst jobs;
  jobs_exact job : job ∈ jobs ↔ ∃ t, available !! snd job = Some t ∧ job = makeTransferUnlockJob t (u32 age)
}.

(** What holds of the containers apart from visibility. *)
Record shape (age : Z) (c : TransfersContainer) : Prop := {
  shape_unconfirmed k t : m_unconfirmedTransfers c !! k = Some t → transfer_ok true k t;
  shape_available k t : m_availableTransfers c !! k = Some t → transfer_ok false k t;
  shape_spent k s : m_spentTransfers c !! k = Some s → transfer_ok false k (st_output s);
  shape_apart k : is_Some (m_availableTransfers c !! k) → m_unconfirmedTransfers c !! k = None ∧ m_spentTransfers c !! k = None;
  shape_apart' k : is_Some (m_spentTransfers c !! k) → m_unconfirmedTransfers c !! k = None;
  shape_jobs : jobs_ok age (m_availableTransfers c) (m_transfersUnlockJobs c);
  shape_once k k' s s' : m_spentTransfers c !! k = Some s → m_spentTransfers c !! k' = Some s' →
    getSpentOutputDescriptor (st_output s) = getSpentOutputDescriptor (st_output s') → k = k';
  shape_multisignature k (t : Transfer) : m_availableTransfers c !! k = Some t → is_multisignature t →
    (∀ k' (t' : Transfer), m_availableTransfers c !! k' = Some t' → getSpentOutputDescriptor t' = getSpentOutputDescriptor t → k' = k) ∧
    (∀ k' s, m_spentTransfers c !! k' = Some s → getSpentOutputDescriptor (st_output s) ≠ getSpentOutputDescriptor t)
}.

(** Of the outputs with one key image a spent one is visible, else the first of the
    available ones, else an unconfirmed one if there is only one. *)
Definition visible_ok (u a : transfers) (s : spents) : Prop :=
  (s ≠ ∅ → map_Forall (λ _ t, ex_visible t = false) u ∧ map_Forall (λ _ t, ex_visible t = false) a ∧
     map_Forall (λ _ t, ex_visible (st_output t) = true) s) ∧
  (s = ∅ → a ≠ ∅ → map_Forall (λ _ t, ex_visible t = false) u ∧
     ∃ k t, a !! k = Some t ∧ ex_visible t = true ∧
       ∀ k' t', a !! k' = Some t' → less_transfer t' t = false ∧ (k' ≠ k → ex_visible t' = false)) ∧
  (s = ∅ → a = ∅ → map_Forall (λ k t, ex_visible t = true ↔ ∀ k', is_Some (u !! k') → k' = k) u).

#[export] Instance is_key_dec ki t : Decision (is_key ki t).
Proof. unfold is_key. apply _. Defined.

(** The outputs with a key image. *)
Definition part (ki : KeyImage) (m : transfers) : transfers :=
  filter (λ x : TransactionOutputKey * Transfer, is_key ki (snd x)) m.
Definition spent_part (ki : KeyImage) (m : spents) : spents :=
  filter (λ x : TransactionOutputKey * SpentTransactionOutput, is_key ki (st_output (snd x))) m.

Definition visible (ki : KeyImage) (c : TransfersContainer) : Prop :=
  visible_ok (part ki (m_unconfirmedTransfers c)) (part ki (m_availableTransfers c)) (spent_part ki (m_spentTransfers c)).

(** Containers that differ in visibility at most. *)
Definition hide (m : transfers) : transfers := with_visible false <$> m.
Definition spent_hide (m : spents) : spents := spent_with_visible false <$> m.

Record alike (c c' : TransfersContainer) : Prop := {
  alike_unconfirmed : hide (m_unconfirmedTransfers c) = hide (m_unconfirmedTransfers c');
  alike_available : hide (m_availableTransfers c) = hide (m_availableTransfers c');
  alike_spent : spent_hide (m_spentTransfers c) = spent_hide (m_spentTransfers c');
  alike_jobs : m_transfersUnlockJobs c = m_transfersUnlockJobs c';
  alike_transactions : m_transactions c = m_transactions c';
  alike_height : m_currentHeight c = m_currentHeight c'
}.

#[export] Instance alike_equivalence : Equivalence alike.
Proof.
  split.
  - by intros c; split.
  - by intros c c' []; split.
  - intros c1 c2 c3 [] []. split; congruence.
Qed.

Lemma visible_eta t t' : with_visible false t = with_visible false t' → t' = with_visible (ex_visible t') t.
Proof. destruct t, t'. by intros [= -> -> -> ->]. Qed.

Lemma hide_lookup m m' k t : hide m = hide m' → m !! k = Some t → ∃ v, m' !! k = Some (with_visible v t).
Proof.
  intros E Hk. assert (hide m !! k = hide m' !! k) as El by (by rewrite E). unfold hide in El.
  rewrite !lookup_fmap, Hk in El. destruct (m' !! k) as [t'|]; [|done]. apply (inj Some) in El.
  apply visible_eta in El. exists (ex_visible t'). by rewrite <- El.
Qed.

Lemma hide_None m m' k : hide m = hide m' → m !! k = None → m' !! k = None.
Proof.
  intros E Hk. destruct (m' !! k) as [t|] eqn:Ek; [|done].
  destruct (hide_lookup m' m k t (eq_sym E) Ek) as [v ?]. congruence.
Qed.

Lemma spent_hide_lookup m m' k s :
  spent_hide m = spent_hide m' → m !! k = Some s → ∃ v, m' !! k = Some (spent_with_visible v s).
Proof.
  intros E Hk. assert (spent_hide m !! k = spent_hide m' !! k) as El by (by rewrite E). unfold spent_hide in El.
  rewrite !lookup_fmap, Hk in El. destruct (m' !! k) as [s'|]; [|done]. apply (inj Some) in El.
  destruct s as [t b h i], s' as [t' b' h' i']. injection El as E1 E2 E3 E4 -> -> ->. exists (ex_visible t').
  unfold spent_with_visible. cbn. rewrite <- (visible_eta t t'); [done|]. unfold with_visible. congruence.
Qed.

Lemma spent_hide_None m m' k : spent_hide m = spent_hide m' → m !! k = None → m' !! k = None.
Proof.
  intros E Hk. destruct (m' !! k) as [t|] eqn:Ek; [|done].
  destruct (spent_hide_lookup m' m k t (eq_sym E) Ek) as [v ?]. congruence.
Qed.

Lemma jobs_alike age a a' jobs : hide a = hide a' → jobs_ok age a jobs → jobs_ok age a' jobs.
Proof.
  intros E [Hn Ho Hx]. split; [done..|]. intros job. rewrite Hx. split; intros (t & Ht & ->).
  - destruct (hide_lookup _ _ _ _ E Ht) as [v Hv]. by exists (with_visible v t).
  - destruct (hide_lookup _ _ _ _ (eq_sym E) Ht) as [v Hv]. by exists (with_visible v t).
Qed.

(** Visibility plays no part in the shape. *)
Lemma shape_alike age c c' : alike c c' → shape age c → shape age c'.
Proof.
  intros [Eu Ea Es Ej _ _] [Hu Ha Hs Hap Hap' Hj Ho Hm]. symmetry in Eu, Ea, Es. split.
  - intros k t Ht. destruct (hide_lookup _ _ _ _ Eu Ht) as [v Hv]. apply (Hu _ _ Hv).
  - intros k t Ht. destruct (hide_lookup _ _ _ _ Ea Ht) as [v Hv]. apply (Ha _ _ Hv).
  - intros k s Ht. destruct (spent_hide_lookup _ _ _ _ Es Ht) as [v Hv]. apply (Hs _ _ Hv).
  - intros k [t Ht]. destruct (hide_lookup _ _ _ _ Ea Ht) as [v Hv]. destruct (Hap k) as [H1 H2]; [by eexists|].
    split; [by eapply hide_None|by eapply spent_hide_None].
  - intros k [t Ht]. destruct (spent_hide_lookup _ _ _ _ Es Ht) as [v Hv]. eapply hide_None; [done|].
    apply Hap'. by eexists.
  - rewrite <- Ej. by eapply jobs_alike.
  - intros k k' s s' Hk Hk' E. destruct (spent_hide_lookup _ _ _ _ Es Hk) as [v Hv].
    destruct (spent_hide_lookup _ _ _ _ Es Hk') as [v' Hv']. by eapply Ho.
  - intros k t Hk Hmt. destruct (hide_lookup _ _ _ _ Ea Hk) as [v Hv]. destruct (Hm _ _ Hv Hmt) as [H1 H2]. split.
    + intros k' t' Hk' E. destruct (hide_lookup _ _ _ _ Ea Hk') as [v' Hv']. by eapply H1.
    + intros k' s Hk' E. destruct (spent_hide_lookup _ _ _ _ Es Hk') as [v' Hv']. by eapply H2.
Qed.

#[export] Instance shape_proper age : Proper (alike ==> iff) (shape age).
Proof. intros c c' E. split; apply shape_alike; [done|by symmetry]. Qed.

(** ** Ranges and visibility *)

Section Proofs.
Context `{CryptoOps}.
Variable arrange : list TransactionOutputKey → list TransactionOutputKey.
Variable currency : Currency.
Variable age : Z.
Variable now : Z.
Hypothesis arrange_perm : ∀ l, arrange l ≡ₚ l.

Implicit Types (t : Transfer) (s : SpentTransactionOutput) (k : TransactionOutputKey) (ki : KeyImage).

Lemma elem_of_keys_where {A} (P : A → bool) (m : gmap TransactionOutputKey A) k :
  k ∈ keys_where arrange P m ↔ ∃ x, m !! k = Some x ∧ P x = true.
Proof.
  unfold keys_where. rewrite arrange_perm, list_elem_of_fmap. split.
  - intros ([k' t] & -> & Hin). apply list_elem_of_filter in Hin as [Hp Hin]. exists t.
    apply elem_of_map_to_list in Hin. cbn in *. split; [done|]. by apply Is_true_true.
  - intros (t & Hk & Hp). exists (k, t). split; [done|]. apply list_elem_of_filter. cbn. split; [by apply Is_true_true|].
    by apply elem_of_map_to_list.
Qed.

Lemma keys_where_nodup {A} (P : A → bool) (m : gmap TransactionOutputKey A) : NoDup (keys_where arrange P m).
Proof.
  unfold keys_where. rewrite arrange_perm. eapply sublist_NoDup; [apply (NoDup_fst_map_to_list m)|].
  apply fmap_sublist, sublist_filter.
Qed.

Lemma keys_where_nil {A} (P : A → bool) (m : gmap TransactionOutputKey A) :
  keys_where arrange P m = [] ↔ ∀ k x, m !! k = Some x → P x = false.
Proof.
  split.
  - intros E k t Hk. destruct (P t) eqn:Hp; [|done].
    assert (k ∈ keys_where arrange P m) as Hin by (apply elem_of_keys_where; by exists t). rewrite E in Hin.
    by apply elem_of_nil in Hin.
  - intros Hn. destruct (keys_where arrange P m) as [|k l] eqn:E; [done|].
    assert (k ∈ keys_where arrange P m) as (t & Hk & Hp)%elem_of_keys_where by (rewrite E; by left).
    by rewrite (Hn k t Hk) in Hp.
Qed.

Lemma has_key ki t : has_descriptor (KeyDescriptor ki) t = true ↔ is_key ki t.
Proof. apply bool_decide_eq_true. Qed.

Lemma has_key_false ki t : has_descriptor (KeyDescriptor ki) t = false ↔ ¬ is_key ki t.
Proof. apply bool_decide_eq_false. Qed.

Lemma part_lookup ki (m : transfers) k t : part ki m !! k = Some t ↔ m !! k = Some t ∧ is_key ki t.
Proof. apply map_lookup_filter_Some. Qed.

Lemma spent_part_lookup ki (m : spents) k s : spent_part ki m !! k = Some s ↔ m !! k = Some s ∧ is_key ki (st_output s).
Proof. apply map_lookup_filter_Some. Qed.

Lemma part_empty ki (m : transfers) : part ki m = ∅ ↔ ∀ k t, m !! k = Some t → ¬ is_key ki t.
Proof.
  split.
  - intros E k t Hk Hi. assert (part ki m !! k = Some t) as Hp by (by apply part_lookup). by rewrite E in Hp.
  - intros Hn. apply map_empty. intros k. destruct (part ki m !! k) as [t|] eqn:E; [|done].
    apply part_lookup in E as [Hk Hi]. by destruct (Hn k t).
Qed.

Lemma spent_part_empty ki (m : spents) : spent_part ki m = ∅ ↔ ∀ k s, m !! k = Some s → ¬ is_key ki (st_output s).
Proof.
  split.
  - intros E k s Hk Hi. assert (spent_part ki m !! k = Some s) as Hp by (by apply spent_part_lookup). by rewrite E in Hp.
  - intros Hn. apply map_empty. intros k. destruct (spent_part ki m !! k) as [s|] eqn:E; [|done].
    apply spent_part_lookup in E as [Hk Hi]. by destruct (Hn k s).
Qed.

Lemma updateVisibility_lookup d v m k t :
  updateVisibility d v m !! k = Some t ↔
  ∃ t0, m !! k = Some t0 ∧ t = if has_descriptor d (ex_in t0) then with_visible v t0 else t0.
Proof. unfold updateVisibility. rewrite lookup_fmap_Some. naive_solver. Qed.

Lemma updateVisibility_hide d v m : hide (updateVisibility d v m) = hide m.
Proof.
  unfold hide, updateVisibility. rewrite <- map_fmap_compose. apply map_fmap_ext. intros k t _. cbn. by case_bool.
Qed.

Lemma updateVisibility_part ki v m : part ki (updateVisibility (KeyDescriptor ki) v m) = with_visible v <$> part ki m.
Proof.
  apply map_eq. intros k. apply option_eq. intros t. rewrite part_lookup, updateVisibility_lookup, lookup_fmap_Some.
  setoid_rewrite part_lookup. split.
  - intros [(t0 & Hk & ->) Hi]. case_bool.
    + exists t0. split_and!; [done..|]. by apply has_key.
    + by apply has_key_false in Heqb.
  - intros (t0 & <- & Hk & Hi). split; [|done]. exists t0. split; [done|]. by rewrite (proj2 (has_key _ _)).
Qed.

Lemma updateVisibility_other ki ki' v m : ki' ≠ ki → part ki' (updateVisibility (KeyDescriptor ki) v m) = part ki' m.
Proof.
  intros Hne. apply map_eq. intros k. apply option_eq. intros t. rewrite !part_lookup, updateVisibility_lookup. split.
  - intros [(t0 & Hk & ->) Hi]. destruct (has_descriptor _ _) eqn:Hd; [|done].
    apply has_key in Hd. unfold is_key in *. cbn in Hi. congruence.
  - intros [Hk Hi]. split; [|done]. exists t. split; [done|]. rewrite (proj2 (has_key_false _ _)); [done|].
    unfold is_key in *. congruence.
Qed.

Lemma updateVisibility_spent_hide d v m : spent_hide (updateVisibility_spent d v m) = spent_hide m.
Proof.
  unfold spent_hide, updateVisibility_spent. rewrite <- map_fmap_compose. apply map_fmap_ext. intros k t _. cbn.
  by case_bool.
Qed.

Lemma updateVisibility_spent_lookup d v m k s :
  updateVisibility_spent d v m !! k = Some s ↔
  ∃ s0, m !! k = Some s0 ∧ s = if has_descriptor d (ex_in (st_output s0)) then spent_with_visible v s0 else s0.
Proof. unfold updateVisibility_spent. rewrite lookup_fmap_Some. naive_solver. Qed.

Lemma updateVisibility_spent_part ki v m :
  spent_part ki (updateVisibility_spent (KeyDescriptor ki) v m) = spent_with_visible v <$> spent_part ki m.
Proof.
  apply map_eq. intros k. apply option_eq. intros s.
  rewrite spent_part_lookup, updateVisibility_spent_lookup, lookup_fmap_Some. setoid_rewrite spent_part_lookup. split.
  - intros [(s0 & Hk & ->) Hi]. case_bool.
    + exists s0. split_and!; [done..|]. by apply has_key.
    + by apply has_key_false in Heqb.
  - intros (s0 & <- & Hk & Hi). split; [|done]. exists s0. split; [done|]. by rewrite (proj2 (has_key _ _)).
Qed.

Lemma updateVisibility_spent_other ki ki' v m :
  ki' ≠ ki → spent_part ki' (updateVisibility_spent (KeyDescriptor ki) v m) = spent_part ki' m.
Proof.
  intros Hne. apply map_eq. intros k. apply option_eq. intros s.
  rewrite !spent_part_lookup, updateVisibility_spent_lookup. split.
  - intros [(s0 & Hk & ->) Hi]. destruct (has_descriptor _ _) eqn:Hd; [|done].
    apply has_key in Hd. unfold is_key in *. cbn in Hi. congruence.
  - intros [Hk Hi]. split; [|done]. exists s. split; [done|]. rewrite (proj2 (has_key_false _ _)); [done|].
    unfold is_key in *. congruence.
Qed.

Lemma less_transfer_spec t1 t2 :
  less_transfer t1 t2 = true ↔ ex_blockHeight t1 < ex_blockHeight t2 ∨
    (ex_blockHeight t1 = ex_blockHeight t2 ∧ ex_transactionIndex t1 < ex_transactionIndex t2).
Proof. unfold less_transfer. rewrite orb_true_iff, andb_true_iff, !Z.ltb_lt, Z.eqb_eq. done. Qed.

Lemma less_at_trans (m : transfers) k1 k2 k3 :
  is_Some (m !! k2) → less_at m k1 k2 = false → less_at m k2 k3 = false → less_at m k1 k3 = false.
Proof.
  unfold less_at. intros [t2 ->]. destruct (m !! k1) as [t1|], (m !! k3) as [t3|]; try done.
  rewrite <- !not_true_iff_false, !less_transfer_spec. lia.
Qed.

Lemma less_at_asym (m : transfers) k1 k2 : less_at m k1 k2 = true → less_at m k2 k1 = false.
Proof.
  unfold less_at. destruct (m !! k1), (m !! k2); try done. rewrite <- not_true_iff_false, !less_transfer_spec. lia.
Qed.

Lemma min_element_spec (m : transfers) l : ∀ best,
  (∀ k, k ∈ best :: l → is_Some (m !! k)) →
  min_element (less_at m) best l ∈ best :: l ∧
  ∀ k, k ∈ best :: l → less_at m k (min_element (less_at m) best l) = false.
Proof.
  induction l as [|x l IH]; intros best Hin; cbn [min_element].
  - split; [by left|]. intros k ->%list_elem_of_singleton. destruct (less_at m best best) eqn:E; [|done].
    by rewrite (less_at_asym _ _ _ E) in E.
  - set (b := if less_at m x best then x else best).
    assert (∀ k, k ∈ b :: l → k ∈ best :: x :: l) as Hsub.
    { intros k. unfold b. rewrite !elem_of_cons. destruct (less_at m x best); tauto. }
    destruct (IH b) as [Hmem Hmin]; [intros k Hk; by apply Hin, Hsub|].
    split; [by apply Hsub|]. intros k Hk.
    assert (less_at m k b = false → less_at m k (min_element (less_at m) b l) = false) as Htr.
    { intros Hkb. apply (less_at_trans m k b); [apply Hin, Hsub; by left|done|]. apply Hmin. by left. }
    apply elem_of_cons in Hk as [->|Hk]; [|apply elem_of_cons in Hk as [->|Hk]].
    + apply Htr. unfold b. destruct (less_at m x best) eqn:E; [by apply less_at_asym|].
      destruct (less_at m best best) eqn:E'; [|done]. by rewrite (less_at_asym _ _ _ E') in E'.
    + apply Htr. unfold b. destruct (less_at m x best) eqn:E; [|done].
      destruct (less_at m x x) eqn:E'; [|done]. by rewrite (less_at_asym _ _ _ E') in E'.
    + apply Hmin. by right.
Qed.

Lemma part_hidden (v : bool) (m : transfers) : map_Forall (λ _ t, ex_visible t = v) (with_visible v <$> m).
Proof. intros k t Hk. rewrite lookup_fmap_Some in Hk. by destruct Hk as (t0 & <- & _). Qed.

Lemma spent_range_once ki c k1 k2 :
  shape age c → k1 ∈ spent_range arrange (KeyDescriptor ki) c → k2 ∈ spent_range arrange (KeyDescriptor ki) c → k1 = k2.
Proof.
  intros Hs (s1 & H1 & D1)%elem_of_keys_where (s2 & H2 & D2)%elem_of_keys_where. apply has_key in D1, D2.
  eapply shape_once; [exact Hs|exact H1|exact H2|]. unfold is_key in *. congruence.
Qed.

(** The three cases of [updateTransfersVisibility]. *)
Lemma update_spent ki c :
  spent_part ki (m_spentTransfers c) ≠ ∅ →
  visible_ok (part ki (updateVisibility (KeyDescriptor ki) false (m_unconfirmedTransfers c)))
    (part ki (updateVisibility (KeyDescriptor ki) false (m_availableTransfers c)))
    (spent_part ki (updateVisibility_spent (KeyDescriptor ki) true (m_spentTransfers c))).
Proof.
  intros Hne. rewrite !updateVisibility_part, updateVisibility_spent_part. split_and!.
  - intros _. split_and!; [apply part_hidden..|]. intros k s Hk. rewrite lookup_fmap_Some in Hk.
    by destruct Hk as (s0 & <- & _).
  - intros E. by apply fmap_empty_iff in E.
  - intros E. by apply fmap_empty_iff in E.
Qed.

Lemma update_available ki c k t :
  spent_part ki (m_spentTransfers c) = ∅ → m_availableTransfers c !! k = Some t → is_key ki t →
  (∀ k', k' ∈ available_range arrange (KeyDescriptor ki) c → less_at (m_availableTransfers c) k' k = false) →
  visible_ok (part ki (updateVisibility (KeyDescriptor ki) false (m_unconfirmedTransfers c)))
    (part ki (<[k := with_visible true (with_visible false t)]>
       (updateVisibility (KeyDescriptor ki) false (m_availableTransfers c))))
    (spent_part ki (m_spentTransfers c)).
Proof.
  intros Es Hk Hi Hmin. rewrite Es. split_and!; [done| |].
  - intros _ _. rewrite updateVisibility_part. split; [apply part_hidden|]. exists k, (with_visible true t).
    split; [apply part_lookup; split; [apply lookup_insert_eq|done]|]. split; [done|]. intros k' t' Hk'.
    apply part_lookup in Hk' as [Hk' Hi']. destruct (decide (k' = k)) as [->|Hne].
    + rewrite lookup_insert_eq in Hk'. injection Hk' as <-. split; [|done].
      specialize (Hmin k). unfold less_at in Hmin. rewrite Hk in Hmin. apply Hmin. apply elem_of_keys_where.
      exists t. split; [done|]. by apply has_key.
    + rewrite lookup_insert_ne in Hk' by done. apply updateVisibility_lookup in Hk' as (t0 & Hk0 & ->).
      assert (is_key ki t0) as Hi0 by (by destruct (has_descriptor _ _)).
      rewrite (proj2 (has_key _ _) Hi0). split; [|done]. specialize (Hmin k'). unfold less_at in Hmin.
      rewrite Hk, Hk0 in Hmin. apply Hmin. apply elem_of_keys_where. exists t0. split; [done|]. by apply has_key.
  - intros _ Ea. rewrite part_empty in Ea. by destruct (Ea k (with_visible true (with_visible false t)));
      [apply lookup_insert_eq|].
Qed.

Lemma update_unconfirmed ki c :
  spent_part ki (m_spentTransfers c) = ∅ → part ki (m_availableTransfers c) = ∅ →
  visible_ok (part ki (updateVisibility (KeyDescriptor ki)
      (length (unconfirmed_range arrange (KeyDescriptor ki) c) =? 1)%nat (m_unconfirmedTransfers c)))
    (part ki (m_availableTransfers c)) (spent_part ki (m_spentTransfers c)).
Proof.
  intros Es Ea. rewrite Es, Ea. split_and!; [done..|]. intros _ _ k t Hk.
  rewrite updateVisibility_part in Hk |- *. rewrite lookup_fmap_Some in Hk. destruct Hk as (t0 & <- & Hk0).
  set (l := unconfirmed_range arrange (KeyDescriptor ki) c).
  assert (∀ k', is_Some ((with_visible (length l =? 1)%nat <$> part ki (m_unconfirmedTransfers c)) !! k') ↔ k' ∈ l) as Hl.
  { intros k'. rewrite lookup_fmap, fmap_is_Some. unfold l, unconfirmed_range. rewrite elem_of_keys_where. split.
    - intros [t' Ht']. exists t'. apply part_lookup in Ht' as [? ?]. split; [done|]. by apply has_key.
    - intros (t' & Ht' & Hi'). exists t'. apply part_lookup. split; [done|]. by apply has_key. }
  assert (k ∈ l) as Hkl by (apply Hl; rewrite lookup_fmap, Hk0; by eexists). cbn. rewrite Nat.eqb_eq. split.
  - intros H1 k' Hk'. apply Hl in Hk'. destruct l as [|a [|? ?]]; try done.
    apply list_elem_of_singleton in Hkl, Hk'. congruence.
  - intros Hall. assert (NoDup l) as Hnd by apply keys_where_nodup.
    assert (∀ k', k' ∈ l → k' = k) as Hall' by (intros k' Hk'; by apply Hall, Hl).
    destruct l as [|a [|b r]]; [by apply elem_of_nil in Hkl|done|].
    apply list.NoDup_cons in Hnd as [Hnin _]. destruct Hnin. rewrite (Hall' a), (Hall' b); [by left|..];
      [by right; left|by left].
Qed.

Lemma insert_hide k t (v : bool) (m : transfers) : m !! k = Some t → hide (<[k := with_visible v t]> m) = hide m.
Proof.
  intros Hk. unfold hide. rewrite fmap_insert. apply insert_id. by rewrite lookup_fmap, Hk.
Qed.

(** An output of another key image does not matter. *)
Lemma part_insert_other ki k t (m : transfers) :
  ¬ is_key ki t → (∀ t0, m !! k = Some t0 → ¬ is_key ki t0) → part ki (<[k := t]> m) = part ki m.
Proof.
  intros Hi Hm. apply map_eq. intros k'. apply option_eq. intros t'. rewrite !part_lookup.
  destruct (decide (k' = k)) as [->|Hne]; [|by rewrite lookup_insert_ne].
  rewrite lookup_insert_eq. split; [by intros [[= <-] ?]|]. intros [Hk ?]. by destruct (Hm t').
Qed.

Lemma part_delete_other ki k (m : transfers) :
  (∀ t0, m !! k = Some t0 → ¬ is_key ki t0) → part ki (delete k m) = part ki m.
Proof.
  intros Hm. apply map_eq. intros k'. apply option_eq. intros t'. rewrite !part_lookup.
  destruct (decide (k' = k)) as [->|Hne]; [|by rewrite lookup_delete_ne].
  rewrite lookup_delete_eq. split; [by intros []|]. intros [Hk ?]. by destruct (Hm t').
Qed.

Lemma spent_part_insert_other ki k s (m : spents) :
  ¬ is_key ki (st_output s) → (∀ s0, m !! k = Some s0 → ¬ is_key ki (st_output s0)) →
  spent_part ki (<[k := s]> m) = spent_part ki m.
Proof.
  intros Hi Hm. apply map_eq. intros k'. apply option_eq. intros t'. rewrite !spent_part_lookup.
  destruct (decide (k' = k)) as [->|Hne]; [|by rewrite lookup_insert_ne].
  rewrite lookup_insert_eq. split; [by intros [[= <-] ?]|]. intros [Hk ?]. by destruct (Hm t').
Qed.

Lemma spent_part_delete_other ki k (m : spents) :
  (∀ s0, m !! k = Some s0 → ¬ is_key ki (st_output s0)) → spent_part ki (delete k m) = spent_part ki m.
Proof.
  intros Hm. apply map_eq. intros k'. apply option_eq. intros t'. rewrite !spent_part_lookup.
  destruct (decide (k' = k)) as [->|Hne]; [|by rewrite lookup_delete_ne].
  rewrite lookup_delete_eq. split; [by intros []|]. intros [Hk ?]. by destruct (Hm t').
Qed.

Lemma range_empty ki c :
  (available_range arrange (KeyDescriptor ki) c = [] ↔ part ki (m_availableTransfers c) = ∅) ∧
  (spent_range arrange (KeyDescriptor ki) c = [] ↔ spent_part ki (m_spentTransfers c) = ∅).
Proof.
  unfold available_range, spent_range. rewrite !keys_where_nil, part_empty, spent_part_empty.
  by setoid_rewrite has_key_false.
Qed.

(** [updateTransfersVisibility] returns, it puts the visibility for its key image
    right and changes nothing else. *)
Lemma update_spec ki c :
  shape age c →
  ∃ c', updateTransfersVisibility arrange ki c = Ret c' ∧ alike c c' ∧ visible ki c' ∧
    ∀ ki', ki' ≠ ki → visible ki' c → visible ki' c'.
Proof.
  intros Hs. destruct (range_empty ki c) as [Hav Hsp]. unfold updateTransfersVisibility. cbv zeta.
  pose proof (spent_range_once ki c) as Honce.
  assert (NoDup (spent_range arrange (KeyDescriptor ki) c)) as Hnd by apply keys_where_nodup.
  destruct (spent_range arrange (KeyDescriptor ki) c) as [|s0 l] eqn:Esp.
  - assert (spent_part ki (m_spentTransfers c) = ∅) as Es by (by apply Hsp).
    cbn [length Nat.eqb orb assert_ mbind outcome_bind Nat.ltb Nat.leb].
    destruct (available_range arrange (KeyDescriptor ki) c) as [|k0 l] eqn:Ear.
    + assert (part ki (m_availableTransfers c) = ∅) as Ea by (by apply Hav). eexists. split; [done|]. split; [|split].
      * split; try done. cbn. by rewrite updateVisibility_hide.
      * exact (update_unconfirmed ki c Es Ea).
      * intros ki' Hne Hv. unfold visible. cbn. by rewrite updateVisibility_other.
    + destruct (min_element_spec (m_availableTransfers c) l k0) as [Hmem Hmin].
      { intros k Hk. rewrite <- Ear in Hk. apply elem_of_keys_where in Hk as (t & Hk & _). by exists t. }
      set (k := min_element _ _ _) in *. rewrite <- Ear in Hmem, Hmin. apply elem_of_keys_where in Hmem as (t & Hk & Hd).
      apply has_key in Hd as Hi.
      assert (updateVisibility (KeyDescriptor ki) false (m_availableTransfers c) !! k = Some (with_visible false t)) as Hk'.
      { apply updateVisibility_lookup. exists t. split; [done|]. by rewrite Hd. }
      unfold deref. rewrite Hk'. cbn [mbind outcome_bind mret outcome_ret]. eexists. split; [done|]. split; [|split].
      * split; try done; cbn; [by rewrite updateVisibility_hide|].
        by rewrite (insert_hide k (with_visible false t) true), updateVisibility_hide.
      * exact (update_available ki c k t Es Hk Hi Hmin).
      * intros ki' Hne Hv. unfold visible. cbn. rewrite updateVisibility_other by done.
        rewrite part_insert_other, updateVisibility_other; [done|done| |]; unfold is_key in *; cbn; [congruence|].
        intros t0 Ht0. rewrite Hk' in Ht0. injection Ht0 as <-. cbn. congruence.
  - assert (l = []) as ->.
    { destruct l as [|s1 l]; [done|]. apply list.NoDup_cons in Hnd as [Hn _]. destruct Hn.
      rewrite (Honce s0 s1 Hs); [by left|by left|by right; left]. }
    cbn [length Nat.eqb orb assert_ mbind outcome_bind Nat.ltb Nat.leb]. eexists. split; [done|]. split; [|split].
    + split; try done; cbn; [by rewrite updateVisibility_hide..|by rewrite updateVisibility_spent_hide].
    + apply (update_spent ki c). intros E. by apply Hsp in E.
    + intros ki' Hne Hv. unfold visible. cbn. by rewrite !updateVisibility_other, updateVisibility_spent_other.
Qed.

(** ** Changes of one output *)

Definition whole (c : TransfersContainer) : Prop := shape age c ∧ ∀ ki, visible ki c.

(** Visibility is right but perhaps for the outputs with the key image of [t]. *)
Definition nearly (t : TransactionOutputInformationIn) (c : TransfersContainer) : Prop :=
  shape age c ∧ ∀ ki, ¬ is_key ki t → visible ki c.

Lemma whole_nearly t c : whole c → nearly t c.
Proof. by intros [Hs Hv]. Qed.

Lemma update_for_spec (t : TransactionOutputInformationIn) c :
  nearly t c → ∃ c', update_for arrange t c = Ret c' ∧ alike c c' ∧ whole c'.
Proof.
  intros [Hs Hv]. unfold update_for. destruct (oi_target t) as [key|r term] eqn:Et.
  - destruct (update_spec (oi_keyImage t) c Hs) as (c' & E & Ha & Hk & Ho). exists c'. split_and!; [done..|].
    split; [by rewrite <- Ha|]. intros ki. destruct (decide (ki = oi_keyImage t)) as [->|Hne]; [done|].
    apply Ho; [done|]. apply Hv. unfold is_key, getSpentOutputDescriptor. rewrite Et. congruence.
  - exists c. split_and!; [done..|]. split; [done|]. intros ki. apply Hv. unfold is_key, getSpentOutputDescriptor.
    by rewrite Et.
Qed.

Lemma job_key t : snd (makeTransferUnlockJob t (u32 age)) = getTransactionOutputKey t.
Proof. done. Qed.

Lemma jobs_insert (a : transfers) jobs k t :
  jobs_ok age a jobs → a !! k = None → getTransactionOutputKey t = k →
  jobs_ok age (<[k := t]> a) (insert_by fst (makeTransferUnlockJob t (u32 age)) jobs).
Proof.
  intros [Hn Ho Hx] Hk Ht. split.
  - rewrite insert_by_perm. cbn. rewrite Ht. apply list.NoDup_cons. split; [|done].
    intros (job & -> & Hj)%list_elem_of_fmap. apply Hx in Hj as (t' & Ht' & _). congruence.
  - by apply insert_by_ordered.
  - intros job. rewrite elem_of_insert_by, Hx. split.
    + intros [->|(t' & Ht' & ->)]; [exists t|exists t'].
      * rewrite job_key, Ht, lookup_insert_eq. done.
      * rewrite lookup_insert_ne; [done|]. intros ->. congruence.
    + intros (t' & Ht' & ->). destruct (decide (getTransactionOutputKey t' = k)) as [E|Hne]; rewrite job_key in Ht'.
      * rewrite E, lookup_insert_eq in Ht'. injection Ht' as <-. by left.
      * rewrite lookup_insert_ne in Ht' by done. right. by exists t'.
Qed.

Lemma jobs_delete (a : transfers) jobs k :
  jobs_ok age a jobs → jobs_ok age (delete k a) (filter (λ job, snd job ≠ k) jobs).
Proof.
  intros [Hn Ho Hx]. split.
  - eapply sublist_NoDup; [exact Hn|]. apply fmap_sublist, sublist_filter.
  - by apply filter_ordered.
  - intros job. rewrite list_elem_of_filter, Hx. split.
    + intros (Hne & t & Ht & ->). exists t. by rewrite lookup_delete_ne.
    + intros (t & Ht & ->). apply lookup_delete_Some in Ht as [Hne Ht]. split; [done|]. by exists t.
Qed.

(** An output is put among the available ones, from wherever it was. *)
Lemma place_available c k t :
  whole c → m_availableTransfers c !! k = None → transfer_ok false k t →
  (∀ t0, m_unconfirmedTransfers c !! k = Some t0 → ∀ ki, is_key ki t0 → is_key ki t) →
  (∀ s0, m_spentTransfers c !! k = Some s0 → ∀ ki, is_key ki (st_output s0) → is_key ki t) →
  (is_multisignature t →
   (∀ k' t', m_availableTransfers c !! k' = Some t' → getSpentOutputDescriptor t' ≠ getSpentOutputDescriptor t) ∧
   (∀ k' s, m_spentTransfers c !! k' = Some s → k' ≠ k → getSpentOutputDescriptor (st_output s) ≠ getSpentOutputDescriptor t)) →
  nearly t (with_transfers (delete k (m_unconfirmedTransfers c)) (<[k := t]> (m_availableTransfers c))
    (delete k (m_spentTransfers c)) (insert_by fst (makeTransferUnlockJob t (u32 age)) (m_transfersUnlockJobs c)) c).
Proof.
  intros [[Hu Ha Hs Hap Hap' Hj Ho Hm] Hv] Hk Ht Hku Hks Hmt. split.
  - split; cbn.
    + intros k' t' [_ Ht']%lookup_delete_Some. by apply Hu.
    + intros k' t'. destruct (decide (k' = k)) as [->|Hne]; [rewrite lookup_insert_eq; by intros [= <-]|].
      rewrite lookup_insert_ne by done. apply Ha.
    + intros k' s [_ Hs']%lookup_delete_Some. by apply Hs.
    + intros k' [t' Ht']. destruct (decide (k' = k)) as [->|Hne]; [by rewrite !lookup_delete_eq|].
      rewrite lookup_insert_ne in Ht' by done. rewrite !lookup_delete_ne by done. apply Hap. by exists t'.
    + intros k' [s [Hne Hs']%lookup_delete_Some]. rewrite lookup_delete_ne by done. apply Hap'. by exists s.
    + apply jobs_insert; [done|done|apply Ht].
    + intros k1 k2 s1 s2 [_ H1]%lookup_delete_Some [_ H2]%lookup_delete_Some. by apply Ho.
    + intros k' t' Hk' Hmt'. destruct (decide (k' = k)) as [->|Hne].
      * rewrite lookup_insert_eq in Hk'. injection Hk' as <-. destruct (Hmt Hmt') as [H1 H2]. split.
        -- intros k2 t2 Hk2 E. destruct (decide (k2 = k)) as [|Hne2]; [done|]. rewrite lookup_insert_ne in Hk2 by done.
           by destruct (H1 k2 t2).
        -- intros k2 s2 [Hne2 Hk2]%lookup_delete_Some. by apply (H2 k2).
      * rewrite lookup_insert_ne in Hk' by done. destruct (Hm _ _ Hk' Hmt') as [H1 H2]. split.
        -- intros k2 t2 Hk2 E. destruct (decide (k2 = k)) as [->|Hne2].
           ++ rewrite lookup_insert_eq in Hk2. injection Hk2 as <-. exfalso.
              assert (is_multisignature t) as Hmt2.
              { unfold is_multisignature, getSpentOutputDescriptor in *. destruct (oi_target t), (oi_target t'); done. }
              by destruct (proj1 (Hmt Hmt2) k' t').
           ++ rewrite lookup_insert_ne in Hk2 by done. by apply (H1 k2 t2).
        -- intros k2 s2 [Hne2 Hk2]%lookup_delete_Some. by apply (H2 k2).
  - intros ki Hki. unfold visible. cbn. rewrite part_delete_other, part_insert_other, spent_part_delete_other; [apply Hv|..].
    + intros s0 Hs0 Hi. by apply Hki, (Hks s0).
    + done.
    + intros t0 Ht0. congruence.
    + intros t0 Ht0 Hi. by apply Hki, (Hku t0).
Qed.

(** An output is taken away that is not spent. *)
Lemma remove_output c k t :
  whole c → m_unconfirmedTransfers c !! k = Some t ∨ m_availableTransfers c !! k = Some t →
  nearly t (with_transfers (delete k (m_unconfirmedTransfers c)) (delete k (m_availableTransfers c)) (m_spentTransfers c)
    (filter (λ job, snd job ≠ k) (m_transfersUnlockJobs c)) c).
Proof.
  intros [[Hu Ha Hs Hap Hap' Hj Ho Hm] Hv] Hk.
  assert (∀ t0, m_unconfirmedTransfers c !! k = Some t0 ∨ m_availableTransfers c !! k = Some t0 → t0 = t) as Heq.
  { intros t0 Ht0. destruct (m_availableTransfers c !! k) as [ta|] eqn:Ea; [|destruct Ht0, Hk; congruence].
    destruct (Hap k) as [E _]; [by exists ta|]. destruct Ht0, Hk; congruence. }
  split.
  - split; cbn.
    + intros k' t' [_ Ht']%lookup_delete_Some. by apply Hu.
    + intros k' t' [_ Ht']%lookup_delete_Some. by apply Ha.
    + apply Hs.
    + intros k' [t' [Hne Ht']%lookup_delete_Some]. rewrite lookup_delete_ne by done. apply Hap. by exists t'.
    + intros k' [s Hs']. apply lookup_delete_None. right. apply Hap'. by exists s.
    + by apply jobs_delete.
    + apply Ho.
    + intros k' t' [_ Ht']%lookup_delete_Some Hmt. destruct (Hm _ _ Ht' Hmt) as [H1 H2]. split; [|done].
      intros k2 t2 [_ Hk2]%lookup_delete_Some. by apply H1.
  - intros ki Hki. unfold visible. cbn. rewrite !part_delete_other; [apply Hv|..].
    all: intros t0 Ht0; rewrite (Heq t0); auto.
Qed.

(** An available output is spent. *)
Lemma spend_available c k t s :
  whole c → m_availableTransfers c !! k = Some t → st_output s = t →
  (∀ k' s', m_spentTransfers c !! k' = Some s' → getSpentOutputDescriptor (st_output s') ≠ getSpentOutputDescriptor t) →
  nearly t (with_transfers (m_unconfirmedTransfers c) (delete k (m_availableTransfers c))
    (<[k := s]> (m_spentTransfers c)) (filter (λ job, snd job ≠ k) (m_transfersUnlockJobs c)) c).
Proof.
  intros [[Hu Ha Hs Hap Hap' Hj Ho Hm] Hv] Hk Est Hnew. destruct (Hap k) as [Huk Hsk]; [by exists t|]. split.
  - split; cbn.
    + apply Hu.
    + intros k' t' [_ Ht']%lookup_delete_Some. by apply Ha.
    + intros k' s' Hk'. destruct (decide (k' = k)) as [->|Hne].
      * rewrite lookup_insert_eq in Hk'. injection Hk' as <-. rewrite Est. by apply Ha.
      * rewrite lookup_insert_ne in Hk' by done. by apply Hs.
    + intros k' [t' [Hne Ht']%lookup_delete_Some]. rewrite lookup_insert_ne by done. apply Hap. by exists t'.
    + intros k' [s' Hs']. destruct (decide (k' = k)) as [->|Hne]; [done|]. rewrite lookup_insert_ne in Hs' by done.
      apply Hap'. by exists s'.
    + by apply jobs_delete.
    + intros k1 k2 s1 s2 H1 H2 E. destruct (decide (k1 = k)) as [->|Hne1], (decide (k2 = k)) as [->|Hne2]; [done|..];
        rewrite ?lookup_insert_eq, ?lookup_insert_ne in H1 by done;
        rewrite ?lookup_insert_eq, ?lookup_insert_ne in H2 by done.
      * injection H1 as <-. rewrite Est in E. by destruct (Hnew k2 s2).
      * injection H2 as <-. rewrite Est in E. by destruct (Hnew k1 s1).
      * by apply (Ho k1 k2 s1 s2).
    + intros k' t' [Hne Ht']%lookup_delete_Some Hmt. destruct (Hm _ _ Ht' Hmt) as [H1 H2]. split.
      * intros k2 t2 [_ Hk2]%lookup_delete_Some. by apply H1.
      * intros k2 s2 Hk2. destruct (decide (k2 = k)) as [->|Hne2].
        -- rewrite lookup_insert_eq in Hk2. injection Hk2 as <-. rewrite Est. intros E. by destruct Hne, (H1 k t Hk E).
        -- rewrite lookup_insert_ne in Hk2 by done. by apply (H2 k2).
  - intros ki Hki. unfold visible. cbn. rewrite part_delete_other, spent_part_insert_other; [apply Hv|..].
    + by rewrite Est.
    + intros s0 Hs0. congruence.
    + intros t0 Ht0. congruence.
Qed.

(** An unconfirmed output is added. *)
Lemma add_unconfirmed c k t :
  whole c → m_unconfirmedTransfers c !! k = None → m_availableTransfers c !! k = None → m_spentTransfers c !! k = None →
  transfer_ok true k t →
  nearly t (with_transfers (<[k := t]> (m_unconfirmedTransfers c)) (m_availableTransfers c) (m_spentTransfers c)
    (m_transfersUnlockJobs c) c).
Proof.
  intros [[Hu Ha Hs Hap Hap' Hj Ho Hm] Hv] Huk Hak Hsk Ht. split.
  - split; cbn; try done.
    + intros k' t'. destruct (decide (k' = k)) as [->|Hne]; [rewrite lookup_insert_eq; by intros [= <-]|].
      rewrite lookup_insert_ne by done. apply Hu.
    + intros k' [t' Ht']. destruct (decide (k' = k)) as [->|Hne]; [congruence|]. rewrite lookup_insert_ne by done.
      apply Hap. by exists t'.
    + intros k' [s Hs']. destruct (decide (k' = k)) as [->|Hne]; [congruence|]. rewrite lookup_insert_ne by done.
      apply Hap'. by exists s.
  - intros ki Hki. unfold visible. cbn. rewrite part_insert_other; [apply Hv|done|]. intros t0 Ht0. congruence.
Qed.

(** ** Deleting the outputs of a transaction *)

(** Elements that differ in visibility at most. *)
Definition same (o o' : option Transfer) : Prop := with_visible false <$> o = with_visible false <$> o'.
Definition spent_same (o o' : option SpentTransactionOutput) : Prop :=
  spent_with_visible false <$> o = spent_with_visible false <$> o'.

#[export] Instance same_equivalence : Equivalence same.
Proof. unfold same. split; [done|by intros ? ?|intros ? ? ? -> ->; done]. Qed.
#[export] Instance spent_same_equivalence : Equivalence spent_same.
Proof. unfold spent_same. split; [done|by intros ? ?|intros ? ? ? -> ->; done]. Qed.

Lemma same_hide m m' : hide m = hide m' ↔ ∀ k, same (m !! k) (m' !! k).
Proof.
  unfold same, hide. split.
  - intros E k. by rewrite <- !lookup_fmap, E.
  - intros E. apply map_eq. intros k. by rewrite !lookup_fmap.
Qed.

Lemma spent_same_hide m m' : spent_hide m = spent_hide m' ↔ ∀ k, spent_same (m !! k) (m' !! k).
Proof.
  unfold spent_same, spent_hide. split.
  - intros E k. by rewrite <- !lookup_fmap, E.
  - intros E. apply map_eq. intros k. by rewrite !lookup_fmap.
Qed.

Lemma alike_same c c' k : alike c c' →
  same (m_unconfirmedTransfers c !! k) (m_unconfirmedTransfers c' !! k) ∧
  same (m_availableTransfers c !! k) (m_availableTransfers c' !! k) ∧
  spent_same (m_spentTransfers c !! k) (m_spentTransfers c' !! k).
Proof. intros [Eu Ea Es _ _ _]. split_and!; [by apply same_hide..|by apply spent_same_hide]. Qed.

Lemma same_Some o t : same o (Some t) → ∃ v, o = Some (with_visible v t).
Proof.
  unfold same. destruct o as [t'|]; [|done]. cbn. intros E. apply (inj Some) in E. symmetry in E.
  apply visible_eta in E. exists (ex_visible t'). by rewrite <- E.
Qed.

Lemma same_None o : same o None → o = None.
Proof. by destruct o. Qed.

Lemma spent_same_Some o s : spent_same o (Some s) → ∃ v, o = Some (spent_with_visible v s).
Proof.
  intros E. assert (spent_hide {[ ([], 0) := s ]} = spent_hide (match o with Some s' => {[ ([], 0) := s' ]} | None => ∅ end)) as Eh.
  { apply spent_same_hide. intros k. destruct o as [s'|]; [|done]. destruct (decide (k = ([], 0))) as [->|Hne].
    - rewrite !lookup_singleton_eq. by symmetry.
    - by rewrite !lookup_singleton_ne. }
  destruct (spent_hide_lookup _ _ ([], 0) s Eh) as [v Hv]; [apply lookup_singleton_eq|]. exists v.
  destruct o as [s'|]; [by rewrite lookup_singleton_eq in Hv|done].
Qed.

(** One step of the loop that takes back what a transaction spent. *)
Lemma unspend_step c k s :
  whole c → m_spentTransfers c !! k = Some s →
  ∃ c', (_ ← assert_ (negb (ex_blockHeight (st_output s) =? UNCONFIRMED));
         _ ← assert_ (negb (oi_globalOutputIndex (st_output s) =? UNCONFIRMED_TRANSACTION_GLOBAL_OUTPUT_INDEX));
         c ← addUnlockJob age (st_output s) c;
         c ← insert_available (st_output s) c;
         update_for arrange (st_output s) (erase_spent k c)) = Ret c' ∧ whole c' ∧
    alike (with_transfers (m_unconfirmedTransfers c) (<[k := st_output s]> (m_availableTransfers c))
      (delete k (m_spentTransfers c)) (insert_by fst (makeTransferUnlockJob (st_output s) (u32 age)) (m_transfersUnlockJobs c)) c) c'.
Proof.
  intros Hw Hk. pose proof Hw as [[Hu Ha Hs Hap Hap' Hj Ho Hm] Hv]. destruct (Hs _ _ Hk) as [Hkey [Hh Hg]].
  assert (m_unconfirmedTransfers c !! k = None) as Huk by (apply Hap'; by exists s).
  assert (m_availableTransfers c !! k = None) as Hak.
  { destruct (m_availableTransfers c !! k) eqn:E; [|done]. destruct (Hap k); [by eexists|congruence]. }
  rewrite (proj2 (Z.eqb_neq _ _) Hh), (proj2 (Z.eqb_neq _ _) Hg). cbn [negb assert_ mbind outcome_bind].
  unfold addUnlockJob. rewrite job_key, Hkey. rewrite bool_decide_eq_false_2.
  2: { intros (job & -> & Hjob)%list_elem_of_fmap. apply (jobs_exact _ _ _ Hj) in Hjob as (t & Ht & _). congruence. }
  cbn [negb assert_ mbind outcome_bind mret outcome_ret]. unfold insert_available. rewrite Hkey.
  cbn [m_availableTransfers with_transfers]. rewrite bool_decide_eq_true_2 by done.
  cbn [assert_ mbind outcome_bind mret outcome_ret].
  destruct (update_for_spec (st_output s) (erase_spent k (with_transfers (m_unconfirmedTransfers c)
    (<[k := st_output s]> (m_availableTransfers c)) (m_spentTransfers c)
    (insert_by fst (makeTransferUnlockJob (st_output s) (u32 age)) (m_transfersUnlockJobs c)) c))) as (c' & E & Hal & Hwc).
  { replace (erase_spent _ _) with (with_transfers (delete k (m_unconfirmedTransfers c)) (<[k := st_output s]> (m_availableTransfers c))
      (delete k (m_spentTransfers c)) (insert_by fst (makeTransferUnlockJob (st_output s) (u32 age)) (m_transfersUnlockJobs c)) c)
      by (by rewrite delete_id).
    apply place_available; [done..| | |].
    - intros t0 Ht0. congruence.
    - intros s0 Hs0. rewrite Hk in Hs0. by injection Hs0 as <-.
    - intros Hmt. split.
      + intros k' t' Ht' E. assert (is_multisignature t') as Hmt'.
        { unfold is_multisignature, getSpentOutputDescriptor in *. destruct (oi_target t'), (oi_target (st_output s)); done. }
        by destruct (proj2 (Hm _ _ Ht' Hmt') k s Hk).
      + intros k' s' Hs' Hne E. by apply Hne, (Ho k' k s' s). }
  exists c'. split; [exact E|]. split; [done|exact Hal].
Qed.

(** What is left of a container: the transactions and the height are those of [c]. *)
Record result (c c' : TransfersContainer) (u a : TransactionOutputKey → option Transfer)
    (sp : TransactionOutputKey → option SpentTransactionOutput) : Prop := {
  result_whole : whole c';
  result_unconfirmed k : same (m_unconfirmedTransfers c' !! k) (u k);
  result_available k : same (m_availableTransfers c' !! k) (a k);
  result_spent k : spent_same (m_spentTransfers c' !! k) (sp k);
  result_transactions : m_transactions c' = m_transactions c;
  result_height : m_currentHeight c' = m_currentHeight c
}.

Lemma same_fmap (o o' : option SpentTransactionOutput) : spent_same o o' → same (st_output <$> o) (st_output <$> o').
Proof.
  intros E. destruct o' as [s'|]; [|by destruct o]. apply spent_same_Some in E as [v ->]. done.
Qed.

Lemma unspend_loop_spec ks : ∀ c,
  NoDup ks → whole c → (∀ k, k ∈ ks → is_Some (m_spentTransfers c !! k)) →
  ∃ c', unspend_loop arrange age ks c = Ret c' ∧
    result c c' (λ k, m_unconfirmedTransfers c !! k)
      (λ k, if decide (k ∈ ks) then st_output <$> m_spentTransfers c !! k else m_availableTransfers c !! k)
      (λ k, if decide (k ∈ ks) then None else m_spentTransfers c !! k).
Proof.
  induction ks as [|k ks IH]; intros c Hnd Hw Hks; cbn [unspend_loop].
  { exists c. split; [done|]. by split. }
  apply list.NoDup_cons in Hnd as [Hk Hnd]. destruct (Hks k ltac:(by left)) as [s Hs].
  unfold deref at 1. rewrite Hs. cbn [mbind outcome_bind mret outcome_ret]. cbv zeta.
  destruct (unspend_step c k s Hw Hs) as (c1 & E1 & Hw1 & Hal). apply outcome_bind_ret in E1 as (u1 & F1 & E1).
  apply outcome_bind_ret in E1 as (u2 & F2 & E1). apply outcome_bind_ret in E1 as (c2 & F3 & E1).
  apply outcome_bind_ret in E1 as (c3 & F4 & E1). destruct u1, u2. rewrite F1. cbn [mbind outcome_bind]. rewrite F2.
  cbn [mbind outcome_bind]. rewrite F3. cbn [mbind outcome_bind]. rewrite F4. cbn [mbind outcome_bind]. rewrite E1.
  cbn [mbind outcome_bind]. clear F1 F2 F3 F4 E1 c2 c3.
  assert (∀ k', spent_same (m_spentTransfers c1 !! k') (delete k (m_spentTransfers c) !! k')) as Hsp
    by (intros k'; symmetry; apply (alike_same _ _ k' Hal)).
  assert (∀ k', same (m_availableTransfers c1 !! k') (<[k := st_output s]> (m_availableTransfers c) !! k')) as Hav
    by (intros k'; symmetry; apply (alike_same _ _ k' Hal)).
  assert (∀ k', same (m_unconfirmedTransfers c1 !! k') (m_unconfirmedTransfers c !! k')) as Hun
    by (intros k'; symmetry; apply (alike_same _ _ k' Hal)).
  destruct (IH c1 Hnd Hw1) as (c' & E & [Rw Ru Ra Rs Rt Rh]).
  { intros k' Hk'. destruct (Hks k' ltac:(by right)) as [s' Hs']. specialize (Hsp k').
    rewrite lookup_delete_ne, Hs' in Hsp by (intros ->; done). apply spent_same_Some in Hsp as [v ->]. by eexists. }
  exists c'. split; [done|]. split; [done|..].
  - intros k'. by rewrite (Ru k').
  - intros k'. rewrite (Ra k'). destruct (decide (k' ∈ ks)) as [Hin|Hnin].
    + rewrite decide_True by (by right). pose proof (same_fmap _ _ (Hsp k')) as Hf.
      by rewrite lookup_delete_ne in Hf by (intros ->; done).
    + specialize (Hav k'). destruct (decide (k' = k)) as [->|Hne].
      * rewrite lookup_insert_eq in Hav. by rewrite decide_True, Hs by (by left).
      * rewrite lookup_insert_ne in Hav by done. rewrite decide_False; [done|]. by intros [|]%elem_of_cons.
  - intros k'. rewrite (Rs k'). destruct (decide (k' ∈ ks)) as [Hin|Hnin].
    + by rewrite decide_True by (by right).
    + specialize (Hsp k'). destruct (decide (k' = k)) as [->|Hne].
      * rewrite lookup_delete_eq in Hsp. by rewrite decide_True by (by left).
      * rewrite lookup_delete_ne in Hsp by done. rewrite decide_False; [done|]. by intros [|]%elem_of_cons.
  - rewrite Rt. symmetry. apply Hal.
  - rewrite Rh. symmetry. apply Hal.
Qed.

(** Both loops that erase outputs: of the unconfirmed ones or of the available ones. *)
Definition chosen (b : bool) (c : TransfersContainer) : transfers :=
  if b then m_unconfirmedTransfers c else m_availableTransfers c.
Definition erase_step (b : bool) k t c : outcome TransfersContainer :=
  update_for arrange (ex_in t) (if b then erase_unconfirmed k c else erase_available k (deleteUnlockJob t c)).
Fixpoint erase_loop (b : bool) (ks : list TransactionOutputKey) c : outcome TransfersContainer :=
  match ks with
  | [] => mret c
  | k :: ks' => t ← deref (chosen b c) k; c ← erase_step b k t c; erase_loop b ks' c
  end.

Lemma erase_loop_unconfirmed ks : ∀ c, erase_unconfirmed_loop arrange ks c = erase_loop true ks c.
Proof.
  induction ks as [|k ks IH]; intros c; [done|]. cbn [erase_unconfirmed_loop erase_loop chosen]. unfold erase_step.
  destruct (deref _ _); [|done..]. cbn. destruct (update_for _ _ _); [|done..]. cbn. apply IH.
Qed.
Lemma erase_loop_available ks : ∀ c, erase_available_loop arrange ks c = erase_loop false ks c.
Proof.
  induction ks as [|k ks IH]; intros c; [done|]. cbn [erase_available_loop erase_loop chosen]. unfold erase_step.
  destruct (deref _ _); [|done..]. cbn. destruct (update_for _ _ _); [|done..]. cbn. apply IH.
Qed.

Lemma filter_all {A} (P : A → Prop) `{!∀ x, Decision (P x)} (l : list A) : (∀ x, x ∈ l → P x) → filter P l = l.
Proof.
  induction l as [|x l IH]; intros Hl; [done|]. rewrite filter_cons_True by (apply Hl; by left).
  f_equal. apply IH. intros y Hy. apply Hl. by right.
Qed.

Lemma erase_step_spec b c k t :
  whole c → chosen b c !! k = Some t →
  ∃ c', erase_step b k t c = Ret c' ∧ whole c' ∧
    (∀ k', same (m_unconfirmedTransfers c' !! k') (if b then delete k (m_unconfirmedTransfers c) !! k' else m_unconfirmedTransfers c !! k')) ∧
    (∀ k', same (m_availableTransfers c' !! k') (if b then m_availableTransfers c !! k' else delete k (m_availableTransfers c) !! k')) ∧
    (∀ k', spent_same (m_spentTransfers c' !! k') (m_spentTransfers c !! k')) ∧
    m_transactions c' = m_transactions c ∧ m_currentHeight c' = m_currentHeight c.
Proof.
  intros Hw Hk. unfold erase_step. pose proof Hw as [[Hu Ha Hs Hap Hap' Hj Ho Hm] Hv].
  destruct (update_for_spec (ex_in t) (if b then erase_unconfirmed k c else erase_available k (deleteUnlockJob t c)))
    as (c' & E & Hal & Hwc).
  { assert (m_unconfirmedTransfers c !! k = Some t ∨ m_availableTransfers c !! k = Some t) as Hor by (destruct b; auto).
    pose proof (remove_output c k t Hw Hor) as Hr. destruct b; cbn in Hk.
    - assert (m_availableTransfers c !! k = None) as Hak.
      { destruct (m_availableTransfers c !! k) eqn:E; [|done]. destruct (Hap k); [by eexists|congruence]. }
      rewrite (delete_id (m_availableTransfers c)), filter_all in Hr; [exact Hr| |done]. intros job Hjob Ek.
      apply (jobs_exact _ _ _ Hj) in Hjob as (t' & Ht' & _). congruence.
    - destruct (Hap k) as [Huk _]; [by exists t|]. rewrite (delete_id (m_unconfirmedTransfers c)) in Hr by done.
      unfold erase_available, deleteUnlockJob. cbn. by rewrite (proj1 (Ha k t Hk)). }
  exists c'. split; [done|]. split; [done|].
  split_and!; try (intros k'; symmetry; destruct (alike_same _ _ k' Hal) as (H1 & H2 & H3); by destruct b);
    symmetry; destruct Hal as [_ _ _ _ Ht Hh]; by destruct b.
Qed.

Lemma erase_loop_spec b ks : ∀ c,
  NoDup ks → whole c → (∀ k, k ∈ ks → is_Some (chosen b c !! k)) →
  ∃ c', erase_loop b ks c = Ret c' ∧
    result c c' (λ k, if decide (k ∈ (if b then ks else [])) then None else m_unconfirmedTransfers c !! k)
      (λ k, if decide (k ∈ (if b then [] else ks)) then None else m_availableTransfers c !! k)
      (λ k, m_spentTransfers c !! k).
Proof.
  induction ks as [|k ks IH]; intros c Hnd Hw Hks; cbn [erase_loop].
  { exists c. split; [done|]. split; try done; intros k; by destruct b. }
  apply list.NoDup_cons in Hnd as [Hk Hnd]. destruct (Hks k ltac:(by left)) as [t Ht].
  unfold deref. rewrite Ht. cbn [mbind outcome_bind mret outcome_ret].
  destruct (erase_step_spec b c k t Hw Ht) as (c1 & E1 & Hw1 & Hu1 & Ha1 & Hs1 & Ht1 & Hh1). rewrite E1.
  cbn [mbind outcome_bind]. destruct (IH c1 Hnd Hw1) as (c' & E & [Rw Ru Ra Rs Rt Rh]).
  { intros k' Hk'. destruct (Hks k' ltac:(by right)) as [t' Ht']. assert (k' ≠ k) as Hne by (intros ->; done).
    specialize (Hu1 k'). specialize (Ha1 k'). destruct b; cbn in Ht' |- *.
    - rewrite lookup_delete_ne, Ht' in Hu1 by done. apply same_Some in Hu1 as [v ->]. by eexists.
    - rewrite lookup_delete_ne, Ht' in Ha1 by done. apply same_Some in Ha1 as [v ->]. by eexists. }
  assert (∀ (m m1 : transfers) k', same (m1 !! k') (delete k m !! k') →
    same (if decide (k' ∈ ks) then None else m1 !! k') (if decide (k' ∈ k :: ks) then None else m !! k')) as Hdel.
  { intros m m1 k' Hm1. destruct (decide (k' ∈ ks)) as [Hin|Hnin]; [by rewrite decide_True by (by right)|].
    destruct (decide (k' = k)) as [->|Hne].
    - rewrite lookup_delete_eq in Hm1. by rewrite decide_True by (by left).
    - rewrite lookup_delete_ne in Hm1 by done. rewrite decide_False; [done|]. by intros [|]%elem_of_cons. }
  exists c'. split; [done|]. split; [done|..].
  - intros k'. rewrite (Ru k'). destruct b; [by apply Hdel|]. apply Hu1.
  - intros k'. rewrite (Ra k'). destruct b; [apply Ha1|by apply Hdel].
  - intros k'. by rewrite (Rs k').
  - by rewrite Rt.
  - by rewrite Rh.
Qed.

(** An element, unless a test holds for it. *)
Definition unless {A} (P : A → bool) (o : option A) : option A :=
  match o with Some x => if P x then None else Some x | None => None end.

Lemma unless_same (h : Hash) k (m : transfers) (o : option Transfer) :
  same (m !! k) o →
  same (if decide (k ∈ keys_where arrange (λ t : Transfer, in_transaction h t) m) then None else m !! k)
    (unless (λ t : Transfer, in_transaction h t) o).
Proof.
  intros E. destruct o as [t|].
  - apply same_Some in E as [v Ev]. rewrite Ev. cbn [unless]. destruct (in_transaction h t) eqn:Ht.
    + rewrite decide_True; [done|]. apply elem_of_keys_where. by exists (with_visible v t).
    + rewrite decide_False; [done|]. intros (t' & Ht' & Hp)%elem_of_keys_where. rewrite Ev in Ht'.
      injection Ht' as <-. cbn in Hp. unfold in_transaction in *. cbn in Hp. congruence.
  - apply same_None in E. rewrite E. by case_decide.
Qed.

(** The outputs after the deletion: what the transaction spent is available again, its
    own outputs are gone. *)
Definition kept_unconfirmed h c k : option Transfer :=
  unless (λ t : Transfer, in_transaction h t) (m_unconfirmedTransfers c !! k).
Definition kept_spent h c k : option SpentTransactionOutput := unless (spent_by h) (m_spentTransfers c !! k).
Definition returned h c k : option Transfer :=
  match m_spentTransfers c !! k with
  | Some s => if spent_by h s then Some (st_output s) else m_availableTransfers c !! k
  | None => m_availableTransfers c !! k
  end.
Definition kept_available h c k : option Transfer := unless (λ t : Transfer, in_transaction h t) (returned h c k).

Lemma deleteTransactionTransfers_spec h c :
  whole c → ∃ c', deleteTransactionTransfers arrange age h c = Ret c' ∧
    result c c' (kept_unconfirmed h c) (kept_available h c) (kept_spent h c).
Proof.
  intros Hw. unfold deleteTransactionTransfers.
  destruct (unspend_loop_spec (keys_where arrange (spent_by h) (m_spentTransfers c)) c) as (c1 & E1 & [Rw Ru Ra Rs Rt Rh]);
    [apply keys_where_nodup|done|intros k (s & Hs & _)%elem_of_keys_where; by exists s|].
  rewrite E1. cbn [mbind outcome_bind]. rewrite erase_loop_unconfirmed.
  match goal with |- context [erase_loop true ?l c1] => destruct (erase_loop_spec true l c1) as (c2 & E2 & [Rw2 Ru2 Ra2 Rs2 Rt2 Rh2]) end;
    [apply keys_where_nodup|done|intros k (t & Ht & _)%elem_of_keys_where; by exists t|].
  rewrite E2. cbn [mbind outcome_bind]. rewrite erase_loop_available.
  match goal with |- context [erase_loop false ?l c2] => destruct (erase_loop_spec false l c2) as (c3 & E3 & [Rw3 Ru3 Ra3 Rs3 Rt3 Rh3]) end;
    [apply keys_where_nodup|done|intros k (t & Ht & _)%elem_of_keys_where; by exists t|].
  exists c3. split; [done|]. split; [done|..].
  - intros k. rewrite (Ru3 k). rewrite decide_False by (by intros ?%elem_of_nil). rewrite (Ru2 k). by apply unless_same.
  - intros k. rewrite (Ra3 k). apply unless_same. rewrite (Ra2 k). rewrite decide_False by (by intros ?%elem_of_nil).
    rewrite (Ra k). unfold returned. destruct (m_spentTransfers c !! k) as [s|] eqn:Es.
    + destruct (spent_by h s) eqn:Hb.
      * rewrite decide_True; [done|]. apply elem_of_keys_where. by exists s.
      * rewrite decide_False; [done|]. intros (s' & Hs' & Hb')%elem_of_keys_where. congruence.
    + rewrite decide_False; [done|]. intros (s' & Hs' & Hb')%elem_of_keys_where. congruence.
  - intros k. rewrite (Rs3 k), (Rs2 k), (Rs k). unfold kept_spent. destruct (m_spentTransfers c !! k) as [s|] eqn:Es; cbn.
    + destruct (spent_by h s) eqn:Hb.
      * rewrite decide_True; [done|]. apply elem_of_keys_where. by exists s.
      * rewrite decide_False; [done|]. intros (s' & Hs' & Hb')%elem_of_keys_where. congruence.
    + by case_decide.
  - congruence.
  - congruence.
Qed.

(** What is left of a container without some transactions: their outputs are gone, and
    what they spent is available, unless it is one of their outputs. *)
Definition among (hs : list Hash) (h : Hash) : bool := bool_decide (h ∈ hs).
Definition left_unconfirmed hs c k : option Transfer :=
  unless (λ t : Transfer, among hs (oi_transactionHash t)) (m_unconfirmedTransfers c !! k).
Definition left_spent hs c k : option SpentTransactionOutput :=
  unless (λ s, among hs (st_spendingTransactionHash s)) (m_spentTransfers c !! k).
Definition left_returned hs c k : option Transfer :=
  match m_spentTransfers c !! k with
  | Some s => if among hs (st_spendingTransactionHash s) then Some (st_output s) else m_availableTransfers c !! k
  | None => m_availableTransfers c !! k
  end.
Definition left_available hs c k : option Transfer :=
  unless (λ t : Transfer, among hs (oi_transactionHash t)) (left_returned hs c k).

Record left_over (hs : list Hash) (c c' : TransfersContainer) : Prop := {
  left_over_unconfirmed k : same (m_unconfirmedTransfers c' !! k) (left_unconfirmed hs c k);
  left_over_available k : same (m_availableTransfers c' !! k) (left_available hs c k);
  left_over_spent k : spent_same (m_spentTransfers c' !! k) (left_spent hs c k)
}.

Lemma among_one h x : among [h] x = bool_decide (x = h).
Proof. unfold among. apply bool_decide_ext. apply list_elem_of_singleton. Qed.

Lemma among_cons h hs x : among (h :: hs) x = among [h] x || among hs x.
Proof. rewrite among_one. unfold among. rewrite <- bool_decide_or. apply bool_decide_ext. apply elem_of_cons. Qed.

Lemma result_left h c c' :
  result c c' (kept_unconfirmed h c) (kept_available h c) (kept_spent h c) → left_over [h] c c'.
Proof.
  intros [_ Ru Ra Rs _ _]. split; intros k.
  - rewrite (Ru k). unfold kept_unconfirmed, left_unconfirmed, unless. destruct (m_unconfirmedTransfers c !! k); [|done].
    by rewrite among_one.
  - rewrite (Ra k). unfold kept_available, left_available, returned, left_returned, spent_by.
    destruct (m_spentTransfers c !! k) as [s|]; [rewrite among_one|]; unfold unless.
    + destruct (if bool_decide (st_spendingTransactionHash s = h) then _ else _); [|done]. by rewrite among_one.
    + destruct (m_availableTransfers c !! k); [|done]. by rewrite among_one.
  - rewrite (Rs k). unfold kept_spent, left_spent, unless, spent_by. destruct (m_spentTransfers c !! k); [|done].
    by rewrite among_one.
Qed.

Lemma unless_out hs o o' :
  same o o' → same (unless (λ t : Transfer, among hs (oi_transactionHash t)) o) (unless (λ t : Transfer, among hs (oi_transactionHash t)) o').
Proof.
  intros E. destruct o' as [t|]; [|by apply same_None in E as ->]. apply same_Some in E as [v ->]. cbn. by destruct (among hs _).
Qed.
Lemma unless_spent hs o o' :
  spent_same o o' → spent_same (unless (λ s, among hs (st_spendingTransactionHash s)) o) (unless (λ s, among hs (st_spendingTransactionHash s)) o').
Proof.
  intros E. destruct o' as [s|]; [|by destruct o]. apply spent_same_Some in E as [v ->]. cbn. by destruct (among hs _).
Qed.

(** Two containers with the same elements leave the same. *)
Lemma left_returned_same hs c c' k :
  same (m_availableTransfers c !! k) (m_availableTransfers c' !! k) → spent_same (m_spentTransfers c !! k) (m_spentTransfers c' !! k) →
  same (left_returned hs c k) (left_returned hs c' k).
Proof.
  intros Ha Hs. unfold left_returned. destruct (m_spentTransfers c' !! k) as [s|]; [|by destruct (m_spentTransfers c !! k)].
  apply spent_same_Some in Hs as [v ->]. cbn. by destruct (among hs _).
Qed.

Lemma left_over_alike hs c c' c0 : alike c c' → left_over hs c c0 → left_over hs c' c0.
Proof.
  intros Hal [Lu La Ls]. split; intros k; destruct (alike_same _ _ k Hal) as (Hu & Ha & Hs).
  - rewrite (Lu k). by apply unless_out.
  - rewrite (La k). by apply unless_out, left_returned_same.
  - rewrite (Ls k). by apply unless_spent.
Qed.

(** Deleting one transaction and then others deletes them all, if what the first one
    received is spent by itself at most. *)
Lemma left_over_cons h hs c c1 c2 :
  shape age c → (∀ k s, m_spentTransfers c !! k = Some s → oi_transactionHash (st_output s) = h → st_spendingTransactionHash s = h) →
  left_over [h] c c1 → left_over hs c1 c2 → left_over (h :: hs) c c2.
Proof.
  intros Hsh Hlast [Lu La Ls] [Lu2 La2 Ls2]. split; intros k.
  - rewrite (Lu2 k). unfold left_unconfirmed. rewrite (unless_out hs _ _ (Lu k)). unfold left_unconfirmed.
    destruct (m_unconfirmedTransfers c !! k) as [t|]; [|done]. cbn. rewrite (among_cons h hs). by destruct (among [h] _).
  - rewrite (La2 k). unfold left_available at 1. specialize (La k). specialize (Ls k). unfold left_available, left_spent in La, Ls.
    assert (∀ o, unless (λ t : Transfer, among hs (oi_transactionHash t)) (unless (λ t : Transfer, among [h] (oi_transactionHash t)) o) =
                 unless (λ t : Transfer, among (h :: hs) (oi_transactionHash t)) o) as Hun.
    { intros [t|]; [|done]. cbn. rewrite (among_cons h hs). by destruct (among [h] _). }
    unfold left_available, left_returned at 2. unfold left_returned in La. destruct (m_spentTransfers c !! k) as [s|] eqn:Es; cbn in Ls.
    + rewrite (among_cons h hs). destruct (among [h] (st_spendingTransactionHash s)) eqn:Eh; cbn [orb].
      * unfold left_returned. destruct (m_spentTransfers c1 !! k); [done|]. rewrite <- Hun. by apply unless_out.
      * apply spent_same_Some in Ls as [v Ev]. unfold left_returned. rewrite Ev. cbn [spent_with_visible st_spendingTransactionHash st_output].
        assert (m_availableTransfers c !! k = None) as Ea.
        { destruct (m_availableTransfers c !! k) eqn:Ea; [|done]. destruct (shape_apart _ _ Hsh k); [by eexists|congruence]. }
        rewrite Ea in La |- *. rewrite <- Hun. destruct (among hs (st_spendingTransactionHash s)); [|by apply unless_out].
        apply unless_out. cbn. rewrite among_one in Eh |- *. rewrite bool_decide_eq_false_2; [done|].
        intros E. apply bool_decide_eq_false in Eh. apply Eh. by eapply Hlast.
    + unfold left_returned. destruct (m_spentTransfers c1 !! k); [done|]. rewrite <- Hun. by apply unless_out.
  - rewrite (Ls2 k). unfold left_spent. rewrite (unless_spent hs _ _ (Ls k)). unfold left_spent.
    destruct (m_spentTransfers c !! k) as [s|]; [|done]. cbn. rewrite (among_cons h hs). by destruct (among [h] _).
Qed.

Lemma left_over_nil c : left_over [] c c.
Proof.
  assert (∀ x, among [] x = false) as Hn by (intros x; by apply bool_decide_eq_false, not_elem_of_nil).
  split; intros k; unfold left_unconfirmed, left_available, left_spent, left_returned, unless.
  - destruct (m_unconfirmedTransfers c !! k); [|done]. by rewrite Hn.
  - destruct (m_spentTransfers c !! k); rewrite ?Hn; (destruct (m_availableTransfers c !! k); [|done]); by rewrite Hn.
  - destruct (m_spentTransfers c !! k); [|done]. by rewrite Hn.
Qed.

(** The outputs that a transaction adds and the ones that it spends do not change what is
    left without it. *)
Lemma left_over_add_unconfirmed h c c0 k t jobs :
  oi_transactionHash t = h → m_unconfirmedTransfers c !! k = None → left_over [h] c c0 →
  left_over [h] (with_transfers (<[k := t]> (m_unconfirmedTransfers c)) (m_availableTransfers c) (m_spentTransfers c) jobs c) c0.
Proof.
  intros Eh Hk [Lu La Ls]. split; [|exact La|exact Ls]. intros k'. rewrite (Lu k'). unfold left_unconfirmed. cbn.
  destruct (decide (k' = k)) as [->|Hne]; [|by rewrite lookup_insert_ne].
  rewrite lookup_insert_eq, Hk. cbn. by rewrite among_one, bool_decide_eq_true_2.
Qed.

Lemma left_over_add_available h c c0 k t jobs :
  oi_transactionHash t = h → m_availableTransfers c !! k = None → left_over [h] c c0 →
  left_over [h] (with_transfers (m_unconfirmedTransfers c) (<[k := t]> (m_availableTransfers c)) (m_spentTransfers c) jobs c) c0.
Proof.
  intros Eh Hk [Lu La Ls]. split; [exact Lu| |exact Ls]. intros k'. rewrite (La k'). unfold left_available, left_returned. cbn.
  destruct (decide (k' = k)) as [->|Hne]; [|by rewrite lookup_insert_ne].
  rewrite lookup_insert_eq, Hk. assert (among [h] (oi_transactionHash t) = true) as Ht by (by rewrite among_one, bool_decide_eq_true_2).
  destruct (m_spentTransfers c !! k) as [s|]; [destruct (among [h] (st_spendingTransactionHash s)); [done|]|]; cbn; by rewrite Ht.
Qed.

Lemma left_over_add_spent h c c0 k s jobs :
  m_availableTransfers c !! k = Some (st_output s) → m_spentTransfers c !! k = None → st_spendingTransactionHash s = h →
  left_over [h] c c0 →
  left_over [h] (with_transfers (m_unconfirmedTransfers c) (delete k (m_availableTransfers c)) (<[k := s]> (m_spentTransfers c)) jobs c) c0.
Proof.
  intros Ha Hs Eh [Lu La Ls].
  assert (among [h] (st_spendingTransactionHash s) = true) as Ht by (by rewrite among_one, bool_decide_eq_true_2).
  split; [exact Lu| |]; intros k'.
  - rewrite (La k'). unfold left_available, left_returned. cbn. destruct (decide (k' = k)) as [->|Hne].
    + by rewrite lookup_insert_eq, Ht, Hs, Ha.
    + by rewrite lookup_insert_ne, lookup_delete_ne.
  - rewrite (Ls k'). unfold left_spent. cbn. destruct (decide (k' = k)) as [->|Hne]; [|by rewrite lookup_insert_ne].
    rewrite lookup_insert_eq, Hs. cbn. by rewrite Ht.
Qed.

(** ** Transactions *)

Abbreviation Tx := (list TransactionInformation).

Record transactions_ok (txs : Tx) : Prop := {
  txs_nodup : NoDup (ti_transactionHash <$> txs);
  txs_ordered : ordered ti_blockHeight txs;
  txs_height i : i ∈ txs → 0 <= ti_blockHeight i <= UNCONFIRMED
}.

(** The transaction of an output is stored, with the height of the output. *)
Definition belongs (txs : Tx) (t : Transfer) : Prop :=
  ∃ i, i ∈ txs ∧ ti_transactionHash i = oi_transactionHash t ∧ ti_blockHeight i = ex_blockHeight t.

(** So is the one that spends it, behind the other in the order of heights. *)
Definition spending (txs : Tx) (s : SpentTransactionOutput) : Prop :=
  (∃ i, i ∈ txs ∧ ti_transactionHash i = st_spendingTransactionHash s ∧ ti_blockHeight i = tb_height (st_spendingBlock s)) ∧
  (oi_transactionHash (st_output s) = st_spendingTransactionHash s ∨
   [oi_transactionHash (st_output s); st_spendingTransactionHash s] `sublist_of` (ti_transactionHash <$> txs)).

Record linked (txs : Tx) (c : TransfersContainer) : Prop := {
  linked_unconfirmed k t : m_unconfirmedTransfers c !! k = Some t → belongs txs t;
  linked_available k t : m_availableTransfers c !! k = Some t → belongs txs t;
  linked_spent k s : m_spentTransfers c !! k = Some s → belongs txs (st_output s) ∧ spending txs s
}.

Definition container_ok (c : TransfersContainer) : Prop :=
  whole c ∧ transactions_ok (m_transactions c) ∧ linked (m_transactions c) c.

Lemma linked_result txs c c' u a sp :
  result c c' u a sp → (∀ k t, u k = Some t → belongs txs t) → (∀ k t, a k = Some t → belongs txs t) →
  (∀ k s, sp k = Some s → belongs txs (st_output s) ∧ spending txs s) → linked txs c'.
Proof.
  intros [_ Ru Ra Rs _ _] Hu Ha Hs. split.
  - intros k t Ht. specialize (Ru k). rewrite Ht in Ru. symmetry in Ru. apply same_Some in Ru as [v Ev].
    apply (Hu k (with_visible v t) Ev).
  - intros k t Ht. specialize (Ra k). rewrite Ht in Ra. symmetry in Ra. apply same_Some in Ra as [v Ev].
    apply (Ha k (with_visible v t) Ev).
  - intros k s Ht. specialize (Rs k). rewrite Ht in Rs. symmetry in Rs. apply spent_same_Some in Rs as [v Ev].
    apply (Hs k (spent_with_visible v s) Ev).
Qed.

Lemma alike_result c c' : whole c' → alike c c' →
  result c c' (λ k, m_unconfirmedTransfers c !! k) (λ k, m_availableTransfers c !! k) (λ k, m_spentTransfers c !! k).
Proof.
  intros Hw Hal. split; [done|..]; try (intros k; symmetry; apply (alike_same _ _ k Hal)); symmetry; apply Hal.
Qed.

Lemma linked_alike txs c c' : whole c' → alike c c' → linked txs c → linked txs c'.
Proof. intros Hw Hal [Hu Ha Hs]. by eapply linked_result; [apply alike_result|..]. Qed.

Lemma same_transaction txs i j :
  transactions_ok txs → i ∈ txs → j ∈ txs → ti_transactionHash i = ti_transactionHash j → i = j.
Proof.
  intros Hok (a & Ha)%list_elem_of_lookup (b & Hb)%list_elem_of_lookup E.
  assert (a = b) as ->; [|congruence]. eapply (NoDup_lookup _ _ _ _ (txs_nodup _ Hok)); rewrite list_lookup_fmap, ?Ha, ?Hb; cbn; [done|by rewrite E].
Qed.

(** The transactions after one was erased. *)
Lemma erased_ok h txs : transactions_ok txs → transactions_ok (filter (λ i, ti_transactionHash i ≠ h) txs).
Proof.
  intros [Hn Ho Hh]. split.
  - eapply sublist_NoDup; [exact Hn|]. apply fmap_sublist, sublist_filter.
  - by apply filter_ordered.
  - intros i [_ Hi]%list_elem_of_filter. by apply Hh.
Qed.

Lemma filter_fmap_hash h (txs : Tx) :
  ti_transactionHash <$> filter (λ i, ti_transactionHash i ≠ h) txs = filter (λ x, x ≠ h) (ti_transactionHash <$> txs).
Proof.
  induction txs as [|t txs IH]; [done|]. rewrite fmap_cons, !filter_cons.
  destruct (decide (ti_transactionHash t ≠ h)); [|done]. cbn. by rewrite IH.
Qed.

Lemma sublist_filter_mono {A} (P : A → Prop) `{!∀ x, Decision (P x)} (l l' : list A) :
  l `sublist_of` l' → filter P l `sublist_of` filter P l'.
Proof.
  induction 1 as [|x l l' _ IH|x l l' _ IH]; [done| |]; rewrite ?filter_cons.
  - by destruct (decide (P x)); [constructor|].
  - by destruct (decide (P x)); [apply sublist_cons|].
Qed.

Lemma belongs_erased h txs t : belongs txs t → oi_transactionHash t ≠ h → belongs (filter (λ i, ti_transactionHash i ≠ h) txs) t.
Proof. intros (i & Hi & E & Eh) Hne. exists i. split_and!; [|done..]. apply list_elem_of_filter. by rewrite E. Qed.

Lemma spending_erased h txs s :
  spending txs s → oi_transactionHash (st_output s) ≠ h → st_spendingTransactionHash s ≠ h →
  spending (filter (λ i, ti_transactionHash i ≠ h) txs) s.
Proof.
  intros [(i & Hi & E & Eh) Ho] Hne Hne'. split.
  - exists i. split_and!; [|done..]. apply list_elem_of_filter. by rewrite E.
  - destruct Ho as [|Ho]; [by left|right]. rewrite filter_fmap_hash. apply (sublist_filter_mono (λ x, x ≠ h)) in Ho.
    by rewrite !filter_cons_True, filter_nil in Ho.
Qed.

(** Once its outputs are deleted, a transaction that no other stored one depends on can
    be erased. *)
Lemma delete_transaction_ok h c :
  container_ok c →
  (∀ k s, m_spentTransfers c !! k = Some s → oi_transactionHash (st_output s) = h → st_spendingTransactionHash s = h) →
  ∃ c', deleteTransactionTransfers arrange age h c = Ret c' ∧ container_ok (erase_transaction h c') ∧
    result c c' (kept_unconfirmed h c) (kept_available h c) (kept_spent h c).
Proof.
  intros (Hw & Htx & [Hu Ha Hs]) Hlast. destruct (deleteTransactionTransfers_spec h c Hw) as (c' & E & Hr).
  exists c'. split; [done|]. split; [|done]. pose proof (result_transactions _ _ _ _ _ Hr) as Et. split_and!.
  - pose proof (result_whole _ _ _ _ _ Hr) as [[] Hv]. by split.
  - cbn. rewrite Et. by apply erased_ok.
  - cbn [erase_transaction m_transactions with_transactions]. rewrite Et.
    assert (linked (filter (λ i, ti_transactionHash i ≠ h) (m_transactions c)) c') as []; [|by split].
    assert (∀ t, in_transaction h (info_of t) = false → oi_transactionHash t ≠ h) as Hin
      by (intros t Ht; by apply bool_decide_eq_false in Ht).
    assert (∀ s, spent_by h s = false → st_spendingTransactionHash s ≠ h) as Hsb
      by (intros s Hb; by apply bool_decide_eq_false in Hb).
    eapply linked_result; [exact Hr|..].
    + intros k t Ht. unfold kept_unconfirmed in Ht. destruct (m_unconfirmedTransfers c !! k) as [t0|] eqn:Ek; [|done].
      cbn in Ht. destruct (in_transaction h t0) eqn:Hi; [done|]. injection Ht as ->.
      apply belongs_erased; [by eapply Hu|by apply Hin].
    + intros k t Ht. unfold kept_available in Ht. destruct (returned h c k) as [t0|] eqn:Ek; [|done].
      cbn in Ht. destruct (in_transaction h t0) eqn:Hi; [done|]. injection Ht as ->.
      apply belongs_erased; [|by apply Hin]. unfold returned in Ek.
      destruct (m_spentTransfers c !! k) as [s|] eqn:Es; [|by eapply Ha]. destruct (spent_by h s); [|by eapply Ha].
      injection Ek as <-. by eapply Hs.
    + intros k s Hk. unfold kept_spent in Hk. destruct (m_spentTransfers c !! k) as [s0|] eqn:Es; [|done]. cbn in Hk.
      destruct (spent_by h s0) eqn:Hb; [done|]. injection Hk as ->. destruct (Hs _ _ Es) as [H1 H2].
      apply Hsb in Hb. assert (oi_transactionHash (st_output s) ≠ h) as Hne by (intros Eh; apply Hb; by eapply Hlast).
      split; [by apply belongs_erased|by apply spending_erased].
Qed.

Lemma find_transaction_Some h c i : find_transaction h c = Some i → i ∈ m_transactions c ∧ ti_transactionHash i = h.
Proof.
  unfold find_transaction. intros E. assert (i ∈ filter (λ i, ti_transactionHash i = h) (m_transactions c)) as Hin.
  { destruct (filter _ _); [done|]. injection E as ->. by left. }
  by apply list_elem_of_filter in Hin as [? ?].
Qed.

Lemma find_transaction_None h c : find_transaction h c = None → ∀ i, i ∈ m_transactions c → ti_transactionHash i ≠ h.
Proof.
  unfold find_transaction. intros E i Hi Eh.
  assert (i ∈ filter (λ i, ti_transactionHash i = h) (m_transactions c)) as Hin by (by apply list_elem_of_filter).
  destruct (filter _ _); [by apply elem_of_nil in Hin|done].
Qed.

(** No confirmed output belongs to an unconfirmed transaction. *)
Lemma unconfirmed_no_spent c i :
  container_ok c → i ∈ m_transactions c → ti_blockHeight i = UNCONFIRMED →
  ∀ k s, m_spentTransfers c !! k = Some s → oi_transactionHash (st_output s) ≠ ti_transactionHash i.
Proof.
  intros ([Hsh _] & Htx & Hl) Hi Hu k s Hk E. destruct (linked_spent _ _ Hl _ _ Hk) as [(j & Hj & Ej & Ehj) _].
  destruct (shape_spent _ _ Hsh _ _ Hk) as [_ [Hne _]].
  rewrite (same_transaction _ j i Htx Hj Hi) in Ehj by congruence. congruence.
Qed.

Lemma deleteUnconfirmedTransaction_ok h c :
  container_ok c → ∃ r c', deleteUnconfirmedTransaction arrange age h c = Ret (r, c') ∧ container_ok c' ∧
    m_currentHeight c' = m_currentHeight c.
Proof.
  intros Hok. unfold deleteUnconfirmedTransaction. destruct (find_transaction h c) as [i|] eqn:Ef; [|by exists false, c].
  destruct (Z.eqb_spec (ti_blockHeight i) UNCONFIRMED) as [Hu|Hu]; cbn [negb]; [|by exists false, c].
  apply find_transaction_Some in Ef as [Hi <-].
  destruct (delete_transaction_ok (ti_transactionHash i) c Hok) as (c' & E & Hok' & Hr).
  { intros k s Hk Eh. by destruct (unconfirmed_no_spent c i Hok Hi Hu k s Hk). }
  rewrite E. cbn. exists true, (erase_transaction (ti_transactionHash i) c'). split_and!; [done..|].
  apply (result_height _ _ _ _ _ Hr).
Qed.

(** ** Detaching blocks *)

(** The transactions that stay when the blocks from [height] on are removed. *)
Definition stays (height : Z) c (i : TransactionInformation) : Prop :=
  ti_blockHeight i < height ∨
  (ti_blockHeight i = UNCONFIRMED ∧
   ∀ k s, m_spentTransfers c !! k = Some s → st_spendingTransactionHash s = ti_transactionHash i →
     ex_blockHeight (st_output s) < height).

Lemma to_delete_spec height i c :
  height < UNCONFIRMED → ti_blockHeight i <= UNCONFIRMED →
  match to_delete height i c with
  | Some true => ¬ stays height c i
  | Some false => ti_blockHeight i = UNCONFIRMED ∧ stays height c i
  | None => ti_blockHeight i < height
  end.
Proof.
  intros Hh Hi. unfold to_delete, stays. destruct (Z.eqb_spec (ti_blockHeight i) UNCONFIRMED) as [Hu|Hu].
  - destruct (bool_decide _) eqn:Eb; cbn [negb].
    + apply bool_decide_eq_true in Eb. split; [done|]. right. split; [done|]. intros k s Hk Es.
      apply (Eb k s Hk). by apply bool_decide_eq_true.
    + apply bool_decide_eq_false in Eb. intros [|[_ Hall]]; [lia|]. apply Eb. intros k s Hk Es.
      apply bool_decide_eq_true in Es. by eapply Hall.
  - case_bool; [|done]. intros [|[]]; [lia|done].
Qed.

(** The transaction that is looked at has no other that depends on it among those
    that stay behind it. *)
Lemma detach_last height i ts kept c :
  container_ok c → height < UNCONFIRMED → m_transactions c = reverse (i :: ts) ++ kept →
  Forall (λ j, ti_blockHeight j = UNCONFIRMED ∧ stays height c j) kept → ¬ stays height c i →
  ∀ k s, m_spentTransfers c !! k = Some s → oi_transactionHash (st_output s) = ti_transactionHash i →
    st_spendingTransactionHash s = ti_transactionHash i.
Proof.
  intros Hok Hh Etx Hkept Hi k s Hk E. pose proof Hok as (_ & Htx & Hl).
  destruct (linked_spent _ _ Hl _ _ Hk) as [(j & Hj & Ej & Ehj) [_ [Hself|Hsub]]]; [congruence|].
  assert (i ∈ m_transactions c) as Him by (rewrite Etx, reverse_cons; apply elem_of_app; left; apply elem_of_app; right; by left).
  assert (j = i) as -> by (eapply same_transaction; [exact Htx|done..|congruence]). clear Hj Ej.
  assert (ti_blockHeight i ≠ UNCONFIRMED) as Hc.
  { intros Hu. by destruct (unconfirmed_no_spent c i Hok Him Hu k s Hk). }
  assert (∃ j, j ∈ kept ∧ ti_transactionHash j = st_spendingTransactionHash s) as (j & Hj & Ej).
  { rewrite Etx, reverse_cons, fmap_app, fmap_app, <- app_assoc in Hsub. cbn [fmap list_fmap app] in Hsub. rewrite E in Hsub.
    pose proof (txs_nodup _ Htx) as Hnd. rewrite Etx, reverse_cons, fmap_app, fmap_app, <- app_assoc in Hnd.
    cbn [fmap list_fmap app] in Hnd. apply list.NoDup_app in Hnd as (_ & Hnin & _).
    apply sublist_app_r in Hsub as (l1 & l2 & El & Hl1 & Hl2). destruct l1 as [|x l1].
    - cbn in El. subst l2. apply sublist_cons_l in Hl2 as (r1 & r2 & Er & Hr).
      destruct r1 as [|y r1].
      + cbn in Er. injection Er as <-. apply list.singleton_sublist_l in Hr. apply list_elem_of_fmap in Hr as (j & -> & Hj).
        by exists j.
      + cbn in Er. injection Er as <- Er. apply list.singleton_sublist_l in Hr.
        assert (st_spendingTransactionHash s ∈ ti_transactionHash <$> kept) as Hin
          by (rewrite Er; apply elem_of_app; right; by right).
        apply list_elem_of_fmap in Hin as (j & -> & Hj). by exists j.
    - cbn in El. injection El as <- El. exfalso. apply (Hnin (ti_transactionHash i)); [|by left].
      eapply list.elem_of_submseteq; [|apply sublist_submseteq, Hl1]. by left. }
  rewrite List.Forall_forall in Hkept. destruct (Hkept j) as [Huj Hsj]; [by apply list_elem_of_In|].
  exfalso. apply Hi. left. rewrite Ehj. destruct Hsj as [|[_ Hall]]; [lia|]. by apply (Hall k s).
Qed.

Lemma stays_result height c c' h u a i :
  result c c' u a (kept_spent h c) → ti_transactionHash i ≠ h →
  stays height (erase_transaction h c') i ↔ stays height c i.
Proof.
  intros Hr Hne. unfold stays. cbn. pose proof (result_spent _ _ _ _ _ Hr) as Rs. split; (intros [|[Hu Hall]]; [by left|right]).
  - split; [done|]. intros k s Hk Es. specialize (Rs k). unfold kept_spent in Rs. rewrite Hk in Rs. cbn in Rs.
    assert (spent_by h s = false) as Hb by (apply bool_decide_eq_false; congruence). rewrite Hb in Rs.
    apply spent_same_Some in Rs as [v Ev]. apply (Hall k (spent_with_visible v s) Ev Es).
  - split; [done|]. intros k s Hk Es. specialize (Rs k). rewrite Hk in Rs. symmetry in Rs. apply spent_same_Some in Rs as [v Ev].
    unfold kept_spent in Ev. destruct (m_spentTransfers c !! k) as [s0|] eqn:E0; [|done]. cbn in Ev.
    destruct (spent_by h s0); [done|]. injection Ev as ->. apply (Hall k _ E0 Es).
Qed.

Lemma filter_one h (l1 : Tx) i l2 :
  NoDup (ti_transactionHash <$> l1 ++ i :: l2) → h = ti_transactionHash i →
  filter (λ j, ti_transactionHash j ≠ h) (l1 ++ i :: l2) = l1 ++ l2.
Proof.
  intros Hnd ->. rewrite fmap_app, fmap_cons in Hnd. apply list.NoDup_app in Hnd as (_ & Hd & Hnd).
  apply list.NoDup_cons in Hnd as [Hn _]. rewrite filter_app, filter_cons_False by (intros Hx; by apply Hx).
  rewrite !filter_all; [done|..].
  - intros j Hj E. apply Hn. rewrite <- E. by apply list_elem_of_fmap_2.
  - intros j Hj E. apply (Hd (ti_transactionHash j)); [by apply list_elem_of_fmap_2|]. rewrite E. by left.
Qed.

Lemma ordered_before (l1 : Tx) i l2 j : ordered ti_blockHeight (l1 ++ i :: l2) → j ∈ l1 → ti_blockHeight j <= ti_blockHeight i.
Proof.
  intros Ho (a & Ha)%list_elem_of_lookup. apply (Ho a (length l1)).
  - by eapply lookup_lt_Some.
  - by apply lookup_app_l_Some.
  - by rewrite lookup_app_r, Nat.sub_diag by lia.
Qed.

(** What the loop leaves and what it reports. *)
Definition detached (height : Z) c (deleted : list Hash) c' : Prop :=
  container_ok c' ∧ m_currentHeight c' = m_currentHeight c ∧
  (∀ i, i ∈ m_transactions c' ↔ i ∈ m_transactions c ∧ stays height c i) ∧
  (∀ h, h ∈ deleted ↔ ∃ i, i ∈ m_transactions c ∧ ¬ stays height c i ∧ ti_transactionHash i = h) ∧
  left_over deleted c c'.

Lemma detached_none height c : container_ok c → (∀ i, i ∈ m_transactions c → stays height c i) → detached height c [] c.
Proof.
  intros Hok Hall. split_and!; [done..| | |].
  - intros i. split; [|by intros []]. intros Hi. split; [done|by apply Hall].
  - intros h. split; [by intros ?%elem_of_nil|]. intros (i & Hi & Hn & _). destruct Hn. by apply Hall.
  - apply left_over_nil.
Qed.

Lemma detached_cons height c i c1 deleted c' :
  container_ok c → i ∈ m_transactions c → ¬ stays height c i →
  (∀ k s, m_spentTransfers c !! k = Some s → oi_transactionHash (st_output s) = ti_transactionHash i →
    st_spendingTransactionHash s = ti_transactionHash i) →
  result c c1 (kept_unconfirmed (ti_transactionHash i) c) (kept_available (ti_transactionHash i) c) (kept_spent (ti_transactionHash i) c) →
  detached height (erase_transaction (ti_transactionHash i) c1) deleted c' →
  detached height c (ti_transactionHash i :: deleted) c'.
Proof.
  intros ([Hsh _] & Htx & _) Hi Hd Hlast Hr (Hok' & Hh' & Hin & Hdel & Hleft).
  assert (∀ j, j ∈ m_transactions (erase_transaction (ti_transactionHash i) c1) ↔
    j ∈ m_transactions c ∧ ti_transactionHash j ≠ ti_transactionHash i) as Hmem.
  { intros j. cbn. rewrite (result_transactions _ _ _ _ _ Hr), list_elem_of_filter. tauto. }
  split_and!; [done| | | |].
  - rewrite Hh'. apply (result_height _ _ _ _ _ Hr).
  - intros j. rewrite Hin, Hmem. split.
    + intros [[Hj Hne] Hs]. split; [done|]. by apply (stays_result _ _ _ _ _ _ _ Hr Hne).
    + intros [Hj Hs]. assert (ti_transactionHash j ≠ ti_transactionHash i) as Hne.
      { intros Ej. apply Hd. by rewrite <- (same_transaction _ j i Htx Hj Hi Ej). }
      split; [done|]. by apply (stays_result _ _ _ _ _ _ _ Hr Hne).
  - intros h. rewrite elem_of_cons, Hdel. split.
    + intros [->|(j & Hj & Hs & <-)]; [by exists i|]. apply Hmem in Hj as [Hj Hne]. exists j. split_and!; [done| |done].
      intros Hs'. apply Hs. by apply (stays_result _ _ _ _ _ _ _ Hr Hne).
    + intros (j & Hj & Hs & <-). destruct (decide (ti_transactionHash j = ti_transactionHash i)) as [->|Hne]; [by left|right].
      exists j. split_and!; [by apply Hmem| |done]. intros Hs'. apply Hs. by apply (stays_result _ _ _ _ _ _ _ Hr Hne).
  - eapply left_over_cons; [exact Hsh|exact Hlast|by apply result_left|]. destruct Hleft. by split.
Qed.

Lemma detach_loop_spec height ts : ∀ kept c,
  container_ok c → height < UNCONFIRMED → m_transactions c = reverse ts ++ kept →
  Forall (λ j, ti_blockHeight j = UNCONFIRMED ∧ stays height c j) kept →
  ∃ deleted c', detach_loop arrange age height ts c = Ret (deleted, c') ∧ detached height c deleted c'.
Proof.
  induction ts as [|i ts IH]; intros kept c Hok Hh Etx Hkept; cbn [detach_loop]; pose proof Hkept as Hkept'; rewrite List.Forall_forall in Hkept'.
  { cbn in Etx. exists [], c. split; [done|]. apply detached_none; [done|]. intros i Hi. rewrite Etx in Hi.
    by apply Hkept', list_elem_of_In. }
  pose proof Hok as (_ & Htx & _). pose proof Etx as Etx'. rewrite reverse_cons, <- app_assoc in Etx. cbn in Etx.
  assert (i ∈ m_transactions c) as Hi by (rewrite Etx; apply elem_of_app; right; by left).
  pose proof (to_delete_spec height i c Hh ltac:(apply (txs_height _ Htx i Hi))) as Hd.
  destruct (to_delete height i c) as [[]|].
  - destruct (delete_transaction_ok (ti_transactionHash i) c Hok (detach_last height i ts kept c Hok Hh Etx' Hkept Hd))
      as (c1 & E1 & Hok1 & Hr). rewrite E1. cbn [mbind outcome_bind]. pose proof (txs_nodup _ Htx) as Hnd. rewrite Etx in Hnd.
    destruct (IH kept (erase_transaction (ti_transactionHash i) c1) Hok1 Hh) as (deleted & c' & E & Hdet).
    { cbn. rewrite (result_transactions _ _ _ _ _ Hr), Etx. by apply filter_one. }
    { apply List.Forall_forall. intros j Hj. destruct (Hkept' j Hj) as [Hu Hs]. split; [done|]. eapply stays_result; [exact Hr| |done].
      intros E. rewrite fmap_app, fmap_cons in Hnd. apply list.NoDup_app in Hnd as (_ & _ & Hnd).
      apply list.NoDup_cons in Hnd as [Hn _]. apply Hn. rewrite <- E. by apply list_elem_of_fmap_2, list_elem_of_In. }
    rewrite E. cbn [mbind outcome_bind mret outcome_ret]. exists (ti_transactionHash i :: deleted), c'. split; [done|].
    eapply detached_cons; [exact Hok|exact Hi|exact Hd| |exact Hr|exact Hdet]. by apply (detach_last height i ts kept).
  - destruct (IH (i :: kept) c Hok Hh Etx) as (deleted & c' & Hrest); [by constructor|]. by exists deleted, c'.
  - exists [], c. split; [done|]. apply detached_none; [done|]. intros j Hj. pose proof (txs_ordered _ Htx) as Ho.
    rewrite Etx in Hj, Ho. apply elem_of_app in Hj as [Hj|Hj]; [left; apply (ordered_before _ _ _ _ Ho) in Hj; lia|].
    apply elem_of_cons in Hj as [->|Hj]; [by left|]. by apply Hkept', list_elem_of_In.
Qed.
End Proofs.
