(* ===== verification/TransfersTheorems.v ===== *)
(** * The transfers of an account: theorems

    That adding and confirming transactions keeps the invariant of
    [TransfersInvariant], which outputs are reported as unlocked or locked again, and
    the theorems about containers that a wallet can reach. *)

From S2P Require Import Prelude Config CryptoNoteTypes Crypto Currency TransactionExtra FormatUtils TransactionObjects.
From S2P Require Import Transfers TransfersInvariant.
From stdpp Require Import gmap.

Local Open Scope Z_scope.

Section Proofs.
Context `{CryptoOps}.
Variable arrange : list TransactionOutputKey → list TransactionOutputKey.
Variable currency : Currency.
Variable age : Z.
Variable now : Z.
Hypothesis arrange_perm : ∀ l, arrange l ≡ₚ l.

Implicit Types (t : Transfer) (s : SpentTransactionOutput) (k : TransactionOutputKey) (c : TransfersContainer).

(** ** Unlock jobs *)

Lemma job_outputs_spec c jobs :
  (∀ job, job ∈ jobs → is_Some (m_availableTransfers c !! snd job)) →
  ∃ os, job_outputs jobs c = Ret os ∧
    Forall2 (λ job o, ∃ t, m_availableTransfers c !! snd job = Some t ∧ o = info_of t) jobs os.
Proof.
  induction jobs as [|job jobs IH]; intros Hall; cbn [job_outputs]; [by exists []|].
  destruct (Hall job ltac:(by left)) as [t Ht]. destruct IH as (os & E & Hf); [intros j Hj; apply Hall; by right|].
  unfold getAvailableOutput, deref. rewrite Ht. cbn [mbind outcome_bind mret outcome_ret]. rewrite E.
  exists (info_of t :: os). split; [done|]. constructor; [by exists t|done].
Qed.

Lemma upper_bound_mono {A} (key : A → Z) b b' l : b <= b' → (upper_bound key b l <= upper_bound key b' l)%nat.
Proof. intros Hb. induction l as [|x l IH]; cbn [upper_bound]; [done|]. repeat case_bool; lia. Qed.

(** The jobs between two heights. *)
Lemma job_range_spec c b b' :
  jobs_ok age (m_availableTransfers c) (m_transfersUnlockJobs c) → b <= b' →
  ∃ jobs, job_range (upper_bound fst b (m_transfersUnlockJobs c)) (upper_bound fst b' (m_transfersUnlockJobs c)) c = Ret jobs ∧
    ∀ job, job ∈ jobs ↔ job ∈ m_transfersUnlockJobs c ∧ b < fst job <= b'.
Proof.
  intros Hj Hb. set (l := m_transfersUnlockJobs c). pose proof (upper_bound_mono fst b b' l Hb) as Hle.
  destruct (upper_bound_spec fst b l (jobs_ordered _ _ _ Hj)) as [_ H1].
  destruct (upper_bound_spec fst b' l (jobs_ordered _ _ _ Hj)) as [Hlen H2].
  unfold job_range. rewrite (proj2 (Nat.ltb_ge _ _)) by done. eexists. split; [done|]. intros job. fold l. split.
  - intros (i & Hi)%list_elem_of_lookup. apply lookup_take_Some in Hi as [Hi Hlt]. rewrite lookup_drop in Hi.
    split; [by eapply list_elem_of_lookup_2|]. specialize (H1 _ _ Hi). specialize (H2 _ _ Hi). lia.
  - intros [(i & Hi)%list_elem_of_lookup Hr]. specialize (H1 _ _ Hi). specialize (H2 _ _ Hi).
    apply (list_elem_of_lookup_2 _ (i - upper_bound fst b l)). apply lookup_take_Some. split; [|lia].
    rewrite lookup_drop. rewrite <- Hi. f_equal. lia.
Qed.

(** An output and the height that its job names. *)
Definition unlock_height t : Z := fst (makeTransferUnlockJob t (u32 age)).

(** The outputs that are unlocked above a height and up to another one. *)
Definition unlocked_between (b b' : Z) c (os : list TransactionOutputInformation) : Prop :=
  ∀ o, o ∈ os ↔ ∃ k t, m_availableTransfers c !! k = Some t ∧ b < unlock_height t <= b' ∧ o = info_of t.

Lemma reported_spec c b b' :
  shape age c → b <= b' →
  ∃ os, (jobs ← job_range (upper_bound fst b (m_transfersUnlockJobs c)) (upper_bound fst b' (m_transfersUnlockJobs c)) c;
         job_outputs jobs c) = Ret os ∧ unlocked_between b b' c os.
Proof.
  intros Hsh Hb. pose proof (shape_jobs _ _ Hsh) as Hj.
  destruct (job_range_spec c b b' Hj Hb) as (jobs & E & Hin). rewrite E. cbn [mbind outcome_bind].
  destruct (job_outputs_spec c jobs) as (os & Eo & Hf).
  { intros job Hjob. apply Hin in Hjob as [Hjob _]. apply (jobs_exact _ _ _ Hj) in Hjob as (t & Ht & _). by exists t. }
  exists os. split; [done|]. intros o. split.
  - intros (i & Hi)%list_elem_of_lookup. destruct (Forall2_lookup_r _ _ _ _ _ Hf Hi) as (job & Hjob & t & Ht & ->).
    apply list_elem_of_lookup_2, Hin in Hjob as [Hjob Hr]. apply (jobs_exact _ _ _ Hj) in Hjob as (t' & Ht' & ->).
    rewrite Ht' in Ht. injection Ht as ->. eexists _, t. split_and!; [exact Ht'|apply Hr|apply Hr|done].
  - intros (k & t & Ht & Hr & ->). destruct (shape_available _ _ Hsh _ _ Ht) as [Hk _].
    assert (makeTransferUnlockJob t (u32 age) ∈ jobs) as Hjob.
    { apply Hin. split; [|done]. apply (jobs_exact _ _ _ Hj). exists t. cbn. by rewrite Hk. }
    apply list_elem_of_lookup in Hjob as (i & Hi). destruct (Forall2_lookup_l _ _ _ _ _ Hf Hi) as (o & Ho & t' & Ht' & ->).
    cbn in Ht'. rewrite Hk, Ht in Ht'. injection Ht' as <-. by eapply list_elem_of_lookup_2.
Qed.

(** Heights of blocks. *)
Definition is_height (h : Z) : Prop := 0 <= h < UNCONFIRMED.

Lemma next_height h : is_height h → u32 (h + 1) = h + 1.
Proof. unfold is_height, WALLET_LEGACY_UNCONFIRMED_TRANSACTION_HEIGHT, UINT32_MAX. intros Hh. apply u32_small. unfold in_range. lia. Qed.

Lemma unlock_height_range t : 0 <= unlock_height t.
Proof.
  unfold unlock_height, makeTransferUnlockJob. cbn [fst].
  assert (∀ x, 0 <= u32 x) as Hx by (intros x; apply (u32_range x)).
  destruct (oi_target t); [|case_bool]; pose proof (Hx (ex_blockHeight t + u32 age + 1)); lia.
Qed.

Lemma doAdvanceHeight_spec height c :
  shape age c → is_height (m_currentHeight c) → is_height height → m_currentHeight c <= height →
  ∃ os, doAdvanceHeight height c = Ret (os, with_height height c) ∧
    unlocked_between (if m_currentHeight c =? 0 then -1 else m_currentHeight c + 1) (height + 1) c os.
Proof.
  intros Hsh Hc Hh Hle. unfold doAdvanceHeight, getUnlockingTransfers. rewrite (proj2 (Z.ltb_ge _ _)) by done.
  cbv zeta. cbn [m_transfersUnlockJobs with_height].
  rewrite !next_height by done. set (b := if m_currentHeight c =? 0 then -1 else m_currentHeight c + 1).
  replace (if m_currentHeight c =? 0 then O else upper_bound fst (m_currentHeight c + 1) (m_transfersUnlockJobs c))
    with (upper_bound fst b (m_transfersUnlockJobs c)).
  2: { unfold b. case_bool; [|done]. destruct (m_transfersUnlockJobs c) as [|job jobs] eqn:Ej; [done|]. cbn [upper_bound].
       rewrite (proj2 (Z.ltb_lt _ _)); [done|].
       assert (job ∈ m_transfersUnlockJobs c) as Hin by (rewrite Ej; by left).
       apply (jobs_exact _ _ _ (shape_jobs _ _ Hsh)) in Hin as (t & _ & ->). pose proof (unlock_height_range t).
       unfold unlock_height in *. lia. }
  destruct (reported_spec (with_height height c) b (height + 1)) as (os & E & Hos).
  { by destruct Hsh. } { unfold b, is_height in *. case_bool; lia. }
  exists os. cbn [m_transfersUnlockJobs with_height] in E. by rewrite E.
Qed.

Lemma getLockingTransfers_spec prev height c :
  shape age c → is_height prev → is_height height →
  ∃ os, getLockingTransfers prev height c = Ret os ∧
    unlocked_between (height + 1) (prev + 1) c os.
Proof.
  intros Hsh Hp Hh. unfold getLockingTransfers. case_bool.
  - exists []. split; [done|]. intros o. split; [by intros ?%elem_of_nil|]. intros (k & t & _ & Hr & _). lia.
  - rewrite !next_height by done. by apply reported_spec; [|lia].
Qed.

Lemma detach_spec height c :
  container_ok age c → is_height (m_currentHeight c) → is_height height →
  ∃ deleted locked c1, detach arrange age height c =
      Ret (deleted, locked, with_height (Z.max 0 (height - 1)) c1) ∧ detached age height c deleted c1 ∧
    unlocked_between (Z.max 0 (height - 1) + 1) (m_currentHeight c + 1) c1 locked.
Proof.
  intros Hok Hc Hh. unfold detach. rewrite (proj2 (Z.ltb_lt _ _)) by apply Hh. cbn [assert_ mbind outcome_bind].
  destruct (detach_loop_spec arrange age arrange_perm height (reverse (m_transactions c)) [] c) as (deleted & c1 & E & Hdet);
    [done|apply Hh|by rewrite reverse_involutive, app_nil_r|constructor|].
  rewrite E. cbn [mbind outcome_bind]. cbn zeta.
  assert ((if height =? 0 then 0 else u32 (height - 1)) = Z.max 0 (height - 1)) as ->.
  { unfold is_height, WALLET_LEGACY_UNCONFIRMED_TRANSACTION_HEIGHT, UINT32_MAX in *. case_bool; [lia|].
    rewrite u32_small by (unfold in_range; lia). lia. }
  pose proof Hdet as (([Hsh _] & _ & _) & Hh1 & _). rewrite Hh1. cbn [m_currentHeight with_height].
  destruct (getLockingTransfers_spec (m_currentHeight c) (Z.max 0 (height - 1)) (with_height (Z.max 0 (height - 1)) c1))
    as (locked & El & Hlock); [by destruct Hsh|done|unfold is_height in *; lia|].
  rewrite El. by exists deleted, locked, c1.
Qed.

(** ** Adding outputs *)

Lemma elem_of_range {A} (P : A → bool) (m : gmap TransactionOutputKey A) :
  keys_where arrange P m = [] → ∀ k x, m !! k = Some x → P x = false.
Proof. by apply keys_where_nil. Qed.

Lemma make_available_ret t c c' :
  make_available arrange age t c = Ret c' →
  c' = with_transfers (m_unconfirmedTransfers c) (<[getTransactionOutputKey t := t]> (m_availableTransfers c))
         (m_spentTransfers c) (insert_by fst (makeTransferUnlockJob t (u32 age)) (m_transfersUnlockJobs c)) c ∧
  m_availableTransfers c !! getTransactionOutputKey t = None ∧
  (is_multisignature t →
   (∀ k' t', m_availableTransfers c !! k' = Some t' → getSpentOutputDescriptor t' ≠ getSpentOutputDescriptor t) ∧
   (∀ k' s, m_spentTransfers c !! k' = Some s → getSpentOutputDescriptor (st_output s) ≠ getSpentOutputDescriptor t)).
Proof.
  unfold make_available. intros E. apply outcome_bind_ret in E as (u & Hn & E). apply outcome_bind_ret in E as (c1 & Ej & E).
  unfold addUnlockJob in Ej. apply outcome_bind_ret in Ej as (u' & _ & Ej). injection Ej as <-.
  unfold insert_available in E. apply outcome_bind_ret in E as (u2 & Ha & E). injection E as <-.
  apply assert_ret, bool_decide_eq_true in Ha. split; [done|]. split; [done|]. intros Hm. unfold check_new in Hn.
  unfold is_multisignature in Hm. destruct (oi_target t); [done|].
  destruct (available_range _ _ _) eqn:Ea; [|done]. destruct (spent_range _ _ _) eqn:Es; [|done]. split.
  - intros k' t' Ht' Ed. by apply (elem_of_range _ _ Ea), bool_decide_eq_false in Ht'.
  - intros k' s Hs Ed. by apply (elem_of_range _ _ Es), bool_decide_eq_false in Hs.
Qed.

Section Adding.
Context {T : Type} `{ITransactionReader T}.
Variable block : TransactionBlockInfo.
Variable tx : T.
Variable txHash : Hash.
(** The transactions, with the added one. *)
Variable txs : list TransactionInformation.
Hypothesis txs_ok : transactions_ok txs.
Hypothesis added : ∃ i, i ∈ txs ∧ ti_transactionHash i = txHash ∧ ti_blockHeight i = tb_height block.

(** The container without the transaction. *)
Variable c0 : TransfersContainer.

(** The state between the additions. *)
Definition adding c : Prop := whole age c ∧ linked txs c ∧ left_over [txHash] c c0.

Lemma belongs_height t : belongs txs t → oi_transactionHash t = txHash → ex_blockHeight t = tb_height block.
Proof.
  intros (i & Hi & Ei & <-) E. destruct added as (j & Hj & Ej & <-). f_equal. eapply same_transaction; [done..|congruence].
Qed.

Lemma adding_update t c c1 c' :
  nearly age t c1 → update_for arrange (ex_in t) c1 = Ret c' → linked txs c1 → left_over [txHash] c1 c0 → m_transactions c1 = m_transactions c →
  m_currentHeight c1 = m_currentHeight c → adding c' ∧ alike c1 c' ∧ m_transactions c' = m_transactions c ∧
  m_currentHeight c' = m_currentHeight c.
Proof.
  intros Hn E Hl Hr Et Eh. destruct (update_for_spec arrange age arrange_perm t c1 Hn) as (c2 & E2 & Hal & Hw).
  rewrite E in E2. injection E2 as <-. split_and!; [split_and!; [exact Hw|by eapply linked_alike|by eapply left_over_alike]|done|..].
  - rewrite <- Et. symmetry. apply Hal.
  - rewrite <- Eh. symmetry. apply Hal.
Qed.

Lemma addTransactionOutput_ok transfer c c' :
  adding c → (∀ k s, m_spentTransfers c !! k = Some s → oi_transactionHash (st_output s) ≠ txHash) →
  addTransactionOutput arrange age block tx txHash transfer c = Ret c' →
  adding c' ∧ m_transactions c' = m_transactions c ∧ m_currentHeight c' = m_currentHeight c ∧
  (∀ k s, m_spentTransfers c' !! k = Some s → oi_transactionHash (st_output s) ≠ txHash).
Proof.
  intros (Hw & Hl & Hrest) Hns E. unfold addTransactionOutput in E. apply outcome_bind_ret in E as (u1 & _ & E).
  apply outcome_bind_ret in E as (ty & _ & E). apply outcome_bind_ret in E as (u2 & _ & E).
  apply outcome_bind_ret in E as (u3 & _ & E). cbv zeta in E.
  destruct (Bool.eqb _ _) eqn:Eq; [|done]. cbn [negb] in E. apply Bool.eqb_prop in Eq.
  set (info := {| ex_in := _ |}) in E. apply outcome_bind_ret in E as (c1 & E1 & E).
  assert (belongs txs info) as Hb by (destruct added as (i & ? & ? & ?); by exists i).
  pose proof Hw as [Hsh _]. pose proof Hl as [Lu La Ls]. set (k := getTransactionOutputKey info).
  assert (m_spentTransfers c !! k = None) as Hsk.
  { destruct (m_spentTransfers c !! k) as [s|] eqn:Es; [|done]. destruct (shape_spent _ _ Hsh _ _ Es) as [Hk _].
    destruct (Hns _ _ Es). by injection Hk as -> _. }
  assert (∀ c2, alike c1 c2 → m_spentTransfers c1 = m_spentTransfers c →
    ∀ k s, m_spentTransfers c2 !! k = Some s → oi_transactionHash (st_output s) ≠ txHash) as Hns'.
  { intros c2 Hal Esp k' s Hs. destruct (alike_same _ _ k' Hal) as (_ & _ & H3). rewrite Hs in H3.
    apply spent_same_Some in H3 as [v Hv]. rewrite Esp in Hv. apply (Hns _ _ Hv). }
  destruct (Z.eqb_spec (oi_globalOutputIndex transfer) UNCONFIRMED_TRANSACTION_GLOBAL_OUTPUT_INDEX) as [Hg|Hg];
    (destruct (Z.eqb_spec (tb_height block) UNCONFIRMED) as [Hh|Hh]; [|done]) ||
    (destruct (Z.eqb_spec (tb_height block) UNCONFIRMED) as [Hh|Hh]; [done|]).
  - unfold insert_unconfirmed in E1. apply outcome_bind_ret in E1 as (u4 & Hf & E1). apply assert_ret, bool_decide_eq_true in Hf.
    injection E1 as <-. assert (m_availableTransfers c !! k = None) as Hak.
    { destruct (m_availableTransfers c !! k) as [t|] eqn:Ea; [|done]. destruct (shape_available _ _ Hsh _ _ Ea) as [Hk [Hne _]].
      destruct Hne. rewrite <- Hh. apply belongs_height; [by eapply La|]. by injection Hk as -> _. }
    destruct (adding_update info c _ c' ltac:(by apply (add_unconfirmed age c k info)) E) as (Ha & Hal & Ht & Hc); [|by apply left_over_add_unconfirmed|done..|].
    + split; cbn; [|done..]. intros k' t Ht. destruct (decide (k' = k)) as [->|Hne].
      * rewrite lookup_insert_eq in Ht. by injection Ht as <-.
      * rewrite lookup_insert_ne in Ht by done. by eapply Lu.
    + split_and!; [done..|]. by eapply Hns'.
  - apply make_available_ret in E1 as (-> & Hak & Hm). assert (m_unconfirmedTransfers c !! k = None) as Huk.
    { destruct (m_unconfirmedTransfers c !! k) as [t|] eqn:Ea; [|done]. destruct (shape_unconfirmed _ _ Hsh _ _ Ea) as [Hk [He _]].
      destruct Hh. rewrite <- He. symmetry. apply belongs_height; [by eapply Lu|]. by injection Hk as -> _. }
    pose proof (place_available age c k info Hw Hak) as Hp. rewrite !delete_id in Hp by done.
    destruct (adding_update info c _ c' ltac:(apply Hp; [done|intros; congruence|intros; congruence|];
      intros Hmt; destruct (Hm Hmt) as [M1 M2]; split; [exact M1|intros k' s Hs _; by apply (M2 k')]) E)
      as (Ha & Hal & Ht & Hc); [|by apply left_over_add_available|done..|].
    + split; cbn; [done| |done]. intros k' t Ht. destruct (decide (k' = k)) as [->|Hne].
      * rewrite lookup_insert_eq in Ht. by injection Ht as <-.
      * rewrite lookup_insert_ne in Ht by done. by eapply La.
    + split_and!; [done..|]. by eapply Hns'.
Qed.

Lemma addTransactionOutputs_ok ts : ∀ c c',
  adding c → (∀ k s, m_spentTransfers c !! k = Some s → oi_transactionHash (st_output s) ≠ txHash) →
  addTransactionOutputs arrange age block tx txHash ts c = Ret c' →
  adding c' ∧ m_transactions c' = m_transactions c ∧ m_currentHeight c' = m_currentHeight c.
Proof.
  induction ts as [|t ts IH]; intros c c' Ha Hns E; cbn [addTransactionOutputs] in E; [injection E as <-; split; [exact Ha|done]|].
  apply outcome_bind_ret in E as (c1 & E1 & E).
  destruct (addTransactionOutput_ok _ _ _ Ha Hns E1) as (Ha1 & Et1 & Eh1 & Hns1).
  destruct (IH _ _ Ha1 Hns1 E) as (Ha' & Et' & Eh'). split; [exact Ha'|]. split; congruence.
Qed.

(** ** Spending outputs *)

(** The added transaction stands behind those that are not above it. *)
Hypothesis added_last : ∀ i, i ∈ txs → ti_transactionHash i ≠ txHash → ti_blockHeight i ≠ UNCONFIRMED →
  [ti_transactionHash i; txHash] `sublist_of` (ti_transactionHash <$> txs).

Lemma spend_output_ret k i c c' :
  whole age c → spend_output arrange block txHash k i c = Ret c' →
  ∃ t s, m_availableTransfers c !! k = Some t ∧ st_output s = t ∧ st_spendingTransactionHash s = txHash ∧
    st_spendingBlock s = block ∧
    (∀ k' s', m_spentTransfers c !! k' = Some s' → getSpentOutputDescriptor (st_output s') ≠ getSpentOutputDescriptor t) ∧
    c' = with_transfers (m_unconfirmedTransfers c) (delete k (m_availableTransfers c)) (<[k := s]> (m_spentTransfers c))
           (filter (λ job, snd job ≠ k) (m_transfersUnlockJobs c)) c.
Proof.
  intros [Hsh _] E. unfold spend_output, deref in E. destruct (m_availableTransfers c !! k) as [t|] eqn:Ek; [|done].
  cbn [mbind outcome_bind mret outcome_ret] in E. cbv zeta in E. apply outcome_bind_ret in E as (c1 & E1 & E).
  unfold copyToSpent in E1. apply outcome_bind_ret in E1 as (u1 & _ & E1). apply outcome_bind_ret in E1 as (u2 & _ & E1).
  apply outcome_bind_ret in E1 as (u3 & Hi & E1). injection E1 as <-. injection E as <-.
  destruct (shape_available _ _ Hsh _ _ Ek) as [Hk _].
  exists t, {| st_output := t; st_spendingBlock := block; st_spendingTransactionHash := txHash; st_inputInTransaction := u32 i |}.
  split_and!; [done..| |].
  - apply assert_ret in Hi. unfold spent_insertable in Hi. apply andb_true_iff in Hi as [_ Hi].
    destruct (spent_range _ _ _) eqn:Es; [|done]. intros k' s' Hs'. by apply (elem_of_range _ _ Es), bool_decide_eq_false in Hs'.
  - unfold deleteUnlockJob, erase_available. cbn. by rewrite Hk.
Qed.

Lemma spend_output_ok k i c c' :
  adding c → spend_output arrange block txHash k i c = Ret c' →
  ∃ t, m_availableTransfers c !! k = Some t ∧ nearly age t c' ∧ linked txs c' ∧ left_over [txHash] c' c0 ∧ m_transactions c' = m_transactions c ∧
    m_currentHeight c' = m_currentHeight c.
Proof.
  intros (Hw & [Lu La Ls] & Hrest) E. apply spend_output_ret in E as (t & s & Hk & Es & Eh & Eb & Hnew & ->); [|done].
  pose proof Hw as [Hsh _]. exists t. split; [done|]. split; [by apply spend_available|]. split; [|split; [|done]].
  2: { apply left_over_add_spent; [by rewrite Es| |done..]. by apply (shape_apart _ _ Hsh k). }
  destruct (shape_available _ _ Hsh _ _ Hk) as [_ [Hne _]]. split; cbn.
  - done.
  - intros k' t' [_ Ht']%lookup_delete_Some. by eapply La.
  - intros k' s' Hs'. destruct (decide (k' = k)) as [->|Hnek]; [|rewrite lookup_insert_ne in Hs' by done; by eapply Ls].
    rewrite lookup_insert_eq in Hs'. injection Hs' as <-. rewrite Es. pose proof (La _ _ Hk) as Hb. split; [done|]. split.
    + rewrite Eh, Eb. apply added.
    + rewrite Es, Eh. destruct Hb as (j & Hj & Ej & Ehj). rewrite <- Ej.
      destruct (decide (ti_transactionHash j = txHash)) as [|Hd]; [by left|right]. apply added_last; [done..|congruence].
Qed.

Lemma spending_transfer_range ki amount c k :
  spending_transfer arrange ki amount c = Some k → k ∈ available_range arrange (KeyDescriptor ki) c.
Proof.
  unfold spending_transfer. intros E.
  assert (∀ (less : TransactionOutputKey → TransactionOutputKey → bool) l, sort_list less l ≡ₚ l) as Hperm.
  { intros less l. induction l as [|x l IH]; cbn [sort_list]; [done|].
    assert (∀ l', insert_sorted less x l' ≡ₚ x :: l') as Hins.
    { induction l' as [|y l' IH']; cbn [insert_sorted]; [done|]. destruct (less x y); [done|]. rewrite IH'. apply Permutation_swap. }
    by rewrite Hins, IH. }
  match type of E with head ?l = _ => assert (k ∈ l) as Hin by (destruct l; [done|]; injection E as ->; by left) end.
  apply list_elem_of_filter in Hin as [_ Hin]. by rewrite Hperm in Hin.
Qed.

Lemma addTransactionInput_ok i c b c' :
  adding c → addTransactionInput arrange block tx txHash i c = Ret (b, c') →
  adding c' ∧ m_transactions c' = m_transactions c ∧ m_currentHeight c' = m_currentHeight c ∧ (b = false → c' = c).
Proof.
  intros Ha E. unfold addTransactionInput in E. apply outcome_bind_ret in E as (ty & _ & E). destruct ty.
  - apply outcome_bind_ret in E as (u & Hu & _). by apply assert_ret in Hu.
  - apply outcome_bind_ret in E as (input & _ & E). cbv zeta in E. destruct (spent_range _ _ _); [|done].
    destruct (available_range _ _ _) as [|k0 l] eqn:Er.
    { destruct (unconfirmed_range _ _ _); [|done]. injection E as <- <-. split; [exact Ha|done]. }
    destruct (spending_transfer _ _ _ _) as [k|] eqn:Ek; [|done]. apply outcome_bind_ret in E as (c1 & E1 & E).
    apply outcome_bind_ret in E as (c2 & E2 & E). injection E as <- <-.
    destruct (spend_output_ok _ _ _ _ Ha E1) as (t & Hk & Hn & Hl & Hrest & Et & Eh).
    apply spending_transfer_range, elem_of_keys_where in Ek as (t' & Hk' & Hd); [|done]. rewrite Hk in Hk'. injection Hk' as <-.
    apply has_key in Hd. unfold is_key, getSpentOutputDescriptor in Hd.
    destruct (adding_update t c c1 c2 Hn) as (Ha' & _ & Et' & Eh'); [|done..|by split_and!].
    unfold update_for. destruct (oi_target t); [|done]. injection Hd as ->. done.
  - apply outcome_bind_ret in E as (input & _ & E). destruct (available_range _ _ _) as [|k l] eqn:Er; [injection E as <- <-; split; [exact Ha|done]|].
    apply outcome_bind_ret in E as (c1 & E1 & E). injection E as <- <-.
    destruct (spend_output_ok _ _ _ _ Ha E1) as (t & Hk & Hn & Hl & Hrest & Et & Eh).
    assert (k ∈ available_range arrange (MultisignatureDescriptor (mi_amount input) (mi_outputIndex input)) c) as Hin
      by (rewrite Er; by left).
    apply elem_of_keys_where in Hin as (t' & Hk' & Hd); [|done]. rewrite Hk in Hk'. injection Hk' as <-.
    apply bool_decide_eq_true in Hd. split_and!; [|done..]. split_and!; [|exact Hl|exact Hrest]. destruct Hn as [Hsh Hv]. split; [done|].
    intros ki. apply Hv. unfold is_key. by rewrite Hd.
  - apply outcome_bind_ret in E as (u & _ & E). injection E as <- <-. split; [exact Ha|done].
Qed.

Lemma addTransactionInputs_ok n : ∀ i c b c',
  adding c → addTransactionInputs arrange block tx txHash n i c = Ret (b, c') →
  adding c' ∧ m_transactions c' = m_transactions c ∧ m_currentHeight c' = m_currentHeight c ∧ (b = false → c' = c).
Proof.
  induction n as [|n IH]; intros i c b c' Ha E; cbn [addTransactionInputs] in E; [injection E as <- <-; split; [exact Ha|done]|].
  apply outcome_bind_ret in E as ([b1 c1] & E1 & E). apply outcome_bind_ret in E as ([b2 c2] & E2 & E).
  injection E as <- <-. destruct (addTransactionInput_ok _ _ _ _ Ha E1) as (Ha1 & Et1 & Eh1 & Hf1).
  destruct (IH _ _ _ _ Ha1 E2) as (Ha2 & Et2 & Eh2 & Hf2). split; [exact Ha2|]. split; [congruence|]. split; [congruence|].
  intros [Hb1 Hb2]%orb_false_iff. by rewrite (Hf2 Hb2), (Hf1 Hb1).
Qed.
End Adding.

(** The height plays no part in the invariant. *)
Lemma container_ok_height h c : container_ok age c → container_ok age (with_height h c).
Proof. intros ([[] Hv] & Htx & []). split_and!; [by split|done|by split]. Qed.

(** Blocks come in the order of their heights. *)
Definition in_order (block : TransactionBlockInfo) c : Prop :=
  0 <= tb_height block <= UNCONFIRMED ∧
  ∀ i, i ∈ m_transactions c → ti_blockHeight i ≠ UNCONFIRMED → ti_blockHeight i <= tb_height block.

Lemma linked_insert info txs c : linked txs c → linked (insert_by ti_blockHeight info txs) c.
Proof.
  assert (∀ t, belongs txs t → belongs (insert_by ti_blockHeight info txs) t) as Hb.
  { intros t (i & Hi & Ei). exists i. split; [|done]. apply elem_of_insert_by. by right. }
  intros [Lu La Ls]. split; [naive_solver..|]. intros k s Hs. destruct (Ls _ _ Hs) as [H1 [(i & Hi & Ei) H2]].
  split; [by apply Hb|]. split.
  - exists i. split; [|done]. apply elem_of_insert_by. by right.
  - destruct H2 as [|H2]; [by left|right]. etransitivity; [exact H2|]. apply fmap_sublist, sublist_insert_by.
Qed.

Lemma transactions_insert info txs :
  transactions_ok txs → (∀ i, i ∈ txs → ti_transactionHash i ≠ ti_transactionHash info) →
  0 <= ti_blockHeight info <= UNCONFIRMED → transactions_ok (insert_by ti_blockHeight info txs).
Proof.
  intros [Hn Ho Hh] Hnew Hr. split.
  - rewrite insert_by_perm. cbn. apply list.NoDup_cons. split; [|done]. intros (i & E & Hi)%list_elem_of_fmap.
    by apply (Hnew i).
  - by apply insert_by_ordered.
  - intros i [->|Hi]%elem_of_insert_by; [done|by apply Hh].
Qed.

Lemma inserted_last info txs :
  transactions_ok txs → (∀ i, i ∈ txs → ti_blockHeight i ≠ UNCONFIRMED → ti_blockHeight i <= ti_blockHeight info) →
  ∀ i, i ∈ insert_by ti_blockHeight info txs → ti_transactionHash i ≠ ti_transactionHash info → ti_blockHeight i ≠ UNCONFIRMED →
    [ti_transactionHash i; ti_transactionHash info] `sublist_of` (ti_transactionHash <$> insert_by ti_blockHeight info txs).
Proof.
  intros Htx Hle i [->|Hi]%elem_of_insert_by Hne Hu; [done|].
  apply (fmap_sublist ti_transactionHash [i; info]), insert_by_after; [apply Htx|done|by apply Hle].
Qed.

(** Without a transaction that is not stored everything is left. *)
Lemma left_over_absent h c :
  linked (m_transactions c) c → (∀ i, i ∈ m_transactions c → ti_transactionHash i ≠ h) → left_over [h] c c.
Proof.
  intros [Lu La Ls] Hnew.
  assert (∀ t, belongs (m_transactions c) t → among [h] (oi_transactionHash t) = false) as Hb.
  { intros t (i & Hi & Ei & _). rewrite among_one. apply bool_decide_eq_false. rewrite <- Ei. by apply Hnew. }
  assert (∀ k s, m_spentTransfers c !! k = Some s → among [h] (st_spendingTransactionHash s) = false) as Hs.
  { intros k s Hk. destruct (Ls _ _ Hk) as [_ [(i & Hi & Ei & _) _]]. rewrite among_one. apply bool_decide_eq_false.
    rewrite <- Ei. by apply Hnew. }
  split; intros k; unfold left_unconfirmed, left_available, left_spent, left_returned, unless.
  - destruct (m_unconfirmedTransfers c !! k) eqn:E; [|done]. by rewrite (Hb _ (Lu _ _ E)).
  - assert (same (m_availableTransfers c !! k) (unless (λ t : Transfer, among [h] (oi_transactionHash t)) (m_availableTransfers c !! k))).
    { destruct (m_availableTransfers c !! k) eqn:E; [|done]. cbn. by rewrite (Hb _ (La _ _ E)). }
    destruct (m_spentTransfers c !! k) eqn:Es; [by rewrite (Hs _ _ Es)|done].
  - destruct (m_spentTransfers c !! k) eqn:E; [|done]. by rewrite (Hs _ _ E).
Qed.

(** The transaction is stored. *)
Lemma add_finished info (stored : bool) c c2 c3 :
  container_ok age c → m_transactions c2 = m_transactions c → m_currentHeight c2 = m_currentHeight c →
  transactions_ok (insert_by ti_blockHeight info (m_transactions c)) →
  adding (ti_transactionHash info) (insert_by ti_blockHeight info (m_transactions c)) c c2 → (stored = false → c2 = c) →
  (if stored then insert_transaction info c2 else mret c2) = Ret c3 →
  container_ok age c3 ∧ m_currentHeight c3 = m_currentHeight c ∧ left_over [ti_transactionHash info] c3 c ∧
  m_transactions c3 = if stored then insert_by ti_blockHeight info (m_transactions c) else m_transactions c.
Proof.
  intros Hok Et Eh Htx (Hw & Hl & Hr) Hsame E. destruct stored.
  - unfold insert_transaction in E. apply outcome_bind_ret in E as (u & _ & E). injection E as <-. rewrite Et.
    split; [|split; [exact Eh|split; [destruct Hr; by split|done]]]. destruct Hw as [[] Hv], Hl. split_and!; [by split|done|by split].
  - injection E as <-. rewrite Hsame in * by done. by split_and!.
Qed.

(** What a successful addition does: without the added transaction the old container is
    left. *)
Record added_to {T} `{ITransactionReader T} (block : TransactionBlockInfo) (tx : T) messages (added : bool) (txHash : Hash) c c' : Prop := {
  added_hash : getTransactionHash tx = Ret txHash;
  added_new i : i ∈ m_transactions c → ti_transactionHash i ≠ txHash;
  added_ok : container_ok age c';
  added_left : left_over [txHash] c' c;
  added_transactions : m_transactions c' =
    if added then insert_by ti_blockHeight (transaction_info block tx txHash messages) (m_transactions c) else m_transactions c;
  added_height : m_currentHeight c' = if tb_height block =? UNCONFIRMED then m_currentHeight c else tb_height block;
  added_above : m_currentHeight c <= tb_height block
}.

Lemma addTransaction_spec {T} `{ITransactionReader T} block (tx : T) ts messages c added fin c' :
  container_ok age c → in_order block c →
  addTransaction arrange age block tx ts messages c = Ret (added, fin, c') →
  ∃ txHash, added_to block tx messages added txHash c c'.
Proof.
  intros Hok [Hb Hord] E. pose proof Hok as (Hw & Htx & Hl). unfold addTransaction in E.
  destruct (Z.ltb_spec (tb_height block) (m_currentHeight c)) as [|Hlow]; [done|]. apply outcome_bind_ret in E as (txHash & Ehash & E).
  destruct (bool_decide _) eqn:Ef; [done|]. apply bool_decide_eq_false, eq_None_not_Some in Ef.
  pose proof (find_transaction_None _ _ Ef) as Hnew.
  apply outcome_bind_ret in E as (c1 & E1 & E). apply outcome_bind_ret in E as ([ia c2] & E2 & E). cbv zeta in E.
  set (info := transaction_info block tx txHash messages) in E.
  assert (transactions_ok (insert_by ti_blockHeight info (m_transactions c))) as Htx' by (by apply transactions_insert).
  assert (∃ i, i ∈ insert_by ti_blockHeight info (m_transactions c) ∧ ti_transactionHash i = txHash ∧ ti_blockHeight i = tb_height block) as Hadd
    by (exists info; split; [apply elem_of_insert_by; by left|done]).
  destruct (addTransactionOutputs_ok block tx txHash _ Htx' Hadd c ts c c1) as (Ha1 & Et1 & Eh1); [|..|exact E1|].
  { split_and!; [exact Hw|by apply linked_insert|by apply left_over_absent]. }
  { intros k s Hs Eh. destruct (linked_spent _ _ Hl _ _ Hs) as [(i & Hi & Ei & _) _]. apply (Hnew i Hi). congruence. }
  destruct (addTransactionInputs_ok block tx txHash _ Hadd c (inserted_last info _ Htx Hord) _ _ _ _ _ Ha1 E2)
    as (Ha2 & Et2 & Eh2 & Hsame).
  apply outcome_bind_ret in E as (c3 & E3 & E).
  destruct (add_finished info (negb (bool_decide (ts = [])) || ia) c c2 c3) as (Hok3 & Eh3 & Hr3 & Et3);
    [exact Hok|congruence|congruence|exact Htx'|exact Ha2| |exact E3|].
  { intros [Ets Hia]%orb_false_iff. rewrite (Hsame Hia). apply negb_false_iff, bool_decide_eq_true in Ets as ->. by injection E1 as <-. }
  exists txHash. destruct (Z.eqb_spec (tb_height block) UNCONFIRMED) as [Hu|Hu]; cbn [negb] in E.
  - injection E as <- _ <-. split; try done. by rewrite (proj2 (Z.eqb_eq _ _)).
  - apply outcome_bind_ret in E as ([os c4] & E4 & E). injection E as <- _ <-. unfold doAdvanceHeight in E4. case_bool_in E4; [done|].
    apply outcome_bind_ret in E4 as (os' & _ & E4). injection E4 as _ <-.
    split; [done|done|by apply container_ok_height|destruct Hr3; by split|exact Et3| |done]. cbn. by rewrite (proj2 (Z.eqb_neq _ _)).
Qed.

(** ** Confirming a transaction *)

Section Confirming.
Variable block : TransactionBlockInfo.
Variable h : Hash.
Variable globalIndices : list Z.
Hypothesis block_height : is_height (tb_height block).
Hypothesis indices_ok : Forall (λ i, i ≠ UNCONFIRMED_TRANSACTION_GLOBAL_OUTPUT_INDEX) globalIndices.
(** The transactions, with the new height. *)
Variable txs : list TransactionInformation.
Hypothesis confirmed_in : ∃ i, i ∈ txs ∧ ti_transactionHash i = h ∧ ti_blockHeight i = tb_height block.

(** The state while outputs are confirmed: the outputs of the transaction that are
    still unconfirmed and the spent ones are not yet in line with the transactions. *)
Record confirming (ks : list TransactionOutputKey) c : Prop := {
  confirming_rest k t : m_unconfirmedTransfers c !! k = Some t → oi_transactionHash t = h → k ∈ ks;
  confirming_unconfirmed k t : m_unconfirmedTransfers c !! k = Some t → oi_transactionHash t ≠ h → belongs txs t;
  confirming_available k t : m_availableTransfers c !! k = Some t → belongs txs t;
  confirming_spent k s : confirm_spent block h (m_spentTransfers c) !! k = Some s → belongs txs (st_output s) ∧ spending txs s
}.

Lemma confirm_spent_same m m' : spent_hide m = spent_hide m' → spent_hide (confirm_spent block h m) = spent_hide (confirm_spent block h m').
Proof.
  intros E. apply spent_same_hide. intros k. unfold confirm_spent. rewrite !lookup_fmap.
  pose proof (proj1 (spent_same_hide m m') E k) as Hk. destruct (m' !! k) as [s|]; [|by destruct (m !! k)].
  apply spent_same_Some in Hk as [v ->]. cbn. unfold spent_by. cbn. by case_bool.
Qed.

Lemma confirming_alike ks c c' : alike c c' → confirming ks c → confirming ks c'.
Proof.
  intros Hal [Hr Hu Ha Hs]. split.
  - intros k t Ht E. destruct (alike_same _ _ k Hal) as (H1 & _ & _). rewrite Ht in H1. apply same_Some in H1 as [v Hv].
    by apply (Hr _ _ Hv).
  - intros k t Ht E. destruct (alike_same _ _ k Hal) as (H1 & _ & _). rewrite Ht in H1. apply same_Some in H1 as [v Hv].
    by apply (Hu _ _ Hv).
  - intros k t Ht. destruct (alike_same _ _ k Hal) as (_ & H2 & _). rewrite Ht in H2. apply same_Some in H2 as [v Hv].
    by apply (Ha _ _ Hv).
  - intros k s Hk. pose proof (confirm_spent_same _ _ (alike_spent _ _ Hal)) as E. symmetry in E.
    destruct (spent_hide_lookup _ _ _ _ E Hk) as [v Hv]. apply (Hs _ _ Hv).
Qed.

Lemma confirm_step ks k t gi c c1 c' :
  whole age c → confirming (k :: ks) c → m_unconfirmedTransfers c !! k = Some t → oi_transactionHash t = h →
  gi ≠ UNCONFIRMED_TRANSACTION_GLOBAL_OUTPUT_INDEX → make_available arrange age (confirmed block gi t) c = Ret c1 →
  update_for arrange (ex_in (confirmed block gi t)) (erase_unconfirmed k c1) = Ret c' →
  whole age c' ∧ confirming ks c' ∧ m_transactions c' = m_transactions c ∧ m_currentHeight c' = m_currentHeight c ∧
  ∀ k', k' ≠ k → same (m_unconfirmedTransfers c' !! k') (m_unconfirmedTransfers c !! k').
Proof.
  intros Hw [Hr Hu Ha Hs] Hk Hh Hgi E1 E2. pose proof Hw as [Hsh _]. destruct (shape_unconfirmed _ _ Hsh _ _ Hk) as [Hkey _].
  assert (getTransactionOutputKey (confirmed block gi t) = k) as Hkey' by (by rewrite <- Hkey).
  apply make_available_ret in E1 as (-> & Hak & Hm). rewrite Hkey' in *.
  assert (m_spentTransfers c !! k = None) as Hsk.
  { destruct (m_spentTransfers c !! k) eqn:Es; [|done]. rewrite (shape_apart' _ _ Hsh k) in Hk; [done|by eexists]. }
  pose proof (place_available age c k (confirmed block gi t) Hw Hak) as Hp. rewrite (delete_id (m_spentTransfers c)) in Hp by done.
  destruct (update_for_spec arrange age arrange_perm (confirmed block gi t) (with_transfers (delete k (m_unconfirmedTransfers c))
    (<[k := confirmed block gi t]> (m_availableTransfers c)) (m_spentTransfers c)
    (insert_by fst (makeTransferUnlockJob (confirmed block gi t) (u32 age)) (m_transfersUnlockJobs c)) c)) as (c2 & E & Hal & Hw').
  { apply Hp.
    - split; [done|]. split; [unfold is_height in block_height; cbn; lia|done].
    - intros t0 Ht0 ki. rewrite Hk in Ht0. injection Ht0 as <-. unfold is_key, getSpentOutputDescriptor. cbn. by destruct (oi_target t).
    - intros s0 Hs0. congruence.
    - intros Hmt. destruct (Hm Hmt) as [M1 M2]. split; [exact M1|]. intros k' s Hs' _. by apply (M2 k'). }
  assert (Ret c' = Ret c2) as Ec by exact (eq_trans (eq_sym E2) E). injection Ec as <-.
  split; [done|]. split; [|split_and!; [symmetry; apply Hal..|]].
  2: { intros k' Hne. destruct (alike_same _ _ k' Hal) as (H1 & _ & _). cbn in H1. rewrite lookup_delete_ne in H1 by done. by symmetry. }
  eapply confirming_alike; [exact Hal|]. split.
  - cbn. intros k' t' [Hne Ht']%lookup_delete_Some Eh. pose proof (Hr _ _ Ht' Eh) as Hin. by apply elem_of_cons in Hin as [|].
  - cbn. intros k' t' [Hne Ht']%lookup_delete_Some Eh. by eapply Hu.
  - cbn. intros k' t' Ht'. destruct (decide (k' = k)) as [->|Hne].
    + rewrite lookup_insert_eq in Ht'. injection Ht' as <-. destruct confirmed_in as (i & Hi & Ei & Ehi). exists i. by rewrite Ei.
    + rewrite lookup_insert_ne in Ht' by done. by eapply Ha.
  - exact Hs.
Qed.

Lemma confirm_loop_ok ks : ∀ c c',
  whole age c → confirming ks c → NoDup ks →
  (∀ k, k ∈ ks → ∃ t, m_unconfirmedTransfers c !! k = Some t ∧ oi_transactionHash t = h) →
  confirm_loop arrange age block globalIndices ks c = Ret c' →
  whole age c' ∧ confirming [] c' ∧ m_transactions c' = m_transactions c ∧ m_currentHeight c' = m_currentHeight c.
Proof.
  induction ks as [|k ks IH]; intros c c' Hw Hc Hnd Hks E; cbn [confirm_loop] in E; [by injection E as <-|].
  apply list.NoDup_cons in Hnd as [Hk Hnd]. destruct (Hks k ltac:(by left)) as (t & Ht & Eh).
  unfold deref in E. rewrite Ht in E. cbn [mbind outcome_bind mret outcome_ret] in E.
  apply outcome_bind_ret in E as (u1 & _ & E). apply outcome_bind_ret in E as (u2 & _ & E). case_bool_in E; [done|].
  apply outcome_bind_ret in E as (gi & Egi & E). cbv zeta in E. apply outcome_bind_ret in E as (c1 & E1 & E).
  apply outcome_bind_ret in E as (c2 & E2 & E).
  assert (gi ≠ UNCONFIRMED_TRANSACTION_GLOBAL_OUTPUT_INDEX) as Hgi.
  { apply at_ret in Egi as [_ Egi]. rewrite List.Forall_forall in indices_ok. apply indices_ok.
    apply list_elem_of_lookup_2 in Egi. by apply list_elem_of_In. }
  destruct (confirm_step ks k t gi c c1 c2 Hw Hc Ht Eh Hgi E1 E2) as (Hw2 & Hc2 & Et2 & Eh2 & Hsame).
  destruct (IH c2 c' Hw2 Hc2 Hnd) as (Hw' & Hc' & Et' & Eh'); [|done|split_and!; [done..|congruence|congruence]].
  intros k' Hk'. destruct (Hks k' ltac:(by right)) as (t' & Ht' & Eh'). specialize (Hsame k').
  rewrite Ht' in Hsame. destruct (same_Some _ _ (Hsame ltac:(intros ->; done))) as [v Hv]. by exists (with_visible v t').
Qed.

Lemma confirm_spent_lookup m k s :
  confirm_spent block h m !! k = Some s →
  ∃ s0, m !! k = Some s0 ∧ st_output s = st_output s0 ∧ st_spendingTransactionHash s = st_spendingTransactionHash s0 ∧
    st_spendingBlock s = if spent_by h s0 then block else st_spendingBlock s0.
Proof.
  unfold confirm_spent. rewrite lookup_fmap_Some. intros (s0 & <- & Hk). exists s0. split; [done|]. by case_bool.
Qed.

Lemma confirm_spent_part ki m : spent_part ki (confirm_spent block h m) = confirm_spent block h (spent_part ki m).
Proof.
  apply map_eq. intros k. apply option_eq. intros s. unfold confirm_spent. rewrite spent_part_lookup, !lookup_fmap_Some.
  setoid_rewrite spent_part_lookup. split.
  - intros [(s0 & <- & Hk) Hi]. exists s0. split_and!; [done..|]. by destruct (spent_by h s0).
  - intros (s0 & <- & Hk & Hi). split; [by exists s0|]. by destruct (spent_by h s0).
Qed.

Lemma whole_confirm_spent c :
  whole age c → whole age (with_transfers (m_unconfirmedTransfers c) (m_availableTransfers c)
    (confirm_spent block h (m_spentTransfers c)) (m_transfersUnlockJobs c) c).
Proof.
  intros [[Hu Ha Hs Hap Hap' Hj Ho Hm] Hv].
  assert (∀ k, is_Some (confirm_spent block h (m_spentTransfers c) !! k) ↔ is_Some (m_spentTransfers c !! k)) as Hdom
    by (intros k; unfold confirm_spent; by rewrite lookup_fmap, fmap_is_Some).
  split; [split; cbn; try done|].
  - intros k s (s0 & Hk & -> & _)%confirm_spent_lookup. by apply Hs.
  - intros k Hk. destruct (Hap k Hk) as [H1 H2]. split; [done|]. apply eq_None_not_Some. rewrite Hdom, H2. by intros [].
  - intros k Hk. by apply Hap', Hdom.
  - intros k k' s s' (s0 & Hk & E0 & _)%confirm_spent_lookup (s1 & Hk' & E1 & _)%confirm_spent_lookup E.
    rewrite E0, E1 in E. by eapply Ho.
  - intros k t Hk Hmt. destruct (Hm _ _ Hk Hmt) as [M1 M2]. split; [done|].
    intros k' s (s0 & Hk' & -> & _)%confirm_spent_lookup. by eapply M2.
  - intros ki. specialize (Hv ki). unfold visible in *. cbn. rewrite confirm_spent_part. destruct Hv as (V1 & V2 & V3).
    assert (confirm_spent block h (spent_part ki (m_spentTransfers c)) = ∅ ↔ spent_part ki (m_spentTransfers c) = ∅) as He
      by (unfold confirm_spent; apply fmap_empty_iff).
    split_and!; [|intros E%He; by apply V2|intros E%He; by apply V3].
    intros Hne. destruct V1 as (W1 & W2 & W3); [by rewrite <- He|]. split_and!; [done..|].
    intros k s (s0 & Hk & -> & _)%confirm_spent_lookup. by eapply W3.
Qed.
End Confirming.

(** At the start only the transaction itself is out of line. *)
Lemma confirming_start block i info c :
  container_ok age c → i ∈ m_transactions c → ti_blockHeight i = UNCONFIRMED → in_order block c →
  ti_transactionHash info = ti_transactionHash i → ti_blockHeight info = tb_height block →
  confirming block (ti_transactionHash i)
    (insert_by ti_blockHeight info (filter (λ j, ti_transactionHash j ≠ ti_transactionHash i) (m_transactions c)))
    (keys_where arrange (λ t : Transfer, in_transaction (ti_transactionHash i) t) (m_unconfirmedTransfers c)) c.
Proof.
  intros Hok Hi Hu [Hr Hord] Einfo Eh. pose proof Hok as ([Hsh _] & Htx & [Lu La Ls]). set (h := ti_transactionHash i) in *.
  set (txs := filter _ _). assert (transactions_ok txs) as Htx' by (by apply erased_ok).
  assert (∀ t, belongs (m_transactions c) t → oi_transactionHash t ≠ h → belongs (insert_by ti_blockHeight info txs) t) as Hb.
  { intros t Hbt Hne. apply belongs_erased with (h := h) in Hbt as (j & Hj & Ej); [|done]. exists j. split; [|done].
    apply elem_of_insert_by. by right. }
  assert (∀ t, belongs (m_transactions c) t → ex_blockHeight t ≠ UNCONFIRMED → oi_transactionHash t ≠ h) as Hne.
  { intros t (j & Hj & Ej & Ehj) Hn E. apply Hn. rewrite <- Ehj, <- Hu. f_equal.
    apply (same_transaction _ j i Htx Hj Hi). unfold h in E. congruence. }
  split.
  - intros k t Ht E. apply elem_of_keys_where; [done|]. exists t. split; [done|]. by apply bool_decide_eq_true.
  - intros k t Ht E. apply Hb; [by eapply Lu|done].
  - intros k t Ht. apply Hb; [by eapply La|]. apply Hne; [by eapply La|]. by destruct (shape_available _ _ Hsh _ _ Ht) as [_ []].
  - intros k s (s0 & Hk & E0 & E1 & E2)%confirm_spent_lookup. destruct (Ls _ _ Hk) as [B0 S0].
    assert (ex_blockHeight (st_output s0) ≠ UNCONFIRMED) as Hc by (by destruct (shape_spent _ _ Hsh _ _ Hk) as [_ []]).
    pose proof (Hne _ B0 Hc) as Hneh. rewrite E0. split; [by apply Hb|]. unfold spending. rewrite E0, E1, E2.
    destruct (spent_by h s0) eqn:Esb.
    + apply bool_decide_eq_true in Esb. rewrite Esb. split; [exists info; split; [apply elem_of_insert_by; by left|by split]|].
      right. destruct (belongs_erased h _ _ B0 Hneh) as (j & Hj & Ej & Ehj). rewrite <- Ej, <- Einfo.
      apply (inserted_last info txs Htx'); [|apply elem_of_insert_by; by right| |congruence].
      * intros j' Hj' Hn'. rewrite Eh. apply Hord; [|done]. by apply list_elem_of_filter in Hj' as [_ ?].
      * rewrite Einfo. apply list_elem_of_filter in Hj as [? _]. done.
    + apply bool_decide_eq_false in Esb. destruct (spending_erased h _ s0 S0 Hneh Esb) as [(j & Hj & Ej) Ho]. split.
      * exists j. split; [|done]. apply elem_of_insert_by. by right.
      * destruct Ho as [|Ho]; [by left|right]. etransitivity; [exact Ho|]. apply fmap_sublist, sublist_insert_by.
Qed.

Lemma markTransactionConfirmed_ok block h globalIndices c r c' :
  container_ok age c → in_order block c → Forall (λ i, i ≠ UNCONFIRMED_TRANSACTION_GLOBAL_OUTPUT_INDEX) globalIndices →
  markTransactionConfirmed arrange age block h globalIndices c = Ret (r, c') →
  container_ok age c' ∧ m_currentHeight c' = m_currentHeight c.
Proof.
  intros Hok Hord Hgi E. pose proof Hok as (Hw & Htx & _). unfold markTransactionConfirmed in E.
  destruct (Z.eqb_spec (tb_height block) UNCONFIRMED) as [|Hbu]; [done|].
  destruct (find_transaction h c) as [i|] eqn:Ef; [|by injection E as <- <-].
  destruct (Z.eqb_spec (ti_blockHeight i) UNCONFIRMED) as [Hu|Hu]; cbn [negb] in E; [|by injection E as <- <-].
  apply find_transaction_Some in Ef as [Hi <-]. cbv zeta in E. set (info := {| ti_transactionHash := _ |}) in E.
  apply outcome_bind_ret in E as (c1 & E1 & E). apply outcome_bind_ret in E as (u & _ & E). injection E as <- <-.
  pose proof (confirming_start block i info c Hok Hi Hu Hord eq_refl eq_refl) as Hstart.
  set (txs := insert_by _ _ _) in Hstart. set (c0 := with_transactions _ _) in E1. destruct Hord as [Hr _].
  assert (whole age c0) as Hw0 by (destruct Hw as [[] Hv]; split; [by split|exact Hv]).
  destruct (confirm_loop_ok block (ti_transactionHash i) globalIndices ltac:(unfold is_height; lia) Hgi txs) with (2 := Hw0) (6 := E1)
    as (Hw1 & [Hrest Hun Hav Hsp] & Et1 & Eh1).
  - exists info. split; [apply elem_of_insert_by; by left|done].
  - destruct Hstart as [S1 S2 S3 S4]. split; [exact S1|exact S2|exact S3|exact S4].
  - by apply keys_where_nodup.
  - intros k (t & Ht & Et%bool_decide_eq_true)%elem_of_keys_where; [|done]. by exists t.
  - cbn in Et1, Eh1. split; [|exact Eh1]. split; [by apply whole_confirm_spent|]. cbn. rewrite Et1. split.
    + apply transactions_insert; [by apply erased_ok| |exact Hr]. intros j [Hj _]%list_elem_of_filter. done.
    + split; [|exact Hav|exact Hsp]. intros k t Ht. apply (Hun k t Ht). intros Eh.
      pose proof (Hrest k t Ht Eh) as Hin. by apply not_elem_of_nil in Hin.
Qed.
End Proofs.
