(* ===== verification/TransfersHistory.v ===== *)
(** * The transfers of an account: histories

    The containers that a wallet reaches by adding, confirming and deleting
    transactions, by removing blocks and by advancing the height. In each of them the
    invariant holds, no key image is counted twice in a balance, a transaction that is
    added can be taken back, and the outputs that are reported as unlocked are those
    that become spendable. *)

From S2P Require Import Prelude Config CryptoNoteTypes Crypto Currency TransactionExtra FormatUtils TransactionObjects.
From S2P Require Import Transfers TransfersInvariant TransfersTheorems.
From stdpp Require Import gmap.

Local Open Scope Z_scope.

Section History.
Context `{CryptoOps}.
Variable arrange : list TransactionOutputKey → list TransactionOutputKey.
Variable currency : Currency.
Variable age : Z.
Variable now : Z.
Hypothesis arrange_perm : ∀ l, arrange l ≡ₚ l.

Implicit Types (t : Transfer) (s : SpentTransactionOutput) (k : TransactionOutputKey) (c : TransfersContainer).

(** The calls of a synchronizer: blocks come in the order of their heights, and
    confirmed outputs have global indices. *)
Inductive step c : TransfersContainer → Prop :=
| step_add T (R : ITransactionReader T) block (tx : T) ts messages added fin c' :
    in_order block c → addTransaction arrange age block tx ts messages c = Ret (added, fin, c') → step c c'
| step_delete h r c' :
    deleteUnconfirmedTransaction arrange age h c = Ret (r, c') → step c c'
| step_confirm block h globalIndices r c' :
    in_order block c → Forall (λ i, i ≠ UNCONFIRMED_TRANSACTION_GLOBAL_OUTPUT_INDEX) globalIndices →
    markTransactionConfirmed arrange age block h globalIndices c = Ret (r, c') → step c c'
| step_detach height deleted locked c' :
    is_height height → detach arrange age height c = Ret (deleted, locked, c') → step c c'
| step_advance height os c' :
    is_height height → advanceHeight height c = Ret (os, c') → step c c'.

Definition reachable c : Prop := rtc step new_TransfersContainer c.

Definition good c : Prop := container_ok age c ∧ is_height (m_currentHeight c).

Lemma good_new : good new_TransfersContainer.
Proof.
  split; [|done]. split_and!.
  - split.
    + split; try done; try (intros k Hk; by destruct Hk).
      split; [constructor|intros i j x y _ Hx; done|]. intros job. split; [by intros ?%elem_of_nil|by intros (t & Ht & _)].
    + intros ki. split_and!; [done|intros _ Ha; by destruct Ha|done].
  - split; [constructor|by intros i j x y _ Hx|by intros i ?%elem_of_nil].
  - by split.
Qed.

Lemma good_step c c' : good c → step c c' → good c'.
Proof.
  intros [Hok Hh] [T R block tx ts messages added fin c2 Hord E|h r c2 E|block h gi r c2 Hord Hgi E|height ds ls c2 Hb E|height os c2 Hb E].
  - destruct (addTransaction_spec arrange age arrange_perm _ _ _ _ _ _ _ _ Hok Hord E) as (h & Ha).
    split; [apply Ha|]. rewrite (added_height _ _ _ _ _ _ _ _ Ha). destruct Hord as [Hr _]. case_bool; [done|].
    unfold is_height. lia.
  - destruct (deleteUnconfirmedTransaction_ok arrange age arrange_perm h c Hok) as (r' & c3 & E3 & Hok3 & Hh3).
    rewrite E in E3. injection E3 as <- <-. split; [done|]. by rewrite Hh3.
  - destruct (markTransactionConfirmed_ok arrange age arrange_perm _ _ _ _ _ _ Hok Hord Hgi E) as [Hok' Hh'].
    split; [done|]. by rewrite Hh'.
  - destruct (detach_spec arrange age arrange_perm height c Hok Hh Hb) as (ds' & ls' & c3 & E3 & Hd & _).
    rewrite E in E3. injection E3 as -> -> ->. split; [apply container_ok_height, Hd|]. unfold is_height in *. cbn. lia.
  - unfold advanceHeight, doAdvanceHeight in E. case_bool_in E; [done|]. apply outcome_bind_ret in E as (os' & _ & E).
    injection E as _ <-. split; [by apply container_ok_height|done].
Qed.

Lemma reachable_good c : reachable c → good c.
Proof. intros Hr. apply (rtc_ind_r (R := step) good new_TransfersContainer); [apply good_new| |done]. intros x y _ Hs Hx. by eapply good_step. Qed.

(** ** Taking transactions back *)

(** The same transfers, transactions and jobs, but for the order in which equal ones are
    stored and for visibility. *)
Record restored c c' : Prop := {
  restored_unconfirmed : hide (m_unconfirmedTransfers c') = hide (m_unconfirmedTransfers c);
  restored_available : hide (m_availableTransfers c') = hide (m_availableTransfers c);
  restored_spent : spent_hide (m_spentTransfers c') = spent_hide (m_spentTransfers c);
  restored_transactions : m_transactions c' ≡ₚ m_transactions c;
  restored_jobs : m_transfersUnlockJobs c' ≡ₚ m_transfersUnlockJobs c
}.

Lemma jobs_unique (a a' : transfers) jobs jobs' : hide a = hide a' → jobs_ok age a jobs → jobs_ok age a' jobs' → jobs ≡ₚ jobs'.
Proof.
  intros E H1 H2. pose proof (jobs_alike age _ _ _ E H1) as H3. apply NoDup_Permutation.
  - eapply NoDup_fmap_1, H1.
  - eapply NoDup_fmap_1, H2.
  - intros job. by rewrite (jobs_exact _ _ _ H3), (jobs_exact _ _ _ H2).
Qed.

Lemma transactions_unique (txs txs' : list TransactionInformation) :
  transactions_ok txs → transactions_ok txs' → (∀ i, i ∈ txs ↔ i ∈ txs') → txs ≡ₚ txs'.
Proof. intros H1 H2 E. apply NoDup_Permutation; [eapply NoDup_fmap_1, H1|eapply NoDup_fmap_1, H2|done]. Qed.

(** What is left without the same transactions is the same. *)
Lemma left_over_restored hs hs' c c1 c2 :
  (∀ h, h ∈ hs ↔ h ∈ hs') → left_over hs c c1 → left_over hs' c c2 → container_ok age c1 → container_ok age c2 →
  (∀ i, i ∈ m_transactions c2 ↔ i ∈ m_transactions c1) → restored c1 c2.
Proof.
  intros Hhs [Lu La Ls] [Lu' La' Ls'] ([[] _] & Htx1 & _) ([[] _] & Htx2 & _) Htx.
  assert (∀ h, among hs h = among hs' h) as Ham by (intros h; apply bool_decide_ext, Hhs).
  assert (hide (m_availableTransfers c2) = hide (m_availableTransfers c1)) as Ea.
  { apply same_hide. intros k. rewrite (La' k), (La k). unfold left_available, left_returned, unless.
    destruct (m_spentTransfers c !! k) as [s|].
    - rewrite Ham. destruct (if among hs' _ then _ else _) as [t|]; [|done]. by rewrite Ham.
    - destruct (m_availableTransfers c !! k); [|done]. by rewrite Ham. }
  split; [|done|..|by apply transactions_unique|by eapply jobs_unique].
  - apply same_hide. intros k. rewrite (Lu' k), (Lu k). unfold left_unconfirmed, unless.
    destruct (m_unconfirmedTransfers c !! k); [|done]. by rewrite Ham.
  - apply spent_same_hide. intros k. rewrite (Ls' k), (Ls k). unfold left_spent, unless.
    destruct (m_spentTransfers c !! k); [|done]. by rewrite Ham.
Qed.

(** The stored transactions after an addition. *)
Lemma added_in {T} `{ITransactionReader T} block (tx : T) messages h c c' :
  added_to age block tx messages true h c c' →
  ∀ i, i ∈ m_transactions c' ↔ i = transaction_info block tx h messages ∨ i ∈ m_transactions c.
Proof. intros Ha i. rewrite (added_transactions _ _ _ _ _ _ _ _ Ha). apply elem_of_insert_by. Qed.

(** deleting an unconfirmed transaction takes back what adding it did: the outputs it brought
    are gone, those it spent are available again with their unlock jobs, and everything
    else is as it was. *)
Theorem delete_undoes_add {T} `{ITransactionReader T} block (tx : T) ts messages c fin c' :
  reachable c → in_order block c → tb_height block = WALLET_LEGACY_UNCONFIRMED_TRANSACTION_HEIGHT →
  addTransaction arrange age block tx ts messages c = Ret (true, fin, c') →
  ∃ h c2, getTransactionHash tx = Ret h ∧ deleteUnconfirmedTransaction arrange age h c' = Ret (true, c2) ∧
    restored c c2 ∧ m_currentHeight c2 = m_currentHeight c.
Proof.
  intros Hr%reachable_good Hord Hu E. destruct Hr as [Hok Hh].
  destruct (addTransaction_spec arrange age arrange_perm _ _ _ _ _ _ _ _ Hok Hord E) as (h & Ha).
  pose proof (added_in _ _ _ _ _ _ Ha) as Hin. pose proof (added_ok _ _ _ _ _ _ _ _ Ha) as Hok'.
  set (info := transaction_info block tx h messages) in *.
  assert (info ∈ m_transactions c') as Hinfo by (apply Hin; by left).
  assert (find_transaction h c' = Some info) as Ef.
  { destruct (find_transaction h c') as [i|] eqn:Ef; [|by destruct (find_transaction_None _ _ Ef info Hinfo)].
    apply find_transaction_Some in Ef as [Hi Ei]. f_equal. by apply (same_transaction _ _ _ (proj1 (proj2 Hok')) Hi Hinfo). }
  destruct (delete_transaction_ok arrange age arrange_perm h c' Hok') as (c2 & E2 & Hok2 & Hres).
  { intros k s Hk Es. by destruct (unconfirmed_no_spent age c' info Hok' Hinfo Hu k s Hk). }
  exists h, (erase_transaction h c2). split; [apply Ha|]. unfold deleteUnconfirmedTransaction. rewrite Ef. cbn [info ti_blockHeight transaction_info].
  rewrite Hu, Z.eqb_refl. cbn [negb]. rewrite E2. split; [done|]. split.
  - eapply (left_over_restored [h] [h]); [done|apply Ha| |exact Hok|exact Hok2|].
    + pose proof (result_left age h c' c2 Hres) as []. by split.
    + intros i. cbn. rewrite (result_transactions _ _ _ _ _ _ Hres), list_elem_of_filter, Hin. split.
      * intros [Hne [->|Hi]]; [done|exact Hi].
      * intros Hi. split; [by apply (added_new _ _ _ _ _ _ _ _ Ha)|by right].
  - cbn. rewrite (result_height _ _ _ _ _ _ Hres), (added_height _ _ _ _ _ _ _ _ Ha), Hu. by rewrite Z.eqb_refl.
Qed.


(** Blocks come in the order of their heights, each above the last. *)
Definition above (height : Z) c : Prop :=
  is_height height ∧ ∀ i, i ∈ m_transactions c → ti_blockHeight i ≠ UNCONFIRMED → ti_blockHeight i < height.

Lemma above_in_order block c : above (tb_height block) c → in_order block c.
Proof. intros [Hh Hb]. unfold is_height in Hh. split; [lia|]. intros i Hi Hu. specialize (Hb i Hi Hu). lia. Qed.

(** The transactions from before stay when the block is removed. *)
Lemma stays_added {T} `{ITransactionReader T} block (tx : T) messages (added : bool) h c c' i :
  good c → above (tb_height block) c → added_to age block tx messages added h c c' → i ∈ m_transactions c →
  stays (tb_height block) c' i.
Proof.
  intros [Hok _] [Hh Hb] Ha Hi. destruct (decide (ti_blockHeight i = UNCONFIRMED)) as [Hu|Hu]; [right|left; by apply Hb].
  split; [done|]. intros k s Hs Es. pose proof (left_over_spent _ _ _ (added_left _ _ _ _ _ _ _ _ Ha) k) as Hl.
  unfold left_spent in Hl. rewrite Hs in Hl. cbn in Hl. rewrite among_one, bool_decide_eq_false_2 in Hl.
  2: { rewrite Es. by apply (added_new _ _ _ _ _ _ _ _ Ha). }
  apply spent_same_Some in Hl as [v Hv]. pose proof Hok as ([Hsh _] & _ & Hlk).
  destruct (linked_spent _ _ Hlk _ _ Hv) as [(j & Hj & _ & Ehj) _]. cbn in Ehj. rewrite <- Ehj. apply Hb; [done|].
  destruct (shape_spent _ _ Hsh _ _ Hv) as [_ [Hne _]]. cbn in Hne. congruence.
Qed.

(** removing the block of a transaction that was just added takes the addition back: only
    this transaction is deleted, and the transfers, transactions and unlock jobs are
    those from before. *)
Theorem detach_undoes_add {T} `{ITransactionReader T} block (tx : T) ts messages c fin c' :
  reachable c → above (tb_height block) c →
  addTransaction arrange age block tx ts messages c = Ret (true, fin, c') →
  ∃ h deleted locked c2, getTransactionHash tx = Ret h ∧
    detach arrange age (tb_height block) c' = Ret (deleted, locked, c2) ∧
    (∀ h', h' ∈ deleted ↔ h' = h) ∧ restored c c2 ∧ m_currentHeight c2 = Z.max 0 (tb_height block - 1).
Proof.
  intros Hr%reachable_good Hab E. pose proof Hr as [Hok Hh]. pose proof Hab as [Hbh Hb]. pose proof (above_in_order _ _ Hab) as Hord.
  destruct (addTransaction_spec arrange age arrange_perm _ _ _ _ _ _ _ _ Hok Hord E) as (h & Ha).
  pose proof (added_in _ _ _ _ _ _ Ha) as Hin. set (info := transaction_info block tx h messages) in *.
  assert (¬ stays (tb_height block) c' info) as Hgone.
  { intros [Hs|[Hs _]]; unfold is_height in Hbh; cbn in Hs; lia. }
  assert (good c') as [Hok' Hh'] by (eapply good_step; [exact Hr|by eapply step_add]).
  destruct (detach_spec arrange age arrange_perm (tb_height block) c' Hok' Hh' Hbh) as (ds & ls & c2 & E2 & (Hok2 & _ & Htx & Hds & Hleft) & _).
  assert (∀ h', h' ∈ ds ↔ h' = h) as Hdel.
  { intros h'. rewrite Hds. split.
    - intros (i & Hi & Hn & <-). apply Hin in Hi as [->|Hi]; [done|]. destruct Hn. by eapply stays_added.
    - intros ->. exists info. split_and!; [apply Hin; by left|done|done]. }
  exists h, ds, ls, (with_height (Z.max 0 (tb_height block - 1)) c2). split_and!; [apply Ha|exact E2|exact Hdel| |done].
  eapply (left_over_restored [h] ds); [intros h'; by rewrite Hdel, list_elem_of_singleton|apply Ha| |exact Hok|by apply container_ok_height|].
  - destruct Hleft. by split.
  - intros i. cbn. rewrite Htx, Hin. split.
    + intros [[->|Hi] Hs]; [done|done].
    + intros Hi. split; [by right|by eapply stays_added].
Qed.

(** ** Removing blocks *)


(** ** The balance *)

(** All flags. *)
Definition IncludeAll : Z := Z.lor IncludeTypeAll IncludeStateAll.

Lemma included_all (t : Transfer) c : 0 <= match oi_target t with MultisignatureTarget _ term => term | KeyTarget _ => 0 end →
  isIncluded currency age now t IncludeAll c = true.
Proof.
  intros Hterm. unfold isIncluded, isIncluded_state.
  assert (has_flag IncludeAll (transfer_state currency age now t c) = true) as ->.
  { unfold transfer_state. repeat case_bool; done. }
  rewrite andb_true_r. destruct (oi_target t) as [|m term]; [done|]. cbn.
  destruct (Z.eqb_spec term 0); cbn; [done|]. by apply Z.ltb_lt; lia.
Qed.

Lemma counted_in flags c t :
  t ∈ counted currency age now flags c →
  ∃ k, ex_visible t = true ∧ (m_availableTransfers c !! k = Some t ∨ m_unconfirmedTransfers c !! k = Some t).
Proof.
  unfold counted. rewrite elem_of_app. intros [Hin|Hin].
  - apply list_elem_of_filter in Hin as [[Hv _]%Is_true_true%andb_true_iff ([k t'] & -> & Hin)%list_elem_of_fmap].
    apply elem_of_map_to_list in Hin. exists k. by split; [|left].
  - destruct (has_flag _ _); [|by apply elem_of_nil in Hin].
    apply list_elem_of_filter in Hin as [[Hv _]%Is_true_true%andb_true_iff ([k t'] & -> & Hin)%list_elem_of_fmap].
    apply elem_of_map_to_list in Hin. exists k. by split; [|right].
Qed.

Lemma elements_nodup (u : bool) (m : transfers) : (∀ k t, m !! k = Some t → transfer_ok u k t) → NoDup (snd <$> map_to_list m).
Proof.
  intros Hk. apply (NoDup_fmap_1 (λ t : Transfer, getTransactionOutputKey t)). rewrite <- list_fmap_compose.
  rewrite (list_fmap_ext _ fst); [apply NoDup_fst_map_to_list|].
  intros i [k t] Hi. apply list_elem_of_lookup_2, elem_of_map_to_list, Hk in Hi as [Hk' _]. done.
Qed.

Lemma counted_nodup flags c : shape age c → NoDup (counted currency age now flags c).
Proof.
  intros Hsh. unfold counted. apply list.NoDup_app. split_and!.
  - eapply list.NoDup_filter, elements_nodup, (shape_available _ _ Hsh).
  - intros t [_ ([k t'] & -> & Hin)%list_elem_of_fmap]%list_elem_of_filter Hin'. apply elem_of_map_to_list in Hin.
    destruct (has_flag _ _); [|by apply elem_of_nil in Hin'].
    apply list_elem_of_filter in Hin' as [_ ([k2 t2] & E & Hin')%list_elem_of_fmap]. apply elem_of_map_to_list in Hin'. cbn in E. subst t2.
    destruct (shape_available _ _ Hsh _ _ Hin) as [_ [Hne _]], (shape_unconfirmed _ _ Hsh _ _ Hin') as [_ [He _]]. done.
  - destruct (has_flag _ _); [|constructor]. eapply list.NoDup_filter, elements_nodup, (shape_unconfirmed _ _ Hsh).
Qed.

(** Of the visible outputs with a key image there is only one, and it is not spent. *)
Lemma visible_once ki c k k' t t' :
  visible ki c → is_key ki t → is_key ki t' → ex_visible t = true → ex_visible t' = true →
  (m_availableTransfers c !! k = Some t ∨ m_unconfirmedTransfers c !! k = Some t) →
  (m_availableTransfers c !! k' = Some t' ∨ m_unconfirmedTransfers c !! k' = Some t') →
  t = t' ∧ spent_part ki (m_spentTransfers c) = ∅.
Proof.
  intros (V1 & V2 & V3) Hk Hk' Hv Hv' Ht Ht'.
  assert (∀ (m : transfers) x (y : Transfer), m !! x = Some y → is_key ki y → part ki m !! x = Some y) as Hp by (intros; by apply part_lookup).
  destruct (decide (spent_part ki (m_spentTransfers c) = ∅)) as [Es|Es].
  2: { destruct (V1 Es) as (W1 & W2 & _). destruct Ht as [Ht|Ht]; apply Hp in Ht; try done.
       - by rewrite (W2 _ _ Ht) in Hv.
       - by rewrite (W1 _ _ Ht) in Hv. }
  split; [|done]. destruct (decide (part ki (m_availableTransfers c) = ∅)) as [Ea|Ea].
  - specialize (V3 Es Ea). assert (∀ x (y : Transfer), m_availableTransfers c !! x = Some y → is_key ki y → False) as Hno.
    { intros x y Hx Hy. apply (Hp _ _ _ Hx) in Hy. rewrite Ea in Hy. done. }
    destruct Ht as [Ht|Ht]; [by destruct (Hno _ _ Ht)|]. destruct Ht' as [Ht'|Ht']; [by destruct (Hno _ _ Ht')|].
    apply Hp in Ht, Ht'; [|done..]. assert (k' = k) as -> by (apply (proj1 (V3 _ _ Ht) Hv); by eexists). congruence.
  - destruct (V2 Es Ea) as (W1 & k0 & t0 & H0 & _ & Hmin).
    assert (∀ x (y : Transfer), m_unconfirmedTransfers c !! x = Some y → is_key ki y → ex_visible y = true → False) as Hno.
    { intros x y Hx Hy Hvy. apply (Hp _ _ _ Hx) in Hy. rewrite (W1 _ _ Hy) in Hvy. done. }
    assert (∀ x (y : Transfer), m_availableTransfers c !! x = Some y → is_key ki y → ex_visible y = true → y = t0) as Hone.
    { intros x y Hx Hy Hvy. apply (Hp _ _ _ Hx) in Hy. destruct (Hmin _ _ Hy) as [_ Hf].
      destruct (decide (x = k0)) as [->|Hne]; [congruence|]. rewrite (Hf Hne) in Hvy. done. }
    destruct Ht as [Ht|Ht]; [|by destruct (Hno _ _ Ht)]. destruct Ht' as [Ht'|Ht']; [|by destruct (Hno _ _ Ht')].
    by rewrite (Hone _ _ Ht), (Hone _ _ Ht').
Qed.

(** C13: no key image is counted twice in a balance, none that is spent is counted, and each
    unspent one with a confirmed output is counted with the earliest of its outputs. *)
Theorem balance_counts_once c :
  reachable c →
  (∀ flags, NoDup (counted currency age now flags c) ∧
     ∀ ki t t', t ∈ counted currency age now flags c → t' ∈ counted currency age now flags c → is_key ki t → is_key ki t' →
       t = t' ∧ ∀ k s, m_spentTransfers c !! k = Some s → ¬ is_key ki (st_output s)) ∧
  (∀ ki k t, m_availableTransfers c !! k = Some t → is_key ki t →
     (∀ k' s, m_spentTransfers c !! k' = Some s → ¬ is_key ki (st_output s)) →
     ∃ t', t' ∈ counted currency age now IncludeAll c ∧ is_key ki t' ∧ less_transfer t t' = false).
Proof.
  intros [[[Hsh Hv] _] _]%reachable_good. split.
  - intros flags. split; [by apply counted_nodup|]. intros ki t t' (k & Hvt & Ht)%counted_in (k' & Hvt' & Ht')%counted_in Hk Hk'.
    destruct (visible_once ki c k k' t t' (Hv ki)) as [-> Es]; [done..|]. split; [done|]. by apply spent_part_empty.
  - intros ki k t Ht Hk Hns. destruct (Hv ki) as (_ & V2 & _). destruct V2 as (_ & k0 & t0 & H0 & Hv0 & Hmin).
    + by apply spent_part_empty.
    + intros E. exact (proj1 (part_empty ki _) E k t Ht Hk).
    + apply part_lookup in H0 as [H0 Hk0]. exists t0. split_and!; [|done|].
      * unfold counted. apply elem_of_app. left. apply list_elem_of_filter. split.
        -- rewrite Hv0, included_all; [done|]. unfold is_key, getSpentOutputDescriptor in Hk0. by destruct (oi_target t0).
        -- apply list_elem_of_fmap. exists (k0, t0). split; [done|]. by apply elem_of_map_to_list.
      * apply (Hmin k t). by apply part_lookup.
Qed.

(** ** Unlocked outputs *)

(** An output that is locked up to a height, with heights in 32 bits. *)
Definition height_locked (t : Transfer) : Prop :=
  0 <= ex_unlockTime t < m_maxBlockHeight currency ∧ ex_blockHeight t + age + 1 < 2 ^ 32 ∧
  match oi_target t with MultisignatureTarget _ term => 0 <= term ∧ ex_blockHeight t + term < 2 ^ 32 | KeyTarget _ => True end.

Definition height_rules : Prop :=
  m_lockedTxAllowedDeltaBlocks currency = 1 ∧ m_maxBlockHeight currency <= 2 ^ 32 ∧ 0 <= age.

(** The height of the unlock job is the one from which on the output can be spent. *)
Lemma unlocked_height t c :
  height_rules → height_locked t → 0 <= ex_blockHeight t → ex_blockHeight t ≠ UNCONFIRMED → is_height (m_currentHeight c) →
  transfer_state currency age now t c = IncludeStateUnlocked ↔ unlock_height age t <= m_currentHeight c + 1.
Proof.
  intros (Hd & Hm & Hage) (Hu & Ha & Hterm) Hb Hne Hc. unfold is_height, WALLET_LEGACY_UNCONFIRMED_TRANSACTION_HEIGHT, UINT32_MAX in Hc.
  unfold transfer_state, unlock_height, makeTransferUnlockJob, isSpendTimeUnlocked. cbn [fst].
  rewrite (proj2 (Z.eqb_neq _ _) Hne). cbn [orb]. rewrite (proj2 (Z.ltb_lt _ _)) by lia. rewrite Hd.
  assert (∀ x, 0 <= x < 2 ^ 32 → u32 x = x) as H32 by (intros x Hx; apply u32_small; unfold in_range; lia).
  assert (∀ x, 0 <= x < 2 ^ 32 + 1 → u64 x = x) as H64 by (intros x Hx; apply u64_small; unfold in_range; lia).
  rewrite (H32 age), (H32 (ex_blockHeight t + age + 1)), (H64 (ex_blockHeight t + age)), (H64 (m_currentHeight c + 1)) by lia.
  rewrite (H32 (if ex_unlockTime t =? 0 then ex_blockHeight t else ex_unlockTime t)) by (case_bool; lia).
  unfold IncludeStateUnlocked, IncludeStateLocked, IncludeStateSoftLocked.
  destruct (oi_target t) as [|m term].
  - repeat case_bool; bool_to_prop; lia.
  - rewrite (H32 (ex_blockHeight t + term)), (H32 (m_currentHeight c + 1)) by lia.
    destruct (Z.leb_spec (ex_unlockTime t) (m_currentHeight c + 1)), (Z.eqb_spec term 0),
      (Z.leb_spec (ex_blockHeight t + term) (m_currentHeight c + 1)); cbn [andb negb]; repeat case_bool; lia.
Qed.

(** advancing the height reports exactly the outputs that become spendable by it, when they
    are locked by height. *)
Theorem advance_reports_unlocked height c :
  reachable c → height_rules → (∀ k t, m_availableTransfers c !! k = Some t → height_locked t) →
  0 < m_currentHeight c <= height → is_height height →
  ∃ os, advanceHeight height c = Ret (os, with_height height c) ∧
    ∀ o, o ∈ os ↔ ∃ k t, m_availableTransfers c !! k = Some t ∧ o = info_of t ∧
      transfer_state currency age now t c ≠ IncludeStateUnlocked ∧
      transfer_state currency age now t (with_height height c) = IncludeStateUnlocked.
Proof.
  intros [Hok Hc]%reachable_good Hrules Hlocked [Hpos Hle] Hh. pose proof Hok as ([Hsh _] & Htx & [_ La _]).
  destruct (doAdvanceHeight_spec age height c Hsh Hc Hh Hle) as (os & E & Hos). exists os. split; [exact E|].
  rewrite (proj2 (Z.eqb_neq _ _)) in Hos by lia. intros o. rewrite (Hos o).
  assert (∀ k t, m_availableTransfers c !! k = Some t →
    (m_currentHeight c + 1 < unlock_height age t <= height + 1 ↔
     transfer_state currency age now t c ≠ IncludeStateUnlocked ∧ transfer_state currency age now t (with_height height c) = IncludeStateUnlocked)) as Hiff.
  { intros k t Ht. destruct (shape_available _ _ Hsh _ _ Ht) as [_ [Hne _]]. destruct (La _ _ Ht) as (i & Hi & _ & Ei).
    pose proof (txs_height _ Htx i Hi) as Hr. rewrite !unlocked_height; try done; try (by eapply Hlocked); try lia. cbn. lia. }
  split; intros (k & t & Ht & Hr); exists k, t.
  - destruct Hr as [Hr ->]. split_and!; [done|done|by apply (Hiff k t Ht)..].
  - destruct Hr as [-> Hr]. split_and!; [done|by apply (Hiff k t Ht)..|done].
Qed.

(** C12: in every container that a wallet can reach the indices agree: outputs are in one of the
    three containers, with one unlock job for each available one, their transactions
    and spending transactions are stored in the order of heights, and of the outputs
    with one key image the right one is visible. *)
Theorem container_invariant c : reachable c → container_ok age c ∧ is_height (m_currentHeight c).
Proof. apply reachable_good. Qed.

(** asking for a spent output reads behind the end of the unconfirmed ones, in every
    container that a wallet can reach. *)
Theorem spent_transfer_aborts c h i s :
  reachable c → m_spentTransfers c !! (h, i) = Some s → getTransfer currency age now h i c = Abort.
Proof.
  intros [[[Hsh _] _] _]%reachable_good Hs. unfold getTransfer, deref.
  assert (m_unconfirmedTransfers c !! (h, i) = None) as Eu by (apply (shape_apart' _ _ Hsh (h, i)); by exists s).
  assert (m_availableTransfers c !! (h, i) = None) as Ea.
  { destruct (m_availableTransfers c !! (h, i)) as [t|] eqn:Et; [|done].
    destruct (shape_apart _ _ Hsh (h, i)) as [_ E]; [by exists t|]. by pose proof (eq_trans (eq_sym Hs) E). }
  cbv zeta. rewrite Ea, Eu, Hs. rewrite (shape_apart' _ _ Hsh (h, i) (ex_intro _ s Hs)). reflexivity.
Qed.
End History.

(** ** Witnesses: an output is received and spent *)

Definition toy_wallet_tx (ins : list TransactionInput) (amount : Z) (h : Hash) : TransactionPrefixImpl := {|
  m_txPrefix := {| version := 1; unlockTime := 0; inputs := ins;
                   outputs := [{| out_amount := amount; out_target := OutKey {| ko_key := toy 40 |} |}]; extra := [] |};
  m_extra := []; m_txHash := h |}.
Definition toy_transfer (ki : KeyImage) (amount index : Z) : TransactionOutputInformationIn := {|
  oi_info := {| oi_target := KeyTarget (toy 40); oi_amount := amount; oi_globalOutputIndex := index;
                oi_outputInTransaction := 0; oi_transactionHash := []; oi_transactionPublicKey := toy 11 |};
  oi_keyImage := ki |}.
Definition toy_block_info (height : Z) : TransactionBlockInfo :=
  {| tb_height := height; tb_timestamp := 0; tb_transactionIndex := 0 |}.

Definition toy_received := toy_wallet_tx [] 100 (toy 1).
Definition toy_payment := toy_wallet_tx [InKey {| ki_amount := 100; ki_outputIndexes := [7]; ki_keyImage := toy 5 |}] 60 (toy 2).

Definition toy_add_transaction (block : TransactionBlockInfo) (tx : TransactionPrefixImpl) ts c :=
  addTransaction (T := TransactionPrefixImpl) id 10 block tx ts [] c.
Definition container_of (r : outcome (bool * list TransactionOutputInformation * TransfersContainer)) : TransfersContainer :=
  match r with Ret (_, _, c) => c | _ => new_TransfersContainer end.

Definition toy_container1 :=
  container_of (toy_add_transaction (toy_block_info 5) toy_received [toy_transfer (toy 5) 100 7] new_TransfersContainer).
Definition toy_container2 :=
  container_of (toy_add_transaction (toy_block_info UINT32_MAX) toy_payment [toy_transfer (toy 6) 60 UINT32_MAX] toy_container1).

Lemma toy_added1 : toy_add_transaction (toy_block_info 5) toy_received [toy_transfer (toy 5) 100 7] new_TransfersContainer =
  Ret (true, [], toy_container1).
Proof. vm_compute. reflexivity. Qed.
Lemma toy_added2 : toy_add_transaction (toy_block_info UINT32_MAX) toy_payment [toy_transfer (toy 6) 60 UINT32_MAX] toy_container1 =
  Ret (true, [], toy_container2).
Proof. vm_compute. reflexivity. Qed.

Lemma toy_above1 : above 5 new_TransfersContainer.
Proof. split; [done|]. by intros i ?%elem_of_nil. Qed.
Lemma toy_order2 : in_order (toy_block_info UINT32_MAX) toy_container1.
Proof.
  split; [done|]. intros i Hi _. vm_compute in Hi. apply list_elem_of_singleton in Hi as ->. done.
Qed.

Lemma toy_reachable1 : reachable id 10 toy_container1.
Proof.
  eapply rtc_r; [apply rtc_refl|]. eapply step_add; [|exact toy_added1]. apply above_in_order. exact toy_above1.
Qed.
Lemma toy_reachable2 : reachable id 10 toy_container2.
Proof. eapply rtc_r; [exact toy_reachable1|]. eapply step_add; [|exact toy_added2]. exact toy_order2. Qed.

Lemma id_perm (l : list TransactionOutputKey) : id l ≡ₚ l.
Proof. done. Qed.

Lemma container_invariant_witness : container_ok 10 toy_container2 ∧ size (m_spentTransfers toy_container2) = 1%nat.
Proof. split; [apply (container_invariant id 10 id_perm), toy_reachable2|vm_compute; reflexivity]. Defined.

Lemma delete_undoes_add_witness : ∃ c2,
  deleteUnconfirmedTransaction id 10 (toy 2) toy_container2 = Ret (true, c2) ∧ restored toy_container1 c2.
Proof.
  destruct (delete_undoes_add id 10 id_perm (toy_block_info UINT32_MAX) toy_payment [toy_transfer (toy 6) 60 UINT32_MAX] []
    toy_container1 [] toy_container2 toy_reachable1 toy_order2 eq_refl toy_added2) as (h & c2 & Eh & E & Hr & _).
  injection Eh as <-. exists c2. split; [exact E|exact Hr].
Defined.

Lemma detach_undoes_add_witness : ∃ deleted locked c2,
  detach id 10 5 toy_container1 = Ret (deleted, locked, c2) ∧ restored new_TransfersContainer c2.
Proof.
  destruct (detach_undoes_add id 10 id_perm (toy_block_info 5) toy_received [toy_transfer (toy 5) 100 7] []
    new_TransfersContainer [] toy_container1 (rtc_refl _ _) toy_above1 toy_added1) as (h & ds & ls & c2 & _ & E & _ & Hr & _).
  exists ds, ls, c2. split; [exact E|exact Hr].
Defined.


Lemma balance_counts_once_witness : ∃ t' : TransactionOutputInformationEx, t' ∈ counted mainnet 10 0 IncludeAll toy_container1 ∧ is_key (toy 5) t'.
Proof.
  destruct (m_availableTransfers toy_container1 !! (toy 1, 0)) as [t|] eqn:Et; [|by vm_compute in Et].
  destruct (proj2 (balance_counts_once id mainnet 10 0 id_perm toy_container1 toy_reachable1) (toy 5) (toy 1, 0) t Et)
    as (t' & Hin & Hk & _).
  - vm_compute in Et. injection Et as <-. done.
  - intros k s Hs. vm_compute in Hs. done.
  - exists t'. split; [exact Hin|exact Hk].
Defined.

Lemma advance_reports_unlocked_witness : ∃ os, advanceHeight 15 toy_container1 = Ret (os, with_height 15 toy_container1) ∧ os ≠ [].
Proof.
  assert (height_rules mainnet 10) as Hrules by (split_and!; done).
  assert (0 < m_currentHeight toy_container1 <= 15) as Hheight by (vm_compute; by split).
  assert (∀ k t, m_availableTransfers toy_container1 !! k = Some t → height_locked mainnet 10 t) as Hlocked.
  { assert (map_Forall (λ _ t, bool_decide (ex_unlockTime t = 0 ∧ ex_blockHeight t = 5 ∧ oi_target t = KeyTarget (toy 40)) = true)
      (m_availableTransfers toy_container1)) as Hall by (apply (bool_decide_unpack _); vm_compute; exact I).
    intros k x Hx. pose proof (Hall k x Hx) as Hb. apply bool_decide_eq_true in Hb as (H1 & H2 & H3).
    unfold height_locked. rewrite H1, H2, H3. clear. by split_and!. }
  assert (is_height 15) as Hh by done.
  pose proof (advance_reports_unlocked id mainnet 10 0 id_perm 15 toy_container1 toy_reachable1 Hrules Hlocked Hheight Hh)
    as (os & E & Hos).
  exists os. split; [exact E|]. intros ->.
  destruct (m_availableTransfers toy_container1 !! (toy 1, 0)) as [t|] eqn:Et; [|by vm_compute in Et].
  assert (info_of t ∈ []) as Hin; [|by apply elem_of_nil in Hin].
  apply Hos. exists (toy 1, 0), t. split; [exact Et|]. split; [reflexivity|]. vm_compute in Et. injection Et as <-. by split; vm_compute.
Defined.

Lemma spent_transfer_aborts_witness : getTransfer mainnet 10 0 (toy 1) 0 toy_container2 = Abort.
Proof.
  destruct (m_spentTransfers toy_container2 !! (toy 1, 0)) as [s|] eqn:Es; [|by vm_compute in Es].
  exact (spent_transfer_aborts id mainnet 10 0 id_perm toy_container2 (toy 1) 0 s toy_reachable2 Es).
Defined.

(** The jobs that are rebuilt name spent outputs too, so that the next block that reaches
    such a job ends in an assertion. *)
Example rebuilt_jobs_abort :
  doAdvanceHeight 15 (with_transfers (m_unconfirmedTransfers toy_container2) (m_availableTransfers toy_container2)
    (m_spentTransfers toy_container2)
    (rebuildTransfersUnlockJobs id 10 (m_availableTransfers toy_container2) (m_spentTransfers toy_container2)) toy_container2) = Abort.
Proof. vm_compute. reflexivity. Qed.
