(* ===== verification/TransfersStorage.v ===== *)
(** * The stored form of the transfers of an account ([Transfers/TransfersContainer.cpp])

    Saving and loading with the binary serializers. A container that is saved and
    loaded is the same again, and so is one whose unlock jobs are rebuilt, as far as
    its outputs are available. *)

From S2P Require Import Prelude Varint Streams Config CryptoNoteTypes Crypto Currency Serialization CryptoNoteSerialization.
From S2P Require Import TransactionExtra FormatUtils TransactionObjects Transfers TransfersInvariant TransfersTheorems TransfersHistory.
From stdpp Require Import gmap.

Local Open Scope Z_scope.

Definition TRANSFERS_CONTAINER_STORAGE_VERSION : Z := 1.

(** The values of the enumeration of output types. *)
Definition output_type_value (t : OutputTarget) : Z :=
  match t with KeyTarget _ => 1 | MultisignatureTarget _ _ => 2 end.

Section Serialize.
Context {St : Type} `{!ISerializer St}.

Definition serializeGlobalOutputIndex := serializeBlockHeight (St := St).

Definition serialize_TransactionInformation (ti : TransactionInformation) : M St TransactionInformation :=
  '(transactionHash, _) ← serialize_hash (ti_transactionHash ti) EmptyString;
  '(publicKey, _) ← serialize_key (ti_publicKey ti) EmptyString;
  blockHeight ← serializeBlockHeight (ti_blockHeight ti) EmptyString;
  '(timestamp, _) ← ser_uint64 (ti_timestamp ti) EmptyString;
  '(unlockTime, _) ← ser_uint64 (ti_unlockTime ti) EmptyString;
  '(totalAmountIn, _) ← ser_uint64 (ti_totalAmountIn ti) EmptyString;
  '(totalAmountOut, _) ← ser_uint64 (ti_totalAmountOut ti) EmptyString;
  extra ← serializeAsBinary (ti_extra ti) EmptyString;
  '(paymentId, _) ← serialize_hash (ti_paymentId ti) EmptyString;
  '(messages, _) ← serializeContainer [] ser_string (ti_messages ti) EmptyString;
  mret {| ti_transactionHash := transactionHash; ti_publicKey := publicKey; ti_blockHeight := blockHeight;
          ti_timestamp := timestamp; ti_unlockTime := unlockTime; ti_totalAmountIn := totalAmountIn;
          ti_totalAmountOut := totalAmountOut; ti_extra := extra; ti_paymentId := paymentId; ti_messages := messages |}.

Definition serialize_TransactionOutputKey (k : TransactionOutputKey) : M St TransactionOutputKey :=
  '(transactionHash, _) ← serialize_hash (fst k) "transactionHash";
  '(outputInTransaction, _) ← ser_uint32 (snd k) "outputInTransaction";
  mret (transactionHash, outputInTransaction).

(** The fields of the union that the type has; an output of another type, which has no
    value here, is [Abort]. *)
Definition serialize_target (type : Z) (t : OutputTarget) : M St OutputTarget :=
  if type =? 1 then
    '(outputKey, _) ← serialize_key (match t with KeyTarget k => k | _ => replicate 32 0 end) EmptyString;
    mret (KeyTarget outputKey)
  else if type =? 2 then
    '(requiredSignatures, _) ← ser_uint32 (match t with MultisignatureTarget r _ => r | _ => 0 end) EmptyString;
    '(term, _) ← ser_uint32 (match t with MultisignatureTarget _ d => d | _ => 0 end) EmptyString;
    mret (MultisignatureTarget requiredSignatures term)
  else λ _, Abort.

Definition serialize_TransactionOutputInformationEx (o : TransactionOutputInformationEx) : M St TransactionOutputInformationEx :=
  '(type, _) ← ser_uint8 (output_type_value (oi_target o)) "type";
  '(amount, _) ← ser_uint64 (oi_amount o) EmptyString;
  globalOutputIndex ← serializeGlobalOutputIndex (oi_globalOutputIndex o) EmptyString;
  '(outputInTransaction, _) ← ser_uint32 (oi_outputInTransaction o) EmptyString;
  '(transactionPublicKey, _) ← serialize_key (oi_transactionPublicKey o) EmptyString;
  '(keyImage, _) ← serialize_key (oi_keyImage o) EmptyString;
  '(unlockTime, _) ← ser_uint64 (ex_unlockTime o) EmptyString;
  blockHeight ← serializeBlockHeight (ex_blockHeight o) EmptyString;
  '(transactionIndex, _) ← ser_uint32 (ex_transactionIndex o) EmptyString;
  '(transactionHash, _) ← serialize_hash (oi_transactionHash o) EmptyString;
  '(visible, _) ← ser_bool (ex_visible o) EmptyString;
  target ← serialize_target type (oi_target o);
  mret {| ex_in := {| oi_info := {| oi_target := target; oi_amount := amount; oi_globalOutputIndex := globalOutputIndex;
                                    oi_outputInTransaction := outputInTransaction; oi_transactionHash := transactionHash;
                                    oi_transactionPublicKey := transactionPublicKey |};
                      oi_keyImage := keyImage |};
          ex_unlockTime := unlockTime; ex_blockHeight := blockHeight; ex_transactionIndex := transactionIndex;
          ex_visible := visible |}.

Definition serialize_TransactionBlockInfo (b : TransactionBlockInfo) : M St TransactionBlockInfo :=
  height ← serializeBlockHeight (tb_height b) "height";
  '(timestamp, _) ← ser_uint64 (tb_timestamp b) "timestamp";
  '(transactionIndex, _) ← ser_uint32 (tb_transactionIndex b) "transactionIndex";
  mret {| tb_height := height; tb_timestamp := timestamp; tb_transactionIndex := transactionIndex |}.

Definition serialize_SpentTransactionOutput (s : SpentTransactionOutput) : M St SpentTransactionOutput :=
  output ← serialize_TransactionOutputInformationEx (st_output s);
  '(spendingBlock, _) ← in_object serialize_TransactionBlockInfo (st_spendingBlock s) "spendingBlock";
  '(spendingTransactionHash, _) ← serialize_hash (st_spendingTransactionHash s) "spendingTransactionHash";
  '(inputInTransaction, _) ← ser_uint32 (st_inputInTransaction s) "inputInTransaction";
  mret {| st_output := output; st_spendingBlock := spendingBlock; st_spendingTransactionHash := spendingTransactionHash;
          st_inputInTransaction := inputInTransaction |}.

Definition serialize_TransferUnlockJob (job : TransferUnlockJob) : M St TransferUnlockJob :=
  '(unlockHeight, _) ← ser_uint32 (fst job) "unlockHeight";
  '(key, _) ← in_object serialize_TransactionOutputKey (snd job) "transactionOutputId";
  mret (unlockHeight, key).

Definition writeSequence {T} (serialize : T → M St T) (l : list T) (name : string) : M St unit :=
  beginArray (Z.of_nat (length l)) name;;
  ser_items (in_object serialize) l;;
  endArray.

(** [d] stands for the fresh elements. *)
Definition readSequence {T} (d : T) (serialize : T → M St T) (name : string) : M St (list T) :=
  '(size, _) ← beginArray 0 name;
  l ← ser_items (in_object serialize) (replicate (Z.to_nat size) d);
  endArray;; mret l.
End Serialize.

(** ** Inserting into the indices

    [std::inserter] leaves out an element whose key is there. *)

Definition insert_transactions (l : list TransactionInformation) : list TransactionInformation :=
  foldl (λ txs i, if bool_decide (ti_transactionHash i ∈ ti_transactionHash <$> txs) then txs
                  else insert_by ti_blockHeight i txs) [] l.

Definition insert_transfers (l : list TransactionOutputInformationEx) : gmap TransactionOutputKey TransactionOutputInformationEx :=
  foldl (λ (m : gmap TransactionOutputKey TransactionOutputInformationEx) (t : TransactionOutputInformationEx),
    if bool_decide (is_Some (m !! getTransactionOutputKey t)) then m else <[getTransactionOutputKey t := t]> m) ∅ l.

Definition insert_spents (l : list SpentTransactionOutput) : gmap TransactionOutputKey SpentTransactionOutput :=
  foldl (λ (m : gmap TransactionOutputKey SpentTransactionOutput) (s : SpentTransactionOutput),
    if bool_decide (is_Some (m !! getTransactionOutputKey s)) ||
       bool_decide (¬ map_Forall (λ _ s', getSpentOutputDescriptor (st_output s') ≠ getSpentOutputDescriptor (st_output s)) m)
    then m else <[getTransactionOutputKey s := s]> m) ∅ l.

Definition insert_jobs (l : list TransferUnlockJob) : list TransferUnlockJob :=
  foldl (λ jobs job, if bool_decide (snd job ∈ snd <$> jobs) then jobs else insert_by fst job jobs) [] l.

Section Storage.
(** The order of the elements of the hash indices. *)
Variable arrange : list TransactionOutputKey → list TransactionOutputKey.
Variable arrange_transactions : list TransactionInformation → list TransactionInformation.
Variable transactionSpendableAge : Z.
(** What fresh elements hold. *)
Variable (fresh_info : TransactionInformation) (fresh_output : TransactionOutputInformationEx).
Variable (fresh_spent : SpentTransactionOutput) (fresh_job : TransferUnlockJob).

Definition save {St} `{!ISerializer St} (c : TransfersContainer) : M St unit :=
  ser_uint32 TRANSFERS_CONTAINER_STORAGE_VERSION "version";;
  ser_uint32 (m_currentHeight c) "height";;
  writeSequence serialize_TransactionInformation (arrange_transactions (m_transactions c)) "transactions";;
  writeSequence serialize_TransactionOutputInformationEx (elements_of arrange (m_unconfirmedTransfers c)) "unconfirmedTransfers";;
  writeSequence serialize_TransactionOutputInformationEx (elements_of arrange (m_availableTransfers c)) "availableTransfers";;
  writeSequence serialize_SpentTransactionOutput (elements_of arrange (m_spentTransfers c)) "spentTransfers";;
  writeSequence serialize_TransferUnlockJob (m_transfersUnlockJobs c) "transfersUnlockJobs".

Definition load {St} `{!ISerializer St} : M St TransfersContainer :=
  '(version, _) ← ser_uint32 0 "version";
  if TRANSFERS_CONTAINER_STORAGE_VERSION <? version then throw "Unsupported transfers storage version"
  else
    '(currentHeight, _) ← ser_uint32 0 "height";
    transactions ← readSequence fresh_info serialize_TransactionInformation "transactions";
    unconfirmedTransfers ← readSequence fresh_output serialize_TransactionOutputInformationEx "unconfirmedTransfers";
    availableTransfers ← readSequence fresh_output serialize_TransactionOutputInformationEx "availableTransfers";
    spentTransfers ← readSequence fresh_spent serialize_SpentTransactionOutput "spentTransfers";
    let available := insert_transfers availableTransfers in
    let spent := insert_spents spentTransfers in
    jobs ← (if negb (version =? 0)
            then l ← readSequence fresh_job serialize_TransferUnlockJob "transfersUnlockJobs"; mret (insert_jobs l)
            else mret (rebuildTransfersUnlockJobs arrange transactionSpendableAge available spent));
    mret {| m_transactions := insert_transactions transactions; m_unconfirmedTransfers := insert_transfers unconfirmedTransfers;
            m_availableTransfers := available; m_spentTransfers := spent; m_transfersUnlockJobs := jobs;
            m_currentHeight := currentHeight |}.
End Storage.

(** ** What can be stored *)

Definition enc_TransactionInformation (i : TransactionInformation) : Prop :=
  is_pod 32 (ti_transactionHash i) ∧ is_pod 32 (ti_publicKey i) ∧ is_u32 (ti_blockHeight i) ∧ is_u64 (ti_timestamp i) ∧
  is_u64 (ti_unlockTime i) ∧ is_u64 (ti_totalAmountIn i) ∧ is_u64 (ti_totalAmountOut i) ∧
  (is_bytes (ti_extra i) ∧ small_list (ti_extra i)) ∧ is_pod 32 (ti_paymentId i) ∧
  Forall (λ m, is_bytes m ∧ small_list m) (ti_messages i) ∧ small_list (ti_messages i).

Definition enc_target (t : OutputTarget) : Prop :=
  match t with KeyTarget k => is_pod 32 k | MultisignatureTarget r d => is_u32 r ∧ is_u32 d end.

Definition enc_output (o : TransactionOutputInformationEx) : Prop :=
  is_u64 (oi_amount o) ∧ is_u32 (oi_globalOutputIndex o) ∧ is_u32 (oi_outputInTransaction o) ∧
  is_pod 32 (oi_transactionPublicKey o) ∧ is_pod 32 (oi_keyImage o) ∧ is_u64 (ex_unlockTime o) ∧
  is_u32 (ex_blockHeight o) ∧ is_u32 (ex_transactionIndex o) ∧ is_pod 32 (oi_transactionHash o) ∧ enc_target (oi_target o).

Definition enc_block_info (b : TransactionBlockInfo) : Prop :=
  is_u32 (tb_height b) ∧ is_u64 (tb_timestamp b) ∧ is_u32 (tb_transactionIndex b).

Definition enc_spent (s : SpentTransactionOutput) : Prop :=
  enc_output (st_output s) ∧ enc_block_info (st_spendingBlock s) ∧ is_pod 32 (st_spendingTransactionHash s) ∧
  is_u32 (st_inputInTransaction s).

Definition enc_job (job : TransferUnlockJob) : Prop := is_u32 (fst job) ∧ is_pod 32 (fst (snd job)) ∧ is_u32 (snd (snd job)).

(** A container within the limits of the format. *)
Definition storable (c : TransfersContainer) : Prop :=
  is_u32 (m_currentHeight c) ∧
  (Forall enc_TransactionInformation (m_transactions c) ∧ small_list (m_transactions c)) ∧
  (map_Forall (λ _ t, enc_output t) (m_unconfirmedTransfers c) ∧ Z.of_nat (size (m_unconfirmedTransfers c)) <= max_read_size) ∧
  (map_Forall (λ _ t, enc_output t) (m_availableTransfers c) ∧ Z.of_nat (size (m_availableTransfers c)) <= max_read_size) ∧
  (map_Forall (λ _ s, enc_spent s) (m_spentTransfers c) ∧ Z.of_nat (size (m_spentTransfers c)) <= max_read_size) ∧
  (Forall enc_job (m_transfersUnlockJobs c) ∧ small_list (m_transfersUnlockJobs c)).

#[export] Instance enc_target_dec t : Decision (enc_target t).
Proof. destruct t; cbn; apply _. Defined.
#[export] Instance storable_dec c : Decision (storable c).
Proof.
  unfold storable, enc_TransactionInformation, enc_spent, enc_output, enc_block_info, enc_job. apply _.
Defined.

(** ** Round trips of the structures *)

#[local] Opaque bis_varint bis_string bis_binary bis_beginArray bis_bool.
#[local] Opaque bos_varint bos_string bos_binary bos_bool reads writes.

(** Reads whose pieces are hypotheses, each for any earlier value. *)
Ltac reads_pieces :=
  intros ?; match goal with |- reads ?m _ _ => let h := head_of m in unfold h end;
  repeat (eapply reads_bind; [lazymatch goal with |- reads _ ?b _ => match goal with R : ∀ v, reads _ b _ |- _ => apply R end end|cbv beta match]); apply reads_ret.

Section RoundTrips.
Context {Si So : Type} `{LawfulInput Si} `{LawfulOutput So}.
Abbreviation RI := (M (BinaryInputStreamSerializer Si)).
Abbreviation WO := (M (BinaryOutputStreamSerializer So)).

(** [w] writes what [r] reads back. *)
Definition round {T} (r : T → RI T) (w : T → WO T) (ok : T → Prop) : Prop :=
  ∀ v, ok v → ∃ bs, writes (w v) bs v ∧ ∀ v0, reads (r v0) bs v.

Lemma blockHeight_round name :
  round (λ v, serializeBlockHeight v name) (λ v, serializeBlockHeight v name) is_u32.
Proof.
  intros v Hv. unfold in_range in Hv. exists (write_varint v). split.
  - rewrite <- (app_nil_r (write_varint v)). refine (writes_bind _ _ _ [] (v, true) v _ _).
    + apply varint_writes. unfold in_range. lia.
    + apply writes_ret.
  - intros v0. rewrite <- (app_nil_r (write_varint v)). refine (reads_bind _ _ _ [] (v, true) v _ _).
    + apply varint_reads; [lia|]. unfold in_range. lia.
    + cbv beta match. unfold UINT64_MAX, UINT32_MAX. rewrite (proj2 (Z.eqb_neq _ _)) by lia.
      rewrite (proj2 (Z.ltb_ge _ _)) by lia. cbn [andb]. rewrite u32_small by (unfold in_range; lia). apply reads_ret.
Qed.

Lemma globalIndex_round name :
  round (λ v, serializeGlobalOutputIndex v name) (λ v, serializeGlobalOutputIndex v name) is_u32.
Proof. apply blockHeight_round. Qed.

Lemma messages_round name : ∀ l, Forall (λ m, is_bytes m ∧ small_list m) l ∧ small_list l →
  ∃ bs, writes (serializeContainer (St := BinaryOutputStreamSerializer So) [] ser_string l name) bs (l, true) ∧
    ∀ v0, reads (serializeContainer (St := BinaryInputStreamSerializer Si) [] ser_string v0 name) bs (l, true).
Proof. intros l Hl. apply (ncodec_rt _ _ _ (container_ncodec _ _ _ string_ncodec [])). exact Hl. Qed.

Ltac piece Hr Hok W R :=
  let bs := fresh "bs" in destruct (Hr _ Hok) as (bs & W & R); cbv beta in W, R.

Lemma bool_field b name : ∃ bs, writes (ser_bool (St := BinaryOutputStreamSerializer So) b name) bs (b, true) ∧
  ∀ b0, reads (ser_bool (St := BinaryInputStreamSerializer Si) b0 name) bs (b, true).
Proof. apply bool_rt. Qed.

Lemma TransactionInformation_round :
  round serialize_TransactionInformation serialize_TransactionInformation enc_TransactionInformation.
Proof.
  intros [h p b t u ai ao e pid ms] (Hh & Hp & Hb & Ht & Hu & Hai & Hao & He & Hpid & Hms). cbn in Hh, Hp, Hb, Ht, Hu, Hai, Hao, He, Hpid, Hms.
  field hash_nc Hh EmptyString W1 R1. field key_nc Hp EmptyString W2 R2. piece (blockHeight_round EmptyString) Hb W3 R3.
  field uint64_nc Ht EmptyString W4 R4. field uint64_nc Hu EmptyString W5 R5. field uint64_nc Hai EmptyString W6 R6.
  field uint64_nc Hao EmptyString W7 R7. piece (codec_rt _ _ _ (bytes_codec EmptyString)) He W8 R8.
  field hash_nc Hpid EmptyString W9 R9. piece (messages_round EmptyString) Hms W10 R10.
  eexists. split; [writes_seq|reads_pieces].
Qed.

Lemma TransactionOutputKey_round :
  round serialize_TransactionOutputKey serialize_TransactionOutputKey (λ k, is_pod 32 (fst k) ∧ is_u32 (snd k)).
Proof.
  intros [h i] (Hh & Hi). cbn in Hh, Hi. field hash_nc Hh "transactionHash"%string W1 R1.
  field uint32_nc Hi "outputInTransaction"%string W2 R2. eexists. split; [writes_seq|reads_pieces].
Qed.

Lemma target_round t : enc_target t → ∃ bs,
  writes (serialize_target (St := BinaryOutputStreamSerializer So) (output_type_value t) t) bs t ∧
  ∀ t0, reads (serialize_target (St := BinaryInputStreamSerializer Si) (output_type_value t) t0) bs t.
Proof.
  destruct t as [k|r d]; cbn [enc_target output_type_value].
  - intros Hk. field key_nc Hk EmptyString W R. eexists. split; [writes_seq|reads_pieces].
  - intros [Hr Hd]. field uint32_nc Hr EmptyString W1 R1. field uint32_nc Hd EmptyString W2 R2.
    eexists. split; [writes_seq|reads_pieces].
Qed.

Lemma output_round :
  round serialize_TransactionOutputInformationEx serialize_TransactionOutputInformationEx enc_output.
Proof.
  intros [[[tg a gi oi h pk] ki] u b ti v] (Ha & Hgi & Hoi & Hpk & Hki & Hu & Hb & Hti & Hh & Htg).
  cbn in Ha, Hgi, Hoi, Hpk, Hki, Hu, Hb, Hti, Hh, Htg.
  assert (in_range 8 (output_type_value tg)) as Hty by (by destruct tg). field uint8_nc Hty "type"%string W0 R0.
  field uint64_nc Ha EmptyString W1 R1. piece (globalIndex_round EmptyString) Hgi W2 R2. field uint32_nc Hoi EmptyString W3 R3.
  field key_nc Hpk EmptyString W4 R4. field key_nc Hki EmptyString W5 R5. field uint64_nc Hu EmptyString W6 R6.
  piece (blockHeight_round EmptyString) Hb W7 R7. field uint32_nc Hti EmptyString W8 R8. field hash_nc Hh EmptyString W9 R9.
  destruct (bool_field v EmptyString) as (bs10 & W10 & R10). piece target_round Htg W11 R11.
  eexists. split; [writes_seq|reads_pieces].
Qed.

Lemma block_info_round :
  round serialize_TransactionBlockInfo serialize_TransactionBlockInfo enc_block_info.
Proof.
  intros [h t i] (Hh & Ht & Hi). cbn in Hh, Ht, Hi. piece (blockHeight_round "height"%string) Hh W1 R1.
  field uint64_nc Ht "timestamp"%string W2 R2. field uint32_nc Hi "transactionIndex"%string W3 R3.
  eexists. split; [writes_seq|reads_pieces].
Qed.

Lemma spent_round : round serialize_SpentTransactionOutput serialize_SpentTransactionOutput enc_spent.
Proof.
  intros [o b h i] (Ho & Hb & Hh & Hi). cbn in Ho, Hb, Hh, Hi. piece output_round Ho W1 R1.
  destruct (object_round _ _ _ block_info_round b "spendingBlock"%string Hb) as (bs2 & W2 & R2).
  field hash_nc Hh "spendingTransactionHash"%string W3 R3. field uint32_nc Hi "inputInTransaction"%string W4 R4.
  eexists. split; [writes_seq|reads_pieces].
Qed.

Lemma job_round : round serialize_TransferUnlockJob serialize_TransferUnlockJob enc_job.
Proof.
  intros [h k] (Hh & Hk). cbn in Hh, Hk. field uint32_nc Hh "unlockHeight"%string W1 R1.
  destruct (object_round _ _ _ TransactionOutputKey_round k "transactionOutputId"%string Hk) as (bs2 & W2 & R2).
  eexists. split; [writes_seq|reads_pieces].
Qed.

Lemma sequence_round {T} (d : T) (r : T → RI T) w ok l name :
  round r w ok → Forall ok l → Z.of_nat (length l) <= max_read_size →
  ∃ bs, writes (writeSequence w l name) bs tt ∧ reads (readSequence d r name) bs l.
Proof.
  intros Hr Hl Hs. destruct (items_rt _ _ _ l (object_round _ _ _ Hr) Hl) as (bs2 & W2 & R2).
  destruct (ncodec_rt _ _ _ beginArray_ncodec (Z.of_nat (length l)) name ltac:(cbv beta; lia)) as (bs1 & W1 & R1).
  exists (bs1 ++ bs2). split.
  - unfold writeSequence. eapply writes_bind; [exact W1|]. cbv beta. rewrite <- (app_nil_r bs2).
    eapply writes_bind; [exact W2|]. apply writes_ret.
  - unfold readSequence. eapply reads_bind; [apply R1|]. cbv beta match. rewrite Nat2Z.id.
    exact (reads_bind_ret _ (λ x, x) bs2 l (R2 (replicate (length l) d) (length_replicate _ _))).
Qed.
End RoundTrips.

(** ** The indices that are built again *)

Section Insertion.
Context {A : Type} (key : A → TransactionOutputKey) (reject : gmap TransactionOutputKey A → A → bool) (L : list A).
Hypothesis accepts : ∀ m x, (∀ k y, m !! k = Some y → y ∈ L ∧ key y = k) → x ∈ L → m !! key x = None → reject m x = false.

Lemma fold_insert l : ∀ m, (∀ x, x ∈ l → x ∈ L) → (∀ k y, m !! k = Some y → y ∈ L ∧ key y = k) → NoDup (key <$> l) →
  (∀ x, x ∈ l → m !! key x = None) →
  ∀ k y, foldl (λ m x, if reject m x then m else <[key x := x]> m) m l !! k = Some y ↔ m !! k = Some y ∨ (y ∈ l ∧ key y = k).
Proof.
  induction l as [|x l IH]; intros m HL Hm Hnd Hnew k y; cbn [foldl].
  { split; [by left|]. intros [|[Hin _]]; [done|by apply elem_of_nil in Hin]. }
  rewrite fmap_cons in Hnd. apply list.NoDup_cons in Hnd as [Hx Hnd]. rewrite accepts; [|done|by apply HL; left|by apply Hnew; left].
  assert (∀ z, z ∈ l → key z ≠ key x) as Hne by (intros z Hz E; apply Hx; rewrite <- E; by apply list_elem_of_fmap_2).
  rewrite IH; [|intros z Hz; apply HL; by right| |done|].
  - rewrite lookup_insert_Some, elem_of_cons. split.
    + intros [[[<- <-]|[_ Hk]]|[Hin E]]; [right; by split; [left|]|by left|right; by split; [right|]].
    + intros [Hk|[[->|Hin] E]]; [|left; left; by split|right; by split].
      left. right. split; [|done]. intros E. rewrite <- E, Hnew in Hk; [done|by left].
  - intros k' z [[<- <-]|[_ Hz]]%lookup_insert_Some; [split; [apply HL; by left|done]|by apply Hm].
  - intros z Hz. rewrite lookup_insert_ne by (intros E; by destruct (Hne z Hz)). apply Hnew. by right.
Qed.
End Insertion.

Section Elements.
Variable arrange : list TransactionOutputKey → list TransactionOutputKey.
Hypothesis arrange_perm : ∀ l, arrange l ≡ₚ l.
Context {A : Type}.
Implicit Types m : gmap TransactionOutputKey A.

Lemma elem_of_elements m x : x ∈ elements_of arrange m ↔ ∃ k, m !! k = Some x.
Proof.
  unfold elements_of. rewrite list_elem_of_omap. split.
  - intros (k & _ & Hk). by exists k.
  - intros (k & Hk). exists k. split; [|done]. rewrite arrange_perm. apply list_elem_of_fmap. exists (k, x).
    split; [done|]. by apply elem_of_map_to_list.
Qed.

Lemma arranged_key m k : k ∈ arrange (fst <$> map_to_list m) → is_Some (m !! k).
Proof.
  intros Hk. rewrite arrange_perm in Hk. apply list_elem_of_fmap in Hk as ([k' x] & -> & Hk).
  apply elem_of_map_to_list in Hk. by exists x.
Qed.

Lemma keys_of_elements (key : A → TransactionOutputKey) m :
  (∀ k x, m !! k = Some x → key x = k) → key <$> elements_of arrange m = arrange (fst <$> map_to_list m).
Proof.
  intros Hkey. unfold elements_of.
  pose proof (arranged_key m) as Hin.
  induction (arrange _) as [|k ks IH]; [done|]. cbn. destruct (Hin k ltac:(by left)) as [x Hx]. rewrite Hx. cbn.
  rewrite (Hkey _ _ Hx), IH; [done|]. intros k' Hk'. apply Hin. by right.
Qed.

Lemma elements_nodup_keys (key : A → TransactionOutputKey) m :
  (∀ k x, m !! k = Some x → key x = k) → NoDup (key <$> elements_of arrange m).
Proof. intros Hkey. rewrite keys_of_elements by done. rewrite arrange_perm. apply NoDup_fst_map_to_list. Qed.

Lemma length_elements m : length (elements_of arrange m) = size m.
Proof.
  unfold elements_of.
  pose proof (arranged_key m) as Hin.
  replace (size m) with (length (arrange (fst <$> map_to_list m))).
  2: { rewrite (Permutation_length (arrange_perm _)), length_fmap. apply length_map_to_list. }
  induction (arrange _) as [|k ks IH]; [done|]. cbn. destruct (Hin k ltac:(by left)) as [x Hx]. rewrite Hx. cbn.
  f_equal. apply IH. intros k' Hk'. apply Hin. by right.
Qed.

(** Inserting the elements gives the container again. *)
Lemma insert_elements (key : A → TransactionOutputKey) reject m :
  (∀ k x, m !! k = Some x → key x = k) →
  (∀ m' x, (∀ k y, m' !! k = Some y → y ∈ elements_of arrange m ∧ key y = k) → x ∈ elements_of arrange m →
     m' !! key x = None → reject m' x = false) →
  foldl (λ m x, if reject m x : bool then m else <[key x := x]> m) ∅ (elements_of arrange m) = m.
Proof.
  intros Hkey Hacc. apply map_eq. intros k. apply option_eq. intros y.
  rewrite (fold_insert key reject (elements_of arrange m) Hacc);
    [|done|by intros k' z Hz|by apply elements_nodup_keys|by intros x _].
  rewrite elem_of_elements. split.
  - intros [Hk|[(k' & Hk') Hy]]; [done|]. by rewrite <- Hy, (Hkey _ _ Hk').
  - intros Hk. right. split; [by exists k|by apply Hkey].
Qed.

Lemma elements_forall (P : A → Prop) m : map_Forall (λ _ x, P x) m → Forall P (elements_of arrange m).
Proof.
  intros Hm. apply List.Forall_forall. intros x Hx. apply list_elem_of_In, elem_of_elements in Hx as [k Hk]. by apply (Hm k).
Qed.
End Elements.

Section OrderedInsertion.
Context {A B : Type} `{EqDecision B} (order : A → Z) (name : A → B).

Definition insert_all (l acc : list A) : list A :=
  foldl (λ acc x, if bool_decide (name x ∈ name <$> acc) then acc else insert_by order x acc) acc l.

Lemma insert_all_perm l : ∀ acc, NoDup (name <$> acc ++ l) → insert_all l acc ≡ₚ acc ++ l.
Proof.
  induction l as [|x l IH]; intros acc Hnd; cbn [insert_all foldl]; [by rewrite app_nil_r|].
  rewrite bool_decide_eq_false_2.
  2: { intros Hin. rewrite fmap_app, fmap_cons in Hnd. apply list.NoDup_app in Hnd as (_ & Hd & _). apply (Hd _ Hin). by left. }
  change (insert_all l (insert_by order x acc) ≡ₚ acc ++ x :: l). rewrite IH.
  - rewrite insert_by_perm. cbn. by rewrite Permutation_middle.
  - rewrite insert_by_perm. cbn. rewrite <- fmap_cons, Permutation_middle. done.
Qed.

Lemma insert_all_ordered l : ∀ acc, ordered order acc → ordered order (insert_all l acc).
Proof.
  induction l as [|x l IH]; intros acc Ho; cbn [insert_all foldl]; [done|]. apply IH. case_bool; [done|]. by apply insert_by_ordered.
Qed.

Lemma insert_by_last x acc : (∀ y, y ∈ acc → order y <= order x) → insert_by order x acc = acc ++ [x].
Proof.
  induction acc as [|y acc IH]; intros Hle; cbn [insert_by app]; [done|].
  rewrite (proj2 (Z.ltb_ge _ _)) by (apply Hle; by left). f_equal. apply IH. intros z Hz. apply Hle. by right.
Qed.

(** An ordered list is built again as it was. *)
Lemma insert_all_same l : ∀ acc, NoDup (name <$> acc ++ l) → ordered order (acc ++ l) → insert_all l acc = acc ++ l.
Proof.
  induction l as [|x l IH]; intros acc Hnd Ho; cbn [insert_all foldl]; [by rewrite app_nil_r|].
  rewrite bool_decide_eq_false_2.
  2: { intros Hin. rewrite fmap_app, fmap_cons in Hnd. apply list.NoDup_app in Hnd as (_ & Hd & _). apply (Hd _ Hin). by left. }
  rewrite insert_by_last.
  - change (insert_all l (acc ++ [x]) = acc ++ x :: l). rewrite IH, <- app_assoc; [done|by rewrite <- app_assoc..].
  - intros y (i & Hi)%list_elem_of_lookup. apply (Ho i (length acc)).
    + by apply lookup_lt_Some in Hi.
    + by apply lookup_app_l_Some.
    + by rewrite lookup_app_r, Nat.sub_diag by lia.
Qed.
End OrderedInsertion.

(** ** Saving and loading *)

Section SaveLoad.
Context {Si So : Type} `{LawfulInput Si} `{LawfulOutput So}.
Variable arrange : list TransactionOutputKey → list TransactionOutputKey.
Variable arrange_transactions : list TransactionInformation → list TransactionInformation.
Variable age : Z.
Variable (fresh_info : TransactionInformation) (fresh_output : TransactionOutputInformationEx).
Variable (fresh_spent : SpentTransactionOutput) (fresh_job : TransferUnlockJob).
Hypothesis arrange_perm : ∀ l, arrange l ≡ₚ l.
Hypothesis arrange_transactions_perm : ∀ l, arrange_transactions l ≡ₚ l.

Lemma insert_transfers_elements (u : bool) (m : transfers) :
  (∀ k t, m !! k = Some t → transfer_ok u k t) → insert_transfers (elements_of arrange m) = m.
Proof.
  intros Hok. apply (insert_elements arrange arrange_perm (λ t : Transfer, getTransactionOutputKey t)
    (λ m t, bool_decide (is_Some (m !! getTransactionOutputKey t)))).
  - intros k t Ht. apply (Hok k t Ht).
  - intros m' t _ _ Hn. apply bool_decide_eq_false. rewrite Hn. by intros [].
Qed.

Lemma insert_spents_elements c : shape age c → insert_spents (elements_of arrange (m_spentTransfers c)) = m_spentTransfers c.
Proof.
  intros Hsh. apply (insert_elements arrange arrange_perm (λ s : SpentTransactionOutput, getTransactionOutputKey s)
    (λ m s, bool_decide (is_Some (m !! getTransactionOutputKey s)) ||
      bool_decide (¬ map_Forall (λ _ s', getSpentOutputDescriptor (st_output s') ≠ getSpentOutputDescriptor (st_output s)) m))).
  - intros k s Hs. apply (shape_spent _ _ Hsh k s Hs).
  - intros m' s Hm' (k & Hk)%elem_of_elements Hn; [|done]. apply orb_false_iff. split; apply bool_decide_eq_false.
    + rewrite Hn. by intros [].
    + intros Hall. apply Hall. intros k' s' Hk' E. destruct (Hm' _ _ Hk') as [(k2 & Hk2)%elem_of_elements Hkey]; [|done].
      assert (k2 = k) as -> by (by eapply shape_once). rewrite Hk in Hk2. injection Hk2 as <-.
      rewrite <- Hkey in Hk'. by rewrite Hn in Hk'.
Qed.

(** C26: saving writes a form from which loading gives the container again, with the transfers,
    the jobs in their order and the height; the transactions come back in the order of
    their heights, but those of one height in the order of the hash index. *)
Theorem container_roundtrip c :
  container_ok age c → storable c →
  ∃ bs c', writes (save (St := BinaryOutputStreamSerializer So) arrange arrange_transactions c) bs tt ∧
    reads (load (St := BinaryInputStreamSerializer Si) arrange age fresh_info fresh_output fresh_spent fresh_job) bs c' ∧
    m_unconfirmedTransfers c' = m_unconfirmedTransfers c ∧ m_availableTransfers c' = m_availableTransfers c ∧
    m_spentTransfers c' = m_spentTransfers c ∧ m_transfersUnlockJobs c' = m_transfersUnlockJobs c ∧
    m_currentHeight c' = m_currentHeight c ∧ m_transactions c' ≡ₚ m_transactions c ∧ ordered ti_blockHeight (m_transactions c').
Proof.
  intros ([Hsh _] & Htx & _) (Hh & [Et St] & [Eu Su] & [Ea Sa] & [Es Ss] & [Ej Sj]).
  assert (in_range 32 TRANSFERS_CONTAINER_STORAGE_VERSION) as Hv by done.
  field uint32_nc Hv "version"%string W1 R1. field uint32_nc Hh "height"%string W2 R2.
  destruct (sequence_round fresh_info _ _ _ (arrange_transactions (m_transactions c)) "transactions" TransactionInformation_round)
    as (b3 & W3 & R3); [by rewrite arrange_transactions_perm|by rewrite (Permutation_length (arrange_transactions_perm _))|].
  destruct (sequence_round fresh_output _ _ _ (elements_of arrange (m_unconfirmedTransfers c)) "unconfirmedTransfers" output_round)
    as (b4 & W4 & R4); [by apply elements_forall|by rewrite length_elements|].
  destruct (sequence_round fresh_output _ _ _ (elements_of arrange (m_availableTransfers c)) "availableTransfers" output_round)
    as (b5 & W5 & R5); [by apply elements_forall|by rewrite length_elements|].
  destruct (sequence_round fresh_spent _ _ _ (elements_of arrange (m_spentTransfers c)) "spentTransfers" spent_round)
    as (b6 & W6 & R6); [by apply elements_forall|by rewrite length_elements|].
  destruct (sequence_round fresh_job _ _ _ (m_transfersUnlockJobs c) "transfersUnlockJobs" job_round Ej Sj) as (b7 & W7 & R7).
  pose proof (shape_jobs _ _ Hsh) as Hj. eexists _, _. split.
  { unfold save. do 6 (eapply writes_bind; [eassumption|cbv beta]). exact W7. }
  split.
  { unfold load. eapply reads_bind; [apply R1|]. cbv beta match. change (TRANSFERS_CONTAINER_STORAGE_VERSION <? _) with false.
    cbv beta match. eapply reads_bind; [apply R2|]. cbv beta match. do 4 (eapply reads_bind; [eassumption|cbv beta]). cbv zeta.
    change (negb (TRANSFERS_CONTAINER_STORAGE_VERSION =? 0)) with true. cbv match. rewrite <- (app_nil_r b7).
    eapply reads_bind; [exact (reads_bind_ret _ insert_jobs _ _ R7)|]. apply reads_ret. }
  cbn [m_unconfirmedTransfers m_availableTransfers m_spentTransfers m_transfersUnlockJobs m_currentHeight m_transactions].
  split_and!.
  - apply (insert_transfers_elements true), (shape_unconfirmed _ _ Hsh).
  - apply (insert_transfers_elements false), (shape_available _ _ Hsh).
  - by apply insert_spents_elements.
  - apply (insert_all_same fst snd _ []); apply Hj.
  - done.
  - transitivity (arrange_transactions (m_transactions c)); [|done]. apply (insert_all_perm ti_blockHeight ti_transactionHash _ []).
    cbn. rewrite arrange_transactions_perm. apply Htx.
  - apply (insert_all_ordered ti_blockHeight ti_transactionHash). by intros i j x y _ Hx.
Qed.
End SaveLoad.

Definition toy_fresh_info : TransactionInformation := {|
  ti_transactionHash := []; ti_publicKey := []; ti_blockHeight := 0; ti_timestamp := 0; ti_unlockTime := 0;
  ti_totalAmountIn := 0; ti_totalAmountOut := 0; ti_extra := []; ti_paymentId := []; ti_messages := [] |}.
Definition toy_fresh_output : TransactionOutputInformationEx := {|
  ex_in := toy_transfer [] 0 0; ex_unlockTime := 0; ex_blockHeight := 0; ex_transactionIndex := 0; ex_visible := false |}.
Definition toy_fresh_spent : SpentTransactionOutput := {|
  st_output := toy_fresh_output; st_spendingBlock := toy_block_info 0; st_spendingTransactionHash := []; st_inputInTransaction := 0 |}.

Lemma container_roundtrip_witness : ∃ bs c',
  writes (St := BinaryOutputStreamSerializer VectorOutputStream) (save id id toy_container2) bs tt ∧
  reads (St := BinaryInputStreamSerializer MemoryInputStream)
    (load id 10 toy_fresh_info toy_fresh_output toy_fresh_spent (0, ([], 0))) bs c' ∧
  m_spentTransfers c' = m_spentTransfers toy_container2.
Proof.
  destruct (container_roundtrip (Si := MemoryInputStream) (So := VectorOutputStream) id id 10 toy_fresh_info toy_fresh_output
    toy_fresh_spent (0, ([], 0)) id_perm (λ _, reflexivity _) toy_container2) as (bs & c' & W & R & _ & _ & Es & _).
  - apply (reachable_good id 10 id_perm), toy_reachable2.
  - apply (bool_decide_unpack _). vm_compute. exact I.
  - exists bs, c'. split; [exact W|]. split; [exact R|exact Es].
Defined.

(** Two transactions of one block, the second of which spends what the first received:
    when the hash index lists the second one first, they are loaded in this order, and
    removing their block then leaves the output of the first one available. *)
Definition toy_same_block : TransfersContainer :=
  container_of (toy_add_transaction (toy_block_info 5) toy_payment [toy_transfer (toy 6) 60 9] toy_container1).
Definition toy_reloaded : TransfersContainer :=
  with_transactions (insert_transactions (reverse (m_transactions toy_same_block))) toy_same_block.

Example reload_breaks_detach :
  match detach id 10 5 toy_same_block, detach id 10 5 toy_reloaded with
  | Ret (_, _, c), Ret (_, _, c') => transfersCount c = 0 ∧ transactionsCount c' = 0 ∧ transfersCount c' = 1 ∧
      balance mainnet 10 0 IncludeAll c' = 100
  | _, _ => False
  end.
Proof. vm_compute. by split_and!. Qed.
